(* ===== verification/_CoqProject ===== *)
-Q . S2P
Prelude.v
GoText.v
Strconv.v
Sha256.v
Clock.v
Json.v
Protocol.v
Textsafe.v
Policy.v
PolicyEval.v
Ticket.v
Access.v
AccessFlow.v
AuditChain.v
AuditLog.v
AuditOps.v
Limiter.v
Sessions.v
Gcm.v
Keyring.v
Totp.v
Users.v
Password.v
Registry.v
Middleware.v
SignIn.v
Connect.v
Gateway.v
Guac.v
UserAdmin.v
Directory.v
UserSync.v
Scim.v
NetIP.v
Addresses.v
Apprelay.v
Retention.v
Autoscaling.v
MysqlRelay.v
TargetForm.v
TargetValid.v
PolicyRepo.v
Targets.v
TargetTrust.v
Vault.v
VaultOpens.v
ApiTokens.v
