(* ===== verification/Prelude.v ===== *)
(** Zanskar: an agentless access gateway, verified.

Zanskar (src/) is one Go program.  A person signs in to it in a browser, asks
for access to a server, a desktop, a database or a web application, and works
on it through the gateway, which holds the credentials, records the session,
keeps an audit log that shows tampering, and ends the session when the right
to it ends.  This library models the parts of the program that decide: who is
signed in, who may connect to what and on which terms, what a live session may
do, when it ends, and what the log can prove afterwards.

* The parts and how they meet

A request enters through the middleware (internal/auth), which turns a cookie
or an API token into a person and roles.  Sign-in draws on the accounts
(internal/user), the second factor, the rate limiter, the browser sessions
(internal/auth) and the directories accounts come from (internal/idp).  To
connect, internal/connect asks the gate of internal/access, which asks the
policies of internal/policy; an admitted request becomes a ticket
(internal/ticket), redeemed once by the socket route, which starts a session
in the registry of internal/gateway.  Changes an administrator or a provider
makes end sessions through that registry and the browser sessions.  Secrets
are sealed by internal/crypto under the keys of internal/keyring.  Everything
is recorded by internal/audit.  Recordings are kept and deleted by
internal/session and moved to a bucket by internal/recstorage.

* How code becomes Rocq

A function that returns a value and an error returns a [result]; stateful code
takes and returns its state, a [Record] whose fields are the code's; a table is
a map from its primary key or, where queries depend on the order, a list of
rows; a statement checks the constraints its table declares.  A Go string is a
[string] with one [ascii] per byte, a byte slice a list, an integer a [Z] or an
[N] with its bounds where they matter.  Clock readings, random bytes, fresh ids
and the answers of other systems are arguments, so a theorem holds for all of
them.  Where calls interleave, the steps are those between which another
goroutine or request can run, and the theorem is about every sequence of
steps.  Code that is not in the repository is a parameter with the documented
facts it is used for as a class ([FloatLaws], [IDKeyLaws], [KeyRing],
[TimeZones], [Revoker] and the like), each with an instance that shows it can
be met.

* Files

Foundations, the Go standard library as far as the code uses it:
- Prelude.v: results, error sequencing, tactics, list and option lemmas;
- GoText.v, Strconv.v: byte strings, UTF-8, the lower case of Unicode, decimal,
  hexadecimal and base64url text;
- Sha256.v, Gcm.v: SHA-256, HMAC, AES-256-GCM, checked on published vectors;
- Clock.v: instants, RFC 3339 text and internal/store/time.go;
- Json.v: encoding/json as the audit log uses it;
- NetIP.v: addresses, prefixes and host:port text of package net.

Policies and access:
- Protocol.v: internal/protocol; Textsafe.v: internal/textsafe;
- Policy.v, PolicyEval.v: internal/policy/policy.go, validation and decision;
- PolicyRepo.v: internal/policy/repo.go, handlers.go and review.go, and the
  groups of internal/group;
- Ticket.v: internal/ticket;
- Access.v, AccessFlow.v: internal/access, the repository, and the gate, the
  handlers and the sweeper over it.

Audit log:
- AuditChain.v: internal/audit/chain.go; AuditLog.v: store.go and anchor.go;
  AuditOps.v: listing, export and reseal (store.go, export.go).

Signing in:
- Limiter.v, Sessions.v, Totp.v, Middleware.v, SignIn.v: internal/auth;
- ApiTokens.v: internal/apitoken, served by the middleware of Middleware.v;
- Users.v, Password.v: internal/user; UserAdmin.v: internal/user/adminapi and
  internal/idp/lifecycle.go;
- Directory.v, UserSync.v, Scim.v: internal/idp (idp.go, sync.go) and
  internal/idp/scim.

Secrets:
- Keyring.v: internal/crypto/envelope.go (Module Envelope) and
  internal/keyring/ring.go (Module Ring);
- Vault.v: internal/credential; VaultOpens.v: what the vault keeps, over what it
  relies on of the ring (class RingHistory).

Targets:
- TargetForm.v: internal/target/target.go, the check of a form; TargetValid.v:
  what the check leaves;
- Targets.v: internal/target/repo.go, refusals.go, handlers.go and
  dependencies.go; TargetTrust.v: what they keep.

Sessions:
- Registry.v: internal/gateway/registry.go and tap.go;
- Connect.v, Gateway.v: internal/connect (endpoints, tickets, the life of a
  session, revocation), and the session rows of internal/session;
- Guac.v: internal/gateway/guac, the protocol and its policy filter;
- Addresses.v: internal/ipspace (Module Ipspace), internal/target/forbidden.go
  and internal/connect/address.go (Module Rules);
- Apprelay.v: internal/gateway/apprelay;
- MysqlRelay.v: internal/gateway/mysqlrelay;
- Retention.v: internal/session/retention.go and the move of
  internal/recstorage/recstorage.go;
- Autoscaling.v: internal/asg/sync.go and the instance rows of asg.go, with the
  schedule of its polls (Module Schedule).

* What the theorems show

Admission.  [AccessFlow.admit_iff] says exactly when the gate lets a person
through; [grants_earned], [lifecycle] and [revoke_final] that over every
history a request becomes a grant only by an approval or a policy that allows
it, moves only along its life cycle, and stays revoked.
[PolicyEval.evaluate_allowed] gives the terms of a decision from the grants
that match.  [Ticket.redeem_once]: a ticket is redeemed at most once.
[Gateway.live_authorised] composes them: every live session goes back to a
ticket the gate admitted when it was issued, redeemed within its thirty seconds
from the same sign-in and address; the gate admitted it again then, where the
endpoint could be resolved.

Withdrawal.  [Registry.withdrawal_complete], [Gateway.recheck_withdraws],
[Gateway.rows_settle], [UserAdmin.withdrawn_everywhere],
[Sessions.over_for_good]: what is taken away ends, in the registry, in the
table and in the browser, and does not come back, where the calls that end it
succeed; [Gateway.starting_outruns_revocation] exhibits a window in which a
session that is starting is missed, [UserAdmin.failed_sign_out_answered_ok] a
sign-out that fails behind a success, [Gateway.sweep_closes_live_session] a row
the sweep closes under a session.

Identity.  [SignIn.verified_earned] and [SignIn.guess_rate] bound what a
sign-in can reach and how often it may be tried, over the refinement
[Limiter.limiter_is_per_key]; [Totp.proofs_once]: a code is accepted once;
[Middleware.token_reach]: an API token is served only on the configuration
API and only while its owner is an active administrator,
[ApiTokens.token_serves_while_it_stands] that it is one which was made and has
not ended, and [ApiTokens.tokens_are_bounded] how many stand and for how long;
[Users.accounts_in_order], [UserAdmin.admin_remains] are invariants of
the table of accounts; [Directory.no_takeover], [UserSync.sync_bounded],
[UserSync.sync_settles], [Scim.scim_stays_home], [Scim.rehired] say what a
provider can do to accounts and what it cannot.

Evidence and secrets.  [AuditChain.tamper_evident] and
[AuditLog.anchor_pins_log] turn an undetected change into a SHA-256 collision,
which they exhibit; [AuditLog.honest_log_intact]: the
program's own writes verify.  [Keyring.Ring.sealed_stays_readable]: no
rotation, change of master key or restart loses a secret, and
[Keyring.Ring.rewrap_all_or_nothing].  [VaultOpens.vault_opens],
[VaultOpens.secret_comes_back], [VaultOpens.authority_changes_by_cut_over]: a
credential opens to what was stored, its two keys stay a pair while requests
run one after another, and an authority's key changes by its cut-over alone.

Traffic.  [Guac.policy_holds_for_streams]: the clipboard and file rules hold
for every stream of a session; [Addresses.Ipspace.Reserved_is_table],
[Addresses.Rules.dialled_was_checked]: the addresses dialled are the ones
checked, against the table of special-purpose addresses;
[Apprelay.socks_reaches_origins_alone], [Apprelay.proxy_contains_pages]: what
an application's page can reach; [MysqlRelay.relay_forwards]: what of a
client's stream a database server is given.  [Retention.purge_selection] and
[Retention.move_and_sweep_agree]: which recordings the sweep deletes, and that
it and the move, interleaved and with calls that fail, never lose a recording
they did not mean to, and what they may leave behind.

Fleets.  [Autoscaling.pins_hold]: over any interleaving of polls of
clouds that list an instance once, what is pinned of an instance never changes
and was seen; [Autoscaling.poll_settles]:
which instances a poll leaves healthy, and that it ends the sessions on those
it lost and no others; [Autoscaling.polls_back_off]: when a group polls again.

Targets and rules.  [TargetValid.validated_well_formed] and
[TargetValid.validated_stands]: what the check of a target accepts, and that it
accepts it again; [TargetTrust.trusted_was_approved],
[TargetTrust.trust_moves_by_approval]: a key or certificate a session insists on
was seen and approved for that target; [TargetTrust.edits_and_probes_end_sessions],
[TargetTrust.deletion_leaves_nothing], [TargetTrust.preview_foretells]: what an
edit, a probe and a deletion end; [PolicyRepo.changes_are_rechecked]: a change of
policies or groups alters nobody's decision without a re-check of that person,
where the people it reaches can be listed and they have not just joined.

Where the code and its comments disagree, or two requests can interleave badly,
a theorem shows the behaviour as it is (for instance
[PolicyEval.standing_grant_loosens], [AccessFlow.create_race_duplicates],
[UserAdmin.concurrent_lockout], [Directory.earlier_key_undone],
[Autoscaling.half_marked_stays], [Autoscaling.listed_twice_repins],
[Gateway.unread_target_skips_gate], [Retention.part_outlives_recording],
[PolicyRepo.failed_list_checks_nobody], [TargetValid.wide_network_accepted],
[VaultOpens.double_cut_over_loses_public_key], [TargetTrust.stale_probe_restores_trust],
[PolicyRepo.added_member_not_rechecked], [VaultOpens.refused_edit_is_half_saved]).

* Bounds and fuel

Loops that consume their input recurse on it or on its length: decimal and
hexadecimal printing recurse on a fuel that their lemmas show to be enough for
the width they are used at (64 bits; addresses have eight groups of 16 bits, so
[groups6] takes eight).  [Password.generated_password] proves that the
rejection sampling of generated passwords ends, with the draws it needs.  The pages
[PolicyRepo.usage_from] reads are at most one more than the policies, which
[usage_pages] shows enough.  Retry loops of the code keep the code's own bound.  Fuel never decides a theorem:
where a definition takes it, the theorem is stated at a fuel shown enough or
for every history length.

* Not modelled

A database or file system that cannot be reached, other than where the code
acts on the failure; SQL text (the effect of each statement is modelled);
audit rows written by handlers whose claims are not about them; HTTP
encoding and the console's pages; clients of other protocols (SSH, WinRM, LDAP,
OpenID Connect, database drivers, Docker, cloud APIs), which are third-party
libraries with I/O around them; metrics, updates, certificates, the command
line, the Terraform provider and the main program, which wire the parts
together.  Parts with logic of their own that are not modelled yet, in the
order they would be taken up: the administration of autoscaling groups,
configuration import and export, the grammar of the command line, the
notification queue. *)
From stdpp Require Export prelude gmap strings list fin_maps.
From Stdlib Require Export ZArith Lia Ascii ZifyN ZifyNat ZifyBool.

Set Default Goal Selector "!".

Declare Scope zanskar_scope.
Delimit Scope zanskar_scope with zanskar.
Open Scope zanskar_scope.

(** * Results

Go returns [(value, error)]; a model returns [Ok value] or [Err error]. *)

Inductive result (E A : Type) : Type :=
| Ok (a : A)
| Err (e : E).
Arguments Ok {E A} a.
Arguments Err {E A} e.

Definition rbind {E A B} (r : result E A) (k : A → result E B) : result E B :=
  match r with
  | Ok a => k a
  | Err e => Err e
  end.

Notation "'let?' x ':=' c 'in' k" := (rbind c (λ x, k))
  (at level 10, x name, c at level 100, k at level 200) : zanskar_scope.

Definition is_ok {E A} (r : result E A) : bool :=
  match r with Ok _ => true | Err _ => false end.

#[export] Instance result_eq_dec `{EqDecision E, EqDecision A} : EqDecision (result E A).
Proof. intros x y. solve_decision. Defined.

#[export] Instance Ok_inj {E A} : Inj (=) (=) (@Ok E A).
Proof. by intros a b [= ->]. Qed.

Lemma rbind_Ok {E A B} (r : result E A) (k : A → result E B) b :
  rbind r k = Ok b ↔ ∃ a, r = Ok a ∧ k a = Ok b.
Proof. destruct r; simpl; naive_solver. Qed.

(** * Time

An instant is a number of nanoseconds since the Unix epoch, as Go's
[time.Time] denotes it once its location is set aside; a duration is a number
of nanoseconds. *)

Abbreviation time := Z (only parsing).
Abbreviation duration := Z (only parsing).

Definition Microsecond : duration := 1000.
Definition Second : duration := 1000000000.
Definition Minute : duration := 60 * Second.
Definition Hour : duration := 60 * Minute.

(** [t.After(u)] and [t.Before(u)]. *)
Definition After (t u : time) : bool := bool_decide (u < t)%Z.
Definition Before (t u : time) : bool := bool_decide (t < u)%Z.

(** [t.Sub(u)] saturates at the bounds of an [int64]. *)
Definition maxDuration : duration := 9223372036854775807.
Definition minDuration : duration := -9223372036854775808.
Definition Sub (t u : time) : duration := Z.max minDuration (Z.min maxDuration (t - u)).

(** The zero [time.Time], the first of January of the year 1. *)
Definition zero_time : time := -62135596800 * Second.

(** [store.TimeArg]: the stored form of an instant keeps microseconds. *)
Definition TimeArg (t : time) : time := (t / Microsecond * Microsecond)%Z.

(** * Automation *)

(** Splits every boolean connective of the context into its propositions. *)
Ltac bool_simpl :=
  repeat match goal with
  | H : (_ && _)%bool = true |- _ => apply andb_true_iff in H as [? ?]
  | H : (_ && _)%bool = false |- _ => apply andb_false_iff in H
  | H : (_ || _)%bool = true |- _ => apply orb_true_iff in H
  | H : (_ || _)%bool = false |- _ => apply orb_false_iff in H as [? ?]
  | H : negb _ = true |- _ => apply negb_true_iff in H
  | H : negb _ = false |- _ => apply negb_false_iff in H
  | H : bool_decide _ = true |- _ => apply bool_decide_eq_true in H
  | H : bool_decide _ = false |- _ => apply bool_decide_eq_false in H
  end.

(** [lia] with quotients and remainders by constants unfolded. *)
Ltac div_lia := zify; Z.to_euclidean_division_equations; lia.

Create HintDb zanskar.
Create Rewrite HintDb zanskar.

(** * Lists *)

(** [slices.Contains] on a list of strings. *)
Definition contains (l : list string) (s : string) : bool := bool_decide (s ∈ l).

Lemma contains_spec l s : contains l s = true ↔ s ∈ l.
Proof. unfold contains. apply bool_decide_eq_true. Qed.

Lemma contains_false l s : contains l s = false ↔ s ∉ l.
Proof. unfold contains. apply bool_decide_eq_false. Qed.

Lemma existsb_true {A} (f : A → bool) l : existsb f l = true ↔ ∃ x, x ∈ l ∧ f x = true.
Proof. rewrite existsb_exists. by setoid_rewrite list_elem_of_In. Qed.

Lemma existsb_false {A} (f : A → bool) l : existsb f l = false ↔ ∀ x, x ∈ l → f x = false.
Proof.
  rewrite <-not_true_iff_false, existsb_true. split.
  - intros H x Hx. apply not_true_iff_false. naive_solver.
  - intros H (x & Hx & Hf). rewrite H in Hf; done.
Qed.

Lemma forallb_true {A} (f : A → bool) l : forallb f l = true ↔ ∀ x, x ∈ l → f x = true.
Proof. rewrite forallb_forall. by setoid_rewrite list_elem_of_In. Qed.

#[export] Hint Rewrite @existsb_true @existsb_false @forallb_true contains_spec contains_false : zanskar.

(** * Loops *)

(** [for _, x := range l { if err := f(x); err != nil { return err } }]. *)
Fixpoint first_error {E A} (f : A → result E unit) (l : list A) : result E unit :=
  match l with
  | [] => Ok tt
  | x :: l => let? _ := f x in first_error f l
  end.

(** The same loop writing each element back. *)
Fixpoint traverse {E A} (f : A → result E A) (l : list A) : result E (list A) :=
  match l with
  | [] => Ok []
  | x :: l => let? y := f x in let? l' := traverse f l in Ok (y :: l')
  end.

(** The loop that keeps a [seen] map: each element passes [before], must have a
key not seen yet (the error [twice] otherwise), then passes [after]. *)
Fixpoint each_once {A K E} `{EqDecision K} (key : A → K) (before : A → result E unit)
    (twice : A → E) (after : A → result E unit) (l : list A) (seen : list K) : result E unit :=
  match l with
  | [] => Ok tt
  | x :: l =>
      let? _ := before x in
      if bool_decide (key x ∈ seen) then Err (twice x)
      else let? _ := after x in each_once key before twice after l (key x :: seen)
  end.

Lemma first_error_ok {E A} (f : A → result E unit) l :
  first_error f l = Ok tt ↔ Forall (λ x, f x = Ok tt) l.
Proof.
  induction l as [|x l IH]; simpl; [done|]. rewrite Forall_cons.
  destruct (f x) as [[]|]; simpl; naive_solver.
Qed.

Lemma traverse_ok {E A} (f : A → result E A) l l' :
  traverse f l = Ok l' ↔ Forall2 (λ x y, f x = Ok y) l l'.
Proof.
  revert l'. induction l as [|x l IH]; intros l'; simpl.
  { split; [intros [= <-]; constructor|by intros ->%Forall2_nil_inv_l]. }
  rewrite rbind_Ok. setoid_rewrite rbind_Ok. setoid_rewrite IH. split.
  - intros (y & ? & l2 & ? & [= <-]). by constructor.
  - intros (y & l2 & ? & ? & ->)%Forall2_cons_inv_l. eauto.
Qed.

Lemma each_once_ok {A K E} `{EqDecision K} key before twice after (l : list A) (seen : list K) :
  each_once (E:=E) key before twice after l seen = Ok tt ↔
  Forall (λ x, before x = Ok tt ∧ after x = Ok tt ∧ key x ∉ seen) l ∧ NoDup (key <$> l).
Proof.
  revert seen. induction l as [|x l IH]; intros seen; simpl.
  { split; [split; constructor|done]. }
  rewrite Forall_cons, NoDup_cons. destruct (before x) as [[]|]; simpl; [|naive_solver].
  case_bool_decide; [naive_solver|]. destruct (after x) as [[]|]; simpl; [|naive_solver].
  rewrite IH, !Forall_forall, list_elem_of_fmap. setoid_rewrite not_elem_of_cons. naive_solver.
Qed.

Lemma each_once_unique {A K E} `{EqDecision K} (key : A → K) before twice l :
  each_once (E:=E) key before twice (λ _, Ok tt) l [] = Ok tt ↔
  Forall (λ x, before x = Ok tt) l ∧ NoDup (key <$> l).
Proof.
  rewrite each_once_ok, !Forall_forall. split.
  - intros [Hf ?]. split; [|done]. intros x Hx. apply (Hf x Hx).
  - intros [Hf ?]. split; [|done]. intros x Hx. split_and!; [by auto|done|apply not_elem_of_nil].
Qed.

(** [if bad { return err }]. *)
Definition refuse_if {E} (bad : bool) (e : E) : result E unit := if bad then Err e else Ok tt.

Lemma refuse_if_ok {E} bad (e : E) : refuse_if bad e = Ok tt ↔ bad = false.
Proof. destruct bad; simpl; naive_solver. Qed.

Lemma filter_all {A} (f : A → bool) l : (∀ x, x ∈ l → f x = true) → List.filter f l = l.
Proof.
  induction l as [|a l IH]; intros Hf; simpl; [done|]. rewrite Hf by left. f_equal. apply IH. intros x Hx. apply Hf. by right.
Qed.

Lemma filter_none {A} (f : A → bool) l : (∀ x, x ∈ l → f x = false) → List.filter f l = [].
Proof.
  induction l as [|a l IH]; intros Hf; simpl; [done|]. rewrite Hf by left. apply IH. intros x Hx. apply Hf. by right.
Qed.
