(* ===== verification/GoText.v ===== *)
(** The parts of Go's standard library on text that the components use:
byte strings, decimal integers, hexadecimal and base64url.  A Go [string] is a
[string] of Rocq, one [ascii] per byte; a [[]byte] is a [list ascii]. *)
From S2P Require Import Prelude.
From Stdlib Require Import DecimalString DecimalN.

Abbreviation bytes := (list ascii).

Definition to_bytes (s : string) : bytes := String.list_ascii_of_string s.
Definition of_bytes (b : bytes) : string := String.string_of_list_ascii b.

Lemma of_to_bytes s : of_bytes (to_bytes s) = s.
Proof. apply String.string_of_list_ascii_of_string. Qed.

Lemma to_of_bytes b : to_bytes (of_bytes b) = b.
Proof. apply String.list_ascii_of_string_of_list_ascii. Qed.

Lemma of_bytes_length b : String.length (of_bytes b) = length b.
Proof. induction b as [|a b IH]; simpl; [done|]. by f_equal. Qed.

Lemma to_bytes_app s t : to_bytes (s ++ t)%string = to_bytes s ++ to_bytes t.
Proof. induction s as [|c s IH]; [done|]. change (c :: to_bytes (s ++ t)%string = c :: (to_bytes s ++ to_bytes t)). by rewrite IH. Qed.

#[export] Instance to_bytes_inj : Inj (=) (=) to_bytes.
Proof. intros s t H. by rewrite <-(of_to_bytes s), H, of_to_bytes. Qed.

#[export] Instance of_bytes_inj : Inj (=) (=) of_bytes.
Proof. intros s t H. by rewrite <-(to_of_bytes s), H, to_of_bytes. Qed.

Definition byte_N (a : ascii) : N := N_of_ascii a.
Definition byte_of (n : N) : ascii := ascii_of_N n.

Lemma byte_N_bound a : (byte_N a < 256)%N.
Proof. destruct a as [[] [] [] [] [] [] [] []]; vm_compute; reflexivity. Qed.

Lemma byte_of_byte_N a : byte_of (byte_N a) = a.
Proof. apply ascii_N_embedding. Qed.

(** * base64.RawURLEncoding *)
Module Base64.

Definition alphabet : string :=
  "ABCDEFGHIJKLMNOPQRSTUVWXYZabcdefghijklmnopqrstuvwxyz0123456789-_".

Definition digit (n : N) : ascii := default zero (to_bytes alphabet !! N.to_nat n).

Definition index (a : ascii) : N :=
  match list_find (λ c, c = a) (to_bytes alphabet) with
  | Some (i, _) => N.of_nat i
  | None => 64
  end.

Fixpoint encode_bytes (b : bytes) : bytes :=
  match b with
  | x :: y :: z :: rest =>
      let '(x', y', z') := (byte_N x, byte_N y, byte_N z) in
      digit (x' / 4) :: digit (x' mod 4 * 16 + y' / 16)
        :: digit (y' mod 16 * 4 + z' / 64) :: digit (z' mod 64) :: encode_bytes rest
  | [x; y] =>
      let '(x', y') := (byte_N x, byte_N y) in
      [digit (x' / 4); digit (x' mod 4 * 16 + y' / 16); digit (y' mod 16 * 4)]
  | [x] => let x' := byte_N x in [digit (x' / 4); digit (x' mod 4 * 16)]
  | [] => []
  end%N.

Fixpoint decode_bytes (b : bytes) : bytes :=
  match b with
  | p :: q :: r :: s :: rest =>
      let '(p', q', r', s') := (index p, index q, index r, index s) in
      byte_of (p' * 4 + q' / 16) :: byte_of (q' mod 16 * 16 + r' / 4)
        :: byte_of (r' mod 4 * 64 + s') :: decode_bytes rest
  | [p; q; r] =>
      let '(p', q', r') := (index p, index q, index r) in
      [byte_of (p' * 4 + q' / 16); byte_of (q' mod 16 * 16 + r' / 4)]
  | [p; q] => [byte_of (index p * 4 + index q / 16)]
  | _ => []
  end%N.

(** [base64.RawURLEncoding.EncodeToString]. *)
Definition EncodeToString (b : bytes) : string := of_bytes (encode_bytes b).

Lemma index_digit_all : forallb (λ n, bool_decide (index (digit (N.of_nat n)) = N.of_nat n)) (seq 0 64) = true.
Proof. vm_compute. reflexivity. Qed.

Lemma index_digit n : (n < 64)%N → index (digit n) = n.
Proof.
  intros Hn. pose proof index_digit_all as H. rewrite forallb_true in H.
  specialize (H (N.to_nat n)). rewrite N2Nat.id in H.
  eapply bool_decide_eq_true, H, elem_of_seq. lia.
Qed.

Lemma decode_encode64 b : decode_bytes (encode_bytes b) = b.
Proof.
  induction b as [b IH] using (induction_ltof1 _ length). unfold ltof in IH.
  destruct b as [|x [|y [|z rest]]]; cbn [encode_bytes decode_bytes]; [done|..].
  all: pose proof (byte_N_bound x); try pose proof (byte_N_bound y); try pose proof (byte_N_bound z).
  all: rewrite !index_digit by div_lia.
  1,2: repeat f_equal; rewrite <-byte_of_byte_N; f_equal; div_lia.
  rewrite IH by (simpl; lia).
  repeat f_equal; rewrite <-byte_of_byte_N; f_equal; div_lia.
Qed.

#[export] Instance EncodeToString_inj : Inj (=) (=) EncodeToString.
Proof.
  intros b c H%of_bytes_inj. by rewrite <-(decode_encode64 b), H, decode_encode64.
Qed.

End Base64.

(** * unicode/utf8 *)
Module Utf8.
Local Open Scope N_scope.

Abbreviation rune := N.

Definition RuneError : rune := 65533.

(** Code points a string can encode: up to U+10FFFF, surrogates excluded. *)
Definition valid_rune (r : rune) : bool :=
  (r <? 55296) || ((57343 <? r) && (r <=? 1114111)).

Definition cont (b : N) : bool := (128 <=? b) && (b <=? 191).

(** The range the second byte must fall in after lead byte [b0]. *)
Definition second_ok (b0 b1 : N) : bool :=
  if b0 =? 224 then (160 <=? b1) && (b1 <=? 191)
  else if b0 =? 237 then (128 <=? b1) && (b1 <=? 159)
  else if b0 =? 240 then (144 <=? b1) && (b1 <=? 191)
  else if b0 =? 244 then (128 <=? b1) && (b1 <=? 143)
  else cont b1.

(** [utf8.DecodeRune] on a non-empty string: the rune and its width.  A byte
that starts no valid encoding decodes as [RuneError] with width 1. *)
Definition decode (b : bytes) : rune * nat :=
  match b with
  | [] => (RuneError, 0%nat)
  | a0 :: rest =>
      let b0 := byte_N a0 in
      if b0 <? 128 then (b0, 1%nat)
      else if (194 <=? b0) && (b0 <=? 223) then
        match rest with
        | a1 :: _ =>
            let b1 := byte_N a1 in
            if cont b1 then (b0 mod 32 * 64 + b1 mod 64, 2%nat) else (RuneError, 1%nat)
        | _ => (RuneError, 1%nat)
        end
      else if (224 <=? b0) && (b0 <=? 239) then
        match rest with
        | a1 :: a2 :: _ =>
            let b1 := byte_N a1 in let b2 := byte_N a2 in
            if second_ok b0 b1 && cont b2
            then (b0 mod 16 * 4096 + b1 mod 64 * 64 + b2 mod 64, 3%nat) else (RuneError, 1%nat)
        | _ => (RuneError, 1%nat)
        end
      else if (240 <=? b0) && (b0 <=? 244) then
        match rest with
        | a1 :: a2 :: a3 :: _ =>
            let b1 := byte_N a1 in let b2 := byte_N a2 in let b3 := byte_N a3 in
            if second_ok b0 b1 && cont b2 && cont b3
            then (b0 mod 8 * 262144 + b1 mod 64 * 4096 + b2 mod 64 * 64 + b3 mod 64, 4%nat)
            else (RuneError, 1%nat)
        | _ => (RuneError, 1%nat)
        end
      else (RuneError, 1%nat)
  end.

(** [utf8.AppendRune] to an empty buffer; an invalid rune is written as
[RuneError]. *)
Definition encode (r : rune) : bytes :=
  let r := if valid_rune r then r else RuneError in
  if r <? 128 then [byte_of r]
  else if r <? 2048 then [byte_of (192 + r / 64); byte_of (128 + r mod 64)]
  else if r <? 65536 then
    [byte_of (224 + r / 4096); byte_of (128 + r / 64 mod 64); byte_of (128 + r mod 64)]
  else [byte_of (240 + r / 262144); byte_of (128 + r / 4096 mod 64);
        byte_of (128 + r / 64 mod 64); byte_of (128 + r mod 64)].

Lemma byte_N_of n : n < 256 → byte_N (byte_of n) = n.
Proof. apply N_ascii_embedding. Qed.

Lemma decode_width b : b ≠ [] → (1 ≤ (decode b).2 ≤ 4)%nat ∧ ((decode b).2 ≤ length b)%nat.
Proof.
  destruct b as [|a0 rest]; [done|]. intros _. unfold decode.
  repeat case_match; simpl; lia.
Qed.

Lemma second_ok_plain b0 b1 :
  b0 <> 224 → b0 <> 237 → b0 <> 240 → b0 <> 244 → second_ok b0 b1 = cont b1.
Proof. intros. unfold second_ok. rewrite !(proj2 (N.eqb_neq _ _)) by done. done. Qed.

Lemma cont_small n : n < 64 → cont (128 + n) = true.
Proof. intros. apply andb_true_iff. split; apply N.leb_le; lia. Qed.

(** Reading back what was written, whatever follows. *)
Lemma decode_encode r rest :
  valid_rune r = true → decode (encode r ++ rest) = (r, length (encode r)).
Proof.
  intros Hv. unfold encode. rewrite Hv.
  assert (r <= 1114111 ∧ (r < 55296 ∨ 57343 < r)) as [Hmax Hsur].
  { unfold valid_rune in Hv. bool_simpl. destruct Hv as [?%N.ltb_lt|H]; [lia|]. bool_simpl. lia. }
  destruct (N.ltb_spec r 128); [|destruct (N.ltb_spec r 2048); [|destruct (N.ltb_spec r 65536)]];
    cbn [app decode length]; rewrite !byte_N_of by div_lia.
  - by rewrite (proj2 (N.ltb_lt r 128)).
  - rewrite (proj2 (N.ltb_ge _ 128)) by lia.
    rewrite (proj2 (N.leb_le 194 _)), (proj2 (N.leb_le _ 223)) by div_lia. cbn [andb].
    rewrite cont_small by div_lia. f_equal. div_lia.
  - rewrite (proj2 (N.ltb_ge _ 128)) by lia.
    rewrite (proj2 (N.leb_gt _ 223)) by div_lia. rewrite andb_false_r.
    rewrite (proj2 (N.leb_le 224 _)), (proj2 (N.leb_le _ 239)) by div_lia. cbn [andb].
    rewrite cont_small by div_lia.
    assert (second_ok (224 + r / 4096) (128 + r / 64 mod 64) = true) as ->.
    { unfold second_ok, cont. repeat case_match; rewrite ?N.eqb_eq, ?N.eqb_neq in *;
        apply andb_true_iff; rewrite !N.leb_le; div_lia. }
    cbn [andb]. f_equal. div_lia.
  - rewrite (proj2 (N.ltb_ge _ 128)) by lia.
    rewrite (proj2 (N.leb_gt _ 223)), andb_false_r by div_lia.
    rewrite (proj2 (N.leb_gt _ 239)), andb_false_r by div_lia.
    rewrite (proj2 (N.leb_le 240 _)), (proj2 (N.leb_le _ 244)) by div_lia. cbn [andb].
    rewrite !cont_small by div_lia.
    assert (second_ok (240 + r / 262144) (128 + r / 4096 mod 64) = true) as ->.
    { unfold second_ok, cont. repeat case_match; rewrite ?N.eqb_eq, ?N.eqb_neq in *;
        apply andb_true_iff; rewrite !N.leb_le; div_lia. }
    cbn [andb]. f_equal. div_lia.
Qed.

#[global] Arguments decode : simpl never.
#[global] Arguments encode : simpl never.

(** [for _, r := range s]: the runes of a string with the bytes each was
decoded from.  [length b] steps are enough, since every step consumes at least
one byte. *)
Fixpoint chunks_fuel (fuel : nat) (b : bytes) : list (rune * bytes) :=
  match fuel, b with
  | S fuel, _ :: _ =>
      let '(r, w) := decode b in (r, take w b) :: chunks_fuel fuel (drop w b)
  | _, _ => []
  end.

Definition chunks (b : bytes) : list (rune * bytes) := chunks_fuel (length b) b.

Definition runes (b : bytes) : list rune := (chunks b).*1.

(** [utf8.RuneCountInString]. *)
Definition rune_count (b : bytes) : nat := length (runes b).

Lemma chunks_fuel_enough n m b :
  (length b ≤ n)%nat → (length b ≤ m)%nat → chunks_fuel n b = chunks_fuel m b.
Proof.
  revert m b. induction n as [|n IH]; intros m b Hn Hm; destruct m as [|m], b as [|a b]; simpl in *; try done; try lia.
  pose proof (decode_width (a :: b) ltac:(done)) as [Hw Hl].
  destruct (decode (a :: b)) as [r w]. simpl in Hw, Hl. f_equal. apply IH; rewrite length_drop; simpl; lia.
Qed.

(** One iteration of the loop. *)
Lemma chunks_step b : b ≠ [] → chunks b = ((decode b).1, take (decode b).2 b) :: chunks (drop (decode b).2 b).
Proof.
  intros Hb. pose proof (decode_width b Hb) as [Hw Hl]. unfold chunks.
  destruct b as [|a b]; [done|]. simpl length. cbn [chunks_fuel].
  destruct (decode (a :: b)) as [r w] eqn:E. simpl in *. f_equal.
  apply chunks_fuel_enough; rewrite length_drop; simpl; lia.
Qed.

Lemma chunks_bytes b : concat (chunks b).*2 = b.
Proof.
  induction b as [b IH] using (induction_ltof1 _ length). unfold ltof in IH.
  destruct (decide (b = [])) as [->|Hb]; [done|].
  pose proof (decode_width b Hb) as [Hw Hl]. rewrite (chunks_step b Hb). simpl.
  rewrite IH by (rewrite length_drop; lia). apply take_drop.
Qed.

Lemma chunks_encode r rest :
  valid_rune r = true → chunks (encode r ++ rest) = (r, encode r) :: chunks rest.
Proof.
  intros Hv. pose proof (decode_encode r rest Hv) as Hd.
  assert (encode r ++ rest ≠ []) as Hne.
  { unfold encode. repeat case_match; simpl; done. }
  rewrite (chunks_step _ Hne), Hd. simpl. by rewrite take_app_length, drop_app_length.
Qed.

(** Decoding a prefix that holds the whole first chunk gives the same chunk. *)
Lemma decode_prefix p q : ((decode (p ++ q)).2 ≤ length p)%nat → p ≠ [] → decode p = decode (p ++ q).
Proof.
  intros Hw Hp. destruct p as [|a0 p]; [done|]. revert Hw. unfold decode. cbn [app].
  destruct p as [|a1 [|a2 [|a3 p]]], q as [|c1 [|c2 [|c3 q]]]; cbn [app length]; intros Hw;
    try done; repeat case_match; simplify_eq; simpl in *; try done; try lia.
Qed.

Lemma chunks_prefix k b : chunks (concat (take k (chunks b)).*2) = take k (chunks b).
Proof.
  revert b. induction k as [|k IH]; intros b; [done|].
  destruct (decide (b = [])) as [->|Hb]; [done|].
  pose proof (decode_width b Hb) as [Hw Hl]. rewrite (chunks_step b Hb). cbn [take fmap list_fmap concat snd fst].
  set (w := (decode b).2) in *. set (tl := concat _).
  assert (Hdec : decode (take w b ++ tl) = decode b).
  { assert (∃ q, take w b ++ tl ++ q = b) as [q Hq].
    { exists (concat (drop k (chunks (drop w b))).*2). unfold tl.
      rewrite <-concat_app, <-fmap_app, take_drop, chunks_bytes. apply take_drop. }
    rewrite <-Hq at 2. rewrite app_assoc. apply decode_prefix.
    - rewrite <-app_assoc, Hq, length_app, length_take. fold w. lia.
    - intros [H _]%app_nil. apply (f_equal length) in H. rewrite length_take in H. simpl in H. lia. }
  assert (take w b ++ tl ≠ []) as Hne.
  { intros [H _]%app_nil. apply (f_equal length) in H. rewrite length_take in H. simpl in H. lia. }
  rewrite (chunks_step _ Hne), Hdec. fold w.
  assert (Hlen : length (take w b) = w) by (rewrite length_take; lia).
  rewrite take_app_length', drop_app_length' by done. f_equal. apply IH.
Qed.

Lemma chunks_suffix k b : chunks (concat (drop k (chunks b)).*2) = drop k (chunks b).
Proof.
  revert b. induction k as [|k IH]; intros b; [by rewrite drop_0, chunks_bytes|].
  destruct (decide (b = [])) as [->|Hb]; [done|]. rewrite (chunks_step b Hb). apply IH.
Qed.

Lemma byte_eq a n : byte_N a = n → a = byte_of n.
Proof. intros <-. by rewrite byte_of_byte_N. Qed.

Lemma valid_rune_range v : (v < 55296 ∨ 57343 < v) → v <= 1114111 → valid_rune v = true.
Proof. intros H1 H2. unfold valid_rune. apply orb_true_iff. rewrite N.ltb_lt, andb_true_iff, N.ltb_lt, N.leb_le. lia. Qed.

(** ASCII text is one rune a byte. *)
Lemma encode_ascii a : byte_N a < 128 → encode (byte_N a) = [a].
Proof.
  intros Ha. unfold encode. assert (valid_rune (byte_N a) = true) as ->.
  { apply valid_rune_range; lia. }
  rewrite (proj2 (N.ltb_lt _ _)) by done. by rewrite byte_of_byte_N.
Qed.

Lemma chunks_ascii b : Forall (λ a, byte_N a < 128) b → chunks b = (λ a, (byte_N a, [a])) <$> b.
Proof.
  induction 1 as [|a b Ha _ IH]; [done|].
  change (a :: b) with ([a] ++ b). rewrite <-(encode_ascii a Ha), chunks_encode by (apply valid_rune_range; lia).
  rewrite IH. cbn [fmap list_fmap]. by rewrite encode_ascii.
Qed.

Lemma cont_range b : cont b = true ↔ 128 <= b <= 191.
Proof. unfold cont. rewrite andb_true_iff, !N.leb_le. done. Qed.

(** The lead byte fixes what the second may be, and so keeps each width to its
own range of characters. *)
Lemma second_ok_range x y :
  second_ok x y = true → 128 <= y <= 191 ∧ (x = 224 → 160 <= y) ∧ (x = 237 → y <= 159) ∧ (x = 240 → 144 <= y) ∧ (x = 244 → y <= 143).
Proof.
  unfold second_ok, cont. destruct (N.eqb_spec x 224), (N.eqb_spec x 237), (N.eqb_spec x 240), (N.eqb_spec x 244);
    rewrite andb_true_iff, !N.leb_le; lia.
Qed.

Lemma encode_two x y :
  194 <= x <= 223 → cont y = true →
  let v := x mod 32 * 64 + y mod 64 in valid_rune v = true ∧ encode v = [byte_of x; byte_of y].
Proof.
  intros Hx Hy%cont_range v. assert (128 <= v < 2048) as Hv by (unfold v; div_lia).
  assert (valid_rune v = true) as Hr by (apply valid_rune_range; lia). split; [done|]. unfold encode.
  rewrite Hr, (proj2 (N.ltb_ge v 128)), (proj2 (N.ltb_lt v 2048)) by lia. repeat f_equal; unfold v; div_lia.
Qed.

Lemma encode_three x y z :
  224 <= x <= 239 → second_ok x y = true → cont z = true →
  let v := x mod 16 * 4096 + y mod 64 * 64 + z mod 64 in
  valid_rune v = true ∧ encode v = [byte_of x; byte_of y; byte_of z].
Proof.
  intros Hx Hy%second_ok_range Hz%cont_range v.
  assert (2048 <= v < 65536 ∧ (v < 55296 ∨ 57343 < v)) as [Hv Hs] by (unfold v; div_lia).
  assert (valid_rune v = true) as Hr by (apply valid_rune_range; lia). split; [done|]. unfold encode.
  rewrite Hr, (proj2 (N.ltb_ge v 128)), (proj2 (N.ltb_ge v 2048)), (proj2 (N.ltb_lt v 65536)) by lia.
  repeat f_equal; unfold v; div_lia.
Qed.

Lemma encode_four w x y z :
  240 <= w <= 244 → second_ok w x = true → cont y = true → cont z = true →
  let v := w mod 8 * 262144 + x mod 64 * 4096 + y mod 64 * 64 + z mod 64 in
  valid_rune v = true ∧ encode v = [byte_of w; byte_of x; byte_of y; byte_of z].
Proof.
  intros Hw Hx%second_ok_range Hy%cont_range Hz%cont_range v.
  assert (65536 <= v <= 1114111) as Hv by (unfold v; div_lia).
  assert (valid_rune v = true) as Hr by (apply valid_rune_range; lia). split; [done|]. unfold encode.
  rewrite Hr, (proj2 (N.ltb_ge v 128)), (proj2 (N.ltb_ge v 2048)), (proj2 (N.ltb_ge v 65536)) by lia.
  repeat f_equal; unfold v; div_lia.
Qed.

(** A chunk that decodes as a character is the encoding of that character. *)
Lemma encode_decode b r w :
  b ≠ [] → decode b = (r, w) → ¬ (r = RuneError ∧ w = 1%nat) → valid_rune r = true ∧ take w b = encode r.
Proof.
  intros Hb Hd Hne. destruct b as [|a0 rest]; [done|]. unfold decode in Hd.
  destruct (N.ltb_spec (byte_N a0) 128).
  { injection Hd as <- <-. assert (valid_rune (byte_N a0) = true) as Hr by (apply valid_rune_range; lia).
    split; [done|]. unfold encode. rewrite Hr, (proj2 (N.ltb_lt _ _)) by done. simpl. by rewrite byte_of_byte_N. }
  destruct ((194 <=? byte_N a0) && (byte_N a0 <=? 223)) eqn:E2; rewrite ?andb_true_iff, ?N.leb_le in E2.
  { destruct rest as [|a1 rest]; [(injection Hd as <- <-; by destruct Hne)|]. destruct (cont (byte_N a1)) eqn:C1; [|(injection Hd as <- <-; by destruct Hne)].
    injection Hd as <- <-. destruct (encode_two _ _ E2 C1) as [? ->]. split; [done|]. simpl. by rewrite !byte_of_byte_N. }
  destruct ((224 <=? byte_N a0) && (byte_N a0 <=? 239)) eqn:E3; rewrite ?andb_true_iff, ?N.leb_le in E3.
  { destruct rest as [|a1 [|a2 rest]]; [(injection Hd as <- <-; by destruct Hne)..|].
    destruct (second_ok _ _) eqn:C1, (cont (byte_N a2)) eqn:C2; simpl in Hd; try (injection Hd as <- <-; by destruct Hne).
    injection Hd as <- <-. destruct (encode_three _ _ _ E3 C1 C2) as [? ->]. split; [done|]. simpl. by rewrite !byte_of_byte_N. }
  destruct ((240 <=? byte_N a0) && (byte_N a0 <=? 244)) eqn:E4; rewrite ?andb_true_iff, ?N.leb_le in E4; [|(injection Hd as <- <-; by destruct Hne)].
  destruct rest as [|a1 [|a2 [|a3 rest]]]; [(injection Hd as <- <-; by destruct Hne)..|].
  destruct (second_ok _ _) eqn:C1, (cont (byte_N a2)) eqn:C2, (cont (byte_N a3)) eqn:C3; simpl in Hd; try (injection Hd as <- <-; by destruct Hne).
  injection Hd as <- <-. destruct (encode_four _ _ _ _ E4 C1 C2 C3) as [? ->]. split; [done|]. simpl. by rewrite !byte_of_byte_N.
Qed.

(** [utf8.Valid]. *)
Definition Valid (b : bytes) : bool :=
  forallb (λ c, negb ((c.1 =? RuneError) && (length c.2 =? 1)%nat)) (chunks b).

Lemma Valid_chunks b :
  Valid b = true → ∀ c, c ∈ chunks b → valid_rune c.1 = true ∧ c.2 = encode c.1.
Proof.
  unfold Valid. rewrite forallb_true. intros H.
  enough (∀ k c, (length b ≤ k)%nat → c ∈ chunks b → valid_rune c.1 = true ∧ c.2 = encode c.1) as Hk by (intros c; by apply (Hk (length b))).
  intros k. revert b H. induction k as [|k IH]; intros b H c Hl Hc.
  { destruct b; [by apply not_elem_of_nil in Hc|simpl in Hl; lia]. }
  destruct (decide (b = [])) as [->|Hb]; [by apply not_elem_of_nil in Hc|].
  pose proof (decode_width b Hb) as [Hw Hlen]. rewrite (chunks_step b Hb) in H, Hc. apply elem_of_cons in Hc as [->|Hc].
  - simpl. destruct (decode b) as [r w] eqn:Hd. simpl in *. apply (encode_decode b r w Hb Hd).
    intros [-> ->]. specialize (H (RuneError, take 1 b) ltac:(left)). simpl in H. rewrite length_take in H.
    replace (1 `min` length b)%nat with 1%nat in H by lia. done.
  - apply (IH (drop (decode b).2 b)); [|rewrite length_drop; lia|done]. intros x Hx. apply H. by right.
Qed.

End Utf8.

(** * unicode: the predicates the sources use *)
Module Unicode.
Import Utf8.
Local Open Scope N_scope.

Definition in_range (lo hi r : N) : bool := (lo <=? r) && (r <=? hi).

(** [unicode.IsControl]: category Cc. *)
Definition IsControl (r : rune) : bool := (r <=? 31) || in_range 127 159 r.

(** [unicode.IsSpace]: the White_Space property. *)
Definition IsSpace (r : rune) : bool :=
  in_range 9 13 r || (r =? 32) || (r =? 133) || (r =? 160) || (r =? 5760)
  || in_range 8192 8202 r || (r =? 8232) || (r =? 8233) || (r =? 8239) || (r =? 8287) || (r =? 12288).

(** [unicode.Cf], the format characters. *)
Definition Cf (r : rune) : bool :=
  existsb (λ '(lo, hi), in_range lo hi r)
    [(173, 173); (1536, 1541); (1564, 1564); (1757, 1757); (1807, 1807); (2192, 2193);
     (2274, 2274); (6158, 6158); (8203, 8207); (8234, 8238); (8288, 8292); (8294, 8303);
     (65279, 65279); (65529, 65531); (69821, 69821); (69837, 69837); (78896, 78911);
     (113824, 113827); (119155, 119162); (917505, 917505); (917536, 917631)].

(** The simple lower-case mapping of Unicode outside ASCII: [(lo, hi, step, to)]
takes [lo + k] to [to + k] for each multiple [k] of [step] up to [hi]. *)
Definition lower_table : list (N * N * N * N) :=
    [(192, 214, 1, 224); (216, 222, 1, 248); (256, 302, 2, 257); (304, 304, 1, 105); (306, 310, 2, 307);
     (313, 327, 2, 314); (330, 374, 2, 331); (376, 376, 1, 255); (377, 381, 2, 378); (385, 385, 1, 595);
     (386, 388, 2, 387); (390, 390, 1, 596); (391, 391, 1, 392); (393, 394, 1, 598); (395, 395, 1, 396);
     (398, 398, 1, 477); (399, 399, 1, 601); (400, 400, 1, 603); (401, 401, 1, 402); (403, 403, 1, 608);
     (404, 404, 1, 611); (406, 406, 1, 617); (407, 407, 1, 616); (408, 408, 1, 409); (412, 412, 1, 623);
     (413, 413, 1, 626); (415, 415, 1, 629); (416, 420, 2, 417); (422, 422, 1, 640); (423, 423, 1, 424);
     (425, 425, 1, 643); (428, 428, 1, 429); (430, 430, 1, 648); (431, 431, 1, 432); (433, 434, 1, 650);
     (435, 437, 2, 436); (439, 439, 1, 658); (440, 440, 1, 441); (444, 444, 1, 445); (452, 452, 1, 454);
     (453, 453, 1, 454); (455, 455, 1, 457); (456, 456, 1, 457); (458, 458, 1, 460); (459, 475, 2, 460);
     (478, 494, 2, 479); (497, 497, 1, 499); (498, 500, 2, 499); (502, 502, 1, 405); (503, 503, 1, 447);
     (504, 542, 2, 505); (544, 544, 1, 414); (546, 562, 2, 547); (570, 570, 1, 11365); (571, 571, 1, 572);
     (573, 573, 1, 410); (574, 574, 1, 11366); (577, 577, 1, 578); (579, 579, 1, 384); (580, 580, 1, 649);
     (581, 581, 1, 652); (582, 590, 2, 583); (880, 882, 2, 881); (886, 886, 1, 887); (895, 895, 1, 1011);
     (902, 902, 1, 940); (904, 906, 1, 941); (908, 908, 1, 972); (910, 911, 1, 973); (913, 929, 1, 945);
     (931, 939, 1, 963); (975, 975, 1, 983); (984, 1006, 2, 985); (1012, 1012, 1, 952); (1015, 1015, 1, 1016);
     (1017, 1017, 1, 1010); (1018, 1018, 1, 1019); (1021, 1023, 1, 891); (1024, 1039, 1, 1104);
     (1040, 1071, 1, 1072); (1120, 1152, 2, 1121); (1162, 1214, 2, 1163); (1216, 1216, 1, 1231);
     (1217, 1229, 2, 1218); (1232, 1326, 2, 1233); (1329, 1366, 1, 1377); (4256, 4293, 1, 11520);
     (4295, 4295, 1, 11559); (4301, 4301, 1, 11565); (5024, 5103, 1, 43888); (5104, 5109, 1, 5112);
     (7312, 7354, 1, 4304); (7357, 7359, 1, 4349); (7680, 7828, 2, 7681); (7838, 7838, 1, 223);
     (7840, 7934, 2, 7841); (7944, 7951, 1, 7936); (7960, 7965, 1, 7952); (7976, 7983, 1, 7968);
     (7992, 7999, 1, 7984); (8008, 8013, 1, 8000); (8025, 8031, 2, 8017); (8040, 8047, 1, 8032);
     (8072, 8079, 1, 8064); (8088, 8095, 1, 8080); (8104, 8111, 1, 8096); (8120, 8121, 1, 8112);
     (8122, 8123, 1, 8048); (8124, 8124, 1, 8115); (8136, 8139, 1, 8050); (8140, 8140, 1, 8131);
     (8152, 8153, 1, 8144); (8154, 8155, 1, 8054); (8168, 8169, 1, 8160); (8170, 8171, 1, 8058);
     (8172, 8172, 1, 8165); (8184, 8185, 1, 8056); (8186, 8187, 1, 8060); (8188, 8188, 1, 8179);
     (8486, 8486, 1, 969); (8490, 8490, 1, 107); (8491, 8491, 1, 229); (8498, 8498, 1, 8526); (8544, 8559, 1, 8560);
     (8579, 8579, 1, 8580); (9398, 9423, 1, 9424); (11264, 11311, 1, 11312); (11360, 11360, 1, 11361);
     (11362, 11362, 1, 619); (11363, 11363, 1, 7549); (11364, 11364, 1, 637); (11367, 11371, 2, 11368);
     (11373, 11373, 1, 593); (11374, 11374, 1, 625); (11375, 11375, 1, 592); (11376, 11376, 1, 594);
     (11378, 11378, 1, 11379); (11381, 11381, 1, 11382); (11390, 11391, 1, 575); (11392, 11490, 2, 11393);
     (11499, 11501, 2, 11500); (11506, 11506, 1, 11507); (42560, 42604, 2, 42561); (42624, 42650, 2, 42625);
     (42786, 42798, 2, 42787); (42802, 42862, 2, 42803); (42873, 42875, 2, 42874); (42877, 42877, 1, 7545);
     (42878, 42886, 2, 42879); (42891, 42891, 1, 42892); (42893, 42893, 1, 613); (42896, 42898, 2, 42897);
     (42902, 42920, 2, 42903); (42922, 42922, 1, 614); (42923, 42923, 1, 604); (42924, 42924, 1, 609);
     (42925, 42925, 1, 620); (42926, 42926, 1, 618); (42928, 42928, 1, 670); (42929, 42929, 1, 647);
     (42930, 42930, 1, 669); (42931, 42931, 1, 43859); (42932, 42946, 2, 42933); (42948, 42948, 1, 42900);
     (42949, 42949, 1, 642); (42950, 42950, 1, 7566); (42951, 42953, 2, 42952); (42960, 42960, 1, 42961);
     (42966, 42968, 2, 42967); (42997, 42997, 1, 42998); (65313, 65338, 1, 65345); (66560, 66599, 1, 66600);
     (66736, 66771, 1, 66776); (66928, 66938, 1, 66967); (66940, 66954, 1, 66979); (66956, 66962, 1, 66995);
     (66964, 66965, 1, 67003); (68736, 68786, 1, 68800); (71840, 71871, 1, 71872); (93760, 93791, 1, 93792);
     (125184, 125217, 1, 125218)].

(** [unicode.ToLower]. *)
Definition ToLower (r : rune) : rune :=
  if r <? 128 then (if in_range 65 90 r then r + 32 else r)
  else match List.find (λ '(lo, hi, step, _), in_range lo hi r && ((r - lo) mod step =? 0)) lower_table with
       | Some (lo, _, _, to) => to + (r - lo)
       | None => r
       end.
End Unicode.

(** * strings *)
Module Strings.
Import Utf8.

Definition HasPrefix (s p : string) : bool := String.prefix p s.

Definition is_space_chunk (c : rune * bytes) : bool := Unicode.IsSpace c.1.

(** How many leading elements satisfy [f]. *)
Fixpoint leading {A} (f : A → bool) (l : list A) : nat :=
  match l with
  | x :: l => if f x then S (leading f l) else 0
  | [] => 0
  end.

(** [strings.TrimSpace]: leading, then trailing white-space runes. *)
Definition trim_chunks (l : list (rune * bytes)) : list (rune * bytes) :=
  let l := drop (leading is_space_chunk l) l in
  take (length l - leading is_space_chunk (rev l)) l.

Definition TrimSpace (s : string) : string := of_bytes (concat (trim_chunks (chunks (to_bytes s))).*2).

Definition ToLower (s : string) : string :=
  of_bytes (concat (encode ∘ Unicode.ToLower <$> runes (to_bytes s))).

Lemma leading_drop {A} (f : A → bool) l : leading f (drop (leading f l) l) = 0.
Proof. induction l as [|x l IH]; simpl; [done|]. destruct (f x) eqn:E; simpl; [done|by rewrite E]. Qed.

Lemma leading_le {A} (f : A → bool) l : leading f l ≤ length l.
Proof. induction l as [|x l IH]; simpl; [done|]. destruct (f x); lia. Qed.

Lemma leading_prefix {A} (f : A → bool) l k : leading f l = 0 → leading f (take k l) = 0.
Proof. destruct l, k; simpl; try done. by destruct (f a). Qed.

Lemma trim_chunks_idem l : trim_chunks (trim_chunks l) = trim_chunks l.
Proof.
  unfold trim_chunks. set (m := drop _ l). set (k := length m - _).
  assert (leading is_space_chunk m = 0) as Hm by apply leading_drop.
  rewrite (leading_prefix _ _ k Hm), drop_0.
  pose proof (leading_le is_space_chunk (rev m)) as Hle. rewrite length_rev in Hle.
  assert (leading is_space_chunk (rev (take k m)) = 0) as ->; [|by rewrite Nat.sub_0_r, firstn_all].
  rewrite <-(leading_drop is_space_chunk (rev m)). f_equal. unfold k.
  by rewrite skipn_rev.
Qed.

Lemma TrimSpace_idem s : TrimSpace (TrimSpace s) = TrimSpace s.
Proof.
  unfold TrimSpace at 1 2. rewrite to_of_bytes.
  assert (chunks (concat (trim_chunks (chunks (to_bytes s))).*2) = trim_chunks (chunks (to_bytes s))) as ->.
  { unfold trim_chunks. set (n := leading _ _). set (k := _ - _).
    pose proof (chunks_prefix k (concat (drop n (chunks (to_bytes s))).*2)) as Hp.
    by rewrite chunks_suffix in Hp. }
  by rewrite trim_chunks_idem.
Qed.

End Strings.
