(* ===== verification/Strconv.v ===== *)
(** Decimal numbers as Go's strconv and fmt write and read them: FormatInt,
Itoa, zero-padded fields, ParseInt and Atoi on 64-bit integers. *)
From S2P Require Import Prelude GoText.
Local Open Scope N_scope.

Definition digit (n : N) : ascii := byte_of (48 + n).
Definition is_digit (a : ascii) : bool := (48 <=? byte_N a) && (byte_N a <=? 57).
Definition digit_value (a : ascii) : N := byte_N a - 48.

(** The last [w] decimal digits of [n], most significant first. *)
Fixpoint digits (w : nat) (n : N) : bytes :=
  match w with
  | O => []
  | S w => digits w (n / 10) ++ [digit (n mod 10)]
  end.

(** How many digits [n] has; the fuel is the number of its bits. *)
Fixpoint width_fuel (fuel : nat) (n : N) : nat :=
  match fuel with
  | O => 1
  | S fuel => if n <? 10 then 1 else S (width_fuel fuel (n / 10))
  end.
Definition width (n : N) : nat := width_fuel (N.to_nat (N.size n)) n.

Definition decimal (n : N) : bytes := digits (width n) n.

(** [strconv.FormatInt(z, 10)]. *)
Definition FormatInt (z : Z) : bytes :=
  if (z <? 0)%Z then byte_of 45 :: decimal (Z.to_N (- z)) else decimal (Z.to_N z).

(** The value of a run of digits, [None] at the first byte that is not one. *)
Fixpoint parse_digits (b : bytes) (acc : N) : option N :=
  match b with
  | [] => Some acc
  | a :: b => if is_digit a then parse_digits b (acc * 10 + digit_value a) else None
  end.

Definition MaxInt64 : Z := 9223372036854775807.
Definition MinInt64 : Z := -9223372036854775808.
Definition in_int64 (z : Z) : bool := ((MinInt64 <=? z) && (z <=? MaxInt64))%Z.

(** [strconv.ParseInt(s, 10, 64)], [None] for its errors. *)
Definition ParseInt (b : bytes) : option Z :=
  let '(neg, ds) := match b with
                    | a :: rest => if bool_decide (byte_N a = 45) then (true, rest)
                                   else if bool_decide (byte_N a = 43) then (false, rest) else (false, b)
                    | [] => (false, b)
                    end in
  if bool_decide (ds = []) then None
  else n ← parse_digits ds 0;
       let z := (if neg : bool then - Z.of_N n else Z.of_N n)%Z in
       if in_int64 z then Some z else None.

(** [strconv.Atoi] on a 64-bit platform. *)
Definition Atoi (b : bytes) : option Z := ParseInt b.

Lemma digit_ok n : n < 10 → is_digit (digit n) = true ∧ digit_value (digit n) = n.
Proof.
  intros H. unfold is_digit, digit_value, digit, byte_N, byte_of. rewrite N_ascii_embedding by lia. lia.
Qed.

Lemma digits_length w n : length (digits w n) = w.
Proof. revert n. induction w as [|w IH]; intros n; simpl; [done|]. rewrite length_app, IH. simpl. lia. Qed.

Lemma digits_all w n : Forall (λ a, is_digit a = true) (digits w n).
Proof.
  revert n. induction w as [|w IH]; intros n; simpl; [constructor|]. apply Forall_app. split; [done|].
  constructor; [|done]. apply digit_ok. div_lia.
Qed.

Lemma parse_digits_app b c acc : parse_digits (b ++ c) acc = n ← parse_digits b acc; parse_digits c n.
Proof. revert acc. induction b as [|a b IH]; intros acc; simpl; [done|]. by case_match. Qed.

Lemma pow10_pos w : 0 < 10 ^ N.of_nat w.
Proof. apply N.neq_0_lt_0, N.pow_nonzero. lia. Qed.

Lemma pow10_S w : 10 ^ N.of_nat (S w) = 10 * 10 ^ N.of_nat w.
Proof. by rewrite Nat2N.inj_succ, N.pow_succ_r'. Qed.

Lemma parse_digits_digits w n acc :
  n < 10 ^ N.of_nat w → parse_digits (digits w n) acc = Some (acc * 10 ^ N.of_nat w + n).
Proof.
  revert n acc. induction w as [|w IH]; intros n acc Hn.
  - simpl in *. f_equal. lia.
  - rewrite pow10_S in *. cbn [digits]. rewrite parse_digits_app, IH by div_lia. simpl.
    destruct (digit_ok (n mod 10)) as [-> ->]; [div_lia|]. f_equal. pose proof (N.div_mod n 10 ltac:(lia)). lia.
Qed.

Lemma width_enough fuel n : n < 10 ^ N.of_nat (S fuel) → n < 10 ^ N.of_nat (width_fuel fuel n).
Proof.
  revert n. induction fuel as [|fuel IH]; intros n Hn; simpl width_fuel; [done|].
  destruct (N.ltb_spec n 10); [by rewrite pow10_S; simpl; lia|]. rewrite pow10_S.
  pose proof (N.div_mod n 10 ltac:(lia)). pose proof (N.mod_lt n 10 ltac:(lia)).
  assert (n / 10 < 10 ^ N.of_nat (S fuel)) as Hlt by (rewrite pow10_S in Hn; lia).
  specialize (IH _ Hlt). lia.
Qed.

Lemma width_spec n : n < 10 ^ N.of_nat (width n).
Proof.
  apply width_enough. rewrite pow10_S, N2Nat.id. pose proof (N.size_gt n).
  assert (2 ^ N.size n ≤ 10 ^ N.size n) by (apply N.pow_le_mono_l; lia). lia.
Qed.

Lemma width_pos n : (1 ≤ width n)%nat.
Proof. unfold width. destruct (N.to_nat (N.size n)); simpl; [lia|]. case_match; lia. Qed.

Lemma decimal_nonempty n : decimal n ≠ [].
Proof. intros H%(f_equal length). unfold decimal in H. rewrite digits_length in H. pose proof (width_pos n). simpl in H. lia. Qed.

Lemma parse_decimal n : parse_digits (decimal n) 0 = Some n.
Proof. unfold decimal. rewrite parse_digits_digits by apply width_spec. f_equal. Qed.

Lemma is_digit_not_sign a : is_digit a = true → byte_N a ≠ 45 ∧ byte_N a ≠ 43.
Proof. unfold is_digit. lia. Qed.

(** What FormatInt writes, ParseInt reads back, on the whole 64-bit range. *)
Lemma ParseInt_FormatInt z : in_int64 z = true → ParseInt (FormatInt z) = Some z.
Proof.
  intros Hz. unfold FormatInt, ParseInt. destruct (Z.ltb_spec z 0).
  - cbn [byte_of]. rewrite bool_decide_eq_true_2 by done.
    rewrite bool_decide_eq_false_2 by apply decimal_nonempty. rewrite parse_decimal. simpl.
    rewrite Z2N.id, Z.opp_involutive by lia. by rewrite Hz.
  - pose proof (decimal_nonempty (Z.to_N z)) as Hne. pose proof (parse_decimal (Z.to_N z)) as Hp.
    pose proof (digits_all (width (Z.to_N z)) (Z.to_N z)) as Hd. fold (decimal (Z.to_N z)) in Hd.
    destruct (decimal (Z.to_N z)) as [|a rest]; [done|]. apply Forall_cons in Hd as [[??]%is_digit_not_sign _].
    rewrite !bool_decide_eq_false_2 by done. rewrite Hp. simpl. rewrite Z2N.id by lia. by rewrite Hz.
Qed.

#[export] Instance FormatInt_inj : Inj (=) (=) FormatInt.
Proof.
  assert (∀ n, decimal n = [] → False) as Hne by (intros n; apply decimal_nonempty).
  assert (∀ n m, decimal n = decimal m → n = m) as Hinj.
  { intros n m H. pose proof (parse_decimal n) as Hn. rewrite H, parse_decimal in Hn. congruence. }
  assert (∀ n rest, decimal n = byte_of 45 :: rest → False) as Hsign.
  { intros n rest H. pose proof (digits_all (width n) n) as Hd. fold (decimal n) in Hd. rewrite H in Hd.
    apply Forall_cons in Hd as [Hd _]. done. }
  intros x y. unfold FormatInt. destruct (Z.ltb_spec x 0), (Z.ltb_spec y 0); intros H'.
  - injection H' as H'%Hinj. lia.
  - symmetry in H'. by apply Hsign in H'.
  - by apply Hsign in H'.
  - apply Hinj in H'. lia.
Qed.
