(* ===== verification/Sha256.v ===== *)
(** The cryptographic primitives of Go's standard library the components call,
written out so that they run: crypto/sha256, crypto/hmac over it, and
encoding/hex.  No theorem assumes anything of SHA-256 beyond what is computed
here: where security depends on collision resistance, the theorem exhibits the
collision an attacker would have needed. *)
From S2P Require Import Prelude GoText.
Local Open Scope Z_scope.

(** * encoding/hex *)
Module Hex.

Definition nibble (n : N) : ascii := byte_of (if (n <? 10)%N then 48 + n else 87 + n)%N.

Definition encode_byte (a : ascii) : bytes := [nibble (byte_N a / 16)%N; nibble (byte_N a mod 16)%N].

(** [hex.EncodeToString]. *)
Definition EncodeToString (b : bytes) : string := of_bytes (b ≫= encode_byte).

(** The value of a hexadecimal digit, either case. *)
Definition value (a : ascii) : option N :=
  let n := byte_N a in
  if (48 <=? n)%N && (n <=? 57)%N then Some (n - 48)%N
  else if (97 <=? n)%N && (n <=? 102)%N then Some (n - 87)%N
  else if (65 <=? n)%N && (n <=? 70)%N then Some (n - 55)%N
  else None.

Fixpoint decode (b : bytes) : option bytes :=
  match b with
  | [] => Some []
  | x :: y :: rest =>
      h ← value x; l ← value y; d ← decode rest; Some (byte_of (h * 16 + l)%N :: d)
  | _ => None
  end.

(** [hex.DecodeString], [None] for its error. *)
Definition DecodeString (s : string) : option bytes := decode (to_bytes s).

Lemma value_nibble_all : forallb (λ n, bool_decide (value (nibble (N.of_nat n)) = Some (N.of_nat n))) (seq 0 16) = true.
Proof. by vm_compute. Qed.

Lemma value_nibble n : (n < 16)%N → value (nibble n) = Some n.
Proof.
  intros Hn. pose proof value_nibble_all as H. rewrite forallb_true in H. specialize (H (N.to_nat n)).
  rewrite N2Nat.id in H. eapply bool_decide_eq_true, H, elem_of_seq. lia.
Qed.

Lemma decode_encode_hex b : decode (b ≫= encode_byte) = Some b.
Proof.
  induction b as [|a b IH]; [done|]. pose proof (byte_N_bound a).
  rewrite bind_cons. unfold encode_byte at 1. cbn [app decode].
  rewrite !value_nibble by div_lia. rewrite IH. simpl. do 2 f_equal.
  rewrite <-byte_of_byte_N. f_equal. div_lia.
Qed.

#[export] Instance EncodeToString_inj : Inj (=) (=) EncodeToString.
Proof.
  intros b c H%of_bytes_inj. pose proof (decode_encode_hex b) as Hb. rewrite H, decode_encode_hex in Hb. congruence.
Qed.

Lemma encode_length b : length (b ≫= encode_byte) = (2 * length b)%nat.
Proof. induction b as [|a b IH]; [done|]. rewrite bind_cons, length_app, IH. simpl. lia. Qed.

End Hex.

(** * crypto/sha256 *)
Module Sha.

Definition mask : Z := 4294967295.
Definition add (x y : Z) : Z := Z.land (x + y) mask.
Definition rotr (n x : Z) : Z := Z.lor (Z.shiftr x n) (Z.land (Z.shiftl x (32 - n)) mask).
Definition not_ (x : Z) : Z := Z.lxor x mask.

Definition K : list Z := [
  1116352408; 1899447441; 3049323471; 3921009573; 961987163; 1508970993; 2453635748; 2870763221;
  3624381080; 310598401; 607225278; 1426881987; 1925078388; 2162078206; 2614888103; 3248222580;
  3835390401; 4022224774; 264347078; 604807628; 770255983; 1249150122; 1555081692; 1996064986;
  2554220882; 2821834349; 2952996808; 3210313671; 3336571891; 3584528711; 113926993; 338241895;
  666307205; 773529912; 1294757372; 1396182291; 1695183700; 1986661051; 2177026350; 2456956037;
  2730485921; 2820302411; 3259730800; 3345764771; 3516065817; 3600352804; 4094571909; 275423344;
  430227734; 506948616; 659060556; 883997877; 958139571; 1322822218; 1537002063; 1747873779;
  1955562222; 2024104815; 2227730452; 2361852424; 2428436474; 2756734187; 3204031479; 3329325298].

Definition H0 : list Z := [
  1779033703; 3144134277; 1013904242; 2773480762; 1359893119; 2600822924; 528734635; 1541459225].

(** Big-endian words. *)
Fixpoint words (b : bytes) : list Z :=
  match b with
  | w :: x :: y :: z :: rest =>
      Z.of_N (((byte_N w * 256 + byte_N x) * 256 + byte_N y) * 256 + byte_N z) :: words rest
  | _ => []
  end.

Definition be_bytes (n : nat) (x : Z) : bytes :=
  (λ i, byte_of (Z.to_N (Z.shiftr x (8 * Z.of_nat i) mod 256))) <$> rev (seq 0 n).

Definition pad (b : bytes) : bytes :=
  let l := Z.of_nat (length b) in
  b ++ byte_of 128 :: replicate (Z.to_nat ((55 - l) mod 64)) (byte_of 0) ++ be_bytes 8 (8 * l).

(** The message schedule, newest word first, extended to 64 words. *)
Definition extend (ws : list Z) : list Z :=
  let w i := nth i ws 0 in
  let s0 := Z.lxor (Z.lxor (rotr 7 (w 14%nat)) (rotr 18 (w 14%nat))) (Z.shiftr (w 14%nat) 3) in
  let s1 := Z.lxor (Z.lxor (rotr 17 (w 1%nat)) (rotr 19 (w 1%nat))) (Z.shiftr (w 1%nat) 10) in
  add (add (w 15%nat) s0) (add (w 6%nat) s1) :: ws.

Definition schedule (block : list Z) : list Z := rev (Nat.iter 48 extend (rev block)).

Definition round (st : list Z) (kw : Z * Z) : list Z :=
  match st with
  | [a; b; c; d; e; f; g; h] =>
      let S1 := Z.lxor (Z.lxor (rotr 6 e) (rotr 11 e)) (rotr 25 e) in
      let ch := Z.lxor (Z.land e f) (Z.land (not_ e) g) in
      let t1 := add (add (add h S1) (add ch kw.1)) kw.2 in
      let S0 := Z.lxor (Z.lxor (rotr 2 a) (rotr 13 a)) (rotr 22 a) in
      let maj := Z.lxor (Z.lxor (Z.land a b) (Z.land a c)) (Z.land b c) in
      [add t1 (add S0 maj); a; b; c; add d t1; e; f; g]
  | _ => st
  end.

Definition compress (st : list Z) (block : list Z) : list Z :=
  zip_with add st (foldl round st (zip K (schedule block))).

Fixpoint blocks (fuel : nat) (ws : list Z) (st : list Z) : list Z :=
  match fuel, ws with
  | O, _ | _, [] => st
  | S fuel, _ => blocks fuel (drop 16 ws) (compress st (take 16 ws))
  end.

(** [sha256.Sum256]: fuel is the number of words, one block takes sixteen. *)
Definition Sum256 (b : bytes) : bytes :=
  let ws := words (pad b) in blocks (length ws) ws H0 ≫= be_bytes 4.

(** [hmac.New(sha256.New, key)] written and summed. *)
Definition hmac_key (key : bytes) : bytes :=
  let k := if (64 <? length key)%nat then Sum256 key else key in
  k ++ replicate (64 - length k) (byte_of 0).

Definition xor_pad (k : bytes) (x : N) : bytes := (λ a, byte_of (N.lxor (byte_N a) x)) <$> k.

Definition Hmac (key msg : bytes) : bytes :=
  let k := hmac_key key in Sum256 (xor_pad k 92 ++ Sum256 (xor_pad k 54 ++ msg)).

(** The published test vectors. *)
Example sum256_abc :
  Hex.EncodeToString (Sum256 (to_bytes "abc")) = "ba7816bf8f01cfea414140de5dae2223b00361a396177a9cb410ff61f20015ad".
Proof. vm_compute. reflexivity. Qed.

Example sum256_two_blocks :
  Hex.EncodeToString (Sum256 (to_bytes "abcdbcdecdefdefgefghfghighijhijkijkljklmklmnlmnomnopnopq"))
  = "248d6a61d20638b8e5c026930c3e6039a33ce45964ff2167f6ecedd419db06c1".
Proof. vm_compute. reflexivity. Qed.

Example hmac_rfc4231_2 :
  Hex.EncodeToString (Hmac (to_bytes "Jefe") (to_bytes "what do ya want for nothing?"))
  = "5bdcc146bf60754e6a042426089575c75a003f089d2739839dec58b964ec3843".
Proof. vm_compute. reflexivity. Qed.

Lemma be_bytes_length n x : length (be_bytes n x) = n.
Proof. unfold be_bytes. by rewrite length_fmap, length_rev, length_seq. Qed.

Lemma round_length st kw : length st = 8%nat → length (round st kw) = 8%nat.
Proof. intros H. unfold round. repeat (case_match; try done). Qed.

Lemma compress_length st b : length st = 8%nat → length (compress st b) = 8%nat.
Proof.
  intros H. unfold compress. rewrite length_zip_with.
  enough (length (foldl round st (zip K (schedule b))) = 8%nat) by lia.
  generalize (zip K (schedule b)) as l. intros l. revert st H.
  induction l as [|kw l IH]; simpl; intros st H; [done|]. by apply IH, round_length.
Qed.

Lemma Sum256_length b : length (Sum256 b) = 32%nat.
Proof.
  unfold Sum256. assert (∀ fuel ws st, length st = 8%nat → length (blocks fuel ws st) = 8%nat) as Hb.
  { induction fuel as [|fuel IH]; intros ws st H; [done|]. simpl. destruct ws; [done|]. by apply IH, compress_length. }
  specialize (Hb (length (words (pad b))) (words (pad b)) H0 eq_refl).
  destruct (blocks _ _ _) as [|a0 [|a1 [|a2 [|a3 [|a4 [|a5 [|a6 [|a7 [|]]]]]]]]]; try done.
Qed.

End Sha.
