(* ===== verification/Clock.v ===== *)
(** Instants as text: the calendar of Go's time package in UTC, the RFC 3339
form with up to nine fractional digits the audit log hashes and signs
(time.RFC3339Nano), its parser, and the fixed-width form of
src/internal/store/time.go. *)
From S2P Require Import Prelude GoText Strconv.
Local Open Scope Z_scope.

(** * The calendar: days since 1970-01-01 and the proleptic Gregorian date.
Years are counted from March, so that the leap day is the last of its year;
400 years (an era) are 146,097 days. *)

Record date := { year : Z; month : Z; day : Z }.

Definition era_days : Z := 146097.
Definition epoch_shift : Z := 719468.

(** Year of the era and day of the year of a day of the era: centuries of 36,524
days but the last, four years of 1,461, years of 365 but the last. *)
Definition year_of_era (doe : Z) : Z * Z :=
  let c := Z.min (doe / 36524) 3 in
  let r := doe - c * 36524 in
  let q := r / 1461 in
  let r := r - q * 1461 in
  let a := Z.min (r / 365) 3 in
  (c * 100 + q * 4 + a, r - a * 365).

(** Month from March (0-11) and day of month of a day of the year. *)
Definition month_day (doy : Z) : Z * Z :=
  let mp := (5 * doy + 2) / 153 in (mp, doy - (153 * mp + 2) / 5 + 1).

Definition of_era (doe : Z) : Z * Z * Z :=
  let '(yoe, doy) := year_of_era doe in let '(mp, d) := month_day doy in (yoe, mp, d).

Definition month_of (mp : Z) : Z := if mp <? 10 then mp + 3 else mp - 9.

Definition civil (days : Z) : date :=
  let z := days + epoch_shift in
  let '(yoe, mp, d) := of_era (z mod era_days) in
  let m := month_of mp in
  {| year := yoe + z / era_days * 400 + (if m <=? 2 then 1 else 0); month := m; day := d |}.

Definition days_of (c : date) : Z :=
  let y := if month c <=? 2 then year c - 1 else year c in
  let yoe := y mod 400 in
  let mp := (month c + 9) mod 12 in
  let doy := (153 * mp + 2) / 5 + day c - 1 in
  y / 400 * era_days + (yoe * 365 + yoe / 4 - yoe / 100 + doy) - epoch_shift.

Definition leap (y : Z) : bool := (y mod 4 =? 0) && (negb (y mod 100 =? 0) || (y mod 400 =? 0)).

Definition days_in (y m : Z) : Z :=
  if m =? 2 then if leap y then 29 else 28
  else if (m =? 4) || (m =? 6) || (m =? 9) || (m =? 11) then 30 else 31.

Definition valid_date (c : date) : Prop := 1 ≤ month c ≤ 12 ∧ 1 ≤ day c ≤ days_in (year c) (month c).

Lemma leap_era y k : leap (y + k * 400) = leap y.
Proof.
  unfold leap. replace (k * 400) with (k * 100 * 4) at 1 by lia. replace (k * 400) with (k * 4 * 100) at 1 by lia.
  by rewrite !Z.mod_add.
Qed.

Lemma days_in_era y k m : days_in (y + k * 400) m = days_in y m.
Proof. unfold days_in. by rewrite leap_era. Qed.

Lemma month_of_spec mp : 0 ≤ mp < 12 → 1 ≤ month_of mp ≤ 12 ∧ (month_of mp + 9) mod 12 = mp.
Proof. intros H. unfold month_of. destruct (Z.ltb_spec mp 10); div_lia. Qed.

(** The 366 days of the longest year, checked. *)
Definition month_day_ok (doy : Z) : bool :=
  let '(mp, d) := month_day doy in
  (0 <=? mp) && (mp <? 12) && (1 <=? d) && (d <=? days_in (if doy =? 365 then 4 else 1) (month_of mp))
  && ((153 * mp + 2) / 5 + d - 1 =? doy).

Lemma month_days_checked : forallb (λ n, month_day_ok (Z.of_nat n)) (seq 0 366) = true.
Proof. vm_compute. reflexivity. Qed.

Lemma month_day_spec doy :
  0 ≤ doy < 366 →
  let '(mp, d) := month_day doy in
  0 ≤ mp < 12 ∧ 1 ≤ d ≤ days_in (if doy =? 365 then 4 else 1) (month_of mp) ∧ (153 * mp + 2) / 5 + d - 1 = doy.
Proof.
  intros H. pose proof month_days_checked as Hc. rewrite forallb_true in Hc. specialize (Hc (Z.to_nat doy)).
  rewrite Z2Nat.id in Hc by lia. unfold month_day_ok in Hc. destruct (month_day doy) as [mp d].
  rewrite !andb_true_iff, !Z.leb_le, !Z.ltb_lt, Z.eqb_eq in Hc. rewrite elem_of_seq in Hc. destruct Hc; [lia|tauto].
Qed.

Lemma year_of_era_spec doe :
  0 ≤ doe < era_days →
  let '(yoe, doy) := year_of_era doe in
  0 ≤ yoe < 400 ∧ 0 ≤ doy < 366 ∧ yoe * 365 + yoe / 4 - yoe / 100 + doy = doe
  ∧ (doy = 365 → leap (yoe + 1) = true).
Proof.
  unfold era_days. intros H. unfold year_of_era.
  set (c := Z.min (doe / 36524) 3). assert (0 ≤ c ≤ 3 ∧ c * 36524 ≤ doe ∧ (doe < (c + 1) * 36524 ∨ c = 3)) as (Hc & Hc1 & Hc2) by div_lia.
  clearbody c. set (r := doe - c * 36524). assert (0 ≤ r ≤ 36524) as Hr by lia.
  set (q := r / 1461). assert (0 ≤ q ≤ 24 ∧ q * 1461 ≤ r < (q + 1) * 1461) as (Hq & Hq1) by div_lia. clearbody q.
  set (r2 := r - q * 1461). set (a := Z.min (r2 / 365) 3).
  assert (0 ≤ a ≤ 3 ∧ a * 365 ≤ r2 ∧ (r2 < (a + 1) * 365 ∨ a = 3)) as (Ha & Ha1 & Ha2) by div_lia. clearbody a.
  assert ((c * 100 + q * 4 + a) / 4 = 25 * c + q) as E4 by div_lia.
  assert ((c * 100 + q * 4 + a) / 100 = c) as E100 by div_lia.
  rewrite E4, E100. split_and!; [lia..|]. intros Hdoy. assert (a = 3) as -> by lia. unfold leap.
  assert ((c * 100 + q * 4 + 3 + 1) mod 4 = 0) as -> by div_lia. simpl.
  destruct (decide (q = 24)) as [->|]; [|assert ((c * 100 + q * 4 + 3 + 1) mod 100 ≠ 0) by div_lia; lia].
  assert (c = 3) as -> by lia. done.
Qed.

Lemma month_of_mar mp : 0 ≤ mp < 12 → (month_of mp <=? 2) = (10 <=? mp).
Proof. unfold month_of. intros H. destruct (Z.ltb_spec mp 10); lia. Qed.

Lemma days_in_plain y m : 1 ≤ m ≤ 12 → days_in 1 m ≤ days_in y m.
Proof. intros H. unfold days_in. repeat case_match; try lia; done. Qed.

Lemma era_day doe :
  0 ≤ doe < era_days →
  let '(yoe, mp, d) := of_era doe in
  0 ≤ yoe < 400 ∧ 0 ≤ mp < 12
  ∧ 1 ≤ d ≤ days_in (yoe + (if month_of mp <=? 2 then 1 else 0)) (month_of mp)
  ∧ yoe * 365 + yoe / 4 - yoe / 100 + ((153 * mp + 2) / 5 + d - 1) = doe.
Proof.
  intros H. unfold of_era. pose proof (year_of_era_spec doe H) as Hy. destruct (year_of_era doe) as [yoe doy].
  destruct Hy as (Hyoe & Hdoy & Heq & Hleap). pose proof (month_day_spec doy Hdoy) as Hm.
  destruct (month_day doy) as [mp d] eqn:Emd. destruct Hm as (Hmp & Hd & Hback). rewrite Hback.
  split_and!; try lia. destruct (month_of_spec mp Hmp) as [Hmr _].
  destruct (Z.eqb_spec doy 365) as [->|]; [|pose proof (days_in_plain (yoe + (if month_of mp <=? 2 then 1 else 0)) _ Hmr); lia].
  injection Emd as <- <-. unfold days_in. simpl. by rewrite Hleap.
Qed.

(** A day's date is a valid one, and names that day alone. *)
Lemma civil_spec days : valid_date (civil days) ∧ days_of (civil days) = days.
Proof.
  unfold civil. set (z := days + epoch_shift). pose proof (era_day (z mod era_days)) as Hd.
  specialize (Hd (Z.mod_pos_bound z era_days eq_refl)). destruct (of_era (z mod era_days)) as [[yoe mp] d].
  destruct Hd as (Hy & Hmp & Hday & Hdoe). destruct (month_of_spec mp Hmp) as [Hm Hback].
  set (m := month_of mp) in *. set (c := if m <=? 2 then 1 else 0) in *. unfold valid_date, days_of. simpl.
  replace (yoe + z / era_days * 400 + c) with ((yoe + c) + z / era_days * 400) by lia.
  rewrite days_in_era. split; [done|].
  replace (if m <=? 2 then yoe + c + z / era_days * 400 - 1 else yoe + c + z / era_days * 400)
    with (yoe + z / era_days * 400) by (unfold c; case_match; lia).
  rewrite Hback, Z.mod_add, Z.div_add, (Z.mod_small yoe), (Z.div_small yoe) by lia.
  rewrite Hdoe. pose proof (Z.div_mod z era_days ltac:(done)). unfold z. lia.
Qed.

(** * Formatting *)

Record clock := { cdate : date; hour : Z; minute : Z; second : Z; nanos : Z }.

Definition clock_of (t : time) : clock :=
  let s := t / Second in
  {| cdate := civil (s / 86400); hour := s mod 86400 / 3600; minute := s mod 3600 / 60; second := s mod 60;
     nanos := t mod Second |}.

Definition time_of (c : clock) : time :=
  ((days_of (cdate c) * 24 + hour c) * 60 + minute c) * 60 * Second + second c * Second + nanos c.

Definition two (z : Z) : bytes := digits 2 (Z.to_N z).

(** The year, at least four digits ([appendInt(b, year, 4)]). *)
Definition year_text (y : Z) : bytes :=
  if y <? 0 then byte_of 45 :: digits (width (Z.to_N (- y)) `max` 4) (Z.to_N (- y))
  else digits (width (Z.to_N y) `max` 4) (Z.to_N y).

Definition ch (s : string) : bytes := to_bytes s.

Definition date_time (c : clock) : bytes :=
  year_text (year (cdate c)) ++ ch "-" ++ two (month (cdate c)) ++ ch "-" ++ two (day (cdate c)) ++ ch "T"
  ++ two (hour c) ++ ch ":" ++ two (minute c) ++ ch ":" ++ two (second c).

(** Trailing zeros of the fraction dropped, and the point with them. *)
Fixpoint trim_zeros (b : bytes) : bytes :=
  match b with
  | [] => []
  | a :: b => match trim_zeros b with
              | [] => if bool_decide (a = digit 0) then [] else [a]
              | b' => a :: b'
              end
  end.

Definition fraction (n : Z) : bytes :=
  match trim_zeros (digits 9 (Z.to_N n)) with [] => [] | f => ch "." ++ f end.

(** [t.UTC().Format(time.RFC3339Nano)]. *)
Definition FormatRFC3339Nano (t : time) : bytes :=
  let c := clock_of t in date_time c ++ fraction (nanos c) ++ ch "Z".

(** [store.TimeArg]: six fractional digits, always. *)
Definition TimeArgText (t : time) : bytes :=
  let c := clock_of t in date_time c ++ ch "." ++ digits 6 (Z.to_N (nanos c / 1000)) ++ ch "Z".

(** The years the four-digit forms cover. *)
Definition four_digit_year (t : time) : Prop := 0 ≤ year (cdate (clock_of t)) ≤ 9999.

Lemma clock_ranges t :
  let c := clock_of t in
  0 ≤ hour c < 24 ∧ 0 ≤ minute c < 60 ∧ 0 ≤ second c < 60 ∧ 0 ≤ nanos c < Second ∧ time_of c = t.
Proof.
  unfold clock_of, time_of. simpl. destruct (civil_spec (t / Second / 86400)) as [_ ->].
  unfold Second. split_and!; div_lia.
Qed.

(** * Parsing: time.Parse with the layout time.RFC3339Nano *)

Definition two_digits (b : bytes) : option (Z * bytes) :=
  match b with
  | x :: y :: rest => if is_digit x && is_digit y then Some (Z.of_N (digit_value x * 10 + digit_value y), rest) else None
  | _ => None
  end.

(** The hour may be written with one digit. *)
Definition one_or_two (b : bytes) : option (Z * bytes) :=
  match b with
  | x :: rest =>
      if is_digit x then
        match rest with
        | y :: rest' => if is_digit y then Some (Z.of_N (digit_value x * 10 + digit_value y), rest')
                        else Some (Z.of_N (digit_value x), rest)
        | [] => Some (Z.of_N (digit_value x), rest)
        end
      else None
  | _ => None
  end.

Definition four_digits (b : bytes) : option (Z * bytes) :=
  if forallb is_digit (take 4 b) && (length (take 4 b) =? 4)%nat
  then n ← parse_digits (take 4 b) 0; Some (Z.of_N n, drop 4 b) else None.

Definition expect (s : ascii) (b : bytes) : option bytes :=
  match b with x :: rest => if bool_decide (x = s) then Some rest else None | [] => None end.

Fixpoint digit_run (b : bytes) : bytes :=
  match b with a :: b => if is_digit a then a :: digit_run b else [] | [] => [] end.

(** A point or comma followed by digits; those past the ninth are dropped. *)
Definition parse_fraction (b : bytes) : option (Z * bytes) :=
  match b with
  | p :: rest =>
      let run := digit_run rest in
      if (bool_decide (byte_N p = 46%N) || bool_decide (byte_N p = 44%N)) && negb (bool_decide (run = [])) then
        n ← parse_digits (take 9 run) 0;
        Some (Z.of_N (n * 10 ^ N.of_nat (9 - length (take 9 run))), drop (length run) rest)
      else Some (0, b)
  | [] => Some (0, b)
  end.

(** [Z], or an offset [±hh:mm] in seconds east. *)
Definition parse_zone (b : bytes) : option (Z * bytes) :=
  match b with
  | a :: rest =>
      if bool_decide (byte_N a = 90%N) then Some (0, rest)
      else
        sign ← (if bool_decide (byte_N a = 43%N) then Some 1 else if bool_decide (byte_N a = 45%N) then Some (-1) else None);
        '(h, rest) ← two_digits rest;
        rest ← expect (byte_of 58) rest;
        '(m, rest) ← two_digits rest;
        if (24 <? h) || (60 <? m) then None else Some (sign * (h * 3600 + m * 60), rest)
  | [] => None
  end.

Definition clock_ok (c : clock) : bool :=
  (1 <=? month (cdate c)) && (month (cdate c) <=? 12) && (1 <=? day (cdate c))
  && (day (cdate c) <=? days_in (year (cdate c)) (month (cdate c)))
  && (hour c <? 24) && (minute c <? 60) && (second c <? 60).

Definition Parse (b : bytes) : option time :=
  '(y, b) ← four_digits b; b ← expect (byte_of 45) b;
  '(mo, b) ← two_digits b; b ← expect (byte_of 45) b;
  '(d, b) ← two_digits b; b ← expect (byte_of 84) b;
  '(h, b) ← one_or_two b; b ← expect (byte_of 58) b;
  '(mi, b) ← two_digits b; b ← expect (byte_of 58) b;
  '(s, b) ← two_digits b;
  '(ns, b) ← parse_fraction b;
  '(off, b) ← parse_zone b;
  let c := {| cdate := {| year := y; month := mo; day := d |}; hour := h; minute := mi; second := s; nanos := ns |} in
  if clock_ok c && bool_decide (b = []) then Some (time_of c - off * Second) else None.

(** * Reading back what was written *)

Lemma width_fuel_le fuel n k : (n < 10 ^ N.of_nat (S k))%N → (width_fuel fuel n ≤ S k)%nat.
Proof.
  revert n k. induction fuel as [|fuel IH]; intros n k Hn; simpl; [lia|]. destruct (N.ltb_spec n 10); [lia|].
  destruct k as [|k]; [simpl in Hn; lia|]. rewrite pow10_S in Hn. apply le_n_S, IH.
  pose proof (N.div_mod n 10 ltac:(lia)). lia.
Qed.

Lemma is_digit_other a : is_digit a = true → ∀ b, is_digit b = false → a ≠ b.
Proof. intros H b Hb ->. congruence. Qed.

Lemma read_year y rest : 0 ≤ y ≤ 9999 → four_digits (year_text y ++ rest) = Some (y, rest).
Proof.
  intros H. unfold four_digits, year_text. destruct (Z.ltb_spec y 0); [lia|].
  assert (width (Z.to_N y) ≤ 4)%nat by (apply width_fuel_le; simpl; lia).
  rewrite Nat.max_r by done. rewrite take_app_length', drop_app_length' by (by rewrite digits_length).
  rewrite (proj2 (forallb_true is_digit (digits 4 (Z.to_N y)))).
  - rewrite digits_length, parse_digits_digits by (simpl; lia). simpl. do 2 f_equal. lia.
  - intros a Ha. pose proof (digits_all 4 (Z.to_N y)) as Hd. rewrite Forall_forall in Hd. auto.
Qed.

Lemma two_cases z : 0 ≤ z < 100 →
  ∃ x y, two z = [x; y] ∧ is_digit x = true ∧ is_digit y = true ∧ Z.of_N (digit_value x * 10 + digit_value y) = z.
Proof.
  intros H. unfold two. cbn [digits app]. eexists _, _. split; [done|].
  destruct (digit_ok (Z.to_N z / 10 mod 10)) as [-> ->]; [div_lia|].
  destruct (digit_ok (Z.to_N z mod 10)) as [-> ->]; [div_lia|]. split_and!; [done..|div_lia].
Qed.

Lemma read_two z rest : 0 ≤ z < 100 → two_digits (two z ++ rest) = Some (z, rest).
Proof. intros (x & y & -> & Hx & Hy & Hz)%two_cases. simpl. by rewrite Hx, Hy, Hz. Qed.

Lemma read_hour z rest : 0 ≤ z < 100 → one_or_two (two z ++ rest) = Some (z, rest).
Proof. intros (x & y & -> & Hx & Hy & Hz)%two_cases. simpl. by rewrite Hx, Hy, Hz. Qed.

Lemma trim_zeros_spec b : ∃ k, b = trim_zeros b ++ replicate k (digit 0).
Proof.
  induction b as [|a b [k IH]]; [by exists 0%nat|]. simpl. destruct (trim_zeros b) as [|x l] eqn:E.
  - case_bool_decide as Ha; [exists (S k); simpl; rewrite Ha|exists k; simpl]; f_equal; exact IH.
  - exists k. simpl. f_equal. exact IH.
Qed.

Lemma parse_zeros k acc : parse_digits (replicate k (digit 0)) acc = Some (acc * 10 ^ N.of_nat k)%N.
Proof.
  revert acc. induction k as [|k IH]; intros acc; simpl replicate; cbn [parse_digits].
  - f_equal. simpl. lia.
  - destruct (digit_ok 0) as [-> ->]; [lia|]. rewrite IH, pow10_S. f_equal. lia.
Qed.

Lemma digit_run_spec b rest : Forall (λ a, is_digit a = true) b →
  match rest with a :: _ => is_digit a = false | [] => True end → digit_run (b ++ rest) = b.
Proof.
  intros Hb Hr. induction Hb as [|a b Ha Hb IH]; simpl; [destruct rest; simpl; [done|by rewrite Hr]|]. by rewrite Ha, IH.
Qed.

Lemma read_fraction n : 0 ≤ n < Second → parse_fraction (fraction n ++ ch "Z") = Some (n, ch "Z").
Proof.
  unfold Second. intros H. unfold fraction. destruct (trim_zeros_spec (digits 9 (Z.to_N n))) as [k Hk].
  pose proof (digits_all 9 (Z.to_N n)) as Hd. pose proof (digits_length 9 (Z.to_N n)) as Hl.
  pose proof (parse_digits_digits 9 (Z.to_N n) 0 ltac:(simpl; lia)) as Hp. rewrite Hk in Hd, Hl, Hp.
  set (f := trim_zeros (digits 9 (Z.to_N n))) in *. clearbody f.
  rewrite parse_digits_app in Hp. apply Forall_app in Hd as [Hd _]. rewrite length_app, length_replicate in Hl.
  destruct (parse_digits f 0) as [v|] eqn:Hv; [|done]. simpl in Hp. rewrite parse_zeros in Hp. injection Hp as Hp.
  destruct f as [|x f].
  { simpl in Hv. injection Hv as <-. rewrite !N.mul_0_l in Hp. replace n with 0 by lia. done. }
  set (g := x :: f) in *. unfold parse_fraction. change (ch "." ++ g) with (byte_of 46 :: g). cbn [app].
  rewrite digit_run_spec by done. rewrite (bool_decide_eq_true_2 (byte_N (byte_of 46) = 46%N)) by done.
  rewrite (bool_decide_eq_false_2 (g = [])) by done. rewrite take_ge by lia. cbn [negb andb orb]. rewrite Hv. cbn [mbind option_bind].
  rewrite drop_app_length. replace (9 - length g)%nat with k by lia. rewrite Hp, N.mul_0_l. do 2 f_equal. lia.
Qed.

Lemma days_in_bound y m : days_in y m ≤ 31.
Proof. unfold days_in. repeat case_match; lia. Qed.

Lemma read_dash r : expect (byte_of 45) (ch "-" ++ r) = Some r.
Proof. done. Qed.
Lemma read_T r : expect (byte_of 84) (ch "T" ++ r) = Some r.
Proof. done. Qed.
Lemma read_colon r : expect (byte_of 58) (ch ":" ++ r) = Some r.
Proof. done. Qed.

(** An instant written in RFC 3339 reads back as itself. *)
Lemma Parse_Format t : four_digit_year t → Parse (FormatRFC3339Nano t) = Some t.
Proof.
  intros Hy. unfold four_digit_year in Hy. unfold FormatRFC3339Nano, date_time.
  pose proof (clock_ranges t) as Hc. pose proof (civil_spec (t / Second / 86400)) as [[Hm Hd] _].
  change (civil (t / Second / 86400)) with (cdate (clock_of t)) in Hm, Hd.
  destruct (clock_of t) as [[y m d] h mi s ns]. cbn [cdate hour minute second nanos year month day] in *. destruct Hc as (Hh & Hmi & Hs & Hns & Ht).
  unfold Parse. rewrite <-!app_assoc, read_year by done. cbn [mbind option_bind].
  pose proof (days_in_bound y m).
  rewrite read_dash. cbn [mbind option_bind].
  rewrite read_two by lia. cbn [mbind option_bind].
  rewrite read_dash. cbn [mbind option_bind].
  rewrite read_two by lia. cbn [mbind option_bind].
  rewrite read_T. cbn [mbind option_bind].
  rewrite read_hour by lia. cbn [mbind option_bind].
  rewrite read_colon. cbn [mbind option_bind].
  rewrite read_two by lia. cbn [mbind option_bind].
  rewrite read_colon. cbn [mbind option_bind].
  rewrite read_two by lia. cbn [mbind option_bind].
  rewrite read_fraction by done. cbn [mbind option_bind].
  change (parse_zone (ch "Z")) with (Some (0, []) : option (Z * bytes)). cbn [mbind option_bind].
  unfold clock_ok. simpl. rewrite !(proj2 (Z.leb_le _ _)), !(proj2 (Z.ltb_lt _ _)) by lia. simpl. f_equal. lia.
Qed.

(** Distinct instants are written differently. *)
Lemma FormatRFC3339Nano_inj t u :
  four_digit_year t → four_digit_year u → FormatRFC3339Nano t = FormatRFC3339Nano u → t = u.
Proof. intros Ht Hu E. apply Parse_Format in Ht, Hu. rewrite E, Hu in Ht. congruence. Qed.

Example format_epoch : of_bytes (FormatRFC3339Nano 0) = "1970-01-01T00:00:00Z".
Proof. reflexivity. Qed.
Example format_leap : of_bytes (FormatRFC3339Nano (951782400 * Second + 120000000)) = "2000-02-29T00:00:00.12Z".
Proof. reflexivity. Qed.
Example format_fixed : of_bytes (TimeArgText (-1)) = "1969-12-31T23:59:59.999999Z".
Proof. reflexivity. Qed.
Example parse_offset : Parse (to_bytes "2000-02-29T5:30:00,1+05:30") = Some (951782400 * Second + 100000000).
Proof. reflexivity. Qed.
