(* ===== verification/Json.v ===== *)
(** encoding/json as the audit log uses it: strings as Marshal quotes them, a
document as Unmarshal reads it into [any], and that value as Marshal writes it
back (map keys sorted).  Numbers become float64 on the way; how one is read
from and written in decimal is the class [Float64], on which no theorem relies
beyond its being a function. *)
From S2P Require Import Prelude GoText Strconv.
Local Open Scope N_scope.

Class Float64 := {
  float : Type;
  ParseFloat : bytes → option float;
  FormatFloat : float → bytes;
}.

(** * Strings *)

Definition hex_digit (n : N) : ascii := byte_of (if n <? 10 then 48 + n else 87 + n).

Definition hex_value (a : ascii) : option N :=
  let n := byte_N a in
  if (48 <=? n) && (n <=? 57) then Some (n - 48)
  else if (97 <=? n) && (n <=? 102) then Some (n - 87)
  else if (65 <=? n) && (n <=? 70) then Some (n - 55)
  else None.

(** [\uXXXX]. *)
Definition u_escape (r : N) : bytes :=
  [byte_of 92; byte_of 117; hex_digit (r / 4096 mod 16); hex_digit (r / 256 mod 16); hex_digit (r / 16 mod 16); hex_digit (r mod 16)].

(** The bytes a character that [Marshal] must not copy is written as: HTML's
[<], [>] and [&] are escaped too. *)
Definition escape (r : N) : option bytes :=
  if (r =? 34) || (r =? 92) then Some [byte_of 92; byte_of r]
  else if r =? 8 then Some [byte_of 92; byte_of 98]
  else if r =? 12 then Some [byte_of 92; byte_of 102]
  else if r =? 10 then Some [byte_of 92; byte_of 110]
  else if r =? 13 then Some [byte_of 92; byte_of 114]
  else if r =? 9 then Some [byte_of 92; byte_of 116]
  else if (r <? 32) || (r =? 60) || (r =? 62) || (r =? 38) || (r =? 8232) || (r =? 8233) then Some (u_escape r)
  else None.

(** One character of a string, with the bytes it was decoded from; a byte that
decodes as nothing is written as U+FFFD. *)
Definition quote_chunk (c : N * bytes) : bytes :=
  if (c.1 =? Utf8.RuneError) && (length c.2 =? 1)%nat then u_escape Utf8.RuneError
  else match escape c.1 with Some e => e | None => c.2 end.

Definition quote (b : bytes) : bytes := byte_of 34 :: (Utf8.chunks b ≫= quote_chunk) ++ [byte_of 34].

Definition hex4 (b : bytes) : option (N * bytes) :=
  match b with
  | w :: x :: y :: z :: rest =>
      w ← hex_value w; x ← hex_value x; y ← hex_value y; z ← hex_value z;
      Some (((w * 16 + x) * 16 + y) * 16 + z, rest)
  | _ => None
  end.

Definition surrogate (r : N) : bool := (55296 <=? r) && (r <=? 57343).

(** The low half of a surrogate pair, if [b] starts with one. *)
Definition low_half (b : bytes) : option (N * bytes) :=
  match b with
  | x :: y :: rest =>
      if bool_decide (x = byte_of 92) && bool_decide (y = byte_of 117)
      then '(r, rest) ← hex4 rest; if (56320 <=? r) && (r <=? 57343) then Some (r, rest) else None
      else None
  | _ => None
  end.

Definition unescape_u (b : bytes) : option (bytes * bytes) :=
  '(r, rest) ← hex4 b;
  if surrogate r then
    match (if r <? 56320 then low_half rest else None) with
    | Some (lo, rest') => Some (Utf8.encode ((r - 55296) * 1024 + (lo - 56320) + 65536), rest')
    | None => Some (Utf8.encode Utf8.RuneError, rest)
    end
  else Some (Utf8.encode r, rest).

(** The character after a backslash. *)
Definition unescape (b : bytes) : option (bytes * bytes) :=
  match b with
  | c :: rest =>
      let n := byte_N c in
      if (n =? 34) || (n =? 92) || (n =? 47) then Some ([c], rest)
      else if n =? 98 then Some ([byte_of 8], rest)
      else if n =? 102 then Some ([byte_of 12], rest)
      else if n =? 110 then Some ([byte_of 10], rest)
      else if n =? 114 then Some ([byte_of 13], rest)
      else if n =? 116 then Some ([byte_of 9], rest)
      else if n =? 117 then unescape_u rest
      else None
  | [] => None
  end.

(** One character of a quoted string: what it stands for, and the rest. *)
Definition string_step (b : bytes) : option (bytes * bytes) :=
  match b with
  | [] => None
  | a :: rest =>
      let n := byte_N a in
      if n =? 92 then unescape rest
      else if n <? 32 then None
      else if n <? 128 then Some ([a], rest)
      else let '(r, w) := Utf8.decode b in Some (Utf8.encode r, drop w b)
  end.

(** The rest of a string after its opening quote; a byte of input is one step
at least, so its length is fuel enough. *)
Fixpoint parse_string (fuel : nat) (b : bytes) : option (bytes * bytes) :=
  match fuel, b with
  | S fuel, a :: rest =>
      if byte_N a =? 34 then Some ([], rest)
      else '(out, rest) ← string_step b; '(tl, rest) ← parse_string fuel rest; Some (out ++ tl, rest)
  | _, _ => None
  end.

(** * Documents *)

Section Values.
Context `{Float64}.

Inductive value :=
| VNull
| VBool (b : bool)
| VNumber (x : float)
| VString (s : bytes)
| VArray (l : list value)
| VObject (m : list (bytes * value)).

Fixpoint bytes_lt (a b : bytes) : bool :=
  match a, b with
  | _, [] => false
  | [], _ :: _ => true
  | x :: a, y :: b => (byte_N x <? byte_N y) || (bool_decide (x = y) && bytes_lt a b)
  end.

(** [m[k] = v] on a map kept sorted by key. *)
Fixpoint object_set (k : bytes) (v : value) (m : list (bytes * value)) : list (bytes * value) :=
  match m with
  | [] => [(k, v)]
  | (k', v') :: m' =>
      if bool_decide (k = k') then (k, v) :: m'
      else if bytes_lt k k' then (k, v) :: m else (k', v') :: object_set k v m'
  end.

Definition is_space (a : ascii) : bool :=
  let n := byte_N a in (n =? 32) || (n =? 9) || (n =? 10) || (n =? 13).

Fixpoint skip_space (b : bytes) : bytes :=
  match b with a :: rest => if is_space a then skip_space rest else b | [] => [] end.

Fixpoint digit_span (b : bytes) : bytes * bytes :=
  match b with
  | a :: rest => if is_digit a then let '(d, r) := digit_span rest in (a :: d, r) else ([], b)
  | [] => ([], [])
  end.

(** The longest number literal [b] starts with. *)
Definition number_literal (b : bytes) : option (bytes * bytes) :=
  let '(sign, b) := match b with
                    | a :: rest => if byte_N a =? 45 then ([a], rest) else ([], b)
                    | [] => ([], b)
                    end in
  '(int, b) ← (match b with
               | a :: rest => if byte_N a =? 48 then Some ([a], rest)
                              else if is_digit a then Some (digit_span b) else None
               | [] => None
               end);
  '(frac, b) ← (match b with
                | a :: rest => if byte_N a =? 46
                               then let '(d, r) := digit_span rest in if bool_decide (d = []) then None else Some (a :: d, r)
                               else Some ([], b)
                | [] => Some ([], b)
                end);
  '(exp, b) ← (match b with
               | a :: rest =>
                   if (byte_N a =? 101) || (byte_N a =? 69) then
                     let '(s, rest) := match rest with
                                       | c :: rest' => if (byte_N c =? 43) || (byte_N c =? 45) then ([c], rest') else ([], rest)
                                       | [] => ([], rest)
                                       end in
                     let '(d, r) := digit_span rest in if bool_decide (d = []) then None else Some (a :: s ++ d, r)
                   else Some ([], b)
               | [] => Some ([], b)
               end);
  Some (sign ++ int ++ frac ++ exp, b).

Definition literal (s : string) (v : value) (b : bytes) : option (value * bytes) :=
  let w := to_bytes s in if bool_decide (take (length w) b = w) then Some (v, drop (length w) b) else None.

Definition maxNestingDepth : nat := 10000.

(** The scanner and decoder of Unmarshal into [any], on input of at most
[fuel] bytes. *)
Fixpoint parse_value (fuel depth : nat) (b : bytes) : option (value * bytes) :=
  match fuel with
  | O => None
  | S fuel =>
      match skip_space b with
      | [] => None
      | a :: rest =>
          let n := byte_N a in
          if n =? 123 then
            if (maxNestingDepth <? S depth)%nat then None
            else match skip_space rest with
                 | c :: rest' => if byte_N c =? 125 then Some (VObject [], rest') else parse_members fuel (S depth) rest []
                 | [] => None
                 end
          else if n =? 91 then
            if (maxNestingDepth <? S depth)%nat then None
            else match skip_space rest with
                 | c :: rest' => if byte_N c =? 93 then Some (VArray [], rest') else parse_elements fuel (S depth) rest []
                 | [] => None
                 end
          else if n =? 34 then '(s, rest) ← parse_string (length rest) rest; Some (VString s, rest)
          else if n =? 116 then literal "true" (VBool true) (a :: rest)
          else if n =? 102 then literal "false" (VBool false) (a :: rest)
          else if n =? 110 then literal "null" VNull (a :: rest)
          else '(lit, rest) ← number_literal (a :: rest); x ← ParseFloat lit; Some (VNumber x, rest)
      end
  end
with parse_members (fuel depth : nat) (b : bytes) (m : list (bytes * value)) : option (value * bytes) :=
  match fuel with
  | O => None
  | S fuel =>
      match skip_space b with
      | a :: rest =>
          if byte_N a =? 34 then
            '(k, rest) ← parse_string (length rest) rest;
            match skip_space rest with
            | c :: rest =>
                if byte_N c =? 58 then
                  '(v, rest) ← parse_value fuel depth rest;
                  match skip_space rest with
                  | d :: rest =>
                      let m := object_set k v m in
                      if byte_N d =? 44 then parse_members fuel depth rest m
                      else if byte_N d =? 125 then Some (VObject m, rest) else None
                  | [] => None
                  end
                else None
            | [] => None
            end
          else None
      | [] => None
      end
  end
with parse_elements (fuel depth : nat) (b : bytes) (l : list value) : option (value * bytes) :=
  match fuel with
  | O => None
  | S fuel =>
      '(v, rest) ← parse_value fuel depth b;
      match skip_space rest with
      | d :: rest =>
          if byte_N d =? 44 then parse_elements fuel depth rest (l ++ [v])
          else if byte_N d =? 93 then Some (VArray (l ++ [v]), rest) else None
      | [] => None
      end
  end.

(** [json.Unmarshal(raw, &v)] with [var v any]. *)
Definition Unmarshal (raw : bytes) : option value :=
  '(v, rest) ← parse_value (S (length raw)) 0 raw;
  if bool_decide (skip_space rest = []) then Some v else None.

Fixpoint separated (l : list bytes) : bytes :=
  match l with
  | [] => []
  | [x] => x
  | x :: l => x ++ byte_of 44 :: separated l
  end.

(** [json.Marshal(v)]. *)
Fixpoint Marshal (v : value) : bytes :=
  match v with
  | VNull => to_bytes "null"
  | VBool true => to_bytes "true"
  | VBool false => to_bytes "false"
  | VNumber x => FormatFloat x
  | VString s => quote s
  | VArray l => byte_of 91 :: separated (map Marshal l) ++ [byte_of 93]
  | VObject m => byte_of 123 :: separated (map (λ kv, quote kv.1 ++ byte_of 58 :: Marshal kv.2) m) ++ [byte_of 125]
  end.

End Values.

(** Whole numbers short enough to be exact, for the examples. *)
Definition ex_float : Float64 := {|
  float := Z;
  ParseFloat := λ b, z ← ParseInt b; if (Z.abs z <? 9007199254740992)%Z then Some z else None;
  FormatFloat := FormatInt |}.

(** Keys sort, a repeated key keeps its last value, white space goes and [<] is
escaped: [{ "b":[1, null], "a":"<", "b":{} }] is [{"a":"\u003c","b":{}}]. *)
Example compact_example :
  Marshal (H := ex_float) <$> Unmarshal (H := ex_float) (to_bytes "{ " ++ quote [byte_of 98] ++ to_bytes ":[1, null], "
    ++ quote [byte_of 97] ++ to_bytes ":" ++ [byte_of 34; byte_of 60; byte_of 34] ++ to_bytes ", " ++ quote [byte_of 98] ++ to_bytes ":{} }")
  = Some (to_bytes "{" ++ quote [byte_of 97] ++ to_bytes ":" ++ quote [byte_of 60] ++ to_bytes ","
          ++ quote [byte_of 98] ++ to_bytes ":{}}").
Proof. vm_compute. reflexivity. Qed.

(** * Reading back a quoted string *)

Lemma hex_value_digit n : n < 16 → hex_value (hex_digit n) = Some n.
Proof.
  intros H. unfold hex_value, hex_digit. destruct (N.ltb_spec n 10); unfold byte_N, byte_of;
    rewrite N_ascii_embedding by lia; repeat case_match; bool_simpl; try (f_equal; lia); lia.
Qed.

Lemma hex4_spec r rest :
  r < 65536 →
  hex4 ([hex_digit (r / 4096 mod 16); hex_digit (r / 256 mod 16); hex_digit (r / 16 mod 16); hex_digit (r mod 16)] ++ rest)
  = Some (r, rest).
Proof.
  intros H. cbn [app hex4]. rewrite !hex_value_digit by div_lia. cbn [mbind option_bind]. do 2 f_equal. div_lia.
Qed.

Lemma read_u_escape r rest :
  r < 65536 → surrogate r = false → string_step (u_escape r ++ rest) = Some (Utf8.encode r, rest).
Proof.
  intros Hr Hs. unfold u_escape, string_step. cbn [app]. change (byte_N (byte_of 92) =? 92) with true. cbn iota.
  unfold unescape. change (byte_N (byte_of 117)) with 117. cbn [N.eqb Pos.eqb orb].
  unfold unescape_u. pose proof (hex4_spec r rest Hr) as E. cbn [app] in E. rewrite E. cbn [mbind option_bind]. by rewrite Hs.
Qed.

Lemma encode_byte r : r < 128 → Utf8.encode r = [byte_of r].
Proof.
  intros H. unfold Utf8.encode. assert (Utf8.valid_rune r = true) as -> by (apply Utf8.valid_rune_range; lia).
  by rewrite (proj2 (N.ltb_lt _ _)).
Qed.

Lemma escape_read r e rest :
  escape r = Some e → string_step (e ++ rest) = Some (Utf8.encode r, rest) ∧ head e = Some (byte_of 92).
Proof.
  unfold escape. intros He.
  destruct (N.eqb_spec r 34) as [->|]; [simpl in He; injection He as <-; done|]. destruct (N.eqb_spec r 92) as [->|]; [simpl in He; injection He as <-; done|].
  destruct (N.eqb_spec r 8) as [->|]; [simpl in He; injection He as <-; done|]. destruct (N.eqb_spec r 12) as [->|]; [simpl in He; injection He as <-; done|].
  destruct (N.eqb_spec r 10) as [->|]; [simpl in He; injection He as <-; done|]. destruct (N.eqb_spec r 13) as [->|]; [simpl in He; injection He as <-; done|].
  destruct (N.eqb_spec r 9) as [->|]; [simpl in He; injection He as <-; done|]. simpl in He.
  destruct ((r <? 32) || (r =? 60) || (r =? 62) || (r =? 38) || (r =? 8232) || (r =? 8233)) eqn:E; [|done].
  injection He as <-. split; [|done]. apply read_u_escape; [lia|]. unfold surrogate. lia.
Qed.

Lemma encode_head r : Utf8.valid_rune r = true → 128 <= r → ∃ a l, Utf8.encode r = a :: l ∧ 128 <= byte_N a.
Proof.
  intros Hv Hr. unfold Utf8.encode. rewrite Hv, (proj2 (N.ltb_ge r 128)) by done.
  assert (r <= 1114111) as Hmax by (unfold Utf8.valid_rune in Hv; lia).
  destruct (N.ltb_spec r 2048); [|destruct (N.ltb_spec r 65536)]; eexists _, _; (split; [done|]);
    unfold byte_N, byte_of; rewrite N_ascii_embedding by div_lia; lia.
Qed.

(** A character of a valid string is read back from what it was quoted as. *)
Lemma read_chunk r rest :
  Utf8.valid_rune r = true →
  let q := quote_chunk (r, Utf8.encode r) in
  string_step (q ++ rest) = Some (Utf8.encode r, rest) ∧ ∃ a l, q = a :: l ∧ byte_N a ≠ 34.
Proof.
  intros Hv. unfold quote_chunk. simpl.
  assert ((r =? Utf8.RuneError) && (length (Utf8.encode r) =? 1)%nat = false) as ->.
  { apply andb_false_iff. destruct (N.eqb_spec r Utf8.RuneError) as [->|]; [by right|by left]. }
  destruct (escape r) as [e|] eqn:He.
  { destruct (escape_read r e rest He) as [? Hh]. split; [done|]. destruct e as [|a e]; [done|].
    injection Hh as ->. by eexists _, _. }
  assert (r ≠ 34) as H34 by (by intros ->). assert (r ≠ 92) as H92 by (by intros ->).
  assert (32 <= r) as H32 by (unfold escape in He; repeat case_match; done || lia).
  destruct (N.ltb_spec r 128).
  - rewrite encode_byte by done. assert (byte_N (byte_of r) = r) as Hb by (apply N_ascii_embedding; lia).
    split; [|eexists _, _; split; [done|by rewrite Hb]]. unfold string_step. cbn [app]. rewrite Hb.
    by rewrite (proj2 (N.eqb_neq r 92)), (proj2 (N.ltb_ge r 32)), (proj2 (N.ltb_lt r 128)).
  - destruct (encode_head r Hv ltac:(done)) as (a & l & Ea & Ha). split; [|exists a, l; split; [done|lia]].
    pose proof (Utf8.decode_encode r rest Hv) as Hd. rewrite Ea in *. unfold string_step. cbn [app] in *.
    rewrite (proj2 (N.eqb_neq _ 92)), (proj2 (N.ltb_ge _ 32)), (proj2 (N.ltb_ge _ 128)) by lia.
    rewrite Hd. rewrite Ea. do 2 f_equal. change (a :: l ++ rest) with ((a :: l) ++ rest). apply drop_app_length.
Qed.

(** A valid string is read back from its quoted form, whatever follows it. *)
Lemma read_quoted b rest fuel :
  Utf8.Valid b = true → (length (quote b) ≤ fuel)%nat →
  parse_string fuel ((Utf8.chunks b ≫= quote_chunk) ++ byte_of 34 :: rest) = Some (b, rest).
Proof.
  intros Hv Hf. pose proof (Utf8.Valid_chunks b Hv) as Hc. rewrite <-(Utf8.chunks_bytes b) at 2.
  assert (length (Utf8.chunks b ≫= quote_chunk) < fuel)%nat as Hf'.
  { unfold quote in Hf. simpl in Hf. rewrite length_app in Hf. simpl in Hf. lia. } clear Hv Hf. revert fuel Hf'.
  induction (Utf8.chunks b) as [|[r e] l IH]; intros fuel Hf.
  - destruct fuel as [|fuel]; [lia|]. done.
  - destruct (Hc (r, e) ltac:(left)) as [Hr He]. simpl in Hr, He. subst e.
    rewrite bind_cons in *. rewrite length_app in Hf. rewrite fmap_cons. cbn [concat snd].
    destruct (read_chunk r ((l ≫= quote_chunk) ++ byte_of 34 :: rest) Hr) as [Hs (a & q & Eq & Ha)].
    rewrite <-app_assoc. rewrite Eq in *. cbn [app length] in *. destruct fuel as [|fuel]; [lia|]. cbn [parse_string].
    rewrite (proj2 (N.eqb_neq _ 34)) by done. rewrite Hs. cbn [mbind option_bind].
    rewrite IH; [done| |lia]. intros c Hin. apply Hc. by right.
Qed.

Lemma quote_inj b c r s :
  Utf8.Valid b = true → Utf8.Valid c = true → quote b ++ r = quote c ++ s → b = c ∧ r = s.
Proof.
  intros Hb Hc E. assert ((Utf8.chunks b ≫= quote_chunk) ++ byte_of 34 :: r = (Utf8.chunks c ≫= quote_chunk) ++ byte_of 34 :: s) as E'.
  { unfold quote in E. apply (f_equal (drop 1)) in E. cbn [app drop] in E. by rewrite <-!app_assoc in E. }
  pose proof (read_quoted b r (length (quote b) + length (quote c)) Hb ltac:(lia)) as H1.
  pose proof (read_quoted c s (length (quote b) + length (quote c)) Hc ltac:(lia)) as H2.
  rewrite E', H2 in H1. by injection H1.
Qed.
