(* ===== verification/Protocol.v ===== *)
(** The protocols, engines and kinds of target: src/internal/protocol/protocol.go. *)
From S2P Require Import Prelude.

Definition SSH : string := "ssh".
Definition RDP : string := "rdp".
Definition VNC : string := "vnc".
Definition WinRM : string := "winrm".
Definition Database : string := "database".
Definition HTTP : string := "http".

Definition Terminal (p : string) : bool := bool_decide (p = SSH) || bool_decide (p = WinRM).
Definition Desktop (p : string) : bool := bool_decide (p = RDP) || bool_decide (p = VNC).

Definition KindHost : string := "host".
Definition KindDatabase : string := "database".
Definition KindApplication : string := "application".
Definition KindAutoscaling : string := "autoscaling".

Definition Kinds : list string := [KindHost; KindDatabase; KindApplication; KindAutoscaling].

(** What each kind can serve. *)
Definition kindProtocols : gmap string (list string) := {[
  KindHost := [SSH; RDP; VNC; WinRM];
  KindAutoscaling := [SSH; RDP; VNC; WinRM];
  KindDatabase := [Database];
  KindApplication := [HTTP]
]}.

Definition ValidKind (k : string) : bool := bool_decide (is_Some (kindProtocols !! k)).

(** Reading a missing key of a Go map gives the nil slice. *)
Definition KindProtocols (k : string) : list string := default [] (kindProtocols !! k).

Definition KindServes (k p : string) : bool := contains (KindProtocols k) p.

Lemma kindProtocols_spec k ps :
  kindProtocols !! k = Some ps ↔
  ((k = KindHost ∨ k = KindAutoscaling) ∧ ps = [SSH; RDP; VNC; WinRM])
  ∨ (k = KindDatabase ∧ ps = [Database]) ∨ (k = KindApplication ∧ ps = [HTTP]).
Proof.
  split.
  - intros H. unfold kindProtocols in H. rewrite !lookup_insert, lookup_singleton in H.
    repeat case_decide; naive_solver.
  - intros [[[-> | ->] ->]|[[-> ->]|[-> ->]]]; reflexivity.
Qed.

Lemma ValidKind_Kinds k : ValidKind k = true ↔ k ∈ Kinds.
Proof.
  unfold ValidKind. rewrite bool_decide_eq_true. unfold is_Some. setoid_rewrite kindProtocols_spec.
  unfold Kinds. rewrite !elem_of_cons, elem_of_nil. naive_solver.
Qed.

(** A kind that serves a protocol is one of the four. *)
Lemma KindServes_valid k p : KindServes k p = true → ValidKind k = true.
Proof.
  unfold KindServes, KindProtocols, ValidKind. rewrite contains_spec, bool_decide_eq_true.
  destruct (kindProtocols !! k); simpl; [by eauto|by intros ?%not_elem_of_nil].
Qed.
