(* ===== verification/Textsafe.v ===== *)
(** Text a person types as a name: src/internal/textsafe/textsafe.go. *)
From S2P Require Import Prelude GoText.
Import Utf8.
Local Open Scope N_scope.

Inductive Error := ErrUnsafe | ErrInvisible.

#[export] Instance Error_eq_dec : EqDecision Error.
Proof. solve_decision. Defined.

Definition unsafeFormat (r : rune) : bool :=
  if (8234 <=? r) && (r <=? 8238) then true       (* LRE RLE PDF LRO RLO *)
  else if (8294 <=? r) && (r <=? 8297) then true  (* LRI RLI FSI PDI *)
  else if (8289 <=? r) && (r <=? 8292) then true  (* invisible operators *)
  else if (r =? 8203) || (r =? 8288) || (r =? 65279) || (r =? 173) then true (* ZWSP, WJ, BOM, soft hyphen *)
  else false.

(** The loop of [check]: [None] is the early [ErrUnsafe], otherwise whether a
visible rune was met. *)
Fixpoint scan (l : list rune) (multiline visible : bool) : option bool :=
  match l with
  | [] => Some visible
  | r :: l =>
      if (r =? 10) || (r =? 13) || (r =? 9) then
        if multiline then scan l multiline visible else None
      else if Unicode.IsControl r || unsafeFormat r || (r =? 8232) || (r =? 8233) then None
      else if negb (Unicode.IsSpace r) && negb (Unicode.Cf r) then scan l multiline true
      else scan l multiline visible
  end.

Definition check (s : string) (multiline : bool) : result Error unit :=
  match scan (runes (to_bytes s)) multiline false with
  | None => Err ErrUnsafe
  | Some visible => if negb visible && negb (bool_decide (s = ""%string)) then Err ErrInvisible else Ok tt
  end.

Definition Name (s : string) : result Error unit := check s false.
Definition Text (s : string) : result Error unit := check s true.

(** * What the check accepts *)

(** A rune the check lets through: a line break or a tab where several lines
are allowed, else nothing that controls, overrides direction or hides. *)
Definition safe (multiline : bool) (r : rune) : Prop :=
  if decide (r = 10 ∨ r = 13 ∨ r = 9) then multiline = true
  else Unicode.IsControl r = false ∧ unsafeFormat r = false ∧ r ≠ 8232 ∧ r ≠ 8233.

Definition visible_rune (r : rune) : bool := negb (Unicode.IsSpace r) && negb (Unicode.Cf r).

Lemma scan_spec l m v v' :
  scan l m v = Some v' ↔ Forall (safe m) l ∧ v' = v || existsb visible_rune l.
Proof.
  revert v. induction l as [|r l IH]; intros v; simpl.
  { rewrite orb_false_r. split; [intros [= ->]; auto|intros [_ ->]; auto]. }
  rewrite Forall_cons. unfold safe at 1.
  destruct ((r =? 10) || (r =? 13) || (r =? 9)) eqn:Eb.
  - rewrite decide_True by lia.
    assert (visible_rune r = false) as ->.
    { rewrite !orb_true_iff, !N.eqb_eq in Eb. destruct Eb as [[->| ->]| ->]; reflexivity. }
    simpl. destruct m; [rewrite IH; tauto|]. split; [done|]. by intros [[? _] _].
  - rewrite decide_False by lia.
    destruct (Unicode.IsControl r || unsafeFormat r || (r =? 8232) || (r =? 8233)) eqn:Eu.
    + split; [done|]. intros [[(H1 & H2 & H3 & H4) _] _].
      rewrite H1, H2 in Eu. apply N.eqb_neq in H3, H4. by rewrite H3, H4 in Eu.
    + apply orb_false_iff in Eu as [Eu H4]. apply orb_false_iff in Eu as [Eu H3].
      apply orb_false_iff in Eu as [H1 H2]. apply N.eqb_neq in H3, H4.
      unfold visible_rune at 1. destruct (negb (Unicode.IsSpace r) && negb (Unicode.Cf r)); rewrite IH; simpl.
      * rewrite orb_true_r. naive_solver.
      * naive_solver.
Qed.

(** What a name or a description may hold: the check accepts exactly the
texts in which every rune is safe (no control character, direction override,
zero-width or line-separator character; line breaks and tabs only where several
lines are allowed) and, unless the text is empty, some rune is visible. *)
Theorem check_spec s multiline :
  check s multiline = Ok tt ↔
  Forall (safe multiline) (runes (to_bytes s))
  ∧ (s = ""%string ∨ ∃ r, r ∈ runes (to_bytes s) ∧ visible_rune r = true).
Proof.
  unfold check. rewrite <-existsb_true. destruct (scan _ _ _) as [v|] eqn:Es.
  - apply scan_spec in Es as [Hf ->]. simpl.
    destruct (existsb _ _) eqn:Ev; simpl; [naive_solver|].
    case_bool_decide; simpl; naive_solver.
  - split; [done|]. intros [Hf _].
    rewrite (proj2 (scan_spec _ multiline false _) (conj Hf eq_refl)) in Es. done.
Qed.
