(* ===== verification/Policy.v ===== *)
(** Access policies, their validation and the matching of targets:
src/internal/policy/policy.go.

A policy names an audience and lists grants; [Validate] is what every policy
passes before it is stored.  The time-zone database is data outside the
sources: the class [TimeZones] stands for it, and everything below is stated
for any database. *)
From S2P Require Import Prelude GoText Protocol Textsafe.
Local Open Scope Z_scope.

(** * Time zones: [time.LoadLocation] and the clock fields of a local time *)

Class TimeZones := {
  (** The offset east of UTC, in seconds, that a named zone has at an instant. *)
  zone_db : string → option (time → Z);
}.

Definition utc : time → Z := λ _, 0.

(** [time.LoadLocation]: the empty name and UTC are UTC; other names are looked
up in the zone database. *)
Definition LoadLocation `{TimeZones} (name : string) : option (time → Z) :=
  if bool_decide (name = "") || bool_decide (name = "UTC") then Some utc else zone_db name.

Definition local_seconds (loc : time → Z) (now : time) : Z := now / Second + loc now.

(** [Hour()*60 + Minute()] and [Weekday()] (Sunday is 0) of a local time. *)
Definition local_minute (sec : Z) : Z := sec mod 86400 / 60.
Definition local_weekday (sec : Z) : Z := (sec / 86400 + 4) mod 7.

(** * Data *)

Definition SubjectGroup : string := "group".
Definition SubjectUser : string := "user".
Definition AccessStanding : string := "standing".
Definition AccessApproval : string := "approval".
Definition SignInTarget_ : string := "target".
Definition SignInOwn_ : string := "own".

Definition MaxSubjects : nat := 64.
Definition MaxGrants : nat := 32.
Definition MaxGrantTargets : nat := 200.
Definition MaxTagKeys : nat := 32.
Definition MaxTagValues : nat := 16.
Definition maxTagLen : nat := 64.

Record Subject := { sKind : string; sID : string }.

Record GrantTarget := { gtID : string; gtProtocols : list string }.

Record TagMatch := { Match : gmap string (list string); tmProtocols : list string }.

Record TimeWindow := { Days : list string; From_ : string; To_ : string; TZ : string }.

(** A nil slice and an empty one are the same list here: the difference is only
how JSON prints them. *)
Record Grant := {
  gID : string;
  Kind : string;
  Targets : list GrantTarget;
  Tags : option TagMatch;
  Access : string;
  SignIn : string;
  RequireMFA : bool;
  AllowClipboard : bool;
  AllowFileTransfer : bool;
  AllowDevTools : bool;
  IdleTimeoutMinutes : Z;
  MaxSessionMinutes : option Z;
  TimeWindows : list TimeWindow;
  RetentionDays : option Z;
}.

Record Policy := {
  pID : string;
  pName : string;
  Description : string;
  Enabled : bool;
  Subjects : list Subject;
  Grants : list Grant;
  CreatedBy : string;
  CreatedAt : time;
  UpdatedAt : time;
  ReviewedAt : option time;
  ReviewedBy : string;
}.

#[export] Instance Subject_eq_dec : EqDecision Subject.
Proof. solve_decision. Defined.

(** Every refusal of [Validate]. *)
Inductive Error :=
| BadName | UnsafeName (e : Textsafe.Error) | UnsafeDescription (e : Textsafe.Error)
| TooManySubjects | BadSubject | SubjectTwice (s : Subject)
| NoGrants | TooManyGrants | GrantError (i : nat) (e : GrantErr) | GrantIDTwice (i : nat)
with GrantErr :=
| BadKind | NothingNamed | DevToolsKind | TooManyTargets | TargetNoID | TargetTwice (id : string)
| TargetProtocols (id : string) (e : ProtoErr) | TagError (e : TagErr) | TagProtocols (e : ProtoErr)
| BadAccess | BadSignIn | OwnSignInApplication | BadIdle | BadMaxSession | BadRetention
| WindowError (e : WindowErr)
with ProtoErr :=
| NoProtocol | ErrProtocolNotForKind (p : string) | ProtocolTwice (p : string)
with TagErr :=
| NoTagKey | TooManyTagKeys | BadTagKey | BadTagValues (k : string) | BadTagValue (k : string) | TagValueTwice (k v : string)
with WindowErr :=
| NoDays | UnknownDay (d : string) | BadFrom | BadTo | UnknownZone.

(** * The clock of a window *)

(** [dayIndex], with Sunday as 0. *)
Definition dayIndex : gmap string Z := {[
  "sun" := 0; "mon" := 1; "tue" := 2; "wed" := 3; "thu" := 4; "fri" := 5; "sat" := 6 ]}.

(** [fmt.Sscanf]'s [%d]: white space, an optional sign, digits.  A newline is
not white space to [Sscanf]. *)
Fixpoint skip_space (l : list N) : option (list N) :=
  match l with
  | r :: l' =>
      if (r =? 10)%N then None else if Unicode.IsSpace r then skip_space l' else Some l
  | [] => Some []
  end.

Definition is_digit (r : N) : bool := (48 <=? r)%N && (r <=? 57)%N.

Fixpoint scan_digits (l : list N) (acc : Z) : Z * list N :=
  match l with
  | r :: l' => if is_digit r then scan_digits l' (acc * 10 + Z.of_N (r - 48)) else (acc, l)
  | [] => (acc, [])
  end.

Definition scan_d (l : list N) : option (Z * list N) :=
  l ← skip_space l;
  let '(neg, l) := match l with
                   | 43%N :: l' => (false, l')
                   | 45%N :: l' => (true, l')
                   | _ => (false, l)
                   end in
  match l with
  | r :: _ => if is_digit r
              then let '(n, l) := scan_digits l 0 in Some (if neg : bool then - n else n, l)
              else None
  | [] => None
  end.

(** [fmt.Sscanf(s, "%d:%d", &h, &m)]; what follows the minutes is left unread. *)
Definition sscanf_clock (s : string) : option (Z * Z) :=
  '(h, l) ← scan_d (Utf8.runes (to_bytes s));
  match l with
  | 58%N :: l => '(m, _) ← scan_d l; Some (h, m)
  | _ => None
  end.

(** parseClock: the minute of the day, or an error. *)
Definition parseClock (s : string) : option Z :=
  match sscanf_clock s with
  | Some (h, m) =>
      if (h <? 0) || (23 <? h) || (m <? 0) || (59 <? m) || negb (String.length s =? 5)%nat
      then None else Some (h * 60 + m)
  | None => None
  end.

Definition hasDay (w : TimeWindow) (d : Z) : bool :=
  existsb (λ name, default 0 (dayIndex !! name) =? d) (Days w).

(** Open reports whether now falls inside the window. *)
Definition Open_ `{TimeZones} (w : TimeWindow) (now : time) : bool :=
  match LoadLocation (TZ w) with
  | None => false
  | Some loc =>
      let local := local_seconds loc now in
      let from := default 0 (parseClock (From_ w)) in
      let to := default 0 (parseClock (To_ w)) in
      let minute := local_minute local in
      let today := local_weekday local in
      let yesterday := (today + 6) mod 7 in
      if from =? to then hasDay w today
      else if from <? to then hasDay w today && (from <=? minute) && (minute <? to)
      else (hasDay w today && (from <=? minute)) || (hasDay w yesterday && (minute <? to))
  end.

Definition anyOpen `{TimeZones} (windows : list TimeWindow) (now : time) : bool :=
  existsb (λ w, Open_ w now) windows.

Fixpoint validate_days (days : list string) : result WindowErr (list string) :=
  match days with
  | [] => Ok []
  | d :: days =>
      let d := Strings.ToLower (Strings.TrimSpace d) in
      match dayIndex !! d with
      | None => Err (UnknownDay d)
      | Some _ => let? rest := validate_days days in Ok (d :: rest)
      end
  end.

Definition validate_window `{TimeZones} (w : TimeWindow) : result WindowErr TimeWindow :=
  if bool_decide (Days w = []) then Err NoDays
  else
    let? days := validate_days (Days w) in
    match parseClock (From_ w), parseClock (To_ w) with
    | None, _ => Err BadFrom
    | _, None => Err BadTo
    | Some _, Some _ =>
        let tz := if bool_decide (TZ w = "") then "UTC"%string else TZ w in
        match LoadLocation tz with
        | None => Err UnknownZone
        | Some _ => Ok {| Days := days; From_ := From_ w; To_ := To_ w; TZ := tz |}
        end
    end.

(** * Validation *)

(** Protocols against what the grant's kind serves. *)
Definition validProtocols (kind : string) (protos : list string) : result ProtoErr unit :=
  if bool_decide (protos = []) then Err NoProtocol
  else each_once id (λ p, refuse_if (negb (KindServes kind p)) (ErrProtocolNotForKind p))
         ProtocolTwice (λ _, Ok tt) protos [].

Definition check_tag (kv : string * list string) : result TagErr unit :=
  let '(k, vs) := kv in
  if bool_decide (k = "") || (maxTagLen <? String.length k)%nat then Err BadTagKey
  else if bool_decide (vs = []) || (MaxTagValues <? length vs)%nat then Err (BadTagValues k)
  else each_once id (λ v, refuse_if (bool_decide (v = "") || (maxTagLen <? String.length v)%nat) (BadTagValue k))
         (TagValueTwice k) (λ _, Ok tt) vs [].

Definition validate_tags (m : TagMatch) : result TagErr unit :=
  if (size (Match m) =? 0)%nat then Err NoTagKey
  else if (MaxTagKeys <? size (Match m))%nat then Err TooManyTagKeys
  else first_error check_tag (map_to_list (Match m)).

Definition check_targets (kind : string) (ts : list GrantTarget) : result GrantErr unit :=
  each_once gtID (λ t, refuse_if (bool_decide (gtID t = "")) TargetNoID)
    (λ t, TargetTwice (gtID t))
    (λ t, match validProtocols kind (gtProtocols t) with
          | Err e => Err (TargetProtocols (gtID t) e)
          | Ok _ => Ok tt
          end) ts [].

(** The switches [validate] fills in or clears. *)
Definition set_terms (g : Grant) (access signIn : string) (fileTransfer : bool) (idle : Z)
    (windows : list TimeWindow) : Grant := {|
  gID := gID g; Kind := Kind g; Targets := Targets g; Tags := Tags g;
  Access := access; SignIn := signIn; RequireMFA := RequireMFA g;
  AllowClipboard := AllowClipboard g; AllowFileTransfer := fileTransfer;
  AllowDevTools := AllowDevTools g; IdleTimeoutMinutes := idle;
  MaxSessionMinutes := MaxSessionMinutes g; TimeWindows := windows;
  RetentionDays := RetentionDays g |}.

Definition check_tag_match (g : Grant) : result GrantErr unit :=
  match Tags g with
  | None => Ok tt
  | Some m =>
      match validate_tags m with
      | Err e => Err (TagError e)
      | Ok _ => match validProtocols (Kind g) (tmProtocols m) with
                | Err e => Err (TagProtocols e)
                | Ok _ => Ok tt
                end
      end
  end.

(** An absent choice takes its default; a present one must be known. *)
Definition choose (v dflt other : string) (e : GrantErr) : result GrantErr string :=
  if bool_decide (v = "") then Ok dflt
  else if bool_decide (v = dflt) || bool_decide (v = other) then Ok v else Err e.

Definition out_of (lo hi : Z) (o : option Z) : bool :=
  match o with Some n => (n <? lo) || (hi <? n) | None => false end.

Definition validate_grant `{TimeZones} (g : Grant) : result GrantErr Grant :=
  if negb (ValidKind (Kind g)) then Err BadKind
  else if bool_decide (Targets g = []) && negb (bool_decide (is_Some (Tags g))) then Err NothingNamed
  else if AllowDevTools g && negb (bool_decide (Kind g = KindApplication)) then Err DevToolsKind
  else
    let fileTransfer :=
      if bool_decide (Kind g = KindDatabase) || bool_decide (Kind g = KindApplication)
      then false else AllowFileTransfer g in
    if (MaxGrantTargets <? length (Targets g))%nat then Err TooManyTargets
    else
      let? _ := check_targets (Kind g) (Targets g) in
      let? _ := check_tag_match g in
      let? access := choose (Access g) AccessStanding AccessApproval BadAccess in
      let? signIn := choose (SignIn g) SignInTarget_ SignInOwn_ BadSignIn in
      if bool_decide (signIn = SignInOwn_) && bool_decide (Kind g = KindApplication)
      then Err OwnSignInApplication
      else
        let idle := if IdleTimeoutMinutes g =? 0 then 15 else IdleTimeoutMinutes g in
        if (idle <? 1) || (24 * 60 <? idle) then Err BadIdle
        else if out_of 1 (7 * 24 * 60) (MaxSessionMinutes g) then Err BadMaxSession
        else if out_of 1 3650 (RetentionDays g) then Err BadRetention
        else match traverse validate_window (TimeWindows g) with
             | Err e => Err (WindowError e)
             | Ok windows => Ok (set_terms g access signIn fileTransfer idle windows)
             end.

Definition check_subjects (l : list Subject) : result Error unit :=
  each_once id
    (λ s, refuse_if ((negb (bool_decide (sKind s = SubjectGroup)) && negb (bool_decide (sKind s = SubjectUser)))
                     || bool_decide (sID s = "")) BadSubject)
    SubjectTwice (λ _, Ok tt) l [].

(** The loop over the grants: [i] is the 1-based position the messages name. *)
Fixpoint check_grants `{TimeZones} (i : nat) (l : list Grant) (ids : gset string) : result Error (list Grant) :=
  match l with
  | [] => Ok []
  | g :: l =>
      match validate_grant g with
      | Err e => Err (GrantError i e)
      | Ok g =>
          if negb (bool_decide (gID g = "")) && bool_decide (gID g ∈ ids) then Err (GrantIDTwice i)
          else
            let ids := if bool_decide (gID g = "") then ids else {[gID g]} ∪ ids in
            let? rest := check_grants (S i) l ids in Ok (g :: rest)
      end
  end.

Definition set_checked (p : Policy) (name : string) (grants : list Grant) : Policy := {|
  pID := pID p; pName := name; Description := Description p; Enabled := Enabled p;
  Subjects := Subjects p; Grants := grants; CreatedBy := CreatedBy p; CreatedAt := CreatedAt p;
  UpdatedAt := UpdatedAt p; ReviewedAt := ReviewedAt p; ReviewedBy := ReviewedBy p |}.

(** Validate checks a policy before it is stored and fills the defaults; the
policy as rewritten is the value it returns. *)
Definition Validate `{TimeZones} (p : Policy) : result Error Policy :=
  let name := Strings.TrimSpace (pName p) in
  if bool_decide (name = "") || (64 <? String.length name)%nat then Err BadName
  else match Textsafe.Name name with
  | Err e => Err (UnsafeName e)
  | Ok _ =>
  match Textsafe.Text (Description p) with
  | Err e => Err (UnsafeDescription e)
  | Ok _ =>
      if (MaxSubjects <? length (Subjects p))%nat then Err TooManySubjects
      else
        let? _ := check_subjects (Subjects p) in
        if bool_decide (Grants p = []) then Err NoGrants
        else if (MaxGrants <? length (Grants p))%nat then Err TooManyGrants
        else let? grants := check_grants 1 (Grants p) ∅ in Ok (set_checked p name grants)
  end end.

(** * What a stored policy satisfies *)

Definition WF_protocols (kind : string) (ps : list string) : Prop :=
  ps ≠ [] ∧ NoDup ps ∧ Forall (λ p, KindServes kind p = true) ps.

Definition WF_text (s : string) : Prop := s ≠ "" ∧ (String.length s ≤ maxTagLen)%nat.

Definition WF_tags (m : TagMatch) : Prop :=
  (1 ≤ size (Match m) ≤ MaxTagKeys)%nat
  ∧ ∀ k vs, Match m !! k = Some vs →
      WF_text k ∧ (1 ≤ length vs ≤ MaxTagValues)%nat ∧ NoDup vs ∧ Forall WF_text vs.

Record WF_window `{TimeZones} (w : TimeWindow) : Prop := {
  wfw_days : Days w ≠ [] ∧ Forall (λ d, is_Some (dayIndex !! d)) (Days w);
  wfw_clock : is_Some (parseClock (From_ w)) ∧ is_Some (parseClock (To_ w));
  wfw_zone : TZ w ≠ "" ∧ is_Some (LoadLocation (TZ w));
}.

Record WF_grant `{TimeZones} (g : Grant) : Prop := {
  wf_kind : Kind g ∈ Kinds;
  wf_named : Targets g ≠ [] ∨ is_Some (Tags g);
  wf_devtools : AllowDevTools g = true → Kind g = KindApplication;
  wf_files : Kind g = KindDatabase ∨ Kind g = KindApplication → AllowFileTransfer g = false;
  wf_targets : (length (Targets g) ≤ MaxGrantTargets)%nat ∧ NoDup (gtID <$> Targets g)
    ∧ Forall (λ t, gtID t ≠ "" ∧ WF_protocols (Kind g) (gtProtocols t)) (Targets g);
  wf_tags : ∀ m, Tags g = Some m → WF_tags m ∧ WF_protocols (Kind g) (tmProtocols m);
  wf_access : Access g = AccessStanding ∨ Access g = AccessApproval;
  wf_signin : SignIn g = SignInTarget_ ∨ SignIn g = SignInOwn_ ∧ Kind g ≠ KindApplication;
  wf_idle : 1 ≤ IdleTimeoutMinutes g ≤ 1440;
  wf_max : ∀ n, MaxSessionMinutes g = Some n → 1 ≤ n ≤ 10080;
  wf_retention : ∀ n, RetentionDays g = Some n → 1 ≤ n ≤ 3650;
  wf_windows : Forall WF_window (TimeWindows g);
}.

Record WF `{TimeZones} (p : Policy) : Prop := {
  wf_name : Strings.TrimSpace (pName p) = pName p ∧ pName p ≠ "" ∧ (String.length (pName p) ≤ 64)%nat
    ∧ Textsafe.Name (pName p) = Ok tt;
  wf_description : Textsafe.Text (Description p) = Ok tt;
  wf_subjects : (length (Subjects p) ≤ MaxSubjects)%nat ∧ NoDup (Subjects p)
    ∧ Forall (λ s, (sKind s = SubjectGroup ∨ sKind s = SubjectUser) ∧ sID s ≠ "") (Subjects p);
  wf_grants : (1 ≤ length (Grants p) ≤ MaxGrants)%nat ∧ Forall WF_grant (Grants p);
  wf_ids : NoDup (filter (λ i, i ≠ "") (gID <$> Grants p));
}.

(** * Validation establishes it, and accepts what satisfies it *)

Lemma nonempty_length {A} (l : list A) : l ≠ [] ↔ (1 ≤ length l)%nat.
Proof. destruct l; simpl; split; try done; lia. Qed.

Lemma unit_ok {E} (r : result E unit) : is_ok r = true ↔ r = Ok tt.
Proof. destruct r as [[]|]; naive_solver. Qed.

Lemma validProtocols_ok kind ps : validProtocols kind ps = Ok tt ↔ WF_protocols kind ps.
Proof.
  unfold validProtocols, WF_protocols. case_bool_decide; [naive_solver|].
  rewrite each_once_unique, list_fmap_id. setoid_rewrite refuse_if_ok. setoid_rewrite negb_false_iff. tauto.
Qed.

Lemma WF_text_bool s : bool_decide (s = "") || (maxTagLen <? String.length s)%nat = false ↔ WF_text s.
Proof. unfold WF_text. rewrite orb_false_iff, bool_decide_eq_false, Nat.ltb_ge. done. Qed.

Lemma check_tag_ok k vs :
  check_tag (k, vs) = Ok tt ↔
  WF_text k ∧ (1 ≤ length vs ≤ MaxTagValues)%nat ∧ NoDup vs ∧ Forall WF_text vs.
Proof.
  unfold check_tag. rewrite <-(WF_text_bool k).
  destruct (bool_decide (k = "") || _); [naive_solver|].
  case_bool_decide as Hn; simpl; [subst; simpl; split; [done|lia]|].
  apply nonempty_length in Hn. destruct (Nat.ltb_spec MaxTagValues (length vs)); [split; [done|lia]|].
  rewrite each_once_unique, list_fmap_id. setoid_rewrite refuse_if_ok. setoid_rewrite WF_text_bool.
  split; [naive_solver lia|tauto].
Qed.

Lemma validate_tags_ok m : validate_tags m = Ok tt ↔ WF_tags m.
Proof.
  unfold validate_tags, WF_tags. destruct (Nat.eqb_spec (size (Match m)) 0); [split; [done|lia]|].
  destruct (Nat.ltb_spec MaxTagKeys (size (Match m))); [split; [done|lia]|].
  rewrite first_error_ok, Forall_forall. split.
  - intros Hf. split; [lia|]. intros k vs Hk. apply check_tag_ok, Hf. by apply elem_of_map_to_list.
  - intros [_ Hm] [k vs] Hin%elem_of_map_to_list. by apply check_tag_ok, Hm.
Qed.

Lemma check_targets_ok kind ts :
  check_targets kind ts = Ok tt ↔
  NoDup (gtID <$> ts) ∧ Forall (λ t, gtID t ≠ "" ∧ WF_protocols kind (gtProtocols t)) ts.
Proof.
  unfold check_targets. rewrite each_once_ok. setoid_rewrite refuse_if_ok.
  setoid_rewrite bool_decide_eq_false. setoid_rewrite <-validProtocols_ok.
  rewrite !Forall_forall. split.
  - intros [Hf ?]. split; [done|]. intros t Ht. destruct (Hf t Ht) as (? & Hp & _). split; [done|].
    by destruct (validProtocols kind (gtProtocols t)) as [[]|].
  - intros [? Hf]. split; [|done]. intros t Ht. destruct (Hf t Ht) as [? ->]. set_solver.
Qed.

Lemma check_tag_match_ok g :
  check_tag_match g = Ok tt ↔ ∀ m, Tags g = Some m → WF_tags m ∧ WF_protocols (Kind g) (tmProtocols m).
Proof.
  unfold check_tag_match. destruct (Tags g) as [m|]; [|naive_solver].
  setoid_rewrite <-validate_tags_ok. setoid_rewrite <-validProtocols_ok. split.
  - intros H m' [= <-]. destruct (validate_tags m) as [[]|]; [|done].
    by destruct (validProtocols (Kind g) (tmProtocols m)) as [[]|].
  - intros H. destruct (H m eq_refl) as [-> ->]. done.
Qed.

Lemma choose_ok v dflt other e r :
  choose v dflt other e = Ok r → (r = dflt ∨ r = other) ∧ (v = r ∨ v = "").
Proof.
  unfold choose. case_bool_decide; [naive_solver|].
  repeat case_bool_decide; simpl; naive_solver.
Qed.

Lemma choose_id v dflt other e : v ≠ "" → v = dflt ∨ v = other → choose v dflt other e = Ok v.
Proof. intros. unfold choose. repeat case_bool_decide; simpl; naive_solver. Qed.

Lemma check_subjects_ok l :
  check_subjects l = Ok tt ↔
  NoDup l ∧ Forall (λ s, (sKind s = SubjectGroup ∨ sKind s = SubjectUser) ∧ sID s ≠ "") l.
Proof.
  unfold check_subjects. rewrite each_once_unique, list_fmap_id. setoid_rewrite refuse_if_ok.
  setoid_rewrite orb_false_iff. setoid_rewrite andb_false_iff.
  setoid_rewrite negb_false_iff. setoid_rewrite bool_decide_eq_true. setoid_rewrite bool_decide_eq_false. tauto.
Qed.

Lemma out_of_false lo hi o : out_of lo hi o = false ↔ ∀ n, o = Some n → lo ≤ n ≤ hi.
Proof. destruct o as [n|]; simpl; [|naive_solver]. rewrite orb_false_iff, !Z.ltb_ge. naive_solver. Qed.

Lemma day_fixed d : is_Some (dayIndex !! d) → Strings.ToLower (Strings.TrimSpace d) = d.
Proof.
  intros [n H]. unfold dayIndex in H.
  do 6 (rewrite lookup_insert in H; case_decide; [subst; by vm_compute|]).
  rewrite lookup_singleton in H. case_decide; [subst; by vm_compute|done].
Qed.

Lemma validate_days_ok l l' : validate_days l = Ok l' → length l' = length l ∧ Forall (λ d, is_Some (dayIndex !! d)) l'.
Proof.
  revert l'. induction l as [|d l IH]; intros l'; simpl; [by intros [= <-]|].
  destruct (dayIndex !! _) eqn:Hd; [|done]. intros (r & Hr & [= <-])%rbind_Ok.
  destruct (IH _ Hr). split; [simpl; lia|]. constructor; [by rewrite Hd|done].
Qed.

Lemma validate_days_id l : Forall (λ d, is_Some (dayIndex !! d)) l → validate_days l = Ok l.
Proof.
  induction 1 as [|d l Hd _ IH]; simpl; [done|]. rewrite day_fixed by done.
  destruct Hd as [? ->]. by rewrite IH.
Qed.

Section Windows.
Context `{TimeZones}.

Lemma validate_window_wf w w' : validate_window w = Ok w' → WF_window w'.
Proof.
  unfold validate_window. case_bool_decide as Hn; [done|].
  intros (days & Hd & Hr)%rbind_Ok. apply validate_days_ok in Hd as [Hl Hd].
  destruct (parseClock (From_ w)) eqn:E1; [|done]. destruct (parseClock (To_ w)) eqn:E2; [|done].
  destruct (LoadLocation _) eqn:Ez; simplify_eq. split; simpl.
  - split; [|done]. apply nonempty_length. rewrite Hl. by apply nonempty_length.
  - by rewrite E1, E2.
  - split; [|by rewrite Ez]. case_bool_decide; done.
Qed.

Lemma validate_window_id w : WF_window w → validate_window w = Ok w.
Proof.
  intros [[? Hd] [[? E1] [? E2]] [? [? E3]]]. unfold validate_window.
  rewrite bool_decide_eq_false_2 by done. rewrite (validate_days_id _ Hd). simpl.
  rewrite E1, E2. rewrite bool_decide_eq_false_2 by done. rewrite E3. by destruct w.
Qed.

End Windows.

Section Validation.
Context `{TimeZones}.

Lemma traverse_wf l l' : traverse validate_window l = Ok l' → Forall WF_window l'.
Proof. intros Hf%traverse_ok. induction Hf; constructor; eauto using validate_window_wf. Qed.

Lemma traverse_window_id l : Forall WF_window l → traverse validate_window l = Ok l.
Proof.
  intros Hf. apply traverse_ok. induction Hf; constructor; eauto using validate_window_id.
Qed.

(** The parts [validate] does not touch. *)
Definition same_scope (g g' : Grant) : Prop :=
  gID g' = gID g ∧ Kind g' = Kind g ∧ Targets g' = Targets g ∧ Tags g' = Tags g
  ∧ RequireMFA g' = RequireMFA g ∧ AllowClipboard g' = AllowClipboard g.

Lemma validate_grant_wf g g' : validate_grant g = Ok g' → WF_grant g' ∧ same_scope g g'.
Proof.
  unfold validate_grant.
  destruct (ValidKind (Kind g)) eqn:Hk; simpl; [|done]. apply ValidKind_Kinds in Hk.
  destruct (bool_decide (Targets g = []) && _) eqn:Hnamed; [done|].
  destruct (AllowDevTools g && _) eqn:Hdev; [done|].
  destruct (Nat.ltb_spec MaxGrantTargets (length (Targets g))); [done|].
  intros ([] & Ht & Hr)%rbind_Ok. apply check_targets_ok in Ht.
  apply rbind_Ok in Hr as ([] & Htag & Hr). pose proof (proj1 (check_tag_match_ok g) Htag) as Htags.
  apply rbind_Ok in Hr as (access & Ha & Hr). apply choose_ok in Ha as [Ha _].
  apply rbind_Ok in Hr as (signIn & Hs & Hr). apply choose_ok in Hs as [Hs _].
  destruct (bool_decide (signIn = SignInOwn_) && _) eqn:Hown; [done|].
  destruct ((_ <? 1) || _) eqn:Hidle; [done|].
  destruct (out_of 1 _ (MaxSessionMinutes g)) eqn:Hmax; [done|].
  destruct (out_of 1 _ (RetentionDays g)) eqn:Hret; [done|].
  destruct (traverse _ _) as [ws|] eqn:Hw; [|done]. injection Hr as <-.
  split; [|done]. split; simpl; try done.
  - apply andb_false_iff in Hnamed as [?|?]; bool_simpl; [by left|by right].
  - intros Hd. rewrite Hd in Hdev. simpl in Hdev. by bool_simpl.
  - intros [-> | ->]; done.
  - destruct Hs as [-> | ->]; [by left|right]. split; [done|].
    rewrite bool_decide_eq_true_2 in Hown by done. simpl in Hown. by bool_simpl.
  - lia.
  - by apply out_of_false.
  - by apply out_of_false.
  - by apply traverse_wf in Hw.
Qed.

Lemma validate_grant_id g : WF_grant g → validate_grant g = Ok g.
Proof.
  intros []. unfold validate_grant.
  rewrite (proj2 (ValidKind_Kinds (Kind g))) by done. simpl.
  assert (bool_decide (Targets g = []) && negb (bool_decide (is_Some (Tags g))) = false) as ->.
  { destruct wf_named0; [rewrite bool_decide_eq_false_2 by done; done|].
    rewrite (bool_decide_eq_true_2 (is_Some _)) by done. apply andb_false_r. }
  assert (AllowDevTools g && negb (bool_decide (Kind g = KindApplication)) = false) as ->.
  { destruct (AllowDevTools g); [|done]. by rewrite bool_decide_eq_true_2 by auto. }
  destruct wf_targets0 as (Hl & Ht). rewrite (proj2 (Nat.ltb_ge _ _)) by done.
  rewrite (proj2 (check_targets_ok _ _)) by done. simpl.
  rewrite (proj2 (check_tag_match_ok _)) by done. simpl.
  rewrite choose_id; [|by intros Heq; rewrite Heq in wf_access0; destruct wf_access0|done]. simpl.
  rewrite choose_id; [|by intros Heq; rewrite Heq in wf_signin0; destruct wf_signin0 as [|[]]|tauto]. simpl.
  assert (bool_decide (SignIn g = SignInOwn_) && bool_decide (Kind g = KindApplication) = false) as ->.
  { destruct wf_signin0 as [->|[_ ?]]; [done|]. rewrite (bool_decide_eq_false_2 (Kind g = _)) by done. apply andb_false_r. }
  rewrite (proj2 (Z.eqb_neq (IdleTimeoutMinutes g) 0)) by lia.
  rewrite (proj2 (Z.ltb_ge (IdleTimeoutMinutes g) 1)), (proj2 (Z.ltb_ge _ (IdleTimeoutMinutes g))) by lia. cbn [orb].
  rewrite (proj2 (out_of_false _ _ _)) by done. rewrite (proj2 (out_of_false _ _ _)) by done.
  rewrite traverse_window_id by done. f_equal. destruct g; unfold set_terms; simpl in *. f_equal.
  repeat case_bool_decide; simpl; try done; symmetry; tauto.
Qed.

Lemma check_grants_wf i l ids l' :
  check_grants i l ids = Ok l' →
  Forall WF_grant l' ∧ Forall2 same_scope l l'
  ∧ NoDup (filter (λ x, x ≠ "") (gID <$> l')) ∧ Forall (λ x, x = "" ∨ x ∉ ids) (gID <$> l').
Proof.
  revert i ids l'. induction l as [|g l IH]; intros i ids l'; simpl.
  { intros [= <-]. repeat constructor. }
  destruct (validate_grant g) as [g1|] eqn:Hg; [|done]. apply validate_grant_wf in Hg as [Hwf Hsame].
  destruct (negb _ && _) eqn:Hid; [done|]. intros (rest & Hrest & [= <-])%rbind_Ok.
  destruct (IH _ _ _ Hrest) as (? & ? & Hnd & Hfresh). split_and!; [by constructor..| |].
  - cbn [fmap list_fmap]. destruct (decide (gID g1 = "")) as [He|He].
    + by rewrite filter_cons_False by (intros ?; done).
    + rewrite filter_cons_True by done. rewrite (bool_decide_eq_false_2 _ He) in Hfresh.
      apply NoDup_cons. split; [|done]. intros [_ Hin]%list_elem_of_filter.
      rewrite Forall_forall in Hfresh. destruct (Hfresh _ Hin); [done|set_solver].
  - cbn [fmap list_fmap]. constructor.
    + bool_simpl. destruct Hid; bool_simpl; auto.
    + eapply Forall_impl; [exact Hfresh|]. intros x [?|Hx]; [by left|right]. case_bool_decide; set_solver.
Qed.

Lemma check_grants_id i l ids :
  Forall WF_grant l → NoDup (filter (λ x, x ≠ "") (gID <$> l)) →
  Forall (λ x, x = "" ∨ x ∉ ids) (gID <$> l) → check_grants i l ids = Ok l.
Proof.
  intros Hf. revert i ids. induction Hf as [|g l Hg Hf IH]; intros i ids Hnd Hfresh; simpl; [done|].
  rewrite validate_grant_id by done. cbn [fmap list_fmap] in Hnd, Hfresh. apply Forall_cons in Hfresh as [Hg' Hl].
  destruct (decide (gID g = "")) as [He|He].
  - rewrite (bool_decide_eq_true_2 _ He). simpl. rewrite filter_cons_False in Hnd by (intros ?; done).
    by rewrite IH.
  - rewrite (bool_decide_eq_false_2 _ He). rewrite filter_cons_True in Hnd by done.
    apply NoDup_cons in Hnd as [Hnew Hnd]. destruct Hg' as [|Hg']; [done|].
    rewrite bool_decide_eq_false_2 by done. simpl. rewrite IH; [done..|].
    apply Forall_forall. intros x Hx. rewrite Forall_forall in Hl. destruct (Hl _ Hx) as [|Hx']; [by left|].
    destruct (decide (x = "")); [by left|right]. intros [->%elem_of_singleton|?]%elem_of_union; [|done].
    apply Hnew, list_elem_of_filter. done.
Qed.

(** Validate, taken apart. *)
Lemma Validate_inv p p' :
  Validate p = Ok p' →
  ∃ grants, p' = set_checked p (Strings.TrimSpace (pName p)) grants
    ∧ check_grants 1 (Grants p) ∅ = Ok grants ∧ WF p'.
Proof.
  unfold Validate. destruct (bool_decide _ || _) eqn:Hn; [done|].
  destruct (Textsafe.Name _) as [[]|] eqn:Hname; [|done].
  destruct (Textsafe.Text _) as [[]|] eqn:Htext; [|done].
  destruct (Nat.ltb_spec MaxSubjects (length (Subjects p))); [done|].
  intros ([] & Hs & Hr)%rbind_Ok. apply check_subjects_ok in Hs.
  case_bool_decide as Hne; [done|]. apply nonempty_length in Hne.
  destruct (Nat.ltb_spec MaxGrants (length (Grants p))); [done|].
  apply rbind_Ok in Hr as (grants & Hg & [= <-]). exists grants. split_and!; [done..|].
  apply orb_false_iff in Hn as [Hn1%bool_decide_eq_false Hn2%Nat.ltb_ge].
  pose proof (check_grants_wf _ _ _ _ Hg) as (Hwf & Hsc & Hnd & _).
  pose proof (Forall2_length _ _ _ Hsc) as Hlen.
  split; simpl; [split_and!; auto using Strings.TrimSpace_idem|done|done| |done]. split; [lia|done].
Qed.

(** Validate enforces the policy invariant: whatever it accepts comes out
well formed (every bound, every protocol served by its grant's kind, known
access and sign-in modes, no duplicate subject, target, protocol, tag value or
grant id, windows that parse), and it changes neither the audience nor what
each grant covers. *)
Theorem validate_sound p p' :
  Validate p = Ok p' →
  WF p' ∧ Subjects p' = Subjects p ∧ Enabled p' = Enabled p ∧ Forall2 same_scope (Grants p) (Grants p').
Proof.
  intros (grants & -> & Hg & Hwf)%Validate_inv. split_and!; try done.
  by apply check_grants_wf in Hg as (_ & ? & _).
Qed.

(** Validate is a normalisation: a policy it accepts is accepted again
unchanged, and every well-formed policy is accepted as it stands. *)
Theorem validate_normal p p' :
  (Validate p = Ok p' → Validate p' = Ok p') ∧ (WF p ↔ Validate p = Ok p).
Proof.
  assert (Hid : ∀ q, WF q → Validate q = Ok q).
  { intros q [(Ht & Hne & Hlen & Hn) Hd (Hsl & Hs) (Hg & Hgw) Hids]. unfold Validate. rewrite Ht.
    rewrite bool_decide_eq_false_2, (proj2 (Nat.ltb_ge 64 _)) by done. cbn [orb]. rewrite Hn, Hd.
    rewrite (proj2 (Nat.ltb_ge MaxSubjects _)) by done.
    rewrite (proj2 (check_subjects_ok _)) by done. simpl.
    rewrite bool_decide_eq_false_2 by (apply nonempty_length; lia).
    rewrite (proj2 (Nat.ltb_ge MaxGrants _)) by lia.
    rewrite check_grants_id; [by destruct q|done..|]. apply Forall_forall. intros x _. right. set_solver. }
  split; [|split; [auto|]]; intros (? & ? & _ & Hwf)%Validate_inv; auto. 
Qed.

End Validation.

(** * Time windows *)

(** Minutes since Sunday midnight, local time. *)
Definition week_minute (sec : Z) : Z := local_weekday sec * 1440 + local_minute sec.

Lemma parseClock_range s n : parseClock s = Some n → 0 ≤ n < 1440.
Proof.
  unfold parseClock. destruct (sscanf_clock s) as [[h m]|]; [|done].
  destruct (_ || _) eqn:Hb; [done|]. intros [= <-]. bool_simpl. lia.
Qed.

Lemma dayIndex_range d k : dayIndex !! d = Some k → 0 ≤ k < 7.
Proof.
  intros H. unfold dayIndex in H. do 6 (rewrite lookup_insert in H; case_decide; [simplify_eq; lia|]).
  rewrite lookup_singleton in H. case_decide; simplify_eq; lia.
Qed.

Lemma hasDay_spec w d :
  Forall (λ d, is_Some (dayIndex !! d)) (Days w) →
  hasDay w d = true ↔ ∃ name, name ∈ Days w ∧ dayIndex !! name = Some d.
Proof.
  intros Hf. unfold hasDay. rewrite existsb_true. rewrite Forall_forall in Hf. split.
  - intros (name & Hin & Heq%Z.eqb_eq). destruct (Hf _ Hin) as [k Hk]. rewrite Hk in Heq. simpl in Heq. subst. eauto.
  - intros (name & Hin & Hk). exists name. split; [done|]. rewrite Hk. apply Z.eqb_refl.
Qed.

(** A window is open exactly in its weekly spans: on a validated window,
[Open] holds at an instant when its local time lies in the span that starts on
some listed day at [from] and lasts until the next [to] (past midnight, and
past the end of the week, when [to] comes first), or anywhere in a listed day
when the two ends are equal. *)
Theorem window_open_spec `{TimeZones} w now from to :
  WF_window w → parseClock (From_ w) = Some from → parseClock (To_ w) = Some to →
  Open_ w now = true ↔
  ∃ loc name k, LoadLocation (TZ w) = Some loc ∧ name ∈ Days w ∧ dayIndex !! name = Some k
    ∧ (week_minute (local_seconds loc now) - (k * 1440 + if from =? to then 0 else from)) mod 10080
      < (if from =? to then 1440 else (to - from) mod 1440).
Proof.
  intros [[_ Hdays] _ [_ [loc Hloc]]] Hf Ht. unfold Open_. rewrite Hloc, Hf, Ht. cbn [default from_option id].
  apply parseClock_range in Hf, Ht. set (sec := local_seconds loc now).
  assert (0 ≤ local_minute sec < 1440) as Hm by (unfold local_minute; div_lia).
  assert (0 ≤ local_weekday sec < 7) as Hw by (unfold local_weekday; div_lia).
  assert (Hex : ∀ P : Z → Prop, (∃ l name k, Some loc = Some l ∧ name ∈ Days w ∧ dayIndex !! name = Some k
            ∧ P k) ↔ ∃ k, hasDay w k = true ∧ 0 ≤ k < 7 ∧ P k).
  { intros P. setoid_rewrite (λ d, hasDay_spec w d Hdays). split.
    - intros (? & name & k & _ & ? & Hk & ?). eauto 10 using dayIndex_range.
    - intros (k & (name & ? & ?) & _ & ?). eauto 10. }
  transitivity (∃ k, hasDay w k = true ∧ 0 ≤ k < 7 ∧
    (week_minute sec - (k * 1440 + (if from =? to then 0 else from))) mod 10080
      < (if from =? to then 1440 else (to - from) mod 1440)).
  2:{ rewrite <-Hex. split; intros (l & n & k & [= <-] & ?); eauto. }
  unfold week_minute. set (d := local_weekday sec) in *. set (m := local_minute sec) in *. clearbody d m. clear Hex Hdays Hloc.
  destruct (Z.eqb_spec from to) as [->|Hne]; [|destruct (Z.ltb_spec from to)].
  - split; [intros Hd; exists d; split; [done|]; div_lia|].
    intros (k & Hk & ? & ?). assert (k = d) by div_lia. by subst.
  - rewrite !andb_true_iff, Z.leb_le, Z.ltb_lt. split.
    + intros [[Hd ?] ?]. exists d. split; [done|]. div_lia.
    + intros (k & Hk & ? & ?). assert (k = d ∧ from ≤ m < to) as (-> & ?) by div_lia. split_and!; [done|lia..].
  - rewrite orb_true_iff, !andb_true_iff, Z.leb_le, Z.ltb_lt. split.
    + intros [[Hd ?]|[Hd ?]]; eexists; (split; [exact Hd|]); div_lia.
    + intros (k & Hk & ? & ?).
      assert ((k = d ∧ from ≤ m) ∨ (k = (d + 6) mod 7 ∧ m < to)) as [[-> ?]|[-> ?]] by div_lia; auto.
Qed.

(** * A policy of the examples: hosts tagged env=prod over SSH, office hours *)

Definition ex_zones : TimeZones := {|
  zone_db := λ name, if bool_decide (name = "Europe/Paris") then Some (λ _, 3600) else None |}.

Definition ex_window (from to : string) : TimeWindow :=
  {| Days := [" Mon"; "FRI"]; From_ := from; To_ := to; TZ := "Europe/Paris" |}.

Definition ex_tag_match : TagMatch := {| Match := {[ "env" := ["prod"; "stage"] ]}; tmProtocols := ["ssh"] |}.

Definition ex_draft (id access : string) (clipboard mfa : bool) (windows : list TimeWindow) : Grant := {|
  gID := id; Kind := "host"; Targets := [{| gtID := "t1"; gtProtocols := ["ssh"; "rdp"] |}];
  Tags := Some ex_tag_match; Access := access; SignIn := ""; RequireMFA := mfa;
  AllowClipboard := clipboard; AllowFileTransfer := true; AllowDevTools := false;
  IdleTimeoutMinutes := 0; MaxSessionMinutes := Some 60; TimeWindows := windows; RetentionDays := None |}.

Definition ex_policy (name : string) (grants : list Grant) : Policy := {|
  pID := "p1"; pName := name; Description := "ops"; Enabled := true;
  Subjects := [{| sKind := "group"; sID := "ops" |}]; Grants := grants; CreatedBy := "";
  CreatedAt := 0; UpdatedAt := 0; ReviewedAt := None; ReviewedBy := "" |}.

(** What [Validate] makes of the draft. *)
Definition ex_stored (id access : string) (clipboard mfa : bool) (windows : list TimeWindow) : Grant :=
  set_terms (ex_draft id access clipboard mfa windows) access SignInTarget_ true 15
    ((λ w, {| Days := ["mon"; "fri"]; From_ := From_ w; To_ := To_ w; TZ := TZ w |}) <$> windows).

Lemma ex_validates :
  Validate (H := ex_zones) (ex_policy " prod " [ex_draft "g1" "" false true [ex_window "22:00" "06:00"]])
  = Ok (ex_policy "prod" [set_terms (ex_stored "g1" "standing" false true [ex_window "22:00" "06:00"]) "standing" "target" true 15
          [{| Days := ["mon"; "fri"]; From_ := "22:00"; To_ := "06:00"; TZ := "Europe/Paris" |}]]).
Proof. vm_compute. reflexivity. Qed.

Lemma validate_sound_witness :
  WF (H := ex_zones) (ex_policy "prod" [ex_stored "g1" "standing" false true [ex_window "22:00" "06:00"]]).
Proof.
  apply (validate_sound (H := ex_zones) (ex_policy " prod " [ex_draft "g1" "standing" false true [ex_window "22:00" "06:00"]])).
  vm_compute. reflexivity.
Defined.

(** Saturday 02:00 in Paris lies in the Friday night window. *)
Lemma window_open_spec_witness :
  let w := {| Days := ["mon"; "fri"]; From_ := "22:00"; To_ := "06:00"; TZ := "Europe/Paris" |} in
  let now := (2 * 86400 + 3600) * Second in
  Open_ (H := ex_zones) w now = true ↔
  ∃ loc name k, LoadLocation (H := ex_zones) (TZ w) = Some loc ∧ name ∈ Days w ∧ dayIndex !! name = Some k
    ∧ (week_minute (local_seconds loc now) - (k * 1440 + if 1320 =? 360 then 0 else 1320)) mod 10080
      < (if 1320 =? 360 then 1440 else (360 - 1320) mod 1440).
Proof.
  apply (window_open_spec (H := ex_zones)); [|by vm_compute..]. split.
  - split; [done|]. repeat constructor; by eexists.
  - split; by eexists.
  - split; [done|by eexists].
Defined.
