(* ===== verification/PolicyEval.v ===== *)
(** The decision on a connection: which grants cover a target, and the terms of
the session they allow (src/internal/policy/policy.go, from TargetRef to
evaluate). *)
From S2P Require Import Prelude Protocol Policy.
Local Open Scope Z_scope.

Record TargetRef := {
  tKind : string;
  tID : string;
  tASGID : string;
  tTags : gmap string string;
}.

(** The id a grant's named targets are matched against. *)
Definition ref_id (t : TargetRef) : string :=
  if bool_decide (tKind t = KindAutoscaling) then tASGID t else tID t.

(** Every key present with one of its values. *)
Definition matches (m : TagMatch) (tags : gmap string string) : bool :=
  if (size (Match m) =? 0)%nat then false
  else forallb (λ kv, match tags !! kv.1 with
                      | None => false
                      | Some got => contains kv.2 got
                      end) (map_to_list (Match m)).

Definition Covers (g : Grant) (t : TargetRef) (proto : string) : bool :=
  if negb (bool_decide (Kind g = tKind t)) || negb (KindServes (Kind g) proto) then false
  else
    let id := ref_id t in
    if negb (bool_decide (id = "")) &&
       existsb (λ gt, bool_decide (gtID gt = id) && contains (gtProtocols gt) proto) (Targets g)
    then true
    else match Tags g with
         | None => false
         | Some m => contains (tmProtocols m) proto && matches m (tTags t)
         end.

Definition selects (g : Grant) (t : TargetRef) : bool :=
  if negb (bool_decide (Kind g = tKind t)) then false
  else
    let id := ref_id t in
    if negb (bool_decide (id = "")) && existsb (λ gt, bool_decide (gtID gt = id)) (Targets g)
    then true
    else match Tags g with None => false | Some m => matches m (tTags t) end.

(** The id a grant of this kind would name the target or group by. *)
Definition wanted (g : Grant) (targetID asgID : string) : string :=
  if bool_decide (Kind g = KindAutoscaling) then asgID else targetID.

(** Whether a grant names it, by id. *)
Definition names (targetID asgID : string) (g : Grant) : bool :=
  let want := wanted g targetID asgID in
  negb (bool_decide (want = "")) && existsb (λ gt, bool_decide (gtID gt = want)) (Targets g).

Definition References (p : Policy) (targetID asgID : string) : bool :=
  existsb (names targetID asgID) (Grants p).

Definition set_targets (g : Grant) (ts : list GrantTarget) : Grant := {|
  gID := gID g; Kind := Kind g; Targets := ts; Tags := Tags g; Access := Access g;
  SignIn := SignIn g; RequireMFA := RequireMFA g; AllowClipboard := AllowClipboard g;
  AllowFileTransfer := AllowFileTransfer g; AllowDevTools := AllowDevTools g;
  IdleTimeoutMinutes := IdleTimeoutMinutes g; MaxSessionMinutes := MaxSessionMinutes g;
  TimeWindows := TimeWindows g; RetentionDays := RetentionDays g |}.

(** The loop of WithoutTarget: the grants kept, how many went, whether anything
changed. *)
Fixpoint without_target (l : list Grant) (targetID asgID : string) : list Grant * nat * bool :=
  match l with
  | [] => ([], 0%nat, false)
  | g :: l =>
      let '(grants, removed, changed) := without_target l targetID asgID in
      if names targetID asgID g then
        let g' := set_targets g (filter (λ t, gtID t ≠ wanted g targetID asgID) (Targets g)) in
        if bool_decide (Targets g' = []) && negb (bool_decide (is_Some (Tags g')))
        then (grants, S removed, true)
        else (g' :: grants, removed, true)
      else (g :: grants, removed, changed)
  end.

Definition WithoutTarget (p : Policy) (targetID asgID : string) : list Grant * nat * bool :=
  without_target (Grants p) targetID asgID.

Definition HasSubject (p : Policy) (kind id : string) : bool :=
  bool_decide ({| sKind := kind; sID := id |} ∈ Subjects p).

Record GrantRef := { rPolicyID : string; rPolicyName : string; rGrantID : string }.

Inductive Reason := NoReason | NoPolicy | ProtocolNotAllowed | OutsideWindow.

Record Decision := {
  Allowed : bool;
  Reason_ : Reason;
  dPolicy : option Policy;
  dGrantID : string;
  dGrants : list GrantRef;
  IdleTimeout : duration;
  MaxSession : duration;
  dRetentionDays : Z;
  dAllowClipboard : bool;
  dAllowFileTransfer : bool;
  dAllowDevTools : bool;
  dRequireMFA : bool;
  RequireApproval : bool;
  SignInTarget : bool;
  SignInOwn : bool;
}.

(** A grant with the policy it comes from. *)
Abbreviation decider := (Policy * Grant)%type.

(** The first loop: the reason so far, and the grants that admit. *)
Record Collected := { reason : Reason; standing : list decider; approval : list decider }.

Definition collect_grant `{TimeZones} (t : TargetRef) (proto : string) (now : time) (windows : bool)
    (p : Policy) (c : Collected) (g : Grant) : Collected :=
  if negb (Covers g t proto) then
    if selects g t then {| reason := ProtocolNotAllowed; standing := standing c; approval := approval c |} else c
  else if windows && negb (bool_decide (TimeWindows g = [])) && negb (anyOpen (TimeWindows g) now) then
    {| reason := OutsideWindow; standing := standing c; approval := approval c |}
  else if bool_decide (Access g = AccessApproval) then
    {| reason := reason c; standing := standing c; approval := approval c ++ [(p, g)] |}
  else {| reason := reason c; standing := standing c ++ [(p, g)]; approval := approval c |}.

Definition collect_policy `{TimeZones} (t : TargetRef) (proto : string) (now : time) (windows : bool)
    (c : Collected) (p : Policy) : Collected :=
  if negb (Enabled p) then c else foldl (collect_grant t proto now windows p) c (Grants p).

Definition collect `{TimeZones} (policies : list Policy) (t : TargetRef) (proto : string) (now : time)
    (windows : bool) : Collected :=
  foldl (collect_policy t proto now windows) {| reason := NoPolicy; standing := []; approval := [] |} policies.

(** The second loop merges the terms of the deciding grants: the decision so
far, the grant with the shortest idle timeout, whether a maximum is set. *)
Record Merging := { dec : Decision; best : option decider; maxSet : bool }.

Definition merge_grant (m : Merging) (c : decider) : Merging :=
  let '(p, g) := c in
  let d := dec m in
  let '(maxS, maxSet') := match MaxSessionMinutes g with
    | Some n => let x := n * Minute in
                if negb (maxSet m) || (x <? MaxSession d) then (x, true) else (MaxSession d, maxSet m)
    | None => (MaxSession d, maxSet m)
    end in
  {| dec := {|
       Allowed := Allowed d; Reason_ := Reason_ d; dPolicy := dPolicy d; dGrantID := dGrantID d;
       dGrants := dGrants d ++ [{| rPolicyID := pID p; rPolicyName := pName p; rGrantID := gID g |}];
       IdleTimeout := IdleTimeout d; MaxSession := maxS;
       dRetentionDays := match RetentionDays g with
                         | Some n => if dRetentionDays d <? n then n else dRetentionDays d
                         | None => dRetentionDays d
                         end;
       dAllowClipboard := dAllowClipboard d && AllowClipboard g;
       dAllowFileTransfer := dAllowFileTransfer d && AllowFileTransfer g;
       dAllowDevTools := dAllowDevTools d && AllowDevTools g;
       dRequireMFA := dRequireMFA d || RequireMFA g;
       RequireApproval := RequireApproval d;
       SignInTarget := if bool_decide (SignIn g = SignInOwn_) then SignInTarget d else true;
       SignInOwn := if bool_decide (SignIn g = SignInOwn_) then true else SignInOwn d |};
     best := match best m with
             | None => Some c
             | Some b => if IdleTimeoutMinutes g <? IdleTimeoutMinutes b.2 then Some c else Some b
             end;
     maxSet := maxSet' |}.

Definition denied (r : Reason) : Decision := {|
  Allowed := false; Reason_ := r; dPolicy := None; dGrantID := ""; dGrants := [];
  IdleTimeout := 0; MaxSession := 0; dRetentionDays := 0; dAllowClipboard := false;
  dAllowFileTransfer := false; dAllowDevTools := false; dRequireMFA := false;
  RequireApproval := false; SignInTarget := false; SignInOwn := false |}.

Definition opening (requireApproval : bool) : Decision := {|
  Allowed := true; Reason_ := NoReason; dPolicy := None; dGrantID := ""; dGrants := [];
  IdleTimeout := 0; MaxSession := 0; dRetentionDays := 0; dAllowClipboard := true;
  dAllowFileTransfer := true; dAllowDevTools := true; dRequireMFA := false;
  RequireApproval := requireApproval; SignInTarget := false; SignInOwn := false |}.

(** The label and the idle timeout come from the best grant. *)
Definition label (d : Decision) (b : option decider) : Decision :=
  match b with
  | None => d
  | Some (p, g) => {|
      Allowed := Allowed d; Reason_ := Reason_ d; dPolicy := Some p; dGrantID := gID g;
      dGrants := dGrants d; IdleTimeout := IdleTimeoutMinutes g * Minute; MaxSession := MaxSession d;
      dRetentionDays := dRetentionDays d; dAllowClipboard := dAllowClipboard d;
      dAllowFileTransfer := dAllowFileTransfer d; dAllowDevTools := dAllowDevTools d;
      dRequireMFA := dRequireMFA d; RequireApproval := RequireApproval d;
      SignInTarget := SignInTarget d; SignInOwn := SignInOwn d |}
  end.

Definition merge_all (set : list decider) (requireApproval : bool) : Merging :=
  foldl merge_grant {| dec := opening requireApproval; best := None; maxSet := false |} set.

Definition evaluate `{TimeZones} (policies : list Policy) (t : TargetRef) (proto : string) (now : time)
    (windows : bool) : Decision :=
  let c := collect policies t proto now windows in
  let '(set, requireApproval) :=
    if bool_decide (standing c = []) then (approval c, true) else (standing c, false) in
  if bool_decide (set = []) then denied (reason c)
  else let m := merge_all set requireApproval in label (dec m) (best m).

Definition Evaluate `{TimeZones} (policies : list Policy) t proto now : Decision :=
  evaluate policies t proto now true.

Definition EvaluateLive `{TimeZones} (policies : list Policy) t proto now : Decision :=
  evaluate policies t proto now false.

(** * The specification: who is admitted, and which grants decide *)

Definition deciders (policies : list Policy) : list decider :=
  policies ≫= λ p, (λ g, (p, g)) <$> Grants p.

(** A grant of an enabled policy admits when it covers the target and protocol
and, where windows count, has none or one that is open. *)
Definition admits `{TimeZones} (t : TargetRef) (proto : string) (now : time) (windows : bool) (c : decider) : bool :=
  Enabled c.1 && Covers c.2 t proto
  && negb (windows && negb (bool_decide (TimeWindows c.2 = [])) && negb (anyOpen (TimeWindows c.2) now)).

Definition is_approval (c : decider) : bool := bool_decide (Access c.2 = AccessApproval).

Definition admitting `{TimeZones} (policies : list Policy) t proto now windows : list decider :=
  List.filter (admits t proto now windows) (deciders policies).

(** The deciding grants: the standing ones that admit, else the approval ones. *)
Definition deciding `{TimeZones} (policies : list Policy) t proto now windows : list decider :=
  let all := admitting policies t proto now windows in
  let st := List.filter (negb ∘ is_approval) all in
  if bool_decide (st = []) then all else st.

(** The terms a set of grants gives a session: each the strictest. *)
Record Terms (set : list decider) (d : Decision) : Prop := {
  terms_idle : (∃ c, c ∈ set ∧ IdleTimeout d = IdleTimeoutMinutes c.2 * Minute)
    ∧ ∀ c, c ∈ set → IdleTimeout d ≤ IdleTimeoutMinutes c.2 * Minute;
  terms_max : ∀ c n, c ∈ set → MaxSessionMinutes c.2 = Some n → MaxSession d ≤ n * Minute;
  terms_max_from : (MaxSession d = 0 ∧ ∀ c, c ∈ set → MaxSessionMinutes c.2 = None)
    ∨ ∃ c n, c ∈ set ∧ MaxSessionMinutes c.2 = Some n ∧ MaxSession d = n * Minute;
  terms_retention : ∀ c n, c ∈ set → RetentionDays c.2 = Some n → n ≤ dRetentionDays d;
  terms_retention_from : dRetentionDays d = 0 ∨ ∃ c, c ∈ set ∧ RetentionDays c.2 = Some (dRetentionDays d);
  terms_clipboard : dAllowClipboard d = true ↔ ∀ c, c ∈ set → AllowClipboard c.2 = true;
  terms_files : dAllowFileTransfer d = true ↔ ∀ c, c ∈ set → AllowFileTransfer c.2 = true;
  terms_devtools : dAllowDevTools d = true ↔ ∀ c, c ∈ set → AllowDevTools c.2 = true;
  terms_mfa : dRequireMFA d = true ↔ ∃ c, c ∈ set ∧ RequireMFA c.2 = true;
  terms_own : SignInOwn d = true ↔ ∃ c, c ∈ set ∧ SignIn c.2 = SignInOwn_;
  terms_target : SignInTarget d = true ↔ ∃ c, c ∈ set ∧ SignIn c.2 ≠ SignInOwn_;
  terms_grants : dGrants d = (λ c : decider, {| rPolicyID := pID c.1; rPolicyName := pName c.1; rGrantID := gID c.2 |}) <$> set;
  terms_label : ∃ l1 p g l2, set = l1 ++ (p, g) :: l2 ∧ dPolicy d = Some p ∧ dGrantID d = gID g
    ∧ IdleTimeout d = IdleTimeoutMinutes g * Minute
    ∧ Forall (λ c, IdleTimeoutMinutes g < IdleTimeoutMinutes c.2) l1;
}.

(** * The first loop *)

Section Collect.
Context `{TimeZones} (t : TargetRef) (proto : string) (now : time) (windows : bool).

Lemma collect_grant_lists p c g :
  Enabled p = true →
  standing (collect_grant t proto now windows p c g)
    = standing c ++ List.filter (λ x, admits t proto now windows x && negb (is_approval x)) [(p, g)]
  ∧ approval (collect_grant t proto now windows p c g)
    = approval c ++ List.filter (λ x, admits t proto now windows x && is_approval x) [(p, g)].
Proof.
  intros Hp. unfold collect_grant, admits, is_approval. simpl. rewrite Hp. simpl.
  destruct (Covers g t proto); simpl; [|destruct (selects g t); simpl; by rewrite !app_nil_r].
  destruct (windows && _ && _); simpl; [by rewrite !app_nil_r|].
  case_bool_decide; simpl; by rewrite ?app_nil_r.
Qed.

Lemma filter_app_ {A} (f : A → bool) l l' : List.filter f (l ++ l') = List.filter f l ++ List.filter f l'.
Proof. apply List.filter_app. Qed.

Lemma collect_policy_lists c p :
  standing (collect_policy t proto now windows c p)
    = standing c ++ List.filter (λ x, admits t proto now windows x && negb (is_approval x)) ((λ g, (p, g)) <$> Grants p)
  ∧ approval (collect_policy t proto now windows c p)
    = approval c ++ List.filter (λ x, admits t proto now windows x && is_approval x) ((λ g, (p, g)) <$> Grants p).
Proof.
  unfold collect_policy. destruct (Enabled p) eqn:Hp; simpl.
  - revert c. induction (Grants p) as [|g l IH]; intros c; simpl; [by rewrite !app_nil_r|].
    destruct (IH (collect_grant t proto now windows p c g)) as [-> ->].
    destruct (collect_grant_lists p c g Hp) as [-> ->]. simpl.
    by destruct (_ && negb _), (_ && is_approval _); simpl; rewrite ?app_nil_r, <-?app_assoc.
  - assert (∀ f, List.filter (λ x, admits t proto now windows x && f x) ((λ g, (p, g)) <$> Grants p) = []) as Hn.
    { intros f. unfold admits. induction (Grants p); simpl; [done|]. by rewrite Hp. }
    pose proof (Hn (λ x, negb (is_approval x))) as E1. cbv beta in E1. rewrite E1, (Hn is_approval).
    by rewrite !app_nil_r.
Qed.

Lemma filter_andb {A} (f g : A → bool) l : List.filter (λ x, f x && g x) l = List.filter g (List.filter f l).
Proof.
  induction l as [|x l IH]; simpl; [done|]. destruct (f x); simpl; [destruct (g x)|]; by rewrite ?IH.
Qed.

Lemma collect_lists policies :
  let all := admitting policies t proto now windows in
  standing (collect policies t proto now windows) = List.filter (negb ∘ is_approval) all
  ∧ approval (collect policies t proto now windows) = List.filter is_approval all.
Proof.
  simpl. unfold admitting. rewrite <-(filter_andb _ (negb ∘ is_approval)), <-(filter_andb _ is_approval).
  unfold collect. set (c0 := {| reason := _ |}).
  enough (∀ c, standing (foldl (collect_policy t proto now windows) c policies)
       = standing c ++ List.filter (λ x, admits t proto now windows x && negb (is_approval x)) (deciders policies)
    ∧ approval (foldl (collect_policy t proto now windows) c policies)
       = approval c ++ List.filter (λ x, admits t proto now windows x && is_approval x) (deciders policies)) as Hc
    by apply (Hc c0).
  induction policies as [|p l IH]; intros c; simpl; [by rewrite !app_nil_r|].
  destruct (IH (collect_policy t proto now windows c p)) as [-> ->].
  destruct (collect_policy_lists c p) as [-> ->].
  unfold deciders at 2 4. simpl. by rewrite !filter_app_, <-!app_assoc.
Qed.

End Collect.

(** * The second loop *)

Section Merge.
Variable ra : bool.

Lemma merge_all_snoc l c : merge_all (l ++ [c]) ra = merge_grant (merge_all l ra) c.
Proof. unfold merge_all. by rewrite foldl_app. Qed.

Lemma merge_fixed l : Allowed (dec (merge_all l ra)) = true ∧ RequireApproval (dec (merge_all l ra)) = ra.
Proof.
  induction l as [|[p g] l IH] using rev_ind; [done|]. rewrite merge_all_snoc. unfold merge_grant.
  by destruct (match MaxSessionMinutes g with Some _ => _ | None => _ end).
Qed.

Lemma merge_switches l :
  let d := dec (merge_all l ra) in
  dAllowClipboard d = forallb (λ c, AllowClipboard c.2) l
  ∧ dAllowFileTransfer d = forallb (λ c, AllowFileTransfer c.2) l
  ∧ dAllowDevTools d = forallb (λ c, AllowDevTools c.2) l
  ∧ dRequireMFA d = existsb (λ c, RequireMFA c.2) l
  ∧ SignInOwn d = existsb (λ c, bool_decide (SignIn c.2 = SignInOwn_)) l
  ∧ SignInTarget d = existsb (λ c, negb (bool_decide (SignIn c.2 = SignInOwn_))) l
  ∧ dGrants d = (λ c : decider, {| rPolicyID := pID c.1; rPolicyName := pName c.1; rGrantID := gID c.2 |}) <$> l.
Proof.
  induction l as [|[p g] l IH] using rev_ind; [done|]. rewrite merge_all_snoc. unfold merge_grant.
  destruct IH as (H1 & H2 & H3 & H4 & H5 & H6 & H7).
  destruct (match MaxSessionMinutes g with Some _ => _ | None => _ end). simpl.
  rewrite !forallb_app, !existsb_app, fmap_app. simpl.
  rewrite H1, H2, H3, H4, H5, H6, H7, !andb_true_r, !orb_false_r.
  split_and!; try done; case_bool_decide; simpl; by rewrite ?orb_true_r, ?orb_false_r.
Qed.

Lemma merge_max l :
  let m := merge_all l ra in
  if maxSet m then
    (∀ c n, c ∈ l → MaxSessionMinutes c.2 = Some n → MaxSession (dec m) ≤ n * Minute)
    ∧ ∃ c n, c ∈ l ∧ MaxSessionMinutes c.2 = Some n ∧ MaxSession (dec m) = n * Minute
  else MaxSession (dec m) = 0 ∧ ∀ c, c ∈ l → MaxSessionMinutes c.2 = None.
Proof.
  induction l as [|[p g] l IH] using rev_ind; [split; [done|by intros c ?%not_elem_of_nil]|].
  rewrite merge_all_snoc. unfold merge_grant. simpl in IH |- *.
  destruct (MaxSessionMinutes g) as [n|] eqn:Hg; simpl.
  - destruct (maxSet (merge_all l ra)) eqn:Hs; simpl.
    + destruct IH as [Hle (c0 & n0 & Hc0 & Hn0 & Heq)].
      destruct (Z.ltb_spec (n * Minute) (MaxSession (dec (merge_all l ra)))); simpl; try rewrite Hs; split.
      * intros c k [Hc| ->%list_elem_of_singleton]%elem_of_app Hk; simpl in *; simplify_eq; [|lia].
        specialize (Hle _ _ Hc Hk). lia.
      * exists (p, g), n. set_solver.
      * intros c k [Hc| ->%list_elem_of_singleton]%elem_of_app Hk; simpl in *; simplify_eq; [|lia].
        by eapply Hle.
      * exists c0, n0. set_solver.
    + destruct IH as [_ Hnone]. split.
      * intros c k [Hc| ->%list_elem_of_singleton]%elem_of_app Hk; simpl in *; simplify_eq; [|lia].
        by rewrite Hnone in Hk.
      * exists (p, g), n. set_solver.
  - destruct (maxSet (merge_all l ra)) eqn:Hs; simpl.
    + destruct IH as [Hle (c0 & n0 & Hc0 & Hn0 & Heq)]. split.
      * intros c k [Hc| ->%list_elem_of_singleton]%elem_of_app Hk; simpl in *; [by eapply Hle|congruence].
      * exists c0, n0. set_solver.
    + destruct IH as [Heq Hnone]. split; [done|].
      intros c [Hc| ->%list_elem_of_singleton]%elem_of_app; auto.
Qed.

Lemma merge_retention l :
  let d := dec (merge_all l ra) in
  (∀ c n, c ∈ l → RetentionDays c.2 = Some n → n ≤ dRetentionDays d)
  ∧ (dRetentionDays d = 0 ∨ ∃ c, c ∈ l ∧ RetentionDays c.2 = Some (dRetentionDays d)).
Proof.
  induction l as [|[p g] l IH] using rev_ind; [split; [by intros c n ?%not_elem_of_nil|by left]|].
  rewrite merge_all_snoc. unfold merge_grant. simpl in IH |- *. destruct IH as [Hle Hfrom].
  destruct (match MaxSessionMinutes g with Some _ => _ | None => _ end). simpl.
  destruct (RetentionDays g) as [n|] eqn:Hg.
  - destruct (Z.ltb_spec (dRetentionDays (dec (merge_all l ra))) n); split.
    + intros c k [Hc| ->%list_elem_of_singleton]%elem_of_app Hk; simpl in *; simplify_eq; [|lia].
      specialize (Hle _ _ Hc Hk). lia.
    + right. exists (p, g). set_solver.
    + intros c k [Hc| ->%list_elem_of_singleton]%elem_of_app Hk; simpl in *; simplify_eq; [|lia].
      by eapply Hle.
    + destruct Hfrom as [|(c & ? & ?)]; [by left|right]. exists c. set_solver.
  - split.
    + intros c k [Hc| ->%list_elem_of_singleton]%elem_of_app Hk; simpl in *; [by eapply Hle|congruence].
    + destruct Hfrom as [|(c & ? & ?)]; [by left|right]. exists c. set_solver.
Qed.

Lemma merge_best l :
  match best (merge_all l ra) with
  | None => l = []
  | Some (p, g) => ∃ l1 l2, l = l1 ++ (p, g) :: l2
      ∧ Forall (λ c, IdleTimeoutMinutes g < IdleTimeoutMinutes c.2) l1
      ∧ ∀ c, c ∈ l → IdleTimeoutMinutes g ≤ IdleTimeoutMinutes c.2
  end.
Proof.
  induction l as [|[p g] l IH] using rev_ind; [done|]. rewrite merge_all_snoc. unfold merge_grant.
  destruct (match MaxSessionMinutes g with Some _ => _ | None => _ end). simpl.
  destruct (best (merge_all l ra)) as [[p' g']|]; simpl in *.
  - destruct IH as (l1 & l2 & Heq & Hf & Hle).
    destruct (Z.ltb_spec (IdleTimeoutMinutes g) (IdleTimeoutMinutes g')).
    + exists l, []. split; [done|]. split.
      * apply Forall_forall. intros c Hc. specialize (Hle _ Hc). lia.
      * intros c [Hc| ->%list_elem_of_singleton]%elem_of_app; [|simpl; lia]. specialize (Hle _ Hc). lia.
    + exists l1, (l2 ++ [(p, g)]). split; [by rewrite Heq, <-app_assoc|]. split; [done|].
      intros c [Hc| ->%list_elem_of_singleton]%elem_of_app; [auto|simpl; lia].
  - subst. exists [], []. split; [done|]. split; [constructor|]. intros c ->%list_elem_of_singleton. simpl; lia.
Qed.

Lemma merge_terms l : l ≠ [] → Terms l (label (dec (merge_all l ra)) (best (merge_all l ra))).
Proof.
  intros Hne. pose proof (merge_switches l) as Hsw. pose proof (merge_max l) as Hmax.
  pose proof (merge_retention l) as Hret. pose proof (merge_best l) as Hbest. cbv zeta in *.
  destruct (best (merge_all l ra)) as [[p g]|]; [|done]. destruct Hbest as (l1 & l2 & Heq & Hf & Hle).
  destruct Hsw as (H1 & H2 & H3 & H4 & H5 & H6 & H7), Hret as [Hr1 Hr2].
  split; simpl; rewrite ?H1, ?H2, ?H3, ?H4, ?H5, ?H6, ?forallb_true, ?existsb_true; try done.
  - split; [exists (p, g); split; [set_solver|done]|]. intros c Hc. specialize (Hle _ Hc). unfold Minute, Second. lia.
  - destruct (maxSet (merge_all l ra)); [apply Hmax|]. destruct Hmax as [_ Hn]. intros c n Hc Hk. by rewrite Hn in Hk.
  - destruct (maxSet (merge_all l ra)); [right; apply Hmax|left; done].
  - by setoid_rewrite bool_decide_eq_true.
  - setoid_rewrite negb_true_iff. by setoid_rewrite bool_decide_eq_false.
  - exists l1, p, g, l2. done.
Qed.

End Merge.

(** * The decision *)

Section Decision.
Context `{TimeZones}.

Lemma filter_all_or {A} (f : A → bool) l : List.filter (negb ∘ f) l = [] → List.filter f l = l.
Proof. induction l as [|x l IH]; simpl; [done|]. destruct (f x); simpl; [intros; by rewrite IH|done]. Qed.

Definition standing_admitting (policies : list Policy) t proto now windows : list decider :=
  List.filter (negb ∘ is_approval) (admitting policies t proto now windows).

Lemma evaluate_cases policies t proto now windows :
  let set := deciding policies t proto now windows in
  let ra := bool_decide (standing_admitting policies t proto now windows = []) in
  evaluate policies t proto now windows =
    if bool_decide (set = []) then denied (reason (collect policies t proto now windows))
    else label (dec (merge_all set ra)) (best (merge_all set ra)).
Proof.
  unfold evaluate, deciding, standing_admitting. destruct (collect_lists t proto now windows policies) as [Hs Ha].
  rewrite Hs, Ha. case_bool_decide as Hn; simpl; [|done]. by rewrite (filter_all_or _ _ Hn).
Qed.

Lemma deciding_nil policies t proto now windows :
  deciding policies t proto now windows = [] ↔ admitting policies t proto now windows = [].
Proof. unfold deciding. case_bool_decide; [done|]. split; [done|]. intros ->. done. Qed.

Lemma elem_of_deciders policies p g : (p, g) ∈ deciders policies ↔ p ∈ policies ∧ g ∈ Grants p.
Proof.
  unfold deciders. rewrite list_elem_of_bind. setoid_rewrite list_elem_of_fmap. naive_solver.
Qed.

Lemma elem_of_filter_b {A} (f : A → bool) l x : x ∈ List.filter f l ↔ x ∈ l ∧ f x = true.
Proof. rewrite !list_elem_of_In. apply filter_In. Qed.

Lemma elem_of_admitting policies t proto now windows p g :
  (p, g) ∈ admitting policies t proto now windows ↔
  p ∈ policies ∧ g ∈ Grants p ∧ Enabled p = true ∧ Covers g t proto = true
  ∧ (windows = true → TimeWindows g ≠ [] → anyOpen (TimeWindows g) now = true).
Proof.
  unfold admitting. rewrite elem_of_filter_b, elem_of_deciders. unfold admits. simpl.
  rewrite !andb_true_iff, negb_true_iff, !andb_false_iff, !negb_false_iff, bool_decide_eq_true.
  destruct windows, (decide (TimeWindows g = [])); naive_solver.
Qed.

Lemma allowed_admitting policies t proto now windows :
  Allowed (evaluate policies t proto now windows) = true ↔ admitting policies t proto now windows ≠ [].
Proof.
  rewrite evaluate_cases, <-deciding_nil. case_bool_decide as Hd; simpl; [rewrite Hd; naive_solver|].
  pose proof (merge_fixed (bool_decide (standing_admitting policies t proto now windows = []))
                (deciding policies t proto now windows)) as [Ha _].
  split; [done|]. intros _. by destruct (best _) as [[]|].
Qed.

Lemma evaluate_terms_lemma policies t proto now windows :
  Allowed (evaluate policies t proto now windows) = true →
  Terms (deciding policies t proto now windows) (evaluate policies t proto now windows)
  ∧ (RequireApproval (evaluate policies t proto now windows) = true
     ↔ standing_admitting policies t proto now windows = []).
Proof.
  intros Ha. pose proof (proj1 (allowed_admitting _ _ _ _ _) Ha) as Hne. rewrite <-deciding_nil in Hne.
  rewrite evaluate_cases, bool_decide_eq_false_2 by done.
  set (ra := bool_decide _). split; [by apply merge_terms|].
  pose proof (merge_fixed ra (deciding policies t proto now windows)) as [_ Hr].
  destruct (best _) as [[]|]; simpl; rewrite Hr; apply bool_decide_eq_true.
Qed.

(** Membership alone decides which grants admit, so any list of policies that
holds the old ones admits whatever they did. *)
Lemma admitting_mono policies policies' t proto now windows :
  policies ⊆ policies' → admitting policies t proto now windows ⊆ admitting policies' t proto now windows.
Proof. intros Hs [p g]. rewrite !elem_of_admitting. intros [Hp ?]. split; [by apply Hs|done]. Qed.

Lemma standing_mono policies policies' t proto now windows :
  policies ⊆ policies' →
  standing_admitting policies t proto now windows ⊆ standing_admitting policies' t proto now windows.
Proof.
  intros Hs c. unfold standing_admitting. rewrite !elem_of_filter_b. intros [? ?]. split; [|done].
  by eapply admitting_mono.
Qed.

Lemma subset_nil {A} (l l' : list A) : l ⊆ l' → l' = [] → l = [].
Proof. intros Hs ->. destruct l as [|x l]; [done|]. specialize (Hs x ltac:(left)). by apply not_elem_of_nil in Hs. Qed.

(** Terms are monotone in the deciding set. *)
Definition at_least_as_strict (d d' : Decision) : Prop :=
  IdleTimeout d' ≤ IdleTimeout d
  ∧ (0 < MaxSession d → 0 < MaxSession d' ≤ MaxSession d)
  ∧ dRetentionDays d ≤ dRetentionDays d'
  ∧ (dAllowClipboard d' = true → dAllowClipboard d = true)
  ∧ (dAllowFileTransfer d' = true → dAllowFileTransfer d = true)
  ∧ (dAllowDevTools d' = true → dAllowDevTools d = true)
  ∧ (dRequireMFA d = true → dRequireMFA d' = true).

Lemma Terms_mono set set' d d' :
  (∀ c n, c ∈ set' → MaxSessionMinutes c.2 = Some n → 0 < n) →
  (∀ c n, c ∈ set' → RetentionDays c.2 = Some n → 0 < n) →
  set ⊆ set' → Terms set d → Terms set' d' → at_least_as_strict d d'.
Proof.
  intros Hpos Hrpos Hs T T'. repeat apply conj.
  - destruct (terms_idle _ _ T) as [(c & Hc & ->) _]. by apply (terms_idle _ _ T'), Hs.
  - intros Hm. destruct (terms_max_from _ _ T) as [[? _]|(c & n & Hc & Hn & Heq)]; [lia|].
    pose proof (terms_max _ _ T' _ _ (Hs _ Hc) Hn).
    destruct (terms_max_from _ _ T') as [[_ Hnone]|(c' & n' & Hc' & Hn' & Heq')].
    + by rewrite (Hnone _ (Hs _ Hc)) in Hn.
    + pose proof (Hpos _ _ Hc' Hn'). rewrite Heq, Heq' in *. unfold Minute, Second in *. lia.
  - destruct (terms_retention_from _ _ T) as [->|(c & Hc & Hn)].
    + destruct (terms_retention_from _ _ T') as [->|(c & Hc & Hn)]; [lia|]. pose proof (Hrpos _ _ Hc Hn). lia.
    + by eapply (terms_retention _ _ T'); [apply Hs|].
  - rewrite (terms_clipboard _ _ T), (terms_clipboard _ _ T'). auto.
  - rewrite (terms_files _ _ T), (terms_files _ _ T'). auto.
  - rewrite (terms_devtools _ _ T), (terms_devtools _ _ T'). auto.
  - rewrite (terms_mfa _ _ T), (terms_mfa _ _ T'). naive_solver.
Qed.

(** The bounds [Validate] puts on every stored grant. *)
Definition stored (p : Policy) : Prop := Forall WF_grant (Grants p).

Lemma deciding_stored policies t proto now windows c :
  Forall stored policies → c ∈ deciding policies t proto now windows → WF_grant c.2.
Proof.
  intros Hst Hc. assert (c ∈ admitting policies t proto now windows) as Hin.
  { revert Hc. unfold deciding. case_bool_decide; [done|]. rewrite elem_of_filter_b. tauto. }
  destruct c as [p g]. apply elem_of_admitting in Hin as (Hp & Hg & _).
  rewrite Forall_forall in Hst. specialize (Hst _ Hp). unfold stored in Hst. rewrite Forall_forall in Hst. auto.
Qed.

(** Access is granted exactly when a grant gives it: a connection is allowed
if and only if an enabled policy of the caller holds a grant that covers the
target over the protocol and has no time window or one open now; and an
approval is asked for exactly when every such grant is approval-gated. *)
Theorem evaluate_allowed policies t proto now :
  (Allowed (Evaluate policies t proto now) = true ↔
     ∃ p g, p ∈ policies ∧ g ∈ Grants p ∧ Enabled p = true ∧ Covers g t proto = true
       ∧ (TimeWindows g = [] ∨ anyOpen (TimeWindows g) now = true))
  ∧ (Allowed (Evaluate policies t proto now) = true →
     (RequireApproval (Evaluate policies t proto now) = true ↔
      ∀ p g, p ∈ policies → g ∈ Grants p → Enabled p = true → Covers g t proto = true →
        TimeWindows g = [] ∨ anyOpen (TimeWindows g) now = true → Access g = AccessApproval)).
Proof.
  assert (Hw : ∀ g, (TimeWindows g = [] ∨ anyOpen (TimeWindows g) now = true)
            ↔ (true = true → TimeWindows g ≠ [] → anyOpen (TimeWindows g) now = true)).
  { intros g. destruct (decide (TimeWindows g = [])); naive_solver. }
  split.
  - unfold Evaluate. rewrite allowed_admitting. setoid_rewrite Hw. setoid_rewrite <-elem_of_admitting.
    destruct (admitting policies t proto now true) as [|[p g] l].
    + split; [done|]. by intros (? & ? & ?%not_elem_of_nil).
    + split; [|done]. intros _. exists p, g. left.
  - intros Ha. destruct (evaluate_terms_lemma _ _ _ _ _ Ha) as [_ ->]. setoid_rewrite Hw.
    unfold standing_admitting. split.
    + intros Hn p g Hp Hg He Hc Ho. assert ((p, g) ∈ admitting policies t proto now true) as Hin
        by (by apply elem_of_admitting).
      destruct (decide (Access g = AccessApproval)); [done|]. exfalso.
      apply (not_elem_of_nil (p, g)). rewrite <-Hn. apply elem_of_filter_b. split; [done|].
      unfold is_approval. simpl. by rewrite bool_decide_eq_false_2.
    + intros Hall. apply (subset_nil _ []); [|done]. intros [p g] [Hin Hf]%elem_of_filter_b.
      apply elem_of_admitting in Hin as (? & ? & ? & ? & ?). unfold is_approval in Hf. simpl in Hf.
      rewrite bool_decide_eq_true_2 in Hf; [done|eauto].
Qed.

(** Of the grants that decide, each term is the strictest: the idle timeout
and the maximum session are the shortest, clipboard, file transfer and
developer tools need every grant, an authenticator is required if any grant
asks for one, retention is the longest; and the session is labelled with the
first grant of shortest idle timeout. *)
Theorem evaluate_terms policies t proto now windows :
  Allowed (evaluate policies t proto now windows) = true →
  Terms (deciding policies t proto now windows) (evaluate policies t proto now windows).
Proof. intros Ha. by apply evaluate_terms_lemma. Qed.

(** Adding policies adds access and never tightens who gets in: with more
policies a connection that was allowed stays allowed, one that needed no
approval still needs none, and while the same class of grant decides, every
term is at least as strict as before. *)
Theorem evaluate_monotone policies policies' t proto now :
  Forall stored policies' → policies ⊆ policies' →
  Allowed (Evaluate policies t proto now) = true →
  Allowed (Evaluate policies' t proto now) = true
  ∧ (RequireApproval (Evaluate policies' t proto now) = true → RequireApproval (Evaluate policies t proto now) = true)
  ∧ (RequireApproval (Evaluate policies t proto now) = RequireApproval (Evaluate policies' t proto now) →
     at_least_as_strict (Evaluate policies t proto now) (Evaluate policies' t proto now)).
Proof.
  intros Hst Hs Ha. unfold Evaluate in *.
  assert (Allowed (evaluate policies' t proto now true) = true) as Ha'.
  { rewrite allowed_admitting in *. intros Hn. apply Ha. eapply subset_nil, Hn. by apply admitting_mono. }
  destruct (evaluate_terms_lemma _ _ _ _ _ Ha) as [T Hr], (evaluate_terms_lemma _ _ _ _ _ Ha') as [T' Hr'].
  split; [done|]. split.
  - rewrite Hr, Hr'. apply subset_nil. by apply standing_mono.
  - intros Heq. eapply Terms_mono; [| | |exact T|exact T'].
    + intros c n Hc. destruct (deciding_stored _ _ _ _ _ _ Hst Hc). intros Hn. apply wf_max in Hn. lia.
    + intros c n Hc. destruct (deciding_stored _ _ _ _ _ _ Hst Hc). intros Hn. apply wf_retention in Hn. lia.
    + rewrite Heq in Hr. unfold deciding. fold (standing_admitting policies t proto now true).
      fold (standing_admitting policies' t proto now true).
      destruct (RequireApproval (evaluate policies' t proto now true)).
      * rewrite !bool_decide_eq_true_2 by tauto. by apply admitting_mono.
      * rewrite !bool_decide_eq_false_2 by naive_solver. by apply standing_mono.
Qed.

(** A shut window never pulls a running session: the live check allows
whatever a fresh connect would allow and asks for an approval only where the
fresh one would, and its answer does not depend on the time at all. *)
Theorem evaluate_live policies t proto now :
  (Allowed (Evaluate policies t proto now) = true →
     Allowed (EvaluateLive policies t proto now) = true
     ∧ (RequireApproval (EvaluateLive policies t proto now) = true →
        RequireApproval (Evaluate policies t proto now) = true))
  ∧ ∀ now', EvaluateLive policies t proto now' = EvaluateLive policies t proto now.
Proof.
  split; [|intros now'; reflexivity]. unfold Evaluate, EvaluateLive. intros Ha.
  assert (admitting policies t proto now true ⊆ admitting policies t proto now false) as Hsub.
  { intros [p g]. rewrite !elem_of_admitting. naive_solver. }
  assert (Allowed (evaluate policies t proto now false) = true) as Hl.
  { rewrite allowed_admitting in *. intros Hn. by apply Ha, (subset_nil _ _ Hsub). }
  split; [done|]. destruct (evaluate_terms_lemma _ _ _ _ _ Ha) as [_ ->].
  destruct (evaluate_terms_lemma _ _ _ _ _ Hl) as [_ ->]. apply subset_nil.
  intros c. unfold standing_admitting. rewrite !elem_of_filter_b. intros [? ?]. split; [by apply Hsub|done].
Qed.

End Decision.

(** * Taking a target out of a policy *)

(** The reference is the target or group being taken out. *)
Definition is_target (t : TargetRef) (targetID asgID : string) : Prop :=
  if bool_decide (tKind t = KindAutoscaling) then tASGID t = asgID else tID t = targetID.

Lemma Covers_kind g t proto : Covers g t proto = true → Kind g = tKind t.
Proof. unfold Covers. case_bool_decide; simpl; done. Qed.

(** Dropping one named target leaves every other reference covered or not as
it was. *)
Lemma Covers_set_targets g t proto targetID asgID :
  ¬ is_target t targetID asgID →
  Covers (set_targets g (filter (λ x, gtID x ≠ wanted g targetID asgID) (Targets g))) t proto = Covers g t proto.
Proof.
  intros Hnt. unfold Covers. simpl. case_bool_decide as Hk; simpl; [|done].
  destruct (KindServes (Kind g) proto); simpl; [|done].
  assert (ref_id t ≠ wanted g targetID asgID) as Hne.
  { unfold ref_id, wanted. unfold is_target in Hnt. rewrite Hk. by case_bool_decide. }
  assert (existsb (λ gt, bool_decide (gtID gt = ref_id t) && contains (gtProtocols gt) proto)
            (filter (λ x, gtID x ≠ wanted g targetID asgID) (Targets g))
        = existsb (λ gt, bool_decide (gtID gt = ref_id t) && contains (gtProtocols gt) proto) (Targets g)) as ->; [|done].
  apply eq_true_iff_eq. rewrite !existsb_true. setoid_rewrite list_elem_of_filter.
  setoid_rewrite andb_true_iff. setoid_rewrite bool_decide_eq_true. naive_solver congruence.
Qed.

(** A grant that goes covered nothing but the target. *)
Lemma Covers_removed g t proto targetID asgID :
  Targets (set_targets g (filter (λ x, gtID x ≠ wanted g targetID asgID) (Targets g))) = [] →
  Tags g = None → ¬ is_target t targetID asgID → Covers g t proto = false.
Proof.
  intros Hnil Htags Hnt. rewrite <-(Covers_set_targets _ _ _ _ _ Hnt). unfold Covers. rewrite Hnil. simpl.
  rewrite Htags, andb_false_r. by destruct (_ || _).
Qed.

Lemma without_target_spec l targetID asgID :
  let '(grants, removed, changed) := without_target l targetID asgID in
  (length grants + removed = length l)%nat
  ∧ changed = existsb (names targetID asgID) l
  ∧ existsb (names targetID asgID) grants = false
  ∧ (∀ t proto, ¬ is_target t targetID asgID →
       existsb (λ g, Covers g t proto) grants = existsb (λ g, Covers g t proto) l).
Proof.
  induction l as [|g l IH]; simpl; [done|].
  destruct (without_target l targetID asgID) as [[grants removed] changed].
  destruct IH as (Hlen & Hch & Href & Hcov).
  destruct (names targetID asgID g) eqn:Hg; simpl.
  - assert (names targetID asgID (set_targets g (filter (λ t, gtID t ≠ wanted g targetID asgID) (Targets g))) = false) as Hg'.
    { apply andb_false_iff. right. apply existsb_false. intros x [Hx _]%list_elem_of_filter. by apply bool_decide_eq_false. }
    clear Hg. case_bool_decide as Hnil; [case_bool_decide as Htags|]; simpl.
    + split_and!; [lia|done|by rewrite Hg'|]. intros t proto Hnt. by rewrite Covers_set_targets, Hcov.
    + split_and!; [lia|done|done|]. intros t proto Hnt. rewrite Hcov by done.
      rewrite (Covers_removed g t proto targetID asgID); [done|done| |done].
      destruct (Tags g); [by destruct Htags|done].
    + split_and!; [lia|done|by rewrite Hg'|]. intros t proto Hnt. by rewrite Covers_set_targets, Hcov.
  - split_and!; [lia|done|by rewrite Hg|]. intros t proto Hnt. by rewrite Hcov.
Qed.

Definition with_grants (p : Policy) (grants : list Grant) : Policy := set_checked p (pName p) grants.

(** Deleting a target takes it out of a policy and out of nothing else:
after WithoutTarget no grant names the target or group, it reports a change
exactly when one did, the grants removed and kept add up, and every other
target is covered over every protocol just as before. *)
Theorem without_target_exact p targetID asgID :
  let '(grants, removed, changed) := WithoutTarget p targetID asgID in
  References (with_grants p grants) targetID asgID = false
  ∧ changed = References p targetID asgID
  ∧ (length grants + removed = length (Grants p))%nat
  ∧ ∀ t proto, ¬ is_target t targetID asgID →
      ((∃ g, g ∈ grants ∧ Covers g t proto = true) ↔ (∃ g, g ∈ Grants p ∧ Covers g t proto = true)).
Proof.
  unfold WithoutTarget. pose proof (without_target_spec (Grants p) targetID asgID) as Hs.
  destruct (without_target (Grants p) targetID asgID) as [[grants removed] changed].
  destruct Hs as (Hlen & Hch & Href & Hcov). split_and!; [exact Href|exact Hch|done|].
  intros t proto Hnt. by rewrite <-!existsb_true, Hcov.
Qed.

(** * Witnesses *)

Definition ex_ref : TargetRef :=
  {| tKind := "host"; tID := "t1"; tASGID := ""; tTags := {[ "env" := "prod" ]} |}.

Definition ex_night : Grant := ex_stored "g1" "standing" false true [ex_window "22:00" "06:00"].
Definition ex_loose : Grant := ex_stored "g2" "standing" true false [].
Definition ex_jit : Grant := ex_stored "g3" "approval" false true [].

(** Saturday 02:00 in Paris. *)
Definition ex_now : time := (2 * 86400 + 3600) * Second.

Lemma ex_stored_ok g : g ∈ [ex_night; ex_loose; ex_jit] → WF_grant (H := ex_zones) g.
Proof.
  intros Hg.
  assert (stored (H := ex_zones) (ex_policy "prod" [ex_night; ex_loose; ex_jit])) as Hst.
  { destruct (Validate_inv (H := ex_zones) (ex_policy "prod" [ex_night; ex_loose; ex_jit])
        (ex_policy "prod" [ex_night; ex_loose; ex_jit])) as (? & _ & _ & []); [by vm_compute|]. apply wf_grants. }
  unfold stored in Hst. rewrite Forall_forall in Hst. auto.
Qed.

Lemma ex_policy_stored name g : g ∈ [ex_night; ex_loose; ex_jit] → stored (H := ex_zones) (ex_policy name [g]).
Proof. intros Hg. apply Forall_cons. split; [by apply ex_stored_ok|apply Forall_nil_2]. Qed.

Lemma evaluate_terms_witness :
  dAllowClipboard (evaluate (H := ex_zones) [ex_policy "prod" [ex_night; ex_loose; ex_jit]] ex_ref "ssh" ex_now true) = false
  ∧ Terms [(ex_policy "prod" [ex_night; ex_loose; ex_jit], ex_night); (ex_policy "prod" [ex_night; ex_loose; ex_jit], ex_loose)]
      (evaluate (H := ex_zones) [ex_policy "prod" [ex_night; ex_loose; ex_jit]] ex_ref "ssh" ex_now true).
Proof.
  split; [by vm_compute|].
  apply (evaluate_terms (H := ex_zones) [ex_policy "prod" [ex_night; ex_loose; ex_jit]] ex_ref "ssh" ex_now true).
  by vm_compute.
Defined.

Lemma evaluate_monotone_witness :
  at_least_as_strict
    (Evaluate (H := ex_zones) [ex_policy "loose" [ex_loose]] ex_ref "ssh" ex_now)
    (Evaluate (H := ex_zones) [ex_policy "loose" [ex_loose]; ex_policy "night" [ex_night]] ex_ref "ssh" ex_now).
Proof.
  apply (evaluate_monotone (H := ex_zones) [ex_policy "loose" [ex_loose]]
           [ex_policy "loose" [ex_loose]; ex_policy "night" [ex_night]]); [|set_solver|by vm_compute..].
  apply Forall_cons; split; [|apply Forall_cons; split; [|apply Forall_nil_2]]; apply ex_policy_stored; set_solver.
Defined.

(** Adding a grant can loosen the terms of access that already exists: a
person with approval-gated access to a host, clipboard off and an
authenticator required, who is then given a standing grant for it with the
clipboard on, keeps neither restriction, since the standing grant decides
alone. *)
Theorem standing_grant_loosens :
  ∃ (Z : TimeZones) policies extra t proto now,
    Forall stored (policies ++ [extra])
    ∧ Allowed (Evaluate policies t proto now) = true
    ∧ dAllowClipboard (Evaluate policies t proto now) = false
    ∧ dRequireMFA (Evaluate policies t proto now) = true
    ∧ dAllowClipboard (Evaluate (policies ++ [extra]) t proto now) = true
    ∧ dRequireMFA (Evaluate (policies ++ [extra]) t proto now) = false.
Proof.
  exists ex_zones, [ex_policy "jit" [ex_jit]], (ex_policy "loose" [ex_loose]), ex_ref, "ssh", ex_now.
  split_and!; [|by vm_compute..].
  apply Forall_cons; split; [|apply Forall_cons; split; [|apply Forall_nil_2]]; apply ex_policy_stored; set_solver.
Qed.
