(* ===== verification/Ticket.v ===== *)
(** Connect tickets: src/internal/ticket/ticket.go.

A [Store] holds the live tickets; [Issue], [Redeem] and [gc] are its
operations, with the clock reading and the random bytes each call draws as
arguments.  The user-supplied secrets of a grant are byte slices, which share
their backing array with the caller: they live in a [heap], so that [Wipe] is
an effect other holders of the slice see.  [step] is the transition system of
a store under any sequence of calls, with the history of what it issued and
redeemed; the theorems are about every reachable history. *)
From S2P Require Import Prelude GoText.

(** TTL is how long a ticket stays valid. *)
Definition TTL : duration := 30 * Second.

(** A slice is [nil] or points at a backing array. *)
Abbreviation loc := nat.
Abbreviation heap := (gmap loc bytes).
Abbreviation slice := (option loc).

Record Grant := {
  UserID : string;
  Username : string;
  SessionID : string;
  TargetID : string;
  ASGID : string;
  ASGInstanceID : string;
  Protocol : string;
  CredentialID : string;
  PolicyID : string;
  IdleTimeout : duration;
  MaxSession : duration;
  RetentionDays : Z;
  AllowClipboard : bool;
  AllowFileTransfer : bool;
  AllowDevTools : bool;
  ClientIP : string;
  FailoverFrom : string;
  UserSecret : slice;
  UserKey : slice;
  IssuedAt : time;
  ExpiresAt : time;
}.

Inductive Error := ErrInvalid | ErrRand.

Record Store := {
  tickets : gmap string Grant;
  mem : heap;
}.

(** zero overwrites the slice's array in place. *)
Definition zero (b : slice) (h : heap) : heap :=
  match b with
  | None => h
  | Some l => alter (λ c : bytes, replicate (length c) Ascii.zero) l h
  end.

Definition Wipe (g : Grant) (h : heap) : heap := zero (UserKey g) (zero (UserSecret g) h).

Definition NewStore (h : heap) : Store := {| tickets := ∅; mem := h |}.

(** The stamp [Issue] puts on the grant it stores. *)
Definition stamp (now : time) (g : Grant) : Grant := {|
  UserID := UserID g; Username := Username g; SessionID := SessionID g;
  TargetID := TargetID g; ASGID := ASGID g; ASGInstanceID := ASGInstanceID g;
  Protocol := Protocol g; CredentialID := CredentialID g; PolicyID := PolicyID g;
  IdleTimeout := IdleTimeout g; MaxSession := MaxSession g; RetentionDays := RetentionDays g;
  AllowClipboard := AllowClipboard g; AllowFileTransfer := AllowFileTransfer g;
  AllowDevTools := AllowDevTools g; ClientIP := ClientIP g; FailoverFrom := FailoverFrom g;
  UserSecret := UserSecret g; UserKey := UserKey g;
  IssuedAt := now; ExpiresAt := now + TTL |}.

(** Go ranges over the map in any order; wiping commutes, so the order of
[map_to_list] stands for all of them. *)
Definition gc (now : time) (s : Store) : Store := {|
  tickets := filter (λ kg, After now (ExpiresAt kg.2) = false) (tickets s);
  mem := foldr (λ kg, Wipe kg.2) (mem s)
           (map_to_list (filter (λ kg, After now (ExpiresAt kg.2) = true) (tickets s)));
|}.

(** [raw] is what [rand.Read] filled the 32-byte buffer with, [None] when it
failed. *)
Definition Issue (raw : option bytes) (now : time) (g : Grant) (s : Store) : result Error string * Store :=
  match raw with
  | None => (Err ErrRand, s)
  | Some raw =>
      let tok := Base64.EncodeToString raw in
      let s := gc now s in
      (Ok tok, {| tickets := <[tok := stamp now g]> (tickets s); mem := mem s |})
  end.

Definition Redeem (tok clientIP sessionID : string) (now : time) (s : Store) : result Error Grant * Store :=
  match tickets s !! tok with
  | None => (Err ErrInvalid, s)
  | Some g =>
      let s := {| tickets := delete tok (tickets s); mem := mem s |} in
      if After now (ExpiresAt g) || negb (bool_decide (ClientIP g = clientIP))
           || negb (bool_decide (SessionID g = sessionID))
      then (Err ErrInvalid, {| tickets := tickets s; mem := Wipe g (mem s) |})
      else (Ok g, s)
  end.

Definition Len (s : Store) : nat := size (tickets s).

(** * The heap under wiping *)

Definition valid_slice (b : slice) (h : heap) : Prop :=
  match b with None => True | Some l => is_Some (h !! l) end.

Definition zeroed (b : slice) (h : heap) : Prop :=
  match b with
  | None => True
  | Some l => ∃ c, h !! l = Some c ∧ Forall (λ a, a = Ascii.zero) c
  end.

Definition Valid (g : Grant) (h : heap) : Prop := valid_slice (UserSecret g) h ∧ valid_slice (UserKey g) h.
Definition Wiped (g : Grant) (h : heap) : Prop := zeroed (UserSecret g) h ∧ zeroed (UserKey g) h.

Lemma zero_valid b b' h : valid_slice b h → valid_slice b (zero b' h).
Proof.
  destruct b as [l|], b' as [l'|]; simpl; try done. rewrite lookup_alter.
  case_decide; subst; by rewrite ?fmap_is_Some.
Qed.

Lemma zero_zeroed b h : valid_slice b h → zeroed b (zero b h).
Proof.
  destruct b as [l|]; simpl; [|done]. intros [c Hc]. rewrite lookup_alter_eq, Hc.
  eexists; split; [done|]. by apply Forall_replicate.
Qed.

Lemma zero_preserves b b' h : zeroed b h → zeroed b (zero b' h).
Proof.
  destruct b as [l|], b' as [l'|]; simpl; try done. intros (c & Hc & Hz).
  rewrite lookup_alter. case_decide; [subst; rewrite Hc|by eauto].
  eexists; split; [done|]. by apply Forall_replicate.
Qed.

Lemma Wipe_Valid g g' h : Valid g h → Valid g (Wipe g' h).
Proof. intros [??]; split; by do 2 apply zero_valid. Qed.

Lemma Wipe_Wiped g h : Valid g h → Wiped g (Wipe g h).
Proof. intros [??]; split; unfold Wipe; [apply zero_preserves|]; apply zero_zeroed; [done|by apply zero_valid]. Qed.

Lemma Wipe_preserves g g' h : Wiped g h → Wiped g (Wipe g' h).
Proof. intros [??]; split; by do 2 apply zero_preserves. Qed.

Lemma grow_Valid g h h' : h ⊆ h' → Valid g h → Valid g h'.
Proof.
  intros Hh. assert (∀ b, valid_slice b h → valid_slice b h') as Hb.
  { intros [l|]; simpl; [|done]. eauto using lookup_weaken_is_Some. }
  intros [??]; split; auto.
Qed.

Lemma grow_Wiped g h h' : h ⊆ h' → Wiped g h → Wiped g h'.
Proof.
  intros Hh. assert (∀ b, zeroed b h → zeroed b h') as Hb.
  { intros [l|]; simpl; [|done]. intros (c & ? & ?). eauto using lookup_weaken. }
  intros [??]; split; auto.
Qed.

Section WipeAll.
Implicit Types l : list (string * Grant).

Lemma Wipe_all_Valid g l h : Valid g h → Valid g (foldr (λ kg, Wipe kg.2) h l).
Proof. intros. induction l; simpl; auto using Wipe_Valid. Qed.

Lemma Wipe_all_preserves g l h : Wiped g h → Wiped g (foldr (λ kg, Wipe kg.2) h l).
Proof. intros. induction l; simpl; auto using Wipe_preserves. Qed.

Lemma Wipe_all_Wiped g l h k : (k, g) ∈ l → Valid g h → Wiped g (foldr (λ kg, Wipe kg.2) h l).
Proof.
  intros Hin Hv. induction l as [|[k' g'] l IH]; [by apply not_elem_of_nil in Hin|].
  apply elem_of_cons in Hin as [[= <- <-]|Hin]; simpl; auto using Wipe_Wiped, Wipe_preserves, Wipe_all_Valid.
Qed.
End WipeAll.

#[export] Hint Resolve Wipe_Valid Wipe_Wiped Wipe_preserves grow_Valid grow_Wiped
  Wipe_all_Valid Wipe_all_preserves : zanskar.

(** * The operations, branch by branch *)

Lemma gc_tickets now s tok g :
  tickets (gc now s) !! tok = Some g ↔ tickets s !! tok = Some g ∧ (now ≤ ExpiresAt g)%Z.
Proof.
  simpl. rewrite map_lookup_filter_Some. simpl. unfold After. rewrite bool_decide_eq_false. by rewrite Z.nlt_ge.
Qed.

Lemma gc_wiped now s tok g :
  tickets s !! tok = Some g → (ExpiresAt g < now)%Z → Valid g (mem s) → Wiped g (mem (gc now s)).
Proof.
  intros Hg He Hv. eapply Wipe_all_Wiped; [|done].
  apply elem_of_map_to_list, map_lookup_filter_Some. split; [done|]. by apply bool_decide_eq_true.
Qed.

(** What a presentation must match for [Redeem] to hand the grant out. *)
Definition admits (g : Grant) (clientIP sessionID : string) (now : time) : Prop :=
  (now ≤ ExpiresAt g)%Z ∧ ClientIP g = clientIP ∧ SessionID g = sessionID.

Lemma Redeem_spec tok ip sid now s :
  match tickets s !! tok with
  | None => Redeem tok ip sid now s = (Err ErrInvalid, s)
  | Some g =>
      (admits g ip sid now ∧ Redeem tok ip sid now s = (Ok g, {| tickets := delete tok (tickets s); mem := mem s |}))
      ∨ (¬ admits g ip sid now ∧
         Redeem tok ip sid now s = (Err ErrInvalid, {| tickets := delete tok (tickets s); mem := Wipe g (mem s) |}))
  end.
Proof.
  unfold Redeem, admits, After. destruct (tickets s !! tok) as [g|]; [|done].
  destruct (bool_decide (ExpiresAt g < now)%Z) eqn:E1; bool_simpl; simpl.
  { right. split; [|done]. lia. }
  destruct (bool_decide (ClientIP g = ip)) eqn:E2; bool_simpl; simpl; [|naive_solver].
  destruct (bool_decide (SessionID g = sid)) eqn:E3; bool_simpl; simpl; [|naive_solver].
  left. split; [|done]. repeat split; [lia|done..].
Qed.

(** * Histories *)

Inductive Event :=
| Issued (tok : string) (g : Grant)
| Redeemed (tok clientIP sessionID : string) (now : time) (g : Grant)
| Refused (tok clientIP sessionID : string) (now : time).

Record System := {
  store : Store;
  clock : time;
  drawn : list bytes;      (* every buffer rand.Read has filled *)
  history : list Event;    (* newest first *)
}.

(** One call on the store.  The clock does not run backwards, and the 32
random bytes of a ticket were not drawn before; the caller has allocated the
secrets of the grant it passes, in a heap [h] that extends the store's. *)
Inductive step : System → System → Prop :=
| step_issue s raw now g h tok s' :
    (clock s ≤ now)%Z →
    length raw = 32%nat →
    raw ∉ drawn s →
    mem (store s) ⊆ h →
    Valid g h →
    Issue (Some raw) now g {| tickets := tickets (store s); mem := h |} = (Ok tok, s') →
    step s {| store := s'; clock := now; drawn := raw :: drawn s;
              history := Issued tok (stamp now g) :: history s |}
| step_redeem s tok ip sid now g s' :
    (clock s ≤ now)%Z →
    Redeem tok ip sid now (store s) = (Ok g, s') →
    step s {| store := s'; clock := now; drawn := drawn s;
              history := Redeemed tok ip sid now g :: history s |}
| step_refuse s tok ip sid now e s' :
    (clock s ≤ now)%Z →
    Redeem tok ip sid now (store s) = (Err e, s') →
    step s {| store := s'; clock := now; drawn := drawn s;
              history := Refused tok ip sid now :: history s |}.

Definition initial (h : heap) (t0 : time) : System :=
  {| store := NewStore h; clock := t0; drawn := []; history := [] |}.

Inductive reachable : System → Prop :=
| reachable_init h t0 : reachable (initial h t0)
| reachable_step s s' : reachable s → step s s' → reachable s'.

Definition redeemed_tokens (l : list Event) : list string :=
  omap (λ e, match e with Redeemed tok _ _ _ _ => Some tok | _ => None end) l.

Definition presented (tok : string) (l : list Event) : Prop :=
  (∃ ip sid now g, Redeemed tok ip sid now g ∈ l) ∨ (∃ ip sid now, Refused tok ip sid now ∈ l).

(** * The invariant of a reachable history *)

Section Invariant.
Implicit Types s : System.

Record Inv s : Prop := {
  inv_issued tok g : Issued tok g ∈ history s →
    (∃ raw, raw ∈ drawn s ∧ tok = Base64.EncodeToString raw)
    ∧ Valid g (mem (store s)) ∧ ExpiresAt g = (IssuedAt g + TTL)%Z ∧ (IssuedAt g ≤ clock s)%Z;
  inv_unique tok g g' : Issued tok g ∈ history s → Issued tok g' ∈ history s → g = g';
  inv_live tok g : tickets (store s) !! tok = Some g → Issued tok g ∈ history s;
  inv_where tok g : Issued tok g ∈ history s →
    tickets (store s) !! tok = Some g
    ∨ (∃ ip sid now, Redeemed tok ip sid now g ∈ history s)
    ∨ (Wiped g (mem (store s)) ∧ (presented tok (history s) ∨ (ExpiresAt g < clock s)%Z));
  inv_redeemed tok ip sid now g : Redeemed tok ip sid now g ∈ history s →
    Issued tok g ∈ history s ∧ tickets (store s) !! tok = None
    ∧ admits g ip sid now ∧ (IssuedAt g ≤ now)%Z;
  inv_once : NoDup (redeemed_tokens (history s));
}.

Lemma redeemed_tokens_spec l tok :
  tok ∈ redeemed_tokens l ↔ ∃ ip sid now g, Redeemed tok ip sid now g ∈ l.
Proof.
  unfold redeemed_tokens. rewrite list_elem_of_omap. split.
  - intros ([] & Hin & [= <-]). eauto.
  - intros (ip & sid & now & g & Hin). eexists; split; [done|done].
Qed.

Lemma presented_cons e tok l : presented tok l → presented tok (e :: l).
Proof. unfold presented. intros [(?&?&?&?&?)|(?&?&?&?)]; [left|right]; repeat eexists; right; eauto. Qed.

Lemma Inv_initial h t0 : Inv (initial h t0).
Proof. split; simpl; try by intros; set_solver. constructor. Qed.

Lemma Inv_issue s raw now g h :
  Inv s → (clock s ≤ now)%Z → raw ∉ drawn s → mem (store s) ⊆ h → Valid g h →
  let tok := Base64.EncodeToString raw in
  let s1 := gc now {| tickets := tickets (store s); mem := h |} in
  Inv {| store := {| tickets := <[tok := stamp now g]> (tickets s1); mem := mem s1 |};
         clock := now; drawn := raw :: drawn s; history := Issued tok (stamp now g) :: history s |}.
Proof.
  intros HI Hc Hraw Hh Hv tok s1.
  assert (Hfresh : ∀ g', Issued tok g' ∉ history s).
  { intros g' Hi. destruct (inv_issued _ HI _ _ Hi) as [(raw' & Hr & Heq) _].
    apply Base64.EncodeToString_inj in Heq as <-. done. }
  assert (Hmem : ∀ g', Valid g' (mem (store s)) → Valid g' (mem s1)) by (simpl; eauto with zanskar).
  split; simpl store; simpl history; simpl clock; simpl drawn; simpl tickets; simpl mem.
  - intros tok' g' [[= -> ->]|Hi]%elem_of_cons.
    + split; [set_solver|]. split; [|simpl; lia].
      apply (Wipe_all_Valid (stamp now g)). done.
    + destruct (inv_issued _ HI _ _ Hi) as ((r & Hr & ->) & Hv' & He & Hi'). split; [set_solver|].
      split; [by apply Hmem|]. split; [done|lia].
  - intros tok' g1 g2 [[= -> ->]|H1]%elem_of_cons [Heq|H2]%elem_of_cons; simplify_eq; try done.
    + by apply Hfresh in H2.
    + by apply Hfresh in H1.
    + eauto using inv_unique.
  - intros tok' g'. rewrite lookup_insert. case_decide as Hd.
    + intros [= <-]. subst. left.
    + intros [Hl _]%gc_tickets. right. eapply inv_live; eauto.
  - intros tok' g' [[= -> ->]|Hi]%elem_of_cons; [left; by rewrite lookup_insert_eq|].
    assert (tok ≠ tok') by (intros <-; by eapply Hfresh). rewrite lookup_insert_ne by done.
    destruct (inv_issued _ HI _ _ Hi) as (_ & Hv' & _).
    destruct (inv_where _ HI _ _ Hi) as [Hl|[(ip & sid & t & Hr)|[Hw Hp]]].
    + destruct (decide (now ≤ ExpiresAt g')%Z); [left; by apply gc_tickets|].
      right; right. split; [|right; lia]. eapply (gc_wiped now {| tickets := tickets (store s); mem := h |});
        simpl; eauto with zanskar. lia.
    + right; left. repeat eexists. right. done.
    + right; right. split; [simpl; eauto with zanskar|]. destruct Hp; [left; by apply presented_cons|right; lia].
  - intros tok' ip sid t g' [?|Hr]%elem_of_cons; [done|].
    destruct (inv_redeemed _ HI _ _ _ _ _ Hr) as (Hi & Hn & Ha & Ht).
    split; [by right|]. split; [|done].
    rewrite lookup_insert_ne by (intros <-; by eapply Hfresh).
    apply map_lookup_filter_None. by left.
  - apply HI.
Qed.

(** A presentation that spends the live ticket [tok]: the store loses it, and
the heap changes from [mem (store s)] to [h]. *)
Lemma Inv_spend s tok ip sid now g (ok : bool) h :
  Inv s → (clock s ≤ now)%Z → tickets (store s) !! tok = Some g →
  (if ok then admits g ip sid now ∧ h = mem (store s) else h = Wipe g (mem (store s))) →
  Inv {| store := {| tickets := delete tok (tickets (store s)); mem := h |};
         clock := now; drawn := drawn s;
         history := (if ok then Redeemed tok ip sid now g else Refused tok ip sid now) :: history s |}.
Proof.
  intros HI Hc Hg Hok.
  assert (Hni : ∀ t g', Issued t g' ∈ (if ok then Redeemed tok ip sid now g else Refused tok ip sid now) :: history s
            → Issued t g' ∈ history s) by (intros t g' Hin; destruct ok; set_solver).
  pose proof (inv_live _ HI _ _ Hg) as Hiss.
  destruct (inv_issued _ HI _ _ Hiss) as (_ & Hvg & _ & Hig).
  assert (Hmem : ∀ g', Valid g' (mem (store s)) → Valid g' h)
    by (destruct ok; destruct_and?; subst; eauto with zanskar).
  assert (HmemW : ∀ g', Wiped g' (mem (store s)) → Wiped g' h)
    by (destruct ok; destruct_and?; subst; eauto with zanskar).
  assert (Hnone : ∀ t, tickets (store s) !! t = None → delete tok (tickets (store s)) !! t = None)
    by (intros t; rewrite lookup_delete_None; auto).
  split; simpl store; simpl history; simpl clock; simpl drawn; simpl tickets; simpl mem.
  - intros t g' Hi%Hni. destruct (inv_issued _ HI _ _ Hi) as (? & ? & ? & ?). split_and!; auto. lia.
  - intros t g1 g2 H1%Hni H2%Hni. eauto using inv_unique.
  - intros t g' [_ Hl]%lookup_delete_Some. right. by eapply inv_live.
  - intros t g' Hi%Hni. destruct (inv_where _ HI _ _ Hi) as [Hl|[(ip' & sid' & t' & Hr)|[Hw Hp]]].
    + destruct (decide (tok = t)) as [<-|]; [right|left; by rewrite lookup_delete_ne].
      simplify_eq. destruct ok; [left; repeat eexists; left|right].
      subst h. split; [by apply Wipe_Wiped|]. left; right. repeat eexists; left.
    + right; left. repeat eexists. right. done.
    + right; right. split; [auto|]. destruct Hp; [left; by apply presented_cons|right; lia].
  - intros t ip' sid' now' g' [Heq|Hold]%elem_of_cons.
    + destruct ok; simplify_eq. destruct Hok as [Ha ->].
      split_and!; [by right|apply lookup_delete_eq|done|lia].
    + destruct (inv_redeemed _ HI _ _ _ _ _ Hold) as (? & ? & ? & ?). split_and!; auto. by right.
  - destruct ok; simpl; [|apply HI]. apply NoDup_cons. split; [|apply HI].
    rewrite redeemed_tokens_spec. intros (?&?&?&?&Hr).
    destruct (inv_redeemed _ HI _ _ _ _ _ Hr) as (_ & Hn & _). congruence.
Qed.

Lemma Inv_miss s tok ip sid now :
  Inv s → (clock s ≤ now)%Z →
  Inv {| store := store s; clock := now; drawn := drawn s; history := Refused tok ip sid now :: history s |}.
Proof.
  intros HI Hc. split; simpl.
  - intros t g [|Hi]%elem_of_cons; [done|]. destruct (inv_issued _ HI _ _ Hi) as (? & ? & ? & ?). split_and!; auto. lia.
  - intros t g1 g2 [|]%elem_of_cons [|]%elem_of_cons; try done. eauto using inv_unique.
  - intros t g Hl. right. by eapply inv_live.
  - intros t g [|Hi]%elem_of_cons; [done|]. destruct (inv_where _ HI _ _ Hi) as [Hl|[(? & ? & ? & ?)|[Hw Hp]]]; [auto|..].
    + right; left. repeat eexists; by right.
    + right; right. split; [done|]. destruct Hp; [left; by apply presented_cons|right; lia].
  - intros t ip' sid' now' g [|Hr]%elem_of_cons; [done|].
    destruct (inv_redeemed _ HI _ _ _ _ _ Hr) as (? & ? & ? & ?). split_and!; auto. by right.
  - apply HI.
Qed.

Lemma Inv_step s s' : Inv s → step s s' → Inv s'.
Proof.
  intros HI Hst. revert HI.
  destruct Hst as [s0 raw now g h tok s1 ? _ ? ? ? Heq|s0 tok ip sid now g s1 ? Heq|s0 tok ip sid now e s1 ? Heq]; intros HI.
  - unfold Issue in Heq. injection Heq as <- <-. by apply Inv_issue.
  - pose proof (Redeem_spec tok ip sid now (store s0)) as Hs.
    destruct (tickets (store s0) !! tok) eqn:Hg; [|congruence].
    destruct Hs as [[Ha Hs]|[_ Hs]]; rewrite Hs in Heq; simplify_eq.
    by apply (Inv_spend _ _ _ _ _ _ true).
  - pose proof (Redeem_spec tok ip sid now (store s0)) as Hs.
    destruct (tickets (store s0) !! tok) eqn:Hg.
    + destruct Hs as [[Ha Hs]|[_ Hs]]; rewrite Hs in Heq; simplify_eq.
      by eapply (Inv_spend _ _ _ _ _ _ false).
    + rewrite Hs in Heq. simplify_eq. by apply Inv_miss.
Qed.

Lemma reachable_Inv s : reachable s → Inv s.
Proof. induction 1; eauto using Inv_initial, Inv_step. Qed.

End Invariant.

(** * Claims *)

(** C3. A ticket is single-use: in every history of the store, no token is
redeemed twice, whatever calls came between. *)
Theorem redeem_once s : reachable s → NoDup (redeemed_tokens (history s)).
Proof. intros H%reachable_Inv. apply H. Qed.

(** A grant leaves the store only to the sign-in that asked for it: every
redemption returned exactly the grant issued under that token, presented from
the client address and the browser session of the issuing request, no later
than [TTL] after it was issued. *)
Theorem redeem_authorised s tok ip sid now g :
  reachable s → Redeemed tok ip sid now g ∈ history s →
  Issued tok g ∈ history s ∧ ClientIP g = ip ∧ SessionID g = sid
  ∧ (IssuedAt g ≤ now ≤ IssuedAt g + TTL)%Z.
Proof.
  intros H%reachable_Inv Hr. destruct (inv_redeemed _ H _ _ _ _ _ Hr) as (Hi & _ & (He & ? & ?) & Hn).
  destruct (inv_issued _ H _ _ Hi) as (_ & _ & Heq & _). rewrite Heq in He. auto.
Qed.

(** No user-supplied secret is left behind: the secret and the key of a
grant that is neither live in the store nor handed out by a redemption are all
zero bytes in memory. *)
Theorem secrets_wiped s tok g :
  reachable s → Issued tok g ∈ history s →
  tickets (store s) !! tok = Some g
  ∨ (∃ ip sid now, Redeemed tok ip sid now g ∈ history s)
  ∨ Wiped g (mem (store s)).
Proof. intros H%reachable_Inv Hi. destruct (inv_where _ H _ _ Hi) as [|[|[]]]; auto. Qed.

(** A ticket works: one that was issued and never presented is redeemed by
the first presentation that comes from its client address and browser session
inside its lifetime, whatever else the store did meanwhile; and any
presentation of it, right or wrong, spends it. *)
Theorem redeem_succeeds s tok g ip sid now :
  reachable s → Issued tok g ∈ history s → ¬ presented tok (history s) → (clock s ≤ now)%Z →
  ((Redeem tok ip sid now (store s)).1 = Ok g ↔ admits g ip sid now)
  ∧ ∀ ip' sid' now', (Redeem tok ip' sid' now' (Redeem tok ip sid now (store s)).2).1 = Err ErrInvalid.
Proof.
  intros H%reachable_Inv Hi Hp Hc.
  assert (Hl : tickets (store s) !! tok = Some g ∨ (ExpiresAt g < clock s)%Z ∧ tickets (store s) !! tok = None).
  { destruct (tickets (store s) !! tok) as [g'|] eqn:Hg.
    - left. f_equal. eapply inv_unique; eauto. by eapply inv_live.
    - right. split; [|done]. destruct (inv_where _ H _ _ Hi) as [|[(?&?&?&?)|[_ [|]]]]; [congruence|..]; try done.
      destruct Hp. left. eauto. }
  pose proof (Redeem_spec tok ip sid now (store s)) as Hs.
  assert (Hgone : ∀ s' ip' sid' now', tickets s' !! tok = None → (Redeem tok ip' sid' now' s').1 = Err ErrInvalid).
  { intros s' ip' sid' now' Hn. unfold Redeem. by rewrite Hn. }
  destruct Hl as [Hl|[He Hl]]; rewrite Hl in Hs.
  - destruct Hs as [[Ha ->]|[Ha ->]]; (split; [|intros; apply Hgone, lookup_delete_eq]); simpl; naive_solver.
  - rewrite Hs. split; [|by intros; apply Hgone]. simpl. split; [done|]. intros [? _]. lia.
Qed.

(** * Witnesses: a ticket issued, redeemed, and presented again; a second one
left to expire and collected by the next issue *)

Definition ex_grant (secret : slice) : Grant := {|
  UserID := "u1"; Username := "ana"; SessionID := "s1"; TargetID := "t1"; ASGID := "";
  ASGInstanceID := ""; Protocol := "ssh"; CredentialID := ""; PolicyID := "p1";
  IdleTimeout := 15 * Minute; MaxSession := 0; RetentionDays := 0; AllowClipboard := false;
  AllowFileTransfer := false; AllowDevTools := false; ClientIP := "10.0.0.7"; FailoverFrom := "";
  UserSecret := secret; UserKey := None; IssuedAt := 0; ExpiresAt := 0 |}.

Definition ex_heap : heap := {[ 0%nat := to_bytes "hunter2"; 1%nat := to_bytes "letmein" ]}.
Definition ex_raw (c : ascii) : bytes := replicate 32 c.
Definition ex_tok : string := Base64.EncodeToString (ex_raw "a").

Definition do_issue (s : System) (raw : bytes) (now : time) (g : Grant) : System :=
  let r := Issue (Some raw) now g (store s) in
  {| store := r.2; clock := now; drawn := raw :: drawn s;
     history := match r.1 with Ok tok => Issued tok (stamp now g) :: history s | Err _ => history s end |}.

Definition do_redeem (s : System) (tok ip sid : string) (now : time) : System :=
  let r := Redeem tok ip sid now (store s) in
  {| store := r.2; clock := now; drawn := drawn s;
     history := match r.1 with
                | Ok g => Redeemed tok ip sid now g :: history s
                | Err _ => Refused tok ip sid now :: history s
                end |}.

Lemma do_issue_step s raw now g :
  (clock s ≤ now)%Z → length raw = 32%nat → raw ∉ drawn s → Valid g (mem (store s)) →
  step s (do_issue s raw now g).
Proof. intros. destruct s as [[t m] c d h]. by apply step_issue with m. Qed.

Lemma do_redeem_step s tok ip sid now : (clock s ≤ now)%Z → step s (do_redeem s tok ip sid now).
Proof.
  intros. unfold do_redeem. destruct (Redeem tok ip sid now (store s)) as [[g|e] s'] eqn:He;
    [by apply step_redeem | by eapply step_refuse].
Qed.

Definition ex_issued : System := do_issue (initial ex_heap 0) (ex_raw "a") 10 (ex_grant (Some 0%nat)).
Definition ex_two : System := do_issue ex_issued (ex_raw "b") 20 (ex_grant (Some 1%nat)).
Definition ex_redeemed : System := do_redeem (do_redeem ex_two ex_tok "10.0.0.7" "s1" Second) ex_tok "10.0.0.7" "s1" (2 * Second).
Definition ex_final : System := do_issue ex_redeemed (ex_raw "c") Minute (ex_grant None).

Lemma ex_reachable : reachable ex_issued ∧ reachable ex_final.
Proof.
  assert (reachable ex_issued) as H1.
  { eapply reachable_step; [apply (reachable_init ex_heap 0)|].
    apply do_issue_step; [by vm_compute|done|set_solver|]. split; [by eexists|done]. }
  split; [done|]. eapply reachable_step; [eapply reachable_step; [eapply reachable_step; [eapply reachable_step; [exact H1|]|]|]|].
  - apply (do_issue_step _ (ex_raw "b") 20 (ex_grant (Some 1%nat))); [by vm_compute|done| |by split; [eexists|]].
    intros Hin%list_elem_of_singleton. discriminate Hin.
  - apply (do_redeem_step _ ex_tok "10.0.0.7" "s1" Second). by vm_compute.
  - apply (do_redeem_step _ ex_tok "10.0.0.7" "s1" (2 * Second)). by vm_compute.
  - apply do_issue_step; [by vm_compute|done| |done].
    intros [Hin|[Hin|[]%not_elem_of_nil]%elem_of_cons]%elem_of_cons; discriminate Hin.
Qed.

Lemma redeem_once_witness : redeemed_tokens (history ex_final) = [ex_tok] ∧ NoDup (redeemed_tokens (history ex_final)).
Proof. split; [by vm_compute | apply redeem_once, ex_reachable]. Defined.

Lemma redeem_authorised_witness :
  ClientIP (stamp 10 (ex_grant (Some 0%nat))) = "10.0.0.7"
  ∧ SessionID (stamp 10 (ex_grant (Some 0%nat))) = "s1" ∧ (10 ≤ Second ≤ 10 + TTL)%Z.
Proof.
  destruct (redeem_authorised ex_final ex_tok "10.0.0.7" "s1" Second (stamp 10 (ex_grant (Some 0%nat)))) as (_ & H);
    [apply ex_reachable | | exact H].
  right. right. left.
Defined.

Lemma secrets_wiped_witness :
  mem (store ex_final) !! 1%nat = Some (replicate 7 Ascii.zero)
  ∧ (tickets (store ex_final) !! Base64.EncodeToString (ex_raw "b") = Some (stamp 20 (ex_grant (Some 1%nat)))
     ∨ (∃ ip sid now, Redeemed (Base64.EncodeToString (ex_raw "b")) ip sid now (stamp 20 (ex_grant (Some 1%nat))) ∈ history ex_final)
     ∨ Wiped (stamp 20 (ex_grant (Some 1%nat))) (mem (store ex_final))).
Proof.
  split; [by vm_compute|]. apply secrets_wiped; [apply ex_reachable|]. right. right. right. left.
Defined.

Lemma redeem_succeeds_witness :
  ((Redeem ex_tok "10.0.0.7" "s1" Second (store ex_issued)).1 = Ok (stamp 10 (ex_grant (Some 0%nat)))
     ↔ admits (stamp 10 (ex_grant (Some 0%nat))) "10.0.0.7" "s1" Second)
  ∧ ∀ ip' sid' now', (Redeem ex_tok ip' sid' now' (Redeem ex_tok "10.0.0.7" "s1" Second (store ex_issued)).2).1 = Err ErrInvalid.
Proof.
  apply redeem_succeeds; [apply ex_reachable | left | | by vm_compute].
  intros [(?&?&?&?&[|[]%not_elem_of_nil]%elem_of_cons)|(?&?&?&[|[]%not_elem_of_nil]%elem_of_cons)]; done.
Defined.
