(* ===== verification/Access.v ===== *)
(** Just-in-time access: src/internal/access (access.go, repo.go, gate.go,
sweeper.go and the lifecycle handlers of handlers.go).

The table [access_requests] is a list of rows in insertion order.  A column
that is NULL holds [""] in the record, which is how [nullStr] writes it and
[scan] reads it; SQL's [=] is false on NULL.  Timestamps are stored to the
microsecond.  The names joined in for display are left out.  Each operation
takes the clock reading (and the fresh id) it draws as an argument. *)
From S2P Require Import Prelude Protocol Policy PolicyEval.
Local Open Scope Z_scope.

(** * Requests *)

Inductive Status := StatusPending | StatusApproved | StatusDenied | StatusExpired | StatusRevoked.

#[export] Instance Status_eq_dec : EqDecision Status.
Proof. solve_decision. Defined.

Definition DefaultMaxGrantMinutes : Z := 480.

Record Request := {
  ID : string;
  UserID : string;
  PolicyID : string;
  GrantID : string;
  TargetID : string;
  ASGID : string;
  Protocol : string;
  Reason : string;
  RequestedMinutes : Z;
  ApprovedMinutes : Z;
  ExtendsRequestID : string;
  Status_ : Status;
  ApproverUserID : string;
  DecisionNote : string;
  DecidedAt : option time;
  ExpiresAt : option time;
  CreatedAt : time;
  UpdatedAt : time;
}.

(** Active reports whether this is an approved grant still within its window. *)
Definition Active (r : Request) (now : time) : bool :=
  bool_decide (Status_ r = StatusApproved) &&
  match ExpiresAt r with Some e => Before now e | None => false end.

Inductive Error := ErrNotFound | ErrState.

(** * The repository *)

Abbreviation Rows := (list Request).

Definition sql_eq (a b : string) : bool :=
  negb (bool_decide (a = "")) && negb (bool_decide (b = "")) && bool_decide (a = b).

(** [expires_at > ?] and [expires_at <= ?], false on NULL. *)
Definition expires_after (r : Request) (now : time) : bool :=
  match ExpiresAt r with Some e => TimeArg now <? e | None => false end.
Definition expires_by (r : Request) (now : time) : bool :=
  match ExpiresAt r with Some e => e <=? TimeArg now | None => false end.

Definition on_target (r : Request) (targetID asgID : string) : bool :=
  sql_eq (TargetID r) targetID || sql_eq (ASGID r) asgID.

(** The row a new request is stored as. *)
Definition pending_row (id : string) (now : time) (req : Request) : Request := {|
  ID := id; UserID := UserID req; PolicyID := PolicyID req; GrantID := GrantID req;
  TargetID := TargetID req; ASGID := ASGID req; Protocol := Protocol req; Reason := Reason req;
  RequestedMinutes := RequestedMinutes req; ApprovedMinutes := 0;
  ExtendsRequestID := ExtendsRequestID req; Status_ := StatusPending;
  ApproverUserID := ApproverUserID req; DecisionNote := DecisionNote req;
  DecidedAt := TimeArg <$> DecidedAt req; ExpiresAt := TimeArg <$> ExpiresAt req;
  CreatedAt := TimeArg now; UpdatedAt := TimeArg now |}.

Definition Create (id : string) (now : time) (req : Request) (rows : Rows) : Rows :=
  rows ++ [pending_row id now req].

(** [ORDER BY]: a stable insertion sort, [before a b] when [a] sorts strictly
ahead of [b].  SQL leaves rows with equal keys in any order; no theorem depends
on which. *)
Fixpoint insert_by (before : Request → Request → bool) (r : Request) (l : Rows) : Rows :=
  match l with
  | [] => [r]
  | b :: l' => if before b r then b :: insert_by before r l' else r :: l
  end.
Definition order_by (before : Request → Request → bool) (l : Rows) : Rows :=
  foldr (insert_by before) [] l.

Definition newest_first (a b : Request) : bool := CreatedAt b <? CreatedAt a.

(** [expires_at] ascending; NULLs do not occur in the lists it orders. *)
Definition soonest_first (a b : Request) : bool :=
  match ExpiresAt a, ExpiresAt b with Some x, Some y => x <? y | _, _ => false end.

Definition is_open (userID targetID asgID protocol : string) (now : time) (r : Request) : bool :=
  bool_decide (UserID r = userID) && bool_decide (Protocol r = protocol) && on_target r targetID asgID
  && (bool_decide (Status_ r = StatusPending)
      || (bool_decide (Status_ r = StatusApproved) && expires_after r now)).

Definition Open (userID targetID asgID protocol : string) (now : time) (rows : Rows) : option Request :=
  head (order_by newest_first (List.filter (is_open userID targetID asgID protocol now) rows)).

Definition Get (id : string) (rows : Rows) : option Request :=
  find (λ r, bool_decide (ID r = id)) rows.

Definition ListByUser (userID : string) (rows : Rows) : Rows :=
  take 500 (order_by newest_first (List.filter (λ r, bool_decide (UserID r = userID)) rows)).

Definition List_ (status : option Status) (rows : Rows) : Rows :=
  match status with
  | None => take 500 (order_by newest_first rows)
  | Some s => take 500 (order_by newest_first (List.filter (λ r, bool_decide (Status_ r = s)) rows))
  end.

Definition CountPending (rows : Rows) : nat :=
  length (List.filter (λ r, bool_decide (Status_ r = StatusPending)) rows).

Definition active_row (userID : string) (now : time) (r : Request) : bool :=
  bool_decide (UserID r = userID) && bool_decide (Status_ r = StatusApproved) && expires_after r now.

Definition ActiveForUser (userID : string) (now : time) (rows : Rows) : Rows :=
  order_by soonest_first (List.filter (active_row userID now) rows).

Definition SoonWindow : duration := Hour.

Record InFlight := { fActive : nat; fEndingSoon : nat; fOldestPending : Z }.

(** [int64(now.Sub(oldest) / time.Second)] truncates toward zero. *)
Definition CountInFlight (now : time) (rows : Rows) : InFlight :=
  let active := List.filter (λ r, bool_decide (Status_ r = StatusApproved) && expires_after r now) rows in
  let pending := List.filter (λ r, bool_decide (Status_ r = StatusPending)) rows in
  {| fActive := length active;
     fEndingSoon := length (List.filter (λ r, expires_by r (now + SoonWindow)) active);
     fOldestPending := match CreatedAt <$> pending with
                       | [] => 0
                       | c :: cs => Z.quot (now - foldr Z.min c cs) Second
                       end |}.

Definition HasActiveGrant (userID targetID asgID protocol : string) (now : time) (rows : Rows) : bool :=
  existsb (λ r, bool_decide (UserID r = userID) && bool_decide (Protocol r = protocol)
                && bool_decide (Status_ r = StatusApproved) && expires_after r now
                && on_target r targetID asgID) rows.

(** A row's lifecycle columns, as [UPDATE ... SET] writes them. *)
Definition set_status (r : Request) (status : Status) (approver note : string) (decided expires : option time)
    (minutes : Z) (updated : time) : Request := {|
  ID := ID r; UserID := UserID r; PolicyID := PolicyID r; GrantID := GrantID r;
  TargetID := TargetID r; ASGID := ASGID r; Protocol := Protocol r; Reason := Reason r;
  RequestedMinutes := RequestedMinutes r; ApprovedMinutes := minutes;
  ExtendsRequestID := ExtendsRequestID r; Status_ := status; ApproverUserID := approver;
  DecisionNote := note; DecidedAt := decided; ExpiresAt := expires; CreatedAt := CreatedAt r;
  UpdatedAt := updated |}.

(** [UPDATE ... WHERE cond]: the table, and how many rows it changed. *)
Definition update_where (cond : Request → bool) (f : Request → Request) (rows : Rows) : Rows * nat :=
  ((λ r, if cond r then f r else r) <$> rows, length (List.filter cond rows)).

Definition missOrState (id : string) (rows : Rows) : Error :=
  match Get id rows with None => ErrNotFound | Some _ => ErrState end.

Definition decided_row (approverID : string) (status : Status) (note : string) (expiresAt : option time)
    (approvedMinutes : Z) (now : time) (r : Request) : Request :=
  set_status r status approverID note (Some (TimeArg now)) (TimeArg <$> expiresAt)
    (if 0 <? approvedMinutes then approvedMinutes else 0) (TimeArg now).

Definition Decide (id approverID : string) (status : Status) (note : string) (expiresAt : option time)
    (approvedMinutes : Z) (now : time) (rows : Rows) : result Error Request * Rows :=
  let '(rows', n) := update_where (λ r, bool_decide (ID r = id) && bool_decide (Status_ r = StatusPending))
    (decided_row approverID status note expiresAt approvedMinutes now) rows in
  if (n =? 0)%nat then (Err (missOrState id rows'), rows')
  else (match Get id rows' with Some r => Ok r | None => Err ErrNotFound end, rows').

Definition revoked_row (note : string) (now : time) (r : Request) : Request :=
  set_status r StatusRevoked (ApproverUserID r) note (DecidedAt r) (ExpiresAt r) (ApprovedMinutes r) (TimeArg now).

Definition Revoke (id note : string) (now : time) (rows : Rows) : result Error Request * Rows :=
  let '(rows', n) := update_where (λ r, bool_decide (ID r = id) && bool_decide (Status_ r = StatusApproved))
    (revoked_row note now) rows in
  if (n =? 0)%nat then (Err (missOrState id rows'), rows')
  else (match Get id rows' with Some r => Ok r | None => Err ErrNotFound end, rows').

(** The column a target or group id is kept in, and the id. *)
Definition names_target (targetID asgID : string) (r : Request) : bool :=
  if negb (bool_decide (targetID = "")) then sql_eq (TargetID r) targetID else sql_eq (ASGID r) asgID.

Definition in_hand (r : Request) : bool :=
  bool_decide (Status_ r = StatusPending) || bool_decide (Status_ r = StatusApproved).

Definition OpenForTarget (targetID asgID : string) (rows : Rows) : nat :=
  length (List.filter (λ r, in_hand r && names_target targetID asgID r) rows).

Definition CloseForTargetTx (targetID asgID note : string) (now : time) (rows : Rows) : Rows * nat :=
  update_where (λ r, in_hand r && names_target targetID asgID r) (revoked_row note now) rows.

Definition is_due (now : time) (r : Request) : bool :=
  bool_decide (Status_ r = StatusApproved) && expires_by r now.

Definition DueForExpiry (now : time) (rows : Rows) : Rows :=
  order_by soonest_first (List.filter (is_due now) rows).

Definition expired_row (now : time) (r : Request) : Request :=
  set_status r StatusExpired (ApproverUserID r) (DecisionNote r) (DecidedAt r) (ExpiresAt r) (ApprovedMinutes r) (TimeArg now).

Definition ExpireDue (now : time) (rows : Rows) : Rows * nat := update_where (is_due now) (expired_row now) rows.

(** * The sweeper: the rows it expires, with what it asks of the revoker and
records for each *)

Record Expiry := { exp_request : string; exp_user : string; exp_target : string; exp_asg : string; exp_protocol : string }.

Definition Sweep (now : time) (rows : Rows) : list Expiry * Rows :=
  let due := DueForExpiry now rows in
  if bool_decide (due = []) then ([], rows)
  else ((λ r, {| exp_request := ID r; exp_user := UserID r; exp_target := TargetID r; exp_asg := ASGID r;
                 exp_protocol := Protocol r |}) <$> due, (ExpireDue now rows).1).


(** * Facts the lifecycle proofs share *)

Section Ordering.
Variable before : Request → Request → bool.

Lemma insert_by_perm r l : insert_by before r l ≡ₚ r :: l.
Proof.
  induction l as [|b l IH]; simpl; [done|]. destruct (before b r); [|done]. by rewrite IH, Permutation_swap.
Qed.

Lemma order_by_perm l : order_by before l ≡ₚ l.
Proof. induction l as [|r l IH]; simpl; [done|]. by rewrite insert_by_perm, IH. Qed.

Lemma order_by_elem l r : r ∈ order_by before l ↔ r ∈ l.
Proof. by rewrite order_by_perm. Qed.

Lemma order_by_nil l : order_by before l = [] ↔ l = [].
Proof. split; [|by intros ->]. intros E. apply Permutation_nil. by rewrite <-(order_by_perm l), E. Qed.

End Ordering.

Lemma head_elem {A} (l : list A) x : head l = Some x → x ∈ l.
Proof. destruct l; simpl; [done|]. intros [= ->]. left. Qed.

Lemma elem_of_lfilter {A} (f : A → bool) l x : x ∈ List.filter f l ↔ x ∈ l ∧ f x = true.
Proof. rewrite !list_elem_of_In. apply filter_In. Qed.

Lemma TimeArg_le t : TimeArg t ≤ t < TimeArg t + Microsecond.
Proof. unfold TimeArg, Microsecond. div_lia. Qed.

Lemma TimeArg_idem t : TimeArg (TimeArg t) = TimeArg t.
Proof. unfold TimeArg, Microsecond. div_lia. Qed.

Lemma TimeArg_mono t u : t ≤ u → TimeArg t ≤ TimeArg u.
Proof. unfold TimeArg, Microsecond. div_lia. Qed.

(** An aligned instant is past a cutoff exactly when it is past its stored form. *)
Lemma TimeArg_lt now e : TimeArg e = e → TimeArg now < e ↔ now < e.
Proof. unfold TimeArg, Microsecond. div_lia. Qed.

#[export] Hint Resolve TimeArg_idem : zanskar.

(** Every stored instant is in its stored form, and ids are a primary key. *)
Record WF (rows : Rows) : Prop := {
  wf_ids : NoDup (ID <$> rows);
  wf_aligned : ∀ r e, r ∈ rows → ExpiresAt r = Some e → TimeArg e = e;
}.

Lemma Get_spec id rows r : NoDup (ID <$> rows) → Get id rows = Some r ↔ r ∈ rows ∧ ID r = id.
Proof.
  unfold Get. induction rows as [|x rows IH]; simpl; [set_solver|]. intros [Hx Hn]%NoDup_cons.
  case_bool_decide as E; simpl.
  - split; [intros [= ->]; split; [left|done]|]. intros [[->|Hr]%elem_of_cons Heq]; [done|].
    exfalso. apply Hx. rewrite E, <-Heq. by apply list_elem_of_fmap_2.
  - rewrite (IH Hn). rewrite elem_of_cons. naive_solver.
Qed.

Lemma row_unique rows r r' : NoDup (ID <$> rows) → r ∈ rows → r' ∈ rows → ID r = ID r' → r = r'.
Proof.
  intros Hn Hr Hr' E. assert (Get (ID r) rows = Some r) as H1 by (by apply Get_spec).
  assert (Get (ID r) rows = Some r') as H2 by (by apply Get_spec). congruence.
Qed.

Lemma Get_none id rows : Get id rows = None ↔ ∀ r, r ∈ rows → ID r ≠ id.
Proof.
  unfold Get. induction rows as [|x rows IH]; simpl.
  { split; [|done]. intros _ r Hr. by apply not_elem_of_nil in Hr. }
  case_bool_decide as E; simpl.
  - split; [done|]. intros H. by destruct (H x ltac:(left)).
  - rewrite IH. split.
    + intros H r [->|Hr]%elem_of_cons; auto.
    + intros H r Hr. apply H. by right.
Qed.

(** A lookup by id sees an update by row, when the update keeps ids. *)
Lemma Get_fmap id f rows : (∀ r, ID (f r) = ID r) → Get id (f <$> rows) = f <$> Get id rows.
Proof.
  intros Hf. unfold Get. induction rows as [|x rows IH]; simpl; [done|]. rewrite Hf. by case_bool_decide.
Qed.

Lemma Get_app id rows r :
  Get id (rows ++ [r]) = match Get id rows with
                         | Some x => Some x
                         | None => if bool_decide (ID r = id) then Some r else None
                         end.
Proof. unfold Get. induction rows as [|x rows IH]; simpl; [done|]. by destruct (bool_decide (ID x = id)). Qed.

Lemma filter_length_0 {A} (f : A → bool) l : (length (List.filter f l) =? 0)%nat = negb (existsb f l).
Proof. induction l as [|x l IH]; simpl; [done|]. by destruct (f x). Qed.

Lemma update_elem cond f rows r' :
  r' ∈ (update_where cond f rows).1 ↔ ∃ r, r ∈ rows ∧ r' = if cond r then f r else r.
Proof. simpl. rewrite list_elem_of_fmap. naive_solver. Qed.

Lemma update_id cond f rows : existsb cond rows = false → (update_where cond f rows).1 = rows.
Proof.
  simpl. rewrite existsb_false. intros H. rewrite <-(list_fmap_id rows) at 2.
  apply list_fmap_ext. intros i r Hr. by rewrite (H r) by (by eapply list_elem_of_lookup_2).
Qed.

(** * Sweeping *)

Lemma Sweep_rows now rows : (Sweep now rows).2 = (ExpireDue now rows).1.
Proof.
  unfold Sweep. case_bool_decide as E; [|done]. simpl. symmetry. apply update_id, existsb_false.
  apply order_by_nil in E. intros r Hr. destruct (is_due now r) eqn:Hd; [|done]. exfalso.
  apply (not_elem_of_nil r). rewrite <-E. by apply elem_of_lfilter.
Qed.

(** Grants the table keeps past a step's own effect. *)
Lemma sweep_keeps_active rows now now' userID targetID asgID protocol :
  now ≤ now' →
  HasActiveGrant userID targetID asgID protocol now' (Sweep now rows).2
  = HasActiveGrant userID targetID asgID protocol now' rows.
Proof.
  intros Hle. rewrite Sweep_rows. unfold HasActiveGrant, ExpireDue, update_where. cbn [fst].
  induction rows as [|r rows IH]; [done|]. rewrite fmap_cons. cbn [existsb]. rewrite IH. f_equal.
  destruct (is_due now r) eqn:Hd; [|done]. unfold is_due, expires_by in Hd. bool_simpl.
  assert (expires_after r now' = false) as E.
  { unfold expires_after. destruct (ExpiresAt r); [|done]. pose proof (TimeArg_mono _ _ Hle). lia. }
  assert (expires_after (expired_row now r) now' = false) as E' by apply E.
  rewrite E, E'. by rewrite !andb_false_r.
Qed.

(** Expiry sweeps are hygiene, not enforcement: a sweep answers with exactly
the approved rows whose expiry has come, leaves none of them approved and no
other row changed, and changes the gate's answer at no instant from its own
clock reading on. *)
Theorem sweep_hygiene rows now :
  exp_request <$> (Sweep now rows).1 ≡ₚ ID <$> List.filter (is_due now) rows
  ∧ (∀ r, r ∈ (Sweep now rows).2 → is_due now r = false)
  ∧ (∀ r, r ∈ rows → is_due now r = false → r ∈ (Sweep now rows).2)
  ∧ (∀ now' userID targetID asgID protocol, now ≤ now' →
      HasActiveGrant userID targetID asgID protocol now' (Sweep now rows).2
      = HasActiveGrant userID targetID asgID protocol now' rows).
Proof.
  split_and!.
  - etrans; [|apply fmap_Permutation, (order_by_perm soonest_first)]. unfold Sweep, DueForExpiry.
    case_bool_decide as E; cbn [fst]; [by rewrite E|]. by rewrite <-list_fmap_compose.
  - intros r. rewrite Sweep_rows. intros (x & -> & Hx)%list_elem_of_fmap.
    destruct (is_due now x) eqn:E; [|done]. unfold is_due. simpl. done.
  - intros r Hr Hd. rewrite Sweep_rows. apply list_elem_of_fmap. exists r. by rewrite Hd.
  - intros. by apply sweep_keeps_active.
Qed.
