(* ===== verification/AccessFlow.v ===== *)
(** Who is admitted, and how access is requested, approved and taken away:
src/internal/access/gate.go and the lifecycle handlers of handlers.go, over the
repository of Access.v and the policy decision of PolicyEval.v.

What the handlers ask of other components (the caller's policies, the target
and group inventory, whether an account has an authenticator) is the record
[World]; each step of a history carries its own, so a theorem over histories
holds while policies and inventory change between steps. *)
From Stdlib Require Import Sorted.
From S2P Require Import Prelude GoText Protocol Policy PolicyEval Access.
Local Open Scope Z_scope.

(** * The admission gate *)

(** The gate's dependencies; [None] is a nil field, [Err] a failing store. *)
Record Gate := {
  gPolicies : string → result unit (list Policy);
  gGrants : option (string → string → string → string → time → result unit bool);
  gMFAEnrolled : option (string → result unit bool);
}.

Inductive Code := CodePolicyDenied | CodeApprovalRequired | CodeMFARequired.

#[export] Instance Code_eq_dec : EqDecision Code.
Proof. solve_decision. Defined.

Inductive Admission :=
| LetIn (d : Decision)
| Refused (d : Decision) (c : Code)
| Failed.

Definition admission (g : Gate) (userID : string) (ref : TargetRef) (proto : string) (now : time)
    (evaluate : list Policy → TargetRef → string → time → Decision) : Admission :=
  match gPolicies g userID with
  | Err _ => Failed
  | Ok pols =>
      let d := evaluate pols ref proto now in
      if negb (Allowed d) then Refused d CodePolicyDenied
      else
        let mfa :=
          match gMFAEnrolled g with
          | Some enrolledOf =>
              if dRequireMFA d then
                match enrolledOf userID with
                | Err _ => Failed
                | Ok enrolled => if negb enrolled then Refused d CodeMFARequired else LetIn d
                end
              else LetIn d
          | None => LetIn d
          end in
        match gGrants g with
        | Some hasGrant =>
            if RequireApproval d then
              match hasGrant userID (tID ref) (tASGID ref) proto now with
              | Err _ => Failed
              | Ok granted => if negb granted then Refused d CodeApprovalRequired else mfa
              end
            else mfa
        | None => mfa
        end
  end.

Definition Admit `{TimeZones} (g : Gate) userID ref proto now : Admission :=
  admission g userID ref proto now Evaluate.

Definition AdmitLive `{TimeZones} (g : Gate) userID ref proto now : Admission :=
  admission g userID ref proto now EvaluateLive.

(** The gate whose grants are the rows of this table. *)
Definition gate_over (policies : string → result unit (list Policy)) (rows : Rows)
    (mfa : option (string → result unit bool)) : Gate := {|
  gPolicies := policies;
  gGrants := Some (λ u t a p now, Ok (HasActiveGrant u t a p now rows));
  gMFAEnrolled := mfa |}.

(** * The handlers *)

Inductive LookupErr := Missing | StoreDown.

(** The fields of a target and of a group the handlers use. *)
Record Host := { hKind : string; hID : string; hTags : gmap string string }.
Record Group := { grID : string; grTags : gmap string string }.

Record World := {
  ForUser : string → result unit (list Policy);
  TargetsGet : string → result LookupErr Host;
  ASGsGet : option (string → result LookupErr Group);
  ApproveStepUp : option bool;
  MFAEnrolled : option (string → result unit bool);
}.

(** The signed-in caller: the account, and whether an authenticator code was
proved within the step-up window ([auth.Principal.StepUpFresh]). *)
Record Principal := { pUserID : string; StepUpFresh : bool }.

Inductive Answer :=
| Created (r : Request)
| OK (r : Request)
| BadRequest
| TargetNotFound | GroupNotFound | RequestNotFound
| NotEligible | NoLongerEligible
| DurationTooLong (most : Z)
| DuplicateRequest | AlreadyGranted | NotExtendable
| NotPending | WrongState
| StepUpRequired
| Internal.

Record createInput := {
  inTargetID : string;
  inASGID : string;
  inProtocol : string;
  inReason : string;
  inMinutes : Z;
  inExtends : string;
}.

Record eligibility := { ePolicy : Policy; eGrant : Grant; maxMinutes : Z }.

(** The maximum an approval grant puts on a request. *)
Definition grant_most (g : Grant) : Z :=
  match MaxSessionMinutes g with
  | Some n => if 0 <? n then n else DefaultMaxGrantMinutes
  | None => DefaultMaxGrantMinutes
  end.

Definition eligible_grant (ref : TargetRef) (proto : string) (p : Policy) (best : option eligibility) (g : Grant)
    : option eligibility :=
  if negb (bool_decide (Access g = AccessApproval)) || negb (Covers g ref proto) then best
  else
    let most := grant_most g in
    match best with
    | None => Some {| ePolicy := p; eGrant := g; maxMinutes := most |}
    | Some b => if most <? maxMinutes b then Some {| ePolicy := p; eGrant := g; maxMinutes := most |} else best
    end.

Definition eligible (pols : list Policy) (ref : TargetRef) (proto : string) : option eligibility :=
  foldl (λ best p, if negb (Enabled p) then best else foldl (eligible_grant ref proto p) best (Grants p)) None pols.

(** The host or group a request names, or the answer that it cannot be found. *)
Definition subject (w : World) (targetID asgID : string) : result Answer TargetRef :=
  if negb (bool_decide (targetID = "")) then
    match TargetsGet w targetID with
    | Err Missing => Err TargetNotFound
    | Err StoreDown => Err Internal
    | Ok t => Ok {| tKind := hKind t; tID := hID t; tASGID := ""; tTags := hTags t |}
    end
  else match ASGsGet w with
  | None => Err GroupNotFound
  | Some get =>
      match get asgID with
      | Err Missing => Err GroupNotFound
      | Err StoreDown => Err Internal
      | Ok g => Ok {| tKind := KindAutoscaling; tID := ""; tASGID := grID g; tTags := grTags g |}
      end
  end.

Definition policies_of (w : World) (userID : string) : result Answer (list Policy) :=
  match ForUser w userID with Err _ => Err Internal | Ok ps => Ok ps end.

Definition check_input (i : createInput) : result Answer unit :=
  let? _ := refuse_if (bool_decide (bool_decide (inTargetID i = "") = bool_decide (inASGID i = ""))
                       || bool_decide (inProtocol i = "")) BadRequest in
  let? _ := refuse_if (bool_decide (Strings.TrimSpace (inReason i) = "")) BadRequest in
  refuse_if (inMinutes i <? 1) BadRequest.

(** One open request per tuple, and an extension names the grant in hand. *)
Definition check_open (open : option Request) (extends : string) : result Answer unit :=
  match open with
  | Some o =>
      if bool_decide (Status_ o = StatusPending) then Err DuplicateRequest
      else if bool_decide (extends = "") then Err AlreadyGranted
      else if negb (bool_decide (ID o = extends)) then Err NotExtendable
      else Ok tt
  | None => if negb (bool_decide (extends = "")) then Err NotExtendable else Ok tt
  end.

Definition new_request (userID : string) (e : eligibility) (ref : TargetRef) (i : createInput) : Request := {|
  ID := ""; UserID := userID; PolicyID := pID (ePolicy e); GrantID := gID (eGrant e);
  TargetID := tID ref; ASGID := tASGID ref; Protocol := inProtocol i;
  Reason := Strings.TrimSpace (inReason i);
  RequestedMinutes := inMinutes i; ApprovedMinutes := 0; ExtendsRequestID := inExtends i;
  Status_ := StatusPending; ApproverUserID := ""; DecisionNote := ""; DecidedAt := None;
  ExpiresAt := None; CreatedAt := 0; UpdatedAt := 0 |}.

(** [create] up to its insert: every check, the last of them the read of the
open request at [now]. *)
Definition create_check (w : World) (now : time) (pr : Principal) (i : createInput) (rows : Rows)
    : result Answer Request :=
  let? _ := check_input i in
  let? ref := subject w (inTargetID i) (inASGID i) in
  let? pols := policies_of w (pUserID pr) in
  match eligible pols ref (inProtocol i) with
  | None => Err NotEligible
  | Some e =>
      let? _ := refuse_if (maxMinutes e <? inMinutes i) (DurationTooLong (maxMinutes e)) in
      let? _ := check_open (Open (pUserID pr) (tID ref) (tASGID ref) (inProtocol i) now rows) (inExtends i) in
      Ok (new_request (pUserID pr) e ref i)
  end.

(** The whole handler; [now'] is the clock reading of [Repo.Create]. *)
Definition create (w : World) (id : string) (now now' : time) (pr : Principal) (i : createInput) (rows : Rows)
    : Answer * Rows :=
  match create_check w now pr i rows with
  | Err a => (a, rows)
  | Ok req => (Created (pending_row id now' req), Create id now' req rows)
  end.

Record decisionInput := { dNote : string; dMinutes : Z }.

Definition steppedUp (w : World) (pr : Principal) : result Answer unit :=
  match ApproveStepUp w with
  | Some true =>
      if StepUpFresh pr then Ok tt
      else match MFAEnrolled w with
           | Some enrolled =>
               match enrolled (pUserID pr) with
               | Err _ => Err Internal
               | Ok has => if negb has then Ok tt else Err StepUpRequired
               end
           | None => Err StepUpRequired
           end
  | _ => Ok tt
  end.

Definition fail (e : Error) : Answer :=
  match e with ErrNotFound => RequestNotFound | ErrState => WrongState end.

(** The minutes granted: the approver's figure, else the requester's. *)
Definition granted_minutes (cur : Request) (d : decisionInput) : result Answer Z :=
  if negb (dMinutes d =? 0) then
    if dMinutes d <? 1 then Err BadRequest else Ok (dMinutes d)
  else Ok (RequestedMinutes cur).

(** An extension runs on from the grant it extends while that one is active. *)
Definition grant_base (cur : Request) (now : time) (rows : Rows) : time :=
  if negb (bool_decide (ExtendsRequestID cur = "")) then
    match Get (ExtendsRequestID cur) rows with
    | Some prev => if Active prev now then default now (ExpiresAt prev) else now
    | None => now
    end
  else now.

(** The checks of [approve] on the request it read. *)
Definition approve_check (w : World) (pr : Principal) (cur : Request) (d : decisionInput) : result Answer Z :=
  let? _ := refuse_if (negb (bool_decide (Status_ cur = StatusPending))) NotPending in
  let? _ := steppedUp w pr in
  let? ref := subject w (TargetID cur) (ASGID cur) in
  let? pols := policies_of w (UserID cur) in
  match eligible pols ref (Protocol cur) with
  | None => Err NoLongerEligible
  | Some e =>
      let? minutes := granted_minutes cur d in
      let? _ := refuse_if (maxMinutes e <? minutes) (DurationTooLong (maxMinutes e)) in
      Ok minutes
  end.

Definition answer_of (r : result Error Request * Rows) : Answer * Rows :=
  (match r.1 with Err e => fail e | Ok req => OK req end, r.2).

Definition approve (w : World) (now now' : time) (pr : Principal) (id : string) (d : decisionInput) (rows : Rows)
    : Answer * Rows :=
  match Get id rows with
  | None => (RequestNotFound, rows)
  | Some cur =>
      match approve_check w pr cur d with
      | Err a => (a, rows)
      | Ok minutes =>
          let expires := grant_base cur now rows + minutes * Minute in
          answer_of (Decide (ID cur) (pUserID pr) StatusApproved (dNote d) (Some expires) minutes now' rows)
      end
  end.

Definition deny (now : time) (pr : Principal) (id note : string) (rows : Rows) : Answer * Rows :=
  answer_of (Decide id (pUserID pr) StatusDenied note None 0 now rows).

Definition revoke (now : time) (id note : string) (rows : Rows) : Answer * Rows :=
  answer_of (Revoke id note now rows).

(** * Histories *)

Inductive action :=
| ACreate (w : World) (id : string) (now now' : time) (pr : Principal) (i : createInput)
| AApprove (w : World) (now now' : time) (pr : Principal) (id : string) (d : decisionInput)
| ADeny (now : time) (pr : Principal) (id note : string)
| ARevoke (now : time) (id note : string)
| AClose (now : time) (targetID asgID note : string)
| ASweep (now : time).

(** Each handler as one step on the table. *)
Definition step (rows : Rows) (a : action) : Rows :=
  match a with
  | ACreate w id now now' pr i => (create w id now now' pr i rows).2
  | AApprove w now now' pr id d => (approve w now now' pr id d rows).2
  | ADeny now pr id note => (deny now pr id note rows).2
  | ARevoke now id note => (revoke now id note rows).2
  | AClose now t g note => (CloseForTargetTx t g note now rows).1
  | ASweep now => (Sweep now rows).2
  end.

Definition run (rows : Rows) (l : list action) : Rows := foldl step rows l.

(** [store.NewID] draws a fresh id for every insert. *)
Definition created_ids (l : list action) : list string :=
  omap (λ a, match a with ACreate _ id _ _ _ _ => Some id | _ => None end) l.

(** * The gate *)

Section Admission.
Context `{TimeZones}.

(** What must hold for a session to be admitted, clause by clause. *)
Definition approval_settled (g : Gate) userID (ref : TargetRef) proto now (pols : list Policy) windows : Prop :=
  (∃ p x, (p, x) ∈ admitting pols ref proto now windows ∧ Access x ≠ AccessApproval)
  ∨ gGrants g = None
  ∨ ∃ f, gGrants g = Some f ∧ f userID (tID ref) (tASGID ref) proto now = Ok true.

Definition authenticator_settled (g : Gate) userID (ref : TargetRef) proto now (pols : list Policy) windows : Prop :=
  (∀ c, c ∈ deciding pols ref proto now windows → RequireMFA c.2 = false)
  ∨ gMFAEnrolled g = None
  ∨ ∃ f, gMFAEnrolled g = Some f ∧ f userID = Ok true.

Lemma standing_exists pols ref proto now windows :
  standing_admitting pols ref proto now windows ≠ [] ↔
  ∃ p x, (p, x) ∈ admitting pols ref proto now windows ∧ Access x ≠ AccessApproval.
Proof.
  unfold standing_admitting. split.
  - destruct (List.filter _ _) as [|[p x] l] eqn:E; [done|]. intros _. exists p, x.
    assert ((p, x) ∈ List.filter (negb ∘ is_approval) (admitting pols ref proto now windows)) as Hin by (rewrite E; left).
    apply elem_of_lfilter in Hin as [? Hf]. split; [done|]. unfold is_approval in Hf. simpl in Hf. by bool_simpl.
  - intros (p & x & Hin & Ha) E. apply (not_elem_of_nil (p, x)). rewrite <-E. apply elem_of_lfilter.
    split; [done|]. unfold is_approval. simpl. by rewrite bool_decide_eq_false_2.
Qed.

Lemma evaluate_mfa pols ref proto now windows :
  Allowed (evaluate pols ref proto now windows) = true →
  dRequireMFA (evaluate pols ref proto now windows) = false ↔
  ∀ c, c ∈ deciding pols ref proto now windows → RequireMFA c.2 = false.
Proof.
  intros Ha. destruct (evaluate_terms_lemma _ _ _ _ _ Ha) as [T _].
  rewrite <-not_true_iff_false, (terms_mfa _ _ T). split.
  - intros Hn c Hc. apply not_true_iff_false. naive_solver.
  - intros Hall (c & Hc & Hm). rewrite (Hall c Hc) in Hm. done.
Qed.

Lemma evaluate_approval pols ref proto now windows :
  Allowed (evaluate pols ref proto now windows) = true →
  RequireApproval (evaluate pols ref proto now windows) = false ↔
  ∃ p x, (p, x) ∈ admitting pols ref proto now windows ∧ Access x ≠ AccessApproval.
Proof.
  intros Ha. destruct (evaluate_terms_lemma _ _ _ _ _ Ha) as [_ Hr].
  by rewrite <-standing_exists, <-not_true_iff_false, Hr.
Qed.

Lemma admit_cases g userID ref proto now ev d :
  admission g userID ref proto now ev = LetIn d ↔
  ∃ pols, gPolicies g userID = Ok pols
    ∧ d = ev pols ref proto now
    ∧ Allowed d = true
    ∧ (RequireApproval d = false ∨ gGrants g = None
       ∨ ∃ f, gGrants g = Some f ∧ f userID (tID ref) (tASGID ref) proto now = Ok true)
    ∧ (dRequireMFA d = false ∨ gMFAEnrolled g = None
       ∨ ∃ f, gMFAEnrolled g = Some f ∧ f userID = Ok true).
Proof.
  unfold admission. destruct (gPolicies g userID) as [pols|]; [|naive_solver]. split.
  - intros Hd. exists pols. assert (d = ev pols ref proto now) as ->.
    { repeat case_match; naive_solver. }
    repeat case_match; bool_simpl; split_and!; naive_solver.
  - intros (? & [= <-] & -> & Ha & Hr & Hm). rewrite Ha. simpl.
    destruct Hr as [->|[->|(f & -> & ->)]], Hm as [->|[->|(m & -> & ->)]]; simpl; repeat case_match; done.
Qed.

Lemma admit_admitted g userID ref proto now windows d :
  admission g userID ref proto now (λ ps t pr n, evaluate ps t pr n windows) = LetIn d ↔
  ∃ pols, gPolicies g userID = Ok pols
    ∧ d = evaluate pols ref proto now windows
    ∧ admitting pols ref proto now windows ≠ []
    ∧ approval_settled g userID ref proto now pols windows
    ∧ authenticator_settled g userID ref proto now pols windows.
Proof.
  rewrite admit_cases. apply exist_proper. intros pols. apply and_iff_compat_l.
  rewrite <-allowed_admitting. unfold approval_settled, authenticator_settled.
  split; intros (-> & Ha & Hr & Hm); pose proof (evaluate_approval _ _ _ _ _ Ha) as Ea;
    pose proof (evaluate_mfa _ _ _ _ _ Ha) as Em; rewrite Ea, Em in * || rewrite <-Ea, <-Em in *; done.
Qed.

(** C1. A session is admitted exactly when everything the gate stands for holds:
the caller's policies were read, a grant of an enabled policy covers the target
and protocol (with a window open now), access that only approval-gated grants
give has a live approved request, and where a deciding grant asks for an
authenticator the account has one; a store that fails admits nobody. *)
Theorem admit_iff g userID ref proto now d :
  Admit g userID ref proto now = LetIn d ↔
  ∃ pols, gPolicies g userID = Ok pols
    ∧ d = Evaluate pols ref proto now
    ∧ (∃ p x, (p, x) ∈ admitting pols ref proto now true)
    ∧ approval_settled g userID ref proto now pols true
    ∧ authenticator_settled g userID ref proto now pols true.
Proof.
  unfold Admit, Evaluate. rewrite admit_admitted.
  assert (∀ l : list decider, l ≠ [] ↔ ∃ p x, (p, x) ∈ l) as Hne.
  { intros [|[p x] l]; split; try done.
    - intros (? & ? & Hx). by apply not_elem_of_nil in Hx.
    - intros _. exists p, x. left. }
  by setoid_rewrite Hne.
Qed.

(** Revocation's re-check never pulls a session that could start afresh:
for an account with its authenticator enrolled, whatever Admit admits AdmitLive
admits at the same instant.  (Without one it may not: with every window open a
grant that asks for an authenticator can join the deciding ones.) *)
Theorem admit_live_keeps g userID ref proto now d :
  Admit g userID ref proto now = LetIn d →
  (∀ f, gMFAEnrolled g = Some f → f userID = Ok true) →
  ∃ d', AdmitLive g userID ref proto now = LetIn d'.
Proof.
  unfold Admit, AdmitLive. intros (pols & Hp & -> & Hne & Ha & Hm)%(admit_admitted _ _ _ _ _ true) He.
  exists (EvaluateLive pols ref proto now). apply (admit_admitted _ _ _ _ _ false). exists pols.
  assert (admitting pols ref proto now true ⊆ admitting pols ref proto now false) as Hsub.
  { intros [p x]. rewrite !elem_of_admitting. naive_solver. }
  split_and!; [done|done| | |].
  - intros E. apply Hne. by eapply subset_nil.
  - destruct Ha as [(p & x & Hin & Hx)|?]; [left; exists p, x; split; [by apply Hsub|done]|by right].
  - destruct (gMFAEnrolled g) as [f|] eqn:E; [|right; by left]. right; right. exists f. auto.
Qed.

End Admission.

(** * Eligibility *)

(** The grants a request may be made under. *)
Definition requestable (ref : TargetRef) (proto : string) (c : decider) : bool :=
  Enabled c.1 && (bool_decide (Access c.2 = AccessApproval) && Covers c.2 ref proto).

Lemma eligible_grant_skip ref proto p best g :
  bool_decide (Access g = AccessApproval) && Covers g ref proto = false → eligible_grant ref proto p best g = best.
Proof. unfold eligible_grant. by destruct (bool_decide _), (Covers _ _ _). Qed.

Lemma eligible_fold pols ref proto :
  eligible pols ref proto =
  foldl (λ best c, eligible_grant ref proto c.1 best c.2) None (List.filter (requestable ref proto) (deciders pols)).
Proof.
  unfold eligible. generalize (@None eligibility).
  induction pols as [|p pols IH]; intros best; simpl; [done|].
  unfold deciders. simpl. rewrite List.filter_app, foldl_app, IH. f_equal.
  assert (∀ gs b, foldl (λ best c, eligible_grant ref proto c.1 best c.2) b
                    (List.filter (requestable ref proto) ((λ g, (p, g)) <$> gs))
                  = if negb (Enabled p) then b else foldl (eligible_grant ref proto p) b gs) as Hp.
  { induction gs as [|g gs IHg]; intros b; simpl; [by case_match|]. unfold requestable at 1. simpl.
    destruct (Enabled p) eqn:He; simpl in *; [|apply IHg].
    destruct (bool_decide _ && _) eqn:E; simpl; [apply IHg|]. rewrite IHg. by rewrite (eligible_grant_skip _ _ _ _ g E). }
  by rewrite Hp.
Qed.

(** The grant that caps a request: one that admits it, with the least maximum. *)
Definition caps (ref : TargetRef) (proto : string) (pols : list Policy) (e : eligibility) : Prop :=
  (ePolicy e, eGrant e) ∈ List.filter (requestable ref proto) (deciders pols)
  ∧ maxMinutes e = grant_most (eGrant e)
  ∧ ∀ c, c ∈ List.filter (requestable ref proto) (deciders pols) → maxMinutes e ≤ grant_most c.2.

Lemma eligible_cases pols ref proto :
  match eligible pols ref proto with
  | Some e => caps ref proto pols e
  | None => List.filter (requestable ref proto) (deciders pols) = []
  end.
Proof.
  rewrite eligible_fold. unfold caps.
  assert (Forall (λ c, requestable ref proto c = true) (List.filter (requestable ref proto) (deciders pols))) as Hall.
  { apply Forall_forall. by intros c [_ ?]%elem_of_lfilter. }
  induction (List.filter _ _) as [|c l IH] using rev_ind; [done|].
  apply Forall_app in Hall as [Hl [Hc _]%Forall_cons]. specialize (IH Hl). rewrite foldl_app. simpl.
  unfold requestable in Hc. apply andb_true_iff in Hc as [_ Hc].
  unfold eligible_grant at 1. apply andb_true_iff in Hc as [-> ->]. simpl.
  destruct (foldl _ None l) as [b|]; simpl.
  - destruct IH as (Hin & Hm & Hle). destruct (Z.ltb_spec (grant_most c.2) (maxMinutes b)); simpl; split_and!.
    + destruct c. set_solver.
    + done.
    + intros x [Hx| ->%list_elem_of_singleton]%elem_of_app; [specialize (Hle _ Hx); lia|done].
    + set_solver.
    + done.
    + intros x [Hx| ->%list_elem_of_singleton]%elem_of_app; [auto|done].
  - subst. destruct c. simpl. split_and!; [set_solver|done|]. by intros x ->%list_elem_of_singleton.
Qed.

(** Who may request, and for how long: a request is eligible exactly when an
approval grant of an enabled policy covers the target and protocol, and its cap
is the shortest maximum among all such grants, a grant without one counting as
eight hours. *)
Theorem eligible_spec pols ref proto :
  match eligible pols ref proto with
  | Some e => ePolicy e ∈ pols ∧ eGrant e ∈ Grants (ePolicy e) ∧ Enabled (ePolicy e) = true
      ∧ Access (eGrant e) = AccessApproval ∧ Covers (eGrant e) ref proto = true
      ∧ maxMinutes e = grant_most (eGrant e)
      ∧ (∀ p g, p ∈ pols → g ∈ Grants p → Enabled p = true → Access g = AccessApproval →
           Covers g ref proto = true → maxMinutes e ≤ grant_most g)
  | None => ∀ p g, p ∈ pols → g ∈ Grants p → Enabled p = true → Access g = AccessApproval →
      Covers g ref proto = false
  end.
Proof.
  assert (∀ p g, (p, g) ∈ List.filter (requestable ref proto) (deciders pols) ↔
    p ∈ pols ∧ g ∈ Grants p ∧ Enabled p = true ∧ Access g = AccessApproval ∧ Covers g ref proto = true) as Hin.
  { intros p g. rewrite elem_of_lfilter, elem_of_deciders. unfold requestable. simpl.
    rewrite !andb_true_iff, bool_decide_eq_true. tauto. }
  pose proof (eligible_cases pols ref proto) as H. destruct (eligible pols ref proto) as [e|].
  - destruct H as (He & Hm & Hle). apply Hin in He as (? & ? & ? & ? & ?). split_and!; try done.
    intros p g ?????. apply (Hle (p, g)), Hin. done.
  - intros p g ????. destruct (Covers g ref proto) eqn:E; [|done]. exfalso.
    apply (not_elem_of_nil (p, g)). rewrite <-H. by apply Hin.
Qed.

(** * The life of a request *)

(** The columns no operation changes. *)
Definition same_ask (r r' : Request) : Prop :=
  ID r' = ID r ∧ UserID r' = UserID r ∧ PolicyID r' = PolicyID r ∧ GrantID r' = GrantID r
  ∧ TargetID r' = TargetID r ∧ ASGID r' = ASGID r ∧ Protocol r' = Protocol r ∧ Reason r' = Reason r
  ∧ RequestedMinutes r' = RequestedMinutes r ∧ ExtendsRequestID r' = ExtendsRequestID r ∧ CreatedAt r' = CreatedAt r.

(** The terms of a decided request. *)
Definition same_terms (r r' : Request) : Prop :=
  ApprovedMinutes r' = ApprovedMinutes r ∧ ApproverUserID r' = ApproverUserID r
  ∧ DecidedAt r' = DecidedAt r ∧ ExpiresAt r' = ExpiresAt r.

(** pending → approved | denied | revoked, approved → expired | revoked. *)
Definition next_status (s s' : Status) : bool :=
  match s, s' with
  | StatusPending, (StatusApproved | StatusDenied | StatusRevoked)
  | StatusApproved, (StatusExpired | StatusRevoked) => true
  | _, _ => false
  end.

(** Only an approval sets an expiry, and in its stored form. *)
Definition new_expiry (r r' : Request) : Prop :=
  if bool_decide (Status_ r' = StatusApproved) then ∃ e, ExpiresAt r' = Some (TimeArg e)
  else ExpiresAt r' = ExpiresAt r ∨ ExpiresAt r' = None.

Definition moves (r r' : Request) : Prop :=
  r' = r ∨ (same_ask r r' ∧ next_status (Status_ r) (Status_ r') = true
            ∧ (Status_ r = StatusApproved → same_terms r r') ∧ new_expiry r r').

Lemma set_status_ask r s a n d e m u : same_ask r (set_status r s a n d e m u).
Proof. done. Qed.

Lemma moves_ID r r' : moves r r' → ID r' = ID r.
Proof. intros [->|[[] _]]; done. Qed.

(** An UPDATE on rows in a status moves each of them as the table above allows. *)
Lemma decided_moves id approver status note exp mins now r :
  (status = StatusApproved ∧ is_Some exp ∨ status = StatusDenied ∧ exp = None) →
  moves r (if bool_decide (ID r = id) && bool_decide (Status_ r = StatusPending)
           then decided_row approver status note exp mins now r else r).
Proof.
  intros Hs. destruct (_ && _) eqn:E; [|by left]. bool_simpl. right. split; [apply set_status_ask|].
  destruct Hs as [[-> [e ->]]|[-> ->]]; simpl; rewrite H0; split_and!; try done.
  - by exists e.
  - by right.
Qed.

Lemma revoked_moves (cond : bool) note now r :
  (cond = true → in_hand r = true) → moves r (if cond then revoked_row note now r else r).
Proof.
  intros Hc. destruct cond; [|by left]. specialize (Hc eq_refl). unfold in_hand in Hc. bool_simpl.
  right. split; [apply set_status_ask|]. split_and!; [|done|by left].
  simpl. destruct Hc as [Hc|Hc]; bool_simpl; by rewrite Hc.
Qed.

Lemma expired_moves now r : moves r (if is_due now r then expired_row now r else r).
Proof.
  destruct (is_due now r) eqn:E; [|by left]. unfold is_due in E. bool_simpl. right.
  split; [apply set_status_ask|]. split_and!; [|done|by left]. simpl. by rewrite H.
Qed.

Lemma answer_of_rows r : (answer_of r).2 = r.2.
Proof. done. Qed.

Lemma Decide_rows id approver status note exp mins now rows :
  (Decide id approver status note exp mins now rows).2
  = (λ r, if bool_decide (ID r = id) && bool_decide (Status_ r = StatusPending)
          then decided_row approver status note exp mins now r else r) <$> rows.
Proof. unfold Decide. simpl. by destruct (length _). Qed.

Lemma Revoke_rows id note now rows :
  (Revoke id note now rows).2
  = (λ r, if bool_decide (ID r = id) && bool_decide (Status_ r = StatusApproved) then revoked_row note now r else r) <$> rows.
Proof. unfold Revoke. simpl. by destruct (length _). Qed.

(** Every step is an UPDATE row by row, then at most one INSERT. *)
Lemma step_shape rows a :
  ∃ f, (∀ r, moves r (f r)) ∧
    (step rows a = f <$> rows ∨
     ∃ w id now now' pr i req, a = ACreate w id now now' pr i ∧ create_check w now pr i rows = Ok req
       ∧ f = (λ r : Request, r) ∧ step rows a = rows ++ [pending_row id now' req]).
Proof.
  destruct a as [w id now now' pr i|w now now' pr id d|now pr id note|now id note|now t g note|now]; simpl.
  - exists (λ r : Request, r). split; [by left|]. unfold create. destruct (create_check w now pr i rows) as [req|] eqn:E; simpl.
    + right. by exists w, id, now, now', pr, i, req.
    + left. by rewrite list_fmap_id.
  - unfold approve. destruct (Get id rows) as [cur|]; [|exists (λ r : Request, r); split; [by left|left; by rewrite list_fmap_id]].
    destruct (approve_check w pr cur d) as [m|]; [|exists (λ r : Request, r); split; [by left|left; by rewrite list_fmap_id]].
    rewrite ?answer_of_rows, Decide_rows. eexists. split; [|by left]. intros r. apply decided_moves. left. eauto.
  - unfold deny. rewrite ?answer_of_rows, Decide_rows. eexists. split; [|by left]. intros r. apply decided_moves. by right.
  - unfold revoke. rewrite ?answer_of_rows, Revoke_rows. eexists. split; [|by left]. intros r. apply revoked_moves.
    intros ?. bool_simpl. unfold in_hand. rewrite (bool_decide_eq_true_2 (Status_ r = StatusApproved)) by done. apply orb_true_r.
  - eexists. split; [|by left]. intros r. apply revoked_moves. intros ?. by bool_simpl.
  - rewrite Sweep_rows. eexists. split; [|by left]. intros r. apply expired_moves.
Qed.

(** The statuses a request can reach from one, in any number of steps. *)
Definition later (s s' : Status) : bool :=
  next_status s s' || match s, s' with StatusPending, StatusExpired => true | _, _ => false end.

Definition evolves (r r' : Request) : Prop :=
  r' = r ∨ (same_ask r r' ∧ later (Status_ r) (Status_ r') = true ∧ (Status_ r = StatusApproved → same_terms r r')).

Lemma evolves_moves r r' r'' : evolves r r' → moves r' r'' → evolves r r''.
Proof.
  intros [->|(Ha & Hl & Ht)] [->|(Ha' & Hl' & Ht' & _)].
  - by left.
  - right. unfold later. by rewrite Hl'.
  - right. done.
  - right. unfold same_ask, same_terms in *. split; [|split].
    + intuition congruence.
    + destruct (Status_ r), (Status_ r'), (Status_ r''); done.
    + intros E. rewrite E in Hl. destruct (Status_ r'); done.
Qed.

Lemma step_Get rows a id r :
  Get id rows = Some r → ∃ r', Get id (step rows a) = Some r' ∧ moves r r'.
Proof.
  intros Hg. destruct (step_shape rows a) as (f & Hf & [->|(w & i & now & now' & pr & inp & req & -> & Hc & -> & ->)]).
  - exists (f r). split; [|done]. rewrite Get_fmap, Hg; [done|]. intros x. by apply moves_ID.
  - exists r. split; [|by left]. by rewrite Get_app, Hg.
Qed.

Lemma run_snoc rows l a : run rows (l ++ [a]) = step (run rows l) a.
Proof. unfold run. by rewrite foldl_app. Qed.

Lemma run_evolves rows l id r : Get id rows = Some r → ∃ r', Get id (run rows l) = Some r' ∧ evolves r r'.
Proof.
  intros Hg. induction l as [|a l IH] using rev_ind; [exists r; split; [done|by left]|].
  destruct IH as (r' & Hr' & He). rewrite run_snoc.
  destruct (step_Get _ a _ _ Hr') as (r'' & Hr'' & Hm). exists r''. split; [done|]. by eapply evolves_moves.
Qed.

(** ** Rows that go, and the references to them *)

(** What happens to the table: a handler or the sweep, or the deletion of a row
it refers to.  The keys of policies, approvers and extended requests are set to
NULL then; the requests of a user, a target or a group go with it. *)
Inductive event :=
| EHandled (a : action)
| EPolicyGone (policyID : string)
| EUserGone (userID : string)
| ETargetGone (targetID : string)
| EGroupGone (asgID : string).

Definition set_refs (policy approver extends : string) (r : Request) : Request := {|
  ID := ID r; UserID := UserID r; PolicyID := policy; GrantID := GrantID r; TargetID := TargetID r; ASGID := ASGID r; Protocol := Protocol r;
  Reason := Reason r; RequestedMinutes := RequestedMinutes r; ApprovedMinutes := ApprovedMinutes r; ExtendsRequestID := extends; Status_ := Status_ r;
  ApproverUserID := approver; DecisionNote := DecisionNote r; DecidedAt := DecidedAt r; ExpiresAt := ExpiresAt r; CreatedAt := CreatedAt r;
  UpdatedAt := UpdatedAt r |}.

(** [ON DELETE SET NULL] of one column. *)
Definition or_null (gone : string → bool) (x : string) : string := if gone x then "" else x.

(** [ON DELETE CASCADE]: the rows go, and what extended them no longer says so. *)
Definition remove_rows (gone : Request → bool) (rows : Rows) : Rows :=
  let ids := ID <$> List.filter gone rows in
  (λ r, set_refs (PolicyID r) (ApproverUserID r) (or_null (contains ids) (ExtendsRequestID r)) r) <$> List.filter (negb ∘ gone) rows.

Definition event_step (rows : Rows) (e : event) : Rows :=
  match e with
  | EHandled a => step rows a
  | EPolicyGone id => (λ r, set_refs (or_null (λ x, sql_eq x id) (PolicyID r)) (ApproverUserID r) (ExtendsRequestID r) r) <$> rows
  | EUserGone id =>
      (λ r, set_refs (PolicyID r) (or_null (λ x, sql_eq x id) (ApproverUserID r)) (ExtendsRequestID r) r)
        <$> remove_rows (λ r, sql_eq (UserID r) id) rows
  | ETargetGone id => remove_rows (λ r, sql_eq (TargetID r) id) rows
  | EGroupGone id => remove_rows (λ r, sql_eq (ASGID r) id) rows
  end.

Definition run_events (rows : Rows) (l : list event) : Rows := foldl event_step rows l.

(** The row of the request is removed by the event. *)
Definition takes (r : Request) (e : event) : Prop :=
  match e with
  | EUserGone id => UserID r = id
  | ETargetGone id => TargetID r = id
  | EGroupGone id => ASGID r = id
  | _ => False
  end.

Definition removes (e : event) : Prop := match e with EUserGone _ | ETargetGone _ | EGroupGone _ => True | _ => False end.

(** A reference is as it was, or empty for a reason. *)
Definition ref_kept (x x' : string) (why : Prop) : Prop := x' = x ∨ (x' = "" ∧ why).

(** The references of a row that is otherwise [r']. *)
Record refs_kept (l : list event) (r r' : Request) : Prop := {
  rk_policy : ref_kept (PolicyID r) (PolicyID r') (EPolicyGone (PolicyID r) ∈ l);
  rk_extends : ref_kept (ExtendsRequestID r) (ExtendsRequestID r') (∃ e, e ∈ l ∧ removes e);
}.

(** The question a request asks, its references apart. *)
Definition same_question (r r' : Request) : Prop :=
  ID r' = ID r ∧ UserID r' = UserID r ∧ GrantID r' = GrantID r ∧ TargetID r' = TargetID r ∧ ASGID r' = ASGID r ∧ Protocol r' = Protocol r
  ∧ Reason r' = Reason r ∧ RequestedMinutes r' = RequestedMinutes r ∧ CreatedAt r' = CreatedAt r.

(** The terms of a decision; its approver may have been deleted since. *)
Definition terms_kept (l : list event) (r r' : Request) : Prop :=
  ApprovedMinutes r' = ApprovedMinutes r ∧ DecidedAt r' = DecidedAt r ∧ ExpiresAt r' = ExpiresAt r
  ∧ ref_kept (ApproverUserID r) (ApproverUserID r') (EUserGone (ApproverUserID r) ∈ l).

(** What a history leaves of a request that is still there. *)
Record grows (l : list event) (r r' : Request) : Prop := {
  gr_question : same_question r r';
  gr_refs : refs_kept l r r';
  gr_status : Status_ r' = Status_ r ∨ later (Status_ r) (Status_ r') = true;
  (** A request that is not moved is not touched. *)
  gr_still : Status_ r' = Status_ r → terms_kept l r r' ∧ DecisionNote r' = DecisionNote r ∧ UpdatedAt r' = UpdatedAt r;
  gr_terms : Status_ r = StatusApproved → terms_kept l r r';
}.

Lemma ref_kept_refl x P : ref_kept x x P.
Proof. by left. Qed.

Lemma ref_kept_trans x x' x'' (P Q : Prop) (R : Prop) :
  ref_kept x x' P → ref_kept x' x'' Q → (P → R) → (x' = x → Q → R) → ref_kept x x'' R.
Proof. unfold ref_kept. intros [->|[-> HP]] [->|[-> HQ]] H1 H2; auto. Qed.

Lemma or_null_kept gone x (P : Prop) : (gone x = true → P) → ref_kept x (or_null gone x) P.
Proof. unfold or_null, ref_kept. destruct (gone x); auto. Qed.

Lemma sql_eq_true x y : sql_eq x y = true → x = y.
Proof. unfold sql_eq. intros H. by bool_simpl. Qed.

(** One event, for a row that it does not take. *)
Inductive one_event (e : event) (r r' : Request) : Prop :=
| OneMove a : e = EHandled a → moves r r' → one_event e r r'
| OneRefs p a x : r' = set_refs p a x r → ref_kept (PolicyID r) p (e = EPolicyGone (PolicyID r)) →
    ref_kept (ApproverUserID r) a (e = EUserGone (ApproverUserID r)) → ref_kept (ExtendsRequestID r) x (removes e) → one_event e r r'.

Lemma Get_remove gone id rows r : Get id rows = Some r → gone r = false →
  ∃ x, Get id (remove_rows gone rows) = Some (set_refs (PolicyID r) (ApproverUserID r) x r) ∧ ref_kept (ExtendsRequestID r) x True.
Proof.
  intros Hg Hn. unfold remove_rows. rewrite Get_fmap by done.
  assert (Get id (List.filter (negb ∘ gone) rows) = Some r) as ->.
  { unfold Get in *. induction rows as [|y rows IH]; [done|]. simpl in *. destruct (bool_decide (ID y = id)) eqn:E.
    - simplify_eq. rewrite Hn. simpl. by rewrite E.
    - destruct (gone y); simpl; [by apply IH|]. rewrite E. by apply IH. }
  eexists. split; [done|]. by apply or_null_kept.
Qed.

Lemma event_Get rows e id r :
  Get id rows = Some r → takes r e ∨ ∃ r', Get id (event_step rows e) = Some r' ∧ one_event e r r'.
Proof.
  intros Hg. destruct e as [a|p|u|t|g]; cbn [event_step takes].
  - right. destruct (step_Get rows a id r Hg) as (r' & E & Hm). exists r'. split; [done|by eapply OneMove].
  - right. rewrite Get_fmap, Hg by done. eexists. split; [done|]. eapply OneRefs; [done| |apply ref_kept_refl|apply ref_kept_refl].
    apply or_null_kept. intros E%sql_eq_true. by rewrite E.
  - destruct (sql_eq (UserID r) u) eqn:E; [left; by apply sql_eq_true|right]. destruct (Get_remove (λ r, sql_eq (UserID r) u) id rows r Hg E) as (x & Er & Hx).
    rewrite Get_fmap, Er by done. eexists. split; [done|]. cbn. eapply (OneRefs _ _ _ _ _ x); [done|apply ref_kept_refl| |by destruct Hx as [->|[-> _]]; [left|right]].
    apply or_null_kept. intros Ea%sql_eq_true. cbn in Ea. by rewrite Ea.
  - destruct (sql_eq (TargetID r) t) eqn:E; [left; by apply sql_eq_true|right]. destruct (Get_remove (λ r, sql_eq (TargetID r) t) id rows r Hg E) as (x & Er & Hx).
    eexists. split; [exact Er|]. eapply OneRefs; [done|apply ref_kept_refl..|]. by destruct Hx as [->|[-> _]]; [left|right].
  - destruct (sql_eq (ASGID r) g) eqn:E; [left; by apply sql_eq_true|right]. destruct (Get_remove (λ r, sql_eq (ASGID r) g) id rows r Hg E) as (x & Er & Hx).
    eexists. split; [exact Er|]. eapply OneRefs; [done|apply ref_kept_refl..|]. by destruct Hx as [->|[-> _]]; [left|right].
Qed.

Lemma terms_kept_refl l r : terms_kept l r r.
Proof. by split_and!; [..|left]. Qed.

Lemma grows_refl r : grows [] r r.
Proof. split; [done|by split; left|by left| |]; intros; [split_and!; [apply terms_kept_refl|done..]|apply terms_kept_refl]. Qed.

Lemma ref_kept_mono x x' (P Q : Prop) : (P → Q) → ref_kept x x' P → ref_kept x x' Q.
Proof. intros H [->|[-> ?]]; [by left|right; auto]. Qed.

Lemma terms_kept_mono l l' r r' : l ⊆ l' → terms_kept l r r' → terms_kept l' r r'.
Proof. intros Hl (H1 & H2 & H3 & H4). split_and!; [done..|]. eapply ref_kept_mono; [|exact H4]. apply Hl. Qed.

Lemma grows_mono l l' r r' : l ⊆ l' → grows l r r' → grows l' r r'.
Proof.
  intros Hl [H1 [H2 H3] H4 H5 H6]. split; [done| |done| |].
  - split; [eapply ref_kept_mono; [|exact H2]; apply Hl|]. eapply ref_kept_mono; [|exact H3]. intros (e & He & ?). exists e. split; [by apply Hl|done].
  - intros E. destruct (H5 E) as (? & ? & ?). split_and!; [by eapply terms_kept_mono|done..].
  - intros E. eapply terms_kept_mono; [exact Hl|by apply H6].
Qed.

Lemma next_status_strict s s' : next_status s s' = true → s' ≠ s.
Proof. by destruct s, s'. Qed.

Lemma later_next s s' s'' : (s' = s ∨ later s s' = true) → next_status s' s'' = true → later s s'' = true.
Proof. intros [->|H] Hn; [unfold later; by rewrite Hn|]. by destruct s, s', s''. Qed.

Lemma later_strict s s' : later s s' = true → s' ≠ s.
Proof. by destruct s, s'. Qed.

Lemma grows_moves l a r r' r'' : grows l r r' → moves r' r'' → grows (l ++ [EHandled a]) r r''.
Proof.
  intros Hg Hm. apply (grows_mono l (l ++ [EHandled a])) in Hg; [|set_solver]. destruct Hm as [->|(Ha & Hn & Ht & _)]; [done|].
  destruct Hg as [H1 [H2 H3] H4 H5 H6]. pose proof (later_next _ _ _ H4 Hn) as Hl. unfold same_ask in Ha.
  destruct Ha as (E1 & E2 & E3 & E4 & E5 & E6 & E7 & E8 & E9 & E10 & E11). split.
  - unfold same_question in *. intuition congruence.
  - split; [by rewrite E3|by rewrite E10].
  - by right.
  - intros E. by apply later_strict in Hl.
  - intros E. specialize (H6 E). assert (Status_ r' = StatusApproved) as E'.
    { rewrite E in *. destruct H4 as [->|H4]; [done|]. by destruct (Status_ r'), (Status_ r''). }
    specialize (Ht E'). unfold terms_kept, same_terms in *. destruct Ht as (-> & -> & -> & ->). done.
Qed.

Lemma grows_refs l e r r' p a x : grows l r r' → ref_kept (PolicyID r') p (e = EPolicyGone (PolicyID r')) →
  ref_kept (ApproverUserID r') a (e = EUserGone (ApproverUserID r')) → ref_kept (ExtendsRequestID r') x (removes e) →
  grows (l ++ [e]) r (set_refs p a x r').
Proof.
  intros Hg Hp Ha Hx. apply (grows_mono l (l ++ [e])) in Hg; [|set_solver]. destruct Hg as [H1 [H2 H3] H4 H5 H6].
  assert (e ∈ l ++ [e]) as He by set_solver.
  assert (∀ r0, terms_kept (l ++ [e]) r0 r' → terms_kept (l ++ [e]) r0 (set_refs p a x r')) as Hterms.
  { intros r0 (? & ? & ? & Hr). split_and!; [done..|]. eapply ref_kept_trans; [exact Hr|exact Ha|done|]. intros E ->. by rewrite <-E. }
  split; [done| |done| |].
  - split; [eapply ref_kept_trans; [exact H2|exact Hp|done|]; intros E ->; by rewrite <-E|].
    eapply ref_kept_trans; [exact H3|exact Hx|done|]. intros _ Hr. by exists e.
  - intros E. destruct (H5 E) as (? & ? & ?). split_and!; [by apply Hterms|done..].
  - intros E. by apply Hterms, H6.
Qed.

Lemma run_events_grow rows l id r : Get id rows = Some r →
  (∃ e, e ∈ l ∧ takes r e) ∨ ∃ r', Get id (run_events rows l) = Some r' ∧ grows l r r'.
Proof.
  intros Hg. induction l as [|e l IH] using rev_ind; [right; exists r; split; [done|apply grows_refl]|].
  destruct IH as [(e' & He & Ht)|(r' & Hr & Hgr)]; [left; exists e'; split; [set_solver|done]|].
  unfold run_events. rewrite foldl_app. cbn [foldl]. destruct (event_Get _ e id r' Hr) as [Ht|(r'' & Hr'' & [a -> Hm|p a x -> Hp Ha Hx])].
  - left. exists e. split; [set_solver|]. destruct (gr_question _ _ _ Hgr) as (_ & Hu & _ & Htg & Hag & _). destruct e; cbn in *; congruence.
  - right. exists r''. split; [done|by eapply grows_moves].
  - right. eexists. split; [exact Hr''|by apply grows_refs].
Qed.

(** C4. The life of a request, over any history of creates, decisions,
revocations, closings and sweeps, and of deleted policies, users, targets and
groups with what the foreign keys do then.  The row is there, unless its user,
target or group was deleted.  Its question never changes, but that a deleted
policy, and a deleted request it extends, are no longer named.  Its status only
moves forward, pending to approved, denied or revoked and approved to expired or
revoked; while it does not move, and so for good once it is denied, expired or
revoked, nothing of the row changes but a deleted approver; and an approved
grant's terms (minutes, decision, expiry) are never rewritten, nor its approver
while that account exists. *)
Theorem lifecycle rows l id r :
  Get id rows = Some r →
  (∃ e, e ∈ l ∧ takes r e) ∨ ∃ r', Get id (run_events rows l) = Some r' ∧ grows l r r'.
Proof. apply run_events_grow. Qed.

(** * The table's invariant *)

Record Inv (rows : Rows) : Prop := {
  inv_wf : WF rows;
  inv_minutes : ∀ r, r ∈ rows → 1 ≤ RequestedMinutes r;
  inv_expiry : ∀ r, r ∈ rows → Status_ r = StatusApproved → is_Some (ExpiresAt r);
  inv_extends : ∀ r, r ∈ rows → ExtendsRequestID r ≠ "" →
    ∃ prev, prev ∈ rows ∧ ID prev = ExtendsRequestID r ∧ UserID prev = UserID r ∧ Protocol prev = Protocol r
      ∧ on_target prev (TargetID r) (ASGID r) = true;
}.

Lemma create_check_ok w now pr i rows req :
  create_check w now pr i rows = Ok req ↔
  ∃ ref pols e, check_input i = Ok tt ∧ subject w (inTargetID i) (inASGID i) = Ok ref
    ∧ ForUser w (pUserID pr) = Ok pols ∧ eligible pols ref (inProtocol i) = Some e ∧ inMinutes i ≤ maxMinutes e
    ∧ check_open (Open (pUserID pr) (tID ref) (tASGID ref) (inProtocol i) now rows) (inExtends i) = Ok tt
    ∧ req = new_request (pUserID pr) e ref i.
Proof.
  unfold create_check, policies_of. rewrite rbind_Ok. setoid_rewrite rbind_Ok. setoid_rewrite rbind_Ok. split.
  - intros ([] & Hi & ref & Hs & pols & Hp & H). destruct (ForUser w (pUserID pr)) as [ps|]; [|done]. simplify_eq.
    destruct (eligible pols ref (inProtocol i)) as [e|] eqn:He; [|done].
    rewrite rbind_Ok in H. destruct H as ([] & Hm & H). rewrite rbind_Ok in H. destruct H as ([] & Ho & [= <-]).
    apply refuse_if_ok, Z.ltb_ge in Hm. by exists ref, pols, e.
  - intros (ref & pols & e & Hi & Hs & Hp & He & Hm & Ho & ->). exists tt. split; [done|]. exists ref. split; [done|].
    exists pols. rewrite Hp, He. split; [done|]. rewrite rbind_Ok. exists tt. split; [by apply refuse_if_ok, Z.ltb_ge|].
    by rewrite Ho.
Qed.

Lemma check_input_minutes i : check_input i = Ok tt → 1 ≤ inMinutes i.
Proof.
  unfold check_input. rewrite !rbind_Ok. intros (_ & _ & H). rewrite rbind_Ok in H. destruct H as (_ & _ & H).
  by apply refuse_if_ok, Z.ltb_ge in H.
Qed.

Lemma Open_some u t a p now rows o :
  Open u t a p now rows = Some o →
  o ∈ rows ∧ UserID o = u ∧ Protocol o = p ∧ on_target o t a = true
  ∧ (Status_ o = StatusPending ∨ Status_ o = StatusApproved ∧ expires_after o now = true).
Proof.
  unfold Open. intros H%head_elem%order_by_elem%elem_of_lfilter. destruct H as [? H]. unfold is_open in H.
  apply andb_true_iff in H as [H Hs]. bool_simpl. split_and!; try done. destruct Hs as [Hs|Hs]; bool_simpl; auto.
Qed.

Lemma Open_none u t a p now rows :
  Open u t a p now rows = None ↔ ∀ r, r ∈ rows → is_open u t a p now r = false.
Proof.
  unfold Open. destruct (order_by _ _) as [|o l] eqn:E; simpl.
  - split; [|done]. intros _ r Hr. destruct (is_open u t a p now r) eqn:Ho; [|done]. exfalso.
    apply order_by_nil in E. apply (not_elem_of_nil r). rewrite <-E. by apply elem_of_lfilter.
  - split; [done|]. intros H. assert (o ∈ List.filter (is_open u t a p now) rows) as Hin.
    { apply (order_by_elem newest_first). rewrite E. left. }
    apply elem_of_lfilter in Hin as [Hin Ho]. by rewrite H in Ho.
Qed.

Lemma check_open_ok o ext :
  check_open o ext = Ok tt ↔
  (o = None ∧ ext = "") ∨ ∃ r, o = Some r ∧ Status_ r ≠ StatusPending ∧ ext ≠ "" ∧ ID r = ext.
Proof.
  unfold check_open. destruct o as [r|]; [|destruct (decide (ext = "")); simplify_option_eq; naive_solver].
  repeat case_bool_decide; simpl; naive_solver.
Qed.

(** What a move keeps of the invariant's row facts. *)
Lemma moves_ask r r' : moves r r' → same_ask r r'.
Proof. intros [->|[? _]]; done. Qed.

Lemma on_target_same prev prev' t a : same_ask prev prev' → on_target prev' t a = on_target prev t a.
Proof. unfold same_ask, on_target. intros (_ & _ & _ & _ & -> & -> & _). done. Qed.

Lemma fmap_ids f (rows : Rows) : (∀ r, moves r (f r)) → ID <$> (f <$> rows) = ID <$> rows.
Proof. intros Hf. rewrite <-list_fmap_compose. apply list_fmap_ext. intros i r _. by apply moves_ID. Qed.

Lemma Inv_fmap f (rows : Rows) : (∀ r, moves r (f r)) → Inv rows → Inv (f <$> rows).
Proof.
  intros Hf HI. split; [split|..].
  - rewrite fmap_ids by done. apply (wf_ids _ (inv_wf _ HI)).
  - intros r' e (r & -> & Hr)%list_elem_of_fmap He. pose proof (wf_aligned _ (inv_wf _ HI) r) as Ha.
    destruct (Hf r) as [E|(_ & _ & _ & Hn)]; [rewrite E in He; eauto|]. unfold new_expiry in Hn.
    case_bool_decide; [destruct Hn as [x Hx]; rewrite He in Hx; simplify_eq; apply TimeArg_idem|].
    destruct Hn as [Hn|Hn]; rewrite He in Hn; [eauto|done].
  - intros r' (r & -> & Hr)%list_elem_of_fmap. destruct (moves_ask _ _ (Hf r)) as (_&_&_&_&_&_&_&_& -> &_).
    by apply (inv_minutes _ HI).
  - intros r' (r & -> & Hr)%list_elem_of_fmap Hs. destruct (Hf r) as [E|(_ & _ & _ & Hn)].
    + rewrite E in *. by apply (inv_expiry _ HI).
    + unfold new_expiry in Hn. rewrite bool_decide_eq_true_2 in Hn by done. destruct Hn as [e ->]. eauto.
  - intros r' (r & -> & Hr)%list_elem_of_fmap. destruct (moves_ask _ _ (Hf r)) as (_& -> &_&_& -> & -> & -> &_&_& -> &_).
    intros Hx. destruct (inv_extends _ HI r Hr Hx) as (prev & Hp & Hi & Hu & Hpr & Ho).
    exists (f prev). split; [by apply list_elem_of_fmap_2|]. rewrite (on_target_same prev) by apply moves_ask, Hf.
    destruct (moves_ask _ _ (Hf prev)) as (-> & -> & _ & _ & _ & _ & -> & _). done.
Qed.

Lemma Inv_create w id now now' pr i rows req :
  id ∉ ID <$> rows → create_check w now pr i rows = Ok req → Inv rows → Inv (rows ++ [pending_row id now' req]).
Proof.
  intros Hid (ref & pols & e & Hi & Hs & Hp & He & Hm & Ho & ->)%create_check_ok HI. split; [split|..].
  - rewrite fmap_app, NoDup_app. simpl. split_and!; [apply (wf_ids _ (inv_wf _ HI))| |apply NoDup_singleton].
    intros x Hx ->%list_elem_of_singleton. done.
  - intros r x [Hr| ->%list_elem_of_singleton]%elem_of_app; [by apply (wf_aligned _ (inv_wf _ HI))|done].
  - intros r [Hr| ->%list_elem_of_singleton]%elem_of_app; [by apply (inv_minutes _ HI)|]. simpl.
    by apply check_input_minutes.
  - intros r [Hr| ->%list_elem_of_singleton]%elem_of_app; [by apply (inv_expiry _ HI)|done].
  - intros r [Hr| ->%list_elem_of_singleton]%elem_of_app Hx.
    + destruct (inv_extends _ HI r Hr Hx) as (prev & ? & ?). exists prev. split; [|done]. apply elem_of_app. by left.
    + simpl in Hx |- *. apply check_open_ok in Ho as [[_ ?]|(o & Hopen & _ & _ & <-)]; [done|].
      apply Open_some in Hopen as (Hin & <- & <- & Ht & _). exists o. split; [apply elem_of_app; by left|done].
Qed.

Lemma step_Inv rows a :
  (∀ w id now now' pr i, a = ACreate w id now now' pr i → id ∉ ID <$> rows) → Inv rows → Inv (step rows a).
Proof.
  intros Hid HI. destruct (step_shape rows a) as (f & Hf & [->|(w & i & now & now' & pr & inp & req & -> & Hc & -> & ->)]).
  - by apply Inv_fmap.
  - eapply Inv_create; eauto.
Qed.

Lemma run_ids l r : r ∈ run [] l → ID r ∈ created_ids l.
Proof.
  revert r. induction l as [|a l IH] using rev_ind; intros r; [by intros ?%not_elem_of_nil|].
  rewrite run_snoc. unfold created_ids in *. rewrite omap_app, elem_of_app.
  destruct (step_shape (run [] l) a) as (f & Hf & [->|(w & i & now & now' & pr & inp & req & -> & Hc & -> & ->)]).
  - intros (x & -> & Hx)%list_elem_of_fmap. left. rewrite (moves_ID _ _ (Hf x)). auto.
  - intros [Hr| ->%list_elem_of_singleton]%elem_of_app; [left; auto|right; simpl; left].
Qed.

Lemma run_Inv l : NoDup (created_ids l) → Inv (run [] l).
Proof.
  induction l as [|a l IH] using rev_ind; intros Hn.
  { split; [split; [constructor|by intros r e ?%not_elem_of_nil]|by intros r ?%not_elem_of_nil..]. }
  rewrite run_snoc. unfold created_ids in Hn. rewrite omap_app, NoDup_app in Hn. destruct Hn as (Hl & Hd & _).
  apply step_Inv; [|by apply IH]. intros w id now now' pr i -> (r & -> & Hr)%list_elem_of_fmap.
  apply (Hd (ID r)); [by apply run_ids|]. simpl. left.
Qed.

(** * Where grants come from *)

(** An approval as the handler admits it, and the row it leaves. *)
Record Approval (rows : Rows) (w : World) (now now' : time) (pr : Principal) (d : decisionInput)
    (cur r : Request) (minutes : Z) : Prop := {
  ap_get : cur ∈ rows;
  ap_pending : Status_ cur = StatusPending;
  ap_stepped : steppedUp w pr = Ok tt;
  ap_eligible : ∃ ref pols e, subject w (TargetID cur) (ASGID cur) = Ok ref
    ∧ ForUser w (UserID cur) = Ok pols ∧ eligible pols ref (Protocol cur) = Some e ∧ minutes ≤ maxMinutes e;
  ap_minutes : granted_minutes cur d = Ok minutes;
  ap_row : r = decided_row (pUserID pr) StatusApproved (dNote d)
             (Some (grant_base cur now rows + minutes * Minute)) minutes now' cur;
}.

Lemma approve_check_ok w pr cur d minutes :
  approve_check w pr cur d = Ok minutes ↔
  Status_ cur = StatusPending ∧ steppedUp w pr = Ok tt
  ∧ (∃ ref pols e, subject w (TargetID cur) (ASGID cur) = Ok ref
      ∧ ForUser w (UserID cur) = Ok pols ∧ eligible pols ref (Protocol cur) = Some e ∧ minutes ≤ maxMinutes e)
  ∧ granted_minutes cur d = Ok minutes.
Proof.
  unfold approve_check, policies_of. rewrite rbind_Ok. setoid_rewrite rbind_Ok.
  setoid_rewrite rbind_Ok. setoid_rewrite rbind_Ok. split.
  - intros ([] & Hp & [] & Hs & ref & Hr & pols & Hf & H). apply refuse_if_ok in Hp. bool_simpl.
    destruct (ForUser w (UserID cur)) as [ps|]; [|done]. simplify_eq.
    destruct (eligible pols ref (Protocol cur)) as [e|] eqn:He; [|done].
    rewrite rbind_Ok in H. destruct H as (m & Hm & H). rewrite rbind_Ok in H. destruct H as ([] & Hle & [= ->]).
    apply refuse_if_ok, Z.ltb_ge in Hle. split_and!; try done. by exists ref, pols, e.
  - intros (Hp & Hs & (ref & pols & e & Hr & Hf & He & Hle) & Hm). exists tt. rewrite Hp. split; [done|].
    exists tt. split; [done|]. exists ref. split; [done|]. exists pols. rewrite Hf, He. split; [done|].
    rewrite Hm. simpl. rewrite rbind_Ok. exists tt. split; [by apply refuse_if_ok, Z.ltb_ge|done].
Qed.

(** Only [approve] makes a row approved. *)
Lemma step_approved rows a r :
  NoDup (ID <$> rows) → r ∈ step rows a → Status_ r = StatusApproved →
  r ∈ rows ∨ ∃ w now now' pr d cur minutes, a = AApprove w now now' pr (ID r) d
    ∧ Approval rows w now now' pr d cur r minutes.
Proof.
  intros Hn. destruct a as [w id now now' pr i|w now now' pr id d|now pr id note|now id note|now t g note|now]; simpl.
  - unfold create. destruct (create_check w now pr i rows); simpl; [|auto].
    intros [?| ->%list_elem_of_singleton]%elem_of_app Hs; [by left|done].
  - unfold approve. destruct (Get id rows) as [cur|] eqn:Hg; [|auto].
    destruct (approve_check w pr cur d) as [m|] eqn:Hc; [|auto].
    apply Get_spec in Hg as [Hin <-]; [|done]. apply approve_check_ok in Hc as (Hp & Hs & He & Hm).
    rewrite answer_of_rows, Decide_rows. intros (x & -> & Hx)%list_elem_of_fmap.
    destruct (_ && _) eqn:E; [|by left]. bool_simpl. intros _. right.
    assert (x = cur) as ->.
    { eapply row_unique; eauto. }
    by exists w, now, now', pr, d, cur, m.
  - rewrite Decide_rows. intros (x & -> & Hx)%list_elem_of_fmap. destruct (_ && _); [done|by left].
  - rewrite Revoke_rows. intros (x & -> & Hx)%list_elem_of_fmap. destruct (_ && _); [done|by left].
  - intros (x & -> & Hx)%list_elem_of_fmap. destruct (_ && _); [done|by left].
  - rewrite Sweep_rows. intros (x & -> & Hx)%list_elem_of_fmap. destruct (is_due now x); [done|by left].
Qed.

Lemma granted_minutes_pos cur d m : 1 ≤ RequestedMinutes cur → granted_minutes cur d = Ok m → 1 ≤ m.
Proof. unfold granted_minutes. repeat case_match; intros; simplify_eq; lia. Qed.

(** The base of an approval is now, or the end of the live grant it extends. *)
Lemma grant_base_cases rows cur now :
  Inv rows → cur ∈ rows →
  grant_base cur now rows = now ∨
  ∃ prev, prev ∈ rows ∧ ID prev = ExtendsRequestID cur ∧ Active prev now = true
    ∧ ExpiresAt prev = Some (grant_base cur now rows)
    ∧ UserID prev = UserID cur ∧ Protocol prev = Protocol cur ∧ on_target prev (TargetID cur) (ASGID cur) = true.
Proof.
  intros HI Hcur. unfold grant_base. case_bool_decide as Hx; simpl; [by left|].
  destruct (Get (ExtendsRequestID cur) rows) as [prev|] eqn:Hg; [|by left].
  destruct (Active prev now) eqn:Ha; [|by left]. pose proof (wf_ids _ (inv_wf _ HI)) as Hn.
  apply Get_spec in Hg as [Hin Hid]; [|done]. right. exists prev.
  destruct (inv_extends _ HI cur Hcur Hx) as (prev' & Hp' & Hid' & Hu & Hpr & Ho).
  assert (prev' = prev) as -> by (eapply row_unique; eauto; congruence).
  split_and!; try done. unfold Active in Ha. bool_simpl. by destruct (ExpiresAt prev).
Qed.

(** C2. Every live grant was earned.  In any history from an empty table in
which fresh ids are drawn, a request that stands approved was approved by an
approver who passed the step-up check, at a moment when the requester was
eligible under the policies and inventory as they then stood, for at least one
minute and at most the cap then in force; and it runs for exactly those minutes
from the decision, or from the end of the requester's own live grant on the same
target and protocol that it extends. *)
Theorem grants_earned l r :
  NoDup (created_ids l) → r ∈ run [] l → Status_ r = StatusApproved →
  ∃ l1 l2 w now now' pr d base,
    l = l1 ++ AApprove w now now' pr (ID r) d :: l2
    ∧ ApproverUserID r = pUserID pr ∧ steppedUp w pr = Ok tt
    ∧ (∃ ref pols e, subject w (TargetID r) (ASGID r) = Ok ref ∧ ForUser w (UserID r) = Ok pols
         ∧ eligible pols ref (Protocol r) = Some e ∧ 1 ≤ ApprovedMinutes r ≤ maxMinutes e)
    ∧ ExpiresAt r = Some (TimeArg (base + ApprovedMinutes r * Minute))
    ∧ (base = now ∨ ∃ prev, prev ∈ run [] l1 ∧ ID prev = ExtendsRequestID r ∧ Active prev now = true
         ∧ ExpiresAt prev = Some base ∧ UserID prev = UserID r ∧ Protocol prev = Protocol r
         ∧ on_target prev (TargetID r) (ASGID r) = true).
Proof.
  induction l as [|a l IH] using rev_ind; intros Hn Hr Hs; [by apply not_elem_of_nil in Hr|].
  pose proof Hn as Hn'. unfold created_ids in Hn'. rewrite omap_app, NoDup_app in Hn'. destruct Hn' as (Hl & _).
  pose proof (run_Inv l Hl) as HI. rewrite run_snoc in Hr.
  destruct (step_approved _ _ _ (wf_ids _ (inv_wf _ HI)) Hr Hs) as [Hr'|(w & now & now' & pr & d & cur & m & -> & A)].
  - destruct (IH Hl Hr' Hs) as (l1 & l2 & w & now & now' & pr & d & base & -> & H).
    exists l1, (l2 ++ [a]), w, now, now', pr, d, base. split; [by rewrite <-app_assoc|done].
  - destruct A as [Hc Hp Hst (ref & pols & e & Hsub & Hf & He & Hle) Hm ->].
    exists l, [], w, now, now', pr, d, (grant_base cur now (run [] l)). simpl.
    pose proof (granted_minutes_pos _ _ _ (inv_minutes _ HI _ Hc) Hm) as Hpos.
    assert ((0 <? m) = true) as -> by lia. split_and!; try done; [by exists ref, pols, e|].
    by apply grant_base_cases.
Qed.

(** * What the gate asks of the table *)

(** The gate's question is the definition of an active grant: over a table
any history leaves, it finds a grant exactly when some row of the user for the
target or group and protocol is approved and now is before its expiry, to the
nanosecond although the store keeps microseconds. *)
Theorem has_active_grant_iff l userID targetID asgID protocol now :
  NoDup (created_ids l) →
  HasActiveGrant userID targetID asgID protocol now (run [] l) = true ↔
  ∃ r, r ∈ run [] l ∧ UserID r = userID ∧ Protocol r = protocol ∧ on_target r targetID asgID = true
    ∧ Active r now = true.
Proof.
  intros Hn. pose proof (wf_aligned _ (inv_wf _ (run_Inv l Hn))) as Hal. unfold HasActiveGrant, Active.
  rewrite existsb_true. apply exist_proper. intros r.
  assert (r ∈ run [] l → expires_after r now = match ExpiresAt r with Some e => Before now e | None => false end) as He.
  { intros Hr. unfold expires_after, Before. specialize (Hal r). destruct (ExpiresAt r) as [e|]; [|done].
    pose proof (TimeArg_lt now e (Hal e Hr eq_refl)). apply Bool.eq_iff_eq_true.
    rewrite Z.ltb_lt, bool_decide_eq_true. done. }
  rewrite !andb_true_iff, !bool_decide_eq_true. split; intros (Hr & H); rewrite He in * by done; naive_solver.
Qed.

(** * Taking access away *)

Lemma terminal_stays rows l id r :
  Get id rows = Some r → Status_ r ≠ StatusPending → Status_ r ≠ StatusApproved → Get id (run rows l) = Some r.
Proof.
  intros Hg Hp Ha. destruct (run_evolves rows l id r Hg) as (r' & Hr' & [->|(_ & Hl & _)]); [done|].
  by destruct (Status_ r).
Qed.

(** Revocation is final: once revoke has answered with the request, no
history brings that grant back, and it is active at no instant. *)
Theorem revoke_final rows now id note r :
  NoDup (ID <$> rows) → (revoke now id note rows).1 = OK r →
  ∀ l now', Get id (run (revoke now id note rows).2 l) = Some r ∧ Active r now' = false.
Proof.
  intros Hn. unfold revoke. rewrite answer_of_rows. unfold answer_of, Revoke, update_where. simpl.
  rewrite filter_length_0. destruct (existsb _ rows) eqn:E; simpl; [|by destruct (missOrState _ _)].
  destruct (Get id _) as [r0|] eqn:Hg; simpl; [|done]. intros [= <-] l now'.
  assert (Status_ r0 = StatusRevoked) as Hs.
  { rewrite Get_fmap in Hg by (intros x; by case_match). destruct (Get id rows) as [x|] eqn:Hx; [|done].
    simplify_eq/=. apply existsb_true in E as (y & Hy & Hc). bool_simpl.
    apply Get_spec in Hx as [Hx <-]; [|done]. assert (y = x) as -> by (by eapply row_unique).
    rewrite (bool_decide_eq_true_2 (ID x = ID x)), bool_decide_eq_true_2 by done. done. }
  split; [apply terminal_stays; congruence|]. unfold Active. by rewrite Hs.
Qed.

(** * One open request at a time *)

Definition created_stamps (l : list action) : list time :=
  omap (λ a, match a with ACreate _ _ _ now' _ _ => Some (TimeArg now') | _ => None end) l.

Definition same_slot (r r' : Request) : Prop :=
  UserID r = UserID r' ∧ Protocol r = Protocol r' ∧ on_target r (TargetID r') (ASGID r') = true.

(** A pending request is newer than anything else in hand on its slot. *)
Definition Slots (rows : Rows) : Prop := ∀ p r, p ∈ rows → r ∈ rows → Status_ p = StatusPending → in_hand r = true →
  same_slot r p → r = p ∨ CreatedAt r < CreatedAt p.

Lemma sql_eq_spec a b : sql_eq a b = true ↔ a = b ∧ a ≠ "".
Proof. unfold sql_eq. rewrite !andb_true_iff, !negb_true_iff, !bool_decide_eq_false, bool_decide_eq_true. naive_solver. Qed.

Lemma on_target_spec r t a : on_target r t a = true ↔ (TargetID r = t ∧ t ≠ "") ∨ (ASGID r = a ∧ a ≠ "").
Proof. unfold on_target. rewrite orb_true_iff, !sql_eq_spec. naive_solver. Qed.

Lemma same_slot_sym r r' : same_slot r r' → same_slot r' r.
Proof. unfold same_slot. rewrite !on_target_spec. intros (-> & -> & [[-> ?]|[-> ?]]); auto. Qed.

Lemma subject_one w t a ref : subject w t a = Ok ref → tID ref = "" ∨ tASGID ref = "".
Proof. unfold subject. repeat case_match; intros; simplify_eq; auto. Qed.

(** The head of an ordering by creation is the newest. *)
Lemma newest_head l o : head (order_by newest_first l) = Some o → ∀ r, r ∈ l → CreatedAt r ≤ CreatedAt o.
Proof.
  assert (∀ l, Sorted (λ a b, CreatedAt b ≤ CreatedAt a) (order_by newest_first l)) as Hs.
  { clear. induction l as [|r l IH]; simpl; [constructor|].
    induction IH as [|b l' Hl IH' Hb]; simpl; [repeat constructor|]. unfold newest_first at 1.
    destruct (Z.ltb_spec (CreatedAt r) (CreatedAt b)); [|repeat (constructor; try done; try lia)].
    constructor; [done|]. destruct l' as [|c l']; simpl; [constructor; lia|].
    inversion Hb; subst. unfold newest_first. case_match; constructor; lia. }
  specialize (Hs l). intros Ho r Hr. rewrite <-(order_by_elem newest_first) in Hr.
  destruct (order_by newest_first l) as [|x l']; [done|]. injection Ho as ->.
  apply Sorted_StronglySorted in Hs; [|intros ???; lia]. apply StronglySorted_inv in Hs as [_ Hs].
  rewrite Forall_forall in Hs. apply elem_of_cons in Hr as [->|Hr]; [lia|]. by apply Hs.
Qed.

Lemma moves_back r r' :
  moves r r' → (Status_ r' = StatusPending → r' = r) ∧ (in_hand r' = true → in_hand r = true) ∧ same_ask r r'.
Proof.
  intros [->|(? & Hn & _)]; [done|]. unfold in_hand. split_and!; [|..|done].
  - intros E. rewrite E in Hn. by destruct (Status_ r).
  - by destruct (Status_ r), (Status_ r').
Qed.

Lemma Slots_fmap f (rows : Rows) : (∀ r, moves r (f r)) → Slots rows → Slots (f <$> rows).
Proof.
  intros Hf HS p' r' (p & -> & Hp)%list_elem_of_fmap (r & -> & Hr)%list_elem_of_fmap Hpe Hin Hsl.
  destruct (moves_back _ _ (Hf p)) as (Hpe' & _), (moves_back _ _ (Hf r)) as (_ & Hin' & Ha).
  specialize (Hpe' Hpe). rewrite Hpe' in *. unfold same_slot in Hsl. rewrite (on_target_same r _ _ _ Ha) in Hsl.
  destruct Ha as (_ & Hu & _ & _ & _ & _ & Hpr & _ & _ & _ & Hc). rewrite Hu, Hpr in Hsl.
  destruct (HS p r Hp Hr Hpe (Hin' Hin) Hsl) as [->|Hlt]; [by left|right; by rewrite Hc].
Qed.

Lemma create_slot_free w now pr i rows req p :
  Slots rows → create_check w now pr i rows = Ok req → p ∈ rows → Status_ p = StatusPending →
  same_slot p req → False.
Proof.
  intros HS (ref & pols & e & Hi & Hs & Hp & He & Hm & Ho & ->)%create_check_ok Hin Hpe (Hu & Hpr & Ht). simpl in *.
  assert (is_open (pUserID pr) (tID ref) (tASGID ref) (inProtocol i) now p = true) as Hop.
  { unfold is_open. rewrite Ht, Hu, Hpr, Hpe. by rewrite !bool_decide_eq_true_2 by done. }
  apply check_open_ok in Ho as [[Ho _]|(o & Ho & Hne & _ & _)].
  - rewrite Open_none in Ho. rewrite Ho in Hop; done.
  - pose proof (newest_head _ _ Ho p) as Hle. rewrite elem_of_lfilter in Hle. specialize (Hle (conj Hin Hop)).
    apply Open_some in Ho as (Hin' & Hu' & Hpr' & Ht' & [?|[Hst _]]); [done|].
    assert (in_hand o = true) as Hh by (unfold in_hand; by rewrite Hst).
    assert (same_slot o p) as Hsl.
    { split_and!; [congruence..|]. rewrite on_target_spec in *.
      destruct (subject_one _ _ _ _ Hs) as [E|E], Ht as [[-> ?]|[-> ?]], Ht' as [[-> ?]|[-> ?]]; auto; congruence. }
    destruct (HS p o Hin Hin' Hpe Hh Hsl) as [->|]; [congruence|lia].
Qed.

Lemma run_stamps l r : r ∈ run [] l → CreatedAt r ∈ created_stamps l.
Proof.
  revert r. induction l as [|a l IH] using rev_ind; intros r; [by intros ?%not_elem_of_nil|].
  rewrite run_snoc. unfold created_stamps in *. rewrite omap_app, elem_of_app.
  destruct (step_shape (run [] l) a) as (f & Hf & [->|(w & i & now & now' & pr & inp & req & -> & Hc & -> & ->)]).
  - intros (x & -> & Hx)%list_elem_of_fmap. left. destruct (moves_ask _ _ (Hf x)) as (_&_&_&_&_&_&_&_&_&_& ->). auto.
  - intros [Hr| ->%list_elem_of_singleton]%elem_of_app; [left; auto|right; simpl; left].
Qed.

Lemma sorted_snoc_lt l x y : StronglySorted Z.lt (l ++ [x]) → y ∈ l → y < x.
Proof.
  induction l as [|z l IH]; simpl; [by intros _ ?%not_elem_of_nil|]. intros [Hs Hf]%StronglySorted_inv.
  intros [->|Hy]%elem_of_cons; [|by apply IH]. rewrite Forall_forall in Hf. apply Hf. set_solver.
Qed.

Lemma sorted_prefix {A} (R : A → A → Prop) l l' : StronglySorted R (l ++ l') → StronglySorted R l.
Proof.
  induction l as [|x l IH]; simpl; [constructor|]. intros [Hs Hf]%StronglySorted_inv. constructor; [auto|].
  by apply Forall_app in Hf as [? _].
Qed.

Lemma run_Slots l : StronglySorted Z.lt (created_stamps l) → Slots (run [] l).
Proof.
  induction l as [|a l IH] using rev_ind; intros Hs; [by intros p r ?%not_elem_of_nil|].
  rewrite run_snoc. unfold created_stamps in Hs. rewrite omap_app in Hs. specialize (IH (sorted_prefix _ _ _ Hs)).
  destruct (step_shape (run [] l) a) as (f & Hf & [->|(w & i & now & now' & pr & inp & req & -> & Hc & -> & ->)]).
  { by apply Slots_fmap. }
  intros p r [Hp| ->%list_elem_of_singleton]%elem_of_app [Hr| ->%list_elem_of_singleton]%elem_of_app Hpe Hin Hsl.
  - by apply IH.
  - exfalso. apply same_slot_sym in Hsl. eapply create_slot_free; eauto.
  - right. simpl. simpl in Hs. eapply sorted_snoc_lt; [done|]. by apply run_stamps.
  - by left.
Qed.

(** One decision in front of the approver at a time: when handlers run one
after another under a clock that moves on between inserts, no two pending
requests ever share a user, protocol and target or group. *)
Theorem one_pending l r r' :
  StronglySorted Z.lt (created_stamps l) → r ∈ run [] l → r' ∈ run [] l →
  Status_ r = StatusPending → Status_ r' = StatusPending →
  UserID r = UserID r' → Protocol r = Protocol r' → on_target r (TargetID r') (ASGID r') = true → r = r'.
Proof.
  intros Hs Hr Hr' Hp Hp' Hu Hpr Ht. pose proof (run_Slots l Hs) as HS.
  assert (same_slot r r') as Hsl by done. assert (∀ x, Status_ x = StatusPending → in_hand x = true) as Hh.
  { intros x E. unfold in_hand. by rewrite E. }
  destruct (HS r' r Hr' Hr Hp' (Hh _ Hp) Hsl) as [|?]; [done|].
  destruct (HS r r' Hr Hr' Hp (Hh _ Hp') (same_slot_sym _ _ Hsl)) as [|?]; [done|]. lia.
Qed.

(** * The race, and the worked example behind the witnesses *)

Definition ex_world : World := {|
  ForUser := λ _, Ok [ex_policy "jit" [ex_jit]];
  TargetsGet := λ id, if bool_decide (id = "t1") then Ok {| hKind := "host"; hID := "t1"; hTags := ∅ |} else Err Missing;
  ASGsGet := None; ApproveStepUp := Some true; MFAEnrolled := Some (λ _, Ok true) |}.

Definition ex_user : Principal := {| pUserID := "u1"; StepUpFresh := false |}.
Definition ex_admin : Principal := {| pUserID := "a1"; StepUpFresh := true |}.

Definition ex_ask (extends : string) : createInput := {|
  inTargetID := "t1"; inASGID := ""; inProtocol := "ssh"; inReason := " deploy "; inMinutes := 30; inExtends := extends |}.

Definition ex_minutes : decisionInput := {| dNote := "ok"; dMinutes := 45 |}.

(** u1 asks, a1 approves 45 minutes, u1 asks to extend, a1 approves that too. *)
Definition ex_history : list action :=
  [ACreate ex_world "r1" 0 1000 ex_user (ex_ask "");
   AApprove ex_world 5000 6000 ex_admin "r1" ex_minutes;
   ACreate ex_world "r2" (2 * Minute) (2 * Minute) ex_user (ex_ask "r1");
   AApprove ex_world (3 * Minute) (3 * Minute) ex_admin "r2" {| dNote := ""; dMinutes := 0 |}].

Definition ex_last (l : list action) : Request :=
  default (pending_row "" 0 (new_request "" {| ePolicy := ex_policy "" []; eGrant := ex_jit; maxMinutes := 0 |} ex_ref (ex_ask "")))
    (last (run [] l)).

Lemma run_last l : (run [] l) ≠ [] → ex_last l ∈ run [] l.
Proof. unfold ex_last. destruct (run [] l) as [|x rows] using rev_ind; [done|]. rewrite last_snoc. simpl. set_solver. Qed.

Lemma ex_ids : NoDup (created_ids ex_history).
Proof. apply (bool_decide_eq_true_1 _). by vm_compute. Qed.

(** Two creates that both read before either inserts. *)
Definition create_race (w : World) (id1 id2 : string) (now : time) (pr : Principal) (i : createInput) (rows : Rows) : Rows :=
  match create_check w now pr i rows, create_check w now pr i rows with
  | Ok req1, Ok req2 => Create id2 now req2 (Create id1 now req1 rows)
  | Ok req, Err _ | Err _, Ok req => Create id1 now req rows
  | Err _, Err _ => rows
  end.

(** The one-open-request rule is a check before an insert with nothing
holding it between them: when the same request arrives twice at once and both
reads come before either insert, both are stored, and two pending requests of
one user share a target and protocol. *)
Theorem create_race_duplicates :
  ∃ w id1 id2 now pr i r r',
    r ∈ create_race w id1 id2 now pr i [] ∧ r' ∈ create_race w id1 id2 now pr i [] ∧ ID r ≠ ID r'
    ∧ Status_ r = StatusPending ∧ Status_ r' = StatusPending
    ∧ UserID r = UserID r' ∧ Protocol r = Protocol r' ∧ on_target r (TargetID r') (ASGID r') = true.
Proof.
  exists ex_world, "r1", "r2", 1000, ex_user, (ex_ask "").
  destruct (create_race ex_world "r1" "r2" 1000 ex_user (ex_ask "") []) as [|r [|r' [|]]] eqn:E; vm_compute in E; try done.
  injection E as <- <-. eexists _, _. split; [left|]. split; [right; left|]. split_and!; by vm_compute.
Qed.

(** * Witnesses *)

Definition ex_gate (rows : Rows) : Gate := gate_over (λ _, Ok [ex_policy "jit" [ex_jit]]) rows (Some (λ _, Ok true)).

(** Inside the granted window the gate admits, and so does the re-check. *)
Lemma admit_live_keeps_witness :
  ∃ d, AdmitLive (H := ex_zones) (ex_gate (run [] ex_history)) "u1" ex_ref "ssh" (50 * Minute) = LetIn d.
Proof.
  apply (admit_live_keeps (H := ex_zones) _ _ _ _ _ (Evaluate (H := ex_zones) [ex_policy "jit" [ex_jit]] ex_ref "ssh" (50 * Minute))).
  - by vm_compute.
  - intros f [= <-]. done.
Defined.

(** After it the gate asks for a new approval. *)
Example ex_gate_closed :
  match Admit (H := ex_zones) (ex_gate (run [] ex_history)) "u1" ex_ref "ssh" (76 * Minute) with
  | Refused _ c => c = CodeApprovalRequired
  | _ => False
  end.
Proof. by vm_compute. Qed.

(** The first request, through the history above and then the deletion of its
policy and of its approver. *)
Definition ex_events : list event := (EHandled <$> drop 1 ex_history) ++ [EPolicyGone "p1"; EUserGone "a1"].

Lemma lifecycle_witness :
  ∃ r r', Get "r1" (run [] (take 1 ex_history)) = Some r ∧ UserID r = "u1" ∧ PolicyID r = "p1"
    ∧ Get "r1" (run_events (run [] (take 1 ex_history)) ex_events) = Some r' ∧ PolicyID r' = "" ∧ grows ex_events r r'.
Proof.
  eexists.
  edestruct (lifecycle (run [] (take 1 ex_history)) ex_events "r1") as [(e & He & Ht)|(r' & Hr & Hg)]; [by vm_compute| |].
  - exfalso. vm_compute in He. repeat (apply elem_of_cons in He as [->|He]; [by vm_compute in Ht|]). by apply elem_of_nil in He.
  - exists r'. split; [by vm_compute|]. split; [done|]. split; [done|]. split; [exact Hr|]. split; [|exact Hg].
    vm_compute in Hr. injection Hr as <-. done.
Defined.

(** The extension runs 30 minutes on from the first grant's end, not from its approval. *)
Lemma grants_earned_witness :
  let r := ex_last ex_history in
  ExpiresAt r = Some (75 * Minute + 5000) ∧
  ∃ l1 l2 w now now' pr d base,
    ex_history = l1 ++ AApprove w now now' pr (ID r) d :: l2
    ∧ ApproverUserID r = pUserID pr ∧ steppedUp w pr = Ok tt
    ∧ (∃ ref pols e, subject w (TargetID r) (ASGID r) = Ok ref ∧ ForUser w (UserID r) = Ok pols
         ∧ eligible pols ref (Protocol r) = Some e ∧ 1 ≤ ApprovedMinutes r ≤ maxMinutes e)
    ∧ ExpiresAt r = Some (TimeArg (base + ApprovedMinutes r * Minute))
    ∧ (base = now ∨ ∃ prev, prev ∈ run [] l1 ∧ ID prev = ExtendsRequestID r ∧ Active prev now = true
         ∧ ExpiresAt prev = Some base ∧ UserID prev = UserID r ∧ Protocol prev = Protocol r
         ∧ on_target prev (TargetID r) (ASGID r) = true).
Proof.
  intros r. split; [by vm_compute|].
  apply (grants_earned ex_history r); [apply ex_ids|apply run_last; by vm_compute|by vm_compute].
Defined.

Lemma has_active_grant_iff_witness :
  ∃ r, r ∈ run [] ex_history ∧ UserID r = "u1" ∧ Protocol r = "ssh" ∧ on_target r "t1" "" = true
    ∧ Active r (75 * Minute + 4999) = true.
Proof. apply (has_active_grant_iff ex_history "u1" "t1" "" "ssh"); [apply ex_ids|by vm_compute]. Defined.

Lemma revoke_final_witness :
  ∃ r, Get "r1" (run (revoke (4 * Minute) "r1" "leaver" (run [] ex_history)).2 [ASweep (80 * Minute)]) = Some r
    ∧ Active r (5 * Minute) = false.
Proof.
  eexists. apply (revoke_final (run [] ex_history) (4 * Minute) "r1" "leaver").
  - apply (bool_decide_eq_true_1 _). by vm_compute.
  - by vm_compute.
Defined.

(** The second of two like requests is refused, so the first is still the only one. *)
Definition ex_twice : list action :=
  take 1 ex_history ++ [ACreate ex_world "r2" (2 * Minute) (2 * Minute) ex_user (ex_ask "")].

Lemma one_pending_witness : ex_last (take 1 ex_history) = ex_last ex_twice.
Proof.
  assert (run [] ex_twice = run [] (take 1 ex_history)) as E by (by vm_compute).
  apply (one_pending ex_twice); [repeat constructor|rewrite E|..|by vm_compute|by vm_compute|by vm_compute|by vm_compute|by vm_compute];
    apply run_last; by vm_compute.
Defined.
