(* ===== verification/AuditChain.v ===== *)
(** The audit log's hash chain: src/internal/audit/chain.go.  An event's hash
covers the hash of the event before it and the event's own content in canonical
JSON, so two chains that end in the same hash hold the same events, or exhibit
two texts that SHA-256 hashes alike. *)
From S2P Require Import Prelude GoText Strconv Sha256 Clock Json.
Local Open Scope Z_scope.

Definition GenesisHash : string := "0000000000000000000000000000000000000000000000000000000000000000".

Record Event := {
  ID : Z;
  Timestamp : time;
  ActorUserID : string;
  ActorIP : string;
  Action : string;
  ObjectType : string;
  ObjectID : string;
  Outcome : string;
  Details : bytes;
  PrevHash : string;
  Hash : string;
}.

Definition set_link (e : Event) (prev hash : string) : Event := {|
  ID := ID e; Timestamp := Timestamp e; ActorUserID := ActorUserID e; ActorIP := ActorIP e; Action := Action e;
  ObjectType := ObjectType e; ObjectID := ObjectID e; Outcome := Outcome e; Details := Details e;
  PrevHash := prev; Hash := hash |}.

Section Chain.
Context `{Float64}.

(** compactJSON: details must be an object; [None] is its error. *)
Definition compactJSON (raw : bytes) : option bytes :=
  v ← Unmarshal raw;
  match v with VObject m => Some (Marshal (VObject m)) | _ => None end.

(** A field of the canonical struct and the text before it. *)
Definition field (name : string) (v : bytes) : bytes := quote (to_bytes name) ++ byte_of 58 :: v.

Definition str (s : string) : bytes := quote (to_bytes s).

(** The fields before the details, in the order of the struct. *)
Definition leading (e : Event) : list bytes :=
  [field "ts" (quote (FormatRFC3339Nano (Timestamp e))); field "actor_user_id" (str (ActorUserID e));
   field "actor_ip" (str (ActorIP e)); field "action" (str (Action e)); field "object_type" (str (ObjectType e));
   field "object_id" (str (ObjectID e)); field "outcome" (str (Outcome e))].

(** [json.Marshal(canonical{...})]. *)
Definition canonical (e : Event) (compact : bytes) : bytes :=
  byte_of 123 :: separated (leading e ++ [field "details" compact; field "prev_hash" (str (PrevHash e))]) ++ [byte_of 125].

Definition details_of (e : Event) : bytes := if bool_decide (Details e = []) then to_bytes "{}" else Details e.

(** What is hashed: the previous hash, then the canonical JSON. *)
Definition preimage (e : Event) : option bytes :=
  compact ← compactJSON (details_of e); Some (to_bytes (PrevHash e) ++ canonical e compact).

Definition ComputeHash (e : Event) : option string :=
  p ← preimage e; Some (Hex.EncodeToString (Sha.Sum256 p)).

Definition Link (e : Event) (prevHash : string) : option Event :=
  let prev := if bool_decide (prevHash = "") then GenesisHash else prevHash in
  h ← ComputeHash (set_link e prev (Hash e)); Some (set_link e prev h).

Inductive Reason := PrevMismatch | BadDetails | HashMismatch.
Record VerifyError := { Index : nat; vID : Z; vReason : Reason }.

Definition verifyLink (idx : nat) (e : Event) (prev : string) : option VerifyError :=
  let fail r := Some {| Index := idx; vID := ID e; vReason := r |} in
  if negb (bool_decide (PrevHash e = prev)) then fail PrevMismatch
  else match ComputeHash e with
       | None => fail BadDetails
       | Some want => if negb (bool_decide (want = Hash e)) then fail HashMismatch else None
       end.

Fixpoint verify_from (i : nat) (prev : string) (events : list Event) : option VerifyError :=
  match events with
  | [] => None
  | e :: events =>
      match verifyLink i e prev with
      | Some ve => Some ve
      | None => verify_from (S i) (Hash e) events
      end
  end.

(** A slice that does not start at genesis is trusted for its first link. *)
Definition Verify (events : list Event) : option VerifyError :=
  match events with
  | [] => None
  | e :: _ => verify_from 0 (if negb (bool_decide (PrevHash e = GenesisHash)) then PrevHash e else GenesisHash) events
  end.

(** * What the chain means *)

Definition Linked (prev : string) (e : Event) : Prop := PrevHash e = prev ∧ ComputeHash e = Some (Hash e).

Fixpoint Chained (prev : string) (l : list Event) : Prop :=
  match l with [] => True | e :: l => Linked prev e ∧ Chained (Hash e) l end.

(** The hash a chain from [prev] ends in. *)
Definition head_hash (prev : string) (l : list Event) : string := foldl (λ _ e, Hash e) prev l.

Lemma verifyLink_ok i e prev : verifyLink i e prev = None ↔ Linked prev e.
Proof.
  unfold verifyLink, Linked. case_bool_decide; simpl; [|naive_solver].
  destruct (ComputeHash e) as [w|]; [|naive_solver]. case_bool_decide; simpl; naive_solver.
Qed.

Lemma verify_from_ok i prev l : verify_from i prev l = None ↔ Chained prev l.
Proof.
  revert i prev. induction l as [|e l IH]; intros i prev; simpl; [done|].
  rewrite <-(verifyLink_ok i), <-(IH (S i)). destruct (verifyLink i e prev); naive_solver.
Qed.

Lemma Chained_app prev l l' : Chained prev (l ++ l') ↔ Chained prev l ∧ Chained (head_hash prev l) l'.
Proof. revert prev. induction l as [|e l IH]; intros prev; simpl; [tauto|]. rewrite IH. tauto. Qed.

Lemma Link_linked e prev e' : Link e prev = Some e' → Linked (if bool_decide (prev = "") then GenesisHash else prev) e'.
Proof.
  unfold Link, Linked. set (p := if bool_decide (prev = "") then _ else _).
  destruct (ComputeHash _) as [h|] eqn:E; [|done]. intros [= <-]. split; [done|]. exact E.
Qed.

(** * The preimage determines the content *)

(** Text the store and JSON both keep exactly: valid UTF-8, and an instant whose
year has four digits. *)
Record Clean (e : Event) : Prop := {
  clean_ts : four_digit_year (Timestamp e);
  clean_text : Forall (λ s, Utf8.Valid (to_bytes s) = true)
    [ActorUserID e; ActorIP e; Action e; ObjectType e; ObjectID e; Outcome e; PrevHash e];
}.

Definition is_hash (s : string) : Prop := length (to_bytes s) = 64%nat.

Record same_content (e e' : Event) : Prop := {
  sc_ts : Timestamp e = Timestamp e';
  sc_actor : ActorUserID e = ActorUserID e';
  sc_ip : ActorIP e = ActorIP e';
  sc_action : Action e = Action e';
  sc_type : ObjectType e = ObjectType e';
  sc_object : ObjectID e = ObjectID e';
  sc_outcome : Outcome e = Outcome e';
  sc_details : compactJSON (details_of e) = compactJSON (details_of e');
}.

Lemma digits_ascii w n : Forall (λ a, (32 <= byte_N a < 128)%N) (digits w n).
Proof.
  eapply Forall_impl; [apply digits_all|]. intros a Ha. unfold is_digit in Ha. lia.
Qed.

(** Plain ASCII is valid UTF-8. *)
Lemma ascii_valid b : Forall (λ a, (byte_N a < 128)%N) b → Utf8.Valid b = true.
Proof.
  intros Hb. unfold Utf8.Valid. apply forallb_true. intros c Hc.
  induction Hb as [|a b Ha Hb IH]; [by apply not_elem_of_nil in Hc|].
  rewrite Utf8.chunks_step in Hc by done.
  assert (Utf8.decode (a :: b) = (byte_N a, 1%nat)) as Hd by (unfold Utf8.decode; by rewrite (proj2 (N.ltb_lt _ _))).
  rewrite Hd in Hc. simpl in Hc. apply elem_of_cons in Hc as [->|Hc].
  - simpl. rewrite (proj2 (N.eqb_neq _ _)); [done|]. unfold Utf8.RuneError. lia.
  - apply IH. by rewrite drop_0 in Hc.
Qed.

Lemma trim_zeros_sub b a : a ∈ trim_zeros b → a ∈ b.
Proof.
  revert a. induction b as [|x b IH]; intros a; simpl; [done|]. destruct (trim_zeros b) as [|y l].
  - case_bool_decide; [by intros ?%not_elem_of_nil|]. rewrite list_elem_of_singleton. intros ->. left.
  - rewrite elem_of_cons. intros [->|Ha]; [left|right; by apply IH].
Qed.

Lemma timestamp_valid t : Utf8.Valid (FormatRFC3339Nano t) = true.
Proof.
  apply ascii_valid. unfold FormatRFC3339Nano, date_time, year_text, two, fraction.
  assert (∀ w n, Forall (λ a, (byte_N a < 128)%N) (digits w n)) as Hd.
  { intros w n. eapply Forall_impl; [apply digits_ascii|]. simpl. lia. }
  assert (Forall (λ a, (byte_N a < 128)%N) (trim_zeros (digits 9 (Z.to_N (nanos (clock_of t)))))) as Ht.
  { apply Forall_forall. intros a Ha%trim_zeros_sub. specialize (Hd 9%nat (Z.to_N (nanos (clock_of t)))).
    rewrite Forall_forall in Hd. auto. }
  rewrite !Forall_app. split_and!; try apply Hd; try (by repeat constructor).
  - case_match; [apply Forall_cons; split; [done|]|]; apply Hd.
  - destruct (trim_zeros _); [done|]. apply Forall_app. split; [by repeat constructor|done].
Qed.

Lemma field_inj name v v' r r' :
  Utf8.Valid v = true → Utf8.Valid v' = true →
  field name (quote v) ++ r = field name (quote v') ++ r' → v = v' ∧ r = r'.
Proof.
  intros Hv Hv' E. unfold field in E. rewrite <-!app_assoc in E. apply app_inv_head in E. cbn [app] in E.
  apply (f_equal (drop 1)) in E. cbn [drop] in E. by apply quote_inj in E.
Qed.

(** The same with the comma that follows it. *)
Lemma field_comma name v v' r r' :
  Utf8.Valid v = true → Utf8.Valid v' = true →
  field name (quote v) ++ byte_of 44 :: r = field name (quote v') ++ byte_of 44 :: r' → v = v' ∧ r = r'.
Proof. intros Hv Hv' E. apply field_inj in E as [-> E]; [|done..]. by injection E. Qed.

Lemma canonical_inj e e' c c' :
  Clean e → Clean e' → PrevHash e = PrevHash e' → canonical e c = canonical e' c' →
  Timestamp e = Timestamp e' ∧ ActorUserID e = ActorUserID e' ∧ ActorIP e = ActorIP e' ∧ Action e = Action e'
  ∧ ObjectType e = ObjectType e' ∧ ObjectID e = ObjectID e' ∧ Outcome e = Outcome e' ∧ c = c'.
Proof.
  intros [Hts Htx] [Hts' Htx'] Hprev E. apply (f_equal (drop 1)) in E. unfold canonical, leading, str in E.
  cbn [app separated drop] in E. rewrite !Forall_cons in Htx, Htx'.
  destruct Htx as (H1 & H2 & H3 & H4 & H5 & H6 & _), Htx' as (K1 & K2 & K3 & K4 & K5 & K6 & _).
  repeat (rewrite <-!app_assoc in E; cbn [app] in E).
  apply field_comma in E as [Et E]; [|apply timestamp_valid..].
  apply FormatRFC3339Nano_inj in Et; [|done..].
  do 6 (rewrite <-?app_assoc in E; cbn [app] in E; apply field_comma in E as [?%to_bytes_inj E]; [|done..]).
  split_and!; try done. unfold field in E. rewrite Hprev in E.
  rewrite <-!app_assoc in E. apply app_inv_head in E. cbn [app] in E. apply (f_equal (drop 1)) in E. cbn [drop] in E.
  by apply app_inv_tail in E.
Qed.

Lemma preimage_inj e e' p :
  Clean e → Clean e' → is_hash (PrevHash e) → is_hash (PrevHash e') →
  preimage e = Some p → preimage e' = Some p → PrevHash e = PrevHash e' ∧ same_content e e'.
Proof.
  unfold preimage. intros Hc Hc' Hh Hh' E E'.
  destruct (compactJSON (details_of e)) as [c|] eqn:Ec; [|done].
  destruct (compactJSON (details_of e')) as [c'|] eqn:Ec'; [|done]. simpl in E, E'. injection E as <-. injection E' as E'.
  assert (to_bytes (PrevHash e) = to_bytes (PrevHash e')) as Hp%to_bytes_inj.
  { apply (f_equal (take 64)) in E'. by rewrite !take_app_length' in E' by done. }
  split; [done|]. rewrite Hp in E'. apply app_inv_head in E'. symmetry in E'.
  destruct (canonical_inj e e' c c' Hc Hc' Hp E') as (?&?&?&?&?&?&?&->). split; try done. by rewrite Ec, Ec'.
Qed.

(** * Tamper evidence *)

(** Two texts that are hashed in the two logs, different and with one hash. *)
Definition collision (l l' : list Event) : Prop :=
  ∃ e e' p p', e ∈ l ∧ e' ∈ l' ∧ preimage e = Some p ∧ preimage e' = Some p' ∧ p ≠ p' ∧ Sha.Sum256 p = Sha.Sum256 p'.

(** An event whose hash is the public seed: a text that hashes to zero. *)
Definition hits_genesis (l : list Event) : Prop := ∃ e, e ∈ l ∧ Hash e = GenesisHash.

Lemma Linked_hash prev e : Linked prev e → is_hash (Hash e).
Proof.
  intros [_ Hc]. unfold ComputeHash in Hc. destruct (preimage e) as [p|]; [|done]. simpl in Hc. injection Hc as <-.
  unfold is_hash, Hex.EncodeToString. rewrite to_of_bytes, Hex.encode_length, Sha.Sum256_length. done.
Qed.

Lemma head_hash_snoc prev l e : head_hash prev (l ++ [e]) = Hash e.
Proof. unfold head_hash. by rewrite foldl_app. Qed.

Lemma head_is_hash l : Chained GenesisHash l → is_hash (head_hash GenesisHash l).
Proof.
  destruct l as [|e l _] using rev_ind; [done|]. rewrite Chained_app, head_hash_snoc. intros (_ & Hl & _).
  by eapply Linked_hash.
Qed.

(** What one hash says of two events: they are one text to JSON, details and
previous hash included, and so one content where JSON writes their texts
one-to-one. *)
Record pinned (e e' : Event) : Prop := {
  pin_text : preimage e = preimage e';
  pin_prev : PrevHash e = PrevHash e';
  pin_content : Clean e → Clean e' → same_content e e';
}.

Lemma pinned_content l l' : Forall2 pinned l l' → Forall Clean l → Forall Clean l' → Forall2 same_content l l'.
Proof.
  induction 1 as [|e e' l l' [_ _ Hp] _ IH]; [constructor|]. intros [? ?]%Forall_cons [? ?]%Forall_cons. constructor; auto.
Qed.

Lemma preimage_pinned e e' p :
  is_hash (PrevHash e) → is_hash (PrevHash e') → preimage e = Some p → preimage e' = Some p → pinned e e'.
Proof.
  intros Hh Hh' E E'. split; [congruence| |intros Hc Hc'; by eapply preimage_inj]. unfold preimage in E, E'.
  destruct (compactJSON (details_of e)) as [c|]; [|done]. destruct (compactJSON (details_of e')) as [c'|]; [|done].
  simpl in E, E'. injection E as <-. injection E' as E'. apply to_bytes_inj.
  apply (f_equal (take 64)) in E'. by rewrite !take_app_length' in E' by done.
Qed.

Lemma collision_mono l l' k k' : l ⊆ k → l' ⊆ k' → collision l l' → collision k k'.
Proof. intros H1 H2 (e & e' & p & p' & He & He' & ?). exists e, e', p, p'. auto. Qed.

Lemma equal_heads l l' :
  Chained GenesisHash l → Chained GenesisHash l' → head_hash GenesisHash l = head_hash GenesisHash l' →
  Forall2 pinned l l' ∨ collision l l' ∨ hits_genesis (l ++ l').
Proof.
  revert l'. induction l as [|e l IH] using rev_ind; intros l' Hc Hc' Hh.
  - destruct l' as [|e' l' _] using rev_ind; [by left|]. right; right. rewrite head_hash_snoc in Hh.
    exists e'. split; [set_solver|done].
  - destruct l' as [|e' l' _] using rev_ind.
    { right; right. rewrite head_hash_snoc in Hh. exists e. split; [set_solver|done]. }
    rewrite !head_hash_snoc in Hh. rewrite Chained_app in Hc, Hc'.
    destruct Hc as (Hc & Hl & _), Hc' as (Hc' & Hl' & _).
    pose proof (head_is_hash _ Hc) as Hi. pose proof (head_is_hash _ Hc') as Hi'.
    destruct Hl as [Hp Hx], Hl' as [Hp' Hx']. unfold ComputeHash in Hx, Hx'.
    destruct (preimage e) as [p|] eqn:Ep; [|done]. destruct (preimage e') as [p'|] eqn:Ep'; [|done].
    simpl in Hx, Hx'. injection Hx as Hx. injection Hx' as Hx'. rewrite <-Hx, <-Hx' in Hh. apply Hex.EncodeToString_inj in Hh.
    destruct (decide (p = p')) as [->|Hne].
    + rewrite <-Hp in Hi. rewrite <-Hp' in Hi'. pose proof (preimage_pinned e e' p' Hi Hi' Ep Ep') as Hpin.
      pose proof (pin_prev _ _ Hpin) as Hpp. rewrite Hp, Hp' in Hpp. destruct (IH l' Hc Hc' Hpp) as [?|[?|(x & Hin & ?)]].
      * left. by apply Forall2_app; [|constructor].
      * right; left. eapply collision_mono; [| |done]; set_solver.
      * right; right. exists x. split; [set_solver|done].
    + right; left. exists e, e', p, p'. split_and!; try done; set_solver.
Qed.

(** The chain is tamper-evident: two logs whose links and hashes all verify
from genesis and that end in the same hash hold the same events one for one
(time, actor, address, action, object, outcome and details), unless the two logs
between them exhibit two different texts with one SHA-256 hash, or a text that
hashes to the all-zero seed. *)
Theorem tamper_evident l l' :
  Forall Clean l → Forall Clean l' →
  verify_from 0 GenesisHash l = None → verify_from 0 GenesisHash l' = None →
  head_hash GenesisHash l = head_hash GenesisHash l' →
  Forall2 same_content l l' ∨ collision l l' ∨ hits_genesis (l ++ l').
Proof. rewrite !verify_from_ok. intros Hcl Hcl' Hc Hc' Hh. destruct (equal_heads l l' Hc Hc' Hh) as [?|?]; [left; by apply pinned_content|by right]. Qed.

End Chain.

(** * A chain of the examples *)

Definition ex_event (ts : time) (action : string) : Event := {|
  ID := 0; Timestamp := ts; ActorUserID := "u1"; ActorIP := "192.0.2.7"; Action := action; ObjectType := "target";
  ObjectID := "t1"; Outcome := "success"; Details := []; PrevHash := ""; Hash := "" |}.

Definition ex_link (e : Event) (prev : string) : Event := default e (Link (H := ex_float) e prev).

Definition ex_first : Event := ex_link (ex_event (1700000000 * Second) "session.connect") "".
Definition ex_second : Event := ex_link (ex_event (1700000001 * Second) "session.end") (Hash ex_first).

Lemma ex_clean : Forall Clean [ex_first; ex_second].
Proof.
  assert (∀ e, Utf8.Valid (to_bytes (PrevHash e)) = true → Timestamp e ∈ [1700000000 * Second; 1700000001 * Second] →
    [ActorUserID e; ActorIP e; Action e; ObjectType e; ObjectID e; Outcome e]
    ∈ [["u1"; "192.0.2.7"; "session.connect"; "target"; "t1"; "success"]%string; ["u1"; "192.0.2.7"; "session.end"; "target"; "t1"; "success"]%string]
    → Clean e) as Hc.
  { intros e Hp Ht Hf. split.
    - apply elem_of_cons in Ht as [->|Ht%list_elem_of_singleton]; [|rewrite Ht]; by vm_compute.
    - apply elem_of_cons in Hf as [Hf|Hf%list_elem_of_singleton]; injection Hf as -> -> -> -> -> ->;
        repeat (apply Forall_cons; split; [done || by vm_compute|]); apply Forall_nil_2. }
  repeat (apply Forall_cons; split); try apply Forall_nil_2; apply Hc; try (by vm_compute); vm_compute; set_solver.
Qed.

Lemma tamper_evident_witness :
  Forall2 (same_content (H := ex_float)) [ex_first; ex_second] [ex_first; ex_second]
  ∨ collision (H := ex_float) [ex_first; ex_second] [ex_first; ex_second]
  ∨ hits_genesis ([ex_first; ex_second] ++ [ex_first; ex_second]).
Proof.
  apply (tamper_evident (H := ex_float)); [apply ex_clean|apply ex_clean|by vm_compute..].
Defined.
