(* ===== verification/AuditLog.v ===== *)
(** The stored audit log: src/internal/audit/store.go (Record, the walk, the
anchor and sequence checks, Reseal, List and the exporter's feed) and anchor.go.

The table [audit_events] is a list of rows in id order, which is the order of
its primary key and of every query here; [audit_anchors] likewise.  A writing
operation holds the log's mutex and one transaction (with an advisory lock on
PostgreSQL), so it is one step.  Reads that fail for I/O reasons return an error
and no result; the model is of the reads that succeed. *)
From Stdlib Require Import Sorted.
From S2P Require Import Prelude GoText Strconv Sha256 Clock Json AuditChain.
Local Open Scope Z_scope.

Inductive Driver := DriverPostgres | DriverSQLite.

(** * Anchors *)

Record Anchor := {
  aID : Z;
  EventID : Z;
  aHash : string;
  CreatedAt : time;
  MAC : string;
}.

Definition zero_time : time := -62135596800 * Second.
Definition zero_anchor : Anchor := {| aID := 0; EventID := 0; aHash := ""; CreatedAt := zero_time; MAC := "" |}.

Definition anchorDomain : bytes := to_bytes "zanskar-audit-anchor-v1" ++ [byte_of 10].

(** What an anchor's MAC covers. *)
Definition mac_input (a : Anchor) : bytes :=
  anchorDomain ++ FormatInt (EventID a) ++ byte_of 10 :: to_bytes (aHash a) ++ byte_of 10 :: FormatRFC3339Nano (CreatedAt a).

Definition mac (a : Anchor) (key : bytes) : string := Hex.EncodeToString (Sha.Hmac key (mac_input a)).

(** [hmac.Equal] is equality of bytes. *)
Definition Signed (a : Anchor) (key : bytes) : bool :=
  negb (bool_decide (key = [])) && bool_decide (to_bytes (mac a key) = to_bytes (MAC a)).

Definition sp : bytes := [byte_of 32].

Definition Line (a : Anchor) : bytes :=
  to_bytes "anchor" ++ sp ++ FormatInt (EventID a) ++ sp ++ to_bytes (aHash a) ++ sp ++ FormatRFC3339Nano (CreatedAt a)
  ++ sp ++ to_bytes (MAC a).

(** [strings.Fields]: maximal runs of characters that are not white space. *)
Fixpoint fields_loop (l : list (N * bytes)) (cur : bytes) : list bytes :=
  match l with
  | [] => if bool_decide (cur = []) then [] else [cur]
  | (r, b) :: l =>
      if Unicode.IsSpace r then
        if bool_decide (cur = []) then fields_loop l [] else cur :: fields_loop l []
      else fields_loop l (cur ++ b)
  end.
Definition Fields (b : bytes) : list bytes := fields_loop (Utf8.chunks b) [].

Definition isHex256 (s : bytes) : bool :=
  (length s =? 64)%nat && bool_decide (is_Some (Hex.decode s)).

Definition lower (b : bytes) : string := Strings.ToLower (of_bytes b).

Inductive ParseErr := BadFields | BadEventID | BadTime | BadHex.

Definition ParseAnchor (s : bytes) : result ParseErr Anchor :=
  let f := Fields s in
  let f := match f with w :: rest => if bool_decide (w = to_bytes "anchor") then rest else f | [] => f end in
  match f with
  | [f0; f1; f2; f3] =>
      match ParseInt f0 with
      | Some id =>
          if id <=? 0 then Err BadEventID
          else match Parse f2 with
               | None => Err BadTime
               | Some at_ =>
                   let hash := lower f1 in let mac := lower f3 in
                   if negb (isHex256 (to_bytes hash)) || negb (isHex256 (to_bytes mac)) then Err BadHex
                   else Ok {| aID := 0; EventID := id; aHash := hash; CreatedAt := at_; MAC := mac |}
               end
      | None => Err BadEventID
      end
  | _ => Err BadFields
  end.

(** * The database *)

Record DB := {
  events : list Event;
  anchors : list Anchor;
  seq : Z;        (** the high-water mark of audit_events' ids *)
  anchor_seq : Z; (** and of audit_anchors' *)
}.

Definition empty_db : DB := {| events := []; anchors := []; seq := 0; anchor_seq := 0 |}.

(** The id an AUTOINCREMENT or BIGSERIAL column hands out next. *)
Definition next_id (s : Z) (ids : list Z) : Z := 1 + foldr Z.max s ids.

Section Log.
Context `{Float64}.

Inductive RecordErr := OutcomeRequired | ActionRequired | DetailsInvalid.

Definition set_ts (e : Event) (t : time) (details : bytes) : Event := {|
  ID := ID e; Timestamp := t; ActorUserID := ActorUserID e; ActorIP := ActorIP e; Action := Action e;
  ObjectType := ObjectType e; ObjectID := ObjectID e; Outcome := Outcome e; Details := details;
  PrevHash := PrevHash e; Hash := Hash e |}.

Definition set_id (e : Event) (id : Z) : Event := {|
  ID := id; Timestamp := Timestamp e; ActorUserID := ActorUserID e; ActorIP := ActorIP e; Action := Action e;
  ObjectType := ObjectType e; ObjectID := ObjectID e; Outcome := Outcome e; Details := Details e;
  PrevHash := PrevHash e; Hash := Hash e |}.

(** [t.Truncate(time.Microsecond)]. *)
Definition truncate_us (t : time) : time := t / Microsecond * Microsecond.

(** [SELECT hash FROM audit_events ORDER BY id DESC LIMIT 1], empty when there
is no row. *)
Definition newest_hash (l : list Event) : string := match last l with Some e => Hash e | None => "" end.

Definition Record_ (now : time) (e : Event) (db : DB) : result RecordErr Event * DB :=
  let t := truncate_us (if bool_decide (Timestamp e = zero_time) then now else Timestamp e) in
  if bool_decide (Outcome e = "") then (Err OutcomeRequired, db)
  else if bool_decide (Action e = "") then (Err ActionRequired, db)
  else
    let e := set_ts e t (details_of e) in
    match Link e (newest_hash (events db)) with
    | None => (Err DetailsInvalid, db)
    | Some e =>
        let id := next_id (seq db) (ID <$> events db) in
        let e := set_id e id in
        (Ok e, {| events := events db ++ [e]; anchors := anchors db; seq := id; anchor_seq := anchor_seq db |})
    end.

(** * Verification *)

Definition verifyBatchSize : nat := 1000.

Record VerifyResult := {
  Checked : nat;
  LastID : Z;
  LastHash : string;
  Broken : option VerifyError;
}.

(** [WHERE id > ? ORDER BY id ASC LIMIT ?]. *)
Definition fetchBatch (afterID : Z) (rows : list Event) : list Event :=
  take verifyBatchSize (List.filter (λ e, afterID <? ID e) rows).

(** One batch: the result so far, the hash to link to, and whether it broke. *)
Fixpoint check_batch (batch : list Event) (res : VerifyResult) (prev : string) : VerifyResult * string :=
  match batch with
  | [] => (res, prev)
  | e :: batch =>
      match verifyLink (Checked res) e prev with
      | Some ve => ({| Checked := Checked res; LastID := LastID res; LastHash := LastHash res; Broken := Some ve |}, prev)
      | None => check_batch batch {| Checked := S (Checked res); LastID := ID e; LastHash := Hash e; Broken := None |} (Hash e)
      end
  end.

(** The loop over batches; the last id of a batch is where the next starts. *)
Fixpoint walk_loop (fuel : nat) (rows : list Event) (afterID : Z) (res : VerifyResult) (prev : string) : VerifyResult :=
  match fuel with
  | O => res
  | S fuel =>
      let batch := fetchBatch afterID rows in
      if bool_decide (batch = []) then res
      else
        let '(res', prev') := check_batch batch res prev in
        match Broken res' with
        | Some _ => res'
        | None => if (length batch <? verifyBatchSize)%nat then res' else walk_loop fuel rows (LastID res') res' prev'
        end
  end.

Definition start_result : VerifyResult := {| Checked := 0; LastID := 0; LastHash := GenesisHash; Broken := None |}.

(** Every batch but the last holds at least one row, so a batch per row and one
more is enough. *)
Definition walk (rows : list Event) : VerifyResult := walk_loop (S (length rows)) rows 0 start_result GenesisHash.

(** What the anchor and sequence checks find. *)
Inductive Problem :=
| NewestDeleted (ends_at : option Z) (covers : Z) (others : nat)
| NotWritten (supplied : bool) (a : Anchor)
| EventMissing (supplied : bool) (a : Anchor)
| EventChanged (supplied : bool) (a : Anchor)
| AndMore (n : nat)
| SequenceAhead (high newest : Z).

Definition maxAnchorReports : nat := 20.

(** The running state of the closure [check]. *)
Record Checking := {
  counted : nat;
  past : list Anchor;
  found : list Problem;
  LastAnchor : option Anchor;
}.

Definition max_id (rows : list Event) : option Z := ID <$> last rows.

(** [anchoredHashes], then the supplied anchors' events. *)
Definition anchoredHashes (db : DB) : gmap Z string :=
  list_to_map ((λ e, (ID e, Hash e)) <$> List.filter (λ e, bool_decide (ID e ∈ EventID <$> anchors db)) (events db)).

Definition hash_of (rows : list Event) (id : Z) : option string :=
  Hash <$> find (λ e, bool_decide (ID e = id)) rows.

Definition with_kept (db : DB) (kept : list Anchor) : gmap Z string :=
  foldl (λ m a, match hash_of (events db) (EventID a) with Some h => <[EventID a := h]> m | None => m end)
    (anchoredHashes db) kept.

Definition check_anchor (key : bytes) (hashes : gmap Z string) (maxID : Z) (supplied : bool) (c : Checking) (a : Anchor)
    : Checking :=
  let report p := {| counted := S (counted c); past := past c; found := found c ++ [p]; LastAnchor := LastAnchor c |} in
  if negb (Signed a key) then report (NotWritten supplied a)
  else match hashes !! EventID a with
       | None => if maxID <? EventID a
                 then {| counted := S (counted c); past := past c ++ [a]; found := found c; LastAnchor := LastAnchor c |}
                 else report (EventMissing supplied a)
       | Some h =>
           if negb (bool_decide (h = aHash a)) then report (EventChanged supplied a)
           else {| counted := S (counted c); past := past c; found := found c;
                   LastAnchor := match LastAnchor c with
                                 | None => Some a
                                 | Some b => if EventID b <? EventID a then Some a else Some b
                                 end |}
       end.

Definition past_problem (maxID : option Z) (past : list Anchor) : list Problem :=
  match past with
  | [] => []
  | a :: rest => [NewestDeleted maxID (foldl (λ m b, if m <? EventID b then EventID b else m) (EventID a) rest) (length rest)]
  end.

Definition capped (found : list Problem) : list Problem :=
  if (maxAnchorReports <? length found)%nat
  then take maxAnchorReports found ++ [AndMore (length found - maxAnchorReports)] else found.

Definition check_all (key : bytes) (db : DB) (kept : list Anchor) : Checking :=
  let hashes := with_kept db kept in
  let maxID := default 0 (max_id (events db)) in
  foldl (check_anchor key hashes maxID true)
    (foldl (check_anchor key hashes maxID false) {| counted := 0; past := []; found := []; LastAnchor := None |} (anchors db))
    kept.

Definition checkAnchors (key : bytes) (db : DB) (kept : list Anchor) : list Problem :=
  let c := check_all key db kept in past_problem (max_id (events db)) (past c) ++ capped (found c).

(** SQLite's sequence row is transactional, so one ahead of the newest event is
a problem; a PostgreSQL sequence is not, so there it is a warning. *)
Definition sequence_ahead (db : DB) : list Problem :=
  if default 0 (max_id (events db)) <? seq db then [SequenceAhead (seq db) (default 0 (max_id (events db)))] else [].

Record Report := { chain : VerifyResult; Anchors : nat; Problems : list Problem; Warnings : list Problem }.

Definition Verify_ (drv : Driver) (key : bytes) (kept : list Anchor) (db : DB) : option Report :=
  if bool_decide (key = []) then None
  else
    let ahead := sequence_ahead db in
    Some {| chain := walk (events db); Anchors := counted (check_all key db kept);
            Problems := checkAnchors key db kept ++ match drv with DriverSQLite => ahead | DriverPostgres => [] end;
            Warnings := match drv with DriverSQLite => [] | DriverPostgres => ahead end |}.

Definition Intact (r : Report) : bool :=
  bool_decide (Broken (chain r) = None) && bool_decide (Problems r = []).

(** * Anchoring *)

Inductive AnchorErr := ErrNoAnchorKey | ErrAnchorKeyMismatch.

Definition Anchor_ (key : bytes) (now : time) (db : DB) : result AnchorErr Anchor * DB :=
  if bool_decide (key = []) then (Err ErrNoAnchorKey, db)
  else
    let last_ := default zero_anchor (last (anchors db)) in
    match last (events db) with
    | None => (Ok last_, db)
    | Some e =>
        if bool_decide (EventID last_ = ID e) && bool_decide (aHash last_ = Hash e) && Signed last_ key then (Ok last_, db)
        else if negb (aID last_ =? 0) && negb (Signed last_ key) then (Err ErrAnchorKeyMismatch, db)
        else
          let id := next_id (anchor_seq db) (aID <$> anchors db) in
          let head := {| aID := id; EventID := ID e; aHash := Hash e; CreatedAt := truncate_us now; MAC := "" |} in
          let head := {| aID := id; EventID := ID e; aHash := Hash e; CreatedAt := truncate_us now; MAC := mac head key |} in
          (Ok head, {| events := events db; anchors := anchors db ++ [head]; seq := seq db; anchor_seq := id |})
    end.

Definition set_mac (a : Anchor) (m : string) : Anchor :=
  {| aID := aID a; EventID := EventID a; aHash := aHash a; CreatedAt := CreatedAt a; MAC := m |}.

Definition resign (oldKey newKey : bytes) (a : Anchor) : Anchor :=
  if Signed a newKey then a else if Signed a oldKey then set_mac a (mac a newKey) else a.

Definition ResignAnchors (oldKey newKey : bytes) (db : DB) : result AnchorErr (nat * nat) * DB :=
  if bool_decide (oldKey = []) || bool_decide (newKey = []) then (Err ErrNoAnchorKey, db)
  else
    let resigned := List.filter (λ a, negb (Signed a newKey) && Signed a oldKey) (anchors db) in
    let skipped := List.filter (λ a, negb (Signed a newKey) && negb (Signed a oldKey)) (anchors db) in
    (Ok (length resigned, length skipped),
     {| events := events db; anchors := resign oldKey newKey <$> anchors db; seq := seq db; anchor_seq := anchor_seq db |}).

(** * The batched walk is one pass over the chain *)

Definition id_lt (e e' : Event) : Prop := ID e < ID e'.

(** Rows in primary-key order. *)
Definition in_order (rows : list Event) : Prop := StronglySorted id_lt rows.

Lemma sorted_app_lt l l' : in_order (l ++ l') → ∀ x y, x ∈ l → y ∈ l' → ID x < ID y.
Proof.
  intros Hs x y Hx Hy. induction l as [|a l IH]; [by apply not_elem_of_nil in Hx|].
  apply StronglySorted_inv in Hs as [Hs Hf]. apply elem_of_cons in Hx as [->|Hx]; [|by apply IH].
  rewrite Forall_forall in Hf. apply Hf, elem_of_app. by right.
Qed.

Lemma sorted_filter f l : in_order l → in_order (List.filter f l).
Proof.
  induction l as [|a l IH]; simpl; [done|]. intros [Hs Hf]%StronglySorted_inv. destruct (f a); [|by apply IH].
  constructor; [by apply IH|]. apply Forall_forall. intros y [Hy _]%list_elem_of_In%filter_In.
  rewrite Forall_forall in Hf. apply Hf. by apply list_elem_of_In.
Qed.

Lemma filter_sub {A} (f g : A → bool) l :
  (∀ x, g x = true → f x = true) → List.filter g l = List.filter g (List.filter f l).
Proof.
  intros Hs. induction l as [|a l IH]; simpl; [done|]. destruct (g a) eqn:Hg.
  - rewrite (Hs a Hg). simpl. by rewrite Hg, IH.
  - destruct (f a); simpl; [by rewrite Hg|done].
Qed.

(** The rows after a point, and where the next batch picks up. *)
Definition after_id (a : Z) (rows : list Event) : list Event := List.filter (λ e, a <? ID e) rows.

Lemma after_last rows a b r x :
  in_order rows → after_id a rows = b ++ r → last b = Some x → after_id (ID x) rows = r.
Proof.
  intros Hs E Hx. assert (after_id (ID x) rows = List.filter (λ e, ID x <? ID e) (after_id a rows)) as ->.
  { assert (x ∈ after_id a rows) as Hin.
    { rewrite E. apply elem_of_app. left. by apply last_Some_elem_of. }
    apply list_elem_of_In, filter_In in Hin as [_ Hax].
    unfold after_id. apply filter_sub. intros e. rewrite !Z.ltb_lt in *. lia. }
  rewrite E, List.filter_app. pose proof (sorted_filter _ _ Hs : in_order (after_id a rows)) as Hs'. rewrite E in Hs'.
  destruct b as [|y b _] using rev_ind; [done|]. rewrite last_snoc in Hx. injection Hx as ->.
  rewrite filter_none, filter_all; [done| |].
  - intros z Hz. apply Z.ltb_lt. eapply sorted_app_lt; [exact Hs'|set_solver|done].
  - intros z [Hz| ->%list_elem_of_singleton]%elem_of_app; apply Z.ltb_ge; [|lia].
    rewrite <-app_assoc in Hs'. pose proof (sorted_app_lt _ _ Hs' z x Hz ltac:(set_solver)). lia.
Qed.

Lemma check_batch_app l l' res prev :
  Broken res = None →
  check_batch (l ++ l') res prev =
  let '(res', prev') := check_batch l res prev in
  match Broken res' with Some _ => (res', prev') | None => check_batch l' res' prev' end.
Proof.
  revert res prev. induction l as [|e l IH]; intros res prev Hb; simpl; [by rewrite Hb|].
  destruct (verifyLink (Checked res) e prev); [done|]. by rewrite IH.
Qed.

Lemma check_batch_last l res prev :
  Broken (check_batch l res prev).1 = None → LastID (check_batch l res prev).1 = default (LastID res) (ID <$> last l).
Proof.
  revert res prev. induction l as [|e l IH]; intros res prev; cbn [check_batch]; [done|].
  destruct (verifyLink (Checked res) e prev); [done|]. intros Hb. rewrite IH by done. cbn [LastID].
  destruct l as [|x l]; [done|]. rewrite last_cons_cons. by destruct (last (x :: l)) eqn:E; [|apply last_None in E].
Qed.

Lemma walk_loop_spec fuel rows a res prev :
  in_order rows → (length (after_id a rows) < fuel)%nat → Broken res = None →
  walk_loop fuel rows a res prev = (check_batch (after_id a rows) res prev).1.
Proof.
  revert a res prev. induction fuel as [|fuel IH]; intros a res prev Hs Hf Hb; [lia|]. cbn [walk_loop].
  change (fetchBatch a rows) with (take verifyBatchSize (after_id a rows)).
  destruct (decide (after_id a rows = [])) as [E|Hne].
  { rewrite E, take_nil, bool_decide_eq_true_2 by done. done. }
  set (b := take verifyBatchSize (after_id a rows)). set (r := drop verifyBatchSize (after_id a rows)).
  assert (after_id a rows = b ++ r) as Hbr by (symmetry; apply take_drop).
  assert (b ≠ []) as Hbn. { unfold b. destruct (after_id a rows); done. }
  rewrite bool_decide_eq_false_2 by done. rewrite Hbr, check_batch_app by done.
  pose proof (check_batch_last b res prev) as Hlast. destruct (check_batch b res prev) as [res' prev'].
  destruct (Broken res') eqn:Hbr'; [done|]. simpl in Hlast. rewrite Hlast by done.
  destruct (last b) as [x|] eqn:Hx; [|by apply last_None in Hx]. simpl.
  pose proof (after_last rows a b r x Hs Hbr Hx) as Hnext.
  destruct (Nat.ltb_spec (length b) verifyBatchSize) as [Hlt|Hge].
  - assert (r = []) as ->; [|done]. apply nil_length_inv. unfold r, b in *. rewrite length_take in Hlt. rewrite length_drop. lia.
  - rewrite <-Hnext. apply IH; [done| |done]. rewrite Hnext. apply (f_equal length) in Hbr. rewrite length_app in Hbr.
    assert (1 ≤ length b)%nat by (destruct b; [done|simpl; lia]). lia.
Qed.

Lemma filter_length_le {A} (f : A → bool) l : (length (List.filter f l) ≤ length l)%nat.
Proof. induction l as [|a l IH]; simpl; [lia|]. destruct (f a); simpl; lia. Qed.

Lemma walk_spec rows : in_order rows → walk rows = (check_batch (after_id 0 rows) start_result GenesisHash).1.
Proof.
  intros Hs. apply walk_loop_spec; [done| |done]. pose proof (filter_length_le (λ e, 0 <? ID e) rows). unfold after_id. lia.
Qed.

Lemma check_batch_ok l res prev : Broken res = None → Broken (check_batch l res prev).1 = None ↔ Chained prev l.
Proof.
  revert res prev. induction l as [|e l IH]; intros res prev Hb; simpl; [done|].
  rewrite <-(verifyLink_ok (Checked res)). destruct (verifyLink (Checked res) e prev); simpl; [by split; [|intros [? _]]|].
  rewrite IH by done. tauto.
Qed.

Lemma walk_intact rows : in_order rows → Broken (walk rows) = None ↔ Chained GenesisHash (after_id 0 rows).
Proof. intros Hs. rewrite walk_spec by done. by apply check_batch_ok. Qed.

(** What a finished walk reports. *)
Lemma check_batch_done l res prev :
  Broken (check_batch l res prev).1 = None →
  Checked (check_batch l res prev).1 = (Checked res + length l)%nat
  ∧ (check_batch l res prev).2 = head_hash prev l
  ∧ (LastHash res = prev → LastHash (check_batch l res prev).1 = head_hash prev l).
Proof.
  revert res prev. induction l as [|e l IH]; intros res prev; simpl; [intros _; split_and!; [lia|done..]|].
  destruct (verifyLink (Checked res) e prev); [done|]. intros (H1 & H2 & H3)%IH. simpl in *. split_and!; [lia|done|auto].
Qed.

(** Reading the log in batches changes nothing: on any table, however large,
the walk terminates with the verdict of one pass over every event with a
positive id in id order; and when that verdict is that nothing broke, it checked
them all and its last hash is the chain's head. *)
Theorem walk_is_one_pass rows :
  in_order rows →
  (Broken (walk rows) = None ↔ verify_from 0 GenesisHash (after_id 0 rows) = None)
  ∧ (Broken (walk rows) = None →
     Checked (walk rows) = length (after_id 0 rows) ∧ LastHash (walk rows) = head_hash GenesisHash (after_id 0 rows)).
Proof.
  intros Hs. rewrite verify_from_ok, <-walk_intact by done. split; [done|]. rewrite walk_spec by done.
  intros (H1 & _ & H3)%check_batch_done. auto.
Qed.

(** * What the anchor check establishes *)

Lemma hash_of_spec rows id h : hash_of rows id = Some h → ∃ e, e ∈ rows ∧ ID e = id ∧ Hash e = h.
Proof.
  unfold hash_of. intros (e & Hf & ->)%fmap_Some. apply find_some in Hf as [Hin He%bool_decide_eq_true].
  exists e. by rewrite list_elem_of_In.
Qed.

Lemma hash_of_unique rows e : NoDup (ID <$> rows) → e ∈ rows → hash_of rows (ID e) = Some (Hash e).
Proof.
  unfold hash_of. induction rows as [|x rows IH]; simpl; [by intros _ ?%not_elem_of_nil|].
  intros [Hx Hn]%NoDup_cons [->|He]%elem_of_cons; [by rewrite bool_decide_eq_true_2|].
  rewrite bool_decide_eq_false_2; [by apply IH|]. intros E. apply Hx. rewrite E. by apply list_elem_of_fmap_2.
Qed.

Lemma in_order_ids rows : in_order rows → NoDup (ID <$> rows).
Proof.
  induction rows as [|e rows IH]; simpl; [constructor|]. intros [Hs Hf]%StronglySorted_inv.
  constructor; [|by apply IH]. intros (x & E & Hx)%list_elem_of_fmap. rewrite Forall_forall in Hf.
  specialize (Hf x Hx). unfold id_lt in Hf. lia.
Qed.

(** Both sources of the map answer with the row's own hash. *)
Lemma anchoredHashes_lookup db id :
  anchoredHashes db !! id = if decide (id ∈ EventID <$> anchors db) then hash_of (events db) id else None.
Proof.
  unfold anchoredHashes, hash_of. induction (events db) as [|e l IH]; simpl; [by case_decide|].
  destruct (decide (ID e = id)) as [E|Hne].
  - rewrite (bool_decide_eq_true_2 (ID e = id)) by done. rewrite <-E in *. case_bool_decide as Hin; simpl.
    + rewrite lookup_insert_eq. by rewrite decide_True.
    + rewrite IH, !decide_False by done. done.
  - rewrite (bool_decide_eq_false_2 (ID e = id)) by done. case_bool_decide; simpl; [|done].
    by rewrite lookup_insert_ne.
Qed.

Lemma with_kept_lookup db kept id :
  with_kept db kept !! id = if decide (id ∈ EventID <$> anchors db ++ kept) then hash_of (events db) id else None.
Proof.
  unfold with_kept. induction kept as [|a kept IH] using rev_ind; [rewrite app_nil_r; apply anchoredHashes_lookup|].
  rewrite foldl_app, app_assoc, fmap_app. simpl. destruct (decide (EventID a = id)) as [<-|Hne].
  - rewrite decide_True by set_solver. destruct (hash_of (events db) (EventID a)) eqn:Hh; [apply lookup_insert_eq|].
    rewrite IH. case_decide; done.
  - transitivity (foldl (λ m a, match hash_of (events db) (EventID a) with Some h => <[EventID a := h]> m | None => m end)
      (anchoredHashes db) kept !! id); [by destruct (hash_of (events db) (EventID a)); [rewrite lookup_insert_ne|]|]. rewrite IH.
    destruct (decide (id ∈ EventID <$> anchors db ++ kept)); [by rewrite decide_True by set_solver|].
    rewrite decide_False; [done|]. set_solver.
Qed.

(** An anchor the check has nothing to say against: genuine, and its event is
there with the hash it signed. *)
Definition holds (key : bytes) (rows : list Event) (a : Anchor) : Prop :=
  Signed a key = true ∧ hash_of rows (EventID a) = Some (aHash a).

Lemma check_anchor_quiet key hashes maxID supplied l c :
  let c' := foldl (check_anchor key hashes maxID supplied) c l in
  past c' = [] ∧ found c' = [] ↔
  past c = [] ∧ found c = [] ∧ ∀ a, a ∈ l → Signed a key = true ∧ hashes !! EventID a = Some (aHash a).
Proof.
  simpl. revert c. induction l as [|a l IH]; intros c; simpl.
  { split; [intros []; split_and!; try done; by intros a ?%not_elem_of_nil|naive_solver]. }
  rewrite IH. clear IH.
  assert (∀ Q : Prop, (∀ x, x ∈ a :: l → Signed x key = true ∧ hashes !! EventID x = Some (aHash x)) →
    (Signed a key = true → hashes !! EventID a = Some (aHash a) → Q) → Q) as Hhd.
  { intros Q Hall HQ. destruct (Hall a) as [? ?]; [left|auto]. }
  unfold check_anchor. destruct (Signed a key) eqn:Hs; simpl; [destruct (hashes !! EventID a) as [h|] eqn:Hh|].
  - case_bool_decide as E; simpl.
    + split; intros (? & ? & Hall); split_and!; try done.
      * intros x [->|Hx]%elem_of_cons; [by rewrite Hh, E|auto].
      * intros x Hx. apply Hall. by right.
    + split; [intros (_ & []%app_nil & _); done|]. intros (_ & _ & Hall). apply (Hhd _ Hall). congruence.
  - split; [|intros (_ & _ & Hall); apply (Hhd _ Hall); congruence].
    case_match; simpl; intros (H1 & H2 & _); [by apply app_nil in H1 as []|by apply app_nil in H2 as []].
  - split; [intros (_ & []%app_nil & _); done|]. intros (_ & _ & Hall). apply (Hhd _ Hall). congruence.
Qed.

Lemma checkAnchors_nil key db kept :
  checkAnchors key db kept = [] ↔ ∀ a, a ∈ anchors db ++ kept → holds key (events db) a.
Proof.
  unfold checkAnchors. set (c := check_all key db kept).
  assert (past_problem (max_id (events db)) (past c) ++ capped (found c) = [] ↔ past c = [] ∧ found c = []) as ->.
  { split; [|by intros [-> ->]]. intros [Hp Hf]%app_nil. split; [by destruct (past c)|]. unfold capped in Hf.
    case_match; [by apply app_nil in Hf as [_ ?]|done]. }
  unfold c, check_all. rewrite check_anchor_quiet, (assoc (∧)), check_anchor_quiet. cbn [past found]. setoid_rewrite elem_of_app.
  assert (∀ a, a ∈ anchors db ++ kept → with_kept db kept !! EventID a = hash_of (events db) (EventID a)) as Hl.
  { intros a Ha. rewrite with_kept_lookup, decide_True; [done|]. by apply list_elem_of_fmap_2. }
  unfold holds. split.
  - intros ((_ & _ & H1) & H2) a [Ha|Ha]; rewrite <-Hl by (apply elem_of_app; auto); auto.
  - intros Hall. split; [split_and!; try done|]; intros a Ha; rewrite Hl by (apply elem_of_app; auto); auto.
Qed.

Lemma Intact_spec drv key kept db r :
  Verify_ drv key kept db = Some r → Intact r = true →
  Broken (walk (events db)) = None ∧ (∀ a, a ∈ anchors db ++ kept → holds key (events db) a)
  ∧ (drv = DriverSQLite → seq db ≤ default 0 (max_id (events db))).
Proof.
  unfold Verify_. case_bool_decide; [done|]. intros [= <-]. unfold Intact. simpl. intros [Hb Hp]%andb_true_iff. bool_simpl.
  apply app_nil in Hp as [Hp Hs]. rewrite checkAnchors_nil in Hp. split_and!; [done..|]. intros ->.
  unfold sequence_ahead in Hs. destruct (Z.ltb_spec (default 0 (max_id (events db))) (seq db)); [done|lia].
Qed.

(** * Histories of the log *)

Inductive op := ORecord (now : time) (e : Event) | OAnchor (now : time).

Definition do_op (key : bytes) (db : DB) (o : op) : DB :=
  match o with
  | ORecord now e => (Record_ now e db).2
  | OAnchor now => (Anchor_ key now db).2
  end.

Definition run_log (key : bytes) (l : list op) : DB := foldl (do_op key) empty_db l.

(** What every history of the gateway's own operations keeps. *)
Record Good (key : bytes) (db : DB) : Prop := {
  good_order : in_order (events db);
  good_positive : ∀ e, e ∈ events db → 0 < ID e;
  good_chain : Chained GenesisHash (events db);
  good_seq : seq db = default 0 (max_id (events db));
  good_anchors : ∀ a, a ∈ anchors db → holds key (events db) a;
}.

Lemma hash_of_app rows rows' id h : hash_of rows id = Some h → hash_of (rows ++ rows') id = Some h.
Proof.
  unfold hash_of. induction rows as [|e rows IH]; simpl; [done|]. by destruct (bool_decide (ID e = id)).
Qed.

Lemma sorted_snoc rows e : in_order rows → (∀ x, x ∈ rows → ID x < ID e) → in_order (rows ++ [e]).
Proof.
  induction rows as [|x rows IH]; simpl; intros Hs Hlt; [repeat constructor|].
  apply StronglySorted_inv in Hs as [Hs Hf]. constructor; [apply IH; [done|]; intros y Hy; apply Hlt; by right|].
  apply Forall_app. split; [done|]. constructor; [|constructor]. apply Hlt. left.
Qed.

Lemma next_id_gt s ids i : i ∈ ids → i < next_id s ids.
Proof.
  unfold next_id. induction ids as [|x ids IH]; simpl; [by intros ?%not_elem_of_nil|].
  intros [->|Hi]%elem_of_cons; [lia|]. specialize (IH Hi). lia.
Qed.

Lemma next_id_seq s ids : s < next_id s ids.
Proof. unfold next_id. induction ids; simpl; lia. Qed.

Lemma newest_hash_head l :
  Chained GenesisHash l →
  (if bool_decide (newest_hash l = "") then GenesisHash else newest_hash l) = head_hash GenesisHash l.
Proof.
  destruct l as [|e l _] using rev_ind; [done|]. rewrite Chained_app, head_hash_snoc. intros (_ & Hl & _).
  unfold newest_hash. rewrite last_snoc. apply Linked_hash in Hl. rewrite bool_decide_eq_false_2; [done|].
  intros E. rewrite E in Hl. done.
Qed.

Lemma Linked_set_id prev e id : Linked prev e → Linked prev (set_id e id).
Proof. done. Qed.

Lemma max_id_snoc l e : max_id (l ++ [e]) = Some (ID e).
Proof. unfold max_id. by rewrite last_snoc. Qed.

Lemma max_id_bound l e : in_order l → e ∈ l → ID e ≤ default 0 (max_id l).
Proof.
  intros Hs He. destruct l as [|x l _] using rev_ind; [by apply not_elem_of_nil in He|]. rewrite max_id_snoc. simpl.
  apply elem_of_app in He as [He| ->%list_elem_of_singleton]; [|lia].
  pose proof (sorted_app_lt _ _ Hs e x He ltac:(left)). lia.
Qed.

Lemma Good_seq_nonneg key db : Good key db → 0 ≤ seq db.
Proof.
  intros HG. rewrite (good_seq _ _ HG). unfold max_id. destruct (last (events db)) as [x|] eqn:E; simpl; [|lia].
  apply last_Some_elem_of in E. pose proof (good_positive _ _ HG x E). lia.
Qed.

Lemma Good_record key now e db : Good key db → Good key (Record_ now e db).2.
Proof.
  intros HG. unfold Record_. case_bool_decide; [done|]. case_bool_decide; [done|].
  destruct (Link _ _) as [e'|] eqn:Hl; [|done]. cbn [snd].
  apply Link_linked in Hl. rewrite newest_hash_head in Hl by apply HG.
  set (id := next_id (seq db) (ID <$> events db)).
  assert (∀ x, x ∈ events db → ID x < id) as Hid.
  { intros x Hx. apply next_id_gt. by apply list_elem_of_fmap_2. }
  assert (0 < id) as Hpos.
  { pose proof (next_id_seq (seq db) (ID <$> events db)). pose proof (Good_seq_nonneg _ _ HG). unfold id. lia. }
  split; cbn [events anchors seq].
  - apply sorted_snoc; [apply HG|done].
  - intros x [Hx| ->%list_elem_of_singleton]%elem_of_app; [by apply (good_positive _ _ HG)|done].
  - apply Chained_app. split; [apply HG|]. split; [by apply Linked_set_id|done].
  - by rewrite max_id_snoc.
  - intros a Ha. destruct (good_anchors _ _ HG a Ha) as [Hs Hh]. split; [done|]. by apply hash_of_app.
Qed.


Lemma hash_of_last rows e : in_order rows → last rows = Some e → hash_of rows (ID e) = Some (Hash e).
Proof. intros Hs He%last_Some_elem_of. by apply hash_of_unique; [apply in_order_ids|]. Qed.

(** What [Anchor_] returns is an anchor on the newest event, signed with the key. *)
Lemma Anchor_newest key now db a e :
  last (events db) = Some e → (Anchor_ key now db).1 = Ok a →
  Signed a key = true ∧ EventID a = ID e ∧ aHash a = Hash e.
Proof.
  intros He. unfold Anchor_. case_bool_decide as Hk; [done|]. rewrite He.
  destruct (_ && _ && _) eqn:E; cbn [fst].
  - bool_simpl. intros [= <-]. done.
  - clear E. destruct (negb _ && negb _); [done|]. cbn [fst]. intros [= <-]. split; [|done].
    unfold Signed. rewrite bool_decide_eq_false_2 by done. simpl. by apply bool_decide_eq_true.
Qed.

Lemma Good_anchor key now db : Good key db → Good key (Anchor_ key now db).2.
Proof.
  intros HG. destruct (last (events db)) as [e|] eqn:He.
  - pose proof (Anchor_newest key now db) as Hn. unfold Anchor_ in *. case_bool_decide; [done|]. rewrite He in *.
    destruct (_ && _ && _); [done|]. destruct (negb _ && negb _); [done|]. cbn [snd fst] in *.
    split; cbn [events anchors seq]; try apply HG.
    intros a [Ha| ->%list_elem_of_singleton]%elem_of_app; [by apply (good_anchors _ _ HG)|].
    destruct (Hn _ e eq_refl eq_refl) as (? & ? & ?). split; [done|]. apply hash_of_last; [apply HG|done].
  - unfold Anchor_. case_bool_decide; [done|]. by rewrite He.
Qed.

Lemma run_log_Good key l : Good key (run_log key l).
Proof.
  unfold run_log. induction l as [|o l IH] using rev_ind.
  - split; simpl; try done; [constructor|by intros e ?%not_elem_of_nil..].
  - rewrite foldl_app. simpl. destruct o; [by apply Good_record|by apply Good_anchor].
Qed.

Lemma after_id_all rows : (∀ e, e ∈ rows → 0 < ID e) → after_id 0 rows = rows.
Proof. intros Hp. apply filter_all. intros e He. apply Z.ltb_lt. auto. Qed.




(** * What a kept anchor proves *)

Lemma prefix_to rows e :
  in_order rows → e ∈ rows → ∃ p q, rows = p ++ e :: q ∧ List.filter (λ x, ID x <=? ID e) rows = p ++ [e].
Proof.
  intros Hs (p & q & E)%list_elem_of_split. exists p, q. split; [done|]. subst rows.
  rewrite List.filter_app. simpl. rewrite Z.leb_refl. rewrite (filter_all _ p), (filter_none _ q); [done| |].
  - intros x Hx. apply Z.leb_gt. rewrite (app_assoc p [e] q : p ++ e :: q = (p ++ [e]) ++ q) in Hs.
    eapply sorted_app_lt; [exact Hs|set_solver|done].
  - intros x Hx. apply Z.leb_le. pose proof (sorted_app_lt _ _ Hs x e Hx ltac:(left)). lia.
Qed.

(** The events up to an id that verification covers. *)
Definition up_to (id : Z) (rows : list Event) : list Event := List.filter (λ x, ID x <=? id) (after_id 0 rows).

(** C5. An anchor pins everything before it.  Take an anchor the gateway wrote
over its log and kept anywhere, and any database at all in its place, edited,
truncated or rebuilt, read in the order of its ids: if verification with the key
and that anchor finds nothing wrong there, its rows from id 1 to the anchored
event are, one for one, events whose hashed text is that of the log when the
anchor was written, so that where the texts of both are valid UTF-8 and their
years have four digits they agree in time, actor, address, action, object, outcome
and details; or else the two logs between them exhibit two texts with one SHA-256
hash, or an event whose hash is the all-zero seed.  The ids of the rows before the
anchored one are not pinned, and rows with an id of zero or less are not looked at
([forged_row_unseen]). *)
Theorem anchor_pins_log drv key l now a db' kept r :
  events (run_log key l) ≠ [] →
  (Anchor_ key now (run_log key l)).1 = Ok a →
  in_order (events db') → a ∈ anchors db' ++ kept →
  Verify_ drv key kept db' = Some r → Intact r = true →
  Forall2 pinned (events (run_log key l)) (up_to (EventID a) (events db'))
  ∨ collision (events (run_log key l)) (up_to (EventID a) (events db'))
  ∨ hits_genesis (events (run_log key l) ++ up_to (EventID a) (events db')).
Proof.
  intros Hne Ha Hs Hin Hv Hi. pose proof (run_log_Good key l) as HG. set (db := run_log key l) in *.
  destruct (last (events db)) as [e|] eqn:He; [|by apply last_None in He].
  destruct (Anchor_newest key now db a e He Ha) as (_ & Hid & Hh).
  pose proof (good_positive _ _ HG e (last_Some_elem_of _ _ He)) as Hpos.
  destruct (Intact_spec _ _ _ _ _ Hv Hi) as (Hw & Hhold & _). rewrite walk_intact in Hw by done.
  destruct (Hhold a Hin) as [_ Hrow]. apply hash_of_spec in Hrow as (x & Hx & Hxid & Hxh).
  assert (in_order (after_id 0 (events db'))) as Hs' by by apply sorted_filter.
  assert (x ∈ after_id 0 (events db')) as Hx'.
  { apply list_elem_of_In, filter_In. split; [by apply list_elem_of_In|]. apply Z.ltb_lt. lia. }
  destruct (prefix_to _ _ Hs' Hx') as (p & q & E & Hp). rewrite Hxid in Hp. fold (up_to (EventID a) (events db')) in Hp.
  apply equal_heads; [apply HG| |].
  - rewrite Hp. rewrite E in Hw. rewrite (app_assoc p [x] q : p ++ x :: q = (p ++ [x]) ++ q), Chained_app in Hw. apply Hw.
  - rewrite Hp, head_hash_snoc, Hxh, Hh. destruct (events db) as [|y rows _] using rev_ind; [done|].
    rewrite last_snoc in He. injection He as ->. by rewrite head_hash_snoc.
Qed.

(** Deleting from the end is noticed before any anchor covers it: on SQLite,
when the newest events of an honest log are gone, whatever anchors are left,
verification is not clean. *)
Theorem truncation_noticed key l n kept anchors' r :
  (n < length (events (run_log key l)))%nat →
  Verify_ DriverSQLite key kept
    {| events := take n (events (run_log key l)); anchors := anchors'; seq := seq (run_log key l);
       anchor_seq := anchor_seq (run_log key l) |} = Some r →
  Intact r = false.
Proof.
  intros Hn Hv. apply not_true_iff_false. intros Hi. pose proof (run_log_Good key l) as HG. set (db := run_log key l) in *.
  destruct (Intact_spec _ _ _ _ _ Hv Hi) as (_ & _ & Hseq). specialize (Hseq eq_refl). cbn [seq events] in Hseq.
  rewrite (good_seq _ _ HG) in Hseq. destruct (last (events db)) as [e|] eqn:He; [|apply last_None in He; rewrite He in Hn; simpl in Hn; lia].
  unfold max_id in Hseq. rewrite He in Hseq. simpl in Hseq. pose proof (last_Some_elem_of _ _ He) as Hein.
  pose proof (good_positive _ _ HG e Hein). destruct (last (take n (events db))) as [x|] eqn:Hx; simpl in Hseq; [|lia].
  apply last_Some_elem_of in Hx. pose proof (good_order _ _ HG) as Ho. rewrite <-(take_drop n (events db)) in Ho.
  assert (e ∈ drop n (events db)) as Hd.
  { rewrite <-(take_drop n (events db)) in He. rewrite last_app in He.
    destruct (last (drop n (events db))) as [y|] eqn:Hy; [injection He as ->; by apply last_Some_elem_of|].
    apply last_None in Hy. apply (f_equal length) in Hy. rewrite length_drop in Hy. simpl in Hy. lia. }
  pose proof (sorted_app_lt _ _ Ho x e Hx Hd). lia.
Qed.

(** Verification does not look below id 1: a row written into the table with
an id of zero or less, whatever it says, changes nothing that verification
reports on a log that has events. *)
Theorem forged_row_unseen drv key kept db f :
  events db ≠ [] → ID f ≤ 0 → in_order (f :: events db) →
  (∀ a, a ∈ anchors db ++ kept → 0 < EventID a) →
  Verify_ drv key kept {| events := f :: events db; anchors := anchors db; seq := seq db; anchor_seq := anchor_seq db |}
  = Verify_ drv key kept db.
Proof.
  intros Hne Hf Hs Ha. unfold Verify_. case_bool_decide; [done|].
  set (db' := {| events := f :: events db |}).
  assert (max_id (events db') = max_id (events db)) as Hm.
  { unfold max_id. simpl. by destruct (events db). }
  assert (walk (events db') = walk (events db)) as Hw.
  { pose proof Hs as [Hs' _]%StronglySorted_inv. rewrite !walk_spec by done. unfold after_id. simpl.
    by rewrite (proj2 (Z.ltb_ge _ _)). }
  assert (∀ a, a ∈ anchors db ++ kept → with_kept db' kept !! EventID a = with_kept db kept !! EventID a) as Hk.
  { intros a Hin. rewrite !with_kept_lookup. simpl. case_decide; [|done]. unfold hash_of. simpl.
    rewrite bool_decide_eq_false_2; [done|]. specialize (Ha a Hin). lia. }
  assert (check_all key db' kept = check_all key db kept) as Hc.
  { unfold check_all. rewrite Hm. change (anchors db') with (anchors db).
    assert (∀ sup c l, (∀ a, a ∈ l → a ∈ anchors db ++ kept) →
      foldl (check_anchor key (with_kept db' kept) (default 0 (max_id (events db))) sup) c l
      = foldl (check_anchor key (with_kept db kept) (default 0 (max_id (events db))) sup) c l) as Hfold.
    { intros sup c l. revert c. induction l as [|a l IH]; intros c Hl; simpl; [done|].
      rewrite IH by (intros x Hx; apply Hl; by right). f_equal. unfold check_anchor. by rewrite Hk by (apply Hl; left). }
    rewrite Hfold by set_solver. by rewrite Hfold by set_solver. }
  unfold checkAnchors, sequence_ahead. rewrite Hc, Hw, Hm. done.
Qed.

(** * Printing and reading an anchor *)

(** Printing characters, none of them white space. *)
Definition word (b : bytes) : Prop := b ≠ [] ∧ Forall (λ a, (33 <= byte_N a < 127)%N) b.

Lemma not_space n : (33 <= n < 127)%N → Unicode.IsSpace n = false.
Proof. unfold Unicode.IsSpace, Unicode.in_range. lia. Qed.

Lemma fields_word w rest cur :
  Forall (λ a, (33 <= byte_N a < 127)%N) w →
  fields_loop (((λ a, (byte_N a, [a])) <$> w) ++ rest) cur = fields_loop rest (cur ++ w).
Proof.
  intros Hw. revert cur. induction Hw as [|a w Ha Hw IH]; intros cur; simpl; [by rewrite app_nil_r|].
  rewrite not_space by done. by rewrite IH, <-app_assoc.
Qed.

Lemma Fields_cons w rest :
  word w → Forall (λ a, (byte_N a < 128)%N) rest → Fields (w ++ sp ++ rest) = w :: Fields rest.
Proof.
  intros [Hne Hw] Hr. unfold Fields. rewrite (Utf8.chunks_ascii rest) by done. rewrite Utf8.chunks_ascii.
  - rewrite !fmap_app, fields_word by done. simpl. by rewrite bool_decide_eq_false_2.
  - rewrite !Forall_app. split_and!; [|by repeat constructor|done]. eapply Forall_impl; [done|]. simpl. lia.
Qed.

Lemma Fields_last w : word w → Fields w = [w].
Proof.
  intros [Hne Hw]. unfold Fields. rewrite Utf8.chunks_ascii by (eapply Forall_impl; [done|]; simpl; lia).
  rewrite <-(app_nil_r ((λ a, (byte_N a, [a])) <$> w)), fields_word by done. simpl. by rewrite bool_decide_eq_false_2.
Qed.

Lemma word_ascii w : word w → Forall (λ a, (byte_N a < 128)%N) w.
Proof. intros [_ Hw]. eapply Forall_impl; [done|]. simpl. lia. Qed.

Lemma decimal_word n : word (decimal n).
Proof.
  split; [apply decimal_nonempty|]. eapply Forall_impl; [apply digits_all|]. intros a Ha. unfold is_digit in Ha. lia.
Qed.

(** Lower-case hexadecimal digits. *)
Lemma hex_chars b : Forall (λ a, (48 <= byte_N a <= 57 ∨ 97 <= byte_N a <= 102)%N) (b ≫= Hex.encode_byte).
Proof.
  assert (∀ n, (n < 16)%N → (48 <= byte_N (Hex.nibble n) <= 57 ∨ 97 <= byte_N (Hex.nibble n) <= 102)%N) as Hn.
  { intros n Hn. unfold Hex.nibble, byte_N, byte_of. destruct (N.ltb_spec n 10); rewrite N_ascii_embedding by lia; lia. }
  induction b as [|a b IH]; [constructor|]. rewrite bind_cons. apply Forall_app. split; [|done].
  pose proof (byte_N_bound a). apply Forall_cons. split; [|apply Forall_cons; split; [|apply Forall_nil_2]]; apply Hn; div_lia.
Qed.

Lemma lower_hex b : lower (b ≫= Hex.encode_byte) = Hex.EncodeToString b.
Proof.
  unfold lower, Strings.ToLower, Utf8.runes, Hex.EncodeToString. rewrite to_of_bytes. f_equal.
  pose proof (hex_chars b) as Hc. set (l := b ≫= Hex.encode_byte) in *. clearbody l.
  rewrite Utf8.chunks_ascii by (eapply Forall_impl; [done|]; simpl; lia).
  induction Hc as [|a l Ha Hl IH]; [done|]. rewrite !fmap_cons. cbn [concat]. rewrite IH. cbn [compose fst].
  assert (Unicode.ToLower (byte_N a) = byte_N a) as ->.
  { unfold Unicode.ToLower, Unicode.in_range. destruct (N.ltb_spec (byte_N a) 128); [|lia]. case_match; bool_simpl; lia. }
  by rewrite Utf8.encode_ascii by lia.
Qed.

Lemma isHex256_hex b : length b = 32%nat → isHex256 (b ≫= Hex.encode_byte) = true.
Proof.
  intros Hl. unfold isHex256. rewrite Hex.encode_length, Hl. simpl.
  apply bool_decide_eq_true. rewrite Hex.decode_encode_hex. eauto.
Qed.

Lemma hex_word b : length b = 32%nat → word (b ≫= Hex.encode_byte).
Proof.
  intros Hl. split; [|eapply Forall_impl; [apply hex_chars|]; simpl; lia].
  intros E%(f_equal length). rewrite Hex.encode_length, Hl in E. done.
Qed.

Lemma time_word t : four_digit_year t → word (FormatRFC3339Nano t).
Proof.
  intros Hy. split.
  - unfold FormatRFC3339Nano. intros [_ [_ ?]%app_nil]%app_nil. done.
  - pose proof (digits_ascii) as _. unfold FormatRFC3339Nano, date_time, year_text, two, fraction.
    assert (∀ w n, Forall (λ a, (33 <= byte_N a < 127)%N) (digits w n)) as Hd.
    { intros w n. eapply Forall_impl; [apply digits_all|]. intros a Ha. unfold is_digit in Ha. lia. }
    destruct (Z.ltb_spec (year (cdate (clock_of t))) 0); [unfold four_digit_year in Hy; lia|].
    rewrite !Forall_app. split_and!; try apply Hd; try (by repeat constructor).
    destruct (trim_zeros _) as [|x l] eqn:E; [done|]. apply Forall_app. split; [by repeat constructor|].
    rewrite <-E. apply Forall_forall. intros a Ha%trim_zeros_sub.
    specialize (Hd 9%nat (Z.to_N (nanos (clock_of t)))). rewrite Forall_forall in Hd. auto.
Qed.

(** An anchor line reads back: what audit anchor prints for an anchor (a
positive event id, SHA-256 digests in hexadecimal, a time whose year has four
digits) audit verify reads as the same anchor, signature included. *)
Theorem anchor_line_round_trip id h m t :
  0 < id ≤ MaxInt64 → length h = 32%nat → length m = 32%nat → four_digit_year t →
  let a := {| aID := 0; EventID := id; aHash := Hex.EncodeToString h; CreatedAt := t; MAC := Hex.EncodeToString m |} in
  ParseAnchor (Line a) = Ok a.
Proof.
  intros Hid Hh Hm Ht a. unfold ParseAnchor, Line, a. simpl EventID. cbn [aHash CreatedAt MAC].
  pose proof (hex_word h Hh) as Wh. pose proof (hex_word m Hm) as Wm. pose proof (time_word t Ht) as Wt.
  assert (FormatInt id = decimal (Z.to_N id)) as Ei by (unfold FormatInt; by rewrite (proj2 (Z.ltb_ge _ _)) by lia).
  unfold Hex.EncodeToString at 1 2. rewrite !to_of_bytes.
  pose proof (decimal_word (Z.to_N id)) as Wi. rewrite Ei.
  assert (word (to_bytes "anchor")) as W0 by (by split; [|repeat constructor]).
  assert (Forall (λ a, (byte_N a < 128)%N) sp) as Ws by (by repeat constructor).
  pose proof (word_ascii _ Wi). pose proof (word_ascii _ Wh). pose proof (word_ascii _ Wm). pose proof (word_ascii _ Wt).
  do 4 (rewrite Fields_cons; [|done|rewrite ?Forall_app; tauto]). rewrite Fields_last by done.
  rewrite bool_decide_eq_true_2 by done.
  rewrite <-Ei, ParseInt_FormatInt by (unfold in_int64, MinInt64, MaxInt64 in *; lia).
  rewrite (proj2 (Z.leb_gt _ _)) by lia. rewrite Parse_Format by done.
  rewrite !lower_hex. unfold Hex.EncodeToString at 1 2. rewrite !to_of_bytes, !isHex256_hex by done. done.
Qed.

(** * Rotating the key *)

Lemma Signed_mac a key : key ≠ [] → Signed (set_mac a (mac a key)) key = true.
Proof. intros Hk. unfold Signed. rewrite bool_decide_eq_false_2 by done. simpl. by apply bool_decide_eq_true. Qed.

Lemma resign_signed old new a :
  new ≠ [] → Signed (resign old new a) new = Signed a new || Signed a old.
Proof.
  intros Hk. unfold resign. destruct (Signed a new) eqn:E; [done|]. destruct (Signed a old); [by apply Signed_mac|done].
Qed.

Lemma resign_fixed old new a : new ≠ [] → resign old new (resign old new a) = resign old new a.
Proof.
  intros Hk. pose proof (resign_signed old new a Hk) as Hs. unfold resign at 1. rewrite Hs.
  unfold resign. destruct (Signed a new) eqn:E, (Signed a old) eqn:E'; simpl; try done. by rewrite E'.
Qed.

(** Rotating the master key keeps the log verifiable: re-signing leaves every
event and every anchored id, hash and time alone, signs under the new key exactly
the anchors that were genuine under either key, leaves the others as they were,
changes nothing when run again, and an honest log under the old key verifies
under the new one. *)
Theorem resign_keeps_log old new l :
  old ≠ [] → new ≠ [] →
  let db := run_log old l in let db' := (ResignAnchors old new db).2 in
  events db' = events db
  ∧ Forall2 (λ a a', EventID a' = EventID a ∧ aHash a' = aHash a ∧ CreatedAt a' = CreatedAt a
       ∧ Signed a' new = Signed a new || Signed a old
       ∧ (Signed a new || Signed a old = false → a' = a)) (anchors db) (anchors db')
  ∧ (ResignAnchors old new db').2 = db'
  ∧ ∃ r, Verify_ DriverSQLite new [] db' = Some r ∧ Intact r = true.
Proof.
  intros Ho Hk db db'. assert (db' = {| events := events db; anchors := resign old new <$> anchors db; seq := seq db;
    anchor_seq := anchor_seq db |}) as Edb by (unfold db', ResignAnchors; by rewrite !bool_decide_eq_false_2).
  assert (∀ a, EventID (resign old new a) = EventID a ∧ aHash (resign old new a) = aHash a
    ∧ CreatedAt (resign old new a) = CreatedAt a) as Hsame by (intros a; unfold resign; by repeat case_match).
  pose proof (run_log_Good old l) as HG. fold db in HG. rewrite Edb. cbn [events anchors]. split_and!; [done|..].
  - apply Forall2_fmap_r, Forall_Forall2_diag, Forall_forall. intros a _. destruct (Hsame a) as (E1 & E2 & E3).
    split_and!; [done..|by apply resign_signed|]. intros [H1 H2]%orb_false_iff. unfold resign. by rewrite H1, H2.
  - unfold ResignAnchors. rewrite !bool_decide_eq_false_2 by done. cbn [orb snd events anchors seq anchor_seq]. f_equal.
    rewrite <-list_fmap_compose. apply list_fmap_ext. intros i a _. by apply resign_fixed.
  - unfold Verify_. rewrite bool_decide_eq_false_2 by done. eexists. split; [done|]. unfold Intact. cbn [chain Problems events].
    assert (Broken (walk (events db)) = None) as ->.
    { apply walk_intact; [apply HG|]. rewrite after_id_all by apply HG. apply HG. }
    match goal with |- context [checkAnchors ?k ?d ?m] => assert (checkAnchors k d m = []) as Hc end.
    { apply checkAnchors_nil. rewrite app_nil_r. intros a' (a & -> & Ha)%list_elem_of_fmap.
      destruct (good_anchors _ _ HG a Ha) as [Hs Hh], (Hsame a) as (E1 & E2 & _). split; [|cbn [events]; by rewrite E1, E2].
      by rewrite resign_signed, Hs, orb_true_r. }
    rewrite Hc. unfold sequence_ahead. cbn [events seq]. rewrite <-(good_seq _ _ HG). by rewrite Z.ltb_irrefl.
Qed.

End Log.

(** * Witnesses: two events with an anchor between them *)

Definition ex_key : bytes := to_bytes "0123456789abcdef".
Definition ex_new_key : bytes := to_bytes "fedcba9876543210".

Definition ex_ops : list op :=
  [ORecord 0 (ex_event (1700000000 * Second) "session.connect"); OAnchor (1700000000 * Second + 5);
   ORecord (1700000001 * Second) (ex_event zero_time "session.end")].

Definition ex_db : DB := run_log (H := ex_float) ex_key ex_ops.
Definition ex_anchor : Anchor := default zero_anchor (head (anchors ex_db)).

Lemma ex_in_order : in_order (events ex_db).
Proof. unfold in_order, id_lt. vm_compute. repeat constructor. Qed.

Lemma walk_is_one_pass_witness :
  Checked (walk (H := ex_float) (events ex_db)) = 2%nat.
Proof.
  pose proof (walk_is_one_pass (H := ex_float) (events ex_db) ex_in_order) as [_ Hd].
  destruct Hd as [-> _]; by vm_compute.
Defined.


Definition ex_one : DB := run_log (H := ex_float) ex_key (take 1 ex_ops).

(** The anchor written after the first event, checked against the later log. *)
Lemma anchor_pins_log_witness :
  Forall2 (pinned (H := ex_float)) (events ex_one) (up_to (EventID ex_anchor) (events ex_db))
  ∨ collision (H := ex_float) (events ex_one) (up_to (EventID ex_anchor) (events ex_db))
  ∨ hits_genesis (events ex_one ++ up_to (EventID ex_anchor) (events ex_db)).
Proof.
  destruct (Verify_ (H := ex_float) DriverSQLite ex_key [ex_anchor] ex_db) as [r|] eqn:E; [|by vm_compute in E].
  apply (anchor_pins_log (H := ex_float) DriverSQLite ex_key (take 1 ex_ops) (1700000000 * Second + 5) ex_anchor ex_db [ex_anchor] r).
  - by vm_compute.
  - by vm_compute.
  - apply ex_in_order.
  - apply elem_of_app. right. left.
  - exact E.
  - vm_compute in E. injection E as <-. by vm_compute.
Defined.

Definition ex_cut : DB :=
  {| events := take 1 (events ex_db); anchors := []; seq := seq ex_db; anchor_seq := anchor_seq ex_db |}.

Lemma truncation_noticed_witness :
  ∃ r, Verify_ (H := ex_float) DriverSQLite ex_key [] ex_cut = Some r ∧ Intact r = false.
Proof.
  destruct (Verify_ (H := ex_float) DriverSQLite ex_key [] ex_cut) as [r|] eqn:E; [|by vm_compute in E].
  exists r. split; [done|]. apply (truncation_noticed (H := ex_float) ex_key ex_ops 1 [] [] r); [|exact E].
  assert (length (events (run_log (H := ex_float) ex_key ex_ops)) = 2%nat) as -> by (by vm_compute). lia.
Defined.

(** A forged event with id 0, and verification still finds nothing wrong. *)
Definition ex_forged : DB :=
  {| events := set_id (ex_event 0 "user.create") 0 :: events ex_db; anchors := anchors ex_db; seq := seq ex_db;
     anchor_seq := anchor_seq ex_db |}.

Lemma forged_row_unseen_witness :
  Verify_ (H := ex_float) DriverSQLite ex_key [] ex_forged = Verify_ (H := ex_float) DriverSQLite ex_key [] ex_db.
Proof.
  apply (forged_row_unseen (H := ex_float) DriverSQLite ex_key [] ex_db (set_id (ex_event 0 "user.create") 0)); [by vm_compute|done|..].
  - unfold in_order, id_lt. vm_compute. repeat constructor.
  - assert (anchors ex_db = [ex_anchor]) as -> by (by vm_compute). intros a ->%list_elem_of_singleton. by vm_compute.
Defined.

Example ex_forged_intact : Intact <$> Verify_ (H := ex_float) DriverSQLite ex_key [] ex_forged = Some true.
Proof. by vm_compute. Qed.

Lemma anchor_line_round_trip_witness :
  let a := {| aID := 0; EventID := 7; aHash := Hex.EncodeToString (Sha.Sum256 []); CreatedAt := 1700000000 * Second + 120;
              MAC := Hex.EncodeToString (Sha.Sum256 (to_bytes "x")) |} in
  ParseAnchor (Line a) = Ok a.
Proof.
  apply (anchor_line_round_trip 7 (Sha.Sum256 []) (Sha.Sum256 (to_bytes "x"))); [done|apply Sha.Sum256_length..|].
  split; by vm_compute.
Defined.

Lemma resign_keeps_log_witness :
  ∃ r, Verify_ (H := ex_float) DriverSQLite ex_new_key [] (ResignAnchors ex_key ex_new_key ex_db).2 = Some r ∧ Intact r = true.
Proof. apply (resign_keeps_log (H := ex_float) ex_key ex_new_key ex_ops); done. Defined.
