(* ===== verification/AuditOps.v ===== *)
(** Working with the stored audit log: listing it in pages, exporting it to
sinks, counting it, and the last-resort Reseal (src/internal/audit/store.go and
export.go), over the database of AuditLog.v. *)
From Stdlib Require Import Sorted.
From S2P Require Import Prelude GoText Strconv Sha256 Clock Json AuditChain AuditLog.
Local Open Scope Z_scope.

(** * Listing *)

Definition defaultListLimit : Z := 50.
Definition maxListLimit : Z := 500.

Record Filter := {
  fActorUserID : string;
  fSubject : string;
  fOwnActions : list string;
  fAction : string;
  fOutcome : string;
  fObjectType : string;
  fObjectID : string;
  fFrom : time;
  fTo : time;
  fExclude : list string;
  fCursor : string;
  fLimit : Z;
}.

Definition legacyObjectTypes : gmap string (list string) := {[ "access_policy" := ["policy"] ]}.

(** [strings.Cut(s, ":")]. *)
Fixpoint cut_colon (b : bytes) : option (bytes * bytes) :=
  match b with
  | [] => None
  | a :: b => if bool_decide (a = byte_of 58) then Some ([], b) else '(l, r) ← cut_colon b; Some (a :: l, r)
  end.

(** [NOT (action = ? AND outcome = ?)], or [action <> ?]. *)
Definition excluded (ex : string) (e : Event) : bool :=
  match cut_colon (to_bytes ex) with
  | Some (a, o) => bool_decide (Action e = of_bytes a) && bool_decide (Outcome e = of_bytes o)
  | None => bool_decide (Action e = ex)
  end.

Definition given (s : string) (p : bool) : bool := bool_decide (s = "") || p.

(** [tsArg]: SQLite compares to the microsecond, PostgreSQL exactly. *)
Definition tsArg (drv : Driver) (t : time) : time :=
  match drv with DriverPostgres => t | DriverSQLite => truncate_us t end.

(** The WHERE clause, the cursor aside.  [owns r u] is that access request [r]
is of user [u]. *)
Definition selected (drv : Driver) (owns : string → string → bool) (f : Filter) (e : Event) : bool :=
  let theirs := bool_decide (ObjectType e = "access_request") && owns (ObjectID e) (fSubject f) in
  given (fActorUserID f) (bool_decide (ActorUserID e = fActorUserID f))
  && given (fSubject f)
       ((bool_decide (ActorUserID e = fSubject f)
         || (bool_decide (ObjectType e = "user") && bool_decide (ObjectID e = fSubject f)) || theirs)
        && (bool_decide (fOwnActions f = [])
            || (negb (bool_decide (ActorUserID e = fSubject f)) || contains (fOwnActions f) (Action e) || theirs)))
  && given (fAction f) (bool_decide (Action e = fAction f))
  && given (fOutcome f) (bool_decide (Outcome e = fOutcome f))
  && given (fObjectType f) (contains (fObjectType f :: default [] (legacyObjectTypes !! fObjectType f)) (ObjectType e))
  && given (fObjectID f) (bool_decide (ObjectID e = fObjectID f))
  && forallb (λ ex, negb (excluded ex e)) (fExclude f)
  && (bool_decide (fFrom f = zero_time) || (tsArg drv (fFrom f) <=? Timestamp e))
  && (bool_decide (fTo f = zero_time) || (Timestamp e <? tsArg drv (fTo f))).

Definition page_limit (f : Filter) : nat :=
  Z.to_nat (if fLimit f <=? 0 then defaultListLimit else if maxListLimit <? fLimit f then maxListLimit else fLimit f).

(** A page, newest first, and the cursor of the next; [None] for a bad cursor. *)
Definition List_ (drv : Driver) (owns : string → string → bool) (f : Filter) (rows : list Event)
    : option (list Event * string) :=
  before ← (if bool_decide (fCursor f = "") then Some None else Some <$> ParseInt (to_bytes (fCursor f)));
  let limit := page_limit f in
  let found := take (S limit)
    (rev (List.filter (λ e, selected drv owns f e && match before with None => true | Some id => ID e <? id end) rows)) in
  if (limit <? length found)%nat then
    let page := take limit found in
    Some (page, match last page with Some e => of_bytes (FormatInt (ID e)) | None => "" end)
  else Some (found, "").

Definition at_cursor (f : Filter) (c : string) : Filter := {|
  fActorUserID := fActorUserID f; fSubject := fSubject f; fOwnActions := fOwnActions f; fAction := fAction f;
  fOutcome := fOutcome f; fObjectType := fObjectType f; fObjectID := fObjectID f; fFrom := fFrom f; fTo := fTo f;
  fExclude := fExclude f; fCursor := c; fLimit := fLimit f |}.

(** A reader that follows the cursors to the end. *)
Fixpoint read_pages (fuel : nat) (drv : Driver) (owns : string → string → bool) (f : Filter) (rows : list Event)
    : option (list Event) :=
  match fuel with
  | O => None
  | S fuel =>
      '(page, next) ← List_ drv owns f rows;
      if bool_decide (next = "") then Some page
      else rest ← read_pages fuel drv owns (at_cursor f next) rows; Some (page ++ rest)
  end.

(** * Counting *)

Record Tally := { tAction : string; tOutcome : string; tCount : nat }.

Definition pairs (l : list Event) : list (string * string) := remove_dups ((λ e, (Action e, Outcome e)) <$> l).

(** GROUP BY action, outcome; SQL leaves the order of the groups open. *)
Definition TallySince (drv : Driver) (since : time) (rows : list Event) : list Tally :=
  let l := List.filter (λ e, tsArg drv since <=? Timestamp e) rows in
  (λ p, {| tAction := p.1; tOutcome := p.2;
           tCount := length (List.filter (λ e, bool_decide ((Action e, Outcome e) = p)) l) |}) <$> pairs l.

Fixpoint CountPer (drv : Driver) (action outcome : string) (bounds : list time) (rows : list Event) : list nat :=
  match bounds with
  | a :: (b :: _) as rest =>
      length (List.filter (λ e, bool_decide (Action e = action) && bool_decide (Outcome e = outcome)
                                && (tsArg drv a <=? Timestamp e) && (Timestamp e <? tsArg drv b)) rows)
      :: CountPer drv action outcome rest rows
  | _ => []
  end.

(** * Exporting *)

Definition Newest (rows : list Event) : Z := default 0 (max_id rows).

Definition ListAfter (afterID limit : Z) (rows : list Event) : list Event :=
  let limit := if (limit <=? 0) || (maxListLimit <? limit) then maxListLimit else limit in
  take (Z.to_nat limit) (List.filter (λ e, afterID <? ID e) rows).

(** The checkpoints table, by sink. *)
Definition ExportCheckpoint (sink : string) (st : gmap string Z) : Z := default 0 (st !! sink).

Definition SaveExportCheckpoint (sink : string) (lastID : Z) (st : gmap string Z) : gmap string Z := <[sink := lastID]> st.

Definition ExportBehind (sinks : list string) (st : gmap string Z) (rows : list Event) : Z :=
  foldl (λ behind s, let n := Newest rows - ExportCheckpoint s st in if behind <? n then n else behind) 0 sinks.

(** Flush against a sink whose successive answers are [accepts]: how many events
were accepted, whether it ended without an error, what the sink was sent and
accepted in order, and the checkpoints. *)
Fixpoint flush_loop (fuel : nat) (sink : string) (size : Z) (accepts : list bool) (rows : list Event) (last_ : Z)
    (total : nat) (sent : list Event) (st : gmap string Z) : nat * bool * list Event * gmap string Z :=
  match fuel with
  | O => (total, false, sent, st)
  | S fuel =>
      let batch := ListAfter last_ size rows in
      if bool_decide (batch = []) then (total, true, sent, st)
      else match accepts with
           | true :: accepts =>
               let last_ := match last batch with Some e => ID e | None => last_ end in
               let st := SaveExportCheckpoint sink last_ st in
               let total := (total + length batch)%nat in
               let sent := sent ++ batch in
               if Z.of_nat (length batch) <? size then (total, true, sent, st)
               else flush_loop fuel sink size accepts rows last_ total sent st
           | _ => (total, false, sent, st)
           end
  end.

Definition Flush (sink : string) (batchSize : Z) (accepts : list bool) (rows : list Event) (st : gmap string Z)
    : nat * bool * list Event * gmap string Z :=
  let size := if batchSize <=? 0 then 200 else batchSize in
  flush_loop (S (length rows)) sink size accepts rows (ExportCheckpoint sink st) 0 [] st.

(** * Following the cursors reads everything once *)

Section Pages.
Context (drv : Driver) (owns : string → string → bool) (f : Filter) (rows : list Event).
Hypothesis Hrows : in_order rows.
Hypothesis Hids : Forall (λ e, in_int64 (ID e) = true) rows.

Lemma elem_of_rev {A} (l : list A) x : x ∈ rev l ↔ x ∈ l.
Proof. by rewrite !list_elem_of_In, <-in_rev. Qed.

(** What is left to read before an id, newest first. *)
Definition left_before (before : option Z) : list Event :=
  rev (List.filter (λ e, selected drv owns f e && match before with None => true | Some id => ID e <? id end) rows).

Lemma left_next before page rest x :
  left_before before = page ++ rest → last page = Some x → left_before (Some (ID x)) = rest.
Proof.
  intros E Hx. unfold left_before in *. set (P := λ e, selected drv owns f e && _) in E.
  set (Q := λ e, selected drv owns f e && _). assert (List.filter P rows = rev rest ++ rev page) as EP.
  { by rewrite <-rev_app_distr, <-E, rev_involutive. }
  assert (x ∈ List.filter P rows) as Hin.
  { rewrite EP. apply elem_of_app. right. rewrite elem_of_rev. by apply last_Some_elem_of. }
  assert (List.filter Q rows = List.filter (λ e, ID e <? ID x) (List.filter P rows)) as ->.
  { apply list_elem_of_In, filter_In in Hin as [_ HxP]. unfold P, Q in *.
    clear -HxP. induction rows as [|e l IH]; simpl; [done|]. rewrite IH.
    destruct (selected drv owns f e); simpl; [|done]. destruct before as [id|]; simpl.
    - destruct (Z.ltb_spec (ID e) (ID x)).
      + rewrite andb_true_iff, Z.ltb_lt in HxP. rewrite (proj2 (Z.ltb_lt (ID e) id)) by lia. simpl.
        by rewrite (proj2 (Z.ltb_lt _ _)).
      + destruct (ID e <? id); simpl; [by rewrite (proj2 (Z.ltb_ge _ _))|done].
    - done. }
  assert (in_order (List.filter P rows)) as Hs by (by apply sorted_filter). rewrite EP in *.
  rewrite List.filter_app. destruct page as [|y page _] using rev_ind; [done|]. rewrite last_snoc in Hx. injection Hx as ->.
  rewrite (rev_app_distr page [x]) in *. change (rev [x] ++ rev page) with (x :: rev page) in *. rewrite (filter_all _ (rev rest)), (filter_none _ (x :: rev page)), app_nil_r, rev_involutive; [done| |].
  - intros e He. apply Z.ltb_ge. apply elem_of_cons in He as [->|He]; [lia|].
    rewrite (app_assoc (rev rest) [x] (rev page) : rev rest ++ x :: rev page = (rev rest ++ [x]) ++ rev page) in Hs.
    pose proof (sorted_app_lt _ _ Hs x e ltac:(set_solver) He). lia.
  - intros e He. apply Z.ltb_lt. eapply sorted_app_lt; [exact Hs|done|left].
Qed.

Lemma page_limit_pos g : (1 ≤ page_limit g)%nat.
Proof. unfold page_limit, defaultListLimit, maxListLimit. repeat case_match; lia. Qed.

Lemma selected_cursor c e : selected drv owns (at_cursor f c) e = selected drv owns f e.
Proof. done. Qed.

Lemma List_spec c before :
  (if bool_decide (c = "") then Some None else Some <$> ParseInt (to_bytes c)) = Some before →
  List_ drv owns (at_cursor f c) rows =
  let l := left_before before in
  if (page_limit f <? length l)%nat
  then Some (take (page_limit f) l, match last (take (page_limit f) l) with Some e => of_bytes (FormatInt (ID e)) | None => "" end)
  else Some (l, "").
Proof.
  intros Hc. unfold List_. simpl fCursor. rewrite Hc. cbn [mbind option_bind].
  change (page_limit (at_cursor f c)) with (page_limit f). 
  change (rev (List.filter (λ e, selected drv owns (at_cursor f c) e && match before with None => true | Some id => ID e <? id end) rows))
    with (left_before before). cbv zeta.
  rewrite length_take, take_take, (Nat.min_l (page_limit f) (S (page_limit f))) by lia.
  assert ((page_limit f <? S (page_limit f) `min` length (left_before before))%nat
          = (page_limit f <? length (left_before before))%nat) as -> by lia.
  destruct (Nat.ltb_spec (page_limit f) (length (left_before before))); [done|]. by rewrite take_ge by lia.
Qed.

Lemma FormatInt_nonempty z : of_bytes (FormatInt z) ≠ "".
Proof.
  intros E%(f_equal to_bytes). rewrite to_of_bytes in E. unfold FormatInt in E. case_match; [done|]. by apply decimal_nonempty in E.
Qed.

Lemma read_pages_from fuel c before :
  (if bool_decide (c = "") then Some None else Some <$> ParseInt (to_bytes c)) = Some before →
  (length (left_before before) < fuel)%nat →
  read_pages fuel drv owns (at_cursor f c) rows = Some (left_before before).
Proof.
  revert c before. induction fuel as [|fuel IH]; intros c before Hc Hf; [lia|]. cbn [read_pages].
  rewrite (List_spec c before Hc). cbv zeta. pose proof (page_limit_pos f) as Hp.
  destruct (Nat.ltb_spec (page_limit f) (length (left_before before))) as [Hlt|Hge]; cbn [mbind option_bind]; [|by rewrite bool_decide_eq_true_2].
  set (page := take (page_limit f) (left_before before)).
  destruct (last page) as [x|] eqn:Hx.
  2: { apply last_None in Hx. unfold page in Hx. apply (f_equal length) in Hx. rewrite length_take in Hx. simpl in Hx. lia. }
  rewrite bool_decide_eq_false_2 by apply FormatInt_nonempty.
  pose proof (left_next before page (drop (page_limit f) (left_before before)) x (eq_sym (take_drop _ _)) Hx) as Hn.
  assert (at_cursor (at_cursor f c) (of_bytes (FormatInt (ID x))) = at_cursor f (of_bytes (FormatInt (ID x)))) as -> by done.
  rewrite (IH _ (Some (ID x))); [cbn [mbind option_bind]; rewrite Hn; f_equal; apply take_drop| |].
  - rewrite bool_decide_eq_false_2 by apply FormatInt_nonempty. rewrite to_of_bytes, ParseInt_FormatInt; [done|].
    rewrite Forall_forall in Hids. apply Hids. apply last_Some_elem_of, elem_of_take in Hx as (i & Hx & _).
    apply list_elem_of_lookup_2 in Hx. unfold left_before in Hx.
    rewrite elem_of_rev, list_elem_of_In, filter_In in Hx. apply list_elem_of_In. apply Hx.
  - rewrite Hn, length_drop. lia.
Qed.

End Pages.

(** Following the cursors reads every matching event exactly once, newest
first, whatever the filter and page size: no event is skipped or repeated at a
page boundary, and the reading ends. *)
Theorem pages_complete drv owns f rows :
  in_order rows → Forall (λ e, in_int64 (ID e) = true) rows →
  read_pages (S (length rows)) drv owns (at_cursor f "") rows = Some (rev (List.filter (selected drv owns f) rows)).
Proof.
  intros Hs Hi. rewrite (read_pages_from drv owns f rows Hs Hi _ "" None) by (done || (unfold left_before; rewrite length_rev;
    pose proof (filter_length_le (λ e, selected drv owns f e && true) rows); lia)).
  unfold left_before. do 2 f_equal. clear. induction rows as [|e l IH]; simpl; [done|]. by rewrite andb_true_r, IH.
Qed.

(** * Exporting delivers in order and skips nothing *)

Lemma ListAfter_spec a size rows :
  1 ≤ size ≤ maxListLimit → ListAfter a size rows = take (Z.to_nat size) (after_id a rows).
Proof.
  intros Hs. unfold ListAfter, after_id. assert ((size <=? 0) || (maxListLimit <? size) = false) as -> by lia. done.
Qed.

(** The state of a flush: what was accepted, and where the next one starts. *)
Definition flushed (sink : string) (from : Z) (rows sent : list Event) (st : gmap string Z) : Prop :=
  ∃ rest, after_id from rows = sent ++ rest ∧ after_id (ExportCheckpoint sink st) rows = rest.

Lemma flush_loop_spec fuel sink size accepts rows from last_ total sent st total' ok sent' st' :
  in_order rows → 1 ≤ size ≤ maxListLimit → last_ = ExportCheckpoint sink st → total = length sent →
  flushed sink from rows sent st → (length (after_id last_ rows) < fuel)%nat →
  flush_loop fuel sink size accepts rows last_ total sent st = (total', ok, sent', st') →
  flushed sink from rows sent' st' ∧ total' = length sent'
  ∧ (ok = true → after_id (ExportCheckpoint sink st') rows = [])
  ∧ (Forall (λ b, b = true) accepts → (length (after_id last_ rows) ≤ length accepts)%nat → ok = true)
  ∧ (∀ s, s ≠ sink → st' !! s = st !! s).
Proof.
  intros Hs Hsize. revert accepts last_ total sent st.
  induction fuel as [|fuel IH]; intros accepts last_ total sent st -> -> Hfl Hf E; [lia|]. cbn [flush_loop] in E.
  rewrite ListAfter_spec in E by done. set (todo := after_id (ExportCheckpoint sink st) rows) in *.
  set (batch := take (Z.to_nat size) todo) in E. case_bool_decide as Hb.
  { injection E as <- <- <- <-. split_and!; try done. intros _. fold todo. unfold batch in Hb.
    destruct todo; [done|]. by destruct (Z.to_nat size) eqn:?; [lia|]. }
  assert (batch ++ drop (Z.to_nat size) todo = todo) as Htd by apply take_drop.
  assert (1 ≤ length batch)%nat as Hlen by (destruct batch; [done|simpl; lia]).
  assert (length batch + length (drop (Z.to_nat size) todo) = length todo)%nat as Hsum by (rewrite <-length_app; by rewrite Htd).
  destruct accepts as [|[|] accepts].
  - injection E as <- <- <- <-. split_and!; try done. simpl. lia.
  - destruct (last batch) as [x|] eqn:Hx; [|by apply last_None in Hx].
    set (st2 := SaveExportCheckpoint sink (ID x) st) in E.
    assert (ExportCheckpoint sink st2 = ID x) as Hcp by (unfold ExportCheckpoint, st2, SaveExportCheckpoint; by rewrite lookup_insert_eq).
    assert (after_id (ID x) rows = drop (Z.to_nat size) todo) as Hrest by (by eapply after_last; [done|symmetry; apply Htd|]).
    assert (flushed sink from rows (sent ++ batch) st2) as Hfl2.
    { destruct Hfl as (rest & E1 & E2). fold todo in E2. exists (drop (Z.to_nat size) todo).
      by rewrite Hcp, E1, <-E2, <-app_assoc, Htd. }
    assert (∀ s, s ≠ sink → st2 !! s = st !! s) as Hoth.
    { intros s Hne. unfold st2, SaveExportCheckpoint. by rewrite lookup_insert_ne. }
    destruct (Z.ltb_spec (Z.of_nat (length batch)) size) as [Hlt|Hge].
    + injection E as <- <- <- <-. rewrite length_app. split_and!; try done. intros _. rewrite Hcp, Hrest.
      apply nil_length_inv. unfold batch in Hlt. rewrite length_take in Hlt. rewrite length_drop. lia.
    + apply IH in E as (H1 & H2 & H3 & H4 & H5); [|by rewrite Hcp|by rewrite length_app|done|rewrite Hrest; lia].
      split_and!; try done.
      * intros [_ Ha]%Forall_cons Hl. apply H4; [done|]. rewrite Hrest. simpl in Hl. lia.
      * intros s Hne. by rewrite H5, Hoth.
  - injection E as <- <- <- <-. split_and!; try done. by intros [? _]%Forall_cons.
Qed.

(** Exporting is in order, skips nothing and forgets nothing: whatever the
sink answers, the events it accepted are the oldest ones after its checkpoint, in
chain order, and the checkpoint moves to the last of them, so the next flush
starts exactly where this one stopped; a flush the sink never refuses ends with
nothing left to send; and no other sink's checkpoint moves. *)
Theorem flush_delivers sink batchSize accepts rows st :
  in_order rows → batchSize ≤ maxListLimit →
  let '(total, ok, sent, st') := Flush sink batchSize accepts rows st in
  (∃ rest, after_id (ExportCheckpoint sink st) rows = sent ++ rest
     ∧ after_id (ExportCheckpoint sink st') rows = rest ∧ (ok = true → rest = []))
  ∧ total = length sent
  ∧ (accepts = replicate (length rows) true → ok = true)
  ∧ (∀ s, s ≠ sink → st' !! s = st !! s).
Proof.
  intros Hs Hb. destruct (Flush sink batchSize accepts rows st) as [[[total ok] sent] st'] eqn:E. unfold Flush in E.
  set (size := if batchSize <=? 0 then 200 else batchSize) in E.
  assert (1 ≤ size ≤ maxListLimit) as Hsize.
  { unfold size, maxListLimit in *. destruct (Z.leb_spec batchSize 0); lia. }
  pose proof (filter_length_le (λ e, ExportCheckpoint sink st <? ID e) rows) as Hl.
  fold (after_id (ExportCheckpoint sink st) rows) in Hl.
  eapply (flush_loop_spec _ _ _ _ _ (ExportCheckpoint sink st)) in E as ((rest & E1 & E2) & H2 & H3 & H4 & H5); try done; [|by eexists|lia].
  split_and!; try done.
  - exists rest. split_and!; try done. intros Hok. by rewrite <-E2, H3.
  - intros ->. apply H4; [apply Forall_replicate; done|by rewrite length_replicate].
Qed.

(** * Reseal *)

Section Reseal.
Context `{Float64}.

Record ResealResult := {
  Scanned : nat;
  Rewritten : nat;
  FirstID : Z;
  rLastID : Z;
  Head : string;
  AnchorsRemoved : nat;
}.

(** [UPDATE audit_events SET prev_hash = ?, hash = ? WHERE id = ?]. *)
Definition update_row (rows : list Event) (id : Z) (prev hash : string) : list Event :=
  (λ e, if bool_decide (ID e = id) then set_link e prev hash else e) <$> rows.

Definition count_row (res : ResealResult) (id : Z) (changed : bool) : ResealResult := {|
  Scanned := S (Scanned res);
  Rewritten := if changed then S (Rewritten res) else Rewritten res;
  FirstID := if changed && (FirstID res =? 0) then id else FirstID res;
  rLastID := if changed then id else rLastID res;
  Head := Head res; AnchorsRemoved := AnchorsRemoved res |}.

Fixpoint reseal_batch (batch rows : list Event) (res : ResealResult) (prev : string)
    : option (list Event * ResealResult * string) :=
  match batch with
  | [] => Some (rows, res, prev)
  | e :: batch =>
      want ← ComputeHash (set_link e prev (Hash e));
      let changed := negb (bool_decide (want = Hash e)) || negb (bool_decide (prev = PrevHash e)) in
      let rows := if changed then update_row rows (ID e) prev want else rows in
      reseal_batch batch rows (count_row res (ID e) changed) want
  end.

Fixpoint reseal_loop (fuel : nat) (rows : list Event) (afterID : Z) (res : ResealResult) (prev : string)
    : option (list Event * ResealResult * string) :=
  match fuel with
  | O => None
  | S fuel =>
      let batch := fetchBatch afterID rows in
      if bool_decide (batch = []) then Some (rows, res, prev)
      else
        '(rows, res, prev) ← reseal_batch batch rows res prev;
        if (length batch <? verifyBatchSize)%nat then Some (rows, res, prev)
        else reseal_loop fuel rows (match last batch with Some e => ID e | None => afterID end) res prev
  end.

(** The whole transaction; [None] is an error, which rolls it back. *)
Definition Reseal (db : DB) : option (ResealResult * DB) :=
  '(rows, res, prev) ← reseal_loop (S (length (events db))) (events db) 0
     {| Scanned := 0; Rewritten := 0; FirstID := 0; rLastID := 0; Head := ""; AnchorsRemoved := 0 |} GenesisHash;
  let stale a := (0 <? FirstID res) && (FirstID res <=? EventID a) && bool_decide (EventID a ∈ ID <$> rows) in
  Some ({| Scanned := Scanned res; Rewritten := Rewritten res; FirstID := FirstID res; rLastID := rLastID res;
           Head := prev; AnchorsRemoved := length (List.filter stale (anchors db)) |},
        {| events := rows; anchors := List.filter (λ a, negb (stale a)) (anchors db); seq := seq db;
           anchor_seq := anchor_seq db |}).

(** The chain rebuilt over the same contents. *)
Fixpoint relink (prev : string) (l : list Event) : option (list Event) :=
  match l with
  | [] => Some []
  | e :: l => want ← ComputeHash (set_link e prev (Hash e)); rest ← relink want l; Some (set_link e prev want :: rest)
  end.

Lemma relink_chained prev l new : relink prev l = Some new → Chained prev new.
Proof.
  revert prev new. induction l as [|e l IH]; intros prev new; simpl; [by intros [= <-]|].
  destruct (ComputeHash _) as [want|] eqn:E; [|done]. cbn [mbind option_bind].
  destruct (relink want l) as [rest|] eqn:Er; [|done]. intros [= <-]. split; [split; [done|exact E]|]. by apply IH.
Qed.

(** Everything but the links is as it was. *)
Definition same_row (e e' : Event) : Prop := e' = set_link e (PrevHash e') (Hash e').

Lemma relink_rows prev l new : relink prev l = Some new → Forall2 same_row l new.
Proof.
  revert prev new. induction l as [|e l IH]; intros prev new; simpl; [by intros [= <-]|].
  destruct (ComputeHash _) as [want|]; [|done]. cbn [mbind option_bind].
  destruct (relink want l) as [rest|] eqn:Er; [|done]. intros [= <-]. constructor; [done|by eapply IH].
Qed.

Lemma relink_id prev l : Chained prev l → relink prev l = Some l.
Proof.
  revert prev. induction l as [|e l IH]; intros prev; simpl; [done|]. intros [[Hp Hh] Hc].
  assert (set_link e prev (Hash e) = e) as Ee by (rewrite <-Hp; by destruct e). rewrite Ee, Hh. cbn [mbind option_bind].
  rewrite IH by done. cbn [mbind option_bind]. by rewrite Ee.
Qed.

Lemma relink_app prev l l' :
  relink prev (l ++ l') = new ← relink prev l; rest ← relink (head_hash prev new) l'; Some (new ++ rest).
Proof.
  revert prev. induction l as [|e l IH]; intros prev; simpl.
  - by destruct (relink prev l').
  - destruct (ComputeHash _) as [want|]; [|done]. cbn [mbind option_bind]. rewrite IH.
    destruct (relink want l) as [new|]; [|done]. cbn [mbind option_bind head_hash foldl]. simpl.
    change (foldl (λ _ e, Hash e) want new) with (head_hash want new). by destruct (relink (head_hash want new) l').
Qed.

Lemma update_row_app pre e post p h :
  NoDup (ID <$> pre ++ e :: post) → update_row (pre ++ e :: post) (ID e) p h = pre ++ set_link e p h :: post.
Proof.
  intros Hn. unfold update_row. rewrite fmap_app, fmap_cons, bool_decide_eq_true_2 by done.
  rewrite fmap_app, NoDup_app, fmap_cons, NoDup_cons in Hn. destruct Hn as (_ & Hd & He & _). f_equal; [|f_equal].
  - rewrite <-(list_fmap_id pre) at 2. apply list_fmap_ext. intros i x Hx%list_elem_of_lookup_2.
    rewrite bool_decide_eq_false_2; [done|]. intros E. apply (Hd (ID x)); [by apply list_elem_of_fmap_2|]. rewrite E. left.
  - rewrite <-(list_fmap_id post) at 2. apply list_fmap_ext. intros i x Hx%list_elem_of_lookup_2.
    rewrite bool_decide_eq_false_2; [done|]. intros E. apply He. rewrite <-E. by apply list_elem_of_fmap_2.
Qed.

Lemma reseal_batch_spec batch pre post res prev :
  NoDup (ID <$> pre ++ batch ++ post) →
  match reseal_batch batch (pre ++ batch ++ post) res prev with
  | Some (rows', res', prev') => ∃ new, relink prev batch = Some new ∧ rows' = pre ++ new ++ post ∧ prev' = head_hash prev new
      ∧ Scanned res' = (Scanned res + length batch)%nat
      ∧ (new = batch → Rewritten res' = Rewritten res ∧ FirstID res' = FirstID res)
  | None => relink prev batch = None
  end.
Proof.
  revert pre res prev. induction batch as [|e batch IH]; intros pre res prev Hn; simpl.
  { exists []. split_and!; done || (simpl; lia). }
  destruct (ComputeHash (set_link e prev (Hash e))) as [want|]; [|done]. cbn [mbind option_bind].
  set (changed := negb (bool_decide (want = Hash e)) || negb (bool_decide (prev = PrevHash e))).
  assert ((if changed then update_row (pre ++ e :: batch ++ post) (ID e) prev want else pre ++ e :: batch ++ post)
    = (pre ++ [set_link e prev want]) ++ batch ++ post) as ->.
  { destruct changed eqn:Ec; [by rewrite update_row_app, <-app_assoc|]. unfold changed in Ec. bool_simpl. subst.
    rewrite <-app_assoc. simpl. do 2 f_equal. by destruct e. }
  assert (NoDup (ID <$> (pre ++ [set_link e prev want]) ++ batch ++ post)) as Hn'.
  { revert Hn. rewrite <-app_assoc. simpl. by rewrite !fmap_app. }
  specialize (IH _ (count_row res (ID e) changed) want Hn').
  destruct (reseal_batch _ _ _ _) as [[[rows' res'] prev']|]; [|by rewrite IH].
  destruct IH as (new & -> & -> & -> & Hsc & Hrw). cbn [mbind option_bind]. exists (set_link e prev want :: new).
  split_and!; try done; [by rewrite <-app_assoc|rewrite Hsc; simpl; lia|].
  intros E. injection E as E Enew. destruct (Hrw Enew) as [-> ->]. simpl.
  assert (changed = false) as ->; [|done]. unfold changed. rewrite <-E. simpl. by rewrite !bool_decide_eq_true_2.
Qed.

Lemma in_order_fmap rows : in_order rows ↔ StronglySorted Z.lt (ID <$> rows).
Proof.
  induction rows as [|e rows IH]; [split; constructor|]. rewrite fmap_cons.
  split; intros [Hs Hf]%StronglySorted_inv; (constructor; [by apply IH|]).
  - apply Forall_fmap. eapply Forall_impl; [exact Hf|]. done.
  - apply (Forall_fmap ID) in Hf. eapply Forall_impl; [exact Hf|]. done.
Qed.

Lemma relink_ids prev l new : relink prev l = Some new → ID <$> new = ID <$> l.
Proof. intros Hr%relink_rows. induction Hr as [|e e' l l' He _ IH]; [done|]. rewrite !fmap_cons, IH. f_equal. by rewrite He. Qed.

(** The rows up to a point. *)
Definition before_id (a : Z) (rows : list Event) : list Event := List.filter (λ e, ID e <=? a) rows.

Lemma split_at rows a : in_order rows → rows = before_id a rows ++ after_id a rows.
Proof.
  unfold before_id, after_id. induction rows as [|e rows IH]; simpl; [done|]. intros [Hs Hf]%StronglySorted_inv.
  destruct (Z.leb_spec (ID e) a).
  - rewrite (proj2 (Z.ltb_ge _ _)) by done. simpl. f_equal. by apply IH.
  - rewrite (proj2 (Z.ltb_lt _ _)) by done. rewrite filter_none, filter_all; [done| |].
    + intros x Hx. rewrite Forall_forall in Hf. specialize (Hf x Hx). unfold id_lt in Hf. apply Z.ltb_lt. lia.
    + intros x Hx. rewrite Forall_forall in Hf. specialize (Hf x Hx). unfold id_lt in Hf. apply Z.leb_gt. lia.
Qed.

(** Splitting a table at [a] is unique. *)
Lemma split_unique p q a :
  (∀ e, e ∈ p → ID e ≤ a) → (∀ e, e ∈ q → a < ID e) → before_id a (p ++ q) = p ∧ after_id a (p ++ q) = q.
Proof.
  intros Hp Hq. unfold before_id, after_id. rewrite !List.filter_app.
  rewrite (filter_all _ p), (filter_none _ q), (filter_none _ p), (filter_all _ q), app_nil_r; [done|..];
    intros e He; rewrite ?Z.leb_le, ?Z.leb_gt, ?Z.ltb_lt, ?Z.ltb_ge; auto.
Qed.

Lemma ids_bound (P : Z → Prop) (l l' : list Event) : ID <$> l = ID <$> l' → (∀ e, e ∈ l → P (ID e)) → ∀ e, e ∈ l' → P (ID e).
Proof.
  intros E Hp e He. assert (ID e ∈ ID <$> l) as (x & -> & Hx)%list_elem_of_fmap by (rewrite E; by apply list_elem_of_fmap_2).
  auto.
Qed.

Lemma reseal_loop_spec fuel rows a res prev :
  in_order rows → (length (after_id a rows) < fuel)%nat →
  match reseal_loop fuel rows a res prev with
  | Some (rows', res', prev') => ∃ new, relink prev (after_id a rows) = Some new ∧ rows' = before_id a rows ++ new
      ∧ prev' = head_hash prev new ∧ Scanned res' = (Scanned res + length (after_id a rows))%nat
      ∧ (new = after_id a rows → Rewritten res' = Rewritten res ∧ FirstID res' = FirstID res)
  | None => relink prev (after_id a rows) = None
  end.
Proof.
  revert rows a res prev. induction fuel as [|fuel IH]; intros rows a res prev Hs Hf; [lia|]. cbn [reseal_loop].
  change (fetchBatch a rows) with (take verifyBatchSize (after_id a rows)). set (todo := after_id a rows) in *.
  pose proof (split_at rows a Hs) as Hrows. fold todo in Hrows.
  set (b := take verifyBatchSize todo). set (r := drop verifyBatchSize todo).
  assert (todo = b ++ r) as Htd by (symmetry; apply take_drop).
  case_bool_decide as Hb.
  { assert (todo = []) as Et by (unfold b in Hb; by destruct todo). rewrite Et in *. exists [].
    rewrite app_nil_r in *. split_and!; done || (simpl; lia). }
  assert (NoDup (ID <$> before_id a rows ++ b ++ r)) as Hn by (rewrite <-Htd, <-Hrows; by apply in_order_ids).
  pose proof (reseal_batch_spec b (before_id a rows) r res prev Hn) as Hbatch. rewrite <-Htd, <-Hrows in Hbatch.
  destruct (reseal_batch b rows res prev) as [[[rows2 res2] prev2]|]; cbn [mbind option_bind].
  2: { rewrite Htd, relink_app, Hbatch. done. }
  destruct Hbatch as (new & Hnew & Hrows2 & -> & Hsc & Hrw). rewrite Htd, relink_app, Hnew. cbn [mbind option_bind].
  rewrite length_app. destruct (Nat.ltb_spec (length b) verifyBatchSize) as [Hlt|Hge].
  { assert (r = []) as Er.
    { apply nil_length_inv. unfold r, b in *. rewrite length_take in Hlt. rewrite length_drop. lia. }
    rewrite Er in *. exists new. cbn [relink mbind option_bind]. rewrite !app_nil_r in *.
    split_and!; try done. rewrite Hsc. simpl. lia. }
  destruct (last b) as [x|] eqn:Hx; [|by apply last_None in Hx].
  pose proof (relink_ids _ _ _ Hnew) as Hids.
  assert (∀ e, e ∈ b → ID e ≤ ID x) as Hble.
  { destruct b as [|y b' _] using rev_ind; [done|]. rewrite last_snoc in Hx. injection Hx as ->.
    rewrite Htd in Hrows. rewrite Hrows, app_assoc, (app_assoc (before_id a rows)) in Hs. clear -Hs.
    intros e [He| ->%list_elem_of_singleton]%elem_of_app; [|lia]. rewrite <-app_assoc in Hs.
    pose proof (sorted_app_lt _ _ Hs e x ltac:(set_solver) ltac:(set_solver)). lia. }
  assert (∀ e, e ∈ before_id a rows → ID e ≤ a) as Hpa.
  { intros e [_ He]%list_elem_of_In%filter_In. by apply Z.leb_le in He. }
  assert (a < ID x) as Hax.
  { assert (x ∈ todo) as Hxt by (rewrite Htd; apply elem_of_app; left; by apply last_Some_elem_of).
    unfold todo in Hxt. apply list_elem_of_In, filter_In in Hxt as [_ Hxt]. by apply Z.ltb_lt in Hxt. }
  assert (∀ e, e ∈ r → ID x < ID e) as Hr.
  { intros e He. rewrite Hrows, Htd, app_assoc in Hs. eapply sorted_app_lt; [exact Hs| |done].
    apply elem_of_app. right. by apply last_Some_elem_of. }
  destruct (split_unique (before_id a rows ++ new) r (ID x)) as [Hb2 Ha2]; [|done|].
  { intros e [He|He]%elem_of_app; [specialize (Hpa e He); lia|]. by apply (ids_bound (λ i, i ≤ ID x) b new). }
  rewrite <-app_assoc, <-Hrows2 in Hb2, Ha2.
  assert (in_order rows2) as Hs2.
  { apply in_order_fmap. rewrite Hrows2, !fmap_app, Hids, <-!fmap_app, <-Htd, <-Hrows. by apply in_order_fmap. }
  specialize (IH rows2 (ID x) res2 (head_hash prev new) Hs2). rewrite Ha2, Hb2 in IH.
  assert (1 ≤ length b)%nat as Hlb by (destruct b; [done|simpl; lia]).
  assert (length todo = length b + length r)%nat as Hlen by (by rewrite Htd, length_app).
  specialize (IH ltac:(lia)). destruct (reseal_loop _ _ _ _ _) as [[[rows3 res3] prev3]|]; [|by rewrite IH].
  destruct IH as (new2 & -> & -> & -> & Hsc2 & Hrw2). cbn [mbind option_bind]. exists (new ++ new2).
  split_and!; [done|by rewrite <-app_assoc|unfold head_hash; by rewrite foldl_app|lia|].
  intros E. apply app_inj_1 in E as [-> ->]; [|apply (f_equal length) in Hids; by rewrite !length_fmap in Hids].
  destruct (Hrw eq_refl) as [<- <-]. by apply Hrw2.
Qed.

(** What Reseal does: when it commits, every event the walk covers is linked
and hashed afresh and the log verifies; every column but the two hashes is as it
was; rows with ids below one are not touched; and on a log that already verifies
it rewrites nothing and keeps every anchor. *)
Theorem reseal_spec db res db' :
  in_order (events db) → Reseal db = Some (res, db') →
  Broken (walk (events db')) = None
  ∧ Forall2 same_row (events db) (events db')
  ∧ before_id 0 (events db') = before_id 0 (events db)
  ∧ Head res = head_hash GenesisHash (after_id 0 (events db')) ∧ Scanned res = length (after_id 0 (events db))
  ∧ (Broken (walk (events db)) = None → db' = db ∧ Rewritten res = 0%nat).
Proof.
  intros Hs. unfold Reseal.
  pose proof (reseal_loop_spec (S (length (events db))) (events db) 0
    {| Scanned := 0; Rewritten := 0; FirstID := 0; rLastID := 0; Head := ""; AnchorsRemoved := 0 |} GenesisHash Hs) as Hloop.
  pose proof (filter_length_le (λ e, 0 <? ID e) (events db)) as Hlen. specialize (Hloop ltac:(unfold after_id; lia)).
  destruct (reseal_loop _ _ _ _ _) as [[[rows res0] prev]|]; [|done]. cbn [mbind option_bind].
  destruct Hloop as (new & Hnew & -> & -> & Hsc & Hrw). intros [= <- <-]. cbn [events Head Scanned].
  pose proof (relink_ids _ _ _ Hnew) as Hids.
  destruct (split_unique (before_id 0 (events db)) new 0) as [Hb Ha].
  { intros e [_ He]%list_elem_of_In%filter_In. by apply Z.leb_le in He. }
  { apply (ids_bound (λ i, 0 < i) (after_id 0 (events db)) new); [done|].
    intros e [_ He]%list_elem_of_In%filter_In. by apply Z.ltb_lt in He. }
  assert (in_order (before_id 0 (events db) ++ new)) as Hs2.
  { apply in_order_fmap. rewrite fmap_app, Hids, <-fmap_app, <-split_at by done. by apply in_order_fmap. }
  rewrite walk_intact, Ha, Hb by done. split_and!; try done.
  - by eapply relink_chained.
  - rewrite (split_at (events db) 0 Hs) at 1. apply Forall2_app; [|by eapply relink_rows].
    apply Forall_Forall2_diag, Forall_forall. intros e _. unfold same_row. by destruct e.
  - rewrite walk_intact by done. intros Hc. rewrite relink_id in Hnew by done. injection Hnew as <-.
    destruct (Hrw eq_refl) as [-> HF]. rewrite HF. cbn [FirstID]. split; [|done].
    rewrite <-split_at by done. rewrite filter_all by done. by destruct db.
Qed.

End Reseal.

(** * Witnesses, on the log of the examples *)

Definition ex_filter : Filter := {|
  fActorUserID := "u1"; fSubject := ""; fOwnActions := []; fAction := ""; fOutcome := ""; fObjectType := "";
  fObjectID := ""; fFrom := zero_time; fTo := zero_time; fExclude := ["session.connect:failure"]; fCursor := ""; fLimit := 1 |}.

Lemma pages_complete_witness :
  read_pages (S (length (events ex_db))) DriverSQLite (λ _ _, false) (at_cursor ex_filter "") (events ex_db)
  = Some (rev (List.filter (selected DriverSQLite (λ _ _, false) ex_filter) (events ex_db))).
Proof.
  apply (pages_complete DriverSQLite (λ _ _, false) ex_filter (events ex_db) ex_in_order).
  apply Forall_forall, forallb_true. by vm_compute.
Defined.

(** The first batch is accepted, the second refused: the checkpoint is at 1. *)
Lemma flush_delivers_witness :
  let '(total, ok, sent, st') := Flush "siem" 1 [true; false] (events ex_db) ∅ in
  ok = false ∧ ExportCheckpoint "siem" st' = 1
  ∧ ∃ rest, after_id 0 (events ex_db) = sent ++ rest ∧ after_id (ExportCheckpoint "siem" st') (events ex_db) = rest.
Proof.
  pose proof (flush_delivers "siem" 1 [true; false] (events ex_db) ∅ ex_in_order ltac:(done)) as H.
  destruct (Flush "siem" 1 [true; false] (events ex_db) ∅) as [[[total ok] sent] st'] eqn:E.
  destruct H as ((rest & H1 & H2 & _) & _). split_and!; [..|by exists rest]; vm_compute in E; by injection E as <- <- <- <-.
Defined.

(** A log whose first event was edited after the fact, resealed. *)
Definition ex_edited : DB := {|
  events := (λ e, if bool_decide (ID e = 1) then set_ts e 0 (Details e) else e) <$> events ex_db;
  anchors := anchors ex_db; seq := seq ex_db; anchor_seq := anchor_seq ex_db |}.

Lemma ex_edited_in_order : in_order (events ex_edited).
Proof. unfold in_order, id_lt. vm_compute. repeat constructor. Qed.

Lemma reseal_spec_witness :
  bool_decide (Broken (walk (H := ex_float) (events ex_edited)) = None) = false ∧
  ∃ res db', Reseal (H := ex_float) ex_edited = Some (res, db') ∧ Broken (walk (H := ex_float) (events db')) = None.
Proof.
  split; [by vm_compute|]. destruct (Reseal (H := ex_float) ex_edited) as [[res db']|] eqn:E; [|by vm_compute in E].
  exists res, db'. split; [done|]. apply (reseal_spec (H := ex_float) ex_edited res db' ex_edited_in_order E).
Defined.
