(* ===== verification/Limiter.v ===== *)
(** The sign-in rate limiter: src/internal/auth/ratelimit.go.

[ipLimiter] is a map of token buckets.  Tokens are [float64] in the code;
here they are a type with the operations the code uses, and [FloatLaws] names
the facts of IEEE 754 arithmetic the proofs rely on (rounding is monotone,
integers below 2^53 and their sums are exact).  [exact] is the arithmetic
without rounding.

The limiter forgets buckets: [sweep] drops the refilled ones.  The reference
is [lone], one bucket that is never dropped; the theorems say that a limiter
with room for its keys answers each of them as its own lone bucket would, and
that no flood of keys makes its map outgrow [maxKeys]. *)
From Stdlib Require Import QArith Qcanon Sorted.
From S2P Require Import Prelude.

(** The [float64] operations of ratelimit.go. *)
Class Floats := {
  F : Type;
  of_int : Z → F;
  fadd : F → F → F;
  fsub : F → F → F;
  fmul : F → F → F;
  fdiv : F → F → F;
  fle : F → F → bool;
}.

Definition flt `{Floats} (x y : F) : bool := fle x y && negb (fle y x).

Section limiter.
Context `{FO : Floats}.

(** [time.Duration.Seconds]. *)
Definition Seconds (d : duration) : F :=
  fadd (of_int (Z.quot d Second)) (fdiv (of_int (Z.rem d Second)) (of_int 1000000000)).

Definition maxLimiterKeys : Z := 65536.

Record bucket := {
  tokens : F;
  last : time;
  refusing : bool;
}.

Record ipLimiter := {
  buckets : gmap string bucket;
  rate : F;
  burst : F;
  maxKeys : Z;
  lastGC : time;
  lastSweep : time;
}.

Definition newIPLimiter (perMinute burst : Z) (now : time) : ipLimiter := {|
  buckets := ∅;
  rate := fdiv (of_int perMinute) (of_int 60);
  burst := of_int burst;
  maxKeys := maxLimiterKeys;
  lastGC := now;
  lastSweep := zero_time;
|}.

(** What the bucket holds at [now], before it is capped. *)
Definition refill (rate : F) (now : time) (b : bucket) : F :=
  fadd (tokens b) (fmul (Seconds (Sub now (last b))) rate).

Definition sweep (now : time) (l : ipLimiter) : ipLimiter := {|
  buckets := filter (λ kb, fle (burst l) (refill (rate l) now kb.2) = false) (buckets l);
  rate := rate l; burst := burst l; maxKeys := maxKeys l;
  lastGC := lastGC l; lastSweep := lastSweep l;
|}.

(** Lines 86 to 98 of [Take]: the bucket [b] is refilled and asked for a token. *)
Definition draw (rate burst : F) (now : time) (b : bucket) : (bool * bool) * bucket :=
  let t := refill rate now b in
  let t := if flt burst t then burst else t in
  if flt t (of_int 1)
  then ((false, negb (refusing b)), {| tokens := t; last := now; refusing := true |})
  else ((true, false), {| tokens := fsub t (of_int 1); last := now; refusing := false |}).

Definition set_gc (t : time) (l : ipLimiter) : ipLimiter := {|
  buckets := buckets l; rate := rate l; burst := burst l; maxKeys := maxKeys l;
  lastGC := t; lastSweep := lastSweep l |}.
Definition set_swept (t : time) (l : ipLimiter) : ipLimiter := {|
  buckets := buckets l; rate := rate l; burst := burst l; maxKeys := maxKeys l;
  lastGC := lastGC l; lastSweep := t |}.
Definition put (key : string) (b : bucket) (l : ipLimiter) : ipLimiter := {|
  buckets := <[key := b]> (buckets l); rate := rate l; burst := burst l; maxKeys := maxKeys l;
  lastGC := lastGC l; lastSweep := lastSweep l |}.

Definition full (l : ipLimiter) : bool := (maxKeys l <=? Z.of_nat (size (buckets l)))%Z.

(** The answer is [(ok, firstRefusal)]. *)
Definition Take (now : time) (key : string) (l : ipLimiter) : (bool * bool) * ipLimiter :=
  let l := if (10 * Minute <? Sub now (lastGC l))%Z then set_gc now (sweep now l) else l in
  let use b l := let '(r, b) := draw (rate l) (burst l) now b in (r, put key b l) in
  match buckets l !! key with
  | Some b => use b l
  | None =>
      let l :=
        if full l && (Second <=? Sub now (lastSweep l))%Z then set_swept now (sweep now l) else l in
      if full l then ((false, false), l)
      else use {| tokens := burst l; last := now; refusing := false |} l
  end.

Definition Allow (now : time) (key : string) (l : ipLimiter) : bool * ipLimiter :=
  let '((ok, _), l) := Take now key l in (ok, l).

(** A sequence of calls, each with its clock reading, and their answers. *)
Fixpoint run (h : list (string * time)) (l : ipLimiter) : list (string * (bool * bool)) * ipLimiter :=
  match h with
  | [] => ([], l)
  | (key, now) :: h =>
      let '(a, l) := Take now key l in
      let '(rest, l) := run h l in ((key, a) :: rest, l)
  end.

(** * The reference: one bucket, never dropped *)

Definition fresh (burst : F) (now : time) : bucket := {| tokens := burst; last := now; refusing := false |}.

Fixpoint lone (rate burst : F) (h : list time) (b : option bucket) : list (bool * bool) :=
  match h with
  | [] => []
  | now :: h =>
      let '(a, b) := draw rate burst now (default (fresh burst now) b) in
      a :: lone rate burst h (Some b)
  end.

(** The calls for one key. *)
Definition of_key {A} (k : string) (h : list (string * A)) : list A :=
  (List.filter (λ p, bool_decide (p.1 = k)) h).*2.

End limiter.

(** * What the proofs use of float64

Each law holds of IEEE 754 binary64: none speaks of a NaN, an infinity times
zero, or the difference between the zeros. *)
Class FloatLaws `{Floats} := {
  fle_trans x y z : fle x y → fle y z → fle x z;
  fle_num x y : fle x y → fle x x ∧ fle y y;
  fle_total x y : fle x x → fle y y → fle x y ∨ fle y x;
  fle_antisym x y : flt (of_int 0) x → fle x y → fle y x → x = y;
  of_int_le a b : (Z.abs a ≤ 2 ^ 53)%Z → (Z.abs b ≤ 2 ^ 53)%Z → fle (of_int a) (of_int b) ↔ (a ≤ b)%Z;
  add_int a b : (Z.abs a ≤ 2 ^ 52)%Z → (Z.abs b ≤ 2 ^ 52)%Z → fadd (of_int a) (of_int b) = of_int (a + b);
  fadd_0 x : flt (of_int 0) x → fadd x (of_int 0) = x;
  fadd_nonneg x y : fle (of_int 0) x → fle (of_int 0) y → fle (of_int 0) (fadd x y);
  fadd_mono x y z : fle (of_int 0) z → fle x y → fle (of_int 0) x → fle (fadd z x) (fadd z y);
  fmul_mono x y z : flt (of_int 0) z → fle z (of_int (2 ^ 53)) →
    fle (of_int 0) x → fle x y → fle (fmul x z) (fmul y z);
  fmul_0 z : flt (of_int 0) z → fle z (of_int (2 ^ 53)) → fmul (of_int 0) z = of_int 0;
  fdiv_mono x y b : (0 < b ≤ 2 ^ 53)%Z → fle (of_int 0) x → fle x y →
    fle (fdiv x (of_int b)) (fdiv y (of_int b));
  fdiv_self b : (0 < b ≤ 2 ^ 53)%Z → fdiv (of_int b) (of_int b) = of_int 1;
  fdiv_0 b : (0 < b ≤ 2 ^ 53)%Z → fdiv (of_int 0) (of_int b) = of_int 0;
  fdiv_pos a b : (0 < a ≤ 2 ^ 53)%Z → (0 < b ≤ 2 ^ 53)%Z →
    flt (of_int 0) (fdiv (of_int a) (of_int b)) ∧ fle (fdiv (of_int a) (of_int b)) (of_int a);
  fsub_1 x : fle (of_int 1) x → fle (of_int 0) (fsub x (of_int 1));
}.

(** * The arithmetic without rounding *)

Definition qle (x y : Qc) : bool := bool_decide (x ≤ y)%Qc.

#[export] Instance exact : Floats := {|
  F := Qc; of_int := Qc_of_Z;
  fadd := Qcplus; fsub := Qcminus; fmul := Qcmult; fdiv := Qcdiv; fle := qle;
|}.

Lemma qle_spec x y : Is_true (qle x y) ↔ (x ≤ y)%Qc.
Proof. apply bool_decide_spec. Qed.

Lemma qlt_spec (x y : Qc) : Is_true (flt (x : F) y) ↔ (x < y)%Qc.
Proof.
  unfold flt; simpl. rewrite andb_True, negb_True, !qle_spec. split.
  - intros [_ ?%Qcnot_le_lt]. done.
  - intros Hlt. split; [by apply Qclt_le_weak|by apply Qclt_not_le].
Qed.

Lemma Qcinv_pos x : (0 < x)%Qc → (0 < / x)%Qc.
Proof.
  intros Hx. unfold Qclt in *. apply (Qlt_le_trans _ (/ this x)%Q).
  - apply Qinv_lt_0_compat, Hx.
  - apply Qle_lteq. right. symmetry. apply Qred_correct.
Qed.

Lemma Qc_of_Z_pos b : (0 < b)%Z → (0 < Qc_of_Z b)%Qc.
Proof. intros Hb. by apply (Z2Qc_inj_lt 0 b). Qed.

Lemma Qcdiv_le_mono x y b : (0 < b)%Z → (x ≤ y)%Qc → (x / Qc_of_Z b ≤ y / Qc_of_Z b)%Qc.
Proof.
  intros Hb Hle. apply Qcmult_le_compat_r; [done|].
  apply Qclt_le_weak, Qcinv_pos, Qc_of_Z_pos, Hb.
Qed.

Lemma Qcdiv_pos a b : (0 < a)%Z → (0 < b)%Z →
  (0 < Qc_of_Z a / Qc_of_Z b)%Qc ∧ (Qc_of_Z a / Qc_of_Z b ≤ Qc_of_Z a)%Qc.
Proof.
  intros Ha Hb. pose proof (Qcinv_pos _ (Qc_of_Z_pos b Hb)) as Hi.
  pose proof (Qc_of_Z_pos b Hb) as Hb'. split.
  - unfold Qcdiv. rewrite <-(Qcmult_0_l (/ Qc_of_Z b)). apply Qcmult_lt_compat_r; [done|by apply Qc_of_Z_pos].
  - apply (Qcmult_lt_0_le_reg_r _ _ (Qc_of_Z b)); [done|]. rewrite (Qcmult_comm (_ / _)%Qc), Qcmult_div_r.
    2:{ intros E. rewrite E in Hb'. by apply Qclt_not_eq in Hb'. }
    rewrite <-Z2Qc_inj_mul. apply (proj1 (Z2Qc_inj_le a (a * b))). nia.
Qed.

#[export] Instance exact_laws : FloatLaws (H:=exact).
Proof.
  split.
  - intros x y z. rewrite !qle_spec. by apply Qcle_trans.
  - intros x y _. rewrite !qle_spec. split; apply Qcle_refl.
  - intros x y _ _. rewrite !qle_spec. apply (total Qcle).
  - intros x y _. rewrite !qle_spec. apply Qcle_antisym.
  - intros a b _ _. rewrite qle_spec. symmetry. apply Z2Qc_inj_le.
  - intros a b _ _. symmetry. apply Z2Qc_inj_add.
  - intros x _. apply Qcplus_0_r.
  - intros x y. rewrite !qle_spec. cbn [of_int fadd exact]. rewrite Z2Qc_inj_0. apply Qcplus_nonneg_nonneg.
  - intros x y z _. rewrite !qle_spec. intros Hle _. by apply Qcplus_le_mono_l.
  - intros x y z Hz%qlt_spec _ _ Hle%qle_spec. apply qle_spec, Qcmult_le_compat_r; [done|by apply Qclt_le_weak].
  - intros z _ _. cbn [fmul of_int exact]. rewrite Z2Qc_inj_0. apply Qcmult_0_l.
  - intros x y b Hb _ Hle%qle_spec. apply qle_spec, Qcdiv_le_mono; [lia|done].
  - intros b Hb. cbn [fdiv of_int exact]. rewrite Z2Qc_inj_1. apply Qcmult_inv_r. intros E. assert (0 < b)%Z as Hp%Qc_of_Z_pos by lia.
    rewrite E in Hp. by apply Qclt_not_eq in Hp.
  - intros b _. cbn [fdiv of_int exact]. rewrite Z2Qc_inj_0. apply Qcmult_0_l.
  - intros a b Ha Hb. rewrite qlt_spec, qle_spec. apply Qcdiv_pos; lia.
  - intros x Hx%qle_spec. apply qle_spec. cbn [fsub of_int exact] in *.
    rewrite Z2Qc_inj_0. apply (proj1 (Qcle_minus_iff _ _) Hx).
Qed.

(** * Time and tokens *)

Section arithmetic.
Context `{FL : FloatLaws}.
Local Open Scope Z_scope.

Lemma int_le a b : a ≤ b → Z.abs a ≤ 2 ^ 53 → Z.abs b ≤ 2 ^ 53 → fle (of_int a) (of_int b).
Proof. intros ???. by apply of_int_le. Qed.

Lemma Sub_range t u : minDuration ≤ Sub t u ≤ maxDuration.
Proof. unfold Sub, minDuration, maxDuration. lia. Qed.

Lemma Sub_mono t t' u : t ≤ t' → Sub t u ≤ Sub t' u.
Proof. unfold Sub. lia. Qed.

Lemma Sub_nonneg t u : u ≤ t → 0 ≤ Sub t u.
Proof. unfold Sub, minDuration, maxDuration. lia. Qed.

Lemma Sub_self t : Sub t t = 0.
Proof. unfold Sub, minDuration, maxDuration. lia. Qed.

Lemma Seconds_0 : Seconds 0 = of_int 0.
Proof.
  unfold Seconds, Second. rewrite (Z.quot_0_l 1000000000), (Z.rem_0_l 1000000000) by done.
  rewrite fdiv_0 by lia. by rewrite add_int by lia.
Qed.

(** The fraction of a second is between zero and one. *)
Lemma fraction_mono a b : 0 ≤ a → a ≤ b → b ≤ 1000000000 →
  fle (fdiv (of_int a) (of_int 1000000000)) (fdiv (of_int b) (of_int 1000000000)).
Proof. intros. apply fdiv_mono; [lia|apply int_le; lia..]. Qed.

Lemma fraction_nonneg a : 0 ≤ a ≤ 1000000000 → fle (of_int 0) (fdiv (of_int a) (of_int 1000000000)).
Proof. intros. rewrite <-(fdiv_0 1000000000) by lia. apply fraction_mono; lia. Qed.

Lemma Seconds_mono d d' : 0 ≤ d → d ≤ d' → d' ≤ maxDuration → fle (Seconds d) (Seconds d').
Proof.
  unfold Seconds, Second, maxDuration. intros Hd Hle Hmax.
  rewrite !Z.quot_div_nonneg, !Z.rem_mod_nonneg by lia.
  set (s := d / 1000000000). set (s' := d' / 1000000000).
  assert (0 ≤ s ≤ s' ∧ s' ≤ 9223372037) as [Hs Hs'] by (subst s s'; split; div_lia).
  pose proof (Z.mod_pos_bound d 1000000000 ltac:(lia)). pose proof (Z.mod_pos_bound d' 1000000000 ltac:(lia)).
  destruct (decide (s = s')) as [E|Hne].
  { rewrite E. apply fadd_mono; [apply int_le; lia|apply fraction_mono|apply fraction_nonneg]; [lia| |lia..].
    subst s s'. pose proof (Z.div_mod d 1000000000). pose proof (Z.div_mod d' 1000000000). lia. }
  apply (fle_trans _ (of_int (s + 1))).
  - rewrite <-add_int by lia. rewrite <-(fdiv_self 1000000000) by lia.
    apply fadd_mono; [apply int_le; lia|apply fraction_mono; lia|apply fraction_nonneg; lia].
  - apply (fle_trans _ (of_int s')); [apply int_le; lia|].
    replace s' with (s' + 0) at 1 by lia. rewrite <-add_int by lia.
    apply fadd_mono; [apply int_le; lia|apply fraction_nonneg; lia|apply int_le; lia].
Qed.

Lemma Seconds_nonneg d : 0 ≤ d ≤ maxDuration → fle (of_int 0) (Seconds d).
Proof. intros. rewrite <-Seconds_0. apply Seconds_mono; lia. Qed.

(** A rate and a burst as [newIPLimiter] makes them. *)
Definition proper (rate burst : F) : Prop :=
  flt (of_int 0) rate ∧ fle rate (of_int (2 ^ 53)) ∧ fle (of_int 1) burst.

Lemma new_proper perMinute b now :
  0 < perMinute ≤ 2 ^ 53 → 1 ≤ b ≤ 2 ^ 53 →
  let l := newIPLimiter perMinute b now in proper (rate l) (burst l).
Proof.
  intros Hp Hb. simpl. destruct (fdiv_pos perMinute 60) as [? Hle]; [lia..|]. split_and!; [done| |apply int_le; lia].
  apply (fle_trans _ _ _ Hle). apply int_le; lia.
Qed.

Context (rate burst : F) (Hproper : proper rate burst).

Definition sane (T : time) (b : bucket) : Prop := fle (of_int 0) (tokens b) ∧ last b ≤ T.

Definition refilled (T : time) (b : bucket) : Prop := fle burst (refill rate T b).

Lemma refilled_later T T' b : sane T b → T ≤ T' → refilled T b → refilled T' b.
Proof.
  intros [Ht Hl] HT Hr. destruct Hproper as (? & ? & _). apply (fle_trans _ _ _ Hr).
  pose proof (Sub_range T' (last b)). pose proof (Sub_nonneg T (last b) Hl). pose proof (Sub_mono T T' (last b) HT).
  apply fadd_mono; [done| |].
  - apply fmul_mono; [done..|apply Seconds_nonneg; lia|apply Seconds_mono; lia].
  - rewrite <-(fmul_0 rate) by done. apply fmul_mono; [done..|apply int_le; lia|apply Seconds_nonneg; lia].
Qed.

Lemma burst_pos : flt (of_int 0) burst.
Proof.
  destruct Hproper as (_ & _ & Hb). unfold flt. rewrite andb_True, negb_True. split.
  - apply (fle_trans _ (of_int 1)); [apply int_le; lia|done].
  - intros Hz. assert (fle (of_int 1) (of_int 0)) as Hbad by by eapply fle_trans.
    apply of_int_le in Hbad; lia.
Qed.

Definition cap (t : F) : F := if flt burst t then burst else t.

Lemma cap_full t : fle burst t → cap t = burst.
Proof.
  intros Hle. unfold cap, flt. rewrite (proj1 (Is_true_true _) Hle). simpl.
  destruct (fle t burst) eqn:E; simpl; [|done]. symmetry.
  apply fle_antisym; [apply burst_pos|done|by apply Is_true_true].
Qed.

Lemma fresh_refilled T : refilled T (fresh burst T).
Proof.
  unfold refilled, refill. simpl. destruct Hproper as (? & ? & Hb). rewrite Sub_self, Seconds_0, fmul_0, fadd_0 by (done || apply burst_pos).
  apply (fle_num _ _ Hb).
Qed.

Lemma refill_nonneg T b : sane T b → fle (of_int 0) (refill rate T b).
Proof.
  intros [Ht Hl]. destruct Hproper as (? & ? & _). apply fadd_nonneg; [done|].
  rewrite <-(fmul_0 rate) by done. pose proof (Sub_range T (last b)). pose proof (Sub_nonneg T (last b) Hl).
  apply fmul_mono; [done..|apply int_le; lia|apply Seconds_nonneg; lia].
Qed.

Lemma one_le t : fle (of_int 0) t → flt t (of_int 1) = false → fle (of_int 1) t.
Proof.
  intros Hn Hlt. destruct (fle_total (of_int 1) t) as [|Hle]; [apply int_le; lia|apply (fle_num _ _ Hn)|done|].
  unfold flt in Hlt. rewrite (proj1 (Is_true_true _) Hle) in Hlt. simpl in Hlt.
  by apply negb_false_iff, Is_true_true in Hlt.
Qed.

(** A draw leaves a sane bucket. *)
Lemma draw_sane T b : sane T b → sane T (draw rate burst T b).2.
Proof.
  intros Hs. pose proof (refill_nonneg T b Hs) as Hn. unfold draw. fold (cap (refill rate T b)).
  assert (fle (of_int 0) (cap (refill rate T b))) as Hc.
  { unfold cap. destruct (flt burst _); [|done]. pose proof burst_pos as Hb. unfold flt in Hb.
    apply andb_True in Hb. apply Hb. }
  destruct (flt (cap _) (of_int 1)) eqn:E; simpl; split; simpl; try done.
  by apply fsub_1, one_le.
Qed.

(** Dropping a refilled bucket changes nothing: the next draw is that of a
new one. *)
Lemma draw_refilled T b : refilled T b → draw rate burst T b = draw rate burst T (fresh burst T).
Proof.
  intros Hr. pose proof (fresh_refilled T) as Hf. unfold draw. fold (cap (refill rate T b)) (cap (refill rate T (fresh burst T))).
  rewrite !cap_full by done. destruct (flt burst (of_int 1)) eqn:E; [|done].
  destruct Hproper as (_ & _ & Hb). unfold flt in E. rewrite (proj1 (Is_true_true _) Hb), andb_false_r in E. done.
Qed.

Lemma fresh_sane T : sane T (fresh burst T).
Proof. pose proof burst_pos as Hb. unfold flt in Hb. apply andb_True in Hb. split; simpl; [apply Hb|done]. Qed.


(** * The limiter against its lone buckets *)

(** [m], the limiter's map, forgets only refilled buckets of [r]. *)
Definition forgets (T : time) (m r : gmap string bucket) : Prop :=
  ∀ k, (∀ b, r !! k = Some b → sane T b) ∧
       (m !! k = r !! k ∨ m !! k = None ∧ ∃ b, r !! k = Some b ∧ refilled T b).

Lemma forgets_later T T' m r : T ≤ T' → forgets T m r → forgets T' m r.
Proof.
  intros HT Hf k. destruct (Hf k) as [Hs Hm]. split.
  { intros b Hb. destruct (Hs b Hb). split; [done|lia]. }
  destruct Hm as [|(Hn & b & Hb & Hr)]; [by left|right]. split; [done|]. exists b. split; [done|].
  apply (refilled_later T); eauto.
Qed.

Lemma forgets_filter T m r :
  forgets T m r → forgets T (filter (λ kb, fle burst (refill rate T kb.2) = false) m) r.
Proof.
  intros Hf k. destruct (Hf k) as [Hs Hm]. split; [done|]. rewrite map_lookup_filter.
  destruct (m !! k) as [b|] eqn:E; simpl; [|naive_solver].
  destruct Hm as [Hm|[? _]]; [|done]. destruct (decide (fle burst (refill rate T b) = false)) as [e|Hne].
  - left. rewrite option_guard_True by done. done.
  - right. rewrite option_guard_False by done. split; [done|]. exists b. split; [done|].
    apply Is_true_true, not_false_iff_true, Hne.
Qed.

Lemma forgets_draw T m r k :
  forgets T m r →
  let d := draw rate burst T (default (fresh burst T) (r !! k)) in
  draw rate burst T (default (fresh burst T) (m !! k)) = d ∧ forgets T (<[k := d.2]> m) (<[k := d.2]> r).
Proof.
  intros Hf. simpl. destruct (Hf k) as [Hs Hm]. split.
  { destruct Hm as [->|(-> & b & -> & Hr)]; [done|]. simpl. symmetry. by apply draw_refilled. }
  intros k'. destruct (decide (k = k')) as [<-|Hne].
  - rewrite !lookup_insert_eq. split; [|by left]. intros b [= <-]. apply draw_sane.
    destruct (r !! k) eqn:E; simpl; [by apply Hs|apply fresh_sane].
  - rewrite !lookup_insert_ne by done. apply Hf.
Qed.
End arithmetic.

Section refinement.
Context `{FL : FloatLaws}.
Local Open Scope Z_scope.

Lemma sweep_shape now l :
  rate (sweep now l) = rate l ∧ burst (sweep now l) = burst l ∧ maxKeys (sweep now l) = maxKeys l ∧
  dom (buckets (sweep now l)) ⊆ dom (buckets l).
Proof. split_and!; [done..|]. simpl. apply dom_filter_subseteq. Qed.

(** A map of keys of [K] with [key] missing has room for it. *)
Lemma has_room (m : gmap string bucket) (K : gset string) key max :
  dom m ⊆ K → key ∈ K → Z.of_nat (size K) ≤ max → m !! key = None → (max <=? Z.of_nat (size m)) = false.
Proof.
  intros Hdom Hkey Hmax Hn. apply Z.leb_gt. rewrite <-size_dom.
  assert (size (dom m) < size K)%nat; [|lia]. apply subset_size. split; [done|].
  intros Hsub. apply Hsub in Hkey. by apply not_elem_of_dom in Hn.
Qed.

Definition tracks (T : time) (K : gset string) (l : ipLimiter) (r : gmap string bucket) : Prop :=
  proper (rate l) (burst l) ∧ forgets (rate l) (burst l) T (buckets l) r ∧
  dom (buckets l) ⊆ K ∧ Z.of_nat (size K) ≤ maxKeys l.

Lemma tracks_gc T K l r now : tracks T K l r → T ≤ now →
  let l' := if 10 * Minute <? Sub now (lastGC l) then set_gc now (sweep now l) else l in
  rate l' = rate l ∧ burst l' = burst l ∧ tracks now K l' r.
Proof.
  intros (Hp & Hf & Hd & HK) HT. apply (forgets_later _ _ Hp T now) in Hf; [|done].
  destruct (_ <? _); simpl; [|by split_and!].
  split_and!; [done..|]. split; [done|]. split; [by apply forgets_filter|]. split; [|done].
  transitivity (dom (buckets l)); [apply dom_filter_subseteq|done].
Qed.

Lemma Take_tracks T K l r now key : tracks T K l r → T ≤ now → key ∈ K →
  let d := draw (rate l) (burst l) now (default (fresh (burst l) now) (r !! key)) in
  (Take now key l).1 = d.1 ∧ rate (Take now key l).2 = rate l ∧ burst (Take now key l).2 = burst l ∧
  tracks now K (Take now key l).2 (<[key := d.2]> r).
Proof.
  intros Ht HT Hk. destruct (tracks_gc T K l r now Ht HT) as (Er & Eb & Ht'). unfold Take.
  set (l1 := if 10 * Minute <? Sub now (lastGC l) then set_gc now (sweep now l) else l) in *.
  cbn zeta in *. clearbody l1. rewrite <-Er, <-Eb. clear Er Eb Ht HT.
  destruct Ht' as (Hp & Hf & Hd & HK). destruct (forgets_draw _ _ Hp now (buckets l1) r key Hf) as [Ed Hf'].
  assert (dom (<[key:=(draw (rate l1) (burst l1) now (default (fresh (burst l1) now) (r !! key))).2]> (buckets l1)) ⊆ K) as Hd'.
  { rewrite dom_insert. set_solver. }
  destruct (buckets l1 !! key) as [b|] eqn:E; simpl in Ed.
  - rewrite <-Ed in *. destruct (draw (rate l1) (burst l1) now b). done.
  - assert (full l1 = false) as Efull by (unfold full; by apply (has_room _ K key)).
    rewrite Efull. simpl. rewrite Efull.
    fold (fresh (burst l1) now). rewrite <-Ed in *. destruct (draw (rate l1) (burst l1) now (fresh (burst l1) now)). done.
Qed.

Lemma run_tracks h : ∀ T K l r k, tracks T K l r → StronglySorted Z.le (T :: h.*2) → list_to_set h.*1 ⊆ K →
  of_key k (run h l).1 = lone (rate l) (burst l) (of_key k h) (r !! k).
Proof.
  induction h as [|[key now] h IH]; intros T K l r k Ht Hs HK; [done|]. cbn [fmap list_fmap fst snd run] in *.
  apply StronglySorted_inv in Hs as [Hs Hle]. apply Forall_cons in Hle as [Hle _].
  destruct (Take_tracks T K l r now key Ht Hle ltac:(set_solver)) as (Ea & Er & Eb & Ht').
  specialize (IH now K _ _ k Ht' Hs ltac:(set_solver)). rewrite Er, Eb in IH.
  destruct (Take now key l) as [a l']. simpl in *. destruct (run h l') as [rest l''] eqn:E. simpl in *.
  unfold of_key in *. simpl. destruct (decide (key = k)) as [->|Hne].
  - rewrite bool_decide_eq_true_2 by done. cbn [fmap list_fmap snd lone]. rewrite IH, lookup_insert_eq, Ea.
    by destruct (draw _ _ now _).
  - rewrite bool_decide_eq_false_2 by done. rewrite IH, lookup_insert_ne by done. done.
Qed.

Lemma Take_bounded now key l : 0 ≤ maxKeys l →
  Z.of_nat (size (buckets l)) ≤ maxKeys l →
  Z.of_nat (size (buckets (Take now key l).2)) ≤ maxKeys l ∧ maxKeys (Take now key l).2 = maxKeys l.
Proof.
  intros H0 Hle. unfold Take.
  set (l1 := if 10 * Minute <? Sub now (lastGC l) then set_gc now (sweep now l) else l).
  assert (Z.of_nat (size (buckets l1)) ≤ maxKeys l ∧ maxKeys l1 = maxKeys l) as [Hle1 Hm1].
  { subst l1. destruct (_ <? _); simpl; [|done]. split; [|done].
    pose proof (map_size_filter (λ kb : string * bucket, fle (burst l) (refill (rate l) now kb.2) = false) (buckets l)). lia. }
  cbn zeta. clearbody l1. destruct (buckets l1 !! key) as [b|] eqn:E.
  { destruct (draw (rate l1) (burst l1) now b). simpl. rewrite map_size_insert_Some by eauto. done. }
  set (l2 := if full l1 && (Second <=? Sub now (lastSweep l1)) then set_swept now (sweep now l1) else l1).
  assert (Z.of_nat (size (buckets l2)) ≤ maxKeys l ∧ maxKeys l2 = maxKeys l ∧ buckets l2 !! key = None) as (Hle2 & Hm2 & E2).
  { subst l2. destruct (_ && _); simpl; [|done]. split_and!; [|done|by rewrite map_lookup_filter, E].
    pose proof (map_size_filter (λ kb : string * bucket, fle (burst l1) (refill (rate l1) now kb.2) = false) (buckets l1)). lia. }
  clearbody l2. destruct (full l2) eqn:Ef; [done|]. apply Z.leb_gt in Ef.
  destruct (draw (rate l2) (burst l2) now _). simpl. rewrite map_size_insert_None by done. lia.
Qed.

Lemma run_bounded h : ∀ l, 0 ≤ maxKeys l → Z.of_nat (size (buckets l)) ≤ maxKeys l →
  Z.of_nat (size (buckets (run h l).2)) ≤ maxKeys l.
Proof.
  induction h as [|[key now] h IH]; intros l H0 Hle; simpl; [done|].
  destruct (Take_bounded now key l H0 Hle) as [Hle' Hm]. specialize (IH (Take now key l).2).
  destruct (Take now key l) as [a l']. simpl in *. rewrite Hm in IH. specialize (IH H0 Hle').
  by destruct (run h l').
Qed.
End refinement.

(** A key without a bucket gets what a new bucket gives, unless the map is full of
buckets that have not refilled: then it is refused, with nothing added for it. *)
Lemma new_key_needs_room `{Floats} now key l : buckets l !! key = None →
  (Take now key l).1 = (draw (rate l) (burst l) now (fresh (burst l) now)).1 ∨
  ((Take now key l).1 = (false, false) ∧ full (Take now key l).2 = true ∧ buckets (Take now key l).2 ⊆ buckets l).
Proof.
  intros Hn. unfold Take. set (l1 := if (10 * Minute <? _)%Z then _ else l).
  assert (rate l1 = rate l ∧ burst l1 = burst l ∧ buckets l1 ⊆ buckets l) as (Hr1 & Hb1 & Hs1).
  { subst l1. destruct (_ <? _)%Z; simpl; [|done]. split_and!; [done..|]. apply map_filter_subseteq. }
  assert (buckets l1 !! key = None) as Hn1 by by eapply lookup_weaken_None.
  clearbody l1. rewrite Hn1. cbn zeta. set (l2 := if full l1 && _ then _ else l1).
  assert (rate l2 = rate l ∧ burst l2 = burst l ∧ buckets l2 ⊆ buckets l) as (Hr2 & Hb2 & Hs2).
  { subst l2. destruct (_ && _); simpl; [|done]. split_and!; [done..|]. etrans; [apply map_filter_subseteq|done]. }
  clearbody l2. destruct (full l2) eqn:Ef; [by right|left]. unfold fresh. rewrite Hr2, Hb2. by destruct (draw _ _ _ _).
Qed.

(** C9. A limiter answers every key as that key's own token bucket would, one
that is never dropped: in any history of calls whose clock does not run backwards
and that is made under at most 65536 different keys ([maxKeys]), the answers to
[k] (the token granted or not, and whether a refusal is the first of its run)
depend on the calls for [k] alone.  So up to that many keys the sweeps that bound
the limiter's memory neither give a client tokens nor take any from it, and one
client never spends another's.  Whatever the history, of any number of keys, the
map never holds more than [maxKeys] buckets; a key that finds it full is refused
([new_key_needs_room]). *)
Theorem limiter_is_per_key `{FL : FloatLaws} perMinute b start (h : list (string * time)) k :
  (0 < perMinute ≤ 2 ^ 53)%Z → (1 ≤ b ≤ 2 ^ 53)%Z → StronglySorted Z.le h.*2 →
  (Z.of_nat (size (list_to_set h.*1 : gset string)) ≤ maxLimiterKeys)%Z →
  let l := newIPLimiter perMinute b start in
  of_key k (run h l).1 = lone (rate l) (burst l) (of_key k h) None ∧
  ∀ h', (Z.of_nat (size (buckets (run h' l).2)) ≤ maxLimiterKeys)%Z.
Proof.
  intros Hp Hb Hs HK l. split.
  - destruct h as [|[key now] h]; [done|]. cbn [fmap list_fmap snd] in Hs.
    rewrite <-(lookup_empty k : (∅ : gmap string bucket) !! k = None).
    apply (run_tracks ((key, now) :: h) now (list_to_set ((key, now) :: h).*1) l ∅ k); [| |done].
    2:{ constructor; [done|]. apply StronglySorted_inv in Hs as [_ ?]. by constructor. }
    split; [by apply new_proper|]. split; [|split; [set_solver|done]]. intros k'. rewrite lookup_empty.
    split; [done|]. by left.
  - intros h'. apply (run_bounded h' l); simpl; done.
Qed.

(** Two clients, 30 a minute after a burst of two: the first spends its burst
and is refused twice, the second is not affected, and after a sweep the first
has its burst again. *)
Definition sample_history : list (string * time) :=
  let at_ s := (s * Second)%Z in
  [("a", at_ 0%Z); ("a", at_ 0%Z); ("a", at_ 1%Z); ("a", at_ 1%Z); ("b", at_ 1%Z); ("a", at_ 700%Z); ("a", at_ 700%Z); ("a", at_ 700%Z)].

Lemma limiter_is_per_key_witness :
  of_key "a" (run (FO:=exact) sample_history (newIPLimiter (FO:=exact) 30 2 0)).1 =
    [(true, false); (true, false); (false, true); (false, false); (true, false); (true, false); (false, true)] ∧
  of_key "a" (run (FO:=exact) sample_history (newIPLimiter (FO:=exact) 30 2 0)).1 =
    lone (FO:=exact) (rate (FO:=exact) (newIPLimiter (FO:=exact) 30 2 0)) (burst (FO:=exact) (newIPLimiter (FO:=exact) 30 2 0))
      (of_key "a" sample_history) None.
Proof.
  split; [by vm_compute|].
  refine (proj1 (limiter_is_per_key (H:=exact) (FL:=exact_laws) 30 2 0 sample_history "a" _ _ _ _)); [lia..| |].
  - repeat (constructor; [|repeat (constructor; [by vm_compute|]); constructor]). constructor.
  - by vm_compute.
Defined.
