(* ===== verification/Sessions.v ===== *)
(** Browser sessions: src/internal/auth/sessions.go.

The table [auth_sessions] is a map from the primary key to the row, with the
UNIQUE constraint on [token_hash] checked where a statement writes it; SHA-256
and the HMAC of the CSRF token are computed.  Each operation takes the clock
reading and the random bytes it draws.  A database that cannot be reached is
not modelled: the only SQL errors are the constraints'.

[op] lists the calls that change the table and [exec] runs a sequence of
them; the theorems are about every such sequence. *)
From S2P Require Import Prelude GoText Sha256.
Local Open Scope Z_scope.

Definition CookieName : string := "zanskar_session".

Record Session := {
  ID : string;
  UserID : string;
  MFAVerified : bool;
  IP : string;
  UserAgent : string;
  CreatedAt : time;
  ExpiresAt : time;
  LastSeenAt : time;
  MFAAt : time;
}.

Inductive Error := ErrNoSession | ErrRand | ErrDB.

Record Sessions := {
  csrfKey : bytes;
  AbsoluteTTL : duration;
  IdleTTL : duration;
  SecureCookie : bool;
}.

Definition NewSessions (key : bytes) (secureCookie : bool) : Sessions := {|
  csrfKey := key;
  AbsoluteTTL := 12 * Hour;
  IdleTTL := 60 * Minute;
  SecureCookie := secureCookie;
|}.

(** A row of [auth_sessions], without its key. *)
Record row := {
  user_id : string;
  token_hash : string;
  ip : string;
  user_agent : string;
  mfa_verified : bool;
  created_at : time;
  expires_at : time;
  last_seen_at : time;
  revoked_at : option time;
  mfa_verified_at : option time;
  idp_id : option string;
  id_token_enc : option bytes;
  key_version : option Z;
}.

Abbreviation table := (gmap string row).

Definition hashToken (token : string) : string := Hex.EncodeToString (Sha.Sum256 (to_bytes token)).

Definition truncate (s : string) (n : nat) : string :=
  if (String.length s <=? n)%nat then s else String.substring 0 n s.

(** The row a token hash selects. *)
Definition by_hash (h : string) (t : table) : option (string * row) :=
  head (List.filter (λ kr, bool_decide (token_hash kr.2 = h)) (map_to_list t)).

(** The columns a statement sets. *)
Definition with_hash (h : string) (r : row) : row := {|
  user_id := user_id r; token_hash := h; ip := ip r; user_agent := user_agent r; mfa_verified := mfa_verified r;
  created_at := created_at r; expires_at := expires_at r; last_seen_at := last_seen_at r; revoked_at := revoked_at r;
  mfa_verified_at := mfa_verified_at r; idp_id := idp_id r; id_token_enc := id_token_enc r; key_version := key_version r |}.
Definition with_seen (at_ : time) (r : row) : row := {|
  user_id := user_id r; token_hash := token_hash r; ip := ip r; user_agent := user_agent r; mfa_verified := mfa_verified r;
  created_at := created_at r; expires_at := expires_at r; last_seen_at := at_; revoked_at := revoked_at r;
  mfa_verified_at := mfa_verified_at r; idp_id := idp_id r; id_token_enc := id_token_enc r; key_version := key_version r |}.
Definition with_mfa (at_ : option time) (r : row) : row := {|
  user_id := user_id r; token_hash := token_hash r; ip := ip r; user_agent := user_agent r; mfa_verified := true;
  created_at := created_at r; expires_at := expires_at r; last_seen_at := last_seen_at r; revoked_at := revoked_at r;
  mfa_verified_at := at_; idp_id := idp_id r; id_token_enc := id_token_enc r; key_version := key_version r |}.
Definition with_revoked (at_ : time) (r : row) : row := {|
  user_id := user_id r; token_hash := token_hash r; ip := ip r; user_agent := user_agent r; mfa_verified := mfa_verified r;
  created_at := created_at r; expires_at := expires_at r; last_seen_at := last_seen_at r; revoked_at := Some at_;
  mfa_verified_at := mfa_verified_at r; idp_id := idp_id r; id_token_enc := id_token_enc r; key_version := key_version r |}.
Definition with_provider (idp : string) (tok : option bytes) (ver : option Z) (r : row) : row := {|
  user_id := user_id r; token_hash := token_hash r; ip := ip r; user_agent := user_agent r; mfa_verified := mfa_verified r;
  created_at := created_at r; expires_at := expires_at r; last_seen_at := last_seen_at r; revoked_at := revoked_at r;
  mfa_verified_at := mfa_verified_at r; idp_id := Some idp; id_token_enc := tok; key_version := ver |}.

(** * Operations *)

(** [raw] is what [rand.Read] filled the 32-byte buffer with, [None] when it
failed; [id] is [store.NewID()]. *)
Definition Create (s : Sessions) (raw : option bytes) (id : string) (now : time)
    (userID ip userAgent : string) (mfaVerified : bool) (t : table) : result Error (string * Session) * table :=
  match raw with
  | None => (Err ErrRand, t)
  | Some raw =>
      let token := Base64.EncodeToString raw in
      let sess := {| ID := id; UserID := userID; MFAVerified := mfaVerified; IP := ip;
        UserAgent := truncate userAgent 512; CreatedAt := now; ExpiresAt := now + AbsoluteTTL s;
        LastSeenAt := now; MFAAt := zero_time |} in
      let r := {| user_id := userID; token_hash := hashToken token; ip := ip; user_agent := UserAgent sess;
        mfa_verified := mfaVerified; created_at := TimeArg now; expires_at := TimeArg (ExpiresAt sess);
        last_seen_at := TimeArg now; revoked_at := None; mfa_verified_at := None; idp_id := None;
        id_token_enc := None; key_version := None |} in
      match t !! id, by_hash (hashToken token) t with
      | None, None => (Ok (token, sess), <[id := r]> t)
      | _, _ => (Err ErrDB, t)
      end
  end.

Definition scanned (id : string) (r : row) : Session := {|
  ID := id; UserID := user_id r; MFAVerified := mfa_verified r; IP := ip r; UserAgent := user_agent r;
  CreatedAt := created_at r; ExpiresAt := expires_at r; LastSeenAt := last_seen_at r;
  MFAAt := default zero_time (mfa_verified_at r) |}.

Definition seen_now (now : time) (s : Session) : Session := {|
  ID := ID s; UserID := UserID s; MFAVerified := MFAVerified s; IP := IP s; UserAgent := UserAgent s;
  CreatedAt := CreatedAt s; ExpiresAt := ExpiresAt s; LastSeenAt := now; MFAAt := MFAAt s |}.

Definition is_Some_b {A} (o : option A) : bool := match o with Some _ => true | None => false end.

(** The condition under which [Lookup] refuses a row. *)
Definition dead (s : Sessions) (now : time) (r : row) : bool :=
  is_Some_b (revoked_at r) || After now (expires_at r) || (IdleTTL s <? Sub now (last_seen_at r)).

Definition Lookup (s : Sessions) (token : string) (now : time) (t : table) : result Error Session * table :=
  if bool_decide (token = "") then (Err ErrNoSession, t) else
  match by_hash (hashToken token) t with
  | None => (Err ErrNoSession, t)
  | Some (id, r) =>
      if dead s now r then (Err ErrNoSession, t)
      else if Minute <? Sub now (last_seen_at r)
      then (Ok (seen_now now (scanned id r)), <[id := with_seen (TimeArg now) r]> t)
      else (Ok (scanned id r), t)
  end.

Definition Rotate (raw : option bytes) (id : string) (t : table) : result Error string * table :=
  match raw with
  | None => (Err ErrRand, t)
  | Some raw =>
      let token := Base64.EncodeToString raw in
      match t !! id with
      | Some r =>
          if is_Some_b (revoked_at r) then (Err ErrNoSession, t)
          else match by_hash (hashToken token) (delete id t) with
               | Some _ => (Err ErrDB, t)
               | None => (Ok token, <[id := with_hash (hashToken token) r]> t)
               end
      | None => (Err ErrNoSession, t)
      end
  end.

Definition MarkMFAVerified (id : string) (t : table) : table :=
  alter (λ r, with_mfa (mfa_verified_at r) r) id t.

Definition MarkMFAProved (now : time) (id : string) (t : table) : table :=
  alter (with_mfa (Some (TimeArg now))) id t.

Definition SetProvider (id idpID : string) (idTokenEnc : option bytes) (keyVersion : Z) (t : table) : table :=
  let ver := match idTokenEnc with Some _ => Some keyVersion | None => None end in
  alter (with_provider idpID idTokenEnc ver) id t.

Definition Provider (id : string) (t : table) : result Error (string * option bytes * Z) :=
  match t !! id with
  | None => Err ErrNoSession
  | Some r => Ok (default "" (idp_id r), id_token_enc r, default 0 (key_version r))
  end.

(** [UPDATE auth_sessions SET revoked_at = ? WHERE cond AND revoked_at IS NULL],
and the number of rows it affected. *)
Definition revoke_where (cond : string → row → bool) (now : time) (t : table) : table * nat :=
  let hit id r := cond id r && negb (is_Some_b (revoked_at r)) in
  (map_imap (λ id r, Some (if hit id r then with_revoked (TimeArg now) r else r)) t,
   size (filter (λ kr, hit kr.1 kr.2 = true) t)).

Definition Revoke (now : time) (id : string) (t : table) : table :=
  (revoke_where (λ i _, bool_decide (i = id)) now t).1.

Definition RevokeAllForUser (now : time) (userID : string) (t : table) : table * nat :=
  revoke_where (λ _ r, bool_decide (user_id r = userID)) now t.

Definition RevokeOthersForUser (now : time) (userID keepSessionID : string) (t : table) : table * nat :=
  revoke_where (λ i r, bool_decide (user_id r = userID) && negb (bool_decide (i = keepSessionID))) now t.

(** Timestamps compare as their stored text does, in time order. *)
Definition DeleteExpired (now : time) (t : table) : table * nat :=
  let gone (r : row) := Before (expires_at r) (TimeArg (now - 24 * Hour)) || is_Some_b (revoked_at r) in
  (filter (λ kr, gone kr.2 = false) t, size (filter (λ kr, gone kr.2 = true) t)).

Definition CSRFToken (s : Sessions) (sessionID : string) : string :=
  Hex.EncodeToString (Sha.Hmac (csrfKey s) (to_bytes ("csrf:" ++ sessionID))).

Definition CheckCSRF (s : Sessions) (sessionID presented : string) : bool :=
  bool_decide (CSRFToken s sessionID = presented).

Definition cookie_name (s : Sessions) : string :=
  if SecureCookie s then "__Host-" ++ CookieName else CookieName.

Record Cookie := {
  Name : string; Value : string; Path : string; HttpOnly : bool; Secure : bool; Strict : bool; MaxAge : Z;
}.

Definition SetCookie (s : Sessions) (token : string) : Cookie := {|
  Name := cookie_name s; Value := token; Path := "/"; HttpOnly := true; Secure := SecureCookie s;
  Strict := true; MaxAge := Z.quot (AbsoluteTTL s) Second |}.

Definition ClearCookie (s : Sessions) : Cookie := {|
  Name := cookie_name s; Value := ""; Path := "/"; HttpOnly := true; Secure := SecureCookie s;
  Strict := true; MaxAge := -1 |}.

(** * Sequences of calls *)

Inductive op :=
| OCreate (raw : option bytes) (id : string) (now : time) (userID ip userAgent : string) (mfa : bool)
| OLookup (token : string) (now : time)
| ORotate (raw : option bytes) (id : string)
| OMarkMFAVerified (id : string)
| OMarkMFAProved (now : time) (id : string)
| OSetProvider (id idpID : string) (idTokenEnc : option bytes) (keyVersion : Z)
| ORevoke (now : time) (id : string)
| ORevokeAllForUser (now : time) (userID : string)
| ORevokeOthersForUser (now : time) (userID keep : string)
| ODeleteExpired (now : time).

Definition exec1 (s : Sessions) (o : op) (t : table) : table :=
  match o with
  | OCreate raw id now u i a m => (Create s raw id now u i a m t).2
  | OLookup token now => (Lookup s token now t).2
  | ORotate raw id => (Rotate raw id t).2
  | OMarkMFAVerified id => MarkMFAVerified id t
  | OMarkMFAProved now id => MarkMFAProved now id t
  | OSetProvider id p e v => SetProvider id p e v t
  | ORevoke now id => Revoke now id t
  | ORevokeAllForUser now u => (RevokeAllForUser now u t).1
  | ORevokeOthersForUser now u k => (RevokeOthersForUser now u k t).1
  | ODeleteExpired now => (DeleteExpired now t).1
  end.

Definition exec (s : Sessions) (os : list op) (t : table) : table := foldl (λ t o, exec1 s o t) t os.

(** The clock reading of a call, where it takes one. *)
Definition op_time (o : op) : option time :=
  match o with
  | OCreate _ _ now _ _ _ _ | OLookup _ now | OMarkMFAProved now _ | ORevoke now _
  | ORevokeAllForUser now _ | ORevokeOthersForUser now _ _ | ODeleteExpired now => Some now
  | ORotate _ _ | OMarkMFAVerified _ | OSetProvider _ _ _ _ => None
  end.

(** * The table *)

(** The constraint on [token_hash]. *)
Definition unique (t : table) : Prop :=
  ∀ i j r r', t !! i = Some r → t !! j = Some r' → token_hash r = token_hash r' → i = j.

Lemma by_hash_Some h t id r : by_hash h t = Some (id, r) → t !! id = Some r ∧ token_hash r = h.
Proof.
  unfold by_hash. intros Hh. assert ((id, r) ∈ List.filter (λ kr, bool_decide (token_hash kr.2 = h)) (map_to_list t)) as Hin.
  { destruct (List.filter _ _); simplify_eq/=. left. }
  apply list_elem_of_In, filter_In in Hin as [Hin Hb]. simpl in Hb. apply bool_decide_eq_true in Hb.
  split; [|done]. by apply elem_of_map_to_list, list_elem_of_In.
Qed.

Lemma by_hash_None h t id r : by_hash h t = None → t !! id = Some r → token_hash r ≠ h.
Proof.
  unfold by_hash. intros Hh Hr Heq. assert ((id, r) ∈ List.filter (λ kr, bool_decide (token_hash kr.2 = h)) (map_to_list t)) as Hin.
  { apply list_elem_of_In, filter_In. split; [by apply list_elem_of_In, elem_of_map_to_list|]. by apply bool_decide_eq_true. }
  destruct (List.filter _ _); [by apply not_elem_of_nil in Hin|done].
Qed.

Lemma by_hash_unique t id r : unique t → t !! id = Some r → by_hash (token_hash r) t = Some (id, r).
Proof.
  intros Hu Hr. destruct (by_hash (token_hash r) t) as [[i r']|] eqn:E.
  - apply by_hash_Some in E as [Hi Hh]. assert (i = id) as -> by eauto. congruence.
  - by apply (by_hash_None _ _ id r) in E.
Qed.

Lemma unique_fmap t t' : unique t →
  (∀ i r', t' !! i = Some r' → ∃ r, t !! i = Some r ∧ token_hash r' = token_hash r) → unique t'.
Proof.
  intros Hu Hf i j r r' Hi Hj Heq. apply Hf in Hi as (q & Hq & E). apply Hf in Hj as (q' & Hq' & E').
  apply (Hu i j q q'); [done..|]. congruence.
Qed.

Lemma unique_insert t id r : unique t → by_hash (token_hash r) (delete id t) = None → unique (<[id := r]> t).
Proof.
  intros Hu Hn i j q q'. rewrite !lookup_insert_Some.
  intros [[<- <-]|[Hi Hq]] [[<- <-]|[Hj Hq']] Heq; [done| | |by eapply Hu].
  - exfalso. apply (by_hash_None _ _ j q' Hn); [by rewrite lookup_delete_ne|done].
  - exfalso. apply (by_hash_None _ _ i q Hn); [by rewrite lookup_delete_ne|done].
Qed.

(** The calls that leave the session [id] of [uid] be. *)
Definition spares (id uid : string) (o : op) : Prop :=
  match o with
  | ORevoke _ i | ORotate _ i => i ≠ id
  | ORevokeAllForUser _ u => u ≠ uid
  | ORevokeOthersForUser _ u keep => u = uid → keep = id
  | _ => True
  end.

(** What a call does to the row [id]. *)
Inductive touches (s : Sessions) (o : op) (id : string) : option row → option row → Prop :=
| untouched r : touches s o id r r
| created r : (∃ raw now u i a m, o = OCreate raw id now u i a m) → touches s o id None (Some r)
| seen r tok now : o = OLookup tok now → dead s now r = false → Minute < Sub now (last_seen_at r) →
    token_hash r = hashToken tok → touches s o id (Some r) (Some (with_seen (TimeArg now) r))
| rotated r raw : o = ORotate (Some raw) id → revoked_at r = None →
    touches s o id (Some r) (Some (with_hash (hashToken (Base64.EncodeToString raw)) r))
| proved r at_ : touches s o id (Some r) (Some (with_mfa at_ r))
| provider r p e v : touches s o id (Some r) (Some (with_provider p e v r))
| revoked r now : ¬ spares id (user_id r) o → touches s o id (Some r) (Some (with_revoked now r))
| deleted r now : o = ODeleteExpired now → expires_at r < TimeArg (now - 24 * Hour) ∨ is_Some (revoked_at r) →
    touches s o id (Some r) None.

Lemma revoke_where_lookup cond now t id :
  (revoke_where cond now t).1 !! id =
  (λ r, if cond id r && negb (is_Some_b (revoked_at r)) then with_revoked (TimeArg now) r else r) <$> t !! id.
Proof. simpl. rewrite map_lookup_imap. by destruct (t !! id). Qed.

Lemma revoke_touches s o cond now t id :
  (∀ r, cond id r = true → ¬ spares id (user_id r) o) →
  touches s o id (t !! id) ((revoke_where cond now t).1 !! id).
Proof.
  intros Hc. rewrite revoke_where_lookup. destruct (t !! id) as [r|]; simpl; [|constructor].
  destruct (cond id r) eqn:E; simpl; [|constructor]. destruct (is_Some_b _); simpl; constructor. by apply Hc.
Qed.

Lemma alter_touches s o (f : row → row) k (t : table) id :
  (∀ r, touches s o k (Some r) (Some (f r))) → touches s o id (t !! id) (alter f k t !! id).
Proof.
  intros Hf. destruct (decide (k = id)) as [->|Hne].
  - rewrite lookup_alter_eq. destruct (t !! id); simpl; [apply Hf|constructor].
  - rewrite lookup_alter_ne by done. constructor.
Qed.

Lemma DeleteExpired_touches s now t id :
  touches s (ODeleteExpired now) id (t !! id) ((DeleteExpired now t).1 !! id).
Proof.
  simpl. rewrite map_lookup_filter. destruct (t !! id) as [r|]; simpl; [|constructor].
  destruct (Before (expires_at r) (TimeArg (now - 24 * Hour)) || is_Some_b (revoked_at r)) eqn:Hne.
  2:{ rewrite option_guard_True by done. constructor. }
  rewrite option_guard_False by done. apply (deleted _ _ _ r now); [done|].
  apply orb_true_iff in Hne as [Hb|Hr]; [left|right].
  - unfold Before in Hb. by apply bool_decide_eq_true in Hb.
  - destruct (revoked_at r); [eauto|done].
Qed.

Lemma insert_touches s o k r' (t : table) id :
  touches s o k (t !! k) (Some r') → touches s o id (t !! id) (<[k := r']> t !! id).
Proof.
  intros Ht. destruct (decide (k = id)) as [->|Hne].
  - by rewrite lookup_insert_eq.
  - rewrite lookup_insert_ne by done. constructor.
Qed.

Lemma exec1_touches s o t id : touches s o id (t !! id) (exec1 s o t !! id).
Proof.
  destruct o; simpl; try (apply revoke_touches; intros r Hc; bool_simpl; naive_solver); try (apply DeleteExpired_touches);
    try (apply alter_touches; intros; constructor).
  - unfold Create. destruct raw as [raw|]; [|constructor]. destruct (t !! id0) eqn:E; [constructor|].
    destruct (by_hash _ t); [constructor|]. simpl. apply insert_touches. rewrite E. apply created.
    by repeat eexists.
  - unfold Lookup. case_bool_decide; [constructor|]. destruct (by_hash _ t) as [[k r]|] eqn:E; [|constructor].
    apply by_hash_Some in E as [Hr Hh]. destruct (dead s now r) eqn:Ed; [constructor|].
    destruct (Z.ltb_spec Minute (Sub now (last_seen_at r))); [|constructor]. simpl. apply insert_touches. rewrite Hr.
    by eapply seen.
  - unfold Rotate. destruct raw as [raw|]; [|constructor]. destruct (t !! id0) as [r|] eqn:E; [|constructor].
    destruct (revoked_at r) eqn:Er; simpl; [constructor|]. destruct (by_hash _ _); [constructor|].
    simpl. apply insert_touches. rewrite E. by eapply rotated.
Qed.

Lemma exec1_unique s o t : unique t → unique (exec1 s o t).
Proof.
  intros Hu. pose proof (exec1_touches s o t) as Ht. destruct o; cbn [exec1] in *.
  1:{ unfold Create. destruct raw as [raw|]; [|done]. destruct (t !! id) eqn:E; [done|].
    destruct (by_hash _ t) eqn:Eh; [done|]. apply unique_insert; [done|]. by rewrite delete_id. }
  2:{ unfold Rotate. destruct raw as [raw|]; [|done]. destruct (t !! id) as [r|]; [|done].
    destruct (is_Some_b _); [done|]. destruct (by_hash _ _) eqn:Eh; [done|]. by apply unique_insert. }
  all: apply (unique_fmap t); [done|]; intros i r' Hr; specialize (Ht i); rewrite Hr in Ht;
    inversion Ht; subst; eauto; naive_solver.
Qed.

(** * The end of a session *)

(** From [T] on, [tok] is not a way into the session [id]. *)
Definition over (s : Sessions) (T : time) (id tok : string) (t : table) : Prop :=
  ∀ r, t !! id = Some r → dead s T r = true ∨ token_hash r ≠ hashToken tok.

(** The calls that end the session [id], or the use of [tok] for it. *)
Definition ends (id tok : string) (t : table) (o : op) : Prop :=
  match o with
  | ORevoke _ i => i = id
  | ORevokeAllForUser _ u => ∀ r, t !! id = Some r → user_id r = u
  | ORevokeOthersForUser _ u keep => id ≠ keep ∧ ∀ r, t !! id = Some r → user_id r = u
  | ORotate raw i => i = id ∧ ∃ tok', (Rotate raw id t).1 = Ok tok' ∧ hashToken tok' ≠ hashToken tok
  | _ => False
  end.

(** The calls that neither come before [T] nor issue [id] or its token anew. *)
Definition later (T : time) (id tok : string) (o : op) : Prop :=
  (∀ now, op_time o = Some now → T ≤ now) ∧
  match o with
  | OCreate _ i _ _ _ _ _ => i ≠ id
  | ORotate (Some raw) i => i = id → hashToken (Base64.EncodeToString raw) ≠ hashToken tok
  | _ => True
  end.

Lemma dead_later s T T' r : T ≤ T' → dead s T r = true → dead s T' r = true.
Proof.
  unfold dead, After, Sub. intros HT H. apply orb_true_iff in H as [H|H].
  - apply orb_true_iff in H as [H|H]; [by rewrite H|]. apply bool_decide_eq_true in H.
    rewrite (bool_decide_eq_true_2 (expires_at r < T')) by lia. by rewrite orb_true_r.
  - apply Z.ltb_lt in H. apply orb_true_iff. right. apply Z.ltb_lt. lia.
Qed.

Lemma over_later s T id tok o t : over s T id tok t → later T id tok o → over s T id tok (exec1 s o t).
Proof.
  intros Ho [HT Hl] r' Hr'. pose proof (exec1_touches s o t id) as Ht. rewrite Hr' in Ht.
  destruct (t !! id) as [r|] eqn:Er.
  2:{ inversion Ht as [|r Hc| | | | | |]; subst. destruct Hc as (? & ? & ? & ? & ? & ? & ->). done. }
  pose proof (Ho r Er) as Hd.
  inversion Ht as [| |? tok' now Eo Hlive Hm Hh| ? raw Eo Hr| | | |]; subst; simpl; auto.
  destruct Hd as [Hd|]; [|by right]. exfalso.
  rewrite (dead_later s T now r) in Hlive; [done|by apply HT|done].
Qed.

Lemma exec_over s T id tok os t :
  over s T id tok t → Forall (later T id tok) os → over s T id tok (exec s os t).
Proof.
  intros Ho Hf. revert t Ho. induction Hf as [|o os Hl _ IH]; intros t Ho; simpl; [done|].
  apply IH. by apply over_later.
Qed.

Lemma revoke_over s T id tok cond now t :
  (∀ r, t !! id = Some r → cond id r = true) → over s T id tok (revoke_where cond now t).1.
Proof.
  intros Hc r' Hr. left. rewrite revoke_where_lookup in Hr. destruct (t !! id) as [r|] eqn:E; simplify_eq/=.
  rewrite (Hc r eq_refl). unfold dead. destruct (revoked_at r) eqn:Er; simpl; [by rewrite Er|done].
Qed.

Lemma ends_over s T id tok o t : ends id tok t o → over s T id tok (exec1 s o t).
Proof.
  destruct o; simpl; try done.
  - intros [-> (tok' & Hr & Hne)]. unfold Rotate in *. destruct raw as [raw|]; [|done].
    destruct (t !! id) as [r|]; [|done]. destruct (is_Some_b _); [done|].
    destruct (by_hash _ _); [done|]. simplify_eq/=. intros r'. rewrite lookup_insert_eq. intros [= <-]. by right.
  - intros ->. apply revoke_over. intros r _. by apply bool_decide_eq_true.
  - intros Hu. apply revoke_over. intros r Hr. apply bool_decide_eq_true. by apply Hu.
  - intros [Hk Hu]. apply revoke_over. intros r Hr. rewrite (bool_decide_eq_true_2 (user_id r = userID)) by by apply Hu.
    by rewrite (bool_decide_eq_false_2 (id = keep)).
Qed.

Lemma Lookup_Ok s tok now t sess :
  (Lookup s tok now t).1 = Ok sess → ∃ r, t !! ID sess = Some r ∧ token_hash r = hashToken tok ∧ dead s now r = false.
Proof.
  unfold Lookup. case_bool_decide; [done|]. destruct (by_hash _ t) as [[id r]|] eqn:E; [|done].
  apply by_hash_Some in E as [Hr Hh]. destruct (dead s now r) eqn:Ed; [done|].
  destruct (_ <? _); simpl; intros [= <-]; simpl; eauto.
Qed.

(** C8. The end of a session is final.  Once the session [id] is expired, idle
for too long, revoked or gone (or the token has been rotated away), or a call
ends it (signing out, ending all or all other sessions of the user, rotating
the token), no sequence of further calls (lookups, second-factor proofs,
rotations, other sign-ins, clean-ups) makes the token resolve to it again,
unless the random generator issues the same session id or token anew. *)
Theorem over_for_good s id tok T t :
  (∀ o, ends id tok t o → over s T id tok (exec1 s o t)) ∧
  (∀ os now sess, over s T id tok t → Forall (later T id tok) os → T ≤ now →
     (Lookup s tok now (exec s os t)).1 = Ok sess → ID sess ≠ id).
Proof.
  split; [intros o; apply ends_over|]. intros os now sess Ho Hf HT Hlook <-.
  apply Lookup_Ok in Hlook as (r & Hr & Hh & Hd). destruct (exec_over _ _ _ _ _ _ Ho Hf r Hr) as [Hd'|]; [|done].
  by rewrite (dead_later s T now r) in Hd.
Qed.

(** * The life of a session *)

(** The row keeps the session usable with [tok] until [E]; it was used at [u]. *)
Definition alive (id uid tok : string) (E u : time) (t : table) : Prop :=
  unique t ∧ ∃ r, t !! id = Some r ∧ user_id r = uid ∧ token_hash r = hashToken tok ∧
    revoked_at r = None ∧ expires_at r = E ∧ u - Minute ≤ last_seen_at r.

(** [os] uses [tok] often enough: from [u] on no two uses, nor the last and
[now], are further apart than the idle limit less the minute within which
[Lookup] does not write. *)
Fixpoint in_use (s : Sessions) (tok : string) (u : time) (os : list op) (now : time) : Prop :=
  match os with
  | [] => u ≤ now ≤ u + (IdleTTL s - Minute)
  | OLookup tok' v :: os =>
      if decide (tok' = tok) then u ≤ v ≤ u + (IdleTTL s - Minute) ∧ in_use s tok v os now
      else in_use s tok u os now
  | _ :: os => in_use s tok u os now
  end.

Lemma TimeArg_bounds t : t - Microsecond < TimeArg t ≤ t.
Proof. unfold TimeArg, Microsecond. div_lia. Qed.

Lemma not_dead s now r : revoked_at r = None → now ≤ expires_at r → now - last_seen_at r ≤ IdleTTL s →
  minDuration ≤ IdleTTL s → dead s now r = false.
Proof.
  intros Hr He Hi Hm. unfold dead, After. rewrite Hr, bool_decide_eq_false_2 by lia. simpl.
  apply Z.ltb_ge. unfold Sub. lia.
Qed.

(** A call that spares the session keeps it alive. *)
Lemma spares_alive s id uid tok E u o t :
  alive id uid tok E u t → spares id uid o → (∀ v, op_time o = Some v → v ≤ E) → alive id uid tok E u (exec1 s o t).
Proof.
  intros (Hu & r & Hr & Huid & Hh & Hrev & HE & Hseen) Hs Ht. split; [by apply exec1_unique|].
  pose proof (exec1_touches s o t id) as Htch. rewrite Hr in Htch.
  inversion Htch as [? E1|?? E1|? tok' v Eo Hl Hm Hh' E1 E2|? raw Eo|? at_ E1 E2|? p e ver E1 E2|? v Hn E1 E2|? v Eo Hd];
    subst; try (eexists; split; [done|]; simpl; by split_and!).
  - eexists. split; [done|]. simpl. split_and!; try done.
    pose proof (TimeArg_bounds v). unfold Sub, Minute, Second, Microsecond, minDuration, maxDuration in *. lia.
  - destruct Hd as [Hd|[x Hx]]; [|congruence]. specialize (Ht _ eq_refl).
    pose proof (TimeArg_bounds (v - 24 * Hour)). unfold Hour, Minute, Second in *. lia.
Qed.

Lemma Lookup_alive s id uid tok E u t now :
  alive id uid tok E u t → tok ≠ "" → now ≤ E → u ≤ now ≤ u + (IdleTTL s - Minute) → minDuration ≤ IdleTTL s →
  (∃ sess, (Lookup s tok now t).1 = Ok sess ∧ ID sess = id ∧ UserID sess = uid) ∧
  alive id uid tok E now (Lookup s tok now t).2.
Proof.
  intros Ha Hne HE Hu Hm. pose proof Ha as (Huq & r & Hr & Huid & Hh & Hrev & Hexp & Hseen).
  assert (unique (Lookup s tok now t).2) as Hu' by apply (exec1_unique s (OLookup tok now) t Huq).
  unfold alive. revert Hu'. unfold Lookup. rewrite bool_decide_eq_false_2 by done. rewrite <-Hh, (by_hash_unique t id r) by done.
  rewrite (not_dead s now r) by (done || lia).
  destruct (Z.ltb_spec Minute (Sub now (last_seen_at r))) as [Hlt|Hge]; simpl; intros Hu'.
  - split; [by eexists|]. split; [done|]. rewrite lookup_insert_eq. eexists. split; [done|]. simpl. split_and!; try done.
    pose proof (TimeArg_bounds now). unfold Minute, Second, Microsecond in *. lia.
  - split; [by eexists|]. split; [done|]. exists r. split_and!; try done.
    unfold Sub, Minute, Second, minDuration, maxDuration in *. lia.
Qed.

Lemma exec_alive s id uid tok E os now : tok ≠ "" → minDuration ≤ IdleTTL s → now ≤ E →
  Forall (λ o, spares id uid o ∧ ∀ v, op_time o = Some v → v ≤ E) os →
  ∀ u t, alive id uid tok E u t → in_use s tok u os now →
  ∃ u', alive id uid tok E u' (exec s os t) ∧ u' ≤ now ≤ u' + (IdleTTL s - Minute).
Proof.
  intros Hne Hm HE Hf. induction Hf as [|o os [Hs Ht] _ IH]; intros u t Ha Hi; [by exists u|].
  simpl. assert (in_use s tok u os now ∨ ∃ v, o = OLookup tok v ∧ u ≤ v ≤ u + (IdleTTL s - Minute) ∧ in_use s tok v os now) as [Hi'|Hv].
  { destruct o as [| tok' v | | | | | | | | ]; simpl in Hi; auto. destruct (decide _); [subst; right; eauto|auto]. }
  - apply (IH u); [by apply spares_alive|done].
  - destruct Hv as (v & -> & Hv & Hi'). apply (IH v); [|done]. simpl. by apply (Lookup_alive s id uid tok E u t v); auto.
Qed.

Lemma Create_alive s raw id now uid i a m t tok sess :
  unique t → (Create s raw id now uid i a m t).1 = Ok (tok, sess) →
  alive id uid tok (TimeArg (now + AbsoluteTTL s)) now (Create s raw id now uid i a m t).2.
Proof.
  intros Hu Hc. assert (unique (Create s raw id now uid i a m t).2) as Hu' by apply (exec1_unique s (OCreate raw id now uid i a m) t Hu).
  unfold alive. revert Hc Hu'. unfold Create. destruct raw as [raw|]; [|done]. destruct (t !! id); [done|].
  destruct (by_hash _ t); [done|]. simpl. intros [= <- <-] Hu'. split; [done|]. rewrite lookup_insert_eq.
  eexists. split; [done|]. simpl. split_and!; try done.
  pose proof (TimeArg_bounds now). unfold Minute, Second, Microsecond in *. lia.
Qed.

Lemma unique_empty : unique ∅.
Proof. intros i j r r'. by rewrite lookup_empty. Qed.

Lemma exec_unique s os t : unique t → unique (exec s os t).
Proof. revert t. induction os as [|o os IH]; intros t Hu; simpl; [done|]. by apply IH, exec1_unique. Qed.

(** A signed-in browser stays signed in: after any history a token that
[Create] returned resolves to the session it was created for, with its user,
up to twelve hours later (the absolute limit), provided it is used at least
every fifty-nine minutes (the idle limit less the minute for which [Lookup]
saves itself the write) and no call in between revokes that session or
rotates its token; sign-ins, lookups, rotations and revocations of other
sessions, second-factor proofs and clean-ups do not disturb it. *)
Theorem session_lasts s before raw id t0 uid i a m tok sess os now :
  let t := exec s before ∅ in
  (Create s raw id t0 uid i a m t).1 = Ok (tok, sess) → tok ≠ "" → minDuration ≤ IdleTTL s →
  now ≤ TimeArg (t0 + AbsoluteTTL s) →
  Forall (λ o, spares id uid o ∧ ∀ v, op_time o = Some v → v ≤ TimeArg (t0 + AbsoluteTTL s)) os →
  in_use s tok t0 os now →
  ∃ sess', (Lookup s tok now (exec s os (Create s raw id t0 uid i a m t).2)).1 = Ok sess' ∧
    ID sess' = id ∧ UserID sess' = uid.
Proof.
  intros t Hc Hne Hm HE Hf Hi. assert (unique t) as Hu by apply exec_unique, unique_empty.
  destruct (exec_alive s id uid tok _ os now Hne Hm HE Hf t0 _ (Create_alive _ _ _ _ _ _ _ _ _ _ _ Hu Hc) Hi) as (u & Ha & Hu').
  destruct (Lookup_alive s id uid tok _ u _ now Ha Hne HE Hu' Hm) as [(sess' & ? & ? & ?) _]. eauto.
Qed.

(** Ada signs in, and again from a second browser; she uses the first session
after 58 and 116 minutes, then ends her other sessions from the second. *)
Definition demo : Sessions := NewSessions [] true.
Definition minutes (n : Z) : time := n * Minute.
Definition ada_raw : bytes := replicate 32 (Ascii.ascii_of_N 7).
Definition ada_raw2 : bytes := replicate 32 (Ascii.ascii_of_N 8).
Definition ada_token : string := Base64.EncodeToString ada_raw.
Definition ada_in (t : table) : table := (Create demo (Some ada_raw) "s1" 0 "ada" "10.0.0.1" "Firefox" true t).2.
Definition ada_day : list op := [
  OCreate (Some ada_raw2) "s2" (minutes 1) "ada" "10.0.0.2" "Safari" true;
  OLookup ada_token (minutes 58); ODeleteExpired (minutes 60); OMarkMFAProved (minutes 61) "s1"].

Lemma session_lasts_witness :
  ∃ sess, (Lookup demo ada_token (minutes 116) (exec demo ada_day (ada_in (exec demo [] ∅)))).1 = Ok sess ∧
    ID sess = "s1" ∧ UserID sess = "ada".
Proof.
  eapply (session_lasts demo [] (Some ada_raw) "s1" 0 "ada" "10.0.0.1" "Firefox" true ada_token _ ada_day (minutes 116)).
  - vm_compute. reflexivity.
  - by vm_compute.
  - by vm_compute.
  - by vm_compute.
  - repeat constructor; intros v [= <-]; by vm_compute.
  - vm_compute. repeat split; discriminate.
Defined.

Definition ada_shut_out : table :=
  exec1 demo (ORevokeOthersForUser (minutes 62) "ada" "s2") (exec demo ada_day (ada_in ∅)).

Lemma over_for_good_witness :
  over demo (minutes 62) "s1" ada_token ada_shut_out ∧
  (Lookup demo ada_token (minutes 63) (exec demo [OMarkMFAProved (minutes 63) "s1"] ada_shut_out)).1 = Err ErrNoSession ∧
  match (Lookup demo ada_token (minutes 63) (exec demo [OMarkMFAProved (minutes 63) "s1"] ada_shut_out)).1 with
  | Ok sess => bool_decide (ID sess = "s1") = false
  | Err _ => True
  end.
Proof.
  assert (over demo (minutes 62) "s1" ada_token ada_shut_out) as Ho.
  { apply (proj1 (over_for_good demo "s1" ada_token (minutes 62) _)). cbn [ends]. split; [done|]. intros r Hr.
    assert (user_id <$> (exec demo ada_day (ada_in ∅) !! "s1") = Some "ada") as Hu by by vm_compute.
    rewrite Hr in Hu. by injection Hu. }
  split; [done|]. split; [by vm_compute|].
  destruct (Lookup _ _ _ _).1 as [sess|] eqn:E; [|done]. apply bool_decide_eq_false.
  apply (proj2 (over_for_good demo "s1" ada_token (minutes 62) ada_shut_out) [OMarkMFAProved (minutes 63) "s1"] (minutes 63) sess Ho); [|by vm_compute|done].
  repeat constructor. simpl. intros v [= <-]. by vm_compute.
Defined.
