(* ===== verification/Gcm.v ===== *)
(** AES-256-GCM, as the Go standard library's crypto/aes and crypto/cipher
provide it to src/internal/crypto: FIPS 197 for the block cipher and NIST SP
800-38D for the mode, with 12-byte nonces and 16-byte tags.  The published
test vectors are checked by evaluation, and opening what was sealed is proved
to give it back. *)
From S2P Require Import Prelude GoText Sha256.
Local Open Scope N_scope.

(** * The block cipher *)
Module Aes.

(** Multiplication by x in GF(2^8), and multiplication. *)
Definition xtime (a : N) : N :=
  let b := 2 * a in if 256 <=? b then N.lxor b 283 else b.

Fixpoint gmul_bits (fuel : nat) (a b : N) : N :=
  match fuel with
  | O => 0
  | S f => N.lxor (if N.odd b then a else 0) (gmul_bits f (xtime a) (b / 2))
  end.

Definition gmul (a b : N) : N := gmul_bits 8 a b.

(** The inverse is the 254th power. *)
Definition ginv (a : N) : N := Nat.iter 253 (gmul a) a.

Definition affine (a : N) : N :=
  let rot k := N.land (N.lor (N.shiftl a k) (N.shiftr a (8 - k))) 255 in
  N.lxor (N.lxor (N.lxor (N.lxor (N.lxor a (rot 1)) (rot 2)) (rot 3)) (rot 4)) 99.

Definition sbox : list N := Eval vm_compute in (λ n, affine (ginv (N.of_nat n))) <$> seq 0 256.

Definition sub (a : N) : N := nth (N.to_nat a) sbox 0.

Abbreviation word := (list N).

Definition rcon : list N := [1; 2; 4; 8; 16; 32; 64].

(** One word of the key schedule; the words so far are newest first. *)
Definition next_word (ws : list word) : list word :=
  let i := length ws in
  let temp := nth 0 ws [] in
  let temp :=
    if (i mod 8 =? 0)%nat then
      match sub <$> temp with
      | [a; b; c; d] => [N.lxor b (nth (i / 8 - 1) rcon 0); c; d; a]
      | w => w
      end
    else if (i mod 8 =? 4)%nat then sub <$> temp
    else temp in
  zip_with N.lxor (nth 7 ws []) temp :: ws.

Fixpoint split4 (b : list N) : list word :=
  match b with
  | w :: x :: y :: z :: rest => [w; x; y; z] :: split4 rest
  | _ => []
  end.

(** The 240 bytes of the fifteen round keys. *)
Definition expand (key : list N) : list N :=
  concat (rev (Nat.iter 52 next_word (rev (split4 key)))).

Definition add_round_key (w : list N) (r : nat) (st : list N) : list N :=
  (λ i, N.lxor (nth i st 0) (nth (16 * r + i) w 0)) <$> seq 0 16.

Definition shift_rows (st : list N) : list N :=
  (λ i, nth i st 0) <$> [0; 5; 10; 15; 4; 9; 14; 3; 8; 13; 2; 7; 12; 1; 6; 11]%nat.

Fixpoint mix_columns (st : list N) : list N :=
  match st with
  | a :: b :: c :: d :: rest =>
      let m x y z w := N.lxor (N.lxor (gmul x 2) (gmul y 3)) (N.lxor z w) in
      m a b c d :: m b c d a :: m c d a b :: m d a b c :: mix_columns rest
  | _ => []
  end.

Definition round (w : list N) (st : list N) (r : nat) : list N :=
  add_round_key w r (mix_columns (shift_rows (sub <$> st))).

Definition encrypt (w : list N) (block : list N) : list N :=
  let st := foldl (round w) (add_round_key w 0 block) (seq 1 13) in
  add_round_key w 14 (shift_rows (sub <$> st)).

(** Every byte stays a byte. *)
Definition byte_ok (x : N) : Prop := x < 256.

Lemma lxor_ok a b : byte_ok a → byte_ok b → byte_ok (N.lxor a b).
Proof.
  unfold byte_ok. intros Ha Hb. destruct (N.eq_dec (N.lxor a b) 0) as [->|Hne]; [lia|].
  apply (N.log2_lt_pow2 _ 8); [lia|]. eapply N.le_lt_trans; [apply N.log2_lxor|].
  apply N.max_lub_lt; [destruct (N.eq_dec a 0) as [->|]|destruct (N.eq_dec b 0) as [->|]];
    try (cbn; lia); apply N.log2_lt_pow2; lia.
Qed.

Lemma nth_ok n l : Forall byte_ok l → byte_ok (nth n l 0).
Proof.
  intros Hf. destruct (nth_in_or_default n l 0) as [Hin| ->]; [|done].
  apply list_elem_of_In in Hin. rewrite Forall_forall in Hf. by apply Hf.
Qed.

Lemma sub_ok a : byte_ok (sub a).
Proof. apply nth_ok, (bool_decide_eq_true_1 (Forall (λ x, x < 256) sbox)). by vm_compute. Qed.

Lemma zip_ok l k : Forall byte_ok l → Forall byte_ok k → Forall byte_ok (zip_with N.lxor l k).
Proof. intros Hl. revert k. induction Hl; intros k Hk; destruct Hk; simpl; constructor; auto using lxor_ok. Qed.

Lemma subs_ok l : Forall byte_ok (sub <$> l).
Proof. apply Forall_fmap, Forall_true. intros x. apply sub_ok. Qed.

Lemma next_word_ok ws : Forall (Forall byte_ok) ws → Forall (Forall byte_ok) (next_word ws).
Proof.
  intros Hws. assert (∀ n, Forall byte_ok (nth n ws [])) as Hn.
  { intros n. destruct (nth_in_or_default n ws []) as [Hin| ->]; [|done].
    apply list_elem_of_In in Hin. rewrite Forall_forall in Hws. by apply Hws. }
  constructor; [|done]. apply zip_ok; [apply Hn|].
  destruct (_ =? 0)%nat; [|destruct (_ =? 4)%nat; [apply subs_ok|apply Hn]].
  pose proof (subs_ok (nth 0 ws [])) as Hs. destruct (sub <$> nth 0 ws []) as [|a [|b [|c [|d [|]]]]]; try done.
  repeat match goal with H : Forall _ (_ :: _) |- _ => inversion H; clear H; subst end.
  repeat constructor; try done. apply lxor_ok; [done|]. apply nth_ok. by repeat constructor.
Qed.

Lemma split4_ok b : Forall byte_ok b → Forall (Forall byte_ok) (split4 b).
Proof.
  revert b. fix IH 1. intros b Hb. destruct b as [|w [|x [|y [|z rest]]]]; simpl; try constructor.
  - repeat (apply Forall_cons in Hb as [? Hb]). by repeat constructor.
  - apply IH. by repeat (apply Forall_cons in Hb as [_ Hb]).
Qed.

Lemma iter_ok {A} (P : A → Prop) (f : A → A) n x : (∀ y, P y → P (f y)) → P x → P (Nat.iter n f x).
Proof. intros Hf Hx. induction n; simpl; auto. Qed.

Lemma expand_ok key : Forall byte_ok key → Forall byte_ok (expand key).
Proof.
  intros Hk. apply Forall_concat, Forall_rev. apply iter_ok; [apply next_word_ok|].
  apply Forall_rev. by apply split4_ok.
Qed.

Lemma encrypt_ok w block : Forall byte_ok w → Forall byte_ok (encrypt w block).
Proof.
  intros Hw. unfold encrypt. generalize (foldl (round w) (add_round_key w 0 block) (seq 1 13)). intros st.
  unfold add_round_key. apply Forall_fmap, Forall_true. intros i. apply lxor_ok; [|by apply nth_ok]. apply nth_ok. unfold shift_rows. apply Forall_fmap, Forall_true.
  intros j. apply nth_ok, subs_ok.
Qed.

Lemma encrypt_length w block : length (encrypt w block) = 16%nat.
Proof.
  unfold encrypt. generalize (foldl (round w) (add_round_key w 0 block) (seq 1 13)). intros st.
  unfold add_round_key. by rewrite length_fmap, length_seq.
Qed.
End Aes.

(** * The mode *)
Module Gcm.

Abbreviation block := (list N).

Definition to_N (b : list N) : N := foldl (λ acc x, acc * 256 + x) 0 b.

Definition be (n : nat) (x : N) : list N :=
  (λ i, N.shiftr x (8 * N.of_nat i) mod 256) <$> rev (seq 0 n).

(** Multiplication in GF(2^128), most significant bit first. *)
Fixpoint mul_bits (n : nat) (x v z : N) : N :=
  match n with
  | O => z
  | S n =>
      let z := if N.testbit x (N.of_nat n) then N.lxor z v else z in
      let v := if N.odd v then N.lxor (v / 2) (N.shiftl 225 120) else v / 2 in
      mul_bits n x v z
  end.

Definition mul (x y : N) : N := mul_bits 128 x y 0.

(** [b] cut into blocks of sixteen, the last one padded with zeros. *)
Fixpoint blocks_of (fuel : nat) (b : list N) : list block :=
  match fuel, b with
  | O, _ | _, [] => []
  | S f, _ => (take 16 b ++ replicate (16 - length b) 0) :: blocks_of f (drop 16 b)
  end.

Definition GHASH (h : N) (aad ct : list N) : N :=
  let lens := be 8 (8 * N.of_nat (length aad)) ++ be 8 (8 * N.of_nat (length ct)) in
  foldl (λ y b, mul (N.lxor y (to_N b)) h) 0
    (blocks_of (length aad) aad ++ blocks_of (length ct) ct ++ [lens]).

Definition counter (nonce : list N) (i : nat) : block := nonce ++ be 4 (N.of_nat i).

Definition keystream (w nonce : list N) (n : nat) : list N :=
  concat ((λ i, Aes.encrypt w (counter nonce (i + 2))) <$> seq 0 (n / 16 + 1)).

Definition crypt (w nonce text : list N) : list N :=
  zip_with N.lxor text (keystream w nonce (length text)).

Definition tag (w nonce aad ct : list N) : list N :=
  let h := to_N (Aes.encrypt w (replicate 16 0)) in
  zip_with N.lxor (be 16 (GHASH h aad ct)) (Aes.encrypt w (counter nonce 1)).

(** * cipher.AEAD *)

Definition Overhead : nat := 16.

Definition nums (b : bytes) : list N := byte_N <$> b.
Definition chars (l : list N) : bytes := byte_of <$> l.

(** [aead.Seal] and [aead.Open] under a 32-byte key. *)
Definition Seal (key nonce plaintext aad : bytes) : bytes :=
  let w := Aes.expand (nums key) in
  let ct := crypt w (nums nonce) (nums plaintext) in
  chars (ct ++ tag w (nums nonce) (nums aad) ct).

Definition Open (key nonce sealed aad : bytes) : option bytes :=
  let w := Aes.expand (nums key) in
  let n := (length sealed - Overhead)%nat in
  let ct := nums (take n sealed) in
  if (length sealed <? Overhead)%nat then None
  else if bool_decide (drop n sealed = chars (tag w (nums nonce) (nums aad) ct))
  then Some (chars (crypt w (nums nonce) ct))
  else None.

Definition hex (s : string) : bytes := default [] (Hex.DecodeString s).

(** Test cases 13, 14 and 16 of the GCM specification. *)
Example gcm_13 :
  Hex.EncodeToString (Seal (replicate 32 (byte_of 0)) (replicate 12 (byte_of 0)) [] []) =
  "530f8afbc74536b9a963b4f1c4cb738b".
Proof. vm_compute. reflexivity. Qed.

Example gcm_14 :
  Hex.EncodeToString (Seal (replicate 32 (byte_of 0)) (replicate 12 (byte_of 0)) (replicate 16 (byte_of 0)) []) =
  "cea7403d4d606b6e074ec5d3baf39d18d0d1c8a799996bf0265b98b5d48ab919".
Proof. vm_compute. reflexivity. Qed.

Example gcm_16 :
  Hex.EncodeToString (Seal
    (hex "feffe9928665731c6d6a8f9467308308feffe9928665731c6d6a8f9467308308") (hex "cafebabefacedbaddecaf888")
    (hex "d9313225f88406e5a55909c5aff5269a86a7a9531534f7da2e4c303d8a318a721c3c0c95956809532fcf0e2449a6b525b16aedf5aa0de657ba637b39")
    (hex "feedfacedeadbeeffeedfacedeadbeefabaddad2")) =
  "522dc1f099567d07f47f37a32a84427d643a8cdcbfe5c0c97598a2bd2555d1aa8cb08e48590dbb3da7b08b1056828838c5f61e6393ba7a0abcc9f66276fc6ece0f4e1768cddf8853bb2d551b".
Proof. vm_compute. reflexivity. Qed.

#[local] Opaque Aes.encrypt Aes.expand.

Lemma nums_ok b : Forall Aes.byte_ok (nums b).
Proof. apply Forall_fmap, Forall_true. intros a. apply byte_N_bound. Qed.

Lemma chars_nums b : chars (nums b) = b.
Proof. induction b as [|a b IH]; simpl; [done|]. by rewrite byte_of_byte_N, IH. Qed.

Lemma nums_chars l : Forall Aes.byte_ok l → nums (chars l) = l.
Proof. induction 1 as [|x l Hx _ IH]; simpl; [done|]. by rewrite Utf8.byte_N_of, IH. Qed.

Lemma keystream_length w nonce n : (n ≤ length (keystream w nonce n))%nat.
Proof.
  unfold keystream. assert (∀ k m, length (concat ((λ i, Aes.encrypt w (counter nonce (i + 2))) <$> seq m k)) = (16 * k)%nat) as ->.
  { intros k. induction k as [|k IH]; intros m; [done|]. cbn [seq fmap list_fmap concat]. rewrite length_app, Aes.encrypt_length, IH. lia. }
  pose proof (Nat.div_mod n 16). pose proof (Nat.mod_upper_bound n 16). lia.
Qed.

Lemma keystream_ok w nonce n : Forall Aes.byte_ok w → Forall Aes.byte_ok (keystream w nonce n).
Proof. intros Hw. apply Forall_concat, Forall_fmap, Forall_true. intros i. apply Aes.encrypt_ok, Hw. Qed.

Lemma crypt_length w nonce text : length (crypt w nonce text) = length text.
Proof. unfold crypt. rewrite length_zip_with. pose proof (keystream_length w nonce (length text)). lia. Qed.

Lemma crypt_crypt w nonce text : crypt w nonce (crypt w nonce text) = text.
Proof.
  unfold crypt at 1. rewrite crypt_length. unfold crypt. pose proof (keystream_length w nonce (length text)) as Hk.
  generalize dependent (keystream w nonce (length text)). intros ks Hk. revert ks Hk.
  induction text as [|x text IH]; intros [|k ks] Hk; simpl in *; [done..|lia|].
  rewrite IH by lia. by rewrite N.lxor_assoc, N.lxor_nilpotent, N.lxor_0_r.
Qed.

Lemma be_ok n x : Forall Aes.byte_ok (be n x).
Proof. apply Forall_fmap, Forall_true. intros i. unfold Aes.byte_ok. simpl. apply N.mod_lt. lia. Qed.

Lemma be_length n x : length (be n x) = n.
Proof. unfold be. by rewrite length_fmap, length_rev, length_seq. Qed.

Lemma tag_length w nonce aad ct : length (tag w nonce aad ct) = 16%nat.
Proof. unfold tag. rewrite length_zip_with, be_length, Aes.encrypt_length. done. Qed.

Lemma Seal_length key nonce plaintext aad : length (Seal key nonce plaintext aad) = (length plaintext + Overhead)%nat.
Proof. unfold Seal, chars, nums. by rewrite length_fmap, length_app, tag_length, crypt_length, length_fmap. Qed.

(** Opening what was sealed, under the same key, nonce and additional data,
gives it back. *)
Lemma Open_Seal key nonce plaintext aad : Open key nonce (Seal key nonce plaintext aad) aad = Some plaintext.
Proof.
  unfold Open. rewrite Seal_length, Nat.add_sub. rewrite (proj2 (Nat.ltb_ge _ _)) by (unfold Overhead; lia).
  unfold Seal. set (w := Aes.expand (nums key)). set (ct := crypt w (nums nonce) (nums plaintext)).
  assert (Forall Aes.byte_ok ct) as Hct.
  { apply Aes.zip_ok; [apply nums_ok|]. apply keystream_ok, Aes.expand_ok, nums_ok. }
  assert (length (chars ct) = length plaintext) as Hl.
  { unfold chars, ct, nums. by rewrite length_fmap, crypt_length, length_fmap. }
  assert (chars (ct ++ tag w (nums nonce) (nums aad) ct) = chars ct ++ chars (tag w (nums nonce) (nums aad) ct)) as ->
    by apply fmap_app.
  rewrite take_app_length', drop_app_length' by done.
  rewrite (nums_chars ct) by done. rewrite bool_decide_eq_true_2 by done.
  subst ct. by rewrite crypt_crypt, chars_nums.
Qed.
End Gcm.
