(* ===== verification/Keyring.v ===== *)
(** Envelope encryption and the key ring: src/internal/crypto/envelope.go and
src/internal/keyring/ring.go.

[Envelope] seals and opens with AES-256-GCM (Gcm.v) and states what a
key-encryption key provider promises ([KEKLaws]); [NewLocalKEK] is shown to
keep the promise.  [Ring] is the key ring over the table [key_versions], with
the rows as a map from the version to the row.  Random bytes and clock
readings are arguments, [None] where the random generator failed.

The byte slices a ring zeroes are its own and leave its maps in the same
step, so [crypto.Zero] does not show here.  The table is read and written in
transactions; a database that cannot be reached is not modelled. *)
From stdpp Require Import sorting.
From S2P Require Import Prelude GoText Strconv Sha256 Gcm.
Local Open Scope Z_scope.

(** * crypto/envelope.go *)
Module Envelope.

Definition keySize : nat := 32.
Definition nonceSize : nat := 12.
Definition MaxPlaintext : N := 16777216.

Inductive Error :=
| ErrKeySize | ErrInvalidCiphertext | ErrPlaintextTooLarge | ErrRand.

#[export] Instance Error_eq_dec : EqDecision Error.
Proof. solve_decision. Defined.

(** [rand.Read] on a buffer of [n] bytes: it fills the buffer. *)
Definition fill (n : nat) (raw : bytes) : bytes := take n (raw ++ replicate n (byte_of 0)).

Definition newAEAD (key : bytes) : result Error bytes :=
  if (length key =? keySize)%nat then Ok key else Err ErrKeySize.

Definition seal (raw : option bytes) (aead plaintext aad : bytes) : result Error bytes :=
  if (MaxPlaintext <? N.of_nat (length plaintext))%N then Err ErrPlaintextTooLarge else
  match raw with
  | None => Err ErrRand
  | Some raw => let nonce := fill nonceSize raw in Ok (nonce ++ Gcm.Seal aead nonce plaintext aad)
  end.

Definition open (aead blob aad : bytes) : result Error bytes :=
  if (length blob <? nonceSize + Gcm.Overhead)%nat then Err ErrInvalidCiphertext
  else match Gcm.Open aead (take nonceSize blob) (drop nonceSize blob) aad with
       | Some pt => Ok pt
       | None => Err ErrInvalidCiphertext
       end.

(** KEKProvider wraps and unwraps data-encryption keys. *)
Record KEKProvider := {
  Wrap : option bytes → bytes → bytes → result Error bytes;
  Unwrap : bytes → bytes → result Error bytes;
  Source : string;
}.

Definition NewLocalKEK (masterKey : bytes) : result Error KEKProvider :=
  let? aead := newAEAD masterKey in
  Ok {| Wrap := λ raw dek aad, seal raw aead dek aad;
        Unwrap := λ wrapped aad, open aead wrapped aad;
        Source := "local" |}.

Definition NewDEK (raw : option bytes) : result Error bytes :=
  match raw with None => Err ErrRand | Some raw => Ok (fill keySize raw) end.

Definition Encrypt (raw : option bytes) (dek plaintext aad : bytes) : result Error bytes :=
  let? aead := newAEAD dek in seal raw aead plaintext aad.

Definition Decrypt (dek ciphertext aad : bytes) : result Error bytes :=
  let? aead := newAEAD dek in open aead ciphertext aad.

(** [hkdf.Key(sha256.New, master, nil, purpose, 32)]: one block of output. *)
Definition hkdf_key (secret : bytes) (info : string) : bytes :=
  let prk := Sha.Hmac (replicate 32 (byte_of 0)) secret in
  Sha.Hmac prk (to_bytes info ++ [byte_of 1]).

Definition DeriveKey (master : bytes) (purpose : string) : result Error bytes :=
  if (length master =? keySize)%nat then Ok (hkdf_key master purpose) else Err ErrKeySize.

(** The first block of test case 3 of RFC 5869. *)
Example hkdf_rfc5869_3 :
  Hex.EncodeToString (hkdf_key (replicate 22 (byte_of 11)) "") =
  "8da4e775a563c18f715f802a063c5a31b8a11f5c5ee1879ec3454e5f3c738d2d".
Proof. vm_compute. reflexivity. Qed.

(** What the key ring relies on: a wrapped key can be unwrapped. *)
Class KEKLaws (k : KEKProvider) : Prop := {
  unwrap_wrap raw dek aad wrapped :
    length dek = keySize → Wrap k raw dek aad = Ok wrapped → Unwrap k wrapped aad = Ok dek;
}.

Lemma fill_length n raw : length (fill n raw) = n.
Proof. unfold fill. rewrite length_take, length_app, length_replicate. lia. Qed.

Lemma open_seal raw aead plaintext aad blob : seal raw aead plaintext aad = Ok blob → open aead blob aad = Ok plaintext.
Proof.
  unfold seal. destruct (_ <? _)%N; [done|]. destruct raw as [raw|]; [|done]. intros [= <-]. unfold open.
  rewrite length_app, fill_length, Gcm.Seal_length.
  rewrite (proj2 (Nat.ltb_ge _ _)) by lia.
  rewrite take_app_length', drop_app_length' by (by rewrite fill_length). by rewrite Gcm.Open_Seal.
Qed.

Lemma LocalKEK_laws master k : NewLocalKEK master = Ok k → KEKLaws k.
Proof.
  unfold NewLocalKEK. rewrite rbind_Ok. intros (aead & _ & [= <-]). split. simpl. intros raw dek aad w _. apply open_seal.
Qed.

Lemma Decrypt_Encrypt raw dek plaintext aad ct :
  Encrypt raw dek plaintext aad = Ok ct → Decrypt dek ct aad = Ok plaintext.
Proof.
  unfold Encrypt, Decrypt. rewrite rbind_Ok. intros (aead & -> & Hs). simpl. by eapply open_seal.
Qed.

Lemma NewDEK_length raw dek : NewDEK raw = Ok dek → length dek = keySize.
Proof. destruct raw; simpl; [|done]. intros [= <-]. apply fill_length. Qed.
End Envelope.

(** * keyring/ring.go *)
Module Ring.
Import Envelope.

Definition algorithm : string := "aes-256-gcm".

Inductive Err_ :=
| ErrClosed | ErrSameKEK | ErrNoActive | ErrNoVersions
| ErrUnknownVersion (v : Z) | ErrCannotUnwrap (v : Z) | ErrVerify (v : Z) | ErrCrypto (e : Error).

Definition crypto {A} (r : result Error A) : result Err_ A :=
  match r with Ok a => Ok a | Err e => Err (ErrCrypto e) end.

(** AAD builds the additional authenticated data for a row. *)
Definition AAD (table id : string) : string := table ++ ":" ++ id.

Definition Itoa (z : Z) : string := of_bytes (FormatInt z).

Definition version_aad (id : Z) : bytes := to_bytes (AAD "key_versions" (Itoa id)).

(** A row of [key_versions], without its key. *)
Record key_row := {
  algorithm_ : string;
  kek_source : string;
  wrapped_dek : bytes;
  created_at : time;
  rotated_at : option time;
  retired_at : option time;
}.

Abbreviation key_versions := (gmap Z key_row).

Record Ring := {
  kek : KEKProvider;
  deks : gmap Z bytes;
  active : Z;
  closed : bool;
  lastReload : time;
}.

Definition live (r : key_row) : bool := bool_decide (retired_at r = None).

Definition by_id (x y : Z * key_row) : Prop := x.1 ≤ y.1.

#[export] Instance by_id_dec : RelDecision by_id.
Proof. intros x y. unfold by_id. apply _. Defined.

(** [WHERE retired_at IS NULL ORDER BY id]. *)
Definition live_rows (db : key_versions) : list (Z * key_row) :=
  merge_sort by_id (List.filter (λ ir, live ir.2) (map_to_list db)).

(** The loop of [load] over the rows. *)
Fixpoint load_rows (k : KEKProvider) (rows : list (Z * key_row)) (deks : gmap Z bytes) (active : Z)
    : result Err_ (gmap Z bytes * Z) :=
  match rows with
  | [] => Ok (deks, active)
  | (id, row) :: rows =>
      match Unwrap k (wrapped_dek row) (version_aad id) with
      | Err _ => Err (ErrCannotUnwrap id)
      | Ok dek => load_rows k rows (<[id := dek]> deks) (if active <? id then id else active)
      end
  end.

(** load reads all non-retired versions and replaces the in-memory set, with
the copies already held preferred. *)
Definition load (db : key_versions) (r : Ring) : result Err_ Ring :=
  let? da := load_rows (kek r) (live_rows db) ∅ 0 in
  Ok {| kek := kek r; deks := map_imap (λ id d, Some (default d (deks r !! id))) da.1; active := da.2;
        closed := closed r; lastReload := lastReload r |}.

(** [SELECT MAX(id)]. *)
Definition max_id (db : key_versions) : option Z :=
  foldr (λ ir m, Some (match m with None => ir.1 | Some x => Z.max ir.1 x end)) None (map_to_list db).

Definition createVersion (onlyIfEmpty : bool) (rawDEK rawNonce : option bytes) (now : time)
    (r : Ring) (db : key_versions) : result Err_ Z * key_versions :=
  match max_id db, onlyIfEmpty with
  | Some m, true => (Ok m, db)
  | m, _ =>
      let newID := default 0 m + 1 in
      match NewDEK rawDEK with
      | Err e => (Err (ErrCrypto e), db)
      | Ok dek =>
          match Wrap (kek r) rawNonce dek (version_aad newID) with
          | Err e => (Err (ErrCrypto e), db)
          | Ok wrapped =>
              (Ok newID, <[newID := {| algorithm_ := algorithm; kek_source := Source (kek r); wrapped_dek := wrapped;
                            created_at := TimeArg now; rotated_at := None; retired_at := None |}]> db)
          end
      end
  end.

(** [Open]: the ring, and the table with its first version if it had none. *)
Definition Open (k : KEKProvider) (rawDEK rawNonce : option bytes) (now : time) (db : key_versions)
    : result Err_ Ring * key_versions :=
  let r := {| kek := k; deks := ∅; active := 0; closed := false; lastReload := zero_time |} in
  match load db r with
  | Err e => (Err e, db)
  | Ok r =>
      if active r =? 0 then
        match createVersion true rawDEK rawNonce now r db with
        | (Err e, db) => (Err e, db)
        | (Ok _, db) => (load db r, db)
        end
      else (Ok r, db)
  end.

Definition ActiveVersion (r : Ring) : Z := active r.

Definition Encrypt (raw : option bytes) (aad : string) (plaintext : bytes) (r : Ring) : result Err_ (bytes * Z) :=
  if closed r then Err ErrClosed else
  match deks r !! active r with
  | None => Err ErrNoActive
  | Some dek => let? ct := crypto (Envelope.Encrypt raw dek plaintext (to_bytes aad)) in Ok (ct, active r)
  end.

Definition decrypt (aad : string) (ciphertext : bytes) (keyVersion : Z) (r : Ring) : result Err_ bytes :=
  if closed r then Err ErrClosed else
  match deks r !! keyVersion with
  | None => Err (ErrUnknownVersion keyVersion)
  | Some dek => crypto (Envelope.Decrypt dek ciphertext (to_bytes aad))
  end.

(** mayReload: at most one reload a second. *)
Definition mayReload (now : time) (r : Ring) : bool * Ring :=
  if Sub now (lastReload r) <? Second then (false, r)
  else (true, {| kek := kek r; deks := deks r; active := active r; closed := closed r; lastReload := now |}).

Definition Decrypt (aad : string) (ciphertext : bytes) (keyVersion : Z) (now : time) (db : key_versions) (r : Ring)
    : result Err_ bytes * Ring :=
  match decrypt aad ciphertext keyVersion r with
  | Err (ErrUnknownVersion v) =>
      let '(ok, r) := mayReload now r in
      if ok then
        match load db r with
        | Err _ => (Err (ErrUnknownVersion v), r)
        | Ok r => (decrypt aad ciphertext keyVersion r, r)
        end
      else (Err (ErrUnknownVersion v), r)
  | res => (res, r)
  end.

Definition Rotate (rawDEK rawNonce : option bytes) (now : time) (r : Ring) (db : key_versions)
    : result Err_ Z * Ring * key_versions :=
  if closed r then (Err ErrClosed, r, db) else
  match createVersion false rawDEK rawNonce now r db with
  | (Err e, db) => (Err e, r, db)
  | (Ok id, db) =>
      match load db r with
      | Err e => (Err e, r, db)
      | Ok r => (Ok id, r, db)
      end
  end.

(** subtleEqual on two keys of one length. *)
Definition subtleEqual (a b : bytes) : bool := bool_decide (a = b).

(** One turn of the loop of [Rewrap]: the new wrapping of a version. *)
Definition rewrap_one (oldKEK newKEK : KEKProvider) (raw : option bytes) (id : Z) (wrapped : bytes) : result Err_ bytes :=
  match Unwrap newKEK wrapped (version_aad id) with
  | Ok _ => Err ErrSameKEK
  | Err _ =>
      match Unwrap oldKEK wrapped (version_aad id) with
      | Err _ => Err (ErrCannotUnwrap id)
      | Ok dek =>
          let? wrapped := crypto (Wrap newKEK raw dek (version_aad id)) in
          match Unwrap newKEK wrapped (version_aad id) with
          | Ok check =>
              if (length check =? length dek)%nat && subtleEqual check dek then Ok wrapped else Err (ErrVerify id)
          | Err _ => Err (ErrVerify id)
          end
      end
  end.

Definition rewrapped (newKEK : KEKProvider) (now : time) (wrapped : bytes) (row : key_row) : key_row := {|
  algorithm_ := algorithm_ row; kek_source := Source newKEK; wrapped_dek := wrapped;
  created_at := created_at row; rotated_at := Some (TimeArg now); retired_at := retired_at row |}.

(** The loop: each version is rewrapped and written, in the transaction. *)
Fixpoint rewrap_rows (oldKEK newKEK : KEKProvider) (raws : Z → option bytes) (now : time)
    (rows : list (Z * key_row)) (db : key_versions) : result Err_ key_versions :=
  match rows with
  | [] => Ok db
  | (id, row) :: rows =>
      let? wrapped := rewrap_one oldKEK newKEK (raws id) id (wrapped_dek row) in
      rewrap_rows oldKEK newKEK raws now rows (alter (rewrapped newKEK now wrapped) id db)
  end.

(** [raws] gives each version's nonce bytes. *)
Definition Rewrap (newKEK : KEKProvider) (raws : Z → option bytes) (now : time) (r : Ring) (db : key_versions)
    : result Err_ nat * Ring * key_versions :=
  if closed r then (Err ErrClosed, r, db) else
  let set := live_rows db in
  match set with
  | [] => (Err ErrNoVersions, r, db)
  | _ =>
      match rewrap_rows (kek r) newKEK raws now set db with
      | Err e => (Err e, r, db)
      | Ok db' =>
          (Ok (length set),
           {| kek := newKEK; deks := deks r; active := active r; closed := closed r; lastReload := lastReload r |}, db')
      end
  end.

Definition Close (r : Ring) : Ring := {|
  kek := kek r; deks := ∅; active := 0; closed := true; lastReload := lastReload r |}.

(** * Reading the table *)

Lemma live_rows_elem db id row : (id, row) ∈ live_rows db ↔ db !! id = Some row ∧ live row = true.
Proof.
  unfold live_rows. rewrite merge_sort_Permutation.
  rewrite list_elem_of_In, filter_In, <-list_elem_of_In, elem_of_map_to_list. done.
Qed.

(** The table's versions under [k] are those of [S]. *)
Definition holds (S : gmap Z bytes) (k : KEKProvider) (id : Z) (row : key_row) : Prop :=
  ∃ d, S !! id = Some d ∧ length d = keySize ∧ Unwrap k (wrapped_dek row) (version_aad id) = Ok d.

Lemma load_rows_ok S k rows : ∀ d a,
  (∀ id row, (id, row) ∈ rows → holds S k id row) → d ⊆ S →
  ∃ d' a', load_rows k rows d a = Ok (d', a') ∧ d' ⊆ S ∧
    (∀ id, id ∈ dom d' ↔ id ∈ dom d ∨ id ∈ rows.*1) ∧ a ≤ a' ∧ (a' = a ∨ a' ∈ rows.*1) ∧ (∀ id, id ∈ rows.*1 → id ≤ a').
Proof.
  induction rows as [|[id row] rows IH]; intros d a Hh Hd; simpl.
  { exists d, a. split_and!; [done|done|set_solver|lia|by left|]. intros id. by rewrite elem_of_nil. }
  destruct (Hh id row) as (x & Hx & _ & ->); [left|].
  destruct (IH (<[id := x]> d) (if a <? id then id else a)) as (d' & a' & Hl & Hs & Hdom & Ha & Hin & Hle).
  { intros id' row' Hin. apply Hh. by right. }
  { by apply insert_subseteq_l. }
  assert (a ≤ (if a <? id then id else a) ∧ id ≤ (if a <? id then id else a)) as [Ha1 Ha2] by (destruct (Z.ltb_spec a id); lia).
  exists d', a'. split_and!; [done|done| |lia| |].
  - intros i. rewrite Hdom, dom_insert. set_solver.
  - destruct Hin as [->|Hin]; [destruct (a <? id); [right; left|by left]|right; by right].
  - intros i. rewrite elem_of_cons. intros [->|Hi]; [lia|by apply Hle].
Qed.

(** The held copies agree with the loaded ones. *)
Lemma prefer_held (S d held : gmap Z bytes) : d ⊆ S → held ⊆ S → map_imap (λ id x, Some (default x (held !! id))) d = d.
Proof.
  intros Hd Hh. apply map_eq. intros id. rewrite map_lookup_imap. destruct (d !! id) as [x|] eqn:E; simpl; [|done].
  destruct (held !! id) as [y|] eqn:Ey; simpl; [|done].
  pose proof (lookup_weaken _ _ _ _ E Hd). pose proof (lookup_weaken _ _ _ _ Ey Hh). congruence.
Qed.

Lemma max_id_spec db : match max_id db with
  | None => db = ∅
  | Some m => (∀ id, is_Some (db !! id) → id ≤ m) ∧ is_Some (db !! m)
  end.
Proof.
  assert (∀ l : list (Z * key_row), match foldr (λ ir m, Some (match m with None => ir.1 | Some x => Z.max ir.1 x end)) None l with
    | None => l = [] | Some m => (∀ id, id ∈ l.*1 → id ≤ m) ∧ m ∈ l.*1 end) as Hl.
  { induction l as [|[i w] l IH]; simpl; [done|]. destruct (foldr _ _ l) as [m|].
    - destruct IH as [Hle Hin]. split.
      + intros id. rewrite elem_of_cons. intros [->|Hi]; [lia|]. specialize (Hle id Hi). lia.
      + destruct (Z.max_spec i m) as [[_ ->]|[_ ->]]; [by right|left].
    - subst l. split; [|left]. intros id. rewrite elem_of_cons, elem_of_nil. intros [->|[]]. lia. }
  specialize (Hl (map_to_list db)). unfold max_id. destruct (foldr _ _ _) as [m|].
  - assert (∀ id, id ∈ (map_to_list db).*1 ↔ is_Some (db !! id)) as Hiff.
    { intros id. rewrite list_elem_of_fmap. split.
      - intros ([i w] & -> & Hin). apply elem_of_map_to_list in Hin. by eexists.
      - intros [w Hw]. exists (id, w). split; [done|]. by apply elem_of_map_to_list. }
    destruct Hl as [Hle Hin]. split; [intros id Hi; by apply Hle, Hiff|by apply Hiff].
  - by apply map_to_list_empty_iff.
Qed.
(** * The invariant

[S] gives every version the table has held its data-encryption key. *)
Record Inv (S : gmap Z bytes) (r : Ring) (db : key_versions) : Prop := {
  inv_kek : KEKLaws (kek r);
  inv_rows : ∀ id row, db !! id = Some row → 0 < id ∧ live row = true ∧ holds S (kek r) id row;
  inv_dom : dom S ⊆ dom db;
  inv_deks : deks r ⊆ S;
  inv_active : active r ∈ dom (deks r);
  inv_open : closed r = false;
}.

Lemma load_inv S r db id : KEKLaws (kek r) →
  (∀ id row, db !! id = Some row → 0 < id ∧ live row = true ∧ holds S (kek r) id row) →
  dom S ⊆ dom db → deks r ⊆ S → closed r = false → is_Some (db !! id) →
  ∃ r', load db r = Ok r' ∧ Inv S r' db ∧ kek r' = kek r ∧ 0 < active r' ∧ ∀ i, i ∈ dom (deks r') ↔ is_Some (db !! i).
Proof.
  intros Hk Hrows Hdom Hdeks Hopen [row Hid]. unfold load.
  destruct (load_rows_ok S (kek r) (live_rows db) ∅ 0) as (d & a & -> & Hd & Hdd & Ha & Hin & Hle).
  { intros i w [Hi _]%live_rows_elem. by apply (Hrows i w Hi). }
  { apply map_empty_subseteq. }
  simpl. rewrite (prefer_held S) by done.
  assert (∀ i, i ∈ dom d ↔ is_Some (db !! i)) as Hiff.
  { intros i. rewrite Hdd, dom_empty, list_elem_of_fmap. split.
    - intros [?|([i' w] & -> & [Hi _]%live_rows_elem)]; [set_solver|by eexists].
    - intros [w Hw]. right. exists (i, w). split; [done|]. apply live_rows_elem. split; [done|]. by apply (Hrows i w Hw). }
  assert (id ∈ (live_rows db).*1) as Hidl.
  { apply list_elem_of_fmap. exists (id, row). split; [done|]. apply live_rows_elem. split; [done|]. by apply (Hrows id row Hid). }
  assert (0 < a) as Hpos. { specialize (Hle id Hidl). destruct (Hrows id row Hid). lia. }
  eexists. split; [done|]. split; [split; simpl; try done|by split_and!].
  apply Hdd. right. destruct Hin as [->|]; [lia|done].
Qed.

Lemma createVersion_inv S r db b rd rn now : KEKLaws (kek r) →
  (∀ id row, db !! id = Some row → 0 < id ∧ live row = true ∧ holds S (kek r) id row) → dom S ⊆ dom db →
  match createVersion b rd rn now r db with
  | (Err _, db') => db' = db
  | (Ok v, db') => is_Some (db' !! v) ∧ dom db ⊆ dom db' ∧ ∃ S', S ⊆ S' ∧ dom S' ⊆ dom db' ∧
      ∀ id row, db' !! id = Some row → 0 < id ∧ live row = true ∧ holds S' (kek r) id row
  end.
Proof.
  intros Hk Hrows Hdom. pose proof (max_id_spec db) as Hmax. unfold createVersion.
  assert (∀ m, max_id db = m → db !! (default 0 m + 1) = None ∧ 0 < default 0 m + 1) as Hnew.
  { intros m Em. rewrite Em in Hmax. destruct m as [m|]; simpl.
    - destruct Hmax as [Hle [w Hm]]. split; [|destruct (Hrows m w Hm); lia]. apply eq_None_not_Some.
      intros Hs. specialize (Hle _ Hs). lia.
    - by subst db. }
  destruct (max_id db) as [m|] eqn:Em; [destruct b|].
  1:{ split; [apply Hmax|]. split; [done|]. by exists S. }
  all: specialize (Hnew _ eq_refl) as [Hn Hpos]; simpl default in *.
  all: destruct (NewDEK rd) as [dek|] eqn:Ed; [|done]; apply NewDEK_length in Ed.
  all: match goal with |- context [Wrap _ _ _ (version_aad ?i)] => set (new := i) in * end.
  all: destruct (Wrap (kek r) rn dek (version_aad new)) as [w|] eqn:Ew; [|done].
  all: split; [rewrite lookup_insert_eq; eauto|]; split; [rewrite dom_insert; set_solver|].
  all: assert (S !! new = None) as HSn by (apply not_elem_of_dom; intros ?%Hdom; by apply not_elem_of_dom in Hn).
  all: exists (<[new := dek]> S); split; [by apply insert_subseteq|]; split; [rewrite !dom_insert; set_solver|].
  all: intros id row; rewrite lookup_insert_Some; intros [[<- <-]|[Hne Hrow]].
  1,3: split; [lia|]; split; [done|]; exists dek; rewrite lookup_insert_eq; split_and!; [done|done|]; simpl; by eapply unwrap_wrap.
  all: destruct (Hrows id row Hrow) as (? & ? & d & ? & ?); split_and!; try done; exists d; by rewrite lookup_insert_ne.
Qed.
(** * Changing the master key *)

Lemma live_rows_NoDup db : NoDup (live_rows db).*1.
Proof.
  unfold live_rows. rewrite merge_sort_Permutation. pose proof (NoDup_fst_map_to_list db) as Hn.
  induction (map_to_list db) as [|x l IH]; [constructor|]. rewrite fmap_cons, NoDup_cons in Hn. destruct Hn as [Hx Hn].
  cbn [List.filter]. destruct (live x.2); [|by apply IH]. rewrite fmap_cons, NoDup_cons. split; [|by apply IH].
  intros Hin. apply Hx. apply list_elem_of_fmap in Hin as (y & -> & Hy). apply list_elem_of_fmap. exists y. split; [done|].
  apply list_elem_of_In, filter_In in Hy. apply list_elem_of_In. apply Hy.
Qed.

(** A version before and after its rewrapping. *)
Definition moved (oldKEK newKEK : KEKProvider) (now : time) (id : Z) (row : key_row) (row' : option key_row) : Prop :=
  ∃ w d e, row' = Some (rewrapped newKEK now w row) ∧ Unwrap oldKEK (wrapped_dek row) (version_aad id) = Ok d ∧
    Unwrap newKEK w (version_aad id) = Ok d ∧ Unwrap newKEK (wrapped_dek row) (version_aad id) = Err e.

Lemma rewrap_one_ok o n raw id wrapped w : rewrap_one o n raw id wrapped = Ok w →
  ∃ d e, Unwrap o wrapped (version_aad id) = Ok d ∧ Unwrap n w (version_aad id) = Ok d ∧ Unwrap n wrapped (version_aad id) = Err e.
Proof.
  unfold rewrap_one. destruct (Unwrap n wrapped _) as [|e]; [done|]. destruct (Unwrap o wrapped _) as [d|]; [|done].
  rewrite rbind_Ok. intros (w' & _ & H). destruct (Unwrap n w' _) as [c|] eqn:E; [|done].
  destruct ((length c =? length d)%nat && subtleEqual c d) eqn:Eb; [|done]. simplify_eq. apply andb_true_iff in Eb as [_ Eb].
  unfold subtleEqual in Eb. apply bool_decide_eq_true in Eb as ->. eauto.
Qed.

Lemma rewrap_rows_ok o n raws now rows : ∀ db db', rewrap_rows o n raws now rows db = Ok db' → NoDup rows.*1 →
  (∀ id row, (id, row) ∈ rows → db !! id = Some row) →
  (∀ id, id ∉ rows.*1 → db' !! id = db !! id) ∧ ∀ id row, (id, row) ∈ rows → moved o n now id row (db' !! id).
Proof.
  induction rows as [|[i w] rows IH]; intros db db' Hr Hnd Hin; simpl in Hr.
  { simplify_eq. split; [done|]. intros ?? ?%elem_of_nil. done. }
  apply rbind_Ok in Hr as (w' & Hone & Hr). apply rewrap_one_ok in Hone as (d & e & Ho & Hn & He).
  rewrite fmap_cons, NoDup_cons in Hnd. destruct Hnd as [Hi Hnd]. simpl in Hi.
  destruct (IH _ _ Hr Hnd) as [Hout Hmv].
  { intros id row Hrow. rewrite lookup_alter_ne; [apply Hin; by right|]. intros ->. apply Hi, list_elem_of_fmap. by exists (id, row). }
  split.
  - intros id. rewrite fmap_cons, not_elem_of_cons. simpl. intros [Hne Hni]. rewrite Hout by done. by rewrite lookup_alter_ne.
  - intros id row [[= -> ->]|Hrow]%elem_of_cons; [|by apply Hmv]. rewrite Hout by done.
    rewrite lookup_alter_eq, (Hin i w) by left. simpl. by exists w', d, e.
Qed.

(** Changing the master key is all or nothing.  A [Rewrap] that reports an
error has changed neither the table nor the ring.  One that succeeds has
rewrapped every version in use: its key, as the old master key unwraps it from
the old row, is what the new master key unwraps from the new row, no other
column but the key source and the rotation time has changed, and the new
master key did not open the old row; retired rows are as they were, and the
ring uses the new key from then on.  Nothing is assumed of either provider:
[Rewrap] checks each wrapping before it commits. *)
Theorem rewrap_all_or_nothing newKEK raws now r db :
  match Rewrap newKEK raws now r db with
  | (Err _, r', db') => r' = r ∧ db' = db
  | (Ok n, r', db') =>
      kek r' = newKEK ∧ deks r' = deks r ∧ active r' = active r ∧ n = length (live_rows db) ∧
      ∀ id, match db !! id with
            | None => db' !! id = None
            | Some row => if live row then moved (kek r) newKEK now id row (db' !! id) else db' !! id = Some row
            end
  end.
Proof.
  unfold Rewrap. destruct (closed r); [done|]. destruct (live_rows db) as [|x l] eqn:El; [done|]. rewrite <-El. clear x l El.
  destruct (rewrap_rows _ _ _ _ _ _) as [db'|] eqn:E; [|done]. split_and!; [done..|].
  apply rewrap_rows_ok in E as [Hout Hmv]; [|apply live_rows_NoDup|by intros id row [? _]%live_rows_elem].
  intros id. destruct (db !! id) as [row|] eqn:Er; [destruct (live row) eqn:Elive|].
  - apply Hmv. by apply live_rows_elem.
  - rewrite Hout; [done|]. intros ([i w] & -> & [Hi Hl]%live_rows_elem)%list_elem_of_fmap. simpl in Er. congruence.
  - rewrite Hout; [done|]. intros ([i w] & -> & [Hi Hl]%live_rows_elem)%list_elem_of_fmap. simpl in Er. congruence.
Qed.
(** * A ring in use

What happens to a gateway's ring and the table it shares: its own rotations,
reads and master-key changes, a version another gateway adds under the same
master key, and a restart, [None] if the ring does not open. *)
Inductive action :=
| ARotate (rawDEK rawNonce : option bytes) (now : time)
| AOther (rawDEK rawNonce : option bytes) (now : time)
| ARewrap (newKEK : KEKProvider) (raws : Z → option bytes) (now : time)
| ADecrypt (aad : string) (ciphertext : bytes) (keyVersion : Z) (now : time)
| ARestart (rawDEK rawNonce : option bytes) (now : time).

Definition act (a : action) (st : Ring * key_versions) : option (Ring * key_versions) :=
  let '(r, db) := st in
  match a with
  | ARotate rd rn now => let '(_, r, db) := Rotate rd rn now r db in Some (r, db)
  | AOther rd rn now => Some (r, (createVersion false rd rn now r db).2)
  | ARewrap k raws now => let '(_, r, db) := Rewrap k raws now r db in Some (r, db)
  | ADecrypt aad ct v now => Some ((Decrypt aad ct v now db r).2, db)
  | ARestart rd rn now =>
      match Open (kek r) rd rn now db with (Ok r, db) => Some (r, db) | (Err _, _) => None end
  end.

Fixpoint acts (l : list action) (st : Ring * key_versions) : option (Ring * key_versions) :=
  match l with [] => Some st | a :: l => st' ← act a st; acts l st' end.

Definition lawful (a : action) : Prop := match a with ARewrap k _ _ => KEKLaws k | _ => True end.

(** The step: secrets are kept, and no version held is lost. *)
Definition keeps (S : gmap Z bytes) (r : Ring) (st : Ring * key_versions) : Prop :=
  ∃ S', S ⊆ S' ∧ Inv S' st.1 st.2 ∧ dom (deks r) ⊆ dom (deks st.1).

Lemma held_in_db S r db : Inv S r db → ∀ i, i ∈ dom (deks r) → is_Some (db !! i).
Proof.
  intros HI i Hi. apply elem_of_dom, (inv_dom _ _ _ HI). by apply (subseteq_dom _ _ (inv_deks _ _ _ HI)).
Qed.

Lemma load_keeps S r db : Inv S r db → ∃ r', load db r = Ok r' ∧ Inv S r' db ∧ dom (deks r) ⊆ dom (deks r').
Proof.
  intros HI. destruct (load_inv S r db (active r)) as (r' & Hl & HI' & _ & _ & Hd); try apply HI.
  { apply (held_in_db S r db HI). apply HI. }
  exists r'. split_and!; [done..|]. intros i Hi. apply Hd. by apply (held_in_db S r db HI).
Qed.

Lemma createVersion_keeps S r db b rd rn now : Inv S r db →
  ∃ S', S ⊆ S' ∧ Inv S' r (createVersion b rd rn now r db).2.
Proof.
  intros HI. pose proof (createVersion_inv S r db b rd rn now (inv_kek _ _ _ HI) (inv_rows _ _ _ HI) (inv_dom _ _ _ HI)) as Hc.
  destruct (createVersion b rd rn now r db) as [[v|e] db']; simpl in *; [|subst; by exists S].
  destruct Hc as (_ & _ & S' & HS & Hd & Hrows). exists S'. split; [done|].
  destruct HI. split; try done. by etransitivity.
Qed.

Lemma Rotate_keeps S r db rd rn now : Inv S r db →
  let '(_, r', db') := Rotate rd rn now r db in keeps S r (r', db').
Proof.
  intros HI. unfold Rotate. rewrite (inv_open _ _ _ HI).
  destruct (createVersion_keeps S r db false rd rn now HI) as (S' & HS & HI').
  destruct (createVersion false rd rn now r db) as [[v|e] db']; simpl in *; [|by exists S'].
  destruct (load_keeps S' r db' HI') as (r' & -> & HI'' & Hd). by exists S'.
Qed.

Lemma Rewrap_keeps S r db k raws now : Inv S r db → KEKLaws k →
  let '(_, r', db') := Rewrap k raws now r db in keeps S r (r', db').
Proof.
  intros HI Hk. unfold Rewrap. assert (keeps S r (r, db)) by by exists S. destruct (closed r); [done|].
  destruct (live_rows db) as [|x l] eqn:El; [done|]. rewrite <-El. clear x l El.
  destruct (rewrap_rows _ _ _ _ _ _) as [db'|] eqn:E; [|done].
  apply rewrap_rows_ok in E as [Hout Hmv]; [|apply live_rows_NoDup|by intros id row [? _]%live_rows_elem].
  assert (∀ id row, db !! id = Some row → moved (kek r) k now id row (db' !! id)) as Hm.
  { intros id row Hrow. apply Hmv, live_rows_elem. split; [done|]. by apply (inv_rows _ _ _ HI id row Hrow). }
  assert (∀ id, db !! id = None → db' !! id = None) as Hn.
  { intros id Hid. rewrite Hout; [done|]. intros ([i w] & -> & [Hi _]%live_rows_elem)%list_elem_of_fmap. simpl in Hid. congruence. }
  exists S. split; [done|]. split; [|done]. pose proof HI as [_ Hrows Hd ? ? ?]. split; simpl; try done.
  - intros id row' Hrow'. destruct (db !! id) as [row|] eqn:Er; [|by rewrite (Hn id Er) in Hrow'].
    destruct (Hm id row Er) as (w & d & e & Hw & Ho & Hu & _). rewrite Hrow' in Hw. simplify_eq.
    destruct (Hrows id row Er) as (? & ? & d' & ? & ? & Ho'). split_and!; [done..|]. exists d'. split_and!; [done..|].
    simpl. congruence.
  - intros id Hid. apply Hd, elem_of_dom in Hid as [row Hrow]. apply elem_of_dom.
    destruct (Hm id row Hrow) as (w & d & e & -> & _). by eexists.
Qed.

Lemma Decrypt_keeps S r db aad ct v now : Inv S r db → keeps S r ((Decrypt aad ct v now db r).2, db).
Proof.
  intros HI. assert (keeps S r (r, db)) as Hsame by by exists S. unfold Decrypt.
  destruct (decrypt aad ct v r) as [pt|e]; [done|]. destruct e; try done.
  unfold mayReload. destruct (_ <? _); [done|]. set (r1 := {| kek := kek r |}).
  assert (Inv S r1 db) as HI1 by (by destruct HI; split). destruct (load_keeps S r1 db HI1) as (r' & -> & HI' & Hd).
  by exists S.
Qed.

Lemma Open_keeps S r db rd rn now : Inv S r db →
  ∃ r', Open (kek r) rd rn now db = (Ok r', db) ∧ Inv S r' db ∧ kek r' = kek r ∧ dom (deks r) ⊆ dom (deks r').
Proof.
  intros HI. unfold Open. set (r0 := {| kek := kek r |}).
  destruct (load_inv S r0 db (active r)) as (r' & -> & HI' & Hk & Ha & Hd); try apply HI; [apply map_empty_subseteq|done| |].
  { apply (held_in_db S r db HI), HI. }
  destruct (Z.eqb_spec (active r') 0); [lia|]. exists r'. split_and!; [done..|].
  intros i Hi. apply Hd. by apply (held_in_db S r db HI).
Qed.

Lemma act_keeps S r db a : Inv S r db → lawful a → ∃ st, act a (r, db) = Some st ∧ keeps S r st.
Proof.
  intros HI Ha. destruct a as [rd rn now|rd rn now|k raws now|aad ct v now|rd rn now]; simpl.
  - pose proof (Rotate_keeps S r db rd rn now HI) as H. destruct (Rotate rd rn now r db) as [[? r'] db']. eauto.
  - destruct (createVersion_keeps S r db false rd rn now HI) as (S' & ? & ?). eexists. split; [done|]. by exists S'.
  - pose proof (Rewrap_keeps S r db k raws now HI Ha) as H. destruct (Rewrap k raws now r db) as [[? r'] db']. eauto.
  - eexists. split; [done|]. by apply Decrypt_keeps.
  - destruct (Open_keeps S r db rd rn now HI) as (r' & -> & HI' & _ & Hd). eexists. split; [done|]. by exists S.
Qed.

Lemma acts_keeps l : ∀ S r db, Inv S r db → Forall lawful l → ∃ st, acts l (r, db) = Some st ∧ keeps S r st.
Proof.
  induction l as [|a l IH]; intros S r db HI Hl; [by eexists; split; [done|]; exists S|].
  apply Forall_cons in Hl as [Ha Hl]. cbn [acts]. destruct (act_keeps S r db a HI Ha) as ([r1 db1] & -> & S1 & HS1 & HI1 & Hd1).
  cbn [mbind option_bind]. destruct (IH S1 r1 db1 HI1 Hl) as (st & -> & S2 & HS2 & HI2 & Hd2). exists st. split; [done|].
  exists S2. split; [by etransitivity|]. split; [done|]. simpl in *. by etransitivity.
Qed.
(** A ring opened on an empty table is in order. *)
Lemma Open_first k rd rn now r db : KEKLaws k → Open k rd rn now ∅ = (Ok r, db) → ∃ S, Inv S r db.
Proof.
  intros Hk. unfold Open. set (r0 := {| kek := k |}). replace (load ∅ r0) with (Ok r0 : result Err_ Ring) by done.
  cbn [active r0 Z.eqb].
  assert (∀ id row, (∅ : key_versions) !! id = Some row → 0 < id ∧ live row = true ∧ holds ∅ (kek r0) id row) as He by by intros id row; rewrite lookup_empty.
  pose proof (createVersion_inv ∅ r0 ∅ true rd rn now Hk He ltac:(set_solver)) as Hc.
  destruct (createVersion true rd rn now r0 ∅) as [[v|e] db']; [|done].
  destruct Hc as (Hv & _ & S & _ & Hd & Hrows).
  destruct (load_inv S r0 db' v) as (r' & Hl & HI & _); try done; [apply map_empty_subseteq|].
  rewrite Hl. intros [= <- <-]. by exists S.
Qed.

Lemma Decrypt_held S r db v d raw aad pt ct now : Inv S r db → v ∈ dom (deks r) → S !! v = Some d →
  Envelope.Encrypt raw d pt (to_bytes aad) = Ok ct → (Decrypt aad ct v now db r).1 = Ok pt.
Proof.
  intros HI Hv HS He. apply elem_of_dom in Hv as [d' Hd']. pose proof (lookup_weaken _ _ _ _ Hd' (inv_deks _ _ _ HI)) as HS'.
  assert (d' = d) as -> by congruence. unfold Decrypt, decrypt. rewrite (inv_open _ _ _ HI), Hd'.
  by rewrite (Decrypt_Encrypt _ _ _ _ _ He).
Qed.

Lemma Encrypt_held S r db raw aad pt ct v : Inv S r db → Encrypt raw aad pt r = Ok (ct, v) →
  ∃ d, v ∈ dom (deks r) ∧ S !! v = Some d ∧ Envelope.Encrypt raw d pt (to_bytes aad) = Ok ct.
Proof.
  intros HI He. unfold Encrypt in He. rewrite (inv_open _ _ _ HI) in He. destruct (deks r !! active r) as [d|] eqn:Ed; [|done].
  apply rbind_Ok in He as (ct' & Hct & Heq). simplify_eq. unfold crypto in Hct. destruct (Envelope.Encrypt raw d pt (to_bytes aad)) eqn:E; [|done]. simplify_eq.
  exists d. split_and!; [apply HI|eapply lookup_weaken; [done|apply HI]|done].
Qed.

(** C7. What the ring has sealed stays readable.  A ring is opened on a new
database; after any history of rotations (its own or another gateway's),
master-key changes, reads and restarts it seals a secret for a row.  After any
further history, restarts included, the ring opens and decrypts the sealed
secret under the version it was sealed with, and so does a ring that any
other gateway opens then with the master key in force.  Of the providers only
their law is used: what they wrap they unwrap. *)
Theorem sealed_stays_readable k rd rn t0 r0 db0 l1 r1 db1 raw aad pt ct v l2 now :
  KEKLaws k → Open k rd rn t0 ∅ = (Ok r0, db0) →
  Forall lawful l1 → acts l1 (r0, db0) = Some (r1, db1) →
  Encrypt raw aad pt r1 = Ok (ct, v) → Forall lawful l2 →
  ∃ r2 db2, acts l2 (r1, db1) = Some (r2, db2) ∧ (Decrypt aad ct v now db2 r2).1 = Ok pt ∧
    ∀ rd' rn' t', ∃ r3, Open (kek r2) rd' rn' t' db2 = (Ok r3, db2) ∧ (Decrypt aad ct v now db2 r3).1 = Ok pt.
Proof.
  intros Hk Ho Hl1 Hr1 He Hl2. destruct (Open_first k rd rn t0 r0 db0 Hk Ho) as (S0 & HI0).
  destruct (acts_keeps l1 S0 r0 db0 HI0 Hl1) as (st & Est & S1 & _ & HI1 & _). rewrite Hr1 in Est. injection Est as <-.
  simpl in HI1. destruct (acts_keeps l2 S1 r1 db1 HI1 Hl2) as ([r2 db2] & Hr2 & S2 & HS2 & HI2 & Hd2). simpl in *.
  destruct (Encrypt_held _ _ _ _ _ _ _ _ HI1 He) as (d & Hv1 & Hd & Eenc). pose proof (lookup_weaken _ _ _ _ Hd HS2) as HS. pose proof (Hd2 _ Hv1) as Hv.
  exists r2, db2. split; [done|]. split; [by eapply Decrypt_held|]. intros rd' rn' t'.
  destruct (Open_keeps S2 r2 db2 rd' rn' t' HI2) as (r3 & Ho3 & HI3 & _ & Hd3). exists r3. split; [done|].
  eapply Decrypt_held; [done| |done..]. by apply Hd3.
Qed.

(** Master keys of 32 bytes, and a gateway that rotates its data key, seals,
changes its master key, rotates again and restarts. *)
Definition local (n : N) : KEKProvider :=
  match NewLocalKEK (replicate 32 (byte_of n)) with
  | Ok k => k
  | Err _ => {| Wrap := λ _ _ _, Err ErrRand; Unwrap := λ _ _, Err ErrRand; Source := "" |}
  end.

Lemma local_laws n : KEKLaws (local n).
Proof. by apply (LocalKEK_laws (replicate 32 (byte_of n))). Qed.

Definition some_bytes (n : N) : option bytes := Some (replicate 32 (byte_of n)).

(** The value of a call that succeeds. *)
Definition get {E A} (d : A) (r : result E A) : A := match r with Ok a => a | Err _ => d end.

Lemma get_fst {E A B} (d : A) (p : result E A * B) : is_ok p.1 = true → p = (Ok (get d p.1), p.2).
Proof. by destruct p as [[] ?]. Qed.

Lemma get_pair {E A B} (d : A * B) (r : result E (A * B)) : is_ok r = true → r = Ok ((get d r).1, (get d r).2).
Proof. by destruct r as [[]|]. Qed.

Lemma default_pair {A B} (d : A * B) (o : option (A * B)) :
  match o with Some _ => true | None => false end = true → o = Some ((default d o).1, (default d o).2).
Proof. by destruct o as [[]|]. Qed.

Definition no_ring : Ring := {| kek := local 1; deks := ∅; active := 0; closed := true; lastReload := 0 |}.
Definition opened : result Err_ Ring * key_versions := Open (local 1) (some_bytes 11) (some_bytes 12) 0 ∅.
Definition before_sealing : list action := [ARotate (some_bytes 13) (some_bytes 14) 1].
Definition when_sealing : Ring * key_versions :=
  default (no_ring, ∅) (acts before_sealing (get no_ring opened.1, opened.2)).
Definition sealed : bytes * Z :=
  get ([], 0) (Encrypt (some_bytes 18) "mfa_totp:u1" (to_bytes "JBSWY3DP") when_sealing.1).
Definition after_sealing : list action :=
  [ARewrap (local 2) (λ _, some_bytes 15) 2; AOther (some_bytes 16) (some_bytes 17) 3; ARestart None None 4].

Lemma when_sealing_eq :
  acts before_sealing (get no_ring opened.1, opened.2) = Some (when_sealing.1, when_sealing.2).
Proof. unfold when_sealing. apply default_pair. by vm_compute. Qed.

Lemma sealed_eq :
  Encrypt (some_bytes 18) "mfa_totp:u1" (to_bytes "JBSWY3DP") when_sealing.1 = Ok (sealed.1, sealed.2).
Proof. unfold sealed. apply get_pair. by vm_compute. Qed.

Lemma sealed_stays_readable_witness :
  sealed.2 = 2 ∧ ∃ r2 db2, acts after_sealing (when_sealing.1, when_sealing.2) = Some (r2, db2) ∧
    (Decrypt "mfa_totp:u1" sealed.1 sealed.2 5 db2 r2).1 = Ok (to_bytes "JBSWY3DP").
Proof.
  split; [by vm_compute|].
  destruct (sealed_stays_readable (local 1) (some_bytes 11) (some_bytes 12) 0 (get no_ring opened.1) opened.2
    before_sealing when_sealing.1 when_sealing.2 (some_bytes 18) "mfa_totp:u1" (to_bytes "JBSWY3DP") sealed.1 sealed.2
    after_sealing 5) as (r2 & db2 & H1 & H2 & _).
  - apply local_laws.
  - apply (get_fst no_ring opened). by vm_compute.
  - by constructor.
  - exact when_sealing_eq.
  - exact sealed_eq.
  - constructor; [apply local_laws|by repeat constructor].
  - exists r2, db2. exact (conj H1 H2).
Defined.
End Ring.
