(* ===== verification/Totp.v ===== *)
(** The second factor: src/internal/auth/totp.go.

[DB] holds the tables [mfa_totp] (a map from the user) and
[mfa_recovery_codes] (a list of rows).  What the code takes from elsewhere is
an argument: [GenerateCodeCustom], the one-time-password library's code of a
secret at a time; the key [totp.Generate] returns; the random bytes and ids
drawn; the clock.  The key ring is used through the interface [KeyRing] and
its law, which [of_ring] discharges with the ring of Keyring.v.

[op] lists the operations and [run] a sequence of them with what each
accepted; the theorems are about every sequence. *)
From Stdlib Require Import Sorted.
From S2P Require Import Prelude GoText Sha256 Sessions Keyring.
Local Open Scope Z_scope.

(** * Text *)

(** [strings.ReplaceAll] of a one-byte [c] by nothing. *)
Definition remove (c : ascii) (s : string) : string :=
  of_bytes (List.filter (λ a, negb (Ascii.eqb a c)) (to_bytes s)).

(** [unicode.ToUpper] on the runes whose upper case is ASCII: the small
letters, U+0131 and U+017F.  Every other rune stays outside ASCII and is kept. *)
Definition upper_rune (r : N) : N :=
  if Unicode.in_range 97 122 r then (r - 32)%N else if (r =? 305)%N then 73%N else if (r =? 383)%N then 83%N else r.

Definition ToUpper (s : string) : string :=
  of_bytes (concat (Utf8.encode ∘ upper_rune <$> Utf8.runes (to_bytes s))).

(** [base32.StdEncoding.WithPadding(NoPadding).EncodeToString]. *)
Definition base32_alphabet : string := "ABCDEFGHIJKLMNOPQRSTUVWXYZ234567".

Definition base32_digit (n : N) : ascii := nth (N.to_nat n) (to_bytes base32_alphabet) "A"%char.

Definition bits_of (a : ascii) : list bool := (λ i, N.testbit (byte_N a) (N.of_nat i)) <$> rev (seq 0 8).

Fixpoint five (l : list bool) : list N :=
  let b (x : bool) : N := if x then 1%N else 0%N in
  let v (x y z u w : bool) : N := (16 * b x + 8 * b y + 4 * b z + 2 * b u + b w)%N in
  match l with
  | [] => []
  | [x] => [v x false false false false]
  | [x; y] => [v x y false false false]
  | [x; y; z] => [v x y z false false]
  | [x; y; z; u] => [v x y z u false]
  | x :: y :: z :: u :: w :: l => v x y z u w :: five l
  end.

Definition base32 (b : bytes) : bytes := base32_digit <$> five (b ≫= bits_of).

Example base32_foobar : of_bytes (base32 (to_bytes "foobar")) = "MZXW6YTBOI".
Proof. reflexivity. Qed.

(** * The key ring, as it is used here *)

Record KeyRing := {
  RingErr : Type;
  Encrypt : option bytes → string → bytes → result RingErr (bytes * Z);
  Decrypt : string → bytes → Z → result RingErr bytes;
}.

Class KeyRingLaws (k : KeyRing) : Prop := {
  decrypt_encrypt raw aad plaintext ct v : Encrypt k raw aad plaintext = Ok (ct, v) → Decrypt k aad ct v = Ok plaintext;
}.

(** The ring of Keyring.v at one moment. *)
Definition of_ring (r : Ring.Ring) (db : Ring.key_versions) (now : time) : KeyRing := {|
  RingErr := Ring.Err_;
  Encrypt raw aad plaintext := Ring.Encrypt raw aad plaintext r;
  Decrypt aad ct v := (Ring.Decrypt aad ct v now db r).1;
|}.

#[export] Instance of_ring_laws r db now : KeyRingLaws (of_ring r db now).
Proof.
  split. simpl. intros raw aad pt ct v. unfold Ring.Encrypt, Ring.Decrypt, Ring.decrypt. destruct (Ring.closed r); [done|].
  destruct (Ring.deks r !! Ring.active r) as [dek|] eqn:E; [|done]. rewrite rbind_Ok. intros (ct' & Hct & [= -> <-]).
  rewrite E. unfold Ring.crypto in Hct. destruct (Envelope.Encrypt raw dek pt (to_bytes aad)) eqn:Ee; simplify_eq.
  by rewrite (Envelope.Decrypt_Encrypt _ _ _ _ _ Ee).
Qed.

(** * Data *)

Definition recoveryCodeCount : nat := 8.
Definition totpPeriod : Z := 30.

Inductive Error :=
| ErrTOTPNotEnrolled | ErrTOTPAlreadyEnrolled | ErrTOTPBadCode | ErrTOTPReused
| ErrGenerate | ErrRing | ErrRand | ErrDB.

#[export] Instance Error_eq_dec : EqDecision Error.
Proof. solve_decision. Defined.

(** A row of [mfa_totp], without its key. *)
Record totp_row := {
  secret_enc : bytes;
  key_version : option Z;
  confirmed_at : option time;
  created_at : time;
  last_step : option Z;
}.

(** A row of [mfa_recovery_codes]. *)
Record code_row := {
  code_id : string;
  code_user : string;
  code_hash : string;
  used_at : option time;
  code_created : time;
}.

Record DB := {
  mfa_totp : gmap string totp_row;
  mfa_recovery_codes : list code_row;
}.

Record Enrollment := {
  Secret : string;
  URL : string;
}.

Section totp.
Context (GenerateCodeCustom : string → Z → option string) (ring : KeyRing).

(** * Operations *)

Definition Enrolled (userID : string) (d : DB) : bool :=
  match mfa_totp d !! userID with
  | None => false
  | Some r => is_Some_b (confirmed_at r)
  end.

Definition ring_result {A} (r : result (RingErr ring) A) : result Error A :=
  match r with Ok a => Ok a | Err _ => Err ErrRing end.

(** [key] is the secret and URL of [totp.Generate], [None] when it failed. *)
Definition Enroll (key : option (string * string)) (raw : option bytes) (now : time) (userID : string) (d : DB)
    : result Error Enrollment * DB :=
  if Enrolled userID d then (Err ErrTOTPAlreadyEnrolled, d) else
  match key with
  | None => (Err ErrGenerate, d)
  | Some (secret, url) =>
      match Encrypt ring raw (Ring.AAD "mfa_totp" userID) (to_bytes secret) with
      | Err _ => (Err ErrRing, d)
      | Ok (sealed, ver) =>
          (Ok {| Secret := secret; URL := url |},
           {| mfa_totp := <[userID := {| secret_enc := sealed; key_version := Some ver; confirmed_at := None;
                created_at := TimeArg now; last_step := None |}]> (mfa_totp d);
              mfa_recovery_codes := mfa_recovery_codes d |})
      end
  end.

(** The secret, and whether it is confirmed. *)
Definition secret (userID : string) (d : DB) : result Error (string * bool) :=
  match mfa_totp d !! userID with
  | None => Err ErrTOTPNotEnrolled
  | Some r =>
      let? plain := ring_result (Decrypt ring (Ring.AAD "mfa_totp" userID) (secret_enc r) (default 0 (key_version r))) in
      Ok (of_bytes plain, is_Some_b (confirmed_at r))
  end.

Definition matches_step (sec code : string) (step : Z) : bool :=
  match GenerateCodeCustom sec (step * totpPeriod) with
  | Some want => bool_decide (want = code)
  | None => false
  end.

(** The step of the current 30 seconds or one either side that [code] matches. *)
Definition validate (now : time) (sec code : string) : option Z :=
  if (String.length code =? 6)%nat then
    let n := Z.quot (now / Second) totpPeriod in
    find (matches_step sec code) [n - 1; n; n + 1]
  else None.

Definition hashRecovery (code : string) : string :=
  Hex.EncodeToString (Sha.Sum256 (to_bytes ("recovery:" ++ code))).

(** One code of [newRecoveryCodes], and its hash. *)
Definition recovery_code (raw : bytes) : string * string :=
  let c := take 10 (base32 (Envelope.fill 7 raw)) in
  (of_bytes (take 5 c ++ to_bytes "-" ++ drop 5 c), hashRecovery (of_bytes c)).

(** [raws] are the eight draws from the random generator. *)
Definition newRecoveryCodes (raws : list (option bytes)) : result Error (list (string * string)) :=
  match mapM id (take recoveryCodeCount (raws ++ replicate recoveryCodeCount None)) with
  | None => Err ErrRand
  | Some raws => Ok (recovery_code <$> raws)
  end.

Definition set_row (userID : string) (f : totp_row → totp_row) (d : DB) : DB := {|
  mfa_totp := alter f userID (mfa_totp d); mfa_recovery_codes := mfa_recovery_codes d |}.

Definition confirm_row (now : time) (step : Z) (r : totp_row) : totp_row := {|
  secret_enc := secret_enc r; key_version := key_version r; confirmed_at := Some (TimeArg now);
  created_at := created_at r; last_step := Some step |}.

Definition step_row (step : Z) (r : totp_row) : totp_row := {|
  secret_enc := secret_enc r; key_version := key_version r; confirmed_at := confirmed_at r;
  created_at := created_at r; last_step := Some step |}.

(** [ids] are the ids drawn for the recovery codes, the table's primary key. *)
Definition Confirm (raws : list (option bytes)) (ids : list string) (now : time) (userID code : string) (d : DB)
    : result Error (list string) * DB :=
  match secret userID d with
  | Err e => (Err e, d)
  | Ok (_, true) => (Err ErrTOTPAlreadyEnrolled, d)
  | Ok (sec, false) =>
      match validate now sec code with
      | None => (Err ErrTOTPBadCode, d)
      | Some step =>
          match newRecoveryCodes raws with
          | Err e => (Err e, d)
          | Ok codes =>
              let kept := List.filter (λ c, negb (bool_decide (code_user c = userID))) (mfa_recovery_codes d) in
              let ids := take (length codes) ids in
              let fresh := zip_with (λ i (c : string * string), {| code_id := i; code_user := userID; code_hash := c.2;
                used_at := None; code_created := TimeArg now |}) ids codes in
              if bool_decide (NoDup (code_id <$> kept ++ fresh)) && (length ids =? length codes)%nat then
                (Ok codes.*1,
                 {| mfa_totp := alter (confirm_row now step) userID (mfa_totp d);
                    mfa_recovery_codes := kept ++ fresh |})
              else (Err ErrDB, d)
          end
      end
  end.

(** claim records [step], refusing it unless it is later than the last one. *)
Definition claim (userID : string) (step : Z) (d : DB) : result Error unit * DB :=
  match mfa_totp d !! userID with
  | Some r =>
      if match last_step r with None => true | Some l => l <? step end
      then (Ok tt, set_row userID (step_row step) d)
      else (Err ErrTOTPReused, d)
  | None => (Err ErrTOTPReused, d)
  end.

Definition use_row (now : time) (c : code_row) : code_row := {|
  code_id := code_id c; code_user := code_user c; code_hash := code_hash c;
  used_at := Some (TimeArg now); code_created := code_created c |}.

(** The unused row a recovery code matches, the last one of them. *)
Definition match_recovery (userID code : string) (d : DB) : option string :=
  let want := hashRecovery code in
  last (code_id <$> List.filter (λ c, bool_decide (code_user c = userID) && negb (is_Some_b (used_at c))
                                     && bool_decide (code_hash c = want)) (mfa_recovery_codes d)).

Definition consumeRecovery (now : time) (userID code : string) (d : DB) : bool * DB :=
  let code := ToUpper (remove "-" code) in
  if (String.length code =? 10)%nat then
    match match_recovery userID code d with
    | None | Some "" => (false, d)
    | Some matchID =>
        let hit c := bool_decide (code_id c = matchID) && negb (is_Some_b (used_at c)) in
        ((length (List.filter hit (mfa_recovery_codes d)) =? 1)%nat,
         {| mfa_totp := mfa_totp d;
            mfa_recovery_codes := (λ c, if hit c then use_row now c else c) <$> mfa_recovery_codes d |})
    end
  else (false, d).

(** The code as [Verify] reads it. *)
Definition normal (code : string) : string := remove " " (Strings.TrimSpace code).

(** [Ok true] reports that a recovery code was used. *)
Definition Verify (now : time) (userID code : string) (d : DB) : result Error bool * DB :=
  match secret userID d with
  | Err e => (Err e, d)
  | Ok (_, false) => (Err ErrTOTPNotEnrolled, d)
  | Ok (sec, true) =>
      let code := normal code in
      match validate now sec code with
      | Some step =>
          match claim userID step d with
          | (Ok _, d) => (Ok false, d)
          | (Err e, d) => (Err e, d)
          end
      | None =>
          match consumeRecovery now userID code d with
          | (true, d) => (Ok true, d)
          | (false, d) => (Err ErrTOTPBadCode, d)
          end
      end
  end.

Definition Reset (userID : string) (d : DB) : DB := {|
  mfa_totp := delete userID (mfa_totp d);
  mfa_recovery_codes := List.filter (λ c, negb (bool_decide (code_user c = userID))) (mfa_recovery_codes d) |}.

(** ResetMFA removes the authenticator, then signs the user out everywhere;
[None] is ErrSignOutAfterReset, the answer when the database fails the second
write ([down]): the authenticator is gone then, and the sign-ins stand. *)
Definition ResetMFA (down : bool) (now : time) (userID : string) (d : DB) (t : gmap string Sessions.row)
    : option nat * DB * gmap string Sessions.row :=
  let d := Reset userID d in
  if down then (None, d, t)
  else let '(t, n) := Sessions.RevokeAllForUser now userID t in (Some n, d, t).

(** * Sequences of operations *)

Inductive op :=
| OEnroll (key : option (string * string)) (raw : option bytes) (now : time) (userID : string)
| OConfirm (raws : list (option bytes)) (ids : list string) (now : time) (userID code : string)
| OVerify (now : time) (userID code : string)
| OReset (userID : string).

(** What was accepted as a proof: the code of a step, or a recovery code. *)
Inductive proof := Step (s : Z) | Recovery (id : string).

(** What [code] would match. *)
Definition matched (now : time) (userID code : string) (d : DB) : option proof :=
  match secret userID d with
  | Err _ => None
  | Ok (sec, _) =>
      match validate now sec code with
      | Some s => Some (Step s)
      | None => Recovery <$> match_recovery userID (ToUpper (remove "-" code)) d
      end
  end.

Definition exec1 (o : op) (d : DB) : option (string * proof) * DB :=
  match o with
  | OEnroll k r n u => (None, (Enroll k r n u d).2)
  | OConfirm rs ids n u c =>
      let '(r, d') := Confirm rs ids n u c d in
      (match r with Ok _ => pair u <$> matched n u c d | Err _ => None end, d')
  | OVerify n u c =>
      let '(r, d') := Verify n u c d in
      (match r with Ok _ => pair u <$> matched n u (normal c) d | Err _ => None end, d')
  | OReset u => (None, Reset u d)
  end.

(** The proofs accepted, in order, and the tables at the end. *)
Fixpoint run (os : list op) (d : DB) : list (string * proof) * DB :=
  match os with
  | [] => ([], d)
  | o :: os =>
      let '(p, d) := exec1 o d in
      let '(ps, d) := run os d in (option_list p ++ ps, d)
  end.

Definition steps_of (u : string) (ps : list (string * proof)) : list Z :=
  omap (λ p, match p.2 with Step s => if bool_decide (p.1 = u) then Some s else None | Recovery _ => None end) ps.

Definition recoveries_of (u : string) (ps : list (string * proof)) : list string :=
  omap (λ p, match p.2 with Recovery i => if bool_decide (p.1 = u) then Some i else None | Step _ => None end) ps.

(** * What an operation does to one user *)

(** The ids of the user's unused recovery codes. *)
Definition unused (u : string) (d : DB) : list string :=
  code_id <$> List.filter (λ c, bool_decide (code_user c = u) && negb (is_Some_b (used_at c))) (mfa_recovery_codes d).

Lemma unused_elem u d i :
  i ∈ unused u d ↔ ∃ c, c ∈ mfa_recovery_codes d ∧ code_id c = i ∧ code_user c = u ∧ used_at c = None.
Proof.
  unfold unused. rewrite list_elem_of_fmap. split.
  - intros (c & -> & Hc). apply list_elem_of_In, filter_In in Hc as [Hc Hb]. bool_simpl. exists c.
    split_and!; [by apply list_elem_of_In|done|done|]. by destruct (used_at c).
  - intros (c & Hc & <- & Hu & Hn). exists c. split; [done|]. apply list_elem_of_In, filter_In. split; [by apply list_elem_of_In|].
    rewrite Hn, bool_decide_eq_true_2 by done. done.
Qed.

(** The same authenticator, with no code un-used and no step forgotten. *)
Record kept (u : string) (d d' : DB) (r r' : totp_row) : Prop := {
  kept_before : mfa_totp d !! u = Some r;
  kept_after : mfa_totp d' !! u = Some r';
  kept_secret : secret_enc r' = secret_enc r ∧ key_version r' = key_version r ∧ confirmed_at r' = confirmed_at r;
  kept_unused : ∀ i, i ∈ unused u d' → i ∈ unused u d;
}.

(** How an operation other than [OReset u] treats the user [u]. *)
Inductive treats (u : string) (d d' : DB) : option (string * proof) → Prop :=
| t_none r r' p : kept u d d' r r' → last_step r' = last_step r → (∀ q, p ≠ Some (u, q)) → treats u d d' p
| t_unenrolled p : Enrolled u d = false → Enrolled u d' = false → (∀ q, p ≠ Some (u, q)) → treats u d d' p
| t_confirmed r' s : Enrolled u d = false → mfa_totp d' !! u = Some r' → Enrolled u d' = true →
    last_step r' = Some s → treats u d d' (Some (u, Step s))
| t_step r r' s : kept u d d' r r' → Enrolled u d = true → (∀ l, last_step r = Some l → l < s) →
    last_step r' = Some s → treats u d d' (Some (u, Step s))
| t_recovery r r' i : kept u d d' r r' → Enrolled u d = true → last_step r' = last_step r →
    i ∈ unused u d → i ∉ unused u d' → treats u d d' (Some (u, Recovery i)).

Lemma Enrolled_row u d r : mfa_totp d !! u = Some r → Enrolled u d = is_Some_b (confirmed_at r).
Proof. unfold Enrolled. by intros ->. Qed.

(** Nothing of the user changed. *)
Lemma treats_same u d d' p :
  mfa_totp d' !! u = mfa_totp d !! u → (∀ i, i ∈ unused u d' → i ∈ unused u d) → (∀ q, p ≠ Some (u, q)) → treats u d d' p.
Proof.
  intros Hr Hu Hp. destruct (mfa_totp d !! u) as [r|] eqn:E.
  - by apply (t_none u d d' r r).
  - apply t_unenrolled; [by unfold Enrolled; rewrite E|by unfold Enrolled; rewrite Hr|done].
Qed.

Lemma secret_Ok u d sec c : secret u d = Ok (sec, c) → ∃ r, mfa_totp d !! u = Some r ∧ is_Some_b (confirmed_at r) = c.
Proof.
  unfold secret. destruct (mfa_totp d !! u) as [r|]; [|done]. rewrite rbind_Ok. intros (p & _ & [= _ <-]). eauto.
Qed.

Lemma unused_confirm u userID d now step kept_ fresh_ :
  u ≠ userID → kept_ = List.filter (λ c, negb (bool_decide (code_user c = userID))) (mfa_recovery_codes d) →
  (∀ c, c ∈ fresh_ → code_user c = userID) →
  ∀ i, i ∈ unused u {| mfa_totp := alter (confirm_row now step) userID (mfa_totp d); mfa_recovery_codes := kept_ ++ fresh_ |} → i ∈ unused u d.
Proof.
  intros Hne -> Hf i. rewrite !unused_elem. simpl. intros (c & Hc & ? & Hu & ?). exists c. split_and!; try done.
  apply elem_of_app in Hc as [Hc|Hc]; [|by rewrite (Hf c Hc) in Hu].
  apply list_elem_of_In, filter_In in Hc as [Hc _]. by apply list_elem_of_In.
Qed.

Lemma Enroll_treats u k raw now userID d : treats u d (Enroll k raw now userID d).2 None.
Proof.
  assert (treats u d d None) as Hsame by by apply treats_same. unfold Enroll. destruct (Enrolled userID d) eqn:Ee; [done|].
  destruct k as [[sec url]|]; [|done]. destruct (Encrypt _ _ _ _) as [[ct v]|]; [|done]. simpl.
  destruct (decide (userID = u)) as [->|Hne]; [|by apply treats_same; simpl; [rewrite lookup_insert_ne| |]].
  apply t_unenrolled; [done| |done]. unfold Enrolled. simpl. by rewrite lookup_insert_eq.
Qed.

Lemma Confirm_treats u rs ids now userID code d :
  let o := OConfirm rs ids now userID code in treats u d (exec1 o d).2 (exec1 o d).1.
Proof.
  assert (treats u d d None) as Hsame by by apply treats_same. simpl. unfold Confirm, matched.
  destruct (secret userID d) as [[sec []]|] eqn:Es; [done| |done]. destruct (validate now sec code) as [step|]; [|done].
  destruct (newRecoveryCodes rs) as [codes|]; [|done]. destruct (_ && _) eqn:Eb; [|done]. simpl.
  apply secret_Ok in Es as (r & Hr & Hc). destruct (decide (userID = u)) as [->|Hne].
  - apply (t_confirmed u _ _ (confirm_row now step r)); simpl; try done.
    + by rewrite (Enrolled_row u d r).
    + by rewrite lookup_alter_eq, Hr.
    + unfold Enrolled. simpl. by rewrite lookup_alter_eq, Hr.
  - apply treats_same; simpl.
    + by rewrite lookup_alter_ne.
    + apply unused_confirm; [done|done|]. intros c Hin. apply elem_of_lookup_zip_with in Hin as (? & ? & ? & -> & _). done.
    + intros q [= ? ?]. done.
Qed.
Lemma match_recovery_unused u code d i : match_recovery u code d = Some i → i ∈ unused u d.
Proof.
  unfold match_recovery. intros Hl. apply last_Some_elem_of, list_elem_of_fmap in Hl as (c & -> & Hc).
  apply list_elem_of_In, filter_In in Hc as [Hc Hb]. bool_simpl. apply unused_elem. exists c.
  split_and!; [by apply list_elem_of_In|done|done|]. by destruct (used_at c).
Qed.

Lemma consumeRecovery_spec now userID code d :
  let '(b, d') := consumeRecovery now userID code d in
  mfa_totp d' = mfa_totp d ∧ (∀ u i, i ∈ unused u d' → i ∈ unused u d) ∧
  (b = true → ∃ i, match_recovery userID (ToUpper (remove "-" code)) d = Some i ∧ i ∈ unused userID d ∧ ∀ u, i ∉ unused u d').
Proof.
  unfold consumeRecovery. set (code' := ToUpper _). destruct (_ =? 10)%nat; [|done].
  destruct (match_recovery userID code' d) as [i|] eqn:Em; [|done]. destruct i as [|a i']; [done|]. set (i := String a i') in *.
  split; [done|]. split.
  - intros u j. rewrite !unused_elem. simpl. intros (c & Hc & <- & Hu & Hn). apply list_elem_of_fmap in Hc as (c0 & -> & Hc0).
    exists c0. destruct (_ && _); simpl in *; [done|]. by split_and!.
  - intros _. exists i. split; [done|]. split; [by eapply match_recovery_unused|]. intros u. rewrite unused_elem. simpl.
    intros (c & Hc & Hid & _ & Hn). apply list_elem_of_fmap in Hc as (c0 & -> & _).
    destruct (bool_decide (code_id c0 = i)) eqn:E; bool_simpl; simpl in *; [|done].
    destruct (used_at c0) eqn:Eu; simpl in *; congruence.
Qed.

Lemma Verify_treats u now userID code d :
  let o := OVerify now userID code in treats u d (exec1 o d).2 (exec1 o d).1.
Proof.
  assert (treats u d d None) as Hsame by by apply treats_same. simpl. unfold Verify, matched.
  destruct (secret userID d) as [[sec []]|] eqn:Es; [|done|done]. apply secret_Ok in Es as (r & Hr & Hc).
  assert (Enrolled userID d = true) as He by by rewrite (Enrolled_row _ _ r).
  destruct (validate now sec (normal code)) as [step|].
  - unfold claim. rewrite Hr. destruct (match last_step r with None => true | Some l => l <? step end) eqn:El; [|done]. simpl.
    destruct (decide (userID = u)) as [->|Hne].
    + apply (t_step u _ _ r (step_row step r)); [|done| |done].
      * split; simpl; [done|by rewrite lookup_alter_eq, Hr|done|done].
      * intros l El'. rewrite El' in El. lia.
    + apply treats_same; simpl; [by rewrite lookup_alter_ne|done|]. intros q [= ? ?]. done.
  - pose proof (consumeRecovery_spec now userID (normal code) d) as Hspec.
    destruct (consumeRecovery now userID (normal code) d) as [[] d']; destruct Hspec as (Hm & Hu & Hb); simpl.
    2:{ apply treats_same; [by rewrite Hm|apply Hu|done]. }
    destruct (Hb eq_refl) as (i & -> & Hi & Hni). simpl. destruct (decide (userID = u)) as [->|Hne].
    + apply (t_recovery u _ _ r r); auto. split; [done|by rewrite Hm|done|apply Hu].
    + apply treats_same; [by rewrite Hm|apply Hu|]. intros q [= ? ?]. done.
Qed.

Lemma exec1_treats u o d : o ≠ OReset u → treats u d (exec1 o d).2 (exec1 o d).1.
Proof.
  intros Hne. destruct o as [k raw now userID|rs ids now userID code|now userID code|userID].
  - apply Enroll_treats.
  - apply Confirm_treats.
  - apply Verify_treats.
  - simpl. apply treats_same; simpl; [by rewrite lookup_delete_ne by congruence| |done]. intros i. rewrite !unused_elem. simpl.
    intros (c & Hc & ? & ? & ?). exists c. split_and!; try done. apply list_elem_of_In, filter_In in Hc as [Hc _]. by apply list_elem_of_In.
Qed.
Lemma steps_of_cons u p ps : steps_of u (option_list p ++ ps) =
  match p with Some (u', Step s) => if bool_decide (u' = u) then s :: steps_of u ps else steps_of u ps | _ => steps_of u ps end.
Proof. destruct p as [[u' [s|i]]|]; [|done..]. unfold steps_of. simpl. by destruct (bool_decide (u' = u)). Qed.

Lemma recoveries_of_cons u p ps : recoveries_of u (option_list p ++ ps) =
  match p with Some (u', Recovery i) => if bool_decide (u' = u) then i :: recoveries_of u ps else recoveries_of u ps | _ => recoveries_of u ps end.
Proof. destruct p as [[u' [s|i]]|]; [done| |done]. unfold recoveries_of. simpl. by destruct (bool_decide (u' = u)). Qed.

(** A proof that is not of [u] leaves its lists. *)
Lemma other_proof u p ps : (∀ q, p ≠ Some (u, q)) →
  steps_of u (option_list p ++ ps) = steps_of u ps ∧ recoveries_of u (option_list p ++ ps) = recoveries_of u ps.
Proof.
  intros Hp. rewrite steps_of_cons, recoveries_of_cons. destruct p as [[u' [s|i]]|]; [| |done].
  all: rewrite bool_decide_eq_false_2; [done|]; intros ->; by eapply Hp.
Qed.

(** The run of an enrolled user. *)
Record once (u : string) (r : totp_row) (d : DB) (ps : list (string * proof)) (d' : DB) : Prop := {
  once_sorted : StronglySorted Z.lt (steps_of u ps);
  once_above : Forall (λ s, ∀ l, last_step r = Some l → l < s) (steps_of u ps);
  once_nodup : NoDup (recoveries_of u ps);
  once_unused : ∀ i, i ∈ recoveries_of u ps → i ∈ unused u d;
  once_row : ∃ r', mfa_totp d' !! u = Some r' ∧ secret_enc r' = secret_enc r ∧ key_version r' = key_version r ∧
    confirmed_at r' = confirmed_at r;
}.

Lemma run_enrolled u os : ∀ d r, mfa_totp d !! u = Some r → Enrolled u d = true → OReset u ∉ os →
  once u r d (run os d).1 (run os d).2.
Proof.
  induction os as [|o os IH]; intros d r Hr He Hn; simpl.
  { split; simpl; try constructor; [by intros ? ?%elem_of_nil|by exists r]. }
  apply not_elem_of_cons in Hn as [Hn Hns]. pose proof (exec1_treats u o d ltac:(congruence)) as Ht.
  destruct (exec1 o d) as [p d1]. simpl in Ht. specialize (IH d1). destruct (run os d1) as [ps d2]. simpl in *.
  inversion Ht as [r0 r1 p0 Hk Hl Hp|p0 He0 _ _|r1 s He0 _ _ _|r0 r1 s Hk _ Hlt Hl|r0 r1 i Hk _ Hl Hi Hni]; subst; try congruence.
  all: destruct Hk as [Hb Ha (Hs1 & Hs2 & Hs3) Hu]; rewrite Hr in Hb; injection Hb as <-.
  all: assert (Enrolled u d1 = true) as He1 by (rewrite (Enrolled_row _ _ r1) by done; by rewrite Hs3, <-(Enrolled_row u d)).
  all: destruct (IH r1 Ha He1 Hns) as [Hsort Habove Hnd Hun (r2 & Hr2 & ? & ? & ?)].
  - destruct (other_proof u p ps Hp) as [E1 E2]. split; rewrite ?E1, ?E2; try done; [by rewrite Hl in Habove|auto|].
    exists r2. split; [done|]. split_and!; congruence.
  - split; rewrite ?steps_of_cons, ?recoveries_of_cons; rewrite ?bool_decide_eq_true_2 by done; try done.
    + constructor; [done|]. eapply Forall_impl; [exact Habove|]. intros x Hx. by apply Hx.
    + constructor; [done|]. eapply Forall_impl; [exact Habove|]. intros x Hx l Hll. specialize (Hlt l Hll). specialize (Hx s Hl). lia.
    + auto.
    + exists r2. split; [done|]. split_and!; congruence.
  - split; rewrite ?steps_of_cons, ?recoveries_of_cons; rewrite ?bool_decide_eq_true_2 by done; try done.
    + by rewrite Hl in Habove.
    + constructor; [|done]. intros Hin. by apply Hni, Hun.
    + intros j [->|Hj]%elem_of_cons; [done|]. by apply Hu, Hun.
    + exists r2. split; [done|]. split_and!; congruence.
Qed.

Lemma run_unenrolled u os : ∀ d, Enrolled u d = false → OReset u ∉ os →
  StronglySorted Z.lt (steps_of u (run os d).1) ∧ NoDup (recoveries_of u (run os d).1).
Proof.
  induction os as [|o os IH]; intros d He Hn; simpl; [split; constructor|].
  apply not_elem_of_cons in Hn as [Hn Hns]. pose proof (exec1_treats u o d ltac:(congruence)) as Ht.
  destruct (exec1 o d) as [p d1]. simpl in Ht. specialize (IH d1). pose proof (run_enrolled u os d1) as Hrun.
  destruct (run os d1) as [ps d2]. simpl in *.
  inversion Ht as [r0 r1 p0 [Hb Ha (_ & _ & Hs3) _] _ Hp|p0 _ He1 Hp|r1 s _ Hr1 He1 Hl|r0 r1 s _ He1 _ _|r0 r1 i _ He1 _ _ _]; subst; try congruence.
  - destruct (other_proof u p ps Hp) as [-> ->]. apply IH; [|done]. rewrite (Enrolled_row _ _ r1) by done.
    by rewrite Hs3, <-(Enrolled_row u d).
  - destruct (other_proof u p ps Hp) as [-> ->]. by apply IH.
  - rewrite steps_of_cons, recoveries_of_cons, bool_decide_eq_true_2 by done.
    destruct (Hrun r1 Hr1 He1 Hns) as [Hsort Habove Hnd _ _]. split; [|done]. constructor; [done|].
    eapply Forall_impl; [exact Habove|]. intros x Hx. by apply Hx.
Qed.

(** C10. A second-factor proof works once.  In any sequence of enrolments,
confirmations, verifications and resets in which the user's authenticator is
not reset, the codes accepted from it are of strictly later and later
30-second steps, each recovery code is accepted at most once, and a confirmed
authenticator is neither replaced nor un-confirmed: its sealed secret, key
version and confirmation stay as they were. *)
Theorem proofs_once u os d : OReset u ∉ os →
  StronglySorted Z.lt (steps_of u (run os d).1) ∧ NoDup (recoveries_of u (run os d).1) ∧
  ∀ r, mfa_totp d !! u = Some r → Enrolled u d = true →
    ∃ r', mfa_totp (run os d).2 !! u = Some r' ∧ secret_enc r' = secret_enc r ∧ key_version r' = key_version r ∧
      confirmed_at r' = confirmed_at r.
Proof.
  intros Hn. destruct (Enrolled u d) eqn:He.
  - destruct (mfa_totp d !! u) as [r|] eqn:Hr; [|by unfold Enrolled in He; rewrite Hr in He].
    destruct (run_enrolled u os d r Hr He Hn) as [? _ ? _ Hrow]. split_and!; [done..|]. by intros ? [= <-] _.
  - destruct (run_unenrolled u os d He Hn). split_and!; done.
Qed.
End totp.

(** * The text of recovery codes *)

Definition letters : bytes := to_bytes base32_alphabet.

(** What the readers of a code do to its characters: nothing. *)
Definition inert (a : ascii) : bool :=
  (byte_N a <? 128)%N && negb (Unicode.IsSpace (byte_N a)) && negb (Ascii.eqb a " ").

Definition fixed (a : ascii) : bool :=
  (upper_rune (byte_N a) =? byte_N a)%N && negb (Ascii.eqb a "-") && inert a.

Lemma letters_fixed a : a ∈ letters → fixed a = true.
Proof.
  revert a. apply Forall_forall, (bool_decide_eq_true_1 (Forall (λ a, fixed a = true) letters)). by vm_compute.
Qed.

Lemma fixed_inert a : fixed a = true → inert a = true.
Proof. unfold fixed. intros H. bool_simpl. done. Qed.

Lemma leading_none {A} (f : A → bool) l : Forall (λ x, f x = false) l → Strings.leading f l = 0%nat.
Proof. by destruct 1 as [|x l Hx]; simpl; [|rewrite Hx]. Qed.

Lemma TrimSpace_inert b : Forall (λ a, inert a = true) b → Strings.TrimSpace (of_bytes b) = of_bytes b.
Proof.
  intros Hb. unfold Strings.TrimSpace. rewrite to_of_bytes, Utf8.chunks_ascii.
  2:{ eapply Forall_impl; [exact Hb|]. unfold inert. intros a Ha. bool_simpl. lia. }
  assert (Forall (λ c, Strings.is_space_chunk c = false) ((λ a, (byte_N a, [a])) <$> b)) as Hf.
  { apply Forall_fmap. eapply Forall_impl; [exact Hb|]. unfold inert, Strings.is_space_chunk. simpl. intros a Ha. by bool_simpl. }
  unfold Strings.trim_chunks. rewrite (leading_none _ _ Hf), drop_0, leading_none by by apply Forall_rev.
  rewrite Nat.sub_0_r, firstn_all. f_equal. clear Hb Hf. induction b as [|a b IH]; simpl; [done|]. by f_equal.
Qed.

Lemma remove_none c b : Forall (λ a, Ascii.eqb a c = false) b → remove c (of_bytes b) = of_bytes b.
Proof.
  intros Hb. unfold remove. rewrite to_of_bytes. f_equal. induction Hb as [|a b Ha _ IH]; simpl; [done|]. by rewrite Ha, IH.
Qed.

Lemma normal_inert b : Forall (λ a, inert a = true) b → normal (of_bytes b) = of_bytes b.
Proof.
  intros Hb. unfold normal. rewrite TrimSpace_inert by done. apply remove_none.
  eapply Forall_impl; [exact Hb|]. unfold inert. intros a Ha. by bool_simpl.
Qed.

Lemma ToUpper_fixed b : Forall (λ a, fixed a = true) b → ToUpper (of_bytes b) = of_bytes b.
Proof.
  intros Hb. unfold ToUpper, Utf8.runes. rewrite to_of_bytes, Utf8.chunks_ascii.
  2:{ eapply Forall_impl; [exact Hb|]. intros a Ha%fixed_inert. unfold inert in Ha. bool_simpl. lia. }
  f_equal. induction Hb as [|a b Ha _ IH]; [done|]. cbn [fmap list_fmap concat fst]. rewrite IH.
  pose proof (fixed_inert a Ha) as Hi. unfold fixed, inert in *. bool_simpl. unfold compose.
  rewrite (proj1 (N.eqb_eq (upper_rune (byte_N a)) (byte_N a))) by lia. rewrite Utf8.encode_ascii by lia. done.
Qed.

Lemma filter_Forall {A} (f : A → bool) l : Forall (λ a, f a = true) l → List.filter f l = l.
Proof. induction 1 as [|a l Ha _ IH]; simpl; [done|]. by rewrite Ha, IH. Qed.

Lemma base32_letters b : Forall (λ a, a ∈ letters) (base32 b).
Proof.
  apply Forall_fmap, Forall_true. intros n. unfold compose, base32_digit.
  destruct (nth_in_or_default (N.to_nat n) letters "A"%char) as [Hin|Heq]; [by apply list_elem_of_In|].
  unfold letters in Heq. rewrite Heq. apply (bool_decide_eq_true_1 _). by vm_compute.
Qed.

Lemma bits_length b : length (b ≫= bits_of) = (8 * length b)%nat.
Proof. induction b as [|a b IH]; [done|]. rewrite bind_cons, length_app, IH. simpl. lia. Qed.

Lemma base32_seven b : length b = 7%nat → (10 ≤ length (base32 b))%nat.
Proof.
  intros Hb. unfold base32. rewrite length_fmap. pose proof (bits_length b) as Hl. rewrite Hb in Hl. simpl in Hl.
  generalize dependent (b ≫= bits_of). intros l Hl.
  do 56 (destruct l as [|? l]; [done|]). destruct l; [|done]. simpl. lia.
Qed.

(** Read back as [consumeRecovery] reads it, a code is the text that was hashed. *)
Lemma recovery_code_reads raw :
  let c := recovery_code raw in
  normal c.1 = c.1 ∧ String.length c.1 = 11%nat ∧
  String.length (ToUpper (remove "-" c.1)) = 10%nat ∧ hashRecovery (ToUpper (remove "-" c.1)) = c.2.
Proof.
  unfold recovery_code. cbn zeta. cbn [fst snd]. set (c := take 10 (base32 (Envelope.fill 7 raw))).
  assert (length c = 10%nat) as Hl.
  { unfold c. rewrite length_take. pose proof (base32_seven (Envelope.fill 7 raw) (Envelope.fill_length 7 raw)). lia. }
  assert (Forall (λ a, fixed a = true) c) as Hc.
  { apply Forall_take. eapply Forall_impl; [apply base32_letters|]. apply letters_fixed. }
  assert (Forall (λ a, inert a = true) (take 5 c ++ to_bytes "-" ++ drop 5 c)) as Hi.
  { apply Forall_app. split; [|apply Forall_app; split; [by repeat constructor|]].
    all: eapply Forall_impl; [apply Forall_take + apply Forall_drop; exact Hc|]; apply fixed_inert. }
  assert (Forall (λ a, negb (Ascii.eqb a "-") = true) c) as Hd.
  { eapply Forall_impl; [exact Hc|]. unfold fixed. intros a Ha. bool_simpl. by apply negb_true_iff. }
  assert (remove "-" (of_bytes (take 5 c ++ to_bytes "-" ++ drop 5 c)) = of_bytes c) as Hr.
  { unfold remove. rewrite to_of_bytes, !List.filter_app, !(filter_Forall _ (take 5 c)), !(filter_Forall _ (drop 5 c))
      by (apply Forall_take + apply Forall_drop; done). cbn. by rewrite take_drop. }
  split; [by apply normal_inert|]. split.
  - rewrite of_bytes_length, !length_app, length_take, length_drop, Hl. done.
  - rewrite Hr, ToUpper_fixed by done. by rewrite of_bytes_length.
Qed.

Lemma filter_one {A} (f : A → string) (P : A → bool) (l : list A) x :
  NoDup (f <$> l) → x ∈ l → P x = true → (∀ y, P y = true → f y = f x) → length (List.filter P l) = 1%nat.
Proof.
  induction l as [|y l IH]; intros Hnd Hin Hx Hall; [by apply not_elem_of_nil in Hin|].
  rewrite fmap_cons, NoDup_cons in Hnd. destruct Hnd as [Hy Hnd]. cbn [List.filter].
  apply elem_of_cons in Hin as [->|Hin].
  - rewrite Hx. simpl. f_equal. destruct (List.filter P l) as [|z l'] eqn:E; [done|]. exfalso. apply Hy, list_elem_of_fmap.
    assert (z ∈ List.filter P l) as Hz by (rewrite E; left). apply list_elem_of_In, filter_In in Hz as [Hz Hpz].
    exists z. split; [symmetry; by apply Hall|by apply list_elem_of_In].
  - destruct (P y) eqn:Ey; [|by apply IH]. exfalso. apply Hy, list_elem_of_fmap. exists x. split; [by apply Hall|done].
Qed.

Section recovery.
Context (GenerateCodeCustom : string → Z → option string) (ring : KeyRing).

Lemma newRecoveryCodes_codes raws cs :
  newRecoveryCodes raws = Ok cs → length cs = recoveryCodeCount ∧ ∀ c, c ∈ cs → ∃ raw, c = recovery_code raw.
Proof.
  unfold newRecoveryCodes. destruct (mapM id _) as [rs|] eqn:E; [|done]. intros [= <-]. apply mapM_Some in E. split.
  - rewrite length_fmap, <-(Forall2_length _ _ _ E), length_take, length_app, length_replicate. lia.
  - intros c Hc. apply list_elem_of_fmap in Hc as (raw & -> & _). eauto.
Qed.

(** What a confirmation leaves behind. *)
Lemma Confirm_Ok raws ids now u code d codes d' :
  Confirm GenerateCodeCustom ring raws ids now u code d = (Ok codes, d') →
  ∃ sec step r cs rest ids', secret ring u d = Ok (sec, false) ∧ newRecoveryCodes raws = Ok cs ∧ codes = cs.*1 ∧
    mfa_totp d !! u = Some r ∧ mfa_totp d' !! u = Some (confirm_row now step r) ∧
    mfa_recovery_codes d' = rest ++ zip_with (λ i (c : string * string), {| code_id := i; code_user := u; code_hash := c.2;
                used_at := None; code_created := TimeArg now |}) ids' cs ∧
    Forall (λ c, code_user c ≠ u) rest ∧ NoDup (code_id <$> mfa_recovery_codes d') ∧ length ids' = length cs ∧ ids' ⊆ ids.
Proof.
  unfold Confirm. destruct (secret ring u d) as [[sec []]|] eqn:Es; [done| |done].
  destruct (validate _ now sec code) as [step|]; [|done]. destruct (newRecoveryCodes raws) as [cs|] eqn:En; [|done].
  destruct (_ && _) eqn:Eb; [|done]. intros [= <- <-]. bool_simpl. destruct (secret_Ok ring u d sec false Es) as (r & Hr & _).
  eexists sec, step, r, cs, _, (take (length cs) ids). split_and!; simpl; try done.
  - by rewrite lookup_alter_eq, Hr.
  - apply Forall_forall. intros c Hc. apply list_elem_of_In, filter_In in Hc as [_ Hc]. by bool_simpl.
  - by apply Nat.eqb_eq.
  - intros i. apply elem_of_subseteq_take || (intros Hi; eapply elem_of_prefix; [exact Hi|apply prefix_take]).
Qed.

(** Every recovery code just handed out is found unused, under an id of its own. *)
Lemma consume_fresh now u d rest ids cs c :
  mfa_recovery_codes d = rest ++ zip_with (λ i (c : string * string), {| code_id := i; code_user := u; code_hash := c.2;
    used_at := None; code_created := now |}) ids cs →
  Forall (λ c, code_user c ≠ u) rest → NoDup (code_id <$> mfa_recovery_codes d) → length ids = length cs → "" ∉ ids →
  (∃ raw, c = recovery_code raw) → c ∈ cs → ∀ now', (consumeRecovery now' u c.1 d).1 = true.
Proof.
  intros Hd Hrest Hnd Hlen Hempty [raw ->] Hc now'. destruct (recovery_code_reads raw) as (_ & _ & Hl & Hh).
  unfold consumeRecovery. rewrite Hl. cbn [Nat.eqb]. apply list_elem_of_lookup in Hc as [k Hk].
  destruct (lookup_lt_is_Some_2 ids k) as [i Hi]. { rewrite Hlen. by eapply lookup_lt_Some. }
  destruct (match_recovery u (ToUpper (remove "-" (recovery_code raw).1)) d) as [j|] eqn:Em.
  2:{ exfalso. unfold match_recovery in Em. apply last_None in Em. apply fmap_nil_inv in Em.
    assert ({| code_id := i; code_user := u; code_hash := (recovery_code raw).2; used_at := None; code_created := now |} ∈ mfa_recovery_codes d) as Hin.
    { rewrite Hd. apply elem_of_app. right. apply list_elem_of_lookup. exists k. by rewrite lookup_zip_with, Hi, Hk. }
    assert (∀ x, x ∉ List.filter (λ c, bool_decide (code_user c = u) && negb (is_Some_b (used_at c))
      && bool_decide (code_hash c = hashRecovery (ToUpper (remove "-" (recovery_code raw).1)))) (mfa_recovery_codes d)) as Hnone.
    { rewrite Em. intros x. apply not_elem_of_nil. }
    eapply Hnone. apply list_elem_of_In, filter_In. split; [by apply list_elem_of_In|]. cbn [code_user used_at code_hash is_Some_b negb]. rewrite Hh.
    by rewrite !bool_decide_eq_true_2. }
  apply match_recovery_unused, unused_elem in Em as (r & Hr & <- & Hu & Hn).
  assert (code_id r ∈ ids) as Hrid.
  { rewrite Hd in Hr. apply elem_of_app in Hr as [Hr|Hr]; [rewrite Forall_forall in Hrest; by destruct (Hrest r Hr)|].
    apply elem_of_lookup_zip_with in Hr as (k' & x & y & -> & Hx & _). simpl. by eapply list_elem_of_lookup_2. }
  destruct (code_id r) as [|a s] eqn:Eid; [done|]. simpl. apply Nat.eqb_eq. apply (filter_one code_id _ _ r); [done|done| |].
  - rewrite Eid, Hn. by rewrite bool_decide_eq_true_2.
  - intros y Hy. bool_simpl. congruence.
Qed.

(** Recovery codes work: each of the eight codes [Confirm] hands out,
typed as it is shown, is accepted by a later [Verify] as a recovery code, at
any time. *)
Theorem recovery_codes_work raws ids now u code d codes d' c now' :
  Confirm GenerateCodeCustom ring raws ids now u code d = (Ok codes, d') → "" ∉ ids → c ∈ codes →
  length codes = recoveryCodeCount ∧ (Verify GenerateCodeCustom ring now' u c d').1 = Ok true.
Proof.
  intros Hc Hne Hin. destruct (Confirm_Ok _ _ _ _ _ _ _ _ Hc) as (sec & step & r & cs & rest & ids' & Hs & Hcs & -> & Hr & Hr' & Hrec & Hrest & Hnd & Hlen & Hsub).
  destruct (newRecoveryCodes_codes raws cs Hcs) as [Hl Hraw]. split; [by rewrite length_fmap|].
  apply list_elem_of_fmap in Hin as (c' & -> & Hc'). destruct (Hraw c' Hc') as [raw Er].
  unfold Verify. unfold secret in *. rewrite Hr in Hs. rewrite Hr'. apply rbind_Ok in Hs as (p & Hp & [= <- _]). cbn [secret_enc key_version confirm_row].
  rewrite Hp. cbn [rbind confirmed_at confirm_row is_Some_b]. destruct (recovery_code_reads raw) as (Hn & Hlen11 & _ & _). rewrite <-Er in *.
  rewrite Hn. unfold validate. rewrite Hlen11. cbn [Nat.eqb].
  pose proof (consume_fresh (TimeArg now) u d' rest ids' cs c' Hrec Hrest Hnd Hlen) as Hcons.
  assert ("" ∉ ids') as Hne' by (intros Hi; by apply Hne, Hsub).
  specialize (Hcons Hne' (Hraw c' Hc') Hc' now'). destruct (consumeRecovery now' u c'.1 d') as [b d'']. cbn [fst] in Hcons. by rewrite Hcons.
Qed.
End recovery.

(** * Resetting *)

(** Resetting a user's authenticator leaves nothing of it: verification
answers that none is enrolled until a new one is confirmed, no recovery code
remains, every browser session the user had is over for good, whatever calls
follow, unless the database failed the sign-out, when they are as they were,
and no other user's authenticator, codes or sessions are touched. *)
Theorem reset_shuts_out gen ring s down now u d t n d' t' :
  ResetMFA down now u d t = (n, d', t') →
  (∀ now' code, (Verify gen ring now' u code d').1 = Err ErrTOTPNotEnrolled) ∧ unused u d' = [] ∧
  (if down then n = None ∧ t' = t
   else is_Some n ∧ ∀ id r tok T, t !! id = Some r → Sessions.user_id r = u → Sessions.over s T id tok t') ∧
  (∀ v, v ≠ u → mfa_totp d' !! v = mfa_totp d !! v ∧ unused v d' = unused v d) ∧
  (∀ id r, t !! id = Some r → Sessions.user_id r ≠ u → t' !! id = Some r).
Proof.
  intros E. assert (t' = (if down then t else (Sessions.RevokeAllForUser now u t).1) ∧ d' = Reset u d ∧ (if down then n = None else is_Some n)) as (-> & -> & Hn).
  { revert E. unfold ResetMFA. destruct down; [by intros [= <- <- <-]|]. destruct (Sessions.RevokeAllForUser now u t) as [t1 n1]. by intros [= <- <- <-]. }
  clear E. split_and!.
  - intros now' code. unfold Verify, secret. cbn [mfa_totp Reset]. by rewrite lookup_delete_eq.
  - unfold unused. cbn [mfa_recovery_codes Reset].
    induction (mfa_recovery_codes d) as [|c l IH]; simpl; [done|]. destruct (bool_decide (code_user c = u)) eqn:E; simpl; [done|by rewrite E].
  - destruct down; [done|]. split; [done|]. intros id r tok T Hr Hu. apply (Sessions.ends_over s T id tok (Sessions.ORevokeAllForUser now u) t). simpl. congruence.
  - intros v Hv. split; [by simpl; rewrite lookup_delete_ne|]. unfold unused. cbn [mfa_recovery_codes Reset]. f_equal.
    induction (mfa_recovery_codes d) as [|c l IH]; simpl; [done|]. destruct (decide (code_user c = u)) as [E|E].
    + rewrite (bool_decide_eq_true_2 (code_user c = u)), (bool_decide_eq_false_2 (code_user c = v)) by congruence. done.
    + rewrite (bool_decide_eq_false_2 (code_user c = u)) by done. simpl. by rewrite IH.
  - intros id r Hr Hu. destruct down; [done|]. unfold Sessions.RevokeAllForUser. rewrite Sessions.revoke_where_lookup, Hr. simpl.
    by rewrite bool_decide_eq_false_2.
Qed.

(** * A concrete run

A stand-in code generator (the last six digits of the step), the ring of
Keyring.v, and Ada, who enrols, confirms, and presents her next code twice and
a recovery code twice. *)
Definition six (t : Z) : string := of_bytes (Strconv.digits 6 (Z.to_N (t / 30 mod 1000000))).
Definition demo_code (sec : string) (t : Z) : option string := Some (six t).
Definition demo_ring : KeyRing := of_ring Ring.when_sealing.1 Ring.when_sealing.2 0.
Definition no_mfa : DB := {| mfa_totp := ∅; mfa_recovery_codes := [] |}.
Definition ada_raws : list (option bytes) := (λ n, Some (replicate 7 (byte_of n))) <$> [1; 2; 3; 4; 5; 6; 7; 8]%N.
Definition ada_ids : list string := ["1"; "2"; "3"; "4"; "5"; "6"; "7"; "8"].
Definition enrolled : DB :=
  (Enroll demo_ring (Some ("JBSWY3DP", "otpauth://totp/x")) (Some []) 0 "ada" no_mfa).2.
Definition ada_confirms : result Error (list string) * DB :=
  Confirm demo_code demo_ring ada_raws ada_ids (60 * Second) "ada" "000002" enrolled.
Definition ada_codes : list string := Ring.get [] ada_confirms.1.
Definition ada_recovery : string := nth 3 ada_codes "".
Definition ada_run : list op := [
  OConfirm ada_raws ada_ids (60 * Second) "ada" "000002"; OVerify (61 * Second) "ada" "000002";
  OVerify (91 * Second) "ada" " 000003 "; OVerify (92 * Second) "ada" "000003";
  OVerify (93 * Second) "ada" ada_recovery; OVerify (94 * Second) "ada" ada_recovery;
  OEnroll (Some ("other", "otpauth://totp/y")) (Some []) (95 * Second) "ada"].

Lemma proofs_once_witness :
  (run demo_code demo_ring ada_run enrolled).1 = [("ada", Step 2); ("ada", Step 3); ("ada", Recovery "4")] ∧
  StronglySorted Z.lt (steps_of "ada" (run demo_code demo_ring ada_run enrolled).1) ∧
  NoDup (recoveries_of "ada" (run demo_code demo_ring ada_run enrolled).1).
Proof.
  split; [by vm_compute|].
  assert (OReset "ada" ∉ ada_run) as Hn.
  { intros Hin. do 7 (apply elem_of_cons in Hin as [Hin|Hin]; [discriminate Hin|]). by apply elem_of_nil in Hin. }
  pose proof (proofs_once demo_code demo_ring "ada" ada_run enrolled Hn) as (H1 & H2 & _). exact (conj H1 H2).
Defined.

Lemma recovery_codes_work_witness :
  ada_recovery = "AQCAI-BAEAQ" ∧ length ada_codes = 8%nat ∧
  (Verify demo_code demo_ring (70 * Second) "ada" ada_recovery ada_confirms.2).1 = Ok true.
Proof.
  split; [by vm_compute|].
  refine (recovery_codes_work demo_code demo_ring ada_raws ada_ids (60 * Second) "ada" "000002" enrolled ada_codes
    ada_confirms.2 ada_recovery (70 * Second) _ _ _).
  - apply (Ring.get_fst [] ada_confirms). by vm_compute.
  - apply (bool_decide_eq_true_1 _). by vm_compute.
  - apply (bool_decide_eq_true_1 _). by vm_compute.
Defined.

Lemma reset_shuts_out_witness :
  (Verify demo_code demo_ring (100 * Second) "ada" "000003" (ResetMFA false (99 * Second) "ada" ada_confirms.2 ∅).1.2).1
  = Err ErrTOTPNotEnrolled.
Proof.
  apply (reset_shuts_out demo_code demo_ring Sessions.demo false (99 * Second) "ada" ada_confirms.2 ∅
    (ResetMFA false (99 * Second) "ada" ada_confirms.2 ∅).1.1 (ResetMFA false (99 * Second) "ada" ada_confirms.2 ∅).1.2
    (ResetMFA false (99 * Second) "ada" ada_confirms.2 ∅).2).
  by destruct (ResetMFA false (99 * Second) "ada" ada_confirms.2 ∅) as [[]].
Defined.
