(* ===== verification/Users.v ===== *)
(** Accounts: src/internal/user (user.go, repo.go, the policy of password.go).

[DB] holds the table [users], a map from the id to the account with its rows of
[user_roles], and what of the groups a new account touches.  A column that is
NULL holds [""], which is how [nullStr] writes it and [scanUser] reads it.
Usernames are stored in lower case and compared with SQL's LOWER, which lowers
ASCII.  Ids and clock readings are arguments; a database that cannot be reached
is not modelled, its constraints are. *)
From S2P Require Import Prelude GoText.
Local Open Scope Z_scope.

(** * Roles *)

Definition RoleAdmin : string := "admin".
Definition RoleAuditor : string := "auditor".
Definition RoleUser : string := "user".

Definition ValidRole (r : string) : bool :=
  bool_decide (r = RoleAdmin) || bool_decide (r = RoleAuditor) || bool_decide (r = RoleUser).

Definition NormalizeRoles (roles : list string) : list string :=
  if contains roles RoleAdmin then [RoleAdmin] else
  let out := List.filter (contains roles) [RoleAuditor; RoleUser] in
  foldl (λ out r, if negb (ValidRole r) && negb (contains out r) then out ++ [r] else out) out roles.

(** * Accounts *)

Inductive Status := StatusActive | StatusDisabled | StatusLocked.

#[export] Instance Status_eq_dec : EqDecision Status.
Proof. solve_decision. Defined.

Record User := {
  ID : string;
  Username : string;
  Email : string;
  DisplayName : string;
  Status_ : Status;
  Roles : list string;
  IdPID : string;
  ExternalID : string;
  FailedLogins : Z;
  LockedUntil : option time;
  CreatedAt : time;
  UpdatedAt : time;
  LastLoginAt : option time;
  MustResetOnLogin : bool;
  DirectoryRemovedAt : option time;
  SCIMExternalID : string;
  SCIMDeletedAt : option time;
  PasswordHash : string;
}.

(** Derived when an account is read. *)
Definition ProviderSignIn (u : User) : bool := bool_decide (PasswordHash u = "").

Definition HasRole (u : User) (r : string) : bool := contains (Roles u) r.

Definition CanConnect (u : User) : bool := HasRole u RoleUser || HasRole u RoleAdmin.

(** IsBlocked: an administrator has disabled or locked the account. *)
Definition IsBlocked (u : User) : bool :=
  bool_decide (Status_ u = StatusLocked) || bool_decide (Status_ u = StatusDisabled).

(** IsLocked: the account may not sign in now. *)
Definition IsLocked (u : User) (now : time) : bool :=
  IsBlocked u || match LockedUntil u with Some t => Before now t | None => false end.

Inductive Error :=
| ErrNotFound | ErrDuplicate | ErrLastAdmin | ErrInvalidInput | ErrInvalidRole | ErrUsernameShape | ErrUnknownGroup
| ErrWeakPassword | ErrDB.

#[export] Instance Error_eq_dec : EqDecision Error.
Proof. solve_decision. Defined.

(** * Names *)

Definition alnum (a : ascii) : bool :=
  let n := byte_N a in
  ((48 <=? n) && (n <=? 57) || (65 <=? n) && (n <=? 90) || (97 <=? n) && (n <=? 122))%N.

Definition one_of (s : string) (a : ascii) : bool := existsb (Ascii.eqb a) (to_bytes s).

(** The part before the first [c], and the part after it if there is one. *)
Fixpoint cut (c : ascii) (b : bytes) : bytes * option bytes :=
  match b with
  | [] => ([], None)
  | a :: b => if Ascii.eqb a c then ([], Some b) else let '(x, y) := cut c b in (a :: x, y)
  end.

Fixpoint split_fuel (fuel : nat) (c : ascii) (b : bytes) : list bytes :=
  match fuel with
  | O => []
  | S f => match cut c b with (x, None) => [x] | (x, Some y) => x :: split_fuel f c y end
  end.

Definition split (c : ascii) (b : bytes) : list bytes := split_fuel (S (length b)) c b.

(** [^[a-zA-Z0-9][a-zA-Z0-9._-]{1,63}$]. *)
Definition usernameRe (b : bytes) : bool :=
  match b with
  | [] => false
  | a :: rest => alnum a && forallb (λ x, alnum x || one_of "._-" x) rest
                 && (1 <=? length rest)%nat && (length rest <=? 63)%nat
  end.

(** A host-name label of one to 63 characters, with a letter or digit at each end. *)
Definition label (b : bytes) : bool :=
  match b with
  | [] => false
  | a :: _ => alnum a && alnum (List.last b a) && forallb (λ x, alnum x || one_of "-" x) b && (length b <=? 63)%nat
  end.

(** The address form: a local part, and a host name of at least two labels. *)
Definition emailUsernameRe (b : bytes) : bool :=
  match cut "@" b with
  | (a :: rest, Some host) =>
      alnum a && forallb (λ x, alnum x || one_of "._+-" x) rest && (length rest <=? 63)%nat
      && (2 <=? length (split "." host))%nat && forallb label (split "." host)
  | _ => false
  end.

Definition maxEmailUsername : nat := 254.

Definition ValidUsername (s : string) : bool :=
  usernameRe (to_bytes s) || (String.length s <=? maxEmailUsername)%nat && emailUsernameRe (to_bytes s).

(** * Passwords *)

Definition MinPasswordLen : nat := 12.
Definition MaxPasswordLen : nat := 256.

Definition CheckPasswordPolicy (pw : string) : result Error unit :=
  if (String.length pw <? MinPasswordLen)%nat then Err ErrWeakPassword
  else if (MaxPasswordLen <? String.length pw)%nat then Err ErrWeakPassword
  else Ok tt.

(** * The tables *)

Record DB := {
  users : gmap string User;
  groups : gmap string string;
  group_members : gset (string * string);
}.

Definition put (u : User) (d : DB) : DB := {|
  users := <[ID u := u]> (users d); groups := groups d; group_members := group_members d |}.

(** SQL's LOWER. *)
Definition sql_lower (s : string) : string :=
  of_bytes ((λ a, if ((65 <=? byte_N a) && (byte_N a <=? 90))%N then byte_of (byte_N a + 32) else a) <$> to_bytes s).

(** Two accounts clash in a UNIQUE constraint: the username or the email, in
any case, or the provider's subject. *)
Definition clash (a b : User) : bool :=
  bool_decide (sql_lower (Username a) = sql_lower (Username b))
  || negb (bool_decide (Email a = "")) && bool_decide (sql_lower (Email a) = sql_lower (Email b))
  || negb (bool_decide (IdPID a = "")) && negb (bool_decide (ExternalID a = ""))
     && bool_decide (IdPID a = IdPID b) && bool_decide (ExternalID a = ExternalID b).

Definition clashes (u : User) (d : DB) : bool :=
  existsb (λ kv, negb (bool_decide (kv.1 = ID u)) && clash u kv.2) (map_to_list (users d)).

(** * Operations *)

Fixpoint distinct_loop (ids seen : list string) : list string :=
  match ids with
  | [] => []
  | id :: ids =>
      let id := Strings.TrimSpace id in
      if negb (bool_decide (id = "")) && negb (contains seen id) then id :: distinct_loop ids (id :: seen)
      else distinct_loop ids seen
  end.

Definition distinct (ids : list string) : list string := distinct_loop ids [].

(** A group that does not exist, or whose members come from a provider. *)
Definition bad_group (d : DB) (gid : string) : bool :=
  match groups d !! gid with None => true | Some idp => negb (bool_decide (idp = "")) end.

(** The account as it is kept; one given no status is active. *)
Definition normal (id : string) (now : time) (u : User) : User := {|
  ID := id; Username := Strings.ToLower (Username u); Email := Strings.ToLower (Strings.TrimSpace (Email u));
  DisplayName := DisplayName u; Status_ := Status_ u; Roles := NormalizeRoles (Roles u); IdPID := IdPID u;
  ExternalID := ExternalID u; FailedLogins := 0; LockedUntil := None; CreatedAt := TimeArg now; UpdatedAt := TimeArg now;
  LastLoginAt := None; MustResetOnLogin := MustResetOnLogin u; DirectoryRemovedAt := None;
  SCIMExternalID := SCIMExternalID u; SCIMDeletedAt := None; PasswordHash := PasswordHash u |}.

Definition CreateInGroups (id : string) (now : time) (u : User) (groupIDs : list string) (d : DB)
    : result Error User * DB :=
  if negb (ValidUsername (Username u)) then (Err ErrUsernameShape, d)
  else if bool_decide (Strings.TrimSpace (DisplayName u) = "") then (Err ErrInvalidInput, d)
  else if negb (forallb ValidRole (Roles u)) then (Err ErrInvalidRole, d)
  else
    let u := normal id now u in
    let gs := distinct groupIDs in
    if existsb (bad_group d) gs then (Err ErrUnknownGroup, d)
    else if clashes u d || bool_decide (is_Some (users d !! id)) then (Err ErrDuplicate, d)
    else (Ok u, {| users := <[id := u]> (users d); groups := groups d;
                   group_members := list_to_set ((λ g, (g, id)) <$> gs) ∪ group_members d |}).

Definition Create (id : string) (now : time) (u : User) (d : DB) : result Error User * DB := CreateInGroups id now u [] d.

Definition GetByID (id : string) (d : DB) : result Error User :=
  match users d !! id with Some u => Ok u | None => Err ErrNotFound end.

(** The row a condition selects. *)
Definition getWhere (cond : User → bool) (d : DB) : result Error User :=
  match head (List.filter cond (map_to_list (users d)).*2) with Some u => Ok u | None => Err ErrNotFound end.

Definition GetByUsername (username : string) (d : DB) : result Error User :=
  getWhere (λ u, bool_decide (sql_lower (Username u) = sql_lower username)) d.

Definition GetByExternalID (idpID externalID : string) (d : DB) : result Error User :=
  getWhere (λ u, negb (bool_decide (IdPID u = "")) && negb (bool_decide (ExternalID u = ""))
                 && bool_decide (IdPID u = idpID) && bool_decide (ExternalID u = externalID)) d.

(** The columns the statements set. *)
Definition with_profile (display email : string) (st : Status) (now : time) (u : User) : User := {|
  ID := ID u; Username := Username u; Email := Strings.ToLower (Strings.TrimSpace email); DisplayName := display;
  Status_ := st; Roles := Roles u; IdPID := IdPID u; ExternalID := ExternalID u; FailedLogins := FailedLogins u;
  LockedUntil := LockedUntil u; CreatedAt := CreatedAt u; UpdatedAt := TimeArg now; LastLoginAt := LastLoginAt u;
  MustResetOnLogin := MustResetOnLogin u;
  DirectoryRemovedAt := (if bool_decide (Status_ u = st) then DirectoryRemovedAt u else None);
  SCIMExternalID := SCIMExternalID u; SCIMDeletedAt := SCIMDeletedAt u; PasswordHash := PasswordHash u |}.
Definition with_roles (roles : list string) (now : time) (u : User) : User := {|
  ID := ID u; Username := Username u; Email := Email u; DisplayName := DisplayName u; Status_ := Status_ u;
  Roles := NormalizeRoles roles; IdPID := IdPID u; ExternalID := ExternalID u; FailedLogins := FailedLogins u;
  LockedUntil := LockedUntil u; CreatedAt := CreatedAt u; UpdatedAt := TimeArg now; LastLoginAt := LastLoginAt u;
  MustResetOnLogin := MustResetOnLogin u; DirectoryRemovedAt := DirectoryRemovedAt u;
  SCIMExternalID := SCIMExternalID u; SCIMDeletedAt := SCIMDeletedAt u; PasswordHash := PasswordHash u |}.
Definition with_password (hash : string) (must : bool) (now : time) (u : User) : User := {|
  ID := ID u; Username := Username u; Email := Email u; DisplayName := DisplayName u; Status_ := Status_ u;
  Roles := Roles u; IdPID := IdPID u; ExternalID := ExternalID u; FailedLogins := 0; LockedUntil := None;
  CreatedAt := CreatedAt u; UpdatedAt := TimeArg now; LastLoginAt := LastLoginAt u; MustResetOnLogin := must;
  DirectoryRemovedAt := DirectoryRemovedAt u; SCIMExternalID := SCIMExternalID u;
  SCIMDeletedAt := SCIMDeletedAt u; PasswordHash := hash |}.
Definition with_failures (n : Z) (locked : option time) (u : User) : User := {|
  ID := ID u; Username := Username u; Email := Email u; DisplayName := DisplayName u; Status_ := Status_ u;
  Roles := Roles u; IdPID := IdPID u; ExternalID := ExternalID u; FailedLogins := n; LockedUntil := locked;
  CreatedAt := CreatedAt u; UpdatedAt := UpdatedAt u; LastLoginAt := LastLoginAt u;
  MustResetOnLogin := MustResetOnLogin u; DirectoryRemovedAt := DirectoryRemovedAt u;
  SCIMExternalID := SCIMExternalID u; SCIMDeletedAt := SCIMDeletedAt u; PasswordHash := PasswordHash u |}.
Definition with_login (now : time) (u : User) : User := {|
  ID := ID u; Username := Username u; Email := Email u; DisplayName := DisplayName u; Status_ := Status_ u;
  Roles := Roles u; IdPID := IdPID u; ExternalID := ExternalID u; FailedLogins := 0; LockedUntil := None;
  CreatedAt := CreatedAt u; UpdatedAt := UpdatedAt u; LastLoginAt := Some (TimeArg now);
  MustResetOnLogin := MustResetOnLogin u; DirectoryRemovedAt := DirectoryRemovedAt u;
  SCIMExternalID := SCIMExternalID u; SCIMDeletedAt := SCIMDeletedAt u; PasswordHash := PasswordHash u |}.
Definition with_link (idp ext scim : string) (now : time) (u : User) : User := {|
  ID := ID u; Username := Username u; Email := Email u; DisplayName := DisplayName u; Status_ := Status_ u;
  Roles := Roles u; IdPID := idp; ExternalID := ext; FailedLogins := FailedLogins u;
  LockedUntil := LockedUntil u; CreatedAt := CreatedAt u; UpdatedAt := TimeArg now; LastLoginAt := LastLoginAt u;
  MustResetOnLogin := MustResetOnLogin u; DirectoryRemovedAt := DirectoryRemovedAt u; SCIMExternalID := scim;
  SCIMDeletedAt := SCIMDeletedAt u; PasswordHash := PasswordHash u |}.
Definition with_status (st : Status) (removed : option time) (now : time) (u : User) : User := {|
  ID := ID u; Username := Username u; Email := Email u; DisplayName := DisplayName u; Status_ := st;
  Roles := Roles u; IdPID := IdPID u; ExternalID := ExternalID u; FailedLogins := FailedLogins u;
  LockedUntil := LockedUntil u; CreatedAt := CreatedAt u; UpdatedAt := TimeArg now; LastLoginAt := LastLoginAt u;
  MustResetOnLogin := MustResetOnLogin u; DirectoryRemovedAt := removed; SCIMExternalID := SCIMExternalID u;
  SCIMDeletedAt := SCIMDeletedAt u; PasswordHash := PasswordHash u |}.
Definition with_scim (scim : string) (deleted : option time) (now : time) (u : User) : User := {|
  ID := ID u; Username := Username u; Email := Email u; DisplayName := DisplayName u; Status_ := Status_ u;
  Roles := Roles u; IdPID := IdPID u; ExternalID := ExternalID u; FailedLogins := FailedLogins u;
  LockedUntil := LockedUntil u; CreatedAt := CreatedAt u; UpdatedAt := TimeArg now; LastLoginAt := LastLoginAt u;
  MustResetOnLogin := MustResetOnLogin u; DirectoryRemovedAt := DirectoryRemovedAt u; SCIMExternalID := scim;
  SCIMDeletedAt := deleted; PasswordHash := PasswordHash u |}.
Definition with_username (name : string) (now : time) (u : User) : User := {|
  ID := ID u; Username := name; Email := Email u; DisplayName := DisplayName u; Status_ := Status_ u;
  Roles := Roles u; IdPID := IdPID u; ExternalID := ExternalID u; FailedLogins := FailedLogins u;
  LockedUntil := LockedUntil u; CreatedAt := CreatedAt u; UpdatedAt := TimeArg now; LastLoginAt := LastLoginAt u;
  MustResetOnLogin := MustResetOnLogin u; DirectoryRemovedAt := DirectoryRemovedAt u;
  SCIMExternalID := SCIMExternalID u; SCIMDeletedAt := SCIMDeletedAt u; PasswordHash := PasswordHash u |}.

(** [UPDATE users SET ... WHERE id = ?] with its answer: no such row, a clash
with another account, or the row written. *)
Definition update (id : string) (f : User → User) (d : DB) : result Error unit * DB :=
  match users d !! id with
  | None => (Err ErrNotFound, d)
  | Some u => if clashes (f u) d then (Err ErrDuplicate, d) else (Ok tt, put (f u) d)
  end.

Definition Update (now : time) (id displayName email : string) (status : Status) (d : DB) : result Error unit * DB :=
  if bool_decide (Strings.TrimSpace displayName = "") then (Err ErrInvalidInput, d)
  else update id (with_profile displayName email status now) d.

Definition active_admin (u : User) : bool := bool_decide (Status_ u = StatusActive) && HasRole u RoleAdmin.

(** The active administrators other than [id]. *)
Definition other_admins (id : string) (d : DB) : nat :=
  length (List.filter (λ kv, negb (bool_decide (kv.1 = id)) && active_admin kv.2) (map_to_list (users d))).

Definition CountAdmins (d : DB) : nat := length (List.filter (λ kv, active_admin kv.2) (map_to_list (users d))).

(** SetRoles refuses to leave the system with no admin.  The rows of
[user_roles] reference the account, so writing some for an account that does
not exist fails. *)
Definition SetRoles (now : time) (id : string) (roles : list string) (d : DB) : result Error unit * DB :=
  if negb (forallb ValidRole roles) then (Err ErrInvalidRole, d) else
  let is_admin := match users d !! id with Some u => HasRole u RoleAdmin | None => false end in
  if negb (contains roles RoleAdmin) && (other_admins id d =? 0)%nat && is_admin then (Err ErrLastAdmin, d) else
  match users d !! id with
  | None => (match roles with [] => Ok tt | _ => Err ErrDB end, d)
  | Some u => (Ok tt, put (with_roles roles now u) d)
  end.

Definition SetPasswordHash (now : time) (id hash : string) (mustChange : bool) (d : DB) : result Error unit * DB :=
  match users d !! id with
  | None => (Err ErrNotFound, d)
  | Some u => (Ok tt, put (with_password hash mustChange now u) d)
  end.

Definition Delete (id : string) (d : DB) : result Error unit * DB :=
  match users d !! id with
  | None => (Err ErrNotFound, d)
  | Some u =>
      if HasRole u RoleAdmin && (other_admins id d =? 0)%nat then (Err ErrLastAdmin, d)
      else (Ok tt, {| users := delete id (users d); groups := groups d;
                      group_members := filter (λ gm, gm.2 ≠ id) (group_members d) |})
  end.

(** RecordLoginFailure: [Ok true] when this failure locked the account. *)
Definition RecordLoginFailure (now : time) (id : string) (maxFailures : Z) (lockFor : duration) (d : DB)
    : result Error bool * DB :=
  match users d !! id with
  | None => (Err ErrNotFound, d)
  | Some u =>
      let failed := FailedLogins u + 1 in
      if failed <? maxFailures then (Ok false, put (with_failures failed (LockedUntil u) u) d)
      else (Ok true, put (with_failures 0 (Some (TimeArg (now + lockFor))) u) d)
  end.

Definition RecordLoginSuccess (now : time) (id : string) (d : DB) : DB :=
  match users d !! id with None => d | Some u => put (with_login now u) d end.

Definition LinkExternal (now : time) (id idpID externalID : string) (d : DB) : result Error unit * DB :=
  match users d !! id with
  | None => (Err ErrNotFound, d)
  | Some u =>
      if bool_decide (PasswordHash u = "")
         && (bool_decide (IdPID u = "") || bool_decide (IdPID u = idpID) && bool_decide (ExternalID u = ""))
      then update id (with_link idpID externalID (SCIMExternalID u) now) d
      else (Err ErrDuplicate, d)
  end.

Definition Provision (now : time) (id idpID scimExternalID : string) (d : DB) : result Error unit * DB :=
  match users d !! id with
  | None => (Err ErrNotFound, d)
  | Some u =>
      if bool_decide (IdPID u = "") && bool_decide (PasswordHash u = "")
      then match update id (with_link idpID (ExternalID u) scimExternalID now) d with
           | (Err _, d) => (Err ErrDB, d)
           | res => res
           end
      else (Err ErrDuplicate, d)
  end.

Definition DisableRemoved (at_ : time) (id : string) (d : DB) : bool * DB :=
  match users d !! id with
  | Some u =>
      if bool_decide (Status_ u = StatusActive)
      then (true, put (with_status StatusDisabled (Some (TimeArg at_)) at_ u) d) else (false, d)
  | None => (false, d)
  end.

Definition EnableReturned (now : time) (id : string) (d : DB) : bool * DB :=
  match users d !! id with
  | Some u =>
      if bool_decide (Status_ u = StatusDisabled) && bool_decide (is_Some (DirectoryRemovedAt u))
      then (true, put (with_status StatusActive None now u) d) else (false, d)
  | None => (false, d)
  end.

Definition SetSCIM (now : time) (id scimExternalID : string) (deleted : option time) (d : DB) : result Error unit * DB :=
  match users d !! id with
  | None => (Err ErrNotFound, d)
  | Some u => (Ok tt, put (with_scim scimExternalID (TimeArg <$> deleted) now u) d)
  end.

Definition Rename (now : time) (id username : string) (d : DB) : result Error unit * DB :=
  let username := Strings.ToLower (Strings.TrimSpace username) in
  if negb (ValidUsername username) then (Err ErrUsernameShape, d)
  else update id (with_username username now) d.

(** * The invariant of the table *)

Definition row_ok (id : string) (u : User) : Prop :=
  ID u = id ∧ NormalizeRoles (Roles u) = Roles u ∧ 0 ≤ FailedLogins u.

Record wf (d : DB) : Prop := {
  wf_rows : ∀ id u, users d !! id = Some u → row_ok id u;
  wf_unique : ∀ i j u v, users d !! i = Some u → users d !! j = Some v → clash u v = true → i = j;
}.

Lemma row_ok_ID id u : row_ok id u → ID u = id ∧ row_ok (ID u) u.
Proof. intros [<- H]. split; [done|]. by split. Qed.

Lemma clash_sym a b : clash a b = true → clash b a = true.
Proof.
  unfold clash. intros H. apply orb_true_iff in H as [H|H]; [apply orb_true_iff in H as [H|H]|]; bool_simpl.
  - rewrite (bool_decide_eq_true_2 (sql_lower (Username b) = _)) by done. done.
  - rewrite (bool_decide_eq_false_2 (Email b = "")), (bool_decide_eq_true_2 (sql_lower (Email b) = _)); [by rewrite orb_true_r|done|].
    intros E. rewrite E in *. destruct (Email a); done.
  - rewrite (bool_decide_eq_true_2 (IdPID b = IdPID a)), (bool_decide_eq_true_2 (ExternalID b = ExternalID a)) by done.
    rewrite (bool_decide_eq_false_2 (IdPID b = "")), (bool_decide_eq_false_2 (ExternalID b = "")) by congruence. by rewrite !orb_true_r.
Qed.

Lemma clashes_false u d : clashes u d = false → ∀ j v, users d !! j = Some v → j ≠ ID u → clash u v = false.
Proof.
  unfold clashes. rewrite existsb_false. intros H j v Hv Hne.
  specialize (H (j, v) (proj2 (elem_of_map_to_list _ _ _) Hv)). simpl in H.
  rewrite (bool_decide_eq_false_2 (j = ID u)) in H by done. done.
Qed.

Lemma put_wf d u : wf d → row_ok (ID u) u → clashes u d = false → wf (put u d).
Proof.
  intros [Hrows Huniq] Hu Hc. split; simpl.
  - intros id v. rewrite lookup_insert_Some. intros [[<- <-]|[_ Hv]]; [done|by apply Hrows].
  - intros i j v w. rewrite !lookup_insert_Some. intros [[<- <-]|[Hi Hv]] [[<- <-]|[Hj Hw]] Hcl; [done| | |by eapply Huniq].
    + exfalso. rewrite (clashes_false u d Hc j w) in Hcl; done.
    + exfalso. apply clash_sym in Hcl. rewrite (clashes_false u d Hc i v) in Hcl; done.
Qed.

(** An account rewritten without a change of name, email or subject. *)
Definition same_keys (u v : User) : Prop :=
  ID v = ID u ∧ Username v = Username u ∧ Email v = Email u ∧ IdPID v = IdPID u ∧ ExternalID v = ExternalID u.

Lemma clash_same_keys u v w : same_keys u v → clash v w = clash u w.
Proof. unfold clash. by intros (_ & -> & -> & -> & ->). Qed.

Lemma same_keys_wf d id u v : wf d → users d !! id = Some u → same_keys u v → row_ok id v → wf (put v d).
Proof.
  intros Hwf Hu Hk Hv. apply put_wf; [done|by apply (row_ok_ID id)|]. unfold clashes. apply existsb_false.
  intros [j w] Hw%elem_of_map_to_list. simpl. case_bool_decide as Hj; [done|]. simpl. rewrite (clash_same_keys u v w Hk).
  destruct (clash u w) eqn:E; [|done]. exfalso. destruct Hv as [HID _]. apply Hj. rewrite HID. symmetry.
  by eapply (wf_unique _ Hwf).
Qed.

Lemma update_wf d id f : wf d → (∀ u, users d !! id = Some u → row_ok id (f u)) → wf (update id f d).2.
Proof.
  intros Hwf Hf. unfold update. destruct (users d !! id) as [u|] eqn:Hu; [|done].
  destruct (clashes (f u) d) eqn:Hc; [done|]. simpl. apply put_wf; [done|by apply (row_ok_ID id), Hf|done].
Qed.

Lemma contains_normal roles r : contains (NormalizeRoles roles) r = true → contains roles r = true.
Proof.
  unfold NormalizeRoles. destruct (contains roles RoleAdmin) eqn:Ea.
  { rewrite !contains_spec. intros ->%list_elem_of_singleton. by apply contains_spec. }
  set (out := List.filter _ _). intros H. rewrite contains_spec in *.
  assert (∀ l out, r ∈ foldl (λ out r, if negb (ValidRole r) && negb (contains out r) then out ++ [r] else out) out l → r ∈ out ∨ r ∈ l) as Hf.
  { clear. induction l as [|x l IH]; intros out; simpl; [by left|]. intros Hin. apply IH in Hin as [Hin|Hin]; [|by right; right].
    destruct (_ && _); [|by left]. apply elem_of_app in Hin as [Hin|Hin%list_elem_of_singleton]; [by left|]. right. subst. left. }
  apply Hf in H as [H|H]; [|done]. unfold out in H. apply list_elem_of_In, filter_In in H as [_ H]. by apply contains_spec.
Qed.

(** Roles that are all known are kept as admin alone, or auditor before user. *)
Lemma normal_valid roles : forallb ValidRole roles = true → NormalizeRoles roles =
  if contains roles RoleAdmin then [RoleAdmin] else List.filter (contains roles) [RoleAuditor; RoleUser].
Proof.
  intros Hv. unfold NormalizeRoles. destruct (contains roles RoleAdmin); [done|]. generalize (List.filter (contains roles) [RoleAuditor; RoleUser]).
  induction roles as [|r roles IH]; intros out; [done|]. cbn [forallb] in Hv. bool_simpl. simpl. rewrite H. simpl. by apply IH.
Qed.

Lemma normal_idem roles : forallb ValidRole roles = true → NormalizeRoles (NormalizeRoles roles) = NormalizeRoles roles.
Proof.
  intros Hv. rewrite (normal_valid roles Hv). destruct (contains roles RoleAdmin); [by vm_compute|]. cbn [List.filter].
  destruct (contains roles RoleAuditor), (contains roles RoleUser); by vm_compute.
Qed.

(** * Sequences of operations *)

Inductive op :=
| OCreate (id : string) (now : time) (u : User) (groupIDs : list string)
| OUpdate (now : time) (id displayName email : string) (status : Status)
| OSetRoles (now : time) (id : string) (roles : list string)
| OSetPasswordHash (now : time) (id hash : string) (mustChange : bool)
| ODelete (id : string)
| OLoginFailure (now : time) (id : string) (maxFailures : Z) (lockFor : duration)
| OLoginSuccess (now : time) (id : string)
| OLinkExternal (now : time) (id idpID externalID : string)
| OProvision (now : time) (id idpID scimExternalID : string)
| ODisableRemoved (at_ : time) (id : string)
| OEnableReturned (now : time) (id : string)
| OSetSCIM (now : time) (id scimExternalID : string) (deleted : option time)
| ORename (now : time) (id username : string).

Definition exec1 (o : op) (d : DB) : DB :=
  match o with
  | OCreate id now u gs => (CreateInGroups id now u gs d).2
  | OUpdate now id n e s => (Update now id n e s d).2
  | OSetRoles now id rs => (SetRoles now id rs d).2
  | OSetPasswordHash now id h m => (SetPasswordHash now id h m d).2
  | ODelete id => (Delete id d).2
  | OLoginFailure now id m l => (RecordLoginFailure now id m l d).2
  | OLoginSuccess now id => RecordLoginSuccess now id d
  | OLinkExternal now id i e => (LinkExternal now id i e d).2
  | OProvision now id i s => (Provision now id i s d).2
  | ODisableRemoved at_ id => (DisableRemoved at_ id d).2
  | OEnableReturned now id => (EnableReturned now id d).2
  | OSetSCIM now id s del => (SetSCIM now id s del d).2
  | ORename now id n => (Rename now id n d).2
  end.

Definition exec (os : list op) (d : DB) : DB := foldl (λ d o, exec1 o d) d os.

(** Solves the goal that a rewritten row of the table is still in order. *)
Ltac row_kept Hwf Hu :=
  pose proof (wf_rows _ Hwf _ _ Hu) as (? & ? & ?);
  eapply same_keys_wf; [exact Hwf|exact Hu|by repeat split|split_and!; simpl; try done; try lia].

Lemma CreateInGroups_wf id now u gs d : wf d → wf (CreateInGroups id now u gs d).2.
Proof.
  intros Hwf. unfold CreateInGroups. destruct (negb (ValidUsername _)); [done|]. destruct (bool_decide (Strings.TrimSpace _ = _)); [done|].
  destruct (forallb ValidRole (Roles u)) eqn:Hr; simpl; [|done]. destruct (existsb _ _); [done|].
  destruct (clashes _ d) eqn:Hc; [done|]. simpl. destruct (bool_decide (is_Some _)); [done|].
  assert (wf (put (normal id now u) d)) as [Hrows Hun]; [|by split].
  apply put_wf; [done| |done]. split; [done|]. simpl. split; [by apply normal_idem|done].
Qed.

Lemma SetRoles_wf now id roles d : wf d → wf (SetRoles now id roles d).2.
Proof.
  intros Hwf. unfold SetRoles. destruct (forallb ValidRole roles) eqn:Hv; [|done]. simpl. destruct (_ && _); [done|].
  destruct (users d !! id) as [u|] eqn:Hu; [|done]. simpl. row_kept Hwf Hu. by apply normal_idem.
Qed.

Lemma Delete_wf id d : wf d → wf (Delete id d).2.
Proof.
  intros [Hrows Hun]. unfold Delete. destruct (users d !! id) as [u|]; [|done]. destruct (_ && _); [done|]. split; simpl.
  - intros i v [_ Hv]%lookup_delete_Some. by apply Hrows.
  - intros i j v w [_ Hv]%lookup_delete_Some [_ Hw]%lookup_delete_Some. by eapply Hun.
Qed.

Lemma exec1_wf o d : wf d → wf (exec1 o d).
Proof.
  intros Hwf. assert (∀ id f, (∀ u, ID (f u) = ID u ∧ Roles (f u) = Roles u ∧ FailedLogins (f u) = FailedLogins u) → wf (update id f d).2) as Hupd.
  { intros id f Hf. apply update_wf; [done|]. intros u Hu. destruct (wf_rows _ Hwf _ _ Hu) as (? & ? & ?), (Hf u) as (E1 & E2 & E3).
    split_and!; congruence. }
  destruct o as [id now u gs|now id n e s|now id rs|now id h m|id|now id m l|now id|now id i e|now id i s|at_ id|now id|now id s del|now id n]; simpl.
  - by apply CreateInGroups_wf.
  - unfold Update. destruct (bool_decide _); [done|]. by apply Hupd.
  - by apply SetRoles_wf.
  - unfold SetPasswordHash. destruct (users d !! id) as [u|] eqn:Hu; [|done]. simpl. row_kept Hwf Hu.
  - by apply Delete_wf.
  - unfold RecordLoginFailure. destruct (users d !! id) as [u|] eqn:Hu; [|done]. destruct (_ <? _); simpl; row_kept Hwf Hu.
  - unfold RecordLoginSuccess. destruct (users d !! id) as [u|] eqn:Hu; [|done]. row_kept Hwf Hu.
  - unfold LinkExternal. destruct (users d !! id) as [u|] eqn:Hu; [|done]. destruct (_ && _); [|done]. by apply Hupd.
  - unfold Provision. destruct (users d !! id) as [u|] eqn:Hu; [|done]. destruct (_ && _); [|done].
    pose proof (Hupd id (with_link i (ExternalID u) s now) ltac:(done)) as H. by destruct (update id _ d) as [[] d'].
  - unfold DisableRemoved. destruct (users d !! id) as [u|] eqn:Hu; [|done]. destruct (bool_decide _); [|done]. simpl. row_kept Hwf Hu.
  - unfold EnableReturned. destruct (users d !! id) as [u|] eqn:Hu; [|done]. destruct (_ && _); [|done]. simpl. row_kept Hwf Hu.
  - unfold SetSCIM. destruct (users d !! id) as [u|] eqn:Hu; [|done]. simpl. row_kept Hwf Hu.
  - unfold Rename. destruct (negb _); [done|]. by apply Hupd.
Qed.

Lemma exec_wf os d : wf d → wf (exec os d).
Proof. revert d. induction os as [|o os IH]; intros d Hwf; simpl; [done|]. by apply IH, exec1_wf. Qed.

Lemma head_filter_one {A} (P : A → bool) (l : list A) x :
  x ∈ l → P x = true → (∀ y, y ∈ l → P y = true → y = x) → head (List.filter P l) = Some x.
Proof.
  intros Hin Hx Hall. assert (x ∈ List.filter P l) as Hf.
  { apply list_elem_of_In, filter_In. split; [by apply list_elem_of_In|done]. }
  destruct (List.filter P l) as [|y l'] eqn:E; [by apply not_elem_of_nil in Hf|]. simpl. f_equal.
  assert (y ∈ List.filter P l) as Hy by (rewrite E; left). apply list_elem_of_In, filter_In in Hy as [Hy HPy].
  apply Hall; [by apply list_elem_of_In|done].
Qed.

Lemma elem_of_users d u : u ∈ (map_to_list (users d)).*2 ↔ ∃ id, users d !! id = Some u.
Proof.
  rewrite list_elem_of_fmap. split.
  - intros ([id v] & -> & H%elem_of_map_to_list). by exists id.
  - intros [id H%elem_of_map_to_list]. by exists (id, u).
Qed.

Lemma getWhere_unique d id u cond : wf d → users d !! id = Some u → cond u = true →
  (∀ v, cond v = true → clash u v = true) → getWhere cond d = Ok u.
Proof.
  intros Hwf Hu Hc Hcl. unfold getWhere. rewrite (head_filter_one cond _ u); [done| |done|].
  - apply elem_of_users. eauto.
  - intros v [j Hv]%elem_of_users Hcv. assert (id = j) as <- by (eapply (wf_unique _ Hwf); eauto). congruence.
Qed.

(** The account table stays in order.  After any sequence of operations on
a database with no accounts, every account is kept under its own id with its
roles in normal form (admin alone, else auditor before user), no two accounts
share a username or an email in any case or a provider's subject, and so an
account is what is found under its username, written in any case, and under
its provider's subject. *)
Theorem accounts_in_order os gs u id :
  let d := exec os {| users := ∅; groups := gs; group_members := ∅ |} in
  users d !! id = Some u →
  ID u = id ∧ NormalizeRoles (Roles u) = Roles u ∧ 0 ≤ FailedLogins u ∧
  (∀ id' v, users d !! id' = Some v → clash u v = true → id' = id) ∧
  (∀ name, sql_lower name = sql_lower (Username u) → GetByUsername name d = Ok u) ∧
  (IdPID u ≠ "" → ExternalID u ≠ "" → GetByExternalID (IdPID u) (ExternalID u) d = Ok u).
Proof.
  intros d Hu. assert (wf d) as Hwf. { apply exec_wf. split; simpl; intros *; by rewrite lookup_empty. }
  destruct (wf_rows _ Hwf _ _ Hu) as (? & ? & ?). split_and!; try done.
  - intros id' v Hv Hc. symmetry. by eapply (wf_unique _ Hwf).
  - intros name Hn. apply (getWhere_unique d id u); [done|done|by apply bool_decide_eq_true_2|].
    intros v Hv. bool_simpl. unfold clash. rewrite bool_decide_eq_true_2 by congruence. done.
  - intros Hi He. apply (getWhere_unique d id u); [done|done| |].
    + rewrite (bool_decide_eq_false_2 (IdPID u = "")), (bool_decide_eq_false_2 (ExternalID u = "")), !bool_decide_eq_true_2 by done. done.
    + intros v Hv. bool_simpl. unfold clash. rewrite (bool_decide_eq_true_2 (IdPID u = IdPID v)), (bool_decide_eq_true_2 (ExternalID u = ExternalID v)) by done.
      rewrite (bool_decide_eq_false_2 (IdPID u = "")), (bool_decide_eq_false_2 (ExternalID u = "")) by done. by rewrite !orb_true_r.
Qed.

(** Two people are added; the second may not take the first one's name. *)
Definition person (name : string) (roles : list string) : User := {|
  ID := ""; Username := name; Email := ""; DisplayName := name; Status_ := StatusActive; Roles := roles; IdPID := "";
  ExternalID := ""; FailedLogins := 0; LockedUntil := None; CreatedAt := 0; UpdatedAt := 0; LastLoginAt := None;
  MustResetOnLogin := false; DirectoryRemovedAt := None; SCIMExternalID := ""; SCIMDeletedAt := None; PasswordHash := "h" |}.

Definition two_people : list op :=
  [OCreate "1" 0 (person "Ada" ["user"; "admin"]) []; OCreate "2" 0 (person "ADA" ["user"]) [];
   OCreate "3" 0 (person "bob@example.org" ["user"; "auditor"]) []; OSetRoles 1 "1" ["user"]].

Lemma accounts_in_order_witness :
  let d := exec two_people {| users := ∅; groups := ∅; group_members := ∅ |} in
  let u := normal "3" 0 (person "bob@example.org" ["user"; "auditor"]) in
  size (users d) = 2%nat ∧ Roles u = ["auditor"; "user"] ∧ GetByUsername "BOB@Example.org" d = Ok u.
Proof.
  split; [by vm_compute|]. split; [by vm_compute|].
  apply (accounts_in_order two_people ∅ (normal "3" 0 (person "bob@example.org" ["user"; "auditor"])) "3"); by vm_compute.
Defined.

(** * The last administrator *)

Lemma CountAdmins_pos d : (0 < CountAdmins d)%nat ↔ ∃ id u, users d !! id = Some u ∧ active_admin u = true.
Proof.
  unfold CountAdmins. split.
  - intros H. destruct (List.filter _ _) as [|[id u] l] eqn:E; [simpl in H; lia|]. exists id, u.
    assert ((id, u) ∈ List.filter (λ kv, active_admin kv.2) (map_to_list (users d))) as Hin by (rewrite E; left).
    apply list_elem_of_In, filter_In in Hin as [Hin Ha]. split; [by apply elem_of_map_to_list, list_elem_of_In|done].
  - intros (id & u & Hu & Ha). assert ((id, u) ∈ List.filter (λ kv, active_admin kv.2) (map_to_list (users d))) as Hin.
    { apply list_elem_of_In, filter_In. split; [by apply list_elem_of_In, elem_of_map_to_list|done]. }
    destruct (List.filter _ _); [by apply not_elem_of_nil in Hin|simpl; lia].
Qed.

Lemma other_admins_pos id d : other_admins id d ≠ 0%nat ↔ ∃ j u, j ≠ id ∧ users d !! j = Some u ∧ active_admin u = true.
Proof.
  unfold other_admins. split.
  - intros H. destruct (List.filter _ _) as [|[j u] l] eqn:E; [done|]. exists j, u.
    assert ((j, u) ∈ List.filter (λ kv, negb (bool_decide (kv.1 = id)) && active_admin kv.2) (map_to_list (users d))) as Hin by (rewrite E; left).
    apply list_elem_of_In, filter_In in Hin as [Hin Ha]. simpl in Ha. bool_simpl.
    split_and!; [done|by apply elem_of_map_to_list, list_elem_of_In|done].
  - intros (j & u & Hne & Hu & Ha). assert ((j, u) ∈ List.filter (λ kv, negb (bool_decide (kv.1 = id)) && active_admin kv.2) (map_to_list (users d))) as Hin.
    { apply list_elem_of_In, filter_In. split; [by apply list_elem_of_In, elem_of_map_to_list|]. simpl.
      by rewrite bool_decide_eq_false_2. }
    destruct (List.filter _ _); [by apply not_elem_of_nil in Hin|done].
Qed.

Lemma SetRoles_admin now id roles d : (0 < CountAdmins d)%nat → wf d → (0 < CountAdmins (SetRoles now id roles d).2)%nat.
Proof.
  rewrite !CountAdmins_pos. intros (i & v & Hv & Ha) Hwf. unfold SetRoles. destruct (forallb ValidRole roles) eqn:Hval; simpl; [|by eauto].
  destruct (users d !! id) as [u|] eqn:Hu; simpl.
  2:{ destruct (_ && _); simpl; eauto. }
  pose proof (wf_rows _ Hwf _ _ Hu) as (HID & _). destruct (decide (i = id)) as [->|Hne].
  - assert (v = u) as -> by congruence. pose proof Ha as Ha'. unfold active_admin in Ha'. bool_simpl. rewrite H0.
    destruct (contains roles RoleAdmin) eqn:Hc; simpl.
    + exists (ID u), (with_roles roles now u). rewrite lookup_insert_eq. split; [done|]. unfold active_admin, HasRole. simpl.
      rewrite bool_decide_eq_true_2 by done. unfold NormalizeRoles. rewrite Hc. done.
    + destruct (Nat.eqb_spec (other_admins id d) 0) as [E|E]; simpl; [by eauto|].
      apply other_admins_pos in E as (j & w & Hj & Hw & Hwa). exists j, w. rewrite lookup_insert_ne by congruence. done.
  - destruct (_ && _ && _); simpl; [by eauto|]. exists i, v. rewrite lookup_insert_ne by congruence. done.
Qed.

Lemma Delete_admin id d : (0 < CountAdmins d)%nat → (0 < CountAdmins (Delete id d).2)%nat.
Proof.
  rewrite !CountAdmins_pos. intros (i & v & Hv & Ha). unfold Delete. destruct (users d !! id) as [u|] eqn:Hu; simpl; [|by eauto].
  destruct (HasRole u RoleAdmin && (other_admins id d =? 0)%nat) eqn:E; simpl; [by eauto|].
  destruct (decide (i = id)) as [->|Hne]; [|exists i, v; by rewrite lookup_delete_ne].
  assert (v = u) as -> by congruence. pose proof Ha as Ha'. unfold active_admin in Ha'. bool_simpl. destruct E as [E|E]; [congruence|].
  apply Nat.eqb_neq, other_admins_pos in E as (j & w & Hj & Hw & Hwa). exists j, w. by rewrite lookup_delete_ne.
Qed.
