(* ===== verification/Password.v ===== *)
(** Passwords: src/internal/user/password.go.

Argon2id is golang.org/x/crypto's: [IDKey] is a parameter, with the one fact
[IDKeyLaws] that it returns a key of the length asked for.  The PHC text it is
kept in is printed and parsed here as fmt and encoding/base64 do: [Sscanf]
skips blanks before a number and stops where its format ends, base64 decoding
skips line breaks. *)
From S2P Require Import Prelude GoText Strconv Keyring Users.
Local Open Scope N_scope.

Definition argonMemoryKiB : N := 65536.
Definition argonTime : N := 3.
Definition argonThreads : N := 1.
Definition argonKeyLen : N := 32.
Definition argonSaltLen : nat := 16.
Definition argonVersion : Z := 19.

Record phcParams := {
  memory : N;
  time_ : N;
  threads : N;
}.

Definition productionParams : phcParams :=
  {| memory := argonMemoryKiB; time_ := argonTime; threads := argonThreads |}.

(** * encoding/base64: RawStdEncoding *)

Definition std_alphabet : bytes := to_bytes "ABCDEFGHIJKLMNOPQRSTUVWXYZabcdefghijklmnopqrstuvwxyz0123456789+/".

Definition std_digit (n : N) : ascii := nth (N.to_nat n) std_alphabet "A"%char.

Definition std_index (a : ascii) : option N :=
  (λ p, N.of_nat p.1) <$> list_find (λ c, c = a) std_alphabet.

Fixpoint std_encode (b : bytes) : bytes :=
  match b with
  | x :: y :: z :: rest =>
      let '(x', y', z') := (byte_N x, byte_N y, byte_N z) in
      std_digit (x' / 4) :: std_digit (x' mod 4 * 16 + y' / 16)
        :: std_digit (y' mod 16 * 4 + z' / 64) :: std_digit (z' mod 64) :: std_encode rest
  | [x; y] =>
      let '(x', y') := (byte_N x, byte_N y) in
      [std_digit (x' / 4); std_digit (x' mod 4 * 16 + y' / 16); std_digit (y' mod 16 * 4)]
  | [x] => let x' := byte_N x in [std_digit (x' / 4); std_digit (x' mod 4 * 16)]
  | [] => []
  end.

Fixpoint std_quads (l : list N) : option bytes :=
  match l with
  | p :: q :: r :: s :: rest =>
      more ← std_quads rest;
      Some (byte_of (p * 4 + q / 16) :: byte_of (q mod 16 * 16 + r / 4) :: byte_of (r mod 4 * 64 + s) :: more)
  | [p; q; r] => Some [byte_of (p * 4 + q / 16); byte_of (q mod 16 * 16 + r / 4)]
  | [p; q] => Some [byte_of (p * 4 + q / 16)]
  | [p] => None
  | [] => Some []
  end.

(** [RawStdEncoding.DecodeString], [None] for its error. *)
Definition std_decode (b : bytes) : option bytes :=
  l ← mapM std_index (List.filter (λ a, negb ((byte_N a =? 10) || (byte_N a =? 13))) b);
  std_quads l.

(** * fmt.Sscanf *)

Definition skip_literal (s : string) (b : bytes) : option bytes :=
  let p := to_bytes s in
  if bool_decide (take (length p) b = p) then Some (drop (length p) b) else None.

(** Blanks are skipped, a line break is an error. *)
Fixpoint skip_space (l : list (N * bytes)) : option bytes :=
  match l with
  | (r, bs) :: rest =>
      if r =? 10 then None
      else if Unicode.IsSpace r then skip_space rest
      else Some (concat l.*2)
  | [] => None
  end.

Fixpoint take_digits (b : bytes) : bytes * bytes :=
  match b with
  | a :: b' => if is_digit a then let '(ds, rest) := take_digits b' in (a :: ds, rest) else ([], b)
  | [] => ([], [])
  end.

(** [%d] into an unsigned integer of [bits] bits. *)
Definition scan_uint (bits : N) (b : bytes) : option (N * bytes) :=
  b ← skip_space (Utf8.chunks b);
  let '(ds, rest) := take_digits b in
  if bool_decide (ds = []) then None
  else n ← parse_digits ds 0;
       if n <? 2 ^ bits then Some (n, rest) else None.

(** [%d] into an [int]. *)
Definition scan_int (b : bytes) : option (Z * bytes) :=
  b ← skip_space (Utf8.chunks b);
  let '(sign, b) := match b with
                    | a :: b' => if bool_decide (byte_N a = 45 ∨ byte_N a = 43) then ([a], b') else ([], b)
                    | [] => ([], b)
                    end in
  let '(ds, rest) := take_digits b in
  if bool_decide (ds = []) then None else z ← ParseInt (sign ++ ds); Some (z, rest).

(** * Hashes *)

(** [m=%d,t=%d,p=%d]. *)
Definition scan_params (b : bytes) : option phcParams :=
  b ← skip_literal "m=" b; '(m, b) ← scan_uint 32 b;
  b ← skip_literal ",t=" b; '(t, b) ← scan_uint 32 b;
  b ← skip_literal ",p=" b; '(p, _) ← scan_uint 8 b;
  Some {| memory := m; time_ := t; threads := p |}.

Definition scan_version (b : bytes) : option Z :=
  b ← skip_literal "v=" b; '(v, _) ← scan_int b; Some v.

Definition parsePHC (hash : string) : option (phcParams * bytes * bytes) :=
  match split "$" (to_bytes hash) with
  | [_; alg; version; params; salt; key] =>
      if negb (bool_decide (alg = to_bytes "argon2id")) then None else
      v ← scan_version version;
      if negb (bool_decide (v = argonVersion)) then None else
      p ← scan_params params;
      if (memory p =? 0) || (time_ p =? 0) || (threads p =? 0) || (4194304 <? memory p) then None else
      salt ← std_decode salt;
      key ← std_decode key;
      if bool_decide (key = []) then None else Some (p, salt, key)
  | _ => None
  end.

(** The text of a hash. *)
Definition phc_text (p : phcParams) (salt key : bytes) : bytes :=
  to_bytes "$argon2id$v=" ++ FormatInt argonVersion ++ to_bytes "$m=" ++ decimal (memory p) ++ to_bytes ",t=" ++ decimal (time_ p)
  ++ to_bytes ",p=" ++ decimal (threads p) ++ to_bytes "$" ++ std_encode salt ++ to_bytes "$" ++ std_encode key.

Section argon.
(** [argon2.IDKey(password, salt, time, memory, threads, keyLen)]. *)
Context (IDKey : bytes → bytes → N → N → N → N → bytes).

Class IDKeyLaws : Prop := {
  IDKey_length pw salt t m p n : length (IDKey pw salt t m p n) = N.to_nat n;
}.

(** [raw] is what the random generator filled the salt with. *)
Definition hashPasswordWith (raw : option bytes) (pw : string) (p : phcParams) : result Users.Error string :=
  if (MaxPasswordLen <? String.length pw)%nat then Err ErrWeakPassword else
  match raw with
  | None => Err ErrDB
  | Some raw =>
      let salt := Envelope.fill argonSaltLen raw in
      let key := IDKey (to_bytes pw) salt (time_ p) (memory p) (threads p) argonKeyLen in
      Ok (of_bytes (phc_text p salt key))
  end.

Definition HashPassword (raw : option bytes) (pw : string) : result Users.Error string :=
  hashPasswordWith raw pw productionParams.

Definition VerifyPassword (hash pw : string) : bool :=
  if (MaxPasswordLen <? String.length pw)%nat then false else
  match parsePHC hash with
  | None => false
  | Some (p, salt, want) =>
      if (64 <? length want)%nat then false
      else bool_decide (IDKey (to_bytes pw) salt (time_ p) (memory p) (threads p) (N.of_nat (length want)) = want)
  end.

End argon.

Definition NeedsRehash (hash : string) : bool :=
  match parsePHC hash with
  | None => true
  | Some (p, _, _) => (memory p <? memory productionParams) || (time_ p <? time_ productionParams)
  end.

(** * One-time passwords *)

(** Letters and digits without I, O, i, l, o, 0 and 1. *)
Definition passwordAlphabet : bytes :=
  List.filter (λ a, negb (Users.one_of "IO" a)) ((λ n, byte_of (N.of_nat n)) <$> seq 65 26)
  ++ List.filter (λ a, negb (Users.one_of "ilo" a)) ((λ n, byte_of (N.of_nat n)) <$> seq 97 26)
  ++ ((λ n, byte_of (N.of_nat n)) <$> seq 50 8).

Definition passwordLen : nat := 20.

(** The loop over one buffer of random bytes. *)
Fixpoint sample (buf out : bytes) : bytes :=
  match buf with
  | [] => out
  | v :: buf =>
      let k := N.of_nat (length passwordAlphabet) in
      if byte_N v <? 256 - 256 mod k then
        let out := out ++ [nth (N.to_nat (byte_N v mod k)) passwordAlphabet "A"%char] in
        if (length out =? passwordLen)%nat then out else sample buf out
      else sample buf out
  end.

(** [bufs] are the successive buffers of 64 bytes; the loop goes on until the
password is long enough, [None] when it needs more buffers than it is given. *)
Fixpoint generate (bufs : list (option bytes)) (out : bytes) : option (result Users.Error string) :=
  if (passwordLen <=? length out)%nat then Some (Ok (of_bytes out)) else
  match bufs with
  | [] => None
  | None :: _ => Some (Err ErrDB)
  | Some buf :: bufs => generate bufs (sample (Envelope.fill 64 buf) out)
  end.

Definition GeneratePassword (bufs : list (option bytes)) : option (result Users.Error string) := generate bufs [].

Example parses : parsePHC "$argon2id$v=19$m=65536,t=3,p=1$c29tZXNhbHQ$AQID" =
  Some (productionParams, to_bytes "somesalt", [byte_of 1; byte_of 2; byte_of 3]).
Proof. reflexivity. Qed.

(** * Reading back what was printed *)

Lemma std_index_all : forallb (λ n, bool_decide (std_index (std_digit (N.of_nat n)) = Some (N.of_nat n))) (seq 0 64) = true.
Proof. vm_compute. reflexivity. Qed.

Lemma std_index_digit n : n < 64 → std_index (std_digit n) = Some n.
Proof.
  intros Hn. pose proof std_index_all as H. rewrite forallb_true in H. specialize (H (N.to_nat n)). rewrite N2Nat.id in H.
  eapply bool_decide_eq_true, H, elem_of_seq. lia.
Qed.

(** Characters of base64 and of numbers: printable, and neither [$] nor blank. *)
Definition safe (a : ascii) : bool :=
  (32 <? byte_N a) && (byte_N a <? 127) && negb (Ascii.eqb a "$") && negb (Unicode.IsSpace (byte_N a)).

Lemma std_digit_safe n : safe (std_digit n) = true.
Proof.
  unfold std_digit. destruct (nth_in_or_default (N.to_nat n) std_alphabet "A"%char) as [Hin| ->]; [|done].
  apply list_elem_of_In in Hin. revert Hin. generalize (nth (N.to_nat n) std_alphabet "A"%char).
  apply Forall_forall, (bool_decide_eq_true_1 (Forall (λ a, safe a = true) std_alphabet)). by vm_compute.
Qed.

(** [std_encode] in terms of six-bit values. *)
Fixpoint sextets (b : bytes) : list N :=
  match b with
  | x :: y :: z :: rest =>
      let '(x', y', z') := (byte_N x, byte_N y, byte_N z) in
      x' / 4 :: x' mod 4 * 16 + y' / 16 :: y' mod 16 * 4 + z' / 64 :: z' mod 64 :: sextets rest
  | [x; y] => let '(x', y') := (byte_N x, byte_N y) in [x' / 4; x' mod 4 * 16 + y' / 16; y' mod 16 * 4]
  | [x] => let x' := byte_N x in [x' / 4; x' mod 4 * 16]
  | [] => []
  end.

Lemma std_encode_sextets b : std_encode b = std_digit <$> sextets b ∧ Forall (λ n, n < 64) (sextets b) ∧ std_quads (sextets b) = Some b.
Proof.
  induction b as [b IH] using (induction_ltof1 _ length). unfold ltof in IH.
  destruct b as [|x [|y [|z rest]]]; cbn [std_encode sextets std_quads fmap list_fmap]; [done|..].
  all: pose proof (byte_N_bound x); try pose proof (byte_N_bound y); try pose proof (byte_N_bound z).
  1,2: split_and!; [done|repeat constructor; div_lia|]; repeat f_equal; rewrite <-byte_of_byte_N; f_equal; div_lia.
  destruct (IH rest) as (-> & Hf & Hq); [simpl; lia|]. split_and!; [done| |].
  - repeat constructor; [div_lia..|done].
  - rewrite Hq. cbn [mbind option_bind]. repeat f_equal; rewrite <-byte_of_byte_N; f_equal; div_lia.
Qed.

Lemma std_encode_safe b : Forall (λ a, safe a = true) (std_encode b).
Proof. destruct (std_encode_sextets b) as [-> _]. apply Forall_fmap, Forall_true. intros n. apply std_digit_safe. Qed.

Lemma safe_no_break b : Forall (λ a, safe a = true) b → List.filter (λ a, negb ((byte_N a =? 10) || (byte_N a =? 13))) b = b.
Proof.
  induction 1 as [|a b Ha _ IH]; simpl; [done|]. unfold safe in Ha. bool_simpl. rewrite IH.
  assert ((byte_N a =? 10) = false) as -> by lia. assert ((byte_N a =? 13) = false) as -> by lia. done.
Qed.

Lemma std_decode_encode b : std_decode (std_encode b) = Some b.
Proof.
  unfold std_decode. rewrite (safe_no_break _ (std_encode_safe b)). destruct (std_encode_sextets b) as (-> & Hf & Hq).
  assert (mapM std_index (std_digit <$> sextets b) = Some (sextets b)) as ->; [|done].
  apply mapM_Some. revert Hf. generalize (sextets b). intros l. induction 1; simpl; constructor; [by apply std_index_digit|done].
Qed.

Lemma cut_at (c : ascii) (x y : bytes) : Forall (λ a, Ascii.eqb a c = false) x → cut c (x ++ c :: y) = (x, Some y).
Proof. induction 1 as [|a x Ha _ IH]; simpl; [by rewrite Ascii.eqb_refl|]. by rewrite Ha, IH. Qed.

Lemma cut_none (c : ascii) (x : bytes) : Forall (λ a, Ascii.eqb a c = false) x → cut c x = (x, None).
Proof. induction 1 as [|a x Ha _ IH]; simpl; [done|]. by rewrite Ha, IH. Qed.

Fixpoint join (c : ascii) (parts : list bytes) : bytes :=
  match parts with [] => [] | [x] => x | x :: rest => x ++ c :: join c rest end.

Lemma split_join_parts c parts : parts ≠ [] → Forall (Forall (λ a, Ascii.eqb a c = false)) parts → split c (join c parts) = parts.
Proof.
  intros Hne Hf. unfold split. set (n := S (length (join c parts))).
  assert (length parts ≤ n)%nat as Hn.
  { subst n. clear Hne Hf. induction parts as [|x [|y parts] IH]; simpl in *; [lia..|]. rewrite length_app. simpl. lia. }
  revert Hn. generalize n. clear n. induction Hf as [|x parts Hx _ IH]; [done|]. intros [|n] Hn; simpl in *; [lia|].
  destruct parts as [|y parts]; [by rewrite cut_none|]. rewrite cut_at by done. f_equal. apply IH; [done|lia].
Qed.

(** A number is scanned up to the first byte that is not a digit. *)
Lemma take_digits_app ds rest : Forall (λ a, is_digit a = true) ds →
  match rest with [] => True | a :: _ => is_digit a = false end → take_digits (ds ++ rest) = (ds, rest).
Proof.
  intros Hds Hr. induction Hds as [|a ds Ha _ IH]; simpl.
  - destruct rest as [|a rest]; [done|]. simpl. by rewrite Hr.
  - by rewrite Ha, IH.
Qed.

Lemma digit_range a : is_digit a = true → 48 <= byte_N a <= 57.
Proof. unfold is_digit. lia. Qed.

Lemma skip_space_digit ds rest : ds ≠ [] → Forall (λ a, is_digit a = true) ds →
  skip_space (Utf8.chunks (ds ++ rest)) = Some (ds ++ rest).
Proof.
  intros Hne Hd. destruct Hd as [|a ds Ha _]; [done|]. simpl. apply digit_range in Ha.
  change (a :: ds ++ rest) with ([a] ++ (ds ++ rest)). rewrite <-(Utf8.encode_ascii a) by lia.
  rewrite Utf8.chunks_encode by (apply Utf8.valid_rune_range; lia). cbn [skip_space].
  assert ((byte_N a =? 10) = false) as -> by lia. assert (Unicode.IsSpace (byte_N a) = false) as ->.
  { unfold Unicode.IsSpace, Unicode.in_range. lia. }
  cbn [fmap list_fmap concat snd]. by rewrite Utf8.chunks_bytes.
Qed.

Lemma scan_decimal bits n rest : n < 2 ^ bits → match rest with [] => True | a :: _ => is_digit a = false end →
  scan_uint bits (decimal n ++ rest) = Some (n, rest).
Proof.
  intros Hn Hr. unfold scan_uint. rewrite skip_space_digit by (apply decimal_nonempty || apply digits_all).
  cbn [mbind option_bind]. rewrite take_digits_app by (done || apply digits_all).
  rewrite bool_decide_eq_false_2 by apply decimal_nonempty. rewrite parse_decimal. cbn [mbind option_bind].
  by rewrite (proj2 (N.ltb_lt _ _)).
Qed.

Lemma skip_literal_app s b : skip_literal s (to_bytes s ++ b) = Some b.
Proof.
  unfold skip_literal. rewrite take_app_length, drop_app_length. by rewrite bool_decide_eq_true_2.
Qed.

Definition in_range (p : phcParams) : Prop :=
  0 < memory p <= 4194304 ∧ 0 < time_ p < 2 ^ 32 ∧ 0 < threads p < 2 ^ 8.

Lemma scan_params_text p : in_range p →
  scan_params (to_bytes "m=" ++ decimal (memory p) ++ to_bytes ",t=" ++ decimal (time_ p) ++ to_bytes ",p=" ++ decimal (threads p)) = Some p.
Proof.
  intros (Hm & Ht & Hp). unfold scan_params. rewrite skip_literal_app. cbn [mbind option_bind].
  rewrite scan_decimal by (done || lia). cbn [mbind option_bind]. rewrite skip_literal_app. cbn [mbind option_bind].
  rewrite scan_decimal by (done || lia). cbn [mbind option_bind]. rewrite skip_literal_app. cbn [mbind option_bind].
  rewrite <-(app_nil_r (decimal (threads p))). rewrite scan_decimal by (done || lia). by destruct p.
Qed.

Lemma decimal_no_dollar n : Forall (λ a, Ascii.eqb a "$" = false) (decimal n).
Proof.
  eapply Forall_impl; [apply digits_all|]. intros a Ha%digit_range. apply Ascii.eqb_neq. intros ->. destruct Ha as [Ha _]. by apply Ha.
Qed.

Lemma literal_no_dollar s : forallb (λ a, negb (Ascii.eqb a "$")) (to_bytes s) = true →
  Forall (λ a, Ascii.eqb a "$" = false) (to_bytes s).
Proof. rewrite forallb_forall. intros H. apply Forall_forall. intros a Ha%list_elem_of_In. apply H in Ha. by destruct (Ascii.eqb a _). Qed.

Lemma safe_no_dollar b : Forall (λ a, safe a = true) b → Forall (λ a, Ascii.eqb a "$" = false) b.
Proof. intros Hb. eapply Forall_impl; [exact Hb|]. unfold safe. intros a Ha. by bool_simpl. Qed.

Lemma parsePHC_text p salt key : in_range p → key ≠ [] → parsePHC (of_bytes (phc_text p salt key)) = Some (p, salt, key).
Proof.
  intros Hp Hk. unfold parsePHC. rewrite to_of_bytes.
  set (params := to_bytes "m=" ++ decimal (memory p) ++ to_bytes ",t=" ++ decimal (time_ p) ++ to_bytes ",p=" ++ decimal (threads p)).
  assert (phc_text p salt key = join "$" [[]; to_bytes "argon2id"; to_bytes "v=19"; params; std_encode salt; std_encode key]) as ->.
  { unfold phc_text, params, join. change (FormatInt argonVersion) with (to_bytes "19"). cbn [to_bytes String.list_ascii_of_string app].
    repeat (rewrite <-app_assoc; cbn [app]). done. }
  rewrite split_join_parts; [|done|].
  2:{ repeat constructor; try (by apply safe_no_dollar, std_encode_safe).
      unfold params. repeat first [apply decimal_no_dollar | apply Forall_app; split | by apply literal_no_dollar]. }
  rewrite (bool_decide_eq_true_2 (to_bytes "argon2id" = _)) by done.
  change (scan_version (to_bytes "v=19")) with (Some argonVersion). cbn [negb mbind option_bind].
  rewrite (bool_decide_eq_true_2 (argonVersion = argonVersion)) by done. unfold params. rewrite scan_params_text by done.
  cbn [negb mbind option_bind]. destruct Hp as (? & ? & ?).
  assert ((memory p =? 0) || (time_ p =? 0) || (threads p =? 0) || (4194304 <? memory p) = false) as -> by lia.
  rewrite !std_decode_encode. cbn [mbind option_bind]. by rewrite bool_decide_eq_false_2.
Qed.

(** * What a stored hash accepts *)

Section verify.
Context (IDKey : bytes → bytes → N → N → N → N → bytes) `{!IDKeyLaws IDKey}.

(** A stored hash accepts exactly the passwords that derive its key: with
any parameters a hash may be made with, what [HashPassword] returns is
verified by the password it was made from, and by another one within the
length limit only if Argon2id derives the same key from it under the same
salt; a hash with the current parameters does not ask to be replaced. *)
Theorem hash_accepts raw pw p h :
  in_range p → hashPasswordWith IDKey raw pw p = Ok h →
  VerifyPassword IDKey h pw = true ∧
  (∀ pw', VerifyPassword IDKey h pw' = true ↔
     (String.length pw' ≤ MaxPasswordLen)%nat ∧
     ∃ salt, length salt = argonSaltLen ∧
       IDKey (to_bytes pw') salt (time_ p) (memory p) (threads p) argonKeyLen =
       IDKey (to_bytes pw) salt (time_ p) (memory p) (threads p) argonKeyLen ∧
       h = of_bytes (phc_text p salt (IDKey (to_bytes pw) salt (time_ p) (memory p) (threads p) argonKeyLen))) ∧
  (p = productionParams → NeedsRehash h = false).
Proof.
  intros Hp Hh. unfold hashPasswordWith in Hh. destruct (Nat.ltb_spec MaxPasswordLen (String.length pw)) as [|Hl]; [done|].
  destruct raw as [raw|]; [|done]. cbn zeta in Hh. set (salt := Envelope.fill argonSaltLen raw) in *.
  set (key := IDKey (to_bytes pw) salt (time_ p) (memory p) (threads p) argonKeyLen) in *.
  assert (of_bytes (phc_text p salt key) = h) as Hh' by congruence. clear Hh. rename Hh' into Hh.
  assert (length key = 32%nat) as Hkey by (unfold key; by rewrite IDKey_length).
  assert (∀ s k, k ≠ [] → parsePHC (of_bytes (phc_text p s k)) = Some (p, s, k)) as Hparse by (intros; by apply parsePHC_text).
  assert (key ≠ []) as Hne by (intros E; by rewrite E in Hkey).
  assert (∀ pw', VerifyPassword IDKey h pw' = true ↔ (String.length pw' ≤ MaxPasswordLen)%nat ∧
    IDKey (to_bytes pw') salt (time_ p) (memory p) (threads p) argonKeyLen = key) as Hv.
  { intros pw'. unfold VerifyPassword. rewrite <-Hh, Hparse by done. rewrite Hkey. simpl.
    destruct (Nat.ltb_spec MaxPasswordLen (String.length pw')); [split; [done|lia]|].
    change (N.of_nat 32) with argonKeyLen. rewrite bool_decide_eq_true. split; [by auto|by intros [_ ?]]. }
  split_and!.
  - by apply Hv.
  - intros pw'. rewrite Hv. split; intros [? H]; (split; [done|]).
    + exists salt. split_and!; [apply Envelope.fill_length|done|done].
    + destruct H as (s & Hs & He & Htext). rewrite <-Hh in Htext. apply (f_equal parsePHC) in Htext.
      assert (IDKey (to_bytes pw) s (time_ p) (memory p) (threads p) argonKeyLen ≠ []) as Hne'.
      { intros E. apply (f_equal length) in E. by rewrite IDKey_length in E. }
      rewrite !Hparse in Htext by done. injection Htext as <- Hk. by rewrite He.
  - intros ->. unfold NeedsRehash. rewrite <-Hh, Hparse by done. by vm_compute.
Qed.
End verify.

(** A stand-in for Argon2id: the password and salt, cut to the key's length. *)
Definition toy_key (pw salt : bytes) (t m p n : N) : bytes := Envelope.fill (N.to_nat n) (pw ++ salt).

#[export] Instance toy_key_laws : IDKeyLaws toy_key.
Proof. split. intros. apply Envelope.fill_length. Qed.

Definition toy_hash : string :=
  match HashPassword toy_key (Some (to_bytes "0123456789abcdef")) "correct horse battery" with Ok h => h | Err _ => "" end.

Lemma hash_accepts_witness :
  toy_hash = "$argon2id$v=19$m=65536,t=3,p=1$MDEyMzQ1Njc4OWFiY2RlZg$Y29ycmVjdCBob3JzZSBiYXR0ZXJ5MDEyMzQ1Njc4OWE" ∧
  VerifyPassword toy_key toy_hash "correct horse battery" = true ∧ VerifyPassword toy_key toy_hash "correct horse" = false.
Proof.
  split; [by vm_compute|]. split; [|by vm_compute].
  refine (proj1 (hash_accepts toy_key (Some (to_bytes "0123456789abcdef")) "correct horse battery" productionParams toy_hash _ _)); [|by vm_compute].
  unfold in_range. split_and!; by vm_compute.
Defined.

(** * One-time passwords are drawn evenly, and are found *)

Definition accepted (v : ascii) : bool :=
  byte_N v <? 256 - 256 mod N.of_nat (length passwordAlphabet).

Definition letter (v : ascii) : ascii :=
  nth (N.to_nat (byte_N v mod N.of_nat (length passwordAlphabet))) passwordAlphabet "A"%char.

(** The letters a stretch of random bytes gives, without a limit. *)
Definition letters (buf : bytes) : bytes := letter <$> List.filter accepted buf.

#[local] Opaque passwordAlphabet.

Lemma sample_letters buf : ∀ out, (length out < passwordLen)%nat → sample buf out = take passwordLen (out ++ letters buf).
Proof.
  induction buf as [|v buf IH]; intros out Hl; unfold letters; cbn [sample List.filter].
  { by rewrite fmap_nil, app_nil_r, take_ge by lia. }
  change (byte_N v <? _) with (accepted v). destruct (accepted v); [|by apply IH].
  rewrite fmap_cons. fold (letters buf). cbv zeta. change (nth _ _ _) with (letter v).
  assert (out ++ letter v :: letters buf = (out ++ [letter v]) ++ letters buf) as -> by by rewrite <-app_assoc.
  destruct (Nat.eqb_spec (length (out ++ [letter v])) passwordLen) as [E|E].
  - by rewrite take_app_length'.
  - apply IH. rewrite length_app in *. simpl in *. lia.
Qed.

Lemma generate_letters raws : ∀ out, (length out ≤ passwordLen)%nat →
  let all := out ++ letters (concat (Envelope.fill 64 <$> raws)) in
  generate (Some <$> raws) out = if (passwordLen <=? length all)%nat then Some (Ok (of_bytes (take passwordLen all))) else None.
Proof.
  induction raws as [|raw raws IH]; intros out Hl all; subst all.
  - cbn [fmap list_fmap generate concat letters List.filter]. rewrite app_nil_r.
    destruct (Nat.leb_spec passwordLen (length out)); [|done]. by rewrite take_ge.
  - rewrite !fmap_cons. cbn [generate concat]. destruct (Nat.leb_spec passwordLen (length out)) as [Hp|Hp].
    { assert (length out = passwordLen) as E by lia. rewrite length_app, (proj2 (Nat.leb_le _ _)) by lia. by rewrite take_app_length'. }
    rewrite sample_letters by done. set (b := Envelope.fill 64 raw).
    assert (letters (b ++ concat (Envelope.fill 64 <$> raws)) = letters b ++ letters (concat (Envelope.fill 64 <$> raws))) as ->.
    { unfold letters. by rewrite List.filter_app, fmap_app. }
    rewrite IH by (rewrite length_take; lia). rewrite app_assoc. set (o := out ++ letters b). set (r := letters _).
    rewrite !length_app, length_take.
    destruct (Nat.leb_spec passwordLen (length o)) as [Ho|Ho].
    + rewrite !(proj2 (Nat.leb_le _ _)) by lia. rewrite !take_app_le by (rewrite ?length_take; lia). by rewrite take_take, Nat.min_id.
    + rewrite (take_ge o) by lia. by rewrite Nat.min_r by lia.
Qed.

(** C11. One-time passwords are drawn evenly and the loop ends: as soon as the
buffers drawn hold twenty bytes below the largest multiple of the alphabet's
length, [GeneratePassword] returns the letters of the first twenty of them, a
password of the policy, and until then it asks for another buffer; the
alphabet's letters are distinct and each stands for exactly four byte
values. *)
Theorem generated_password raws :
  let drawn := letters (concat (Envelope.fill 64 <$> raws)) in
  ((passwordLen ≤ length drawn)%nat →
     GeneratePassword (Some <$> raws) = Some (Ok (of_bytes (take passwordLen drawn))) ∧
     CheckPasswordPolicy (of_bytes (take passwordLen drawn)) = Ok tt) ∧
  ((length drawn < passwordLen)%nat → GeneratePassword (Some <$> raws) = None) ∧
  NoDup passwordAlphabet ∧
  ∀ c, c ∈ passwordAlphabet →
    length (List.filter (λ v, accepted v && bool_decide (letter v = c)) ((λ n, byte_of (N.of_nat n)) <$> seq 0 256)) = 4%nat.
Proof.
  cbv zeta. set (drawn := letters _). unfold GeneratePassword. rewrite generate_letters by (simpl; lia). cbn [app]. fold drawn. split_and!.
  - intros Hl. rewrite (proj2 (Nat.leb_le _ _)) by done. split; [done|]. unfold CheckPasswordPolicy.
    rewrite of_bytes_length, length_take, Nat.min_l by done. done.
  - intros Hl. by rewrite (proj2 (Nat.leb_gt _ _)).
  - apply (bool_decide_eq_true_1 _). by vm_compute.
  - intros c Hc. assert (forallb (λ c, Nat.eqb (length (List.filter (λ v, accepted v && bool_decide (letter v = c)) ((λ n, byte_of (N.of_nat n)) <$> seq 0 256))) 4) passwordAlphabet = true) as H by by vm_compute.
    rewrite forallb_forall in H. by apply Nat.eqb_eq, H, list_elem_of_In.
Qed.

Lemma generated_password_witness : GeneratePassword (Some <$> [List.repeat "A"%char 64]) = Some (Ok (of_bytes (List.repeat "L"%char 20))).
Proof.
  destruct (generated_password [List.repeat "A"%char 64]) as [H _]. destruct H as [-> _]; [apply Nat.leb_le|apply (bool_decide_eq_true_1 _)]; by vm_compute.
Defined.
