(* ===== verification/Registry.v ===== *)
(** Live sessions: src/internal/gateway/registry.go and tap.go.

The registry's map holds pointers to [Live] values, each with the cancel
function of its context.  [contexts] is the heap of those contexts: one entry
per [Add], the cause it was cancelled with or [None] while it runs, and the
first cancellation wins, as context.WithCancelCause has it.  [taps] is the heap
of taps.  The mutex makes each operation one step.

A tap's channels are queues of at most [chanCap] chunks; a channel that was
closed still hands out what it holds. *)
From S2P Require Import Prelude GoText Protocol.

(** * The tap *)

Definition replayBytes : nat := Z.to_nat 65536.
Definition chanCap : nat := 256.

Record Tap := {
  ring : bytes;
  subs : gset N;
  chans : gmap N (list bytes);
  next : N;
  closed : bool;
  Dropped : Z;
}.

Definition NewTap : Tap := {| ring := []; subs := ∅; chans := ∅; next := 0; closed := false; Dropped := 0 |}.

(** The last [n] elements of a list. *)
Definition lastn {A} (n : nat) (l : list A) : list A := drop (length l - n) l.

(** The channel of a subscriber that still has room takes the chunk. *)
Definition send (p : bytes) (s : gset N) (id : N) (q : list bytes) : list bytes :=
  if bool_decide (id ∈ s) && (length q <? chanCap)%nat then q ++ [p] else q.

Definition Write (p : bytes) (t : Tap) : Tap :=
  if bool_decide (p = []) || closed t then t else {|
    ring := lastn replayBytes (ring t ++ p);
    subs := subs t;
    chans := map_imap (λ id q, Some (send p (subs t) id q)) (chans t);
    next := next t; closed := closed t;
    Dropped := Dropped t + Z.of_nat (size (filter (λ kq, kq.1 ∈ subs t ∧ ¬ (length kq.2 < chanCap)%nat) (chans t)));
  |}.

(** Subscribe: the channel, what to replay, and the tap.  A closed tap hands out
a closed channel, which nobody sends to. *)
Definition Subscribe (t : Tap) : N * bytes * Tap :=
  if closed t then (next t, ring t, {|
    ring := ring t; subs := subs t; chans := <[next t := []]> (chans t); next := next t; closed := true; Dropped := Dropped t |})
  else (next t, ring t, {|
    ring := ring t; subs := {[next t]} ∪ subs t; chans := <[next t := []]> (chans t); next := next t + 1;
    closed := false; Dropped := Dropped t |}).

(** The cancel function [Subscribe] returned for [id]. *)
Definition Unsubscribe (id : N) (t : Tap) : Tap := {|
  ring := ring t; subs := subs t ∖ {[id]}; chans := chans t; next := next t; closed := closed t; Dropped := Dropped t |}.

Definition Watchers (t : Tap) : nat := size (subs t).

Definition Close (t : Tap) : Tap := if closed t then t else {|
  ring := ring t; subs := ∅; chans := chans t; next := next t; closed := true; Dropped := Dropped t |}.

(** The watcher takes the next chunk of its channel. *)
Definition Receive (id : N) (t : Tap) : option bytes * Tap :=
  match chans t !! id with
  | Some (p :: q) =>
      (Some p, {| ring := ring t; subs := subs t; chans := <[id := q]> (chans t); next := next t; closed := closed t; Dropped := Dropped t |})
  | _ => (None, t)
  end.

(** * The registry *)

Inductive Cause :=
| ErrAdminTerminated | ErrTargetLost | ErrPolicyRevoked | ErrGatewayRestart | ErrGrantRevoked | ErrGrantExpired
| ErrTargetDisabled | ErrTrustLost | ErrTargetDeleted
| Canceled.  (* the bridge's own context ended *)

#[export] Instance Cause_eq_dec : EqDecision Cause.
Proof. solve_decision. Defined.

(** CancelReason: the end reason of the session's row; its message is not kept. *)
Definition CancelReason (cause : Cause) : string :=
  match cause with
  | ErrTargetLost => "target_lost"
  | ErrPolicyRevoked => "policy_revoked"
  | ErrGrantRevoked => "policy_revoked"
  | ErrGrantExpired => "max_duration"
  | ErrTargetDisabled => "admin_terminated"
  | ErrTargetDeleted => "target_deleted"
  | ErrTrustLost => "trust_lost"
  | ErrGatewayRestart => "gateway_restart"
  | ErrAdminTerminated | Canceled => "admin_terminated"
  end.

Record Live := {
  SessionID : string;
  UserID : string;
  TargetID : string;
  Protocol : string;
  PolicyID : string;
  AllowClipboard : bool;
  AllowFileTransfer : bool;
  AllowDevTools : bool;
  StartedAt : time;
  tap : option nat;
  GuacID : string;
  ctx : nat;
  ended : bool;
}.

Record Registry := {
  live : gmap string Live;
  contexts : list (option Cause);
  taps : list Tap;
}.

Definition NewRegistry : Registry := {| live := ∅; contexts := []; taps := [] |}.

Definition with_ctx (now : time) (c : nat) (t : option nat) (l : Live) : Live := {|
  SessionID := SessionID l; UserID := UserID l; TargetID := TargetID l; Protocol := Protocol l; PolicyID := PolicyID l;
  AllowClipboard := AllowClipboard l; AllowFileTransfer := AllowFileTransfer l; AllowDevTools := AllowDevTools l;
  StartedAt := if bool_decide (StartedAt l = zero_time) then now else StartedAt l;
  tap := t; GuacID := GuacID l; ctx := c; ended := ended l |}.

Definition set_ended (l : Live) : Live := {|
  SessionID := SessionID l; UserID := UserID l; TargetID := TargetID l; Protocol := Protocol l; PolicyID := PolicyID l;
  AllowClipboard := AllowClipboard l; AllowFileTransfer := AllowFileTransfer l; AllowDevTools := AllowDevTools l;
  StartedAt := StartedAt l; tap := tap l; GuacID := GuacID l; ctx := ctx l; ended := true |}.

Definition set_guac (g : string) (l : Live) : Live := {|
  SessionID := SessionID l; UserID := UserID l; TargetID := TargetID l; Protocol := Protocol l; PolicyID := PolicyID l;
  AllowClipboard := AllowClipboard l; AllowFileTransfer := AllowFileTransfer l; AllowDevTools := AllowDevTools l;
  StartedAt := StartedAt l; tap := tap l; GuacID := g; ctx := ctx l; ended := ended l |}.

(** Add returns the bridge's context; a terminal session without a tap gets one. *)
Definition Add (now : time) (l : Live) (r : Registry) : nat * Registry :=
  let c := length (contexts r) in
  let fresh := match tap l with None => Terminal (Protocol l) | Some _ => false end in
  let t := if fresh then Some (length (taps r)) else tap l in
  (c, {| live := <[SessionID l := with_ctx now c t l]> (live r); contexts := contexts r ++ [None];
         taps := if fresh then taps r ++ [NewTap] else taps r |}).

Definition Remove (sessionID : string) (r : Registry) : Registry := {|
  live := delete sessionID (live r);
  contexts := contexts r;
  taps := match live r !! sessionID ≫= tap with Some t => alter Close t (taps r) | None => taps r end |}.

Definition Get (sessionID : string) (r : Registry) : option Live := live r !! sessionID.

Definition Tap_ (sessionID : string) (r : Registry) : option nat := live r !! sessionID ≫= tap.

Definition SetGuacID (sessionID guacID : string) (r : Registry) : Registry := {|
  live := alter (set_guac guacID) sessionID (live r); contexts := contexts r; taps := taps r |}.

(** The first cancellation of a context gives its cause. *)
Definition cancel (cause : Cause) (c : nat) (cs : list (option Cause)) : list (option Cause) :=
  alter (λ o, match o with Some x => Some x | None => Some cause end) c cs.

(** The sessions [keep] selects that are not already ending. *)
Definition victims (keep : Live → bool) (r : Registry) : list Live :=
  List.filter (λ l, keep l && negb (ended l)) (map_to_list (live r)).*2.

Definition terminateWhere (keep : Live → bool) (cause : Cause) (r : Registry) : nat * Registry :=
  let vs := victims keep r in
  (length vs, {| live := (λ l, if keep l && negb (ended l) then set_ended l else l) <$> live r;
                 contexts := foldr (λ l cs, cancel cause (ctx l) cs) (contexts r) vs; taps := taps r |}).

Definition TerminateTarget (targetID : string) (cause : Cause) (r : Registry) : nat * Registry :=
  terminateWhere (λ l, bool_decide (TargetID l = targetID)) cause r.

Definition TerminateUser (userID : string) (r : Registry) : nat * Registry :=
  terminateWhere (λ l, bool_decide (UserID l = userID)) ErrAdminTerminated r.

(** Lines shared by the two that end one session: whether it was found, and first. *)
Definition end_one (sessionID : string) (cause : Cause) (r : Registry) : bool * bool * Registry :=
  match live r !! sessionID with
  | None => (false, false, r)
  | Some l =>
      if ended l then (true, false, r)
      else (true, true, {| live := <[sessionID := set_ended l]> (live r); contexts := cancel cause (ctx l) (contexts r); taps := taps r |})
  end.

Definition Terminate (sessionID : string) (r : Registry) : bool * Registry :=
  let '(found, _, r) := end_one sessionID ErrAdminTerminated r in (found, r).

Definition TerminateWithCause (sessionID : string) (cause : Cause) (r : Registry) : bool * Registry :=
  let '(_, first, r) := end_one sessionID cause r in (first, r).

Definition List_ (r : Registry) : list Live := (map_to_list (live r)).*2.

Definition Count (r : Registry) : nat := size (live r).

Definition Waiting (r : Registry) : nat := size (live r).

(** * Histories of the registry *)

Inductive op :=
| OAdd (now : time) (l : Live)
| ORemove (sessionID : string)
| OSetGuacID (sessionID guacID : string)
| OTerminate (sessionID : string)
| OTerminateWithCause (sessionID : string) (cause : Cause)
| OTerminateTarget (targetID : string) (cause : Cause)
| OTerminateUser (userID : string)
| ODone (c : nat).  (* the bridge's own context ends *)

Definition exec1 (o : op) (r : Registry) : Registry :=
  match o with
  | OAdd now l => (Add now l r).2
  | ORemove sid => Remove sid r
  | OSetGuacID sid g => SetGuacID sid g r
  | OTerminate sid => (Terminate sid r).2
  | OTerminateWithCause sid cause => (TerminateWithCause sid cause r).2
  | OTerminateTarget t cause => (TerminateTarget t cause r).2
  | OTerminateUser u => (TerminateUser u r).2
  | ODone c => {| live := live r; contexts := cancel Canceled c (contexts r); taps := taps r |}
  end.

(** The contexts a call ends. *)
Definition ends (o : op) (r : Registry) : list nat :=
  match o with
  | OTerminate sid | OTerminateWithCause sid _ =>
      match live r !! sid with Some l => if ended l then [] else [ctx l] | None => [] end
  | OTerminateTarget t _ => ctx <$> victims (λ l, bool_decide (TargetID l = t)) r
  | OTerminateUser u => ctx <$> victims (λ l, bool_decide (UserID l = u)) r
  | _ => []
  end.

Fixpoint run (os : list op) (r : Registry) : list nat * Registry :=
  match os with
  | [] => ([], r)
  | o :: os => let '(more, r') := run os (exec1 o r) in (ends o r ++ more, r')
  end.

(** A caller cannot set the unexported fields. *)
Definition outside (o : op) : Prop := match o with OAdd _ l => ended l = false | _ => True end.

Record Inv (seen : list nat) (r : Registry) : Prop := {
  inv_ctx sid l : live r !! sid = Some l → ctx l < length (contexts r);
  inv_own s s' l l' : live r !! s = Some l → live r !! s' = Some l' → ctx l = ctx l' → s = s';
  inv_ended sid l : live r !! sid = Some l → ended l = true → ∃ c, contexts r !! ctx l = Some (Some c);
  inv_seen c : c ∈ seen → c < length (contexts r);
  inv_once sid l : live r !! sid = Some l → ctx l ∈ seen → ended l = true;
}.

Lemma cancel_length cause c cs : length (cancel cause c cs) = length cs.
Proof. apply length_alter. Qed.

Lemma cancel_lookup cause c cs i : cancel cause c cs !! i =
  if decide (i = c) then (λ o, Some (default cause o)) <$> cs !! i else cs !! i.
Proof.
  unfold cancel. case_decide as Hd; [subst; rewrite list_lookup_alter_eq; by destruct (cs !! c) as [[]|]|].
  by rewrite list_lookup_alter_ne.
Qed.

Lemma cancel_keeps cause c cs i x : cs !! i = Some (Some x) → cancel cause c cs !! i = Some (Some x).
Proof. intros H. rewrite cancel_lookup. case_decide; by rewrite H. Qed.

Lemma victims_elem keep r l : l ∈ victims keep r ↔ ∃ sid, live r !! sid = Some l ∧ keep l = true ∧ ended l = false.
Proof.
  unfold victims. rewrite list_elem_of_In, filter_In, <-list_elem_of_In, list_elem_of_fmap, andb_true_iff, negb_true_iff. split.
  - intros [([sid l'] & -> & Hin%elem_of_map_to_list) ?]. eauto.
  - intros (sid & Hl & ?). split; [|done]. exists (sid, l). split; [done|by apply elem_of_map_to_list].
Qed.

Lemma foldr_cancel cause vs cs i : foldr (λ l cs, cancel cause (ctx l) cs) cs vs !! i =
  if bool_decide (i ∈ ctx <$> vs) then (λ o, Some (default cause o)) <$> cs !! i else cs !! i.
Proof.
  induction vs as [|l vs IH]; [done|]. cbn [foldr]. rewrite cancel_lookup, IH. rewrite fmap_cons.
  destruct (decide (i = ctx l)) as [->|Hne].
  - rewrite (bool_decide_eq_true_2 (ctx l ∈ ctx l :: _)) by left. destruct (bool_decide _); [|done]. by destruct (cs !! ctx l) as [[]|].
  - rewrite (bool_decide_ext (i ∈ ctx l :: _) (i ∈ ctx <$> vs)); [done|]. rewrite elem_of_cons. naive_solver.
Qed.

Lemma foldr_cancel_length cause vs cs : length (foldr (λ l cs, cancel cause (ctx l) cs) cs vs) = length cs.
Proof. induction vs as [|l vs IH]; [done|]. cbn [foldr]. by rewrite cancel_length. Qed.

Lemma live_Inv_end seen r r' vs : Inv seen r → length (contexts r') = length (contexts r) →
  (∀ i x, contexts r !! i = Some (Some x) → contexts r' !! i = Some (Some x)) →
  (∀ sid l', live r' !! sid = Some l' → ∃ l, live r !! sid = Some l ∧ ctx l' = ctx l ∧ (ended l = true → ended l' = true) ∧
     (ended l' = true → ended l = true ∨ ∃ x, contexts r' !! ctx l = Some (Some x)) ∧ (ctx l ∈ vs → ended l' = true)) →
  (∀ c, c ∈ vs → c < length (contexts r)) → Inv (seen ++ vs) r'.
Proof.
  intros [Hc Ho He Hs Hn] Hlen Hkeep Hl Hv. split.
  - intros sid l' H. apply Hl in H as (l & H & -> & _). rewrite Hlen. eauto.
  - intros s s' l l' H H' Heq. apply Hl in H as (k & H & E & _), H' as (k' & H' & E' & _). apply (Ho s s' k k'); [done..|congruence].
  - intros sid l' H Hend. apply Hl in H as (l & H & -> & _ & Hx & _). destruct (Hx Hend) as [Hend'|?]; [|done].
    destruct (He sid l H Hend') as [c Hcx]. exists c. by apply Hkeep.
  - intros c. rewrite Hlen, elem_of_app. intros [?|?]; eauto.
  - intros sid l' H. apply Hl in H as (l & H & -> & Hup & _ & Hin). rewrite elem_of_app. intros [?|?]; [|by auto]. apply Hup. eauto.
Qed.

Lemma Inv_add seen r now l : Inv seen r → ended l = false → Inv seen (Add now l r).2.
Proof.
  intros [Hc Ho He Hs Hn] Hl. split; cbn [live contexts Add snd].
  - intros sid l'. rewrite length_app, lookup_insert_Some. intros [[<- <-]|[_ H]]; [cbn; lia|]. apply Hc in H. lia.
  - intros s s' k k'. rewrite !lookup_insert_Some. intros [[<- <-]|[Hs1 H]] [[<- <-]|[Hs2 H']] E; [done| | |by eauto].
    + apply Hc in H'. cbn in E. lia.
    + apply Hc in H. cbn in E. lia.
  - intros sid l'. rewrite lookup_insert_Some. intros [[<- <-]|[_ H]] Hend; [cbn in Hend; congruence|].
    destruct (He sid l' H Hend) as [c Hcx]. exists c. by apply lookup_app_l_Some.
  - intros c Hin%Hs. rewrite length_app. lia.
  - intros sid l'. rewrite lookup_insert_Some. intros [[<- <-]|[_ H]] Hin; [|eauto]. apply Hs in Hin. cbn in Hin. lia.
Qed.

Lemma Inv_where seen r keep cause : Inv seen r → Inv (seen ++ (ctx <$> victims keep r)) (terminateWhere keep cause r).2.
Proof.
  intros HI. apply (live_Inv_end _ r); [done|apply foldr_cancel_length| | |].
  - cbn [contexts terminateWhere snd]. intros i x H. rewrite foldr_cancel. destruct (bool_decide _); by rewrite H.
  - cbn [live contexts terminateWhere snd]. intros sid l'. rewrite lookup_fmap. destruct (live r !! sid) as [l|] eqn:El; [|done].
    intros [= <-]. exists l. split; [done|]. destruct (keep l && negb (ended l)) eqn:E; cbn [fmap option_fmap]; split_and!; try done; try (by auto).
    + intros _. right. assert (ctx l ∈ ctx <$> victims keep r) as Hin.
      { apply list_elem_of_fmap. exists l. split; [done|]. apply victims_elem. bool_simpl. eauto. }
      rewrite foldr_cancel, bool_decide_eq_true_2 by done.
      destruct (lookup_lt_is_Some_2 (contexts r) (ctx l) (inv_ctx _ _ HI _ _ El)) as [o ->]. by eexists.
    + intros (l2 & E2 & (sid2 & Hl2 & Hk2 & He2)%victims_elem)%list_elem_of_fmap. exfalso.
      assert (sid2 = sid) as -> by by eapply (inv_own _ _ HI). simplify_eq. by rewrite Hk2, He2 in E.
  - intros c (l & -> & (sid & Hl & _)%victims_elem)%list_elem_of_fmap. by eapply inv_ctx.
Qed.

Lemma Inv_one seen r sid cause : Inv seen r →
  Inv (seen ++ match live r !! sid with Some l => if ended l then [] else [ctx l] | None => [] end) (end_one sid cause r).2.
Proof.
  intros HI. unfold end_one. destruct (live r !! sid) as [l|] eqn:El; [destruct (ended l) eqn:Ee|]; [by rewrite app_nil_r| |by rewrite app_nil_r].
  apply (live_Inv_end _ r); cbn [live contexts snd]; [done|apply cancel_length|intros; by apply cancel_keeps| |].
  - intros s l'. rewrite lookup_insert_Some. intros [[<- <-]|[Hne Hl']].
    + exists l. split_and!; try done. intros _. right. rewrite cancel_lookup, decide_True by done.
      destruct (lookup_lt_is_Some_2 (contexts r) (ctx l) (inv_ctx _ _ HI _ _ El)) as [o ->]. by eexists.
    + exists l'. split_and!; try done; [by left|]. intros Heq%list_elem_of_singleton. exfalso. apply Hne. by eapply (inv_own _ _ HI).
  - intros c ->%list_elem_of_singleton. by eapply inv_ctx.
Qed.

Lemma live_Inv_step seen o r : Inv seen r → outside o → Inv (seen ++ ends o r) (exec1 o r).
Proof.
  intros HI Ho. destruct o as [now l|sid|sid g|sid|sid cause|t cause|u|c]; cbn [ends exec1]; rewrite ?app_nil_r.
  - by apply Inv_add.
  - rewrite <-(app_nil_r seen). apply (live_Inv_end _ r); cbn; [done..| |by intros ? ?%not_elem_of_nil].
    intros s l' [_ H]%lookup_delete_Some. exists l'. split_and!; try done; [by left|]. by intros ?%not_elem_of_nil.
  - rewrite <-(app_nil_r seen). apply (live_Inv_end _ r); cbn; [done..| |by intros ? ?%not_elem_of_nil].
    intros s l'. destruct (decide (s = sid)) as [->|Hne]; [rewrite lookup_alter_eq|rewrite lookup_alter_ne by done].
    + destruct (live r !! sid) as [l|]; [|done]. intros [= <-]. exists l. split_and!; try done; [by left|]. by intros ?%not_elem_of_nil.
    + intros H. exists l'. split_and!; try done; [by left|]. by intros ?%not_elem_of_nil.
  - unfold Terminate. pose proof (Inv_one seen r sid ErrAdminTerminated HI) as H. by destruct (end_one sid ErrAdminTerminated r) as [[? ?] ?].
  - unfold TerminateWithCause. pose proof (Inv_one seen r sid cause HI) as H. by destruct (end_one sid cause r) as [[? ?] ?].
  - by apply Inv_where.
  - by apply Inv_where.
  - rewrite <-(app_nil_r seen). apply (live_Inv_end _ r); cbn [live contexts]; [done|apply cancel_length|intros; by apply cancel_keeps| |by intros ? ?%not_elem_of_nil].
    intros s l' H. exists l'. split_and!; try done; [by left|]. by intros ?%not_elem_of_nil.
Qed.

Lemma Inv_new : Inv [] NewRegistry.
Proof. split; cbn; intros *; rewrite ?lookup_empty; by try intros ?%not_elem_of_nil. Qed.

(** The contexts a call ends are its own: once each, and none that an earlier call ended. *)
Lemma ends_new seen o r : Inv seen r → NoDup seen → NoDup (seen ++ ends o r).
Proof.
  intros HI Hd. assert (∀ keep, NoDup (ctx <$> victims keep r)) as Hv.
  { intros keep. unfold victims. apply NoDup_fmap_2_strong.
    - intros l l' Hl Hl' E. assert (∀ k, k ∈ List.filter (λ l, keep l && negb (ended l)) (map_to_list (live r)).*2 → ∃ sid, live r !! sid = Some k) as Hf.
      { intros k Hk. apply (victims_elem keep r) in Hk as (sid & ? & _). eauto. }
      apply Hf in Hl as [s Hs], Hl' as [s' Hs']. assert (s = s') as -> by by eapply (inv_own _ _ HI). congruence.
    - apply NoDup_ListNoDup, List.NoDup_filter, NoDup_ListNoDup. apply NoDup_fmap_2_strong; [|apply NoDup_map_to_list].
      intros [s l] [s' l'] Hs%elem_of_map_to_list Hs'%elem_of_map_to_list E. cbn in E. subst l'. f_equal. by eapply (inv_own _ _ HI). }
  assert (∀ l sid, live r !! sid = Some l → ended l = false → ctx l ∉ seen) as Hn.
  { intros l sid Hl He Hin. apply (inv_once _ _ HI sid l Hl) in Hin. congruence. }
  apply NoDup_app. split; [done|]. split.
  - intros c Hc Hin. destruct o as [now l|sid|sid g|sid|sid cause|t cause|u|c']; cbn [ends] in Hin; try by apply not_elem_of_nil in Hin.
    1,2: destruct (live r !! sid) as [l|] eqn:El; [destruct (ended l) eqn:Ee|]; try (by apply not_elem_of_nil in Hin);
         apply list_elem_of_singleton in Hin as ->; by eapply Hn.
    1,2: apply list_elem_of_fmap in Hin as (l & -> & (s & Hl & _ & He)%victims_elem); by eapply Hn.
  - assert (∀ sid, NoDup (match live r !! sid with Some l => if ended l then [] else [ctx l] | None => [] end)) as H1.
    { intros sid. destruct (live r !! sid) as [l|]; [destruct (ended l)|]; try apply NoDup_nil_2. apply NoDup_singleton. }
    destruct o; cbn [ends]; first [apply NoDup_nil_2 | apply Hv | apply H1].
Qed.

Lemma run_inv os : ∀ seen r, Inv seen r → NoDup seen → Forall outside os →
  Inv (seen ++ (run os r).1) (run os r).2 ∧ NoDup (seen ++ (run os r).1).
Proof.
  induction os as [|o os IH]; intros seen r HI Hd Hf; cbn [run]; [by rewrite app_nil_r|]. apply Forall_cons in Hf as [Ho Hf].
  destruct (IH (seen ++ ends o r) (exec1 o r)) as [H1 H2]; [by apply live_Inv_step|by apply ends_new|done|].
  destruct (run os (exec1 o r)) as [more r']. cbn in *. by rewrite app_assoc.
Qed.

(** The call reports how many sessions it ended. *)
Lemma where_count keep cause r : (terminateWhere keep cause r).1 = length (ctx <$> victims keep r).
Proof. by rewrite length_fmap. Qed.

(** What ending the sessions [keep] selects does to the contexts. *)
Lemma where_contexts seen r keep cause : Inv seen r → (∀ l, keep (set_ended l) = keep l) →
  let r' := (terminateWhere keep cause r).2 in
  (∀ sid l, live r' !! sid = Some l → keep l = true → ∃ c, contexts r' !! ctx l = Some (Some c)) ∧
  (∀ sid l, live r !! sid = Some l → keep l = false → live r' !! sid = Some l ∧ contexts r' !! ctx l = contexts r !! ctx l).
Proof.
  intros HI Hkeep r'. pose proof (Inv_where seen r keep cause HI) as HI'. split.
  - intros sid l Hl Hk. apply (inv_ended _ _ HI' sid l Hl). subst r'. cbn [live terminateWhere snd] in Hl.
    rewrite lookup_fmap in Hl. destruct (live r !! sid) as [k|]; [|done]. cbn in Hl. injection Hl as <-.
    destruct (keep k && negb (ended k)) eqn:E; [done|]. apply andb_false_iff in E as [E|E]; [congruence|by apply negb_false_iff in E].
  - intros sid l Hl Hk. subst r'. cbn [live contexts terminateWhere snd]. rewrite lookup_fmap, Hl. cbn. rewrite Hk. split; [done|].
    rewrite foldr_cancel, bool_decide_eq_false_2; [done|]. intros (k & E & (s & Hs & Hkk & _)%victims_elem)%list_elem_of_fmap.
    assert (s = sid) as -> by by eapply (inv_own _ _ HI). congruence.
Qed.

(** Withdrawing a user or a target ends all of its sessions and no other.
After any history of the registry, ending the sessions of a user leaves every
session of the user it holds with a cancelled context and every other session
as it was, and so for a target; and over the whole history no session is
reported as ended twice, whatever calls withdraw it: the contexts the calls
ended, as many as the calls reported, are all different. *)
Theorem withdrawal_complete os u t cause :
  Forall outside os →
  let r := (run os NewRegistry).2 in
  (∀ sid l, live (TerminateUser u r).2 !! sid = Some l → UserID l = u →
     ∃ c, contexts (TerminateUser u r).2 !! ctx l = Some (Some c)) ∧
  (∀ sid l, live r !! sid = Some l → UserID l ≠ u →
     live (TerminateUser u r).2 !! sid = Some l ∧ contexts (TerminateUser u r).2 !! ctx l = contexts r !! ctx l) ∧
  (∀ sid l, live (TerminateTarget t cause r).2 !! sid = Some l → TargetID l = t →
     ∃ c, contexts (TerminateTarget t cause r).2 !! ctx l = Some (Some c)) ∧
  NoDup (run (os ++ [OTerminateUser u]) NewRegistry).1 ∧
  (TerminateUser u r).1 = length (ends (OTerminateUser u) r).
Proof.
  intros Ho r. destruct (run_inv os [] NewRegistry Inv_new (NoDup_nil_2) Ho) as [HI Hd]. fold r in HI. cbn [app] in HI.
  destruct (where_contexts _ r (λ l, bool_decide (UserID l = u)) ErrAdminTerminated HI) as [H1 H2]; [done|].
  destruct (where_contexts _ r (λ l, bool_decide (TargetID l = t)) cause HI) as [H3 _]; [done|]. split_and!.
  - intros sid l Hl Hu. apply (H1 sid l Hl). by apply bool_decide_eq_true.
  - intros sid l Hl Hu. apply (H2 sid l Hl). by apply bool_decide_eq_false.
  - intros sid l Hl Ht. apply (H3 sid l Hl). by apply bool_decide_eq_true.
  - apply (run_inv (os ++ [OTerminateUser u]) [] NewRegistry Inv_new NoDup_nil_2). apply Forall_app. split; [done|by repeat constructor].
  - apply where_count.
Qed.

Definition ex_live (sid u : string) : Live := {|
  SessionID := sid; UserID := u; TargetID := "db1"; Protocol := "ssh"; PolicyID := "p"; AllowClipboard := true;
  AllowFileTransfer := false; AllowDevTools := false; StartedAt := zero_time; tap := None; GuacID := ""; ctx := 0; ended := false |}.

(** Two sessions of ada and one of bob; one of ada's is ended first. *)
Definition ex_history : list op :=
  [OAdd 1 (ex_live "s1" "ada"); OAdd 2 (ex_live "s2" "bob"); OAdd 3 (ex_live "s3" "ada"); OTerminateWithCause "s1" ErrPolicyRevoked].

Lemma withdrawal_complete_witness :
  let r := (run ex_history NewRegistry).2 in
  (TerminateUser "ada" r).1 = 1 ∧ contexts (TerminateUser "ada" r).2 = [Some ErrPolicyRevoked; None; Some ErrAdminTerminated] ∧
  NoDup (run (ex_history ++ [OTerminateUser "ada"]) NewRegistry).1.
Proof.
  split; [by vm_compute|]. split; [by vm_compute|].
  apply (withdrawal_complete ex_history "ada" "db1" ErrTargetLost). by repeat constructor.
Defined.

(** * What a watcher sees *)

Inductive top :=
| TWrite (p : bytes)
| TSubscribe
| TUnsubscribe (id : N)
| TReceive (id : N)
| TClose.

Definition texec (o : top) (t : Tap) : Tap :=
  match o with
  | TWrite p => Write p t
  | TSubscribe => (Subscribe t).2
  | TUnsubscribe id => Unsubscribe id t
  | TReceive id => (Receive id t).2
  | TClose => Close t
  end.

Definition trun (os : list top) (t : Tap) : Tap := foldl (λ t o, texec o t) t os.

(** The output the tap accepted, and what the watcher [id] received. *)
Fixpoint written (os : list top) (t : Tap) : list bytes :=
  match os with
  | [] => []
  | o :: os => match o with TWrite p => if bool_decide (p = []) || closed t then [] else [p] | _ => [] end ++ written os (texec o t)
  end.

Fixpoint received (id : N) (os : list top) (t : Tap) : list bytes :=
  match os with
  | [] => []
  | o :: os => match o with TReceive j => if bool_decide (j = id) then option_list (Receive j t).1 else [] | _ => [] end
               ++ received id os (texec o t)
  end.

(** The channel of [id] has room at every write. *)
Fixpoint keeps_up (id : N) (os : list top) (t : Tap) : Prop :=
  match os with
  | [] => True
  | o :: os => match o with TWrite _ => (length (default [] (chans t !! id)) < chanCap)%nat | _ => True end ∧ keeps_up id os (texec o t)
  end.

Lemma lastn_lastn {A} n (a b : list A) : lastn n (lastn n a ++ b) = lastn n (a ++ b).
Proof.
  unfold lastn. rewrite !length_app, length_drop. destruct (decide (n ≤ length b)) as [Hb|Hb].
  - rewrite !drop_app_ge by (rewrite ?length_drop; lia). f_equal. rewrite length_drop. lia.
  - rewrite !drop_app_le by (rewrite ?length_drop; lia). rewrite drop_drop. do 2 f_equal. lia.
Qed.

Lemma lastn_all {A} n (l : list A) : length l ≤ n → lastn n l = l.
Proof. intros H. unfold lastn. by replace (length l - n) with 0 by lia. Qed.

Lemma lastn_length {A} n (l : list A) : length (lastn n l) ≤ n.
Proof. unfold lastn. rewrite length_drop. lia. Qed.

Lemma lastn_idem {A} n (l : list A) : lastn n (lastn n l) = lastn n l.
Proof. apply lastn_all, lastn_length. Qed.

#[local] Opaque replayBytes chanCap.

(** The ring holds the end of the output. *)
Lemma ring_step o t : lastn replayBytes (ring (texec o t)) =
  lastn replayBytes (ring t ++ concat match o with TWrite p => if bool_decide (p = []) || closed t then [] else [p] | _ => [] end).
Proof.
  destruct o as [p| |id|id|]; cbn [texec concat]; rewrite ?app_nil_r.
  - unfold Write. destruct (bool_decide (p = []) || closed t); cbn [concat ring]; rewrite app_nil_r; [done|]. apply lastn_idem.
  - unfold Subscribe. by destruct (closed t).
  - done.
  - unfold Receive. by destruct (chans t !! id) as [[|]|].
  - unfold Close. by destruct (closed t).
Qed.

Lemma ring_written os : ∀ t, lastn replayBytes (ring (trun os t)) = lastn replayBytes (ring t ++ concat (written os t)).
Proof.
  induction os as [|o os IH]; intros t; cbn [written trun foldl]; [by rewrite app_nil_r|].
  fold (trun os (texec o t)). rewrite IH, <-lastn_lastn, ring_step, lastn_lastn, concat_app. by rewrite app_assoc.
Qed.

Lemma ring_bounded os : ∀ t, length (ring t) ≤ replayBytes → length (ring (trun os t)) ≤ replayBytes.
Proof.
  induction os as [|o os IH]; intros t Ht; [done|]. apply IH. destruct o as [p| |id|id|]; cbn [texec].
  - unfold Write. destruct (bool_decide (p = []) || closed t); [done|]. apply lastn_length.
  - unfold Subscribe. by destruct (closed t).
  - done.
  - unfold Receive. by destruct (chans t !! id) as [[|]|].
  - unfold Close. by destruct (closed t).
Qed.

(** A subscriber whose channel holds [q] and that nobody unsubscribed. *)
Record Watching (id : N) (q : list bytes) (t : Tap) : Prop := {
  watch_id : (id < next t)%N;
  watch_chan : chans t !! id = Some q;
  watch_sub : closed t = false → id ∈ subs t;
}.

(** One step of the tap: what the watcher takes now, and what its channel then holds. *)
Lemma watching_step id q o t : Watching id q t → o ≠ TUnsubscribe id → ∃ q',
  Watching id q' (texec o t) ∧
  let got := match o with TReceive j => if bool_decide (j = id) then option_list (Receive j t).1 else [] | _ => [] end in
  let put := match o with TWrite p => if bool_decide (p = []) || closed t then [] else [p] | _ => [] end in
  (got ++ q') `sublist_of` (q ++ put) ∧
  (match o with TWrite _ => (length q < chanCap)%nat | _ => True end → got ++ q' = q ++ put).
Proof.
  intros [Hid Hq Hs] Ho. destruct o as [p| |j|j|]; cbn [texec]; rewrite ?app_nil_r; cbn [app].
  - unfold Write. destruct (bool_decide (p = []) || closed t) eqn:E; [exists q; rewrite app_nil_r; by split_and!|].
    apply orb_false_iff in E as [_ Ec]. exists (send p (subs t) id q). split_and!.
    + split; cbn; [done| |by auto]. by rewrite map_lookup_imap, Hq.
    + unfold send. destruct (bool_decide _ && _); [done|]. by apply sublist_inserts_r.
    + intros Hlt%Nat.ltb_lt. unfold send. by rewrite bool_decide_eq_true_2, Hlt by auto.
  - exists q. split; [|done]. unfold Subscribe. destruct (closed t) eqn:Ec; split; cbn; try done; try lia;
      try (rewrite lookup_insert_ne by lia; done); set_solver.
  - exists q. split; [|done]. split; cbn; [done..|]. intros Hc%Hs. apply elem_of_difference. split; [done|].
    rewrite elem_of_singleton. congruence.
  - unfold Receive. case_bool_decide as Hj; [subst j; rewrite Hq|].
    + destruct q as [|p q']; [exists []; by split_and!|]. exists q'. split; [|done]. split; cbn; [done| |done]. by rewrite lookup_insert_eq.
    + exists q. split; [|done]. destruct (chans t !! j) as [[|p q']|]; [by split| |by split].
      split; cbn; [done| |done]. by rewrite lookup_insert_ne.
  - exists q. split; [|done]. unfold Close. destruct (closed t) eqn:E; split; cbn; congruence.
Qed.

Lemma watching_run id os : ∀ q t, Watching id q t → TUnsubscribe id ∉ os →
  let all := received id os t ++ default [] (chans (trun os t) !! id) in
  all `sublist_of` (q ++ written os t) ∧ (keeps_up id os t → all = q ++ written os t).
Proof.
  induction os as [|o os IH]; intros q t Ht Hno; cbn [received written keeps_up trun foldl].
  - rewrite (watch_chan _ _ _ Ht), app_nil_r. done.
  - apply not_elem_of_cons in Hno as [Ho Hno]. destruct (watching_step id q o t Ht (not_eq_sym Ho)) as (q' & Ht' & Hsub & Heq).
    destruct (IH q' (texec o t) Ht' Hno) as [Hsub' Heq']. fold (trun os (texec o t)). split.
    + rewrite <-!app_assoc. etrans; [apply sublist_app; [done|exact Hsub']|]. rewrite !app_assoc. by apply sublist_app.
    + rewrite (watch_chan _ _ _ Ht). intros [Hk Hks]. rewrite <-!app_assoc, (Heq' Hks), !app_assoc. f_equal. by apply Heq.
Qed.

(** A watcher who joins a live session sees its screen and then its output.
After any history of the tap, a watcher that subscribes is handed exactly the
last 64 KiB of the session's output so far; from then on what it takes from its
channel, with what still waits there, is the later output in order, with at
most some chunks missing and none invented, repeated or out of place, and all
of it when the channel has room at every write.  Other watchers coming, going
or stalling, and the end of the session, change none of it, and the session
keeps at most 64 KiB whatever it writes. *)
Theorem watcher_sees pre os :
  let t0 := trun pre NewTap in
  let '(id, replay, t1) := Subscribe t0 in
  closed t0 = false → TUnsubscribe id ∉ os →
  let all := received id os t1 ++ default [] (chans (trun os t1) !! id) in
  replay = lastn replayBytes (concat (written pre NewTap)) ∧
  length (ring (trun os t1)) ≤ replayBytes ∧
  all `sublist_of` written os t1 ∧ (keeps_up id os t1 → all = written os t1).
Proof.
  cbn [NewTap]. set (t0 := trun pre NewTap). unfold Subscribe. destruct (closed t0) eqn:Ec; [done|]. intros _ Hno.
  assert (length (ring t0) ≤ replayBytes) as Hlen by (apply ring_bounded; cbn; lia). split_and!.
  - rewrite <-(lastn_all replayBytes (ring t0)) by done. apply (ring_written pre NewTap).
  - by apply ring_bounded.
  - apply (watching_run _ _ []); [|done]. split; cbn; [lia|by rewrite lookup_insert_eq|set_solver].
  - apply (watching_run _ _ []); [|done]. split; cbn; [lia|by rewrite lookup_insert_eq|set_solver].
Qed.

#[local] Transparent replayBytes chanCap.

(** A watcher joins after some output, and a second one joins and leaves while it reads. *)
Lemma watcher_sees_witness :
  let t1 := (Subscribe (trun [TWrite (to_bytes "$ ls")] NewTap)).2 in
  let os := [TWrite (to_bytes "a.txt"); TSubscribe; TReceive 0; TWrite (to_bytes "b.txt"); TUnsubscribe 1; TClose; TWrite (to_bytes "late")] in
  received 0 os t1 ++ default [] (chans (trun os t1) !! 0%N) = [to_bytes "a.txt"; to_bytes "b.txt"].
Proof.
  pose proof (watcher_sees [TWrite (to_bytes "$ ls")]
    [TWrite (to_bytes "a.txt"); TSubscribe; TReceive 0; TWrite (to_bytes "b.txt"); TUnsubscribe 1; TClose; TWrite (to_bytes "late")]) as H.
  cbv zeta in H. apply H; [by vm_compute| |].
  - rewrite list_elem_of_In. cbn. intuition discriminate.
  - repeat split; apply Nat.ltb_lt; by vm_compute.
Defined.
