(* ===== verification/Middleware.v ===== *)
(** The sign-in middleware: src/internal/auth/middleware.go and token.go, with
the recorder (recorder.go) that writes the audit rows of the handlers.

A handler is a computation [M] over the [world]: the tables and the handler's
own maps, the audit rows written so far and the Set-Cookie headers of the
response.  It answers by returning a [reply] or, where the code writes an
error and returns early, by [answer].  A middleware takes the next handler as
an argument, as net/http composes them.

What a request brings from outside the program is in [request]: its headers,
the clock, the random draws, the free hashing slots and what the directory or
a token store answers.  All clock readings of one request are the same
instant, and requests run one after another: the code serialises the code
checks of an account, and a database transaction the counting of failures. *)
From S2P Require Import Prelude GoText Limiter Sessions Totp Users.
Local Open Scope Z_scope.

(** * strings *)

Definition HasSuffix (s p : string) : bool :=
  (String.length p <=? String.length s)%nat && bool_decide (String.substring (String.length s - String.length p) (String.length p) s = p).

Definition CutPrefix (s p : string) : option string :=
  if Strings.HasPrefix s p then Some (String.substring (String.length p) (String.length s - String.length p) s) else None.

Definition TrimPrefix (s p : string) : string := default s (CutPrefix s p).

(** [strings.EqualFold], exact where one side is ASCII. *)
Definition fold_rune (r : N) : N :=
  if Unicode.in_range 65 90 r then (r + 32)%N else if (r =? 8490)%N then 107%N else if (r =? 383)%N then 115%N else r.

Definition EqualFold (s t : string) : bool :=
  bool_decide (fold_rune <$> Utf8.runes (to_bytes s) = fold_rune <$> Utf8.runes (to_bytes t)).

(** * The caller *)

Record Principal := {
  Session : Sessions.Session;
  User : Users.User;
  TokenID : string;
}.

Definition StepUpWindow : duration := 5 * Minute.

Definition StepUpFresh (now : time) (p : option Principal) : bool :=
  match p with
  | Some p => negb (bool_decide (MFAAt (Session p) = zero_time)) && (Sub now (MFAAt (Session p)) <=? StepUpWindow)
  | None => false
  end.

(** * Audit rows *)

Inductive detail := DString (s : string) | DBool (b : bool) | DInt (n : Z).

Inductive Outcome := Success | Failure.

#[export] Instance Outcome_eq_dec : EqDecision Outcome.
Proof. solve_decision. Defined.

Record Actor := { UserID : string; IP : string }.

(** An event as the handlers build it; its object is always a user. *)
Record Event := {
  by_ : Actor;
  Action : string;
  ObjectID : string;
  outcome : Outcome;
  Details : list (string * detail);
}.

Definition UserLogin : string := "user.login".
Definition UserLogout : string := "user.logout".
Definition UserMFAEnroll : string := "user.mfa.enroll".
Definition UserMFAConfirm : string := "user.mfa.confirm".
Definition UserMFAVerify : string := "user.mfa.verify".
Definition UserPasswordChange : string := "user.password.change".

(** * Requests and replies *)

Inductive TokenErr := ErrBadToken | TokenUnavailable.

Record request := {
  Method : string;
  Path : string;
  cookie : option string;
  Authorization : string;
  SecFetchSite : string;
  Origin : string;
  Host : string;
  XCSRFToken : string;
  ClientIP : string;
  Agent : string;
  now : time;
  (** What the token store answers for a secret, if there is one. *)
  Tokens : option (string → result TokenErr (string * string));
}.

Inductive Body :=
| BError (code : string)
| BLogin (st : string) (u : option Users.User) (csrf : string)
| BPending (pending : string) (enrolled : bool) (csrf : string)
| BProfile (u : Users.User) (csrf : string) (enrolled : bool) (sid : string) (created expires : time) (zone : option string)
| BEnrollment (e : Totp.Enrollment)
| BCodes (codes : list string) (csrf : string)
| BOut (redirect : option string)
| BProved
| BFile.

Record reply := { code : Z; body : Body }.

Definition WriteError (status : Z) (code : string) : reply := {| code := status; body := BError code |}.
Definition WriteJSON (b : Body) : reply := {| code := 200; body := b |}.
Definition Internal : reply := WriteError 500 "internal".

(** * The state the handlers share *)

Record stepUpState := { fails : Z; closedUntil : time }.

Section auth.
Context `{FO : Floats} (S0 : Sessions.Sessions).

Record world := {
  udb : Users.DB;
  sdb : gmap string Sessions.row;
  tdb : Totp.DB;
  loginLimiter : ipLimiter;
  stepUpLimiter : ipLimiter;
  stepUpFails : gmap string stepUpState;
  mfaAttempts : gmap string Z;
  trail : list Event;
  jar : list Sessions.Cookie;
}.

Definition set_udb (d : Users.DB) (w : world) : world := {|
  udb := d; sdb := sdb w; tdb := tdb w; loginLimiter := loginLimiter w; stepUpLimiter := stepUpLimiter w;
  stepUpFails := stepUpFails w; mfaAttempts := mfaAttempts w; trail := trail w; jar := jar w |}.
Definition set_sdb (t : gmap string Sessions.row) (w : world) : world := {|
  udb := udb w; sdb := t; tdb := tdb w; loginLimiter := loginLimiter w; stepUpLimiter := stepUpLimiter w;
  stepUpFails := stepUpFails w; mfaAttempts := mfaAttempts w; trail := trail w; jar := jar w |}.
Definition set_tdb (d : Totp.DB) (w : world) : world := {|
  udb := udb w; sdb := sdb w; tdb := d; loginLimiter := loginLimiter w; stepUpLimiter := stepUpLimiter w;
  stepUpFails := stepUpFails w; mfaAttempts := mfaAttempts w; trail := trail w; jar := jar w |}.
Definition set_login (l : ipLimiter) (w : world) : world := {|
  udb := udb w; sdb := sdb w; tdb := tdb w; loginLimiter := l; stepUpLimiter := stepUpLimiter w;
  stepUpFails := stepUpFails w; mfaAttempts := mfaAttempts w; trail := trail w; jar := jar w |}.
Definition set_step (l : ipLimiter) (w : world) : world := {|
  udb := udb w; sdb := sdb w; tdb := tdb w; loginLimiter := loginLimiter w; stepUpLimiter := l;
  stepUpFails := stepUpFails w; mfaAttempts := mfaAttempts w; trail := trail w; jar := jar w |}.
Definition set_fails (f : gmap string stepUpState) (w : world) : world := {|
  udb := udb w; sdb := sdb w; tdb := tdb w; loginLimiter := loginLimiter w; stepUpLimiter := stepUpLimiter w;
  stepUpFails := f; mfaAttempts := mfaAttempts w; trail := trail w; jar := jar w |}.
Definition set_attempts (a : gmap string Z) (w : world) : world := {|
  udb := udb w; sdb := sdb w; tdb := tdb w; loginLimiter := loginLimiter w; stepUpLimiter := stepUpLimiter w;
  stepUpFails := stepUpFails w; mfaAttempts := a; trail := trail w; jar := jar w |}.
Definition add_event (e : Event) (w : world) : world := {|
  udb := udb w; sdb := sdb w; tdb := tdb w; loginLimiter := loginLimiter w; stepUpLimiter := stepUpLimiter w;
  stepUpFails := stepUpFails w; mfaAttempts := mfaAttempts w; trail := trail w ++ [e]; jar := jar w |}.
Definition set_jar (j : list Sessions.Cookie) (w : world) : world := {|
  udb := udb w; sdb := sdb w; tdb := tdb w; loginLimiter := loginLimiter w; stepUpLimiter := stepUpLimiter w;
  stepUpFails := stepUpFails w; mfaAttempts := mfaAttempts w; trail := trail w; jar := j |}.

(** * Handlers *)

Definition M (A : Type) : Type := world → result reply A * world.

#[global] Instance M_ret : MRet M := λ A a w, (Ok a, w).
#[global] Instance M_bind : MBind M := λ A B k m w,
  match m w with
  | (Ok a, w) => k a w
  | (Err r, w) => (Err r, w)
  end.

Definition answer {A} (r : reply) : M A := λ w, (Err r, w).

Definition reading {A} (f : world → A) : M A := λ w, (Ok (f w), w).
Definition users_op {A} (f : Users.DB → A * Users.DB) : M A := λ w, let '(a, d) := f (udb w) in (Ok a, set_udb d w).
Definition sessions_op {A} (f : gmap string Sessions.row → A * gmap string Sessions.row) : M A :=
  λ w, let '(a, t) := f (sdb w) in (Ok a, set_sdb t w).
Definition totp_op {A} (f : Totp.DB → A * Totp.DB) : M A := λ w, let '(a, d) := f (tdb w) in (Ok a, set_tdb d w).
Definition cookie_op (c : Sessions.Cookie) : M unit := λ w, (Ok tt, set_jar (jar w ++ [c]) w).

Definition handler : Type := option Principal → M reply.

(** * API tokens *)

Definition TokenPrefix : string := "zapi_".

Definition readOnly : list string := ["GET"].
Definition readWrite : list string := ["GET"; "POST"; "PUT"; "PATCH"; "DELETE"].

Definition tokenRoutes : list (string * list string) := [
  ("/api/v1/auth/me", readOnly);
  ("/api/v1/groups", readWrite);
  ("/api/v1/groups/", readWrite);
  ("/api/v1/targets", readWrite);
  ("/api/v1/targets/", readWrite);
  ("/api/v1/access-policies", readWrite);
  ("/api/v1/credentials", readOnly);
  ("/api/v1/credentials/", readOnly);
  ("/api/v1/admin/config/export", readOnly);
  ("/api/v1/admin/config/import", ["POST"])].

Definition route_match (path : string) (rt : string * list string) : bool :=
  if HasSuffix rt.1 "/" then Strings.HasPrefix path rt.1 && (String.length rt.1 <? String.length path)%nat
  else bool_decide (path = rt.1).

Definition has_slash (s : string) : bool := existsb (Ascii.eqb "/") (to_bytes s).

Definition TokenAllowed (method path : string) : bool :=
  let method := if bool_decide (method = "HEAD") then "GET" else method in
  match CutPrefix path "/api/v1/access-policies/" with
  | Some rest => if bool_decide (rest = "") || has_slash rest then false else contains readWrite method
  | None =>
      match find (route_match path) tokenRoutes with
      | Some rt => contains rt.2 method
      | None => false
      end
  end.

Definition bearerSecret (rq : request) : string :=
  match CutPrefix (Authorization rq) "Bearer " with
  | Some v => if Strings.HasPrefix v TokenPrefix then Strings.TrimSpace v else ""
  | None => ""
  end.

(** unchecked: the answer when a sign-in cannot be checked right now. *)
Definition unchecked (rq : request) (next : M reply) : M reply :=
  if Strings.HasPrefix (Path rq) "/api/" || Strings.HasPrefix (Path rq) "/ws/"
  then answer (WriteError 503 "unavailable") else next.

(** [http.NotFoundHandler]. *)
Definition NotFound : M reply := answer {| code := 404; body := BFile |}.

Definition bearer (rq : request) (authenticate : string → result TokenErr (string * string)) (next : handler)
    (secret : string) : M reply :=
  match authenticate secret with
  | Err ErrBadToken => answer (WriteError 401 "invalid_token")
  | Err TokenUnavailable => unchecked rq NotFound
  | Ok (uid, tid) =>
      u ← reading (λ w, GetByID uid (udb w));
      match u with
      | Err _ => answer (WriteError 401 "invalid_token")
      | Ok u =>
          if IsBlocked u || negb (HasRole u RoleAdmin) then answer (WriteError 401 "invalid_token")
          else if negb (TokenAllowed (Method rq) (Path rq)) then answer (WriteError 403 "token_scope")
          else next (Some {|
            Session := {| Sessions.ID := "token:" ++ tid; Sessions.UserID := uid; MFAVerified := true; Sessions.IP := "";
              UserAgent := ""; Sessions.CreatedAt := zero_time; ExpiresAt := zero_time; LastSeenAt := zero_time;
              MFAAt := zero_time |};
            User := u; TokenID := tid |})
      end
  end.

(** * The chain *)

(** Authenticate attaches the caller; a cookie that does not resolve is
cleared and the request goes on without one. *)
Definition Authenticate (next : handler) (rq : request) : M reply :=
  match Tokens rq, bearerSecret rq with
  | Some authenticate, String _ _ as secret => bearer rq authenticate next secret
  | _, _ =>
      match cookie rq with
      | None => next None
      | Some c =>
          let anonymous := cookie_op (ClearCookie S0) ≫= λ _, next None in
          s ← sessions_op (Lookup S0 c (now rq));
          match s with
          | Err ErrNoSession => anonymous
          | Err _ => unchecked rq (next None)
          | Ok sess =>
              u ← reading (λ w, GetByID (Sessions.UserID sess) (udb w));
              match u with
              | Err _ => anonymous
              | Ok u => if IsBlocked u then anonymous else next (Some {| Session := sess; User := u; TokenID := "" |})
              end
          end
      end
  end.

Definition RequireAuth (next : Principal → M reply) : handler := λ p,
  match p with
  | None => answer (WriteError 401 "unauthenticated")
  | Some p =>
      if negb (MFAVerified (Session p)) then answer (WriteError 401 "mfa_required")
      else if MustResetOnLogin (User p) then answer (WriteError 401 "password_change_required")
      else next p
  end.

Definition RequirePartialAuth (next : Principal → M reply) : handler := λ p,
  match p with
  | None => answer (WriteError 401 "unauthenticated")
  | Some p => next p
  end.

Definition RequireRole (roles : list string) (next : Principal → M reply) : handler :=
  RequireAuth (λ p, if existsb (HasRole (User p)) roles then next p else answer (WriteError 403 "forbidden")).

Definition RequireConnect (next : Principal → M reply) : handler :=
  RequireAuth (λ p, if CanConnect (User p) then next p else answer (WriteError 403 "review_only")).

Definition sameOrigin (rq : request) : bool :=
  if negb (bool_decide (SecFetchSite rq = "")) then
    bool_decide (SecFetchSite rq = "same-origin") || bool_decide (SecFetchSite rq = "none")
  else if bool_decide (Origin rq = "") then true
  else if SecureCookie S0 && negb (Strings.HasPrefix (Strings.ToLower (Origin rq)) "https://") then false
  else EqualFold (TrimPrefix (TrimPrefix (Origin rq) "https://") "http://") (Host rq).

Definition safe_method (m : string) : bool := contains ["GET"; "HEAD"; "OPTIONS"] m.

Definition CSRF (next : handler) (rq : request) : handler := λ p,
  if safe_method (Method rq) then next p
  else if negb (sameOrigin rq) then answer (WriteError 403 "csrf_invalid")
  else match p with
       | Some pr =>
           if negb (bool_decide (TokenID pr = "")) then next p
           else if CheckCSRF S0 (Sessions.ID (Session pr)) (XCSRFToken rq) then next p
           else answer (WriteError 403 "csrf_invalid")
       | None => next p
       end.

(** * The recorder *)

Definition ActorFor (rq : request) (p : option Principal) : Actor := {|
  UserID := match p with Some p => Users.ID (User p) | None => "" end; IP := ClientIP rq |}.

(** The details of an event recorded for a caller with an API token. *)
Definition withDetail (key : string) (v : detail) (d : list (string * detail)) : list (string * detail) :=
  List.filter (λ kv, negb (bool_decide (kv.1 = key))) d ++ [(key, v)].

Definition Record_ (p : option Principal) (e : Event) : M unit := λ w,
  let e := match p with
           | Some p => if bool_decide (TokenID p = "") then e else
               {| by_ := by_ e; Action := Action e; ObjectID := ObjectID e; outcome := outcome e;
                  Details := withDetail "api_token" (DString (TokenID p)) (Details e) |}
           | None => e
           end in
  (Ok tt, add_event e w).

End auth.

(** * What an API token reaches *)

Lemma substring_all s : String.substring 0 (String.length s) s = s.
Proof. induction s as [|a s IH]; simpl; [done|]. by rewrite IH. Qed.

Lemma substring_drop p s : String.substring (String.length p) (String.length (p +:+ s) - String.length p) (p +:+ s) = s.
Proof.
  induction p as [|a p IH]; [|done]. change (String.length "") with 0%nat. rewrite Nat.sub_0_r. apply substring_all.
Qed.

Lemma length_string_app s t : String.length (s +:+ t) = (String.length s + String.length t)%nat.
Proof. induction s as [|a s IH]; [done|]. change (S (String.length (s +:+ t)) = S (String.length s + String.length t)). by rewrite IH. Qed.

Lemma prefix_app p s : String.prefix p s = true ↔ ∃ r, s = p +:+ r.
Proof.
  revert s. induction p as [|a p IH]; intros s; simpl.
  { split; [|by destruct s]. intros _. by exists s. }
  destruct s as [|b s]; [split; [done|by intros [r [=]]]|].
  change (String.prefix (String a p) (String b s)) with (if ascii_dec a b then String.prefix p s else false).
  destruct (ascii_dec a b) as [<-|Hne].
  - rewrite IH. split; intros [r Hr]; exists r; [by rewrite Hr|by injection Hr].
  - split; [done|]. intros [r Hr]. by injection Hr as <- _.
Qed.

Lemma CutPrefix_Some s p r : CutPrefix s p = Some r ↔ s = p +:+ r.
Proof.
  unfold CutPrefix, Strings.HasPrefix. destruct (String.prefix p s) eqn:E.
  - apply prefix_app in E as [r' ->]. rewrite substring_drop. split; [by intros [= ->]|].
    intros H. f_equal. by apply (inj (String.app p)) in H.
  - split; [done|]. intros ->. assert (String.prefix p (p +:+ r) = true) by (apply prefix_app; eauto). congruence.
Qed.

(** The part of the API a token may call. *)
Inductive Reach : string → string → Prop :=
| reach_me : Reach "GET" "/api/v1/auth/me"
| reach_lists m p : p ∈ ["/api/v1/groups"; "/api/v1/targets"; "/api/v1/access-policies"] → m ∈ readWrite → Reach m p
| reach_items m p r : p ∈ ["/api/v1/groups/"; "/api/v1/targets/"] → r ≠ "" → m ∈ readWrite → Reach m (p +:+ r)
| reach_policy m r : r ≠ "" → has_slash r = false → m ∈ readWrite → Reach m ("/api/v1/access-policies/" +:+ r)
| reach_credentials : Reach "GET" "/api/v1/credentials"
| reach_credential r : r ≠ "" → Reach "GET" ("/api/v1/credentials/" +:+ r)
| reach_export : Reach "GET" "/api/v1/admin/config/export"
| reach_import : Reach "POST" "/api/v1/admin/config/import".

Lemma match_under path pre ms : HasSuffix pre "/" = true →
  route_match path (pre, ms) = true ↔ ∃ r, r ≠ "" ∧ path = pre +:+ r.
Proof.
  intros Hs. unfold route_match. cbn [fst]. rewrite Hs, andb_true_iff. unfold Strings.HasPrefix. rewrite prefix_app, Nat.ltb_lt. split.
  - intros [[r ->] Hl]. exists r. split; [|done]. intros ->. rewrite length_string_app in Hl. simpl in Hl. lia.
  - intros (r & Hr & ->). split; [eauto|]. rewrite length_string_app. destruct r; [done|simpl; lia].
Qed.

Lemma match_exact path pre ms : HasSuffix pre "/" = false → route_match path (pre, ms) = true ↔ path = pre.
Proof. intros Hs. unfold route_match. cbn [fst]. rewrite Hs. by rewrite bool_decide_eq_true. Qed.

Lemma TokenAllowed_Reach (m p : string) : TokenAllowed m p = true ↔ Reach (if bool_decide (m = "HEAD") then "GET" else m) p.
Proof.
  unfold TokenAllowed. generalize (if bool_decide (m = "HEAD") then "GET" else m). clear m. intros m. split.
  - destruct (CutPrefix p _) as [r|] eqn:E.
    + apply CutPrefix_Some in E as ->. destruct (bool_decide (r = "") || has_slash r) eqn:Er; [done|].
      apply orb_false_iff in Er as [Er Es]. apply bool_decide_eq_false in Er. rewrite contains_spec. by constructor.
    + destruct (find _ _) as [rt|] eqn:Hf; [|done]. apply find_some in Hf as [Hin Hm]. rewrite contains_spec. intros Hms.
      simpl in Hin. repeat destruct Hin as [<-|Hin]; try done; cbn [snd] in Hms;
        first [apply match_exact in Hm as ->; [|done] | apply match_under in Hm as (r & Hr & ->); [|done]];
        first [by eapply reach_lists; [apply (bool_decide_eq_true_1 _); by vm_compute|]
              |by eapply reach_items; [apply (bool_decide_eq_true_1 _); by vm_compute| |]
              |apply list_elem_of_singleton in Hms as ->; by constructor].
  - intros H. destruct H as [|m p Hp Hm|m p r Hp Hr Hm|m r Hr Hs Hm| |r Hr| |]; try done.
    + assert (contains readWrite m = true) as Hc by by apply contains_spec. 
      repeat (apply elem_of_cons in Hp as [->|Hp]); try (by apply not_elem_of_nil in Hp); exact Hc.
    + assert (contains readWrite m = true) as Hc by by apply contains_spec. destruct r as [|a r]; [done|].
      repeat (apply elem_of_cons in Hp as [->|Hp]); try (by apply not_elem_of_nil in Hp); exact Hc.
    + rewrite (proj2 (CutPrefix_Some _ _ r)) by done. rewrite (bool_decide_eq_false_2 (r = "")), Hs by done. by apply contains_spec.
    + by destruct r.
Qed.

Section tokens.
Context `{FO : Floats} (S0 : Sessions.Sessions).

(** The token [secret] stands for its owner on the request [rq]. *)
Record Stands (rq : request) (authenticate : string → result TokenErr (string * string)) (w : world)
    (uid tid : string) (u : Users.User) : Prop := {
  stands_token : authenticate (bearerSecret rq) = Ok (uid, tid);
  stands_owner : GetByID uid (udb w) = Ok u;
  stands_active : IsBlocked u = false;
  stands_admin : RoleAdmin ∈ Roles u;
  stands_reach : Reach (if bool_decide (Method rq = "HEAD") then "GET" else Method rq) (Path rq);
}.

(** An API token is exactly as much as it is meant to be.  A request that
carries one is served as the token's owner when, and only when, the token
stands, its owner is an unblocked administrator and the route is one of the
configuration API's; the caller it is served as is verified but never freshly
proved, under a session id no browser session has.  In every other case it is
refused with an error and nothing is run or changed, whatever cookie it also
carries. *)
Theorem token_reach rq authenticate (next : handler) w :
  Tokens rq = Some authenticate → bearerSecret rq ≠ "" →
  (∀ uid tid u, Stands rq authenticate w uid tid u → ∃ p,
     Authenticate S0 next rq w = next (Some p) w ∧ User p = u ∧ TokenID p = tid ∧ MFAVerified (Session p) = true ∧
     StepUpFresh (now rq) (Some p) = false ∧ Strings.HasPrefix (Sessions.ID (Session p)) "token:" = true) ∧
  ((¬ ∃ uid tid u, Stands rq authenticate w uid tid u) →
     ∃ r, Authenticate S0 next rq w = (Err r, w) ∧ 400 ≤ code r).
Proof.
  intros Ht Hs. assert (Authenticate S0 next rq = bearer rq authenticate next (bearerSecret rq)) as ->.
  { unfold Authenticate. rewrite Ht. by destruct (bearerSecret rq). }
  unfold bearer, mbind, M_bind, reading. split.
  - intros uid tid u [-> -> Hb Ha Hr]. rewrite Hb. apply contains_spec in Ha. unfold HasRole. rewrite Ha. cbn [negb orb].
    apply TokenAllowed_Reach in Hr. rewrite Hr. eexists. split_and!; [done|done|done|done|done|].
    apply prefix_app. by exists tid.
  - intros Hn. destruct (authenticate (bearerSecret rq)) as [[uid tid]|[]] eqn:Ea.
    + destruct (GetByID uid (udb w)) as [u|e] eqn:Eu; [|by eexists].
      destruct (IsBlocked u || negb (HasRole u RoleAdmin)) eqn:Eb; [by eexists|].
      destruct (TokenAllowed (Method rq) (Path rq)) eqn:Er; [|by eexists].
      exfalso. apply Hn. exists uid, tid, u. bool_simpl. split; [done..| |by apply TokenAllowed_Reach]. by apply contains_spec.
    + by eexists.
    + unfold unchecked. destruct (_ || _); by eexists.
Qed.
End tokens.

Definition demo_sessions : Sessions.Sessions := NewSessions (to_bytes "csrf key of the demo") true.

(** A deployment with one administrator, ada. *)
Definition demo_users : Users.DB :=
  (Create "u-ada" 0 (person "ada" [RoleAdmin]) {| users := ∅; groups := ∅; group_members := ∅ |}).2.

Definition demo_world : world (FO := exact) := {|
  udb := demo_users; sdb := ∅; tdb := {| mfa_totp := ∅; mfa_recovery_codes := [] |};
  loginLimiter := newIPLimiter 20 10 0; stepUpLimiter := newIPLimiter 10 5 0;
  stepUpFails := ∅; mfaAttempts := ∅; trail := []; jar := [] |}.

Definition token_request : request := {|
  Method := "GET"; Path := "/api/v1/groups"; cookie := Some "stale"; Authorization := "Bearer zapi_secret";
  SecFetchSite := ""; Origin := ""; Host := "gw"; XCSRFToken := ""; ClientIP := "10.0.0.9"; Agent := "curl"; now := 5;
  Tokens := Some (λ s, if bool_decide (s = "zapi_secret") then Ok ("u-ada", "t1") else Err ErrBadToken) |}.

Lemma token_reach_witness : ∃ p,
  Authenticate demo_sessions (λ _, mret (WriteJSON BFile)) token_request demo_world = (Ok (WriteJSON BFile), demo_world) ∧ TokenID p = "t1".
Proof.
  destruct (token_reach demo_sessions token_request
    (λ s, if bool_decide (s = "zapi_secret") then Ok ("u-ada", "t1") else Err ErrBadToken)
    (λ _, mret (WriteJSON BFile)) demo_world) as [H _]; [done|by vm_compute|].
  destruct (H "u-ada" "t1" (normal "u-ada" 0 (person "ada" [RoleAdmin]))) as (p & Hp & _ & Ht & _).
  { split; [by vm_compute..| |]; [by apply contains_spec|]. apply TokenAllowed_Reach. by vm_compute. }
  exists p. by split.
Defined.
