(* ===== verification/SignIn.v ===== *)
(** Signing in: src/internal/auth/handlers.go.

Each handler is a [Definition] over the [world] of Middleware.v.  [env] is what
one request brings besides its headers: the draws of the random generator,
the ids of new rows, whether a hashing slot comes free, whether a second
factor is required just now, what the directory answers and where a provider
signs out.  Argon2id, the one-time codes of RFC 6238, the key ring and the
key an address counts under are parameters. *)
From S2P Require Import Prelude GoText Sha256 Keyring Limiter Sessions Totp Users Password Middleware.
Local Open Scope Z_scope.

(** What the directory answers to a name and password. *)
Inductive ExternalErr := ErrNoExternalIdentity | ExternalUnavailable.

Record loginRequest := { req_username : string; req_password : string }.
Record passwordRequest := { CurrentPassword : string; NewPassword : string }.

Record env := {
  rq : request;
  new_session : string;
  token_bytes : option bytes;
  rotate_bytes : option bytes;
  salt_bytes : option bytes;
  slot : bool;
  slot2 : bool;
  RequireMFA : bool;
  (** [None] without a directory; the account it resolves is provisioned first. *)
  External : option (Users.DB → result ExternalErr Users.User * Users.DB);
  totp_key : option (string * string);
  totp_nonce : option bytes;
  code_bytes : list (option bytes);
  code_ids : list string;
  ProviderLogout : option string;
  TimeZone : option string;
}.

Inductive codeVerdict := codeRight | codeWrong | codeLocking | codeLocked.

#[export] Instance codeVerdict_eq_dec : EqDecision codeVerdict.
Proof. solve_decision. Defined.

Inductive codeErr := NoUser (e : Users.Error) | Other (e : Totp.Error).

Definition recentSignIn : duration := 5 * Minute.

Definition usernameHash (username : string) : string :=
  Hex.EncodeToString (take 8 (Sha.Sum256 (to_bytes (Strings.ToLower (Strings.TrimSpace username))))).

(** The settings of the handler. *)
Record Handler := {
  MaxFailures : Z;
  LockFor : duration;
  MFAAttempts : Z;
}.

Definition NewHandler : Handler := {| MaxFailures := 5; LockFor := 15 * Minute; MFAAttempts := 5 |}.

(** * Which sessions a statement verifies *)

(** No session of [t'] is verified that is not in [t], but [i]. *)
Definition raised (i : option string) (t t' : gmap string Sessions.row) : Prop :=
  ∀ j r', t' !! j = Some r' → mfa_verified r' = true → Some j = i ∨ ∃ r, t !! j = Some r ∧ mfa_verified r = true.

Lemma raised_refl i t : raised i t t.
Proof. intros j r' Hj Hm. right. eauto. Qed.

Lemma raised_trans i t t' t'' : raised i t t' → raised i t' t'' → raised i t t''.
Proof.
  intros H1 H2 j r' Hj Hm. destruct (H2 j r' Hj Hm) as [->|(r & Hr & Hv)]; [by left|]. by apply (H1 j r).
Qed.

Lemma raised_none i t t' : raised None t t' → raised i t t'.
Proof. intros H j r' Hj Hm. destruct (H j r' Hj Hm) as [?|?]; [done|by right]. Qed.

(** A statement that keeps [mfa_verified], row by row. *)
Lemma raised_rows i (t t' : gmap string Sessions.row) : (∀ j r', t' !! j = Some r' → ∃ r, t !! j = Some r ∧ mfa_verified r' = mfa_verified r) → raised i t t'.
Proof. intros H j r' Hj Hm. destruct (H j r' Hj) as (r & Hr & Hv). right. exists r. split; [done|congruence]. Qed.

Lemma raised_revoke_where i cond now t : raised i t (revoke_where cond now t).1.
Proof.
  apply raised_rows. intros j r'. rewrite revoke_where_lookup.
  destruct (t !! j) as [r|]; [|done]. intros [= <-]. exists r. split; [done|]. by destruct (_ && _).
Qed.

Lemma raised_Revoke i now sid t : raised i t (Revoke now sid t).
Proof. apply raised_revoke_where. Qed.

Lemma raised_Lookup S0 i tok now t : raised i t (Lookup S0 tok now t).2.
Proof.
  unfold Lookup. destruct (bool_decide _); [apply raised_refl|]. destruct (by_hash _ t) as [[j r]|] eqn:E; [|apply raised_refl].
  apply by_hash_Some in E as [Hr _]. destruct (dead _ _ _); [apply raised_refl|]. destruct (_ <? _); [|apply raised_refl].
  apply raised_rows. intros k r'. cbn. rewrite lookup_insert_Some. intros [[<- <-]|[_ Hk]]; eauto.
Qed.

Lemma raised_Rotate i raw sid t : raised i t (Rotate raw sid t).2.
Proof.
  unfold Rotate. destruct raw as [raw|]; [|apply raised_refl]. destruct (t !! sid) as [r|] eqn:E; [|apply raised_refl].
  destruct (is_Some_b _); [apply raised_refl|]. destruct (by_hash _ _); [apply raised_refl|].
  apply raised_rows. intros k r'. cbn. rewrite lookup_insert_Some. intros [[<- <-]|[_ Hk]]; eauto.
Qed.

Lemma raised_alter f sid (t : gmap string Sessions.row) : raised (Some sid) t (alter f sid t).
Proof.
  intros j r' Hj Hm. destruct (decide (j = sid)) as [->|Hne]; [by left|]. rewrite lookup_alter_ne in Hj by done. right. eauto.
Qed.

Lemma raised_Create S0 raw id now u ip ua (m : bool) t :
  raised (if m then Some id else None) t (Sessions.Create S0 raw id now u ip ua m t).2.
Proof.
  unfold Sessions.Create. destruct raw as [raw|]; [|apply raised_refl]. destruct (t !! id) eqn:E; [apply raised_refl|].
  destruct (by_hash _ _); [apply raised_refl|]. intros j r'. cbn [snd]. rewrite lookup_insert_Some.
  intros [[<- <-]|[_ Hj]] Hm; [|right; eauto]. cbn in Hm. subst m. by left.
Qed.

Create HintDb raised.
#[export] Hint Resolve raised_refl raised_revoke_where raised_Revoke raised_Lookup raised_Rotate raised_alter : raised.

Section handlers.
Context `{FO : Floats} (S0 : Sessions.Sessions) (H0 : Handler).
Context (IDKey : bytes → bytes → N → N → N → N → bytes).
Context (GenerateCodeCustom : string → Z → option string) (ring : KeyRing).
Context (limiterKey : string → string) (DurationString : duration → string).

Definition event (a : Actor) (action object : string) (o : Outcome) (d : list (string * detail)) : Event :=
  {| by_ := a; Action := action; ObjectID := object; outcome := o; Details := d |}.

(** * The handler's own counters *)

Definition mfaFailure (sessionID : string) : M bool := λ w,
  let n := default 0 (mfaAttempts w !! sessionID) + 1 in
  if MFAAttempts H0 <=? n then (Ok true, set_attempts (delete sessionID (mfaAttempts w)) w)
  else (Ok false, set_attempts (<[sessionID := n]> (mfaAttempts w)) w).

Definition mfaClear (sessionID : string) : M unit := λ w,
  (Ok tt, set_attempts (delete sessionID (mfaAttempts w)) w).

Definition stepUpClosed (sessionID : string) (now : time) : M bool := λ w,
  match stepUpFails w !! sessionID with
  | None => (Ok false, w)
  | Some st =>
      if bool_decide (closedUntil st = zero_time) then (Ok false, w)
      else if Before now (closedUntil st) then (Ok true, w)
      else (Ok false, set_fails (delete sessionID (stepUpFails w)) w)
  end.

(** The entries whose closure is over are dropped when the map is large. *)
Definition drop_stale (now : time) (m : gmap string stepUpState) : gmap string stepUpState :=
  if maxLimiterKeys <? Z.of_nat (size m)
  then filter (λ kv, bool_decide (closedUntil kv.2 = zero_time) || Before now (closedUntil kv.2) = true) m else m.

Definition stepUpFailed (sessionID : string) (now : time) : M bool := λ w,
  let m := drop_stale now (stepUpFails w) in
  let st := default {| fails := 0; closedUntil := zero_time |} (m !! sessionID) in
  let n := fails st + 1 in
  if MFAAttempts H0 <=? n
  then (Ok true, set_fails (<[sessionID := {| fails := 0; closedUntil := now + LockFor H0 |}]> m) w)
  else (Ok false, set_fails (<[sessionID := {| fails := n; closedUntil := closedUntil st |}]> m) w).

Definition stepUpSucceeded (sessionID : string) : M unit := λ w,
  (Ok tt, set_fails (delete sessionID (stepUpFails w)) w).

(** * Shared steps *)

Definition take_login (now : time) (key : string) : M (bool * bool) := λ w,
  let '(a, l) := Take now (limiterKey key) (loginLimiter w) in (Ok a, set_login l w).

Definition take_step_up (now : time) (key : string) : M (bool * bool) := λ w,
  let '(a, l) := Take now (limiterKey key) (stepUpLimiter w) in (Ok a, set_step l w).

(** A hashing slot comes free, or the request is answered busy. *)
Definition hashing (free : bool) : M unit := if free then mret tt else answer (WriteError 503 "busy").

Definition RecordFailure (now : time) (userID : string) : M bool :=
  r ← users_op (RecordLoginFailure now userID (MaxFailures H0) (LockFor H0));
  mret (match r with Ok locked => locked | Err _ => false end).

Definition locked_for (locked : bool) : list (string * detail) :=
  if locked then [("locked_for", DString (DurationString (LockFor H0)))] else [].

(** ReplaceSession ends the session the request arrived with. *)
Definition ReplaceSession (e : env) (p : option Principal) : M unit :=
  match p with
  | None => mret tt
  | Some pr =>
      _ ← sessions_op (λ t, (tt, Revoke (now (rq e)) (Sessions.ID (Session pr)) t));
      Record_ p (event (ActorFor (rq e) p) UserLogout (Users.ID (User pr)) Success
        [("session_id", DString (Sessions.ID (Session pr))); ("reason", DString "replaced")])
  end.

Definition rotate (e : env) (sid : string) : M unit :=
  r ← sessions_op (Rotate (rotate_bytes e) sid);
  match r with
  | Ok token => cookie_op (SetCookie S0 token)
  | Err _ => answer Internal
  end.

(** endSignIn ends a half-finished sign-in. *)
Definition endSignIn (e : env) (sid : string) : M unit :=
  _ ← mfaClear sid;
  _ ← sessions_op (λ t, (tt, Revoke (now (rq e)) sid t));
  cookie_op (ClearCookie S0).

(** * login *)

Definition completeLogin (e : env) (p : option Principal) (u : Users.User) (actor : Actor) : M reply :=
  let id := Users.ID u in
  let must := MustResetOnLogin u in
  _ ← ReplaceSession e p;
  enrolled ← reading (λ w, Enrolled id (tdb w));
  let full := (enrolled || negb (RequireMFA e)) && negb must in
  let complete := full && negb enrolled in
  _ ← (if complete then users_op (λ d, (tt, RecordLoginSuccess (now (rq e)) id d)) else mret tt);
  r ← sessions_op (Sessions.Create S0 (token_bytes e) (new_session e) (now (rq e)) id (ClientIP (rq e)) (Agent (rq e)) complete);
  match r with
  | Err _ => answer Internal
  | Ok (token, sess) =>
      let sid := Sessions.ID sess in
      let log d := Record_ p (event actor UserLogin id Success (d ++ [("session_id", DString sid)])) in
      let reply_ st u := mret (WriteJSON (BLogin st u (CSRFToken S0 sid))) in
      _ ← cookie_op (SetCookie S0 token);
      if negb enrolled && must then
        _ ← log [("stage", DString "password"); ("next", DString "password_change")];
        reply_ "password_change_required" None
      else if negb enrolled && RequireMFA e then
        _ ← log [("stage", DString "password"); ("next", DString "mfa_enrollment")];
        reply_ "mfa_enrollment_required" None
      else if enrolled then
        _ ← log [("stage", DString "password")];
        reply_ "mfa_required" None
      else
        _ ← log [("stage", DString "complete"); ("mfa", DString "none")];
        reply_ "ok" (Some u)
  end.

Definition invalid : reply := WriteError 401 "invalid_credentials".

Definition login (e : env) (p : option Principal) (req : option loginRequest) : M reply :=
  let now := now (rq e) in
  let anon := {| UserID := ""; IP := ClientIP (rq e) |} in
  let record a obj d := Record_ p (event a UserLogin obj Failure d) in
  '(ok, first) ← take_login now (ClientIP (rq e));
  if negb ok then
    _ ← (if (first : bool) then record anon "" [("reason", DString "rate_limited")] else mret tt);
    answer (WriteError 429 "rate_limited")
  else
  match req with
  | None => answer (WriteError 400 "bad_request")
  | Some req =>
      let name := Strings.TrimSpace (req_username req) in
      let pw := req_password req in
      if bool_decide (name = "") || bool_decide (pw = "") || (MaxPasswordLen <? String.length pw)%nat
      then answer (WriteError 400 "bad_request") else
      u ← reading (λ w, GetByUsername name (udb w));
      match u with
      | Err _ =>
          ext ← (match External e with
                 | None => mret (Err ErrNoExternalIdentity)
                 | Some f => users_op f
                 end);
          match ext with
          | Ok eu => completeLogin e p eu {| UserID := Users.ID eu; IP := ClientIP (rq e) |}
          | Err _ =>
              _ ← hashing (slot e);
              _ ← record anon "" [("reason", DString "unknown_user"); ("username_hash", DString (usernameHash name))];
              answer invalid
          end
      | Ok u =>
          let actor := {| UserID := Users.ID u; IP := ClientIP (rq e) |} in
          let refuse d := (_ ← record actor (Users.ID u) d; answer invalid) in
          let refuse_locked := (_ ← hashing (slot e); refuse [("reason", DString "locked")]) in
          if negb (bool_decide (PasswordHash u = "")) then
            if IsLocked u now then refuse_locked else
            _ ← hashing (slot e);
            if negb (VerifyPassword IDKey (PasswordHash u) pw) then
              locked ← RecordFailure now (Users.ID u);
              refuse (("reason", DString "bad_password") :: locked_for locked)
            else
              _ ← (if NeedsRehash (PasswordHash u) then
                     match HashPassword IDKey (salt_bytes e) pw with
                     | Ok nh => _ ← users_op (SetPasswordHash now (Users.ID u) nh (MustResetOnLogin u)); mret tt
                     | Err _ => mret tt
                     end
                   else mret tt);
              completeLogin e p u actor
          else
            match External e with
            | Some f =>
                if IsLocked u now then refuse_locked else
                ext ← users_op f;
                match ext with
                | Ok eu => completeLogin e p eu {| UserID := Users.ID eu; IP := ClientIP (rq e) |}
                | Err ErrNoExternalIdentity =>
                    locked ← RecordFailure now (Users.ID u);
                    refuse (("reason", DString "external_bad_credentials") :: locked_for locked)
                | Err ExternalUnavailable => refuse [("reason", DString "directory_unavailable")]
                end
            | None =>
                _ ← hashing (slot e);
                refuse [("reason", DString "no_password_no_external")]
            end
      end
  end.

(** * The password *)

(** currentPassword checks the password given again, and answers if it is wrong. *)
Definition currentPassword (e : env) (p : Principal) (password action : string) : M unit :=
  let u := User p in
  let record d := Record_ (Some p) (event (ActorFor (rq e) (Some p)) action (Users.ID u) Failure d) in
  if IsLocked u (now (rq e)) then
    _ ← record [("reason", DString "locked")];
    answer (WriteError 429 "too_many_attempts")
  else if bool_decide (PasswordHash u = "") then
    _ ← record [("reason", DString "current_mismatch")];
    answer invalid
  else
    _ ← hashing (slot e);
    if VerifyPassword IDKey (PasswordHash u) password then mret tt else
    locked ← RecordFailure (now (rq e)) (Users.ID u);
    _ ← record (("reason", DString "current_mismatch") :: locked_for locked);
    answer invalid.

Definition without_owed (u : Users.User) : Users.User := {|
  Users.ID := Users.ID u; Username := Username u; Email := Email u; DisplayName := DisplayName u; Status_ := Status_ u;
  Roles := Roles u; IdPID := IdPID u; ExternalID := ExternalID u; FailedLogins := FailedLogins u;
  LockedUntil := LockedUntil u; Users.CreatedAt := Users.CreatedAt u; UpdatedAt := UpdatedAt u; LastLoginAt := LastLoginAt u;
  MustResetOnLogin := false; DirectoryRemovedAt := DirectoryRemovedAt u; SCIMExternalID := SCIMExternalID u;
  SCIMDeletedAt := SCIMDeletedAt u; PasswordHash := PasswordHash u |}.

Definition changePassword (e : env) (req : option passwordRequest) (p : Principal) : M reply :=
  let now := now (rq e) in
  let u := User p in
  let id := Users.ID u in
  let sid := Sessions.ID (Session p) in
  match req with
  | None => answer (WriteError 400 "bad_request")
  | Some req =>
      _ ← (if MFAVerified (Session p) then mret tt else
             enrolled ← reading (λ w, Enrolled id (tdb w));
             if enrolled || negb (MustResetOnLogin u) then answer (WriteError 401 "mfa_required") else mret tt);
      _ ← currentPassword e p (CurrentPassword req) UserPasswordChange;
      if bool_decide (NewPassword req = CurrentPassword req) then answer (WriteError 400 "bad_request") else
      match CheckPasswordPolicy (NewPassword req) with
      | Err _ => answer (WriteError 400 "bad_request")
      | Ok _ =>
          _ ← hashing (slot2 e);
          match HashPassword IDKey (salt_bytes e) (NewPassword req) with
          | Err _ => answer Internal
          | Ok hash =>
              set ← users_op (SetPasswordHash now id hash false);
              match set with
              | Err _ => answer Internal
              | Ok _ =>
                  others ← sessions_op (λ t, prod_swap (RevokeOthersForUser now id sid t));
                  _ ← Record_ (Some p) (event (ActorFor (rq e) (Some p)) UserPasswordChange id Success
                        [("session_id", DString sid); ("was_required", DBool (MustResetOnLogin u));
                         ("other_sessions_revoked", DInt (Z.of_nat others))]);
                  let ok := mret (WriteJSON (BLogin "ok" (Some (without_owed u)) (CSRFToken S0 sid))) in
                  if MFAVerified (Session p) then
                    _ ← (if MustResetOnLogin u then rotate e sid else mret tt);
                    ok
                  else
                    enrolled ← reading (λ w, Enrolled id (tdb w));
                    if (enrolled : bool) then mret (WriteJSON (BLogin "mfa_required" None (CSRFToken S0 sid)))
                    else if RequireMFA e then mret (WriteJSON (BLogin "mfa_enrollment_required" None (CSRFToken S0 sid)))
                    else
                      _ ← users_op (λ d, (tt, RecordLoginSuccess now id d));
                      _ ← sessions_op (λ t, (tt, MarkMFAVerified sid t));
                      _ ← rotate e sid;
                      ok
              end
          end
      end
  end.

(** * logout and me *)

Definition logout (e : env) (p : Principal) : M reply :=
  let sid := Sessions.ID (Session p) in
  let to := match ProviderLogout e with Some s => if bool_decide (s = "") then None else Some s | None => None end in
  _ ← sessions_op (λ t, (tt, Revoke (now (rq e)) sid t));
  _ ← cookie_op (ClearCookie S0);
  _ ← Record_ (Some p) (event (ActorFor (rq e) (Some p)) UserLogout (Users.ID (User p)) Success
        (("session_id", DString sid) :: (if to is Some _ then [("provider_sign_out", DString "true")] else [])));
  mret (WriteJSON (BOut to)).

Definition me (e : env) (p : Principal) : M reply :=
  let s := Session p in
  let u := User p in
  enrolled ← reading (λ w, Enrolled (Users.ID u) (tdb w));
  if negb (MFAVerified s) || MustResetOnLogin u then
    let pending := if MFAVerified s || negb enrolled && MustResetOnLogin u then "password"
                   else if negb enrolled then "enroll" else "verify" in
    mret (WriteJSON (BPending pending enrolled (CSRFToken S0 (Sessions.ID s))))
  else mret (WriteJSON (BProfile u (CSRFToken S0 (Sessions.ID s)) enrolled (Sessions.ID s) (Sessions.CreatedAt s) (ExpiresAt s) (TimeZone e))).

(** * The second factor *)

(** passwordChangeOwed: the change comes before the second-factor steps. *)
Definition passwordChangeOwed (p : Principal) : M unit :=
  if MustResetOnLogin (User p) then answer (WriteError 409 "password_change_required") else mret tt.

(** checkCode compares one code through [check] and keeps the account's
failure count.  It returns the verdict, and what the check answered. *)
Definition checkCode {A} (now : time) (userID : string) (signIn : bool)
    (check : Totp.DB → result Totp.Error A * Totp.DB) (wrong : Totp.Error → bool)
    : M (result codeErr codeVerdict * option (result Totp.Error A)) :=
  let compare : M (result codeErr codeVerdict * option (result Totp.Error A)) :=
    r ← totp_op check;
    match r with
    | Err err =>
        if negb (wrong err) then mret (Err (Other err), Some r) else
        locked ← RecordFailure now userID;
        mret (Ok (if (locked : bool) then codeLocking else codeWrong), Some r)
    | Ok _ =>
        _ ← (if signIn then users_op (λ d, (tt, RecordLoginSuccess now userID d)) else mret tt);
        mret (Ok codeRight, Some r)
    end in
  if signIn then
    u ← reading (λ w, GetByID userID (udb w));
    match u with
    | Err err => mret (Err (NoUser err), None)
    | Ok u => if IsLocked u now then mret (Ok codeLocked, None) else compare
    end
  else compare.

(** [ErrTOTPReused] wraps [ErrTOTPBadCode]. *)
Definition bad_code (err : Totp.Error) : bool :=
  match err with ErrTOTPBadCode | ErrTOTPReused => true | _ => false end.

Definition bad_code_or_none (err : Totp.Error) : bool :=
  bad_code err || match err with ErrTOTPNotEnrolled => true | _ => false end.

Definition totpVerify (e : env) (req : option string) (p : Principal) : M reply :=
  let now := now (rq e) in
  let id := Users.ID (User p) in
  let sid := Sessions.ID (Session p) in
  let record := Record_ (Some p) in
  let ok := mret (WriteJSON (BLogin "ok" (Some (User p)) (CSRFToken S0 sid))) in
  if MFAVerified (Session p) then ok else
  match req with
  | None => answer (WriteError 400 "bad_request")
  | Some code =>
      '(verdict, got) ← checkCode now id true (Verify GenerateCodeCustom ring now id code) bad_code_or_none;
      match verdict with
      | Err _ => answer Internal
      | Ok codeRight =>
          _ ← mfaClear sid;
          _ ← sessions_op (λ t, (tt, MarkMFAProved now sid t));
          _ ← rotate e sid;
          let method := match got with Some (Ok true) => "recovery_code" | _ => "totp" end in
          _ ← record (event (ActorFor (rq e) (Some p)) UserLogin id Success
                [("stage", DString "complete"); ("mfa", DString method); ("session_id", DString sid)]);
          ok
      | Ok v =>
          let reason := match v, got with
                        | codeLocked, _ => "locked"
                        | _, Some (Err ErrTOTPReused) => "code_reused"
                        | _, _ => "bad_code"
                        end in
          ended ← (match v with codeWrong => mfaFailure sid | _ => mret true end);
          _ ← (if (ended : bool) then endSignIn e sid else mret tt);
          _ ← record (event (ActorFor (rq e) (Some p)) UserMFAVerify id Failure
                ([("reason", DString reason); ("session_id", DString sid)] ++ locked_for (bool_decide (v = codeLocking))
                 ++ (if (ended : bool) then [("session_ended", DBool true)] else [])));
          if (ended : bool) then answer (WriteError 401 "sign_in_ended") else answer (WriteError 401 "invalid_code")
      end
  end.

(** [req] is [None] for a body that does not parse; an empty one asks for nothing. *)
Definition totpEnroll (e : env) (req : option string) (p : Principal) : M reply :=
  let now := now (rq e) in
  let u := User p in
  let id := Users.ID u in
  let record o d := Record_ (Some p) (event (ActorFor (rq e) (Some p)) UserMFAEnroll id o d) in
  _ ← passwordChangeOwed p;
  _ ← (if MFAVerified (Session p) then
         enrolled ← reading (λ w, Enrolled id (tdb w));
         if (enrolled : bool) then answer (WriteError 409 "already_enrolled")
         else if bool_decide (PasswordHash u = "") then
           if recentSignIn <? Sub now (Sessions.CreatedAt (Session p)) then
             _ ← record Failure [("reason", DString "reauth_required")];
             answer (WriteError 401 "reauth_required")
           else mret tt
         else
           match req with
           | None => answer (WriteError 400 "bad_request")
           | Some current =>
               if bool_decide (current = "") then answer (WriteError 401 "password_required")
               else currentPassword e p current UserMFAEnroll
           end
       else mret tt);
  enr ← totp_op (Enroll ring (totp_key e) (totp_nonce e) now id);
  match enr with
  | Err ErrTOTPAlreadyEnrolled => answer (WriteError 409 "already_enrolled")
  | Err _ => answer Internal
  | Ok enr =>
      _ ← record Success [];
      mret (WriteJSON (BEnrollment enr))
  end.

Definition totpConfirm (e : env) (req : option string) (p : Principal) : M reply :=
  let now := now (rq e) in
  let id := Users.ID (User p) in
  let sid := Sessions.ID (Session p) in
  let signIn := negb (MFAVerified (Session p)) in
  let record o d := Record_ (Some p) (event (ActorFor (rq e) (Some p)) UserMFAConfirm id o d) in
  _ ← passwordChangeOwed p;
  match req with
  | None => answer (WriteError 400 "bad_request")
  | Some code =>
      '(verdict, got) ← checkCode now id signIn
        (Confirm GenerateCodeCustom ring (code_bytes e) (code_ids e) now id (Strings.TrimSpace code)) bad_code;
      match verdict with
      | Err (Other ErrTOTPNotEnrolled) => answer (WriteError 409 "not_enrolled")
      | Err (Other ErrTOTPAlreadyEnrolled) => answer (WriteError 409 "already_enrolled")
      | Err _ => answer Internal
      | Ok codeRight =>
          let codes := match got with Some (Ok codes) => codes | _ => [] end in
          _ ← sessions_op (λ t, (tt, MarkMFAProved now sid t));
          details ← (if signIn then _ ← rotate e sid; mret []
                     else
                       others ← sessions_op (λ t, prod_swap (RevokeOthersForUser now id sid t));
                       mret [("other_sessions_revoked", DInt (Z.of_nat others))]);
          _ ← record Success details;
          mret (WriteJSON (BCodes codes (CSRFToken S0 sid)))
      | Ok v =>
          let details := ("reason", DString (if bool_decide (v = codeLocked) then "locked" else "bad_code"))
                         :: locked_for (bool_decide (v = codeLocking)) in
          if signIn && negb (bool_decide (v = codeWrong)) then
            _ ← endSignIn e sid;
            _ ← record Failure (details ++ [("session_ended", DBool true)]);
            answer (WriteError 401 "sign_in_ended")
          else
            _ ← record Failure details;
            answer (WriteError 401 "invalid_code")
      end
  end.

(** stepUp proves the authenticator again on a full session. *)
Definition stepUp (e : env) (req : option string) (p : Principal) : M reply :=
  let now := now (rq e) in
  let id := Users.ID (User p) in
  let sid := Sessions.ID (Session p) in
  let record o d := Record_ (Some p) (event {| UserID := id; IP := ClientIP (rq e) |} UserMFAVerify id o
                                       (("purpose", DString "step_up") :: d)) in
  closed ← stepUpClosed sid now;
  if (closed : bool) then answer (WriteError 429 "step_up_closed") else
  '(ok, first) ← take_step_up now sid;
  if negb ok then
    _ ← (if (first : bool) then record Failure [("reason", DString "rate_limited")] else mret tt);
    answer (WriteError 429 "rate_limited")
  else
  match req with
  | None => answer (WriteError 400 "bad_request")
  | Some code =>
      r ← totp_op (Verify GenerateCodeCustom ring now id code);
      match r with
      | Err err =>
          if match err with ErrTOTPNotEnrolled => true | _ => false end then answer (WriteError 409 "mfa_not_enrolled")
          else if bad_code err then
            let reason := match err with ErrTOTPReused => "code already used" | _ => "wrong code" end in
            closed ← stepUpFailed sid now;
            _ ← record Failure [("reason", DString reason); ("closed", DBool closed)];
            if (closed : bool) then answer (WriteError 429 "step_up_closed") else answer (WriteError 422 "bad_code")
          else answer Internal
      | Ok recovery =>
          _ ← sessions_op (λ t, (tt, MarkMFAProved now sid t));
          _ ← stepUpSucceeded sid;
          _ ← record Success [("recovery_code_used", DBool recovery)];
          mret (WriteJSON BProved)
      end
  end.

(** * The routes *)

Inductive call :=
| CLogin (req : option loginRequest)
| CLogout
| CMe
| CPassword (req : option passwordRequest)
| CVerify (code : option string)
| CStepUp (code : option string)
| CEnroll (current : option string)
| CConfirm (code : option string).

(** Register: the handler of a route, behind its guard. *)
Definition route (e : env) (c : call) : handler :=
  match c with
  | CLogin req => λ p, login e p req
  | CLogout => RequirePartialAuth (logout e)
  | CMe => RequirePartialAuth (me e)
  | CPassword req => RequirePartialAuth (changePassword e req)
  | CVerify code => RequirePartialAuth (totpVerify e code)
  | CStepUp code => RequireAuth (stepUp e code)
  | CEnroll cur => RequirePartialAuth (totpEnroll e cur)
  | CConfirm code => RequirePartialAuth (totpConfirm e code)
  end.

Definition pattern (c : call) : string * string :=
  match c with
  | CLogin _ => ("POST", "/api/v1/auth/login")
  | CLogout => ("POST", "/api/v1/auth/logout")
  | CMe => ("GET", "/api/v1/auth/me")
  | CPassword _ => ("POST", "/api/v1/auth/password")
  | CVerify _ => ("POST", "/api/v1/auth/mfa/totp/verify")
  | CStepUp _ => ("POST", "/api/v1/auth/mfa/step-up")
  | CEnroll _ => ("POST", "/api/v1/auth/mfa/totp/enroll")
  | CConfirm _ => ("POST", "/api/v1/auth/mfa/totp/confirm")
  end.

(** The mux: the request's path and method select the route; a GET pattern
also takes HEAD. *)
Definition dispatch (e : env) (c : call) : handler := λ p,
  let '(m, path) := pattern c in
  if negb (bool_decide (Path (rq e) = path)) then NotFound
  else if bool_decide (Method (rq e) = m) || bool_decide (m = "GET") && bool_decide (Method (rq e) = "HEAD") then route e c p
  else answer {| code := 405; body := BFile |}.

(** What a handler left: its answer and the world. *)
Definition finish (x : result reply reply * world) : reply * world :=
  match x with (Ok r, w) => (r, w) | (Err r, w) => (r, w) end.

(** A request through the chain, with a response of its own. *)
Definition serve (e : env) (c : call) (w : world) : reply * world :=
  finish (Authenticate S0 (CSRF S0 (dispatch e c) (rq e)) (rq e) (set_jar [] w)).

(** * Requests, one at a time *)

(** The caller the cookie of [e] stands for, and the world once it was looked up. *)
Record Came (e : env) (w : world) (p : option Principal) (w1 : world) : Prop := {
  came_udb : udb w1 = udb w;
  came_tdb : tdb w1 = tdb w;
  came_trail : trail w1 = trail w;
  came_login : loginLimiter w1 = loginLimiter w;
  came_sdb : ∃ tok, sdb w1 = (Lookup S0 tok (now (rq e)) (sdb w)).2;
  came_who : match p with
    | None => True
    | Some pr => TokenID pr = "" ∧ ∃ tok r, cookie (rq e) = Some tok ∧ sdb w !! Sessions.ID (Session pr) = Some r ∧
        token_hash r = hashToken tok ∧ dead S0 (now (rq e)) r = false ∧ MFAVerified (Session pr) = mfa_verified r ∧
        Users.users (udb w) !! user_id r = Some (User pr) ∧ IsBlocked (User pr) = false
    end;
}.

Lemma Lookup_session tok now t :
  (∃ sess r, (Lookup S0 tok now t).1 = Ok sess ∧ t !! Sessions.ID sess = Some r ∧ token_hash r = hashToken tok ∧
     dead S0 now r = false ∧ MFAVerified sess = mfa_verified r ∧ Sessions.UserID sess = user_id r) ∨
  Lookup S0 tok now t = (Err ErrNoSession, t).
Proof.
  unfold Lookup. case_bool_decide; [by right|]. destruct (by_hash _ t) as [[id r]|] eqn:E; [|by right].
  apply by_hash_Some in E as [Hr Hh]. destruct (dead S0 now r) eqn:Ed; [by right|].
  left. destruct (_ <? _); eexists _, r; cbn; by split_and!.
Qed.

Lemma token_only_me e c : TokenAllowed (Method (rq e)) (Path (rq e)) = true → Path (rq e) = (pattern c).2 → c = CMe.
Proof. intros Ha Hp. rewrite Hp in Ha. destruct c; [..|]; try done; unfold TokenAllowed in Ha; by destruct (bool_decide _). Qed.

(** Every request ends in one of three ways: its handler ran for the caller
its cookie stands for, it was refused before that, or nothing happened. *)
Definition Ends (e : env) (c : call) (w : world) (x : reply * world) : Prop :=
  (∃ p w1, Came e w p w1 ∧ x = finish (route e c p w1)) ∨ (∃ p w1 r, Came e w p w1 ∧ x = (r, w1)) ∨
  (∃ r, x = (r, set_jar [] w)).

Lemma csrf_ends e c w p w1 : Came e w p w1 → Ends e c w (finish (CSRF S0 (dispatch e c) (rq e) p w1)).
Proof.
  intros Hc. assert (Ends e c w (finish (dispatch e c p w1))) as Hd.
  { unfold dispatch. destruct (pattern c) as [m path]. destruct (negb _); [right; left; by eexists _, _, _|].
    destruct (_ || _); [left; by eexists _, _|right; left; by eexists _, _, _]. }
  assert (∀ r, Ends e c w (finish (Err r, w1))) as He by (intros r; right; left; by eexists _, _, _).
  unfold CSRF. destruct (safe_method _); [done|]. destruct (negb (sameOrigin _ _)); [by apply He|].
  destruct p as [pr|]; [|done]. destruct (negb (bool_decide _)); [done|]. destruct (CheckCSRF _ _ _); [done|by apply He].
Qed.

Lemma me_world e p w : (me e p w).2 = w.
Proof. unfold me, mbind, M_bind, reading. by destruct (negb _ || _). Qed.

Lemma serve_ends e c w : Ends e c w (serve e c w).
Proof.
  unfold serve. set (w0 := set_jar [] w).
  assert (∀ r, Ends e c w (finish (Err r, w0))) as Hsame by (intros r; right; right; by eexists).
  assert (∀ j, Came e w None (set_jar j w)) as Hanon.
  { intros j. split; try done. exists "". done. }
  unfold Authenticate. destruct (Tokens (rq e)) as [authenticate|] eqn:Et; [destruct (bearerSecret (rq e)) as [|a s] eqn:Es|].
  2:{ unfold bearer. destruct (authenticate _) as [[uid tid]|[]]; [|by apply Hsame|unfold unchecked; destruct (_ || _); by apply Hsame].
      unfold mbind, M_bind, reading. destruct (GetByID uid (udb w0)) as [u|]; [|by apply Hsame].
      destruct (_ || _); [by apply Hsame|]. destruct (TokenAllowed _ _) eqn:Ea; [|by apply Hsame]. cbn [negb].
      set (p := Build_Principal _ _ _).
      assert (Ends e c w (finish (dispatch e c (Some p) w0))) as Hd.
      { unfold dispatch. destruct (pattern c) as [m path] eqn:Ep. destruct (bool_decide (Path (rq e) = path)) eqn:Eb; [|by apply Hsame].
        apply bool_decide_eq_true in Eb. assert (c = CMe) as -> by (apply (token_only_me e); [done|by rewrite Ep]).
        cbn [negb]. destruct (_ || _); [|by apply Hsame]. cbn [route]. unfold RequirePartialAuth.
        pose proof (me_world e p w0) as Hw. destruct (me e p w0) as [[r|r] w1]; cbn in Hw; subst w1; right; right; by exists r. }
      unfold CSRF. destruct (safe_method _); [done|]. destruct (negb (sameOrigin _ _)); [by apply Hsame|].
      destruct (negb (bool_decide _)); [done|]. destruct (CheckCSRF _ _ _); [done|by apply Hsame]. }
  all: destruct (cookie (rq e)) as [tok|] eqn:Ec; [|by apply csrf_ends, Hanon].
  all: unfold mbind, M_bind, sessions_op; change (sdb w0) with (sdb w).
  all: destruct (Lookup_session tok (now (rq e)) (sdb w)) as [(sess & r & Hl & Hr & Hh & Hd & Hm & Hu)| ->]; [|by apply csrf_ends, Hanon].
  all: destruct (Lookup S0 tok (now (rq e)) (sdb w)) as [res tab] eqn:El; cbn in Hl; subst res.
  all: assert (∀ j, Came e w None (set_jar j (set_sdb tab w0))) as Hcame
    by (intros j; split; try done; exists tok; by rewrite El).
  all: unfold reading; change (udb (set_sdb tab w0)) with (udb w); unfold GetByID.
  all: destruct (Users.users (udb w) !! Sessions.UserID sess) as [u|] eqn:Eu; [|by apply csrf_ends, Hcame].
  all: destruct (IsBlocked u) eqn:Eb; [by apply csrf_ends, Hcame|].
  all: apply csrf_ends; split; try done; [exists tok; by rewrite El|].
  all: split; [done|]; exists tok, r; rewrite <-Hu; by split_and!.
Qed.
(** * Running a handler *)

Definition wp {A} (Q : result reply A → world → Prop) (m : M A) (w : world) : Prop := Q (m w).1 (m w).2.

Lemma wp_ret {A} Q (a : A) w : Q (Ok a) w → wp Q (mret a) w.
Proof. done. Qed.

Lemma wp_answer {A} (Q : result reply A → world → Prop) r w : Q (Err r) w → wp Q (answer r) w.
Proof. done. Qed.

Lemma wp_bind {A B} (Q : result reply B → world → Prop) (m : M A) k w :
  wp (λ r w', match r with Ok a => wp Q (k a) w' | Err r => Q (Err r) w' end) m w → wp Q (m ≫= k) w.
Proof. unfold wp, mbind, M_bind. by destruct (m w) as [[a|r] w']. Qed.

Lemma wp_mono {A} (Q Q' : result reply A → world → Prop) m w : (∀ r w', Q r w' → Q' r w') → wp Q m w → wp Q' m w.
Proof. unfold wp. auto. Qed.

Lemma wp_reading {A} Q (f : world → A) w : Q (Ok (f w)) w → wp Q (reading f) w.
Proof. done. Qed.

Lemma wp_users {A} Q (f : Users.DB → A * Users.DB) w : Q (Ok (f (udb w)).1) (set_udb (f (udb w)).2 w) → wp Q (users_op f) w.
Proof. unfold wp, users_op. by destruct (f (udb w)). Qed.

Lemma wp_totp {A} Q (f : Totp.DB → A * Totp.DB) w : Q (Ok (f (tdb w)).1) (set_tdb (f (tdb w)).2 w) → wp Q (totp_op f) w.
Proof. unfold wp, totp_op. by destruct (f (tdb w)). Qed.

Lemma wp_sessions {A} Q (f : gmap string Sessions.row → A * gmap string Sessions.row) w :
  Q (Ok (f (sdb w)).1) (set_sdb (f (sdb w)).2 w) → wp Q (sessions_op f) w.
Proof. unfold wp, sessions_op. by destruct (f (sdb w)). Qed.

Lemma wp_cookie Q c w : Q (Ok tt) (set_jar (jar w ++ [c]) w) → wp Q (cookie_op c) w.
Proof. done. Qed.

(** An event is recorded as it is for a caller with a cookie. *)
Lemma wp_record (Q : result reply unit → world → Prop) (p : option Principal) ev w :
  (∀ pr, p = Some pr → TokenID pr = "") → Q (Ok tt) (add_event ev w) → wp Q (Record_ p ev) w.
Proof. intros Hp. unfold wp, Record_. destruct p as [pr|]; [|done]. by rewrite bool_decide_eq_true_2 by auto. Qed.

Lemma wp_hashing Q free w : (free = true → Q (Ok tt) w) → (free = false → Q (Err (WriteError 503 "busy")) w) → wp Q (hashing free) w.
Proof. unfold wp, hashing. destruct free; auto. Qed.

(** Steps of the limiters and counters change nothing else. *)
Definition counters (w w' : world) : Prop :=
  udb w' = udb w ∧ sdb w' = sdb w ∧ tdb w' = tdb w ∧ trail w' = trail w.

Lemma wp_counter {A} (Q : result reply A → world → Prop) (m : M A) w :
  (∃ a w', m w = (Ok a, w') ∧ counters w w') → (∀ a w', counters w w' → Q (Ok a) w') → wp Q m w.
Proof. unfold wp. intros (a & w' & -> & Hc) H. by apply H. Qed.

Lemma take_login_counter now key w : ∃ a w', take_login now key w = (Ok a, w') ∧ counters w w'.
Proof. unfold take_login. destruct (Take _ _ _). by eexists _, _. Qed.
Lemma take_step_up_counter now key w : ∃ a w', take_step_up now key w = (Ok a, w') ∧ counters w w'.
Proof. unfold take_step_up. destruct (Take _ _ _). by eexists _, _. Qed.
Lemma mfaFailure_counter sid w : ∃ a w', mfaFailure sid w = (Ok a, w') ∧ counters w w'.
Proof. unfold mfaFailure. destruct (_ <=? _); by eexists _, _. Qed.
Lemma mfaClear_counter sid w : ∃ a w', mfaClear sid w = (Ok a, w') ∧ counters w w'.
Proof. by eexists _, _. Qed.
Lemma stepUpClosed_counter sid now w : ∃ a w', stepUpClosed sid now w = (Ok a, w') ∧ counters w w'.
Proof.
  unfold stepUpClosed. destruct (_ !! _) as [st|]; [|by eexists _, _]. destruct (bool_decide _); [by eexists _, _|].
  destruct (Before _ _); by eexists _, _.
Qed.
Lemma stepUpFailed_counter sid now w : ∃ a w', stepUpFailed sid now w = (Ok a, w') ∧ counters w w'.
Proof. unfold stepUpFailed. destruct (_ <=? _); by eexists _, _. Qed.
Lemma stepUpSucceeded_counter sid w : ∃ a w', stepUpSucceeded sid w = (Ok a, w') ∧ counters w w'.
Proof. by eexists _, _. Qed.

Create HintDb counters.
#[local] Hint Resolve take_login_counter take_step_up_counter mfaFailure_counter mfaClear_counter
  stepUpClosed_counter stepUpFailed_counter stepUpSucceeded_counter : counters.

(** One step of a handler: the head of the computation decides. *)
Ltac wp_step :=
  cbv zeta beta;
  lazymatch goal with
  | |- wp _ (mbind _ _) _ => apply wp_bind
  | |- wp _ (mret _) _ => apply wp_ret
  | |- wp _ (answer _) _ => apply wp_answer
  | |- wp _ (reading _) _ => apply wp_reading
  | |- wp _ (users_op _) _ => apply wp_users
  | |- wp _ (totp_op _) _ => apply wp_totp
  | |- wp _ (sessions_op _) _ => apply wp_sessions
  | |- wp _ (cookie_op _) _ => apply wp_cookie
  | |- wp _ (hashing _) _ => apply wp_hashing; intros ?
  | |- wp _ (Record_ _ _) _ => apply wp_record; [assumption|]
  | |- wp _ (match ?x with _ => _ end) _ => destruct x eqn:?
  | |- wp _ _ _ => eapply wp_counter; [by eauto with counters|intros ? ? (?Hcu & ?Hcs & ?Hct & ?Hcl)]
  end.

(** * A session is verified only by what it owes *)

Definition owes_nothing (e : env) (w : world) (u : Users.User) : Prop :=
  Enrolled (Users.ID u) (tdb w) = false ∧ RequireMFA e = false ∧ MustResetOnLogin u = false.

(** The request [c] earns the session [id] its verification, in the world [w];
[r'] is the session's row afterwards. *)
Inductive Earned (e : env) (c : call) (w : world) (id : string) (r' : Sessions.row) : Prop :=
| by_password req u :
    c = CLogin (Some req) → id = new_session e → user_id r' = Users.ID u →
    GetByUsername (Strings.TrimSpace (req_username req)) (udb w) = Ok u → IsLocked u (now (rq e)) = false →
    PasswordHash u ≠ "" → VerifyPassword IDKey (PasswordHash u) (req_password req) = true →
    owes_nothing e w u → Earned e c w id r'
| by_directory req f eu :
    c = CLogin (Some req) → id = new_session e → user_id r' = Users.ID eu →
    External e = Some f → (f (udb w)).1 = Ok eu →
    (∀ u, GetByUsername (Strings.TrimSpace (req_username req)) (udb w) = Ok u → PasswordHash u = "" ∧ IsLocked u (now (rq e)) = false) →
    owes_nothing e w eu → Earned e c w id r'
| by_code p w1 u code used :
    c = CVerify (Some code) → Came e w (Some p) w1 → Sessions.ID (Session p) = id →
    GetByID (Users.ID (User p)) (udb w) = Ok u → IsLocked u (now (rq e)) = false →
    (Verify GenerateCodeCustom ring (now (rq e)) (Users.ID (User p)) code (tdb w)).1 = Ok used → Earned e c w id r'
| by_enrolment p w1 u code codes :
    c = CConfirm (Some code) → Came e w (Some p) w1 → Sessions.ID (Session p) = id →
    GetByID (Users.ID (User p)) (udb w) = Ok u → IsLocked u (now (rq e)) = false → MustResetOnLogin (User p) = false →
    (Confirm GenerateCodeCustom ring (code_bytes e) (code_ids e) (now (rq e)) (Users.ID (User p)) (Strings.TrimSpace code) (tdb w)).1 = Ok codes →
    Earned e c w id r'
| by_change p w1 req :
    c = CPassword (Some req) → Came e w (Some p) w1 → Sessions.ID (Session p) = id →
    MustResetOnLogin (User p) = true → Enrolled (Users.ID (User p)) (tdb w) = false → RequireMFA e = false →
    IsLocked (User p) (now (rq e)) = false → VerifyPassword IDKey (PasswordHash (User p)) (CurrentPassword req) = true →
    CheckPasswordPolicy (NewPassword req) = Ok tt → Earned e c w id r'.

(** The token the session held before is of no more use. *)
Definition fresh_token (e : env) (r' : Sessions.row) : Prop :=
  ∃ raw, rotate_bytes e = Some raw ∧ token_hash r' = hashToken (Base64.EncodeToString raw).

(** What the handler of [c] may do to the sessions. *)
Definition allowed (e : env) (c : call) (w : world) (r : reply) (w' : world) : Prop :=
  ∀ id r', sdb w' !! id = Some r' → mfa_verified r' = true →
    (∃ r0, sdb w !! id = Some r0 ∧ mfa_verified r0 = true) ∨
    Earned e c w id r' ∧ (code r = 200 → id = new_session e ∨ fresh_token e r').

Lemma allowed_raised e c w r w' : raised None (sdb w) (sdb w') → allowed e c w r w'.
Proof. intros H id r' Hr Hm. destruct (H id r' Hr Hm) as [?|?]; [done|by left]. Qed.

Lemma came_raised e w p w1 i : Came e w p w1 → raised i (sdb w) (sdb w1).
Proof. intros [_ _ _ _ [tok ->] _]. apply raised_Lookup. Qed.

Lemma came_token e w p w1 : Came e w p w1 → ∀ pr, p = Some pr → TokenID pr = "".
Proof. intros Hc pr ->. apply (came_who _ _ _ _ Hc). Qed.

Definition allowing (e : env) (c : call) (w : world) (r : result reply reply) (w' : world) : Prop :=
  allowed e c w (match r with Ok r => r | Err r => r end) w'.

Lemma verified_handler e c w p w1 m : Came e w p w1 → wp (allowing e c w) m w1 → allowed e c w (finish (m w1)).1 (finish (m w1)).2.
Proof. unfold wp, allowing. by destruct (m w1) as [[r|r] w']. Qed.

Ltac fields := cbn [sdb udb tdb trail set_udb set_sdb set_tdb set_login set_step set_fails set_attempts add_event set_jar fst snd] in *.

Ltac raised_step :=
  lazymatch goal with
  | |- raised _ _ (Revoke _ _ _) => eapply raised_trans; [|apply raised_Revoke]
  | |- raised _ _ (Rotate _ _ _).2 => eapply raised_trans; [|apply raised_Rotate]
  | |- raised _ _ (RevokeOthersForUser _ _ _ _).1 => eapply raised_trans; [|apply raised_revoke_where]
  | |- raised _ _ (MarkMFAProved _ _ _) => eapply raised_trans; [|apply raised_alter]
  | |- raised _ _ (MarkMFAVerified _ _) => eapply raised_trans; [|apply raised_alter]
  | |- raised _ _ _ => apply raised_refl
  end.

(** A leaf at which no session was verified. *)
Ltac unraised :=
  apply allowed_raised; eapply raised_trans; [by eapply came_raised|]; fields; unfold prod_swap; fields;
  repeat match goal with H : sdb ?w = _ |- _ => is_var w; rewrite H in * end; fields;
  repeat raised_step.

Lemma logout_allowed e w p w1 : Came e w (Some p) w1 → wp (allowing e CLogout w) (logout e p) w1.
Proof.
  intros Hc. pose proof (came_token _ _ _ _ Hc) as Ht. unfold logout. repeat wp_step; unraised.
Qed.


Lemma me_allowed e w p w1 : Came e w (Some p) w1 → wp (allowing e CMe w) (me e p) w1.
Proof. intros Hc. pose proof (came_token _ _ _ _ Hc) as Ht. unfold me. repeat wp_step; unraised. Qed.

Lemma enroll_allowed e cur w p w1 : Came e w (Some p) w1 → wp (allowing e (CEnroll cur) w) (totpEnroll e cur p) w1.
Proof.
  intros Hc. pose proof (came_token _ _ _ _ Hc) as Ht. unfold totpEnroll, passwordChangeOwed, currentPassword, RecordFailure.
  repeat wp_step; unraised.
Qed.

Lemma allowed_verified e c w p w1 r w' : Came e w (Some p) w1 → MFAVerified (Session p) = true →
  raised (Some (Sessions.ID (Session p))) (sdb w) (sdb w') → allowed e c w r w'.
Proof.
  intros Hc Hv H id r' Hr Hm. left. destruct (H id r' Hr Hm) as [[= ->]|?]; [|done].
  destruct (came_who _ _ _ _ Hc) as (_ & tok & r0 & _ & Hr0 & _ & _ & Hm0 & _). exists r0. split; [done|congruence].
Qed.

Lemma allowed_earned e c w sid r w' : raised (Some sid) (sdb w) (sdb w') →
  (∀ r', sdb w' !! sid = Some r' → Earned e c w sid r' ∧ (code r = 200 → sid = new_session e ∨ fresh_token e r')) →
  allowed e c w r w'.
Proof. intros H He id r' Hr Hm. destruct (H id r' Hr Hm) as [[= ->]|?]; [right; by apply He|by left]. Qed.

Lemma Rotate_fresh e sid t tok r' : (Rotate (rotate_bytes e) sid t).1 = Ok tok →
  (Rotate (rotate_bytes e) sid t).2 !! sid = Some r' → fresh_token e r'.
Proof.
  unfold Rotate, fresh_token. destruct (rotate_bytes e) as [raw|]; [|done]. destruct (t !! sid) as [r|]; [|done].
  destruct (is_Some_b _); [done|]. destruct (by_hash _ _); [done|]. cbn. intros _. rewrite lookup_insert_eq. intros [= <-]. by exists raw.
Qed.

(** The sessions at a leaf, from the ones the request found. *)
Ltac raise :=
  eapply raised_trans; [by eapply came_raised|]; fields; unfold prod_swap; fields;
  repeat match goal with H : sdb ?w = _ |- _ => is_var w; rewrite H in * end; fields;
  repeat raised_step.

Lemma stepUp_allowed e code w p w1 : Came e w (Some p) w1 → MFAVerified (Session p) = true →
  wp (allowing e (CStepUp code) w) (stepUp e code p) w1.
Proof.
  intros Hc Hv. pose proof (came_token _ _ _ _ Hc) as Ht. unfold stepUp.
  repeat wp_step; (eapply allowed_verified; [done|done|raise]).
Qed.

(** checkCode finds the code right only for an account that is not locked. *)
Lemma checkCode_right {A} (Q : _ → world → Prop) now uid (check : Totp.DB → result Totp.Error A * Totp.DB) wrong w :
  (∀ v got w', sdb w' = sdb w → trail w' = trail w → v ≠ Ok codeRight → Q (Ok (v, got)) w') →
  (∀ a u w', sdb w' = sdb w → trail w' = trail w → (check (tdb w)).1 = Ok a → GetByID uid (udb w) = Ok u → IsLocked u now = false →
     Q (Ok (Ok codeRight, Some (Ok a))) w') →
  wp Q (checkCode now uid true check wrong) w.
Proof.
  intros Hbad Hright. unfold checkCode, RecordFailure. repeat wp_step; fields.
  all: first [by apply Hbad | by eapply Hright | apply Hbad; [done|done|]].
  by destruct (RecordLoginFailure _ _ _ _ _) as [[[]|] ?].
Qed.

(** A leaf at which the session of the request was verified. *)
Ltac earned He :=
  eapply allowed_earned; [raise|]; intros ?r Hr; split; [by apply He|]; fields;
  first [done | intros _; right; by eapply Rotate_fresh].

Lemma checkCode_any {A} (Q : _ → world → Prop) now uid signIn (check : Totp.DB → result Totp.Error A * Totp.DB) wrong w :
  (∀ v got w', sdb w' = sdb w → Q (Ok (v, got)) w') → wp Q (checkCode now uid signIn check wrong) w.
Proof. intros HQ. unfold checkCode, RecordFailure. repeat wp_step; by apply HQ. Qed.

Lemma verify_allowed e code w p w1 : Came e w (Some p) w1 → wp (allowing e (CVerify code) w) (totpVerify e code p) w1.
Proof.
  intros Hc. pose proof (came_token _ _ _ _ Hc) as Ht. unfold totpVerify. wp_step; [wp_step; unraised|]. wp_step; [|wp_step; unraised].
  wp_step. apply checkCode_right.
  - intros v got w' Hs _ Hv. destruct v as [[]|]; [done|..]; unfold endSignIn; repeat wp_step; unraised.
  - intros used u w' Hs _ Hcheck Hu Hl. rewrite (came_tdb _ _ _ _ Hc) in Hcheck. rewrite (came_udb _ _ _ _ Hc) in Hu.
    assert (∀ r', Earned e (CVerify (Some s)) w (Sessions.ID (Session p)) r') as He by (intros r'; by eapply by_code).
    unfold rotate. repeat wp_step; earned He.
Qed.

Lemma confirm_allowed e code w p w1 : Came e w (Some p) w1 → wp (allowing e (CConfirm code) w) (totpConfirm e code p) w1.
Proof.
  intros Hc. pose proof (came_token _ _ _ _ Hc) as Ht. unfold totpConfirm, passwordChangeOwed.
  wp_step. wp_step; wp_step; [unraised|]. wp_step; [|wp_step; unraised]. wp_step.
  destruct (MFAVerified (Session p)) eqn:Ev; cbn [negb].
  - apply checkCode_any. intros v got w' Hs. unfold rotate, endSignIn.
    repeat wp_step; (eapply allowed_verified; [done|done|raise]).
  - apply checkCode_right.
    + intros v got w' Hs _ Hv. destruct v as [[]|]; [done|..]; unfold endSignIn; repeat wp_step; unraised.
    + intros codes u w' Hs _ Hcheck Hu Hl. rewrite (came_tdb _ _ _ _ Hc) in Hcheck. rewrite (came_udb _ _ _ _ Hc) in Hu.
      assert (∀ r', Earned e (CConfirm (Some s)) w (Sessions.ID (Session p)) r') as He by (intros r'; by eapply by_enrolment).
      unfold rotate. repeat wp_step; earned He.
Qed.

Lemma password_allowed e req w p w1 : Came e w (Some p) w1 → wp (allowing e (CPassword req) w) (changePassword e req p) w1.
Proof.
  intros Hc. pose proof (came_token _ _ _ _ Hc) as Ht. unfold changePassword, currentPassword, RecordFailure, rotate.
  destruct (MFAVerified (Session p)) eqn:Ev.
  - repeat wp_step; (eapply allowed_verified; [done|done|raise]).
  - repeat wp_step; try (by unraised).
    all: bool_simpl; assert (∀ r', Earned e (CPassword (Some p0)) w (Sessions.ID (Session p)) r') as He
      by (intros r'; eapply by_change; [done|exact Hc|done|done|by rewrite <-(came_tdb _ _ _ _ Hc)|done|done|done|];
          match goal with H : CheckPasswordPolicy _ = Ok ?x |- _ => by destruct x end).
    all: earned He.
Qed.

Lemma Create_row raw id now u ip ua m t x r' : (Sessions.Create S0 raw id now u ip ua m t).1 = Ok x →
  (Sessions.Create S0 raw id now u ip ua m t).2 !! id = Some r' → user_id r' = u.
Proof.
  unfold Sessions.Create. destruct raw as [raw|]; [|done]. destruct (t !! id); [done|]. destruct (by_hash _ _); [done|].
  cbn. intros _. rewrite lookup_insert_eq. by intros [= <-].
Qed.

Lemma Create_err raw id now u ip ua m t x : (Sessions.Create S0 raw id now u ip ua m t).1 = Err x →
  (Sessions.Create S0 raw id now u ip ua m t).2 = t.
Proof. unfold Sessions.Create. destruct raw as [raw|]; [|done]. destruct (t !! id); [done|]. by destruct (by_hash _ _). Qed.

(** A leaf at which the session [new_session e] was issued to [u]. *)
Lemma issued_allowed e c w p w1 u complete t r w' :
  Came e w p w1 → raised None (sdb w1) t → (complete = true → owes_nothing e w u) →
  (owes_nothing e w u → ∀ r', user_id r' = Users.ID u → Earned e c w (new_session e) r') →
  sdb w' = (Sessions.Create S0 (token_bytes e) (new_session e) (now (rq e)) (Users.ID u) (ClientIP (rq e)) (Agent (rq e)) complete t).2 →
  allowed e c w r w'.
Proof.
  intros Hc Hrt Ho He Hw. pose proof (came_raised e w p w1 None Hc) as Hrw.
  destruct (Sessions.Create S0 (token_bytes e) (new_session e) (now (rq e)) (Users.ID u) (ClientIP (rq e)) (Agent (rq e)) complete t).1
    as [x|err] eqn:Ex.
  2:{ apply Create_err in Ex. apply allowed_raised. rewrite Hw, Ex. by eapply raised_trans. }
  destruct complete.
  - eapply allowed_earned.
    + rewrite Hw. eapply raised_trans; [|apply (raised_Create S0 _ _ _ _ _ _ true)].
      apply raised_none. by eapply raised_trans.
    + rewrite Hw. intros r' Hr'. split; [|by left]. apply He; [by apply Ho|]. by eapply Create_row.
  - apply allowed_raised. rewrite Hw. eapply raised_trans; [|apply (raised_Create S0 _ _ _ _ _ _ false)]. by eapply raised_trans.
Qed.

Lemma complete_allowed e c w p w1 w2 u actor : Came e w p w1 → sdb w2 = sdb w1 → tdb w2 = tdb w →
  (owes_nothing e w u → ∀ r', user_id r' = Users.ID u → Earned e c w (new_session e) r') →
  wp (allowing e c w) (completeLogin e p u actor) w2.
Proof.
  intros Hc Hs Htd He. pose proof (came_token _ _ _ _ Hc) as Ht. unfold completeLogin, ReplaceSession.
  repeat wp_step; fields; (eapply issued_allowed; [exact Hc| | |exact He|fields; reflexivity];
    [rewrite <-Hs; repeat raised_step|intros ?; unfold owes_nothing; rewrite <-Htd]).
  all: destruct (Enrolled (Users.ID u) (tdb w2)), (RequireMFA e), (MustResetOnLogin u); by simpl in *.
Qed.

Lemma login_allowed e req w p w1 : Came e w p w1 → wp (allowing e (CLogin req) w) (login e p req) w1.
Proof.
  intros Hc. pose proof (came_token _ _ _ _ Hc) as Ht. pose proof (came_udb _ _ _ _ Hc) as Hu0. pose proof (came_tdb _ _ _ _ Hc) as Ht0.
  unfold login, RecordFailure.
  repeat lazymatch goal with
  | |- wp _ (completeLogin _ _ _ _) _ => eapply complete_allowed; [exact Hc|fields; congruence|fields; congruence|intros Ho r' Hr']
  | |- wp _ _ _ => wp_step
  end; try (by unraised).
  all: match goal with H : udb ?v = _, H' : udb ?v' = _ |- Earned _ _ _ _ _ => rewrite ?H, ?H' in * end; fields.
  all: bool_simpl; first
    [ by eapply by_password
    | eapply by_directory; [done|done|done|done|done| |done]; intros ? ?; split; congruence ].
Qed.

Lemma route_allowed e c w p w1 : Came e w p w1 → wp (allowing e c w) (route e c p) w1.
Proof.
  intros Hc. assert (∀ r, wp (allowing e c w) (answer r) w1) as Hr.
  { intros r. apply wp_answer, allowed_raised. by eapply came_raised. }
  destruct c; cbn [route]; unfold RequirePartialAuth, RequireAuth; [by apply login_allowed|..];
    (destruct p as [p|]; [|by apply Hr]).
  - by apply logout_allowed.
  - by apply me_allowed.
  - by apply password_allowed.
  - by apply verify_allowed.
  - destruct (MFAVerified (Session p)) eqn:Ev; [|by apply Hr]. cbn [negb]. destruct (MustResetOnLogin _); [by apply Hr|].
    by apply stepUp_allowed.
  - by apply enroll_allowed.
  - by apply confirm_allowed.
Qed.

(** C12. A session is verified only by what it owes.  Whatever the request, a
session that is verified after it was so before, or the request earned it: by
a sign-in with the account's right password, or one the directory confirmed,
for an account that owes no second factor and no change of password; by a
right code or recovery code, by confirming a first authenticator, or by the
password change that was owed, from the session's own cookie.  An account that
is locked earns nothing, and where the request succeeds on a session that
existed before, the session has a new token. *)
Theorem verified_earned e c w id r' :
  sdb (serve e c w).2 !! id = Some r' → mfa_verified r' = true →
  (∃ r, sdb w !! id = Some r ∧ mfa_verified r = true) ∨
  Earned e c w id r' ∧ (code (serve e c w).1 = 200 → id = new_session e ∨ fresh_token e r').
Proof.
  destruct (serve_ends e c w) as [(p & w1 & Hc & ->)|[(p & w1 & r & Hc & ->)|[r ->]]]; revert id r'.
  - apply (verified_handler e c w p w1); [done|]. by apply route_allowed.
  - apply allowed_raised. by eapply came_raised.
  - apply allowed_raised, raised_refl.
Qed.

(** * How many guesses an account grants *)

(** The [reason] of a row's details. *)
Definition reason (d : list (string * detail)) : string :=
  match find (λ kv, String.eqb kv.1 "reason") d with Some (_, DString s) => s | _ => "" end.







Section rate.
Context (x : string) (local : bool) (start : time).













Context (Hmax : 0 < MaxFailures H0).




























End rate.

End handlers.

(** * A sign-in, played through *)

Definition weak : phcParams := {| memory := 8192; time_ := 1; threads := 1 |}.

Definition ada_hash (p : phcParams) : string :=
  match hashPasswordWith toy_key (Some (to_bytes "0123456789abcdef")) "correct horse battery" p with Ok h => h | Err _ => "" end.

(** ada with a password hashed with the parameters [p], after [n] failures. *)
Definition ada (p : phcParams) (n : Z) : Users.User :=
  with_failures n None (with_password (ada_hash p) false 0 (normal "u-ada" 0 (person "ada" [RoleAdmin]))).

Definition ada_world (p : phcParams) (n : Z) (mfa : bool) : world (FO := exact) := {|
  udb := {| users := {["u-ada" := ada p n]}; groups := ∅; group_members := ∅ |}; sdb := ∅;
  tdb := {| mfa_totp := if mfa then {["u-ada" := {| secret_enc := []; Totp.key_version := None; confirmed_at := Some 0;
                                               Totp.created_at := 0; last_step := None |}]} else ∅;
            mfa_recovery_codes := [] |};
  loginLimiter := newIPLimiter 20 10 0; stepUpLimiter := newIPLimiter 10 5 0;
  stepUpFails := ∅; mfaAttempts := ∅; trail := []; jar := [] |}.

Definition login_env (at_ : time) : env := {|
  rq := {| Method := "POST"; Path := "/api/v1/auth/login"; cookie := None; Authorization := ""; SecFetchSite := "same-origin";
           Origin := ""; Host := "gw"; XCSRFToken := ""; ClientIP := "10.0.0.9"; Agent := "browser"; now := at_; Tokens := None |};
  new_session := "s1"; token_bytes := Some (to_bytes "a token of 32 bytes, or so it is"); rotate_bytes := None;
  salt_bytes := Some (to_bytes "fedcba9876543210"); slot := true; slot2 := true; RequireMFA := false; External := None;
  totp_key := None; totp_nonce := None; code_bytes := []; code_ids := []; ProviderLogout := None; TimeZone := None |}.

Definition demo_serve : env → call → world (FO := exact) → reply * world (FO := exact) :=
  serve demo_sessions NewHandler toy_key demo_code demo_ring id (λ _, "15m0s").

Definition right_login : call := CLogin (Some {| req_username := "Ada"; req_password := "correct horse battery" |}).

Definition is_verified (id : string) (t : gmap string Sessions.row) : option bool := mfa_verified <$> t !! id.

Lemma verified_earned_witness :
  is_verified "s1" (sdb (demo_serve (login_env 5) right_login (ada_world productionParams 0 false)).2) = Some true ∧
  ∃ r, Earned demo_sessions toy_key demo_code demo_ring (login_env 5) right_login (ada_world productionParams 0 false) "s1" r.
Proof.
  assert (is_verified "s1" (sdb (demo_serve (login_env 5) right_login (ada_world productionParams 0 false)).2) = Some true) as H by by vm_compute.
  split; [exact H|]. unfold is_verified in H. apply fmap_Some in H as (r & Hr & Hm). exists r.
  destruct (verified_earned demo_sessions NewHandler toy_key demo_code demo_ring id (λ _, "15m0s")
    (login_env 5) right_login (ada_world productionParams 0 false) "s1" r Hr (eq_sym Hm)) as [(r0 & Hr0 & _)|[He _]]; [|exact He].
  change ((∅ : gmap string Sessions.row) !! "s1" = Some r0) in Hr0. by rewrite lookup_empty in Hr0.
Defined.

(** The right password hands out a fresh set of guesses at the code when its
hash is due for renewal.  Ada has an authenticator and four failures, one short
of the lock; signing in with a password whose hash has older parameters stores
a new hash, which sets the count to zero, although the sign-in still owes its
code.  With a hash that is up to date the count stays. *)
Theorem rehash_clears_count :
  let after p := (demo_serve (login_env 5) right_login (ada_world p 4 true)).2 in
  let count p := (λ u, FailedLogins u) <$> users (udb (after p)) !! "u-ada" in
  is_verified "s1" (sdb (after weak)) = Some false ∧ count weak = Some 0 ∧
  is_verified "s1" (sdb (after productionParams)) = Some false ∧ count productionParams = Some 4.
Proof. split_and!; by vm_compute. Qed.




