(* ===== verification/Connect.v ===== *)
(** Connecting: src/internal/connect/endpoint.go, connect.go, asguser.go and the
life of a session in run.go, over the tickets of Ticket.v, the gate of
AccessFlow.v and the registry of Registry.v.

What a request asks of the other stores is the record [Env], the answers it
gets at that moment; each step of a history carries its own, so policies,
targets and credentials may change between any two steps.  The network (an
address lookup, a dial) is part of [Env] too.

A session goes through the stages its handler does, and any other request may
run between two of them: the ticket is issued ([connect], [failover]), redeemed
([open_]), the session's row is written ([startRun]), it is put in the registry
([live_]) and, when its bridge returns, its row is closed ([endRow]) and it is
removed ([done_]).  What a handler does between two stages (the dial, the
containers, the recording) has no other effect on this state than the session's
end, which may come at any point. *)
From S2P Require Import Prelude GoText Protocol Policy PolicyEval Access AccessFlow Ticket Users Sessions Middleware Registry.
Local Open Scope Z_scope.

(** * Targets, groups and credentials, as the connect flow reads them *)

Definition HostKeyTrusted_ : string := "trusted".

Record Target := {
  tgID : string;
  tgAddress : string;
  tgEngine : string;
  tgRetentionDays : option Z;
  tgAppUpstream : string;
  tgPorts : gmap string Z;
  tgHostKeyFingerprint : option string;
  tgHostKeyStatus : string;
  tgTLSFingerprint : option string;
  tgWinRMTLSFingerprint : option string;
  tgTags : gmap string string;
  tgStatus : string;
  tgCredentials : gmap string string;
}.

Record AGroup := {
  agID : string;
  agPorts : gmap string Z;
  agTags : gmap string string;
  agStatus : string;
  agAddressPreference : string;
  agCredentials : gmap string string;
}.

Record Instance_ := {
  inID : string;
  inGroupID : string;
  inInstanceID : string;
  inPrivateIP : string;
  inPublicIP : string;
  inAvailabilityZone : string;
  inHostKeyFingerprint : string;
  inTLSFingerprint : string;
  inWinRMTLSFingerprint : string;
  inHealthy : bool;
}.

(** Group.Address: the instance's address by the group's preference. *)
Definition Address_ (g : AGroup) (i : Instance_) : string :=
  if bool_decide (agAddressPreference g = "public") && negb (bool_decide (inPublicIP i = "")) then inPublicIP i
  else if negb (bool_decide (inPrivateIP i = "")) then inPrivateIP i else inPublicIP i.

Record Credential := {
  cType : string;
  cMode : string;
  cUsername : string;
  cPrincipals : list string;
}.

Definition TypeSSHCA : string := "ssh_ca".
Definition TypeEC2InstanceConnect : string := "ec2_instance_connect".
Definition ModeVaulted : string := "vaulted".
Definition ModeUserSupplied : string := "user_supplied".

Definition PermitsPrincipal (c : Credential) (loginUser : string) : bool :=
  match cPrincipals c with [] => true | ps => contains ps loginUser end.

Definition caLoginUser (c : Credential) (zanskarUser : string) : string :=
  if bool_decide (cUsername c = "") then zanskarUser else cUsername c.

Definition DefaultPorts : gmap string Z := {[ SSH := 22; RDP := 3389; VNC := 5900; WinRM := 5986 ]}.
Definition EngineDefaultPorts : gmap string Z := {[ "postgres" := 5432; "mysql" := 3306; "mariadb" := 3306 ]}.
Definition ServableEngines : list string := ["postgres"; "mysql"; "mariadb"].

Definition ValidProtocol (p : string) : bool :=
  bool_decide (p = Protocol.Database) || bool_decide (p = HTTP) || bool_decide (is_Some (DefaultPorts !! p)).

Definition ServableEngine (e : string) : bool := contains ServableEngines (Strings.ToLower (Strings.TrimSpace e)).

(** * Endpoints *)

(** The fields the connect flow decides by; the rest only goes to the dial. *)
Record endpoint := {
  epAddress : string;
  Ports : gmap string Z;
  Tags : gmap string string;
  Credentials : gmap string string;
  HostKeyFingerprint : string;
  HostKeyTrusted : bool;
  TLSFingerprint : string;
  WinRMTLSFingerprint : string;
  epActive : bool;
  Engine : string;
  epRetentionDays : Z;
  AppUpstream : string;
  epTargetID : string;
  epASGID : string;
  epASGInstanceID : string;
  LiveKey : string;
  CloudInstanceID : string;
  hasGroup : bool;
}.

Definition port (e : endpoint) (p : string) : Z :=
  match Ports e !! p with
  | Some n => if 0 <? n then n
              else if bool_decide (p = Protocol.Database) then default 0 (EngineDefaultPorts !! Engine e) else default 0 (DefaultPorts !! p)
  | None => if bool_decide (p = Protocol.Database) then default 0 (EngineDefaultPorts !! Engine e) else default 0 (DefaultPorts !! p)
  end.

Definition policyRef (e : endpoint) : TargetRef := {|
  tKind := if negb (bool_decide (epASGID e = "")) then KindAutoscaling
           else if negb (bool_decide (Engine e = "")) then KindDatabase
           else if negb (bool_decide (AppUpstream e = "")) then KindApplication else KindHost;
  tID := epTargetID e; tASGID := epASGID e; tTags := Tags e |}.

Definition fromTarget (t : Target) : endpoint := {|
  epAddress := tgAddress t; Ports := tgPorts t; Tags := tgTags t; Credentials := tgCredentials t;
  HostKeyFingerprint := default "" (tgHostKeyFingerprint t);
  HostKeyTrusted := bool_decide (tgHostKeyStatus t = HostKeyTrusted_);
  TLSFingerprint := default "" (tgTLSFingerprint t);
  WinRMTLSFingerprint := default "" (tgWinRMTLSFingerprint t);
  epActive := bool_decide (tgStatus t = "active"); Engine := tgEngine t;
  epRetentionDays := default 0 (tgRetentionDays t); AppUpstream := tgAppUpstream t;
  epTargetID := tgID t; epASGID := ""; epASGInstanceID := ""; LiveKey := tgID t; CloudInstanceID := ""; hasGroup := false |}.

Definition fromInstance (g : AGroup) (i : Instance_) : endpoint := {|
  epAddress := Address_ g i; Ports := agPorts g; Tags := agTags g; Credentials := agCredentials g;
  HostKeyFingerprint := inHostKeyFingerprint i;
  HostKeyTrusted := negb (bool_decide (inHostKeyFingerprint i = ""));
  TLSFingerprint := inTLSFingerprint i;
  WinRMTLSFingerprint := inWinRMTLSFingerprint i;
  epActive := bool_decide (agStatus g = "active") && inHealthy i; Engine := "";
  epRetentionDays := 0; AppUpstream := "";
  epTargetID := ""; epASGID := agID g; epASGInstanceID := inID i; LiveKey := inID i;
  CloudInstanceID := inInstanceID i; hasGroup := true |}.

(** * What a request asks of the rest of the system *)

Inductive ResolveErr := NotFound_ | NoHealthyInstances | Unavailable.

(** Prober.Resolve: the address rules applied to a lookup. *)
Inductive Lookup := LForbidden | LUnknown | LResolved.

#[export] Instance Lookup_eq_dec : EqDecision Lookup.
Proof. solve_decision. Defined.

Inductive UnlockErr := ErrPassphrase | ErrBadKey.

Record ASGRepo := {
  aGet : string → result ResolveErr AGroup;
  aGetInstance : string → result ResolveErr Instance_;
  (** The healthy instances, newest first. *)
  aHealthy : string → result ResolveErr (list Instance_);
}.

Record Env := {
  now : time;
  UserExists : string → bool;
  Draining : bool;
  DiskFull : string;
  GuacdAddr : string;
  Targets : string → result ResolveErr Target;
  ASGs : option ASGRepo;
  CloudSet : bool;
  VaultGet : string → option Credential;
  gate : Gate;
  (** credential.UnlockPrivateKey, the key formats of golang.org/x/crypto/ssh. *)
  UnlockPrivateKey : string → string → result UnlockErr bytes;
  Resolve : string → Lookup;
  Dials : string → Z → bool;
  (** The certificate the listener at an address and port presents. *)
  Presents : string → Z → option string;
  ProberSet : bool;
  (** The browser's and the relay's images are configured. *)
  ImagesSet : bool;
  (** target.ParseUpstream accepts the application's URL. *)
  Parses : string → bool;
  (** One of the application's further origins leads to a forbidden address. *)
  OriginForbidden : endpoint → bool;
  DBMaxSessions : Z;
  AppsMaxSessions : Z;
}.

Definition resolveTarget (e : Env) (id : string) : result ResolveErr endpoint :=
  match Targets e id with Ok t => Ok (fromTarget t) | Err x => Err x end.

Definition resolveInstance (e : Env) (instanceID : string) : result ResolveErr endpoint :=
  match ASGs e with
  | None => Err NotFound_
  | Some a =>
      match aGetInstance a instanceID with
      | Err x => Err x
      | Ok i => match aGet a (inGroupID i) with Err x => Err x | Ok g => Ok (fromInstance g i) end
      end
  end.

Definition pickInstance (e : Env) (groupID : string) : result ResolveErr endpoint :=
  match ASGs e with
  | None => Err NotFound_
  | Some a =>
      match aGet a groupID with
      | Err x => Err x
      | Ok g => match aHealthy a (agID g) with Err x => Err x | Ok [] => Err NoHealthyInstances | Ok (i :: _) => Ok (fromInstance g i) end
      end
  end.

(** Both a ticket's grant and a session's row name what they are for. *)
Definition resolveGrant (e : Env) (targetID asgInstanceID : string) : result ResolveErr endpoint :=
  if bool_decide (asgInstanceID = "") then resolveTarget e targetID else resolveInstance e asgInstanceID.

(** * Issuing a ticket *)

Record userCredential := { ucUsername : string; ucPassword : string; ucPrivateKey : string; ucPassphrase : string }.

Definition maxUserKey : Z := 16 * 1024.
Definition maxUserPassphrase : Z := 1024.

(** A refusal with its code, or a store that failed. *)
Inductive Refusal := Refuse (code : string) | Fail.

Inductive Material := NoMaterial | MPassword (b : bytes) | MKey (b : bytes).

Definition code_text (c : Code) : string :=
  match c with CodePolicyDenied => "policy_denied" | CodeApprovalRequired => "approval_required" | CodeMFARequired => "mfa_required_by_policy" end.

Definition retentionDays (ep : endpoint) (d : Decision) : Z :=
  if 0 <? epRetentionDays ep then epRetentionDays ep else dRetentionDays d.

(** The grant of a ticket; [Issue] stamps its times and the secret is added below. *)
Definition new_grant (p : Middleware.Principal) (username ip : string) (ep : endpoint) (proto credID : string) (d : Decision)
    (failoverFrom : string) : Ticket.Grant := {|
  Ticket.UserID := Users.ID (User p); Ticket.Username := username; Ticket.SessionID := Sessions.ID (Session p);
  Ticket.TargetID := epTargetID ep; Ticket.ASGID := epASGID ep; Ticket.ASGInstanceID := epASGInstanceID ep;
  Ticket.Protocol := proto; Ticket.CredentialID := credID; Ticket.PolicyID := default "" (Policy.pID <$> dPolicy d);
  Ticket.IdleTimeout := PolicyEval.IdleTimeout d; Ticket.MaxSession := PolicyEval.MaxSession d; Ticket.RetentionDays := retentionDays ep d;
  Ticket.AllowClipboard := dAllowClipboard d; Ticket.AllowFileTransfer := dAllowFileTransfer d; Ticket.AllowDevTools := dAllowDevTools d;
  Ticket.ClientIP := ip; Ticket.FailoverFrom := failoverFrom; Ticket.UserSecret := None; Ticket.UserKey := None;
  Ticket.IssuedAt := zero_time; Ticket.ExpiresAt := zero_time |}.

Section tz.
Context `{TZ : TimeZones}.

Definition admits (e : Env) (userID : string) (ep : endpoint) (proto : string) : Admission :=
  Admit (gate e) userID (policyRef ep) proto (now e).

(** What the protocol needs pinned or configured on the endpoint. *)
Definition pinned (ep : endpoint) (proto : string) : result Refusal unit :=
  if bool_decide (proto = SSH) then
    refuse_if (negb (HostKeyTrusted ep) || bool_decide (HostKeyFingerprint ep = ""))
      (Refuse (if bool_decide (epASGID ep = "") then "host_key_untrusted" else "host_key_unverified"))
  else if bool_decide (proto = RDP) then refuse_if (bool_decide (TLSFingerprint ep = "")) (Refuse "certificate_unpinned")
  else if bool_decide (proto = WinRM) then
    let? _ := refuse_if (port ep WinRM =? 5985) (Refuse "tls_required") in
    refuse_if (bool_decide (WinRMTLSFingerprint ep = "")) (Refuse "certificate_unpinned")
  else if bool_decide (proto = Protocol.Database) then
    let? _ := refuse_if (bool_decide (Engine ep = "")) (Refuse "not_a_database") in
    refuse_if (negb (ServableEngine (Engine ep))) (Refuse "engine_unavailable")
  else if bool_decide (proto = HTTP) then refuse_if (bool_decide (AppUpstream ep = "")) (Refuse "not_an_application")
  else Ok tt.

(** The slot's credential, or the person's own login. *)
Definition slot (e : Env) (ep : endpoint) (proto : string) (own : bool) : result Refusal (string * Credential) :=
  if own then Ok ("", {| cType := ""; cMode := ModeUserSupplied; cUsername := ""; cPrincipals := [] |})
  else
    let credID := default "" (Credentials ep !! proto) in
    if bool_decide (credID = "") then Err (Refuse "no_credential")
    else match VaultGet e credID with Some c => Ok (credID, c) | None => Err Fail end.

(** The secret the person brings, and the login name it comes with. *)
Definition material (e : Env) (p : Middleware.Principal) (ep : endpoint) (proto : string) (uc : option userCredential) (c : Credential)
    : result Refusal (string * Material) :=
  if bool_decide (cMode c = ModeVaulted) then
    let? _ := refuse_if (bool_decide (cType c = TypeEC2InstanceConnect) && (bool_decide (epASGID ep = "") || negb (CloudSet e)))
      (Refuse "credential_mode_unavailable") in
    let? _ := refuse_if (bool_decide (cType c = TypeSSHCA) && negb (PermitsPrincipal c (caLoginUser c (Users.Username (User p)))))
      (Refuse "login_user_not_permitted") in
    Ok (Users.Username (User p), NoMaterial)
  else if bool_decide (cMode c = ModeUserSupplied) then
    match uc with
    | None => Err (Refuse "credential_required")
    | Some u =>
        let? _ := refuse_if (bool_decide (ucUsername u = "") || (bool_decide (ucPassword u = "") && bool_decide (ucPrivateKey u = "")))
          (Refuse "credential_required") in
        if bool_decide (ucPrivateKey u = "") then Ok (ucUsername u, MPassword (to_bytes (ucPassword u)))
        else
          let? _ := refuse_if (negb (bool_decide (proto = SSH))) (Refuse "credential_required") in
          let? _ := refuse_if ((maxUserKey <? Z.of_nat (String.length (ucPrivateKey u)))
                               || (maxUserPassphrase <? Z.of_nat (String.length (ucPassphrase u)))) (Refuse "credential_invalid") in
          match UnlockPrivateKey e (ucPrivateKey u) (ucPassphrase u) with
          | Err _ => Err (Refuse "credential_invalid")
          | Ok key => Ok (ucUsername u, MKey key)
          end
    end
  else Err (Refuse "credential_mode_unavailable").

(** issueTicket up to [Tickets.Issue]: the grant and the secret it carries. *)
Definition plan (e : Env) (p : Middleware.Principal) (ip : string) (ep : endpoint) (proto : string) (uc : option userCredential)
    (failoverFrom : string) : result Refusal (Ticket.Grant * Material) :=
  let? _ := refuse_if (Draining e) (Refuse "restarting") in
  let? _ := refuse_if (negb (epActive ep)) (Refuse (if bool_decide (epASGInstanceID ep = "") then "target_disabled" else "instance_unhealthy")) in
  let? _ := refuse_if (negb (bool_decide (epASGID ep = "")) && bool_decide (proto = Protocol.Database)) (Refuse "protocol_unavailable") in
  match admits e (Users.ID (User p)) ep proto with
  | Failed => Err Fail
  | AccessFlow.Refused _ c => Err (Refuse (code_text c))
  | LetIn d =>
      let? _ := pinned ep proto in
      if bool_decide (proto = HTTP) then Ok (new_grant p (Users.Username (User p)) ip ep proto "" d failoverFrom, NoMaterial)
      else
        let own := negb (SignInTarget d) || (bool_decide (is_Some uc) && SignInOwn d) in
        let? cc := slot e ep proto own in
        let? um := material e p ep proto uc cc.2 in
        Ok (new_grant p um.1 ip ep proto cc.1 d failoverFrom, um.2)
  end.

(** A new array of the heap the ticket store shares. *)
Definition alloc (b : bytes) (s : Ticket.Store) : Ticket.loc * Ticket.Store :=
  let l := fresh (dom (Ticket.mem s)) in
  (l, {| Ticket.tickets := Ticket.tickets s; Ticket.mem := <[l := b]> (Ticket.mem s) |}).

Definition with_secret (sec key : Ticket.slice) (g : Ticket.Grant) : Ticket.Grant := {|
  Ticket.UserID := Ticket.UserID g; Ticket.Username := Ticket.Username g; Ticket.SessionID := Ticket.SessionID g;
  Ticket.TargetID := Ticket.TargetID g; Ticket.ASGID := Ticket.ASGID g; Ticket.ASGInstanceID := Ticket.ASGInstanceID g;
  Ticket.Protocol := Ticket.Protocol g; Ticket.CredentialID := Ticket.CredentialID g; Ticket.PolicyID := Ticket.PolicyID g;
  Ticket.IdleTimeout := Ticket.IdleTimeout g; Ticket.MaxSession := Ticket.MaxSession g; Ticket.RetentionDays := Ticket.RetentionDays g;
  Ticket.AllowClipboard := Ticket.AllowClipboard g; Ticket.AllowFileTransfer := Ticket.AllowFileTransfer g;
  Ticket.AllowDevTools := Ticket.AllowDevTools g; Ticket.ClientIP := Ticket.ClientIP g; Ticket.FailoverFrom := Ticket.FailoverFrom g;
  Ticket.UserSecret := sec; Ticket.UserKey := key; Ticket.IssuedAt := Ticket.IssuedAt g; Ticket.ExpiresAt := Ticket.ExpiresAt g |}.

Definition carry (m : Material) (g : Ticket.Grant) (s : Ticket.Store) : Ticket.Grant * Ticket.Store :=
  match m with
  | NoMaterial => (g, s)
  | MPassword b => let '(l, s) := alloc b s in (with_secret (Some l) None g, s)
  | MKey b => let '(l, s) := alloc b s in (with_secret None (Some l) g, s)
  end.

Definition issueTicket (e : Env) (raw : option bytes) (p : Middleware.Principal) (ip : string) (ep : endpoint) (proto : string)
    (uc : option userCredential) (failoverFrom : string) (s : Ticket.Store) : result Refusal string * Ticket.Store :=
  match plan e p ip ep proto uc failoverFrom with
  | Err x => (Err x, s)
  | Ok (g, m) =>
      let '(g, s) := carry m g s in
      let '(r, s) := Ticket.Issue raw (now e) g s in
      (match r with Ok tok => Ok tok | Err _ => Err Fail end, s)
  end.

Definition codeStatus (code : string) : Z :=
  if contains ["policy_denied"; "mfa_required_by_policy"; "approval_required"; "login_user_not_permitted"] code then 403
  else if contains ["credential_required"; "credential_invalid"; "address_forbidden"] code then 422
  else if contains ["protocol_unavailable"; "credential_mode_unavailable"; "engine_unavailable"] code then 501
  else if bool_decide (code = "not_found") then 404 else 409.

(** * The gateway's state *)

(** A row of [access_sessions]. *)
Record row := {
  rUserID : string;
  rPolicyID : string;
  rTargetID : string;
  rASGID : string;
  rASGInstanceID : string;
  rProtocol : string;
  rCredentialID : string;
  rClientIP : string;
  rStartedAt : time;
  rEndedAt : option time;
  rEndReason : string;
  rEndDetail : string;
  rFailoverFrom : string;
}.

(** How far the handler of a redeemed ticket has come, with its session's id. *)
Inductive stage := Opened | Started (sid : string) | Running (sid : string) | Closing (sid : string).

Record sessionRun := { rg : Ticket.Grant; rep : endpoint; rip : string; at_ : stage }.

Record state := {
  store : Ticket.Store;
  reg : Registry;
  rows : gmap string row;
  starting : gmap string time;
  runs : gmap N sessionRun;
}.

Definition set_store (x : Ticket.Store) (s : state) : state := {|
  store := x; reg := reg s; rows := rows s; starting := starting s; runs := runs s |}.
Definition set_reg (x : Registry) (s : state) : state := {|
  store := store s; reg := x; rows := rows s; starting := starting s; runs := runs s |}.
Definition set_rows (x : gmap string row) (s : state) : state := {|
  store := store s; reg := reg s; rows := x; starting := starting s; runs := runs s |}.
Definition set_starting (x : gmap string time) (s : state) : state := {|
  store := store s; reg := reg s; rows := rows s; starting := x; runs := runs s |}.
Definition set_runs (x : gmap N sessionRun) (s : state) : state := {|
  store := store s; reg := reg s; rows := rows s; starting := starting s; runs := x |}.

(** * The connect route *)

Record connectRequest := {
  qTargetID : string;
  qASGID : string;
  qASGInstanceID : string;
  qProtocol : string;
  qCredential : option userCredential;
}.

Inductive Answer_ :=
| ATicket (tok : string) (expires : time) (path : string)
| ARefused (status : Z) (code : string)
| ABadRequest
| AInternal
| AOpened (k : N).

Definition ticketPathFor (p : string) : string :=
  if bool_decide (p = RDP) || bool_decide (p = VNC) || bool_decide (p = HTTP) then "/ws/desktop"
  else if bool_decide (p = WinRM) then "/ws/winrm"
  else if bool_decide (p = Protocol.Database) then "/ws/database" else "/ws/terminal".

Definition preflight (e : Env) (ep : endpoint) (proto : string) : string :=
  if bool_decide (proto = SSH) || bool_decide (proto = RDP) || bool_decide (proto = VNC) || bool_decide (proto = WinRM) then
    match Resolve e (epAddress ep) with
    | LForbidden => "address_forbidden"
    | LUnknown => "target_unreachable"
    | LResolved => if Dials e (epAddress ep) (port ep proto) then "" else "target_unreachable"
    end
  else "".

Definition resolve_asked (e : Env) (q : connectRequest) : result ResolveErr endpoint :=
  if negb (bool_decide (qASGInstanceID q = "")) then resolveInstance e (qASGInstanceID q)
  else if negb (bool_decide (qASGID q = "")) then pickInstance e (qASGID q)
  else resolveTarget e (qTargetID q).

Definition connect (e : Env) (raw : option bytes) (p : Middleware.Principal) (ip : string) (q : connectRequest) (s : state)
    : Answer_ * state :=
  let proto := qProtocol q in
  if Draining e then (ARefused 503 "restarting", s)
  else if negb (bool_decide (DiskFull e = "")) then (ARefused 507 "disk_full", s)
  else if negb (ValidProtocol proto) then (ABadRequest, s)
  else if (bool_decide (proto = RDP) || bool_decide (proto = VNC) || bool_decide (proto = HTTP)) && bool_decide (GuacdAddr e = "")
  then (ARefused 501 "protocol_unavailable", s)
  else
    match resolve_asked e q with
    | Err NotFound_ => (ARefused 404 "not_found", s)
    | Err NoHealthyInstances => (ARefused 409 "no_healthy_instances", s)
    | Err Unavailable => (AInternal, s)
    | Ok ep =>
        let '(r, st) := issueTicket e raw p ip ep proto (qCredential q) "" (store s) in
        let s := set_store st s in
        match r with
        | Err Fail => (AInternal, s)
        | Err (Refuse c) => (ARefused (codeStatus c) c, s)
        | Ok tok =>
            let c := preflight e ep proto in
            if bool_decide (c = "") then (ATicket tok (now e + Ticket.TTL) (ticketPathFor proto), s) else (ARefused (codeStatus c) c, s)
        end
    end.

(** * Redeeming a ticket *)

(** The signed-in caller of a socket route; [None] without a sign-in. *)
Definition redeem (e : Env) (p : option Middleware.Principal) (ip tok : string) (st : Ticket.Store)
    : result Refusal Ticket.Grant * Ticket.Store :=
  if Draining e then (Err (Refuse "restarting"), st)
  else
    let '(r, st) := Ticket.Redeem tok ip (default "" ((Sessions.ID ∘ Session) <$> p)) (now e) st in
    match r with
    | Err _ => (Err (Refuse "invalid_ticket"), st)
    | Ok g =>
        let wiped := {| Ticket.tickets := Ticket.tickets st; Ticket.mem := Ticket.Wipe g (Ticket.mem st) |} in
        if negb (match p with Some p => CanConnect (User p) | None => false end) then (Err (Refuse "review_only"), wiped)
        else
          match resolveGrant e (Ticket.TargetID g) (Ticket.ASGInstanceID g) with
          | Err _ => (Ok g, st)
          | Ok ep =>
              match admits e (Ticket.UserID g) ep (Ticket.Protocol g) with
              | Failed => (Err Fail, wiped)
              | AccessFlow.Refused _ c => (Err (Refuse (code_text c)), wiped)
              | LetIn _ => (Ok g, st)
              end
          end
    end.

Inductive Route := WsTerminal | WsDesktop | WsWinRM | WsDatabase.

Definition serves (r : Route) (proto : string) : bool :=
  match r with
  | WsTerminal => bool_decide (proto = SSH)
  | WsDesktop => bool_decide (proto = RDP) || bool_decide (proto = VNC) || bool_decide (proto = HTTP)
  | WsWinRM => bool_decide (proto = WinRM)
  | WsDatabase => bool_decide (proto = Protocol.Database)
  end.

(** A fingerprint without its colons, in lower case. *)
Definition fingerprint (s : string) : string :=
  Strings.ToLower (of_bytes (List.filter (λ c, negb (Ascii.eqb c ":"%char)) (to_bytes s))).

Inductive PinErr := PinForbidden | PinMismatch | PinUnreachable.

Definition verifyPinnedCert (e : Env) (ep : endpoint) : result PinErr unit :=
  let? _ := refuse_if (negb (ProberSet e) || bool_decide (TLSFingerprint ep = "")) PinUnreachable in
  match Resolve e (epAddress ep) with
  | LForbidden => Err PinForbidden
  | LUnknown => Err PinUnreachable
  | LResolved =>
      match Presents e (epAddress ep) (port ep RDP) with
      | None => Err PinUnreachable
      | Some got => refuse_if (negb (bool_decide (fingerprint got = fingerprint (TLSFingerprint ep)))) PinMismatch
      end
  end.

Definition liveSessions (proto : string) (r : Registry) : Z :=
  Z.of_nat (length (List.filter (λ l, bool_decide (Registry.Protocol l = proto)) (List_ r))).

Definition room (most : Z) (proto : string) (r : Registry) : bool := negb ((0 <? most) && (most <=? liveSessions proto r)).

(** checkAddress with refuseAddress. *)
Definition address (e : Env) (ep : endpoint) : result (Z * string) unit :=
  match Resolve e (epAddress ep) with
  | LForbidden => Err (422, "address_forbidden")
  | LUnknown => Err (409, "target_unavailable")
  | LResolved => Ok tt
  end.

(** browser, up to the session's row. *)
Definition browser (e : Env) (ep : endpoint) (rg : Registry) : result (Z * string) unit :=
  let? _ := refuse_if (negb (ImagesSet e)) (501, "protocol_unavailable") in
  let? _ := refuse_if (negb (Parses e (AppUpstream ep))) (409, "target_unavailable") in
  let? _ := address e ep in
  let? _ := refuse_if (OriginForbidden e ep) (422, "address_forbidden") in
  refuse_if (negb (room (AppsMaxSessions e) HTTP rg)) (503, "too_many_sessions").

(** What each handler checks of the endpoint between resolving it and writing the
session's row, opening the credential left out.  The terminal checks the address
after the row is written, and ends the session when it is refused. *)
Definition gone : Z * string := (409, "target_unavailable").

Definition terminal (ep : endpoint) : result (Z * string) unit :=
  refuse_if (negb (epActive ep) || negb (HostKeyTrusted ep) || bool_decide (HostKeyFingerprint ep = "")) gone.

Definition winrm (e : Env) (ep : endpoint) : result (Z * string) unit :=
  let? _ := refuse_if (negb (epActive ep)) gone in
  let? _ := address e ep in
  refuse_if ((port ep WinRM =? 5985) || bool_decide (WinRMTLSFingerprint ep = "")) (409, "certificate_unpinned").

Definition database (e : Env) (ep : endpoint) (rg : Registry) : result (Z * string) unit :=
  let? _ := refuse_if (negb (epActive ep) || bool_decide (Engine ep = "")) gone in
  let? _ := address e ep in
  refuse_if (negb (room (DBMaxSessions e) Protocol.Database rg)) (503, "too_many_sessions").

Definition desktop (e : Env) (ep : endpoint) (proto : string) (rg : Registry) : result (Z * string) unit :=
  let? _ := refuse_if (negb (epActive ep)) gone in
  if bool_decide (proto = HTTP) then browser e ep rg
  else
    let? _ := address e ep in
    if bool_decide (proto = RDP) then
      match verifyPinnedCert e ep with
      | Ok _ => Ok tt
      | Err PinForbidden => Err (422, "address_forbidden")
      | Err PinMismatch => Err (409, "certificate_mismatch")
      | Err PinUnreachable => Err gone
      end
    else Ok tt.

Definition available (e : Env) (r : Route) (ep : endpoint) (proto : string) (rg : Registry) : result (Z * string) unit :=
  match r with
  | WsTerminal => terminal ep
  | WsWinRM => winrm e ep
  | WsDatabase => database e ep rg
  | WsDesktop => desktop e ep proto rg
  end.

(** * What an issued ticket says *)

(** The grant [g] was issued to [p] at [ip] for [ep], on the decision [d]. *)
Record IssuedIn (e : Env) (p : Middleware.Principal) (ip : string) (ep : endpoint) (d : Decision) (g : Ticket.Grant) : Prop := {
  is_running : Draining e = false;
  is_user : Ticket.UserID g = Users.ID (User p);
  is_signin : Ticket.SessionID g = Sessions.ID (Session p);
  is_ip : Ticket.ClientIP g = ip;
  is_subject : Ticket.TargetID g = epTargetID ep ∧ Ticket.ASGID g = epASGID ep ∧ Ticket.ASGInstanceID g = epASGInstanceID ep;
  is_active : epActive ep = true;
  is_pinned : pinned ep (Ticket.Protocol g) = Ok tt;
  is_admitted : admits e (Users.ID (User p)) ep (Ticket.Protocol g) = LetIn d;
  is_terms : Ticket.IdleTimeout g = PolicyEval.IdleTimeout d ∧ Ticket.MaxSession g = PolicyEval.MaxSession d;
  is_flags : Ticket.AllowClipboard g = dAllowClipboard d ∧ Ticket.AllowFileTransfer g = dAllowFileTransfer d
             ∧ Ticket.AllowDevTools g = dAllowDevTools d;
  is_expiry : Ticket.ExpiresAt g = now e + Ticket.TTL;
}.

Lemma plan_Ok e p ip ep proto uc f g m : plan e p ip ep proto uc f = Ok (g, m) →
  ∃ d name cred, Draining e = false ∧ epActive ep = true ∧ pinned ep proto = Ok tt ∧
    admits e (Users.ID (User p)) ep proto = LetIn d ∧ g = new_grant p name ip ep proto cred d f.
Proof.
  unfold plan. rewrite rbind_Ok. intros (? & H1 & H). apply rbind_Ok in H as (? & H2 & H), H as (? & _ & H).
  destruct (admits _ _ _ _) as [d| |] eqn:Ha; [|done..]. apply rbind_Ok in H as ([] & H3 & H).
  assert (Draining e = false) by by destruct (Draining e). assert (epActive ep = true) by by destruct (epActive ep).
  case_bool_decide; [injection H as <- <-; by eexists _, _, _|].
  apply rbind_Ok in H as (cc & _ & H), H as (um & _ & H). injection H as <- <-. by eexists _, _, _.
Qed.

Lemma plan_issued e p ip ep proto uc f g m sec key : plan e p ip ep proto uc f = Ok (g, m) →
  ∃ d, IssuedIn e p ip ep d (Ticket.stamp (now e) (with_secret sec key g)) ∧ Ticket.FailoverFrom g = f.
Proof. intros (d & name & cred & ? & ? & ? & ? & ->)%plan_Ok. exists d. by repeat split. Qed.

(** Issuing adds at most one ticket, with the terms of the decision. *)
Lemma issue_adds e raw p ip ep proto uc f st tok g :
  Ticket.tickets (issueTicket e raw p ip ep proto uc f st).2 !! tok = Some g →
  Ticket.tickets st !! tok = Some g ∨ (∃ d, IssuedIn e p ip ep d g) ∧ Ticket.FailoverFrom g = f.
Proof.
  unfold issueTicket. destruct (plan _ _ _ _ _ _ _) as [[g0 m]|] eqn:Hp; [|by left].
  assert (∃ sec key, carry m g0 st = (with_secret sec key g0, (carry m g0 st).2) ∧ Ticket.tickets (carry m g0 st).2 = Ticket.tickets st) as (sec & key & E & Ht).
  { destruct m; cbn; [exists (Ticket.UserSecret g0), (Ticket.UserKey g0); by destruct g0|by eexists _, _..]. }
  rewrite E. unfold Ticket.Issue. destruct raw as [raw|]; cbn; [|rewrite Ht; by left].
  rewrite lookup_insert_Some. intros [[_ <-]|[_ H]].
  - right. destruct (plan_issued _ _ _ _ _ _ _ _ _ sec key Hp) as (d & ? & ?). split; [by exists d|done].
  - left. rewrite <-Ht. by apply map_lookup_filter_Some in H as [? _].
Qed.

(** Redeeming gives a grant of the store that the caller's sign-in may open now. *)
Lemma redeem_Ok e p ip tok st g st' : redeem e p ip tok st = (Ok g, st') →
  ∃ q, p = Some q ∧ Draining e = false ∧ CanConnect (User q) = true ∧ Ticket.tickets st !! tok = Some g ∧
    now e ≤ Ticket.ExpiresAt g ∧ Ticket.ClientIP g = ip ∧ Ticket.SessionID g = Sessions.ID (Session q) ∧
    (∀ ep, resolveGrant e (Ticket.TargetID g) (Ticket.ASGInstanceID g) = Ok ep →
       ∃ d, admits e (Ticket.UserID g) ep (Ticket.Protocol g) = LetIn d).
Proof.
  unfold redeem. destruct (Draining e); [done|]. unfold Ticket.Redeem. destruct (Ticket.tickets st !! tok) as [g0|] eqn:Hg; [|done].
  destruct (_ || _ || _) eqn:Eb; [done|]. destruct p as [q|]; [|done]. destruct (CanConnect (User q)) eqn:Hc; [|done]. cbn [negb].
  apply orb_false_iff in Eb as [[Et Ei]%orb_false_iff Es]. unfold After in Et. apply bool_decide_eq_false in Et.
  apply negb_false_iff, bool_decide_eq_true in Ei, Es. cbn in Es. intros H. exists q.
  assert (g0 = g) as ->.
  { destruct (resolveGrant _ _ _); [destruct (admits _ _ _ _)|]; congruence. }
  split_and!; try done; [lia|]. intros ep Hep. rewrite Hep in H. destruct (admits _ _ _ _) as [d| |]; [by exists d|congruence..].
Qed.

(** Redeeming takes tickets out and puts none in. *)
Lemma redeem_shrinks e p ip tok st : Ticket.tickets (redeem e p ip tok st).2 ⊆ Ticket.tickets st.
Proof.
  unfold redeem. destruct (Draining e); [done|]. unfold Ticket.Redeem. destruct (Ticket.tickets st !! tok) as [g|]; [|done].
  destruct (_ || _ || _); [apply delete_subseteq|]. destruct (negb _); [apply delete_subseteq|].
  destruct (resolveGrant _ _ _); [destruct (admits _ _ _ _)|]; apply delete_subseteq.
Qed.

End tz.
