(* ===== verification/Gateway.v ===== *)
(** The gateway at work: src/internal/connect/run.go, asguser.go and revoke.go,
with the session rows of src/internal/session/session.go and the sweep of
sweep.go, over the connect flow of Connect.v.

[act] is one step of the gateway: a stage of some request's handler, a
revocation an administrator's change calls for, or a pass of the sweep; [run]
is any sequence of them.  There a pass of the sweep is one step; [gact] and
[grun] take it look by look and write by write among the others, with the
foreign keys of the session table ([null_row]).  The recordings a session writes
are not part of the state, and of the session table's writes only those that
close a row may fail. *)
From S2P Require Import Prelude GoText Protocol Policy PolicyEval Access AccessFlow Ticket Users Sessions Middleware Registry Connect.
Local Open Scope Z_scope.

(** * Session rows *)

Definition EndUserExit : string := "user_exit".
Definition EndTargetLost : string := "target_lost".
Definition EndFailover : string := "failover".
Definition EndError : string := "error".
Definition EndGatewayRestart : string := "gateway_restart".

Definition maxEndDetail : nat := 500.

(** [strings.ToValidUTF8(s, "")]: the invalid bytes are dropped. *)
Definition ToValidUTF8 (b : bytes) : bytes :=
  concat (List.filter (λ c, negb ((c.1 =? Utf8.RuneError)%N && (length c.2 =? 1)%nat)) (Utf8.chunks b)).*2.

Definition end_detail (detail : string) : string :=
  let d := Strings.TrimSpace detail in
  if (maxEndDetail <? String.length d)%nat then of_bytes (ToValidUTF8 (take maxEndDetail (to_bytes d)) ++ Utf8.encode 8230) else d.

Definition close_row (now : time) (reason detail : string) (r : row) : row :=
  match rEndedAt r with
  | Some _ => r
  | None => {| rUserID := rUserID r; rPolicyID := rPolicyID r; rTargetID := rTargetID r; rASGID := rASGID r;
      rASGInstanceID := rASGInstanceID r; rProtocol := rProtocol r; rCredentialID := rCredentialID r; rClientIP := rClientIP r;
      rStartedAt := rStartedAt r; rEndedAt := Some (TimeArg now); rEndReason := reason; rEndDetail := detail; rFailoverFrom := rFailoverFrom r |}
  end.

(** EndWithDetail, and End without one. *)
Definition EndWithDetail (now : time) (id reason detail : string) (t : gmap string row) : gmap string row :=
  alter (close_row now reason (end_detail detail)) id t.
Definition End_ (now : time) (id reason : string) (t : gmap string row) : gmap string row := EndWithDetail now id reason "" t.

(** Start: the row of a new session, refused for an account that does not exist
or an id already taken. *)
Definition Start (e : Env) (id : string) (r : row) (t : gmap string row) : option (gmap string row) :=
  if negb (UserExists e (rUserID r)) then None
  else match t !! id with Some _ => None | None => Some (<[id := r]> t) end.

(** * The life of a session *)

Definition startingFor : duration := 10 * Minute + 5 * Minute.

Definition Starting (now : time) (id : string) (m : gmap string time) : bool :=
  match m !! id with Some since => Sub now since <? startingFor | None => false end.

Definition markStarting (now : time) (id : string) (m : gmap string time) : gmap string time :=
  <[id := now]> (filter (λ kv, (Sub now kv.2 <? startingFor) = true) m).

(** A redeemed ticket that is dropped is wiped, as the deferred [g.Wipe] does. *)
Definition wipe (g : Ticket.Grant) (st : Ticket.Store) : Ticket.Store := {|
  Ticket.tickets := Ticket.tickets st; Ticket.mem := Ticket.Wipe g (Ticket.mem st) |}.

Definition set_stage (x : stage) (r : sessionRun) : sessionRun := {| rg := rg r; rep := rep r; rip := rip r; at_ := x |}.

(** sessionRun.endRow; [wrote] is false when the write failed, which is logged. *)
Definition endRow (now : time) (wrote : bool) (id reason detail : string) (s : state) : state :=
  set_rows (if wrote then EndWithDetail now id reason detail (rows s) else rows s) (set_starting (delete id (starting s)) s).

Section tz.
Context `{TZ : TimeZones}.

Definition redeemStatus (code : string) : Z :=
  if bool_decide (code = "restarting") then 503 else if bool_decide (code = "invalid_ticket") then 401
  else if bool_decide (code = "review_only") then 403 else codeStatus code.

(** A socket route up to the session's row: the ticket is redeemed, with what the
stores answer then ([e]), and the endpoint resolved again, with what they answer
after that ([e']). *)
Definition open_ (e e' : Env) (r : Route) (p : option Middleware.Principal) (ip tok : string) (k : N) (s : state) : Answer_ * state :=
  let '(x, st) := redeem e p ip tok (store s) in
  match x with
  | Err (Refuse c) => (ARefused (redeemStatus c) c, set_store st s)
  | Err Fail => (AInternal, set_store st s)
  | Ok g =>
      let out := set_store (wipe g st) s in
      if negb (serves r (Ticket.Protocol g)) then (ABadRequest, out)
      else if match r with WsDesktop => bool_decide (GuacdAddr e' = "") | _ => false end then (ARefused 501 "protocol_unavailable", out)
      else
        match resolveGrant e' (Ticket.TargetID g) (Ticket.ASGInstanceID g) with
        | Err _ => (ARefused 409 "target_unavailable", out)
        | Ok ep =>
            match available e' r ep (Ticket.Protocol g) (reg s) with
            | Ok _ => (AOpened k, set_runs (<[k := {| rg := g; rep := ep; rip := ip; at_ := Opened |}]> (runs s)) (set_store st s))
            | Err (status, code) => (ARefused status code, out)
            end
        end
  end.

Definition new_row (now : time) (r : sessionRun) : row := {|
  rUserID := Ticket.UserID (rg r); rPolicyID := Ticket.PolicyID (rg r); rTargetID := epTargetID (rep r); rASGID := epASGID (rep r);
  rASGInstanceID := epASGInstanceID (rep r); rProtocol := Ticket.Protocol (rg r); rCredentialID := Ticket.CredentialID (rg r);
  rClientIP := rip r; rStartedAt := TimeArg now; rEndedAt := None; rEndReason := ""; rEndDetail := ""; rFailoverFrom := Ticket.FailoverFrom (rg r) |}.

Definition drop_run (k : N) (r : sessionRun) (s : state) : state :=
  set_runs (delete k (runs s)) (set_store (wipe (rg r) (store s)) s).

(** startRun, for the session id [sid] drawn. *)
Definition startRun (e : Env) (k : N) (sid : string) (s : state) : state :=
  match runs s !! k with
  | Some r =>
      match at_ r with
      | Opened =>
          match Start e sid (new_row (now e) r) (rows s) with
          | None => drop_run k r s
          | Some t =>
              let s := set_runs (<[k := set_stage (Started sid) r]> (runs s)) (set_starting (markStarting (now e) sid (starting s)) (set_rows t s)) in
              if bool_decide (Ticket.FailoverFrom (rg r) = "") then s else endRow (now e) true (Ticket.FailoverFrom (rg r)) EndFailover "" s
          end
      | _ => s
      end
  | None => s
  end.

Definition live_of (r : sessionRun) (sid : string) : Live := {|
  Registry.SessionID := sid; Registry.UserID := Ticket.UserID (rg r); Registry.TargetID := LiveKey (rep r);
  Registry.Protocol := Ticket.Protocol (rg r); Registry.PolicyID := Ticket.PolicyID (rg r);
  Registry.AllowClipboard := Ticket.AllowClipboard (rg r); Registry.AllowFileTransfer := Ticket.AllowFileTransfer (rg r);
  Registry.AllowDevTools := Ticket.AllowDevTools (rg r); Registry.StartedAt := zero_time; Registry.tap := None;
  Registry.GuacID := ""; Registry.ctx := 0%nat; Registry.ended := false |}.

(** sessionRun.live. *)
Definition live_ (e : Env) (k : N) (s : state) : state :=
  match runs s !! k with
  | Some r =>
      match at_ r with
      | Started sid =>
          set_runs (<[k := set_stage (Running sid) r]> (runs s))
            (set_starting (delete sid (starting s)) (set_reg (Add (now e) (live_of r sid) (reg s)).2 s))
      | _ => s
      end
  | None => s
  end.

(** sessionRun.end before the bridge runs, and finish after it; an opened socket
that comes to nothing leaves no row. *)
Definition end_ (e : Env) (k : N) (wrote : bool) (reason detail : string) (s : state) : state :=
  match runs s !! k with
  | Some r =>
      match at_ r with
      | Opened => drop_run k r s
      | Started sid => drop_run k r (endRow (now e) wrote sid reason detail s)
      | Running sid =>
          set_runs (<[k := set_stage (Closing sid) r]> (runs s))
            (endRow (now e) wrote sid (if bool_decide (reason = "") then EndError else reason) detail s)
      | Closing _ => s
      end
  | None => s
  end.

(** The function [live] returned, run as the handler returns. *)
Definition done_ (k : N) (s : state) : state :=
  match runs s !! k with
  | Some r => match at_ r with Closing sid => drop_run k r (set_reg (Remove sid (reg s)) s) | _ => s end
  | None => s
  end.

(** * Failing over to another instance *)

Definition fail_over_to (e : Env) (old : row) (instanceID : string) : result ResolveErr endpoint :=
  if bool_decide (instanceID = "") then pickInstance e (rASGID old)
  else
    let? ep := resolveInstance e instanceID in
    if bool_decide (epASGID ep = rASGID old) then Ok ep else Err NotFound_.

(** Whether the session may fail over, and the state once it is taken as lost. *)
Definition take_as_lost (e : Env) (id : string) (old : row) (s : state) : option state :=
  match rEndedAt old with
  | None =>
      let healthy := match ASGs e with
                     | Some a => match aGetInstance a (rASGInstanceID old) with Ok i => inHealthy i | Err _ => false end
                     | None => false
                     end in
      if healthy then None
      else Some (set_reg (TerminateWithCause id ErrTargetLost (reg s)).2 (set_rows (End_ (now e) id EndTargetLost (rows s)) s))
  | Some _ => if bool_decide (rEndReason old = EndTargetLost) then Some s else None
  end.

Definition failover (e : Env) (raw : option bytes) (p : Middleware.Principal) (ip id instanceID : string) (uc : option userCredential) (s : state)
    : Answer_ * state :=
  match rows s !! id with
  | None => (ARefused 404 "not_found", s)
  | Some old =>
      if negb (bool_decide (rUserID old = Users.ID (User p))) then (ARefused 403 "forbidden", s)
      else if bool_decide (rASGID old = "") then (ARefused 409 "not_failoverable", s)
      else
        match take_as_lost e id old s with
        | None => (ARefused 409 "not_failoverable", s)
        | Some s =>
            match fail_over_to e old instanceID with
            | Err NotFound_ => (ARefused 404 "not_found", s)
            | Err NoHealthyInstances => (ARefused 409 "no_healthy_instances", s)
            | Err Unavailable => (AInternal, s)
            | Ok ep =>
                let '(r, st) := issueTicket e raw p ip ep (rProtocol old) uc id (store s) in
                let s := set_store st s in
                match r with
                | Err Fail => (AInternal, s)
                | Err (Refuse c) => (ARefused (codeStatus c) c, s)
                | Ok tok => (ATicket tok (now e + Ticket.TTL) (ticketPathFor (rProtocol old)), s)
                end
            end
        end
  end.

(** * Revocation *)

(** sessionRef: what the session is connected to, resolved as it is now. *)
Definition sessionRef (e : Env) (sid : string) (s : state) : option TargetRef :=
  match rows s !! sid with
  | None => None
  | Some r => match resolveGrant e (rTargetID r) (rASGInstanceID r) with Ok ep => Some (policyRef ep) | Err _ => None end
  end.

(** A live session the access its user holds now does not cover; [false] too
where that cannot be checked. *)
Definition withdrawn (e : Env) (s : state) (l : Live) : bool :=
  match sessionRef e (SessionID l) s with
  | None => false
  | Some ref =>
      match AdmitLive (gate e) (Registry.UserID l) ref (Registry.Protocol l) (now e) with
      | Failed => false
      | AccessFlow.Refused _ _ => true
      | LetIn d =>
          (Registry.AllowClipboard l && negb (dAllowClipboard d)) || (Registry.AllowFileTransfer l && negb (dAllowFileTransfer d))
          || (Registry.AllowDevTools l && negb (dAllowDevTools d))
      end
  end.

(** Ends the sessions one by one, and counts those this call ended. *)
Fixpoint revoke_each (cause : Cause) (ls : list Live) (r : Registry) : nat * Registry :=
  match ls with
  | [] => (0%nat, r)
  | l :: ls =>
      let '(first, r) := TerminateWithCause (SessionID l) cause r in
      let '(n, r) := revoke_each cause ls r in
      ((if first then S n else n), r)
  end.

Definition Recheck (e : Env) (userIDs : list string) (s : state) : nat * state :=
  let sessions := List.filter (λ l, bool_decide (Registry.UserID l ∈ userIDs)) (List_ (reg s)) in
  let '(n, r) := revoke_each ErrPolicyRevoked (List.filter (withdrawn e s) sessions) (reg s) in
  (n, set_reg r s).

Definition UserRevoked (userID : string) (s : state) : nat * state :=
  let '(n, r) := TerminateUser userID (reg s) in (n, set_reg r s).

Definition TargetDisabled (targetID : string) (s : state) : nat * state :=
  let '(n, r) := TerminateTarget targetID ErrTargetDisabled (reg s) in (n, set_reg r s).

Definition TargetTrustLost (targetID : string) (s : state) : nat * state :=
  let '(n, r) := TerminateTarget targetID ErrTrustLost (reg s) in (n, set_reg r s).

(** The live sessions a just-in-time grant covered and the gate no longer admits. *)
Definition lost_grant (e : Env) (s : state) (userID asgID proto : string) (l : Live) : bool :=
  match sessionRef e (SessionID l) s with
  | None => false
  | Some ref =>
      if negb (bool_decide (asgID = "")) && negb (bool_decide (tASGID ref = asgID)) then false
      else match Admit (gate e) userID ref proto (now e) with AccessFlow.Refused _ _ => true | _ => false end
  end.

Definition grantWithdrawn (e : Env) (userID targetID asgID proto : string) (cause : Cause) (s : state) : nat * state :=
  let sessions := List.filter (λ l, bool_decide (Registry.UserID l = userID) && bool_decide (Registry.Protocol l = proto)
                                    && (bool_decide (targetID = "") || bool_decide (Registry.TargetID l = targetID))) (List_ (reg s)) in
  let '(n, r) := revoke_each cause (List.filter (lost_grant e s userID asgID proto) sessions) (reg s) in
  (n, set_reg r s).

Definition GrantRevoked (e : Env) (userID targetID asgID proto : string) (s : state) : nat * state :=
  grantWithdrawn e userID targetID asgID proto ErrGrantRevoked s.
Definition GrantExpired (e : Env) (userID targetID asgID proto : string) (s : state) : nat * state :=
  grantWithdrawn e userID targetID asgID proto ErrGrantExpired s.

(** * The sweep *)

(** What the gateway runs: in its registry, or starting. *)
Definition runs_it (now : time) (s : state) (sid : string) : bool :=
  bool_decide (is_Some (Get sid (reg s))) || Starting now sid (starting s).

Definition abandoned (now cutoff : time) (s : state) (sid : string) (r : row) : bool :=
  match rEndedAt r with Some _ => false | None => (rStartedAt r <? TimeArg cutoff) && negb (runs_it now s sid) end.

Definition EndAbandoned (now cutoff : time) (reason detail : string) (s : state) : state :=
  set_rows (map_imap (λ sid r, Some (if abandoned now cutoff s sid r then close_row now reason detail r else r)) (rows s)) s.

Definition sweepGrace : duration := 3 * Minute.

Definition Pass (now : time) (s : state) : state :=
  EndAbandoned now (now - sweepGrace) EndError "the gateway lost track of this session" s.

Definition Startup (now boot : time) (s : state) : state :=
  EndAbandoned now boot EndGatewayRestart "the gateway restarted while this session was open" s.

(** * Histories *)

Inductive act :=
| AConnect (e : Env) (raw : option bytes) (p : Middleware.Principal) (ip : string) (q : connectRequest)
| AFailover (e : Env) (raw : option bytes) (p : Middleware.Principal) (ip id instanceID : string) (uc : option userCredential)
| AOpen (e e' : Env) (r : Route) (p : option Middleware.Principal) (ip tok : string) (k : N)
| AStart (e : Env) (k : N) (sid : string)
| ALive (e : Env) (k : N)
| ASetGuacID (sid guacID : string)
| AEnd (e : Env) (k : N) (wrote : bool) (reason detail : string)
| ADone (k : N)
| ATerminate (sid : string)
| ARecheck (e : Env) (userIDs : list string)
| AUserRevoked (userID : string)
| ATargetDisabled (targetID : string)
| ATargetTrustLost (targetID : string)
| AGrantRevoked (e : Env) (userID targetID asgID proto : string)
| AGrantExpired (e : Env) (userID targetID asgID proto : string)
| APass (now : time).

(** A request's key is its own. *)
Definition step (a : act) (s : state) : state :=
  match a with
  | AConnect e raw p ip q => (connect e raw p ip q s).2
  | AFailover e raw p ip id i uc => (failover e raw p ip id i uc s).2
  | AOpen e e' r p ip tok k => match runs s !! k with None => (open_ e e' r p ip tok k s).2 | Some _ => s end
  | AStart e k sid => startRun e k sid s
  | ALive e k => live_ e k s
  | ASetGuacID sid g => set_reg (SetGuacID sid g (reg s)) s
  | AEnd e k wrote reason detail => end_ e k wrote reason detail s
  | ADone k => done_ k s
  | ATerminate sid => set_reg (Terminate sid (reg s)).2 s
  | ARecheck e us => (Recheck e us s).2
  | AUserRevoked u => (UserRevoked u s).2
  | ATargetDisabled t => (TargetDisabled t s).2
  | ATargetTrustLost t => (TargetTrustLost t s).2
  | AGrantRevoked e u t a p => (GrantRevoked e u t a p s).2
  | AGrantExpired e u t a p => (GrantExpired e u t a p s).2
  | APass now => Pass now s
  end.

Definition init : state := {|
  store := NewStore ∅; reg := NewRegistry; rows := ∅; starting := ∅; runs := ∅ |}.

Definition run (l : list act) : state := foldl (λ s a, step a s) init l.

(** ** The sweep, step by step

[APass] is a pass that nothing interrupts.  In the gateway a pass lists the old
open rows, then looks for each in the registry, then among the starting
sessions, and closes it when it was in neither; anything may happen in between,
and a write that fails ends the pass.  Rows that the table of sessions refers to
may be deleted too, which empties the reference. *)

Inductive sweep_at :=
| SIdle
| SList (todo : list string)
| SUnseen (sid : string) (todo : list string)  (* not in the registry *)
| SDead (sid : string) (todo : list string).   (* nor starting *)

Record gateway := { core : state; sweep : sweep_at }.

(** The references of a session's row that are set to NULL. *)
Inductive column := CPolicy | CTarget | CASG | CInstance | CCredential | CFailoverFrom.

Inductive gact :=
| GAct (a : act)
| GRead (now : time)
| GLook
| GLookAgain (now : time)
| GWrite (now : time) (ok : bool)
| GGone (c : column) (id : string).

Definition openBefore (cutoff : time) (t : gmap string row) : list string :=
  (List.filter (λ ir, negb (is_Some_b (rEndedAt ir.2)) && (rStartedAt ir.2 <? TimeArg cutoff)) (map_to_list t)).*1.

Definition next (todo : list string) : sweep_at := match todo with [] => SIdle | _ => SList todo end.

Definition lost_track : string := "the gateway lost track of this session".

Definition null_if (gone : bool) (id x : string) : string := if gone && bool_decide (x = id) then "" else x.

Definition column_is (c d : column) : bool :=
  match c, d with
  | CPolicy, CPolicy | CTarget, CTarget | CASG, CASG | CInstance, CInstance | CCredential, CCredential | CFailoverFrom, CFailoverFrom => true
  | _, _ => false
  end.

Definition null_row (c : column) (id : string) (w : row) : row := {|
  rUserID := rUserID w; rPolicyID := null_if (column_is c CPolicy) id (rPolicyID w); rTargetID := null_if (column_is c CTarget) id (rTargetID w);
  rASGID := null_if (column_is c CASG) id (rASGID w); rASGInstanceID := null_if (column_is c CInstance) id (rASGInstanceID w);
  rProtocol := rProtocol w; rCredentialID := null_if (column_is c CCredential) id (rCredentialID w); rClientIP := rClientIP w;
  rStartedAt := rStartedAt w; rEndedAt := rEndedAt w; rEndReason := rEndReason w; rEndDetail := rEndDetail w;
  rFailoverFrom := null_if (column_is c CFailoverFrom) id (rFailoverFrom w) |}.

(** The two looks of [live]: in the registry, and then among the starting. *)
Definition looks (now : option time) (sid : string) (s : state) : bool :=
  match now with
  | None => bool_decide (is_Some (Get sid (reg s)))
  | Some now => Starting now sid (starting s)
  end.

Definition gstep (g : gateway) (x : gact) : gateway :=
  match x, sweep g with
  | GAct a, _ => {| core := step a (core g); sweep := sweep g |}
  | GRead now, SIdle => {| core := core g; sweep := next (openBefore (now - sweepGrace) (rows (core g))) |}
  | GLook, SList (sid :: todo) =>
      {| core := core g; sweep := if looks None sid (core g) then next todo else SUnseen sid todo |}
  | GLookAgain now, SUnseen sid todo =>
      {| core := core g; sweep := if looks (Some now) sid (core g) then next todo else SDead sid todo |}
  | GWrite now ok, SDead sid todo =>
      if ok then {| core := set_rows (alter (close_row now EndError lost_track) sid (rows (core g))) (core g); sweep := next todo |}
      else {| core := core g; sweep := SIdle |}
  | GGone c id, _ => {| core := set_rows (null_row c id <$> rows (core g)) (core g); sweep := sweep g |}
  | _, _ => g
  end.

Definition grun (G : list gact) : gateway := foldl gstep {| core := init; sweep := SIdle |} G.

(** * Where tickets and sessions come from *)

(** [g] was issued by a request of the history. *)
Definition Issued (h : list act) (g : Ticket.Grant) : Prop :=
  ∃ e p ip ep d, IssuedIn e p ip ep d g ∧
    ((∃ raw q, AConnect e raw p ip q ∈ h) ∨ (∃ raw id i uc, AFailover e raw p ip id i uc ∈ h)).

(** The gate admits the grant again, where its target can be resolved. *)
Definition asked_again (e : Env) (g : Ticket.Grant) : Prop :=
  match resolveGrant e (Ticket.TargetID g) (Ticket.ASGInstanceID g) with
  | Ok ep => ∃ d, admits e (Ticket.UserID g) ep (Ticket.Protocol g) = LetIn d
  | Err _ => True
  end.

(** The request that opened [r] redeemed a ticket issued before, and passed the
checks of its route. *)
Definition OpenedBy (h : list act) (r : sessionRun) : Prop :=
  ∃ h1 e e' rt p tok k h2 reg0, h = h1 ++ AOpen e e' rt (Some p) (rip r) tok k :: h2 ∧ Issued h1 (rg r) ∧
    CanConnect (User p) = true ∧ Sessions.ID (Session p) = Ticket.SessionID (rg r) ∧ rip r = Ticket.ClientIP (rg r) ∧
    now e ≤ Ticket.ExpiresAt (rg r) ∧ asked_again e (rg r) ∧
    resolveGrant e' (Ticket.TargetID (rg r)) (Ticket.ASGInstanceID (rg r)) = Ok (rep r) ∧
    serves rt (Ticket.Protocol (rg r)) = true ∧ available e' rt (rep r) (Ticket.Protocol (rg r)) reg0 = Ok tt.

Lemma Issued_mono h h' g : Issued h g → Issued (h ++ h') g.
Proof.
  intros (e & p & ip & ep & d & Hi & H). exists e, p, ip, ep, d. split; [done|].
  destruct H as [(raw & q & H)|(raw & id & i & uc & H)]; [left; exists raw, q|right; exists raw, id, i, uc]; apply elem_of_app; by left.
Qed.

Lemma OpenedBy_mono h h' r : OpenedBy h r → OpenedBy (h ++ h') r.
Proof.
  intros (h1 & e & e' & rt & p & tok & k & h2 & r0 & -> & H). exists h1, e, e', rt, p, tok, k, (h2 ++ h'), r0.
  split; [by rewrite <-app_assoc|done].
Qed.

(** * The registry under revocation *)

(** Two entries of the registry for the same session. *)
Definition same_who (l l' : Live) : Prop :=
  Registry.UserID l = Registry.UserID l' ∧ Registry.TargetID l = Registry.TargetID l' ∧ Registry.Protocol l = Registry.Protocol l' ∧
  Registry.AllowClipboard l = Registry.AllowClipboard l' ∧ Registry.AllowFileTransfer l = Registry.AllowFileTransfer l' ∧
  Registry.AllowDevTools l = Registry.AllowDevTools l' ∧ SessionID l = SessionID l'.

#[local] Instance same_who_equiv : Equivalence same_who.
Proof. split; [by repeat split|unfold same_who; intros ??; intuition|unfold same_who; intros ???; intuition congruence]. Qed.

(** The same sessions are registered. *)
Definition similar (r r' : Registry) : Prop := ∀ sid, option_Forall2 same_who (live r !! sid) (live r' !! sid).

#[local] Instance similar_preorder : PreOrder similar.
Proof.
  split; [intros r sid; destruct (live r !! sid); constructor; reflexivity|]. intros r1 r2 r3 H1 H2 sid.
  specialize (H1 sid). specialize (H2 sid). revert H1 H2. generalize (live r1 !! sid), (live r2 !! sid), (live r3 !! sid). intros a b c H1 H2.
  destruct H1; inversion H2; subst; constructor. by etrans.
Qed.

Lemma similar_where keep cause r : similar r (terminateWhere keep cause r).2.
Proof.
  intros sid. cbn [terminateWhere snd live]. rewrite lookup_fmap. destruct (live r !! sid) as [l|]; [|constructor].
  constructor. destruct (_ && _); by repeat split.
Qed.

Lemma similar_one sid cause r : similar r (end_one sid cause r).2.
Proof.
  intros sid'. unfold end_one. destruct (live r !! sid) as [l|] eqn:E; [|by apply similar_preorder]. destruct (ended l); [by apply similar_preorder|].
  cbn. destruct (decide (sid' = sid)) as [->|Hne]; [rewrite lookup_insert_eq, E|rewrite lookup_insert_ne by done; by apply similar_preorder].
  constructor. by repeat split.
Qed.

Lemma similar_cause sid cause r : similar r (TerminateWithCause sid cause r).2.
Proof. unfold TerminateWithCause. pose proof (similar_one sid cause r). by destruct (end_one sid cause r) as [[??]?]. Qed.

Lemma similar_terminate sid r : similar r (Terminate sid r).2.
Proof. unfold Terminate. pose proof (similar_one sid ErrAdminTerminated r). by destruct (end_one sid ErrAdminTerminated r) as [[??]?]. Qed.

Lemma similar_each cause ls : ∀ r, similar r (revoke_each cause ls r).2.
Proof.
  induction ls as [|l ls IH]; intros r; [reflexivity|]. cbn [revoke_each].
  pose proof (similar_cause (SessionID l) cause r) as H. destruct (TerminateWithCause (SessionID l) cause r) as [b r1].
  specialize (IH r1). destruct (revoke_each cause ls r1) as [n r2]. by etrans.
Qed.

Lemma similar_guac sid g r : similar r (SetGuacID sid g r).
Proof.
  intros sid'. cbn. destruct (decide (sid' = sid)) as [->|Hne]; [rewrite lookup_alter_eq|rewrite lookup_alter_ne by done; by apply similar_preorder].
  destruct (live r !! sid); constructor. by repeat split.
Qed.

(** * What holds in every state *)

Definition session_of (x : stage) : option string :=
  match x with Opened => None | Started sid | Running sid | Closing sid => Some sid end.

Record Inv (h : list act) (s : state) : Prop := {
  inv_tickets tok g : Ticket.tickets (store s) !! tok = Some g → Issued h g;
  inv_runs k r : runs s !! k = Some r → OpenedBy h r;
  inv_live sid l : live (reg s) !! sid = Some l → ∃ k r, runs s !! k = Some r ∧ (at_ r = Running sid ∨ at_ r = Closing sid) ∧ same_who l (live_of r sid);
  inv_sid k k' r r' sid : runs s !! k = Some r → runs s !! k' = Some r' → session_of (at_ r) = Some sid → session_of (at_ r') = Some sid → k = k';
  inv_row k r sid : runs s !! k = Some r → session_of (at_ r) = Some sid → is_Some (rows s !! sid);
  inv_reg k r sid : runs s !! k = Some r → at_ r = Running sid → is_Some (live (reg s) !! sid);
  inv_starting sid t : starting s !! sid = Some t → ∃ k r, runs s !! k = Some r ∧ at_ r = Started sid;
}.

Lemma Inv_weaken h h' s : Inv h s → Inv (h ++ h') s.
Proof. intros [H1 H2 H3 H4 H5 H6 H7]. split; eauto using Issued_mono, OpenedBy_mono. Qed.

Lemma Inv_set_store h s st : Inv h s → (∀ tok g, Ticket.tickets st !! tok = Some g → Issued h g) → Inv h (set_store st s).
Proof. intros [H1 H2 H3 H4 H5 H6 H7] H. split; eauto. Qed.

Lemma Inv_shrink h s st : Inv h s → Ticket.tickets st ⊆ Ticket.tickets (store s) → Inv h (set_store st s).
Proof. intros HI Hs. apply Inv_set_store; [done|]. intros tok g Hg. eapply inv_tickets; [done|]. by eapply lookup_weaken. Qed.

Lemma Inv_set_reg h s r' : Inv h s → similar (reg s) r' → Inv h (set_reg r' s).
Proof.
  intros [H1 H2 H3 H4 H5 H6 H7] Hs. split; cbn; eauto.
  - intros sid l Hl. specialize (Hs sid). rewrite Hl in Hs. inversion Hs as [l0 ? Hw E|]; subst.
    destruct (H3 sid l0) as (k & r & ? & ? & ?); [done|]. exists k, r. split_and!; [done..|]. by etrans; [symmetry|].
  - intros k r sid Hk Hr. specialize (Hs sid). destruct (H6 k r sid Hk Hr) as [l Hl]. rewrite Hl in Hs. inversion Hs; subst. eauto.
Qed.

Lemma Inv_set_rows h s t : Inv h s → (∀ sid, is_Some (rows s !! sid) → is_Some (t !! sid)) → Inv h (set_rows t s).
Proof. intros [H1 H2 H3 H4 H5 H6 H7] Ht. split; cbn; eauto. Qed.

Lemma Inv_set_starting h s m : Inv h s → m ⊆ starting s → Inv h (set_starting m s).
Proof. intros [H1 H2 H3 H4 H5 H6 H7] Hm. split; cbn; eauto using lookup_weaken. Qed.

Lemma alter_some {A} (f : A → A) i j (t : gmap string A) : is_Some (t !! j) → is_Some (alter f i t !! j).
Proof. rewrite lookup_alter. case_decide; [subst; by rewrite fmap_is_Some|done]. Qed.

Lemma Inv_endRow h s now wrote id reason detail : Inv h s → Inv h (endRow now wrote id reason detail s).
Proof.
  intros HI. apply Inv_set_rows; [by apply Inv_set_starting, delete_subseteq|]. cbn. intros sid Hs. destruct wrote; [|done]. by apply alter_some.
Qed.

Lemma Inv_drop h s k r : Inv h s → runs s !! k = Some r →
  (∀ sid, session_of (at_ r) = Some sid → live (reg s) !! sid = None ∧ starting s !! sid = None) → Inv h (drop_run k r s).
Proof.
  intros [H1 H2 H3 H4 H5 H6 H7] Hk Hn. split; cbn; [done|..].
  - intros k' r' [_ ?]%lookup_delete_Some. eauto.
  - intros sid l Hl. destruct (H3 sid l Hl) as (k' & r' & Hk' & Hs & ?). exists k', r'. split_and!; [|done..].
    apply lookup_delete_Some. split; [|done]. intros <-. simplify_eq. destruct (Hn sid) as [? _]; [by destruct Hs as [-> | ->]|]. congruence.
  - intros ????? [_ ?]%lookup_delete_Some [_ ?]%lookup_delete_Some. eauto.
  - intros ??? [_ ?]%lookup_delete_Some. eauto.
  - intros ??? [_ ?]%lookup_delete_Some. eauto.
  - intros sid t Ht. destruct (H7 sid t Ht) as (k' & r' & Hk' & Hs). exists k', r'. split; [|done].
    apply lookup_delete_Some. split; [|done]. intros <-. simplify_eq. destruct (Hn sid) as [_ ?]; [by rewrite Hs|]. congruence.
Qed.

(** A run moves on: its grant stays, and so does its session once it has one. *)
Lemma Inv_move h s k r x : Inv h s → runs s !! k = Some r → session_of x = session_of (at_ r) →
  (∀ sid, live (reg s) !! sid ≠ None → session_of (at_ r) = Some sid → x = Running sid ∨ x = Closing sid) →
  (∀ sid, starting s !! sid ≠ None → session_of (at_ r) = Some sid → x = Started sid) →
  (∀ sid, x = Running sid → is_Some (live (reg s) !! sid)) →
  Inv h (set_runs (<[k := set_stage x r]> (runs s)) s).
Proof.
  intros [H1 H2 H3 H4 H5 H6 H7] Hk Hx Hl Hs Hr.
  assert (∀ k' r', <[k := set_stage x r]> (runs s) !! k' = Some r' → ∃ r0, runs s !! k' = Some r0 ∧ session_of (at_ r') = session_of (at_ r0)) as Hold.
  { intros k' r' [[<- <-]|[_ ?]]%lookup_insert_Some; eauto. }
  split; cbn; [done|..].
  - intros k' r' [[<- <-]|[_ ?]]%lookup_insert_Some; [apply (H2 k r Hk)|eauto].
  - intros sid l Hll. destruct (H3 sid l Hll) as (k' & r' & Hk' & Ha & Hw). destruct (decide (k' = k)) as [->|Hne].
    + simplify_eq. exists k, (set_stage x r). rewrite lookup_insert_eq. split_and!; [done| |done]. apply Hl; [congruence|by destruct Ha as [-> | ->]].
    + exists k', r'. by rewrite lookup_insert_ne.
  - intros k1 k2 r1 r2 sid (r1' & ? & E1)%Hold (r2' & ? & E2)%Hold ??. apply (H4 k1 k2 r1' r2' sid); congruence.
  - intros k1 r1 sid (r1' & ? & E1)%Hold ?. apply (H5 k1 r1' sid); congruence.
  - intros k' r' sid [[<- <-]|[_ ?]]%lookup_insert_Some; eauto.
  - intros sid t Ht. destruct (H7 sid t Ht) as (k' & r' & Hk' & Ha). destruct (decide (k' = k)) as [->|Hne].
    + simplify_eq. exists k, (set_stage x r). rewrite lookup_insert_eq. split; [done|]. apply Hs; [congruence|by rewrite Ha].
    + exists k', r'. by rewrite lookup_insert_ne.
Qed.

(** A session that is not registered yet, and one that is no longer starting. *)
Lemma not_live h s k r sid : Inv h s → runs s !! k = Some r → at_ r = Started sid → live (reg s) !! sid = None.
Proof.
  intros HI Hk Ha. destruct (live (reg s) !! sid) as [l|] eqn:E; [|done]. destruct (inv_live _ _ HI sid l E) as (k' & r' & Hk' & Hs & _).
  assert (k = k') as <- by (eapply (inv_sid _ _ HI k k' r r' sid); [done..|by rewrite Ha|by destruct Hs as [-> | ->]]). destruct Hs; congruence.
Qed.

Lemma not_starting h s k r sid : Inv h s → runs s !! k = Some r → at_ r = Running sid ∨ at_ r = Closing sid → starting s !! sid = None.
Proof.
  intros HI Hk Ha. destruct (starting s !! sid) as [t|] eqn:E; [|done]. destruct (inv_starting _ _ HI sid t E) as (k' & r' & Hk' & Hs).
  assert (k = k') as <- by (eapply (inv_sid _ _ HI k k' r r' sid); [done..|by destruct Ha as [-> | ->]|by rewrite Hs]). destruct Ha; congruence.
Qed.

Lemma Inv_open h s e e' rt p ip tok k : Inv h s → runs s !! k = None →
  Inv (h ++ [AOpen e e' rt p ip tok k]) (open_ e e' rt p ip tok k s).2.
Proof.
  intros HI0 Hk. pose proof (Inv_weaken _ [AOpen e e' rt p ip tok k] _ HI0) as HI. unfold open_.
  pose proof (redeem_shrinks e p ip tok (store s)) as Hsh. destruct (redeem e p ip tok (store s)) as [x st] eqn:Hr. cbn [snd] in Hsh.
  destruct x as [g|[c|]]; cbn [snd]; [|by apply Inv_shrink..].
  destruct (serves rt (Ticket.Protocol g)) eqn:Hsv; cbn [negb]; [|by apply Inv_shrink].
  destruct (match rt with WsDesktop => _ | _ => _ end); [by apply Inv_shrink|].
  destruct (resolveGrant _ _ _) as [ep|] eqn:Hep; [|by apply Inv_shrink].
  destruct (available _ _ _ _ _) as [[]|[]] eqn:Hav; [|by apply Inv_shrink]. cbn [snd].
  apply redeem_Ok in Hr as (q & -> & _ & Hc & Hg & Ht & Hip & Hsid & Had).
  assert (asked_again e g) as Hag by (unfold asked_again; destruct (resolveGrant e _ _) as [ep0|]; [by apply Had|done]).
  pose proof (Inv_shrink _ _ _ HI Hsh) as [H1 H2 H3 H4 H5 H6 H7]. split; cbn in *; [done|..].
  - intros k' r' [[<- <-]|[_ ?]]%lookup_insert_Some; [|by eauto].
    exists h, e, e', rt, q, tok, k, [], (reg s). split_and!; try done. by eapply inv_tickets.
  - intros sid l Hl. destruct (H3 sid l Hl) as (k' & r' & Hk' & ?). exists k', r'. rewrite lookup_insert_ne; [done|congruence].
  - intros k1 k2 r1 r2 sid [[<- <-]|[_ ?]]%lookup_insert_Some [[<- <-]|[_ ?]]%lookup_insert_Some; try done. eauto.
  - intros k1 r1 sid [[<- <-]|[_ ?]]%lookup_insert_Some; [done|eauto].
  - intros k1 r1 sid [[<- <-]|[_ ?]]%lookup_insert_Some; [done|eauto].
  - intros sid t Hst. destruct (H7 sid t Hst) as (k' & r' & Hk' & ?). exists k', r'. rewrite lookup_insert_ne; [done|congruence].
Qed.

Lemma Inv_started h s k r sid t now w : Inv h s → runs s !! k = Some r → at_ r = Opened → rows s !! sid = None → t = <[sid := w]> (rows s) →
  Inv h (set_runs (<[k := set_stage (Started sid) r]> (runs s)) (set_starting (markStarting now sid (starting s)) (set_rows t s))).
Proof.
  intros [H1 H2 H3 H4 H5 H6 H7] Hk Ha Hf ->. assert (∀ k' r', runs s !! k' = Some r' → session_of (at_ r') ≠ Some sid) as Hn.
  { intros k' r' Hk' E. destruct (H5 k' r' sid Hk' E). congruence. }
  split; cbn; [done|..].
  - intros k' r' [[<- <-]|[_ ?]]%lookup_insert_Some; [apply (H2 k r Hk)|eauto].
  - intros sid' l Hl. destruct (H3 sid' l Hl) as (k' & r' & Hk' & Hx & ?). exists k', r'. rewrite lookup_insert_ne; [done|].
    intros <-. simplify_eq. destruct Hx; congruence.
  - intros k1 k2 r1 r2 sid' [[<- <-]|[_ ?]]%lookup_insert_Some [[<- <-]|[_ ?]]%lookup_insert_Some E1 E2; try done; [| |by eauto].
    + injection E1 as <-. by exfalso; eapply Hn.
    + injection E2 as <-. by exfalso; eapply Hn.
  - intros k1 r1 sid' [[<- <-]|[_ Hk1]]%lookup_insert_Some E; [injection E as <-; rewrite lookup_insert_eq; by eexists|].
    destruct (decide (sid' = sid)) as [->|]; [rewrite lookup_insert_eq; by eexists|rewrite lookup_insert_ne by done; eauto].
  - intros k1 r1 sid' [[<- <-]|[_ ?]]%lookup_insert_Some; [done|eauto].
  - intros sid' t. unfold markStarting. intros [[<- _]|[_ Ht]]%lookup_insert_Some; [exists k, (set_stage (Started sid) r); by rewrite lookup_insert_eq|].
    apply map_lookup_filter_Some in Ht as [Ht _]. destruct (H7 sid' t Ht) as (k' & r' & Hk' & ?). exists k', r'. rewrite lookup_insert_ne; [done|congruence].
Qed.

Lemma Inv_startRun h s e k sid : Inv h s → Inv h (startRun e k sid s).
Proof.
  intros HI. unfold startRun. destruct (runs s !! k) as [r|] eqn:Hk; [|done]. destruct (at_ r) eqn:Ha; try done.
  unfold Start. destruct (negb _); [apply Inv_drop; [done..|]; intros ?; by rewrite Ha|].
  destruct (rows s !! sid) as [w|] eqn:Hr; [apply Inv_drop; [done..|]; intros ?; by rewrite Ha|].
  assert (Inv h (set_runs (<[k := set_stage (Started sid) r]> (runs s)) (set_starting (markStarting (now e) sid (starting s))
    (set_rows (<[sid := new_row (now e) r]> (rows s)) s)))) as HI' by by eapply Inv_started.
  case_bool_decide; [done|]. by apply Inv_endRow.
Qed.

Lemma Inv_live_ h s e k : Inv h s → Inv h (live_ e k s).
Proof.
  intros HI. unfold live_. destruct (runs s !! k) as [r|] eqn:Hk; [|done]. destruct (at_ r) as [|sid| |] eqn:Ha; try done.
  pose proof (not_live _ _ _ _ _ HI Hk Ha) as Hnl. destruct HI as [H1 H2 H3 H4 H5 H6 H7].
  assert (∀ k' r' sid', k' ≠ k → runs s !! k' = Some r' → session_of (at_ r') = Some sid' → sid' ≠ sid) as Hne.
  { intros k' r' sid' Hkk Hk' E ->. apply Hkk. apply (H4 k' k r' r sid); [done..|by rewrite Ha]. }
  split; cbn [store reg rows starting runs set_runs set_starting set_reg Add snd live]; [done|..].
  - intros k' r' [[<- <-]|[_ ?]]%lookup_insert_Some; [apply (H2 k r Hk)|eauto].
  - cbn [live_of SessionID]. intros sid' l [[<- <-]|[Hs Hl]]%lookup_insert_Some.
    + exists k, (set_stage (Running sid) r). rewrite lookup_insert_eq. split_and!; [done|by left|]. by repeat split.
    + destruct (H3 sid' l Hl) as (k' & r' & Hk' & Hx & ?). exists k', r'. rewrite lookup_insert_ne; [done|].
      intros <-. simplify_eq. destruct Hx; congruence.
  - intros k1 k2 r1 r2 sid' [[<- <-]|[Hn1 Hk1]]%lookup_insert_Some [[<- <-]|[Hn2 Hk2]]%lookup_insert_Some E1 E2; [done| | |by eauto].
    + cbn in E1. injection E1 as <-. by destruct (Hne k2 r2 sid).
    + cbn in E2. injection E2 as <-. by destruct (Hne k1 r1 sid).
  - intros k1 r1 sid' [[<- <-]|[_ Hk1]]%lookup_insert_Some E; [apply (H5 k r); [done|by rewrite Ha]|by eauto].
  - cbn [live_of SessionID]. intros k1 r1 sid' [[<- <-]|[_ Hk1]]%lookup_insert_Some E; [injection E as <-; rewrite lookup_insert_eq; by eexists|].
    destruct (decide (sid' = sid)) as [->|]; [rewrite lookup_insert_eq; by eexists|rewrite lookup_insert_ne by done; eauto].
  - intros sid' t [Hs Ht]%lookup_delete_Some. destruct (H7 sid' t Ht) as (k' & r' & Hk' & Hx). exists k', r'. rewrite lookup_insert_ne; [done|].
    intros <-. congruence.
Qed.

Lemma gw_Inv_end h s e k wrote reason detail : Inv h s → Inv h (end_ e k wrote reason detail s).
Proof.
  intros HI. unfold end_. destruct (runs s !! k) as [r|] eqn:Hk; [|done]. destruct (at_ r) as [|sid|sid|sid] eqn:Ha; [| | |done].
  - apply Inv_drop; [done..|]. intros ?. by rewrite Ha.
  - apply Inv_drop; [by apply Inv_endRow|done|]. rewrite Ha. intros ? [= <-]. split; [by eapply (not_live h s)|]. cbn. apply lookup_delete_eq.
  - apply (Inv_move h (endRow _ _ _ _ _ s)); [by apply Inv_endRow|done|by rewrite Ha| | |done].
    + rewrite Ha. intros ? _ [= <-]. by right.
    + rewrite Ha. intros ? Hs [= <-]. cbn in Hs. by rewrite lookup_delete_eq in Hs.
Qed.

Lemma Inv_done h s k : Inv h s → Inv h (done_ k s).
Proof.
  intros HI. unfold done_. destruct (runs s !! k) as [r|] eqn:Hk; [|done]. destruct (at_ r) as [| | |sid] eqn:Ha; try done.
  pose proof (not_starting _ _ _ _ sid HI Hk (or_intror Ha)) as Hns. destruct HI as [H1 H2 H3 H4 H5 H6 H7].
  split; cbn [store reg rows starting runs drop_run set_runs set_store set_reg Remove live]; [done|..].
  - intros k' r' [_ ?]%lookup_delete_Some. eauto.
  - intros sid' l [Hs Hl]%lookup_delete_Some. destruct (H3 sid' l Hl) as (k' & r' & Hk' & Hx & ?). exists k', r'. split_and!; [|done..].
    apply lookup_delete_Some. split; [|done]. intros <-. simplify_eq. destruct Hx; congruence.
  - intros ????? [_ ?]%lookup_delete_Some [_ ?]%lookup_delete_Some. eauto.
  - intros ??? [_ ?]%lookup_delete_Some. eauto.
  - intros k1 r1 sid' [Hn1 Hk1]%lookup_delete_Some E. rewrite lookup_delete_ne; [by eauto|]. intros <-.
    apply Hn1. apply (H4 k k1 r r1 sid); [done..|by rewrite Ha|by rewrite E].
  - intros sid' t Ht. destruct (H7 sid' t Ht) as (k' & r' & Hk' & Hx). exists k', r'. split; [|done].
    apply lookup_delete_Some. split; [|done]. intros <-. congruence.
Qed.

(** A ticket is issued, or not. *)
Lemma gw_Inv_issue h s e raw p ip ep proto uc f :
  Inv h s → ((∃ raw q, AConnect e raw p ip q ∈ h) ∨ (∃ raw id i uc, AFailover e raw p ip id i uc ∈ h)) →
  Inv h (set_store (issueTicket e raw p ip ep proto uc f (store s)).2 s).
Proof.
  intros HI Hin. apply Inv_set_store; [done|]. intros tok g [Hg|[[d Hd] _]]%issue_adds; [by eapply inv_tickets|].
  exists e, p, ip, ep, d. by split.
Qed.

Lemma Inv_connect h s e raw p ip q : Inv h s → AConnect e raw p ip q ∈ h → Inv h (connect e raw p ip q s).2.
Proof.
  intros HI Hin. unfold connect. repeat (case_match; [done|]). destruct (resolve_asked e q) as [ep|[]]; try done.
  pose proof (gw_Inv_issue h s e raw p ip ep (qProtocol q) (qCredential q) "" HI ltac:(left; eauto)) as HX.
  destruct (issueTicket _ _ _ _ _ _ _ _ _) as [[tok|[c|]] st]; [|done..]. by case_match.
Qed.

Lemma Inv_failover h s e raw p ip id i uc : Inv h s → AFailover e raw p ip id i uc ∈ h → Inv h (failover e raw p ip id i uc s).2.
Proof.
  intros HI Hin. unfold failover. destruct (rows s !! id) as [old|]; [|done]. case_match; [done|]. case_match; [done|].
  destruct (take_as_lost e id old s) as [s'|] eqn:Ht; [|done]. assert (Inv h s') as HI'.
  { unfold take_as_lost in Ht. destruct (rEndedAt old); [case_match; congruence|]. destruct (match ASGs e with Some _ => _ | None => _ end); [done|].
    injection Ht as <-. apply Inv_set_reg; [apply Inv_set_rows; [done|]; intros ??; by apply alter_some|]. apply similar_cause. }
  destruct (fail_over_to e old i) as [ep|[]]; try done.
  pose proof (gw_Inv_issue h s' e raw p ip ep (rProtocol old) uc id HI' ltac:(right; eauto 10)) as HX.
  by destruct (issueTicket _ _ _ _ _ _ _ _ _) as [[tok|[c|]] st].
Qed.

Lemma Inv_revoke {A} h s (x : A * Registry) : Inv h s → similar (reg s) x.2 → Inv h (let '(n, r) := x in (n, set_reg r s)).2.
Proof. destruct x. by apply Inv_set_reg. Qed.

Lemma gw_Inv_step h s a : Inv h s → Inv (h ++ [a]) (step a s).
Proof.
  intros HI. pose proof (Inv_weaken _ [a] _ HI) as HI'. assert (a ∈ h ++ [a]) as Hin by (apply elem_of_app; right; by left).
  destruct a; cbn [step].
  - by apply Inv_connect.
  - by apply Inv_failover.
  - destruct (runs s !! k) eqn:Hk; [done|]. by apply Inv_open.
  - by apply Inv_startRun.
  - by apply Inv_live_.
  - apply Inv_set_reg; [done|apply similar_guac].
  - by apply gw_Inv_end.
  - by apply Inv_done.
  - apply Inv_set_reg; [done|apply similar_terminate].
  - apply Inv_revoke; [done|apply similar_each].
  - apply Inv_revoke; [done|apply similar_where].
  - apply Inv_revoke; [done|apply similar_where].
  - apply Inv_revoke; [done|apply similar_where].
  - apply Inv_revoke; [done|apply similar_each].
  - apply Inv_revoke; [done|apply similar_each].
  - apply Inv_set_rows; [done|]. intros sid [w Hw]. rewrite map_lookup_imap, Hw. by eexists.
Qed.

Lemma Inv_init : Inv [] init.
Proof. split; cbn; intros *; by rewrite lookup_empty. Qed.

Lemma Inv_run h : Inv h (run h).
Proof.
  induction h as [|a h IH] using rev_ind; [apply Inv_init|]. unfold run. rewrite foldl_snoc. by apply gw_Inv_step.
Qed.

(** C14. No session is live that was not authorised.  Whatever the gateway did
before, and however its requests interleaved, a session in the registry comes
from a ticket that the gate admitted its user to when it was issued, for an
endpoint that was active and pinned; and that was redeemed within its thirty
seconds from the same address and by the same browser sign-in, of an account
that may connect.  When it was redeemed the gate admitted the user once more, to
the endpoint as it then stood, unless the endpoint could not be resolved at that
moment; it was resolved right after, and was available to the route.  What the
session is registered with (the user, the protocol, the clipboard, the files and
the developer tools) is what the gate decided at the issue. *)
Theorem live_authorised h sid l : live (reg (run h)) !! sid = Some l →
  ∃ h1 h2 e1 e2 e3 p1 p2 ip rt tok k ep1 ep3 d1 reg0,
    h = h1 ++ AOpen e2 e3 rt (Some p2) ip tok k :: h2 ∧
    ((∃ raw q, AConnect e1 raw p1 ip q ∈ h1) ∨ (∃ raw id i uc, AFailover e1 raw p1 ip id i uc ∈ h1)) ∧
    Registry.UserID l = Users.ID (User p1) ∧ SessionID l = sid ∧ Registry.TargetID l = LiveKey ep3 ∧
    admits e1 (Registry.UserID l) ep1 (Registry.Protocol l) = LetIn d1 ∧
    epActive ep1 = true ∧ pinned ep1 (Registry.Protocol l) = Ok tt ∧
    Registry.AllowClipboard l = dAllowClipboard d1 ∧ Registry.AllowFileTransfer l = dAllowFileTransfer d1 ∧
    Registry.AllowDevTools l = dAllowDevTools d1 ∧
    Sessions.ID (Session p2) = Sessions.ID (Session p1) ∧ CanConnect (User p2) = true ∧ now e2 ≤ now e1 + Ticket.TTL ∧
    (∀ ep2, resolveGrant e2 (epTargetID ep1) (epASGInstanceID ep1) = Ok ep2 →
       ∃ d2, admits e2 (Registry.UserID l) ep2 (Registry.Protocol l) = LetIn d2) ∧
    resolveGrant e3 (epTargetID ep1) (epASGInstanceID ep1) = Ok ep3 ∧
    serves rt (Registry.Protocol l) = true ∧ available e3 rt ep3 (Registry.Protocol l) reg0 = Ok tt.
Proof.
  intros Hl. destruct (inv_live _ _ (Inv_run h) sid l Hl) as (k0 & r & Hk & _ & (Eu & Et & Ep & Ec & Ef & Ed & Es)).
  destruct (inv_runs _ _ (Inv_run h) k0 r Hk) as
    (h1 & e2 & e3 & rt & p2 & tok & k & h2 & reg0 & -> & (e1 & p1 & ip & ep1 & d1 & HI & Hin) & Hc & Hs & Hip & Ht & Hag & Hr & Hv & Hav).
  cbn in Eu, Et, Ep, Ec, Ef, Ed, Es. destruct HI as [_ Iu Is Ii (I1 & I2 & I3) Iac Ipin Iadm _ (If1 & If2 & If3) Iex].
  assert (rip r = ip) as Hrip by congruence. rewrite Hrip.
  exists h1, h2, e1, e2, e3, p1, p2, ip, rt, tok, k, ep1, (rep r), d1, reg0.
  unfold asked_again in Hag. rewrite I1, I3 in Hag, Hr. rewrite Ep, Eu, Iu in *. split_and!; try done; try congruence.
  intros ep2 E. by rewrite E in Hag.
Qed.

(** * The rows *)

Lemma close_row_ended now reason detail w : rEndedAt w ≠ None → close_row now reason detail w = w.
Proof. unfold close_row. by destruct (rEndedAt w). Qed.

Lemma alter_ended now reason detail id sid w (t : gmap string row) :
  t !! sid = Some w → rEndedAt w ≠ None → alter (close_row now reason detail) id t !! sid = Some w.
Proof. intros Hs Hw. rewrite lookup_alter. case_decide as E; [rewrite E, Hs; exact (f_equal Some (close_row_ended _ _ _ _ Hw))|done]. Qed.

Lemma endRow_ended now wrote id reason detail sid w s :
  rows s !! sid = Some w → rEndedAt w ≠ None → rows (endRow now wrote id reason detail s) !! sid = Some w.
Proof. intros. cbn. destruct wrote; [by apply alter_ended|done]. Qed.

Lemma close_alter now reason detail id sid w (t : gmap string row) : t !! sid = Some w →
  ∃ w', alter (close_row now reason detail) id t !! sid = Some w' ∧ (w' = w ∨ ∃ now reason detail, w' = close_row now reason detail w).
Proof. intros Hs. rewrite lookup_alter. case_decide as E; [rewrite E, Hs; eexists; split; [done|right; eauto]|eauto]. Qed.

Lemma endRow_row now wrote id reason detail sid w s : rows s !! sid = Some w →
  ∃ w', rows (endRow now wrote id reason detail s) !! sid = Some w' ∧ (w' = w ∨ ∃ now reason detail, w' = close_row now reason detail w).
Proof. intros. cbn. destruct wrote; [by apply close_alter|eauto]. Qed.

(** A step closes a row or leaves it as it is. *)
Lemma gw_step_row a s sid w : rows s !! sid = Some w →
  ∃ w', rows (step a s) !! sid = Some w' ∧ (w' = w ∨ ∃ now reason detail, w' = close_row now reason detail w).
Proof.
  intros Hs. assert (∀ {A} (x : A * Registry), ∃ w', rows (let '(n, r) := x in (n, set_reg r s)).2 !! sid = Some w' ∧
    (w' = w ∨ ∃ now reason detail, w' = close_row now reason detail w)) as Hreg by (intros ? []; eauto).
  destruct a; cbn [step]; try apply Hreg; try by eauto.
  - unfold connect. repeat (case_match; [by eauto|]). destruct (resolve_asked e q) as [ep|[]]; try by eauto.
    destruct (issueTicket _ _ _ _ _ _ _ _ _) as [[tok|[c|]] st]; [|by eauto..]. case_match; by eauto.
  - unfold failover. destruct (rows s !! id) as [old|]; [|by eauto]. case_match; [by eauto|]. case_match; [by eauto|].
    destruct (take_as_lost e id old s) as [s'|] eqn:Ht; [|by eauto].
    assert (∃ w', rows s' !! sid = Some w' ∧ (w' = w ∨ ∃ now reason detail, w' = close_row now reason detail w)) as Hx.
    { unfold take_as_lost in Ht. destruct (rEndedAt old); [case_match; [injection Ht as <-; by eauto|done]|].
      destruct (match ASGs e with Some _ => _ | None => _ end); [done|]. injection Ht as <-. by apply close_alter. }
    destruct (fail_over_to e old instanceID) as [ep|[]]; try done.
    by destruct (issueTicket _ _ _ _ _ _ _ _ _) as [[tok|[c|]] st].
  - destruct (runs s !! k); [by eauto|]. unfold open_. destruct (redeem e p ip tok (store s)) as [[g|[]] st]; try by eauto. case_match; [by eauto|].
    destruct (match r with WsDesktop => _ | _ => _ end); [by eauto|]. destruct (resolveGrant _ _ _); [|by eauto].
    destruct (available _ _ _ _ _) as [|[]]; by eauto.
  - unfold startRun. destruct (runs s !! k) as [r|]; [|by eauto]. destruct (at_ r); try by eauto. unfold Start. destruct (negb _); [by eauto|].
    destruct (rows s !! sid0) eqn:Hf; [by eauto|]. assert (<[sid0 := new_row (now e) r]> (rows s) !! sid = Some w) by (rewrite lookup_insert_ne; congruence).
    case_bool_decide; [by eauto|]. by apply endRow_row.
  - unfold live_. destruct (runs s !! k) as [r|]; [|by eauto]. destruct (at_ r); by eauto.
  - unfold end_. destruct (runs s !! k) as [r|]; [|by eauto]. destruct (at_ r); try (by eauto); by apply endRow_row.
  - unfold done_. destruct (runs s !! k) as [r|]; [|by eauto]. destruct (at_ r); by eauto.
  - cbn. rewrite map_lookup_imap, Hs. cbn. eexists. split; [done|]. destruct (abandoned _ _ _ _ _); [right; eauto|by left].
Qed.

(** Some request still holds the session. *)
Definition held (s : state) (sid : string) : Prop := ∃ k r, runs s !! k = Some r ∧ session_of (at_ r) = Some sid.

Lemma held_runs h s now sid : Inv h s → runs_it now s sid = true → held s sid.
Proof.
  intros HI. unfold runs_it. rewrite orb_true_iff, bool_decide_eq_true. intros [[l Hl]|Hs].
  - destruct (inv_live _ _ HI sid l Hl) as (k & r & ? & Hr & _). exists k, r. split; [done|]. by destruct Hr as [-> | ->].
  - unfold Starting in Hs. destruct (starting _ !! sid) as [t|] eqn:E; [|done].
    destruct (inv_starting _ _ HI sid t E) as (k & r & ? & Hr). exists k, r. by rewrite Hr.
Qed.

(** Where the stage of a request comes from. *)
Inductive stage_from (a : act) (s : state) (k : N) (x : stage) : Prop :=
| SFSame r : runs s !! k = Some r → at_ r = x → stage_from a s k x
| SFOpened : x = Opened → stage_from a s k x
| SFStarted sid : x = Started sid → rows s !! sid = None → stage_from a s k x
| SFLive e sid r : a = ALive e k → runs s !! k = Some r → at_ r = Started sid → x = Running sid → stage_from a s k x
| SFClosing sid r : runs s !! k = Some r → at_ r = Running sid → x = Closing sid → stage_from a s k x.

Lemma step_stage a s k r : runs (step a s) !! k = Some r → stage_from a s k (at_ r).
Proof.
  assert (∀ {A} (x : A * Registry), runs (let '(n, r) := x in (n, set_reg r s)).2 !! k = Some r → stage_from a s k (at_ r)) as Hreg
    by (intros ? []; intros; by eapply SFSame).
  assert (∀ k0 r0 s0, runs s0 = runs s → runs (drop_run k0 r0 s0) !! k = Some r → stage_from a s k (at_ r)) as Hdrop.
  { intros k0 r0 s0 Es H. cbn in H. rewrite Es in H. apply lookup_delete_Some in H as [_ H]. by eapply SFSame. }
  destruct a; cbn [step]; try apply Hreg; try by (intros; by eapply SFSame).
  - unfold connect. intros H. apply (SFSame _ _ _ _ r); [|done]. revert H. repeat (case_match; [done|]). destruct (resolve_asked e q) as [ep|[]]; try done.
    destruct (issueTicket _ _ _ _ _ _ _ _ _) as [[tok|[c|]] st]; [|done..]. by case_match.
  - unfold failover. intros H. apply (SFSame _ _ _ _ r); [|done]. revert H. destruct (rows s !! id) as [old|]; [|done]. case_match; [done|]. case_match; [done|].
    destruct (take_as_lost e id old s) as [s'|] eqn:Ht; [|done]. assert (runs s' = runs s) as Es.
    { unfold take_as_lost in Ht. destruct (rEndedAt old); [case_match; [by injection Ht as <-|done]|].
      destruct (match ASGs e with Some _ => _ | None => _ end); [done|]. by injection Ht as <-. }
    destruct (fail_over_to e old instanceID) as [ep|[]]; cbn; rewrite ?Es; try done.
    destruct (issueTicket _ _ _ _ _ _ _ _ _) as [[tok|[c|]] st]; cbn; by rewrite Es.
  - destruct (runs s !! k0) eqn:Ek0; [intros; by eapply SFSame|]. unfold open_.
    destruct (redeem e p ip tok (store s)) as [[g|[]] st]; try by (intros; by eapply SFSame). case_match; [intros; by eapply SFSame|].
    destruct (match r0 with WsDesktop => _ | _ => _ end); [intros; by eapply SFSame|]. destruct (resolveGrant _ _ _); [|intros; by eapply SFSame].
    destruct (available _ _ _ _ _) as [|[]]; [|intros; by eapply SFSame]. cbn. intros [[<- <-]|[_ Hq]]%lookup_insert_Some; [by apply SFOpened|by eapply SFSame].
  - unfold startRun. destruct (runs s !! k0) as [r0|] eqn:Ek0; [|intros; by eapply SFSame]. destruct (at_ r0); try by (intros; by eapply SFSame).
    unfold Start. destruct (negb _); [by apply Hdrop|]. destruct (rows s !! sid) eqn:Hf; [by apply Hdrop|].
    case_bool_decide; cbn; intros [[<- <-]|[_ H1]]%lookup_insert_Some; try (by eapply SFSame); by eapply SFStarted.
  - unfold live_. destruct (runs s !! k0) as [r0|] eqn:Ek0; [|intros; by eapply SFSame]. destruct (at_ r0) eqn:Ea; try by (intros; by eapply SFSame).
    cbn. intros [[<- <-]|[_ Hq]]%lookup_insert_Some; [by eapply SFLive|by eapply SFSame].
  - unfold end_. destruct (runs s !! k0) as [r0|] eqn:Ek0; [|intros; by eapply SFSame].
    destruct (at_ r0) eqn:Ea; [by apply Hdrop|by apply Hdrop| |intros; by eapply SFSame].
    cbn. intros [[<- <-]|[_ Hq]]%lookup_insert_Some; [by eapply SFClosing|by eapply SFSame].
  - unfold done_. destruct (runs s !! k0) as [r0|] eqn:Ek0; [|intros; by eapply SFSame]. destruct (at_ r0) eqn:Ea; try by (intros; by eapply SFSame).
    by apply Hdrop.
Qed.

Lemma step_held a s sid : held (step a s) sid → held s sid ∨ rows s !! sid = None.
Proof.
  intros (k & r & Hk & Hr). destruct (step_stage a s k r Hk) as [r0 H0 E|E|sid0 E Hn|e sid0 r0 -> H0 E0 E|sid0 r0 H0 E0 E].
  - left. exists k, r0. by rewrite E.
  - by rewrite E in Hr.
  - rewrite E in Hr. injection Hr as ->. by right.
  - left. exists k, r0. rewrite E in Hr. by rewrite E0.
  - left. exists k, r0. rewrite E in Hr. by rewrite E0.
Qed.

(** ** Over any interleaving with the sweep *)

Definition acts_of (G : list gact) : list act := omap (λ x, match x with GAct a => Some a | _ => None end) G.

Lemma grun_snoc G x : grun (G ++ [x]) = gstep (grun G) x.
Proof. unfold grun. by rewrite foldl_app. Qed.

Lemma grun_app G H : grun (G ++ H) = foldl gstep (grun G) H.
Proof. unfold grun. by rewrite foldl_app. Qed.

Lemma Inv_grun G : Inv (acts_of G) (core (grun G)).
Proof.
  induction G as [|x G IH] using rev_ind; [apply Inv_init|]. rewrite grun_snoc. unfold acts_of. rewrite omap_app. fold (acts_of G).
  destruct x; cbn [omap list_omap gstep]; rewrite ?app_nil_r.
  - by apply gw_Inv_step.
  - by destruct (sweep (grun G)).
  - destruct (sweep (grun G)) as [|[|? ?]| |]; done.
  - by destruct (sweep (grun G)).
  - destruct (sweep (grun G)); [done..|]. destruct ok; [|done]. apply Inv_set_rows; [done|]. intros. by apply alter_some.
  - apply Inv_set_rows; [done|]. intros sid. by rewrite lookup_fmap, fmap_is_Some.
Qed.

(** A reference of a row is as it was, or its row is gone. *)
Definition ref_or_gone (G : list gact) (c : column) (x x' : string) : Prop := x' = x ∨ (x' = "" ∧ GGone c x ∈ G).

(** What [G] leaves of a row, its end apart. *)
Record row_refs (G : list gact) (w w' : row) : Prop := {
  rr_user : rUserID w' = rUserID w;
  rr_protocol : rProtocol w' = rProtocol w;
  rr_ip : rClientIP w' = rClientIP w;
  rr_started : rStartedAt w' = rStartedAt w;
  rr_policy : ref_or_gone G CPolicy (rPolicyID w) (rPolicyID w');
  rr_target : ref_or_gone G CTarget (rTargetID w) (rTargetID w');
  rr_asg : ref_or_gone G CASG (rASGID w) (rASGID w');
  rr_instance : ref_or_gone G CInstance (rASGInstanceID w) (rASGInstanceID w');
  rr_credential : ref_or_gone G CCredential (rCredentialID w) (rCredentialID w');
  rr_failover : ref_or_gone G CFailoverFrom (rFailoverFrom w) (rFailoverFrom w');
}.

(** And of its end, once it has one. *)
Definition end_kept (w w' : row) : Prop :=
  rEndedAt w ≠ None → rEndedAt w' = rEndedAt w ∧ rEndReason w' = rEndReason w ∧ rEndDetail w' = rEndDetail w.

Lemma row_refs_refl G w : row_refs G w w.
Proof. by split; try left. Qed.

Lemma ref_or_gone_mono G H c x x' : G ⊆ H → ref_or_gone G c x x' → ref_or_gone H c x x'.
Proof. intros Hs [->|[-> ?]]; [by left|right; split; [done|by apply Hs]]. Qed.

Lemma row_refs_mono G H w w' : G ⊆ H → row_refs G w w' → row_refs H w w'.
Proof. intros Hs []. split; try done; by eapply ref_or_gone_mono. Qed.

Lemma ref_or_gone_null G c d id x x' : ref_or_gone G d x x' → ref_or_gone (G ++ [GGone c id]) d x (null_if (column_is c d) id x').
Proof.
  intros Hx. assert (G ⊆ G ++ [GGone c id]) as Hs by set_solver. unfold null_if. destruct (column_is c d && bool_decide (x' = id)) eqn:E; [|by eapply ref_or_gone_mono].
  apply andb_true_iff in E as [Ec ->%bool_decide_eq_true]. right. split; [done|]. assert (c = d) as -> by by destruct c, d.
  destruct Hx as [->|[-> ?]]; set_solver.
Qed.

Lemma close_refs G w now reason detail : row_refs G w (close_row now reason detail w).
Proof. unfold close_row. destruct (rEndedAt w); [apply row_refs_refl|]. by split; try left. Qed.

Lemma close_end w now reason detail : end_kept w (close_row now reason detail w).
Proof. unfold end_kept, close_row. destruct (rEndedAt w) eqn:E; [by rewrite E|by intros ?]. Qed.

(** Every step leaves the row there, its columns as they were but for what was
deleted, and its end, once it has one. *)
Lemma gstep_row g x G sid w w0 : rows (core g) !! sid = Some w → row_refs G w0 w →
  ∃ w', rows (core (gstep g x)) !! sid = Some w' ∧ row_refs (G ++ [x]) w0 w' ∧ end_kept w w'.
Proof.
  intros Hs Hr. assert (G ⊆ G ++ [x]) as Hsub by set_solver. pose proof (row_refs_mono _ _ _ _ Hsub Hr) as Hr'.
  assert (∀ now reason detail, row_refs (G ++ [x]) w0 (close_row now reason detail w)) as Hc.
  { intros. unfold close_row. destruct (rEndedAt w); [done|]. by destruct Hr'; split. }
  assert (end_kept w w) as Hk by by intros ?.
  destruct x; cbn [gstep].
  - destruct (gw_step_row a (core g) sid w Hs) as (w' & E & [->|(now & reason & detail & ->)]); eexists; (split; [exact E|]); (split; [done|]); [done|apply close_end].
  - destruct (sweep g); by eauto.
  - destruct (sweep g) as [|[|? ?]| |]; by eauto.
  - destruct (sweep g); by eauto.
  - destruct (sweep g) as [| | |sid' todo]; [by eauto..|]. destruct ok; [|by eauto]. cbn. destruct (decide (sid' = sid)) as [->|Hne].
    + rewrite lookup_alter_eq, Hs. eexists. split; [done|]. split; [done|apply close_end].
    + rewrite lookup_alter_ne by done. by eauto.
  - cbn. rewrite lookup_fmap, Hs. eexists. split; [done|]. split; [|by intros ?]. destruct Hr. by split; try apply ref_or_gone_null.
Qed.

Lemma end_kept_trans w w' w'' : end_kept w w' → end_kept w' w'' → end_kept w w''.
Proof. unfold end_kept. intros H1 H2 Hw. destruct (H1 Hw) as (E1 & E2 & E3). destruct H2 as (? & ? & ?); [by rewrite E1|]. split_and!; congruence. Qed.

Lemma grun_row G H sid w : rows (core (grun G)) !! sid = Some w →
  ∃ w', rows (core (grun (G ++ H))) !! sid = Some w' ∧ row_refs H w w' ∧ end_kept w w'.
Proof.
  intros Hw. induction H as [|x H (w' & E & Hr & He)] using rev_ind; [rewrite app_nil_r; exists w; split_and!; [done|apply row_refs_refl|by intros ?]|].
  rewrite app_assoc, grun_snoc. destruct (gstep_row _ x _ _ _ _ E Hr) as (w'' & ? & ? & ?). exists w''. split_and!; [done..|by eapply end_kept_trans].
Qed.

(** A session nobody holds any more stays so. *)
Lemma unheld_step g x sid w : rows (core g) !! sid = Some w → ¬ held (core g) sid → ¬ held (core (gstep g x)) sid.
Proof.
  intros Hw Hn. destruct x; cbn [gstep].
  - intros [?|?]%step_held; congruence.
  - by destruct (sweep g).
  - by destruct (sweep g) as [|[|? ?]| |].
  - by destruct (sweep g).
  - destruct (sweep g); [done..|]. by destruct ok.
  - done.
Qed.

(** The rows the pass still has to close. *)
Definition pending (x : sweep_at) : list string :=
  match x with SIdle => [] | SList l => l | SUnseen sid l | SDead sid l => sid :: l end.

Lemma pending_next l : pending (next l) = l.
Proof. by destruct l. Qed.

(** Nobody holds the session, and its row is closed, or the pass has it before it. *)
Definition caught (sid : string) (g : gateway) : Prop :=
  ¬ held (core g) sid ∧ ∃ w, rows (core g) !! sid = Some w ∧ (rEndedAt w ≠ None ∨ sid ∈ pending (sweep g)).

Lemma caught_keep sid g x : caught sid g → (sid ∈ pending (sweep g) → sid ∈ pending (sweep (gstep g x))) → caught sid (gstep g x).
Proof.
  intros (Hn & w & Hw & Hc) Hp. split; [by eapply unheld_step|].
  destruct (gstep_row g x [] sid w w Hw (row_refs_refl _ _)) as (w' & Hw' & _ & He). exists w'. split; [done|].
  destruct Hc as [Hc|Hc]; [left|right; auto]. destruct (He Hc) as [-> _]. done.
Qed.

Lemma caught_step G x sid : caught sid (grun G) → (∀ t, x ≠ GWrite t false) → caught sid (grun (G ++ [x])).
Proof.
  intros Hc Hx. rewrite grun_snoc. pose proof Hc as (Hn & w & Hw & _). pose proof (Inv_grun G) as HI.
  assert (∀ now, runs_it now (core (grun G)) sid = false) as Hrun.
  { intros now. destruct (runs_it now (core (grun G)) sid) eqn:E; [by eapply held_runs in E|done]. }
  unfold runs_it in Hrun. destruct x as [a|now|  |now|now [|]|c id]; cbn [gstep] in *.
  - by apply (caught_keep sid (grun G) (GAct a)).
  - destruct (sweep (grun G)) eqn:Es; try done. destruct Hc as (_ & w1 & Hw1 & [Hc|Hc]); [|by rewrite Es in Hc; apply elem_of_nil in Hc].
    split; [done|]. exists w1. split; [done|by left].
  - destruct (sweep (grun G)) as [|[|sid' todo]| |] eqn:Es; try done. destruct Hc as (_ & w1 & Hw1 & Hc). split; [done|]. exists w1. split; [done|].
    destruct Hc as [Hc|Hc]; [by left|right]. rewrite Es in Hc. cbn in *.
    destruct (bool_decide (is_Some (Get sid' (reg (core (grun G)))))) eqn:Hg; [|exact Hc]. rewrite pending_next.
    apply elem_of_cons in Hc as [->|Hc]; [|done]. exfalso. specialize (Hrun 0). apply orb_false_iff in Hrun as [Hr _]. congruence.
  - destruct (sweep (grun G)) as [| |sid' todo|] eqn:Es; try done. destruct Hc as (_ & w1 & Hw1 & Hc). split; [done|]. exists w1. split; [done|].
    destruct Hc as [Hc|Hc]; [by left|right]. rewrite Es in Hc. cbn in *. destruct (Starting now sid' (starting (core (grun G)))) eqn:Hg; [|exact Hc]. rewrite pending_next.
    apply elem_of_cons in Hc as [->|Hc]; [|done]. exfalso. specialize (Hrun now). apply orb_false_iff in Hrun as [_ Hr]. congruence.
  - destruct (sweep (grun G)) as [| | |sid' todo] eqn:Es; try done. destruct Hc as (_ & w1 & Hw1 & Hc). split; [done|]. rewrite Es in Hc. cbn in *.
    destruct (decide (sid' = sid)) as [->|Hne].
    + rewrite lookup_alter_eq, Hw1. eexists. split; [done|left]. unfold close_row. by destruct (rEndedAt w1) eqn:E; rewrite ?E.
    + rewrite lookup_alter_ne by done. exists w1. split; [done|]. rewrite pending_next. destruct Hc as [?|[?|?]%elem_of_cons]; [by left|congruence|by right].
  - by destruct (Hx now).
  - by apply (caught_keep sid (grun G) (GGone c id)).
Qed.

(** What a pass found out about the session it is about to close. *)
Lemma sweep_saw G sid todo :
  (sweep (grun G) = SUnseen sid todo → ∃ G1 G2, G = G1 ++ GLook :: G2 ∧ Get sid (reg (core (grun G1))) = None) ∧
  (sweep (grun G) = SDead sid todo → ∃ G1 G2 now G3, G = G1 ++ GLook :: G2 ++ GLookAgain now :: G3 ∧ Get sid (reg (core (grun G1))) = None ∧
     Starting now sid (starting (core (grun (G1 ++ GLook :: G2)))) = false).
Proof.
  revert sid todo. induction G as [|x G IH] using rev_ind; intros sid todo; [done|]. rewrite grun_snoc.
  assert (∀ l, next l ≠ SUnseen sid todo) as Hn1 by by intros []. assert (∀ l, next l ≠ SDead sid todo) as Hn2 by by intros [].
  assert (sweep (gstep (grun G) x) = sweep (grun G) →
    (sweep (gstep (grun G) x) = SUnseen sid todo → ∃ G1 G2, G ++ [x] = G1 ++ GLook :: G2 ∧ Get sid (reg (core (grun G1))) = None) ∧
    (sweep (gstep (grun G) x) = SDead sid todo → ∃ G1 G2 now G3, G ++ [x] = G1 ++ GLook :: G2 ++ GLookAgain now :: G3 ∧
       Get sid (reg (core (grun G1))) = None ∧ Starting now sid (starting (core (grun (G1 ++ GLook :: G2)))) = false)) as Hsame.
  { intros ->. destruct (IH sid todo) as [H1 H2]. split.
    - intros E. destruct (H1 E) as (G1 & G2 & -> & Hg). exists G1, (G2 ++ [x]). by rewrite <-app_assoc.
    - intros E. destruct (H2 E) as (G1 & G2 & now & G3 & -> & Hg & Hs). exists G1, G2, now, (G3 ++ [x]). split; [|done].
      rewrite <-app_assoc. cbn [app]. by rewrite <-app_assoc. }
  destruct x as [a|now|  |now|now ok|c id]; cbn [gstep] in *.
  - by apply Hsame.
  - destruct (sweep (grun G)) eqn:Es; try (by apply Hsame). cbn. split; [intros []%Hn1|intros []%Hn2].
  - destruct (sweep (grun G)) as [|[|sid' l]| |] eqn:Es; try (by apply Hsame). cbn. case_bool_decide as Hg; [split; [intros []%Hn1|intros []%Hn2]|].
    split; [|done]. intros [= -> ->]. exists G, []. split; [done|]. by apply eq_None_not_Some.
  - destruct (sweep (grun G)) as [| |sid' l|] eqn:Es; try (by apply Hsame). cbn. destruct (Starting _ _ _) eqn:Hg; [split; [intros []%Hn1|intros []%Hn2]|].
    split; [done|]. intros [= -> ->]. destruct (IH sid todo) as [H1 _]. destruct (H1 eq_refl) as (G1 & G2 & -> & Hr). exists G1, G2, now, [].
    split_and!; [by rewrite <-app_assoc|done..].
  - destruct (sweep (grun G)) eqn:Es; try (by apply Hsame). destruct ok; cbn; [split; [intros []%Hn1|intros []%Hn2]|done].
  - by apply Hsame.
Qed.

(** A request that runs a session now, and did not then, went live in between. *)
Lemma went_live G H k sid r : runs (core (grun (G ++ H))) !! k = Some r → at_ r = Running sid →
  (∃ r0, runs (core (grun G)) !! k = Some r0 ∧ at_ r0 = Running sid) ∨ ∃ e, GAct (ALive e k) ∈ H.
Proof.
  revert r. induction H as [|x H IH] using rev_ind; intros r; [rewrite app_nil_r; eauto|]. rewrite app_assoc, grun_snoc. intros Hk Hr.
  assert (∀ r0, runs (core (grun (G ++ H))) !! k = Some r0 → at_ r0 = Running sid →
    (∃ r0, runs (core (grun G)) !! k = Some r0 ∧ at_ r0 = Running sid) ∨ ∃ e, GAct (ALive e k) ∈ H ++ [x]) as Hold.
  { intros r0 H0 E0. destruct (IH r0 H0 E0) as [?|[e ?]]; [by left|right; exists e; set_solver]. }
  destruct x as [a|now|  |now|now ok|c id]; cbn [gstep] in Hk.
  - destruct (step_stage a _ k r Hk) as [r0 H0 E|E|sid0 E _|e sid0 r0 -> H0 E0 E|sid0 r0 H0 E0 E]; try congruence; [eapply Hold; [done|congruence]|].
    right. exists e. set_solver.
  - eapply Hold; [|done]. by destruct (sweep (grun (G ++ H))).
  - eapply Hold; [|done]. by destruct (sweep (grun (G ++ H))) as [|[|? ?]| |].
  - eapply Hold; [|done]. by destruct (sweep (grun (G ++ H))).
  - eapply Hold; [|done]. destruct (sweep (grun (G ++ H))); try done. by destruct ok.
  - by eapply Hold.
Qed.

(** C16. No session stays listed as open that nobody runs, and none is closed
under the person using it but in one race.  In every state the gateway reaches,
with its requests, the looks and writes of the sweep and deletions interleaved in
any way, and writes that failed: (1) a row open for longer than the grace that no
request holds is closed when a pass that begins then has come to its end, if
none of its writes failed; (2) a pass closes the row of a session only after it
was found neither in the registry nor, after that, among those starting, so that
a session that is running then went live between the first look and the write;
(3) a row once closed keeps its time, reason and words through everything that
follows, and every row its columns, but for the references to what was deleted. *)
Theorem rows_settle G sid w : rows (core (grun G)) !! sid = Some w →
  (∀ now H, rEndedAt w = None → ¬ held (core (grun G)) sid → rStartedAt w < TimeArg (now - sweepGrace) → sweep (grun G) = SIdle →
     (∀ t, GWrite t false ∉ H) → sweep (grun (G ++ GRead now :: H)) = SIdle →
     ∃ w', rows (core (grun (G ++ GRead now :: H))) !! sid = Some w' ∧ rEndedAt w' ≠ None) ∧
  (∀ now, rows (core (gstep (grun G) (GWrite now true))) !! sid ≠ Some w →
     ∃ G1 G2 t G3, G = G1 ++ GLook :: G2 ++ GLookAgain t :: G3 ∧ Get sid (reg (core (grun G1))) = None ∧
       Starting t sid (starting (core (grun (G1 ++ GLook :: G2)))) = false ∧
       ∀ k r, runs (core (grun G)) !! k = Some r → at_ r = Running sid → ∃ e, GAct (ALive e k) ∈ G2 ++ G3) ∧
  (∀ H, ∃ w', rows (core (grun (G ++ H))) !! sid = Some w' ∧ row_refs H w w' ∧ end_kept w w').
Proof.
  intros Hw. split_and!.
  - intros now H Ho Hn Ht Hs Hok Hend.
    assert (∀ H', (∀ t, GWrite t false ∉ H') → caught sid (grun ((G ++ [GRead now]) ++ H'))) as Hc.
    { induction H' as [|x H' IH] using rev_ind; intros Hx.
      - rewrite app_nil_r, grun_snoc. cbn. rewrite Hs. split; [done|]. exists w. split; [done|right]. cbn. rewrite pending_next. unfold openBefore.
        apply list_elem_of_fmap. exists (sid, w). split; [done|]. apply elem_of_lfilter. split; [by apply elem_of_map_to_list|].
        cbn. rewrite Ho. cbn. by apply Z.ltb_lt.
      - rewrite app_assoc. apply caught_step; [apply IH; intros t Ht'; by eapply Hx, elem_of_app; left|]. intros t ->. apply (Hx t). set_solver. }
    specialize (Hc H Hok). rewrite <-app_assoc in Hc. cbn in Hc. destruct Hc as (_ & w' & Hw' & [Hc|Hc]); [by exists w'|].
    rewrite Hend in Hc. by apply elem_of_nil in Hc.
  - intros now Hne. cbn [gstep] in Hne. destruct (sweep (grun G)) as [| | |sid' todo] eqn:Es; try done. cbn in Hne.
    destruct (decide (sid' = sid)) as [->|Hd]; [|by rewrite lookup_alter_ne in Hne]. destruct (sweep_saw G sid todo) as [_ H2].
    destruct (H2 Es) as (G1 & G2 & t & G3 & -> & Hg & Hst). exists G1, G2, t, G3. split_and!; [done..|]. intros k r Hk Hr.
    destruct (went_live G1 _ k sid r Hk Hr) as [(r0 & H0 & E0)|[e He]].
    + destruct (inv_reg _ _ (Inv_grun G1) k r0 sid H0 E0) as [l Hl]. unfold Get in Hg. congruence.
    + exists e. set_solver.
  - intros H. by apply grun_row.
Qed.

(** * What a revocation ends *)

(** Ending one session: it is ended, and the others are as they were. *)
Lemma cause_spec seen r sid cause : Registry.Inv seen r →
  (∃ seen', Registry.Inv seen' (TerminateWithCause sid cause r).2) ∧
  ∀ sid' l, live r !! sid' = Some l →
    if bool_decide (sid' = sid)
    then live (TerminateWithCause sid cause r).2 !! sid' = Some (if ended l then l else set_ended l) ∧
         (TerminateWithCause sid cause r).1 = negb (ended l)
    else live (TerminateWithCause sid cause r).2 !! sid' = Some l ∧ contexts (TerminateWithCause sid cause r).2 !! ctx l = contexts r !! ctx l.
Proof.
  intros HI. split; [eexists; apply (Registry.live_Inv_step _ (OTerminateWithCause sid cause) _ HI I)|].
  intros sid' l Hl. unfold TerminateWithCause, end_one. case_bool_decide as Hs.
  - subst. rewrite Hl. destruct (ended l) eqn:E; cbn; [done|]. by rewrite lookup_insert_eq.
  - destruct (live r !! sid) as [l0|] eqn:E0; [|done]. destruct (ended l0); [done|]. cbn. rewrite lookup_insert_ne by done. split; [done|].
    rewrite cancel_lookup, decide_False; [done|]. intros Ec. apply Hs. by eapply (Registry.inv_own _ _ HI).
Qed.

Lemma each_spec cause ls : ∀ seen r, Registry.Inv seen r →
  (∃ seen', Registry.Inv seen' (revoke_each cause ls r).2) ∧
  ∀ sid l, live r !! sid = Some l →
    if bool_decide (sid ∈ SessionID <$> ls)
    then live (revoke_each cause ls r).2 !! sid = Some (if ended l then l else set_ended l)
    else live (revoke_each cause ls r).2 !! sid = Some l ∧ contexts (revoke_each cause ls r).2 !! ctx l = contexts r !! ctx l.
Proof.
  induction ls as [|l0 ls IH]; intros seen r HI; [split; [by eexists|done]|]. cbn [revoke_each].
  destruct (cause_spec seen r (SessionID l0) cause HI) as [[seen1 HI1] H1]. destruct (TerminateWithCause _ _ _) as [b r1]. cbn [fst snd] in *.
  destruct (IH seen1 r1 HI1) as [H2 H3]. destruct (revoke_each cause ls r1) as [n r2]. cbn [snd] in *. split; [done|]. intros sid l Hl.
  specialize (H1 sid l Hl). rewrite fmap_cons. destruct (decide (sid = SessionID l0)) as [Hs|Hs].
  - rewrite bool_decide_eq_true_2 in H1 by done. destruct H1 as [H1 _]. rewrite bool_decide_eq_true_2 by (apply elem_of_cons; by left).
    specialize (H3 sid _ H1). case_bool_decide; [|by destruct H3]. by destruct (ended l) eqn:E; rewrite ?E in H3.
  - rewrite bool_decide_eq_false_2 in H1 by done. destruct H1 as [H1 Hc]. specialize (H3 sid l H1).
    rewrite (bool_decide_ext _ (sid ∈ SessionID <$> ls)) by (rewrite elem_of_cons; naive_solver). case_bool_decide; [done|].
    by rewrite <-Hc.
Qed.

(** The call counts the sessions it was first to end. *)
Lemma each_count cause ls : ∀ seen r, Registry.Inv seen r → NoDup (SessionID <$> ls) → (∀ l, l ∈ ls → live r !! SessionID l = Some l) →
  (revoke_each cause ls r).1 = length (List.filter (λ l, negb (ended l)) ls).
Proof.
  induction ls as [|l0 ls IH]; intros seen r HI Hd Hin; [done|]. cbn [revoke_each List.filter]. rewrite fmap_cons in Hd. apply NoDup_cons in Hd as [Hn Hd].
  destruct (cause_spec seen r (SessionID l0) cause HI) as [[seen1 HI1] H1]. destruct (TerminateWithCause _ _ _) as [b r1]. cbn [fst snd] in *.
  specialize (IH seen1 r1 HI1 Hd). destruct (revoke_each cause ls r1) as [n r2]. cbn [fst] in *. rewrite IH.
  - specialize (H1 (SessionID l0) l0 (Hin l0 ltac:(left))). rewrite bool_decide_eq_true_2 in H1 by done. destruct H1 as [_ ->]. by destruct (ended l0).
  - intros l Hl. specialize (H1 (SessionID l) l (Hin l ltac:(by right))). rewrite bool_decide_eq_false_2 in H1; [by destruct H1|].
    intros E. apply Hn. rewrite <-E. by apply list_elem_of_fmap_2.
Qed.

(** The registry of a reachable state is one the registry's own operations give. *)
Lemma reg_inv h : ∃ seen, Registry.Inv seen (reg (run h)).
Proof.
  induction h as [|a h [seen IH]] using rev_ind; [exists []; apply Registry.Inv_new|]. unfold run. rewrite foldl_snoc. fold (run h).
  revert IH. generalize (run h). intros s IH. assert (∀ o, Registry.outside o → ∃ seen', Registry.Inv seen' (exec1 o (reg s))) as Hop.
  { intros o Ho. eexists. by apply Registry.live_Inv_step. }
  assert (∀ cause ls, ∃ seen', Registry.Inv seen' (reg (let '(n, r) := revoke_each cause ls (reg s) in (n, set_reg r s)).2)) as He.
  { intros cause ls. destruct (each_spec cause ls seen (reg s) IH) as [? _]. by destruct (revoke_each cause ls (reg s)). }
  destruct a; cbn [step]; try by (eexists; exact IH).
  - unfold connect. repeat (case_match; [by eexists|]). destruct (resolve_asked e q) as [ep|[]]; try by eexists.
    destruct (issueTicket _ _ _ _ _ _ _ _ _) as [[tok|[c|]] st]; [|by eexists..]. case_match; by eexists.
  - unfold failover. destruct (rows s !! id) as [old|]; [|by eexists]. case_match; [by eexists|]. case_match; [by eexists|].
    destruct (take_as_lost e id old s) as [s'|] eqn:Ht; [|by eexists]. assert (∃ seen', Registry.Inv seen' (reg s')) as [seen' HI'].
    { unfold take_as_lost in Ht. destruct (rEndedAt old); [case_match; [injection Ht as <-; by eexists|done]|].
      destruct (match ASGs e with Some _ => _ | None => _ end); [done|]. injection Ht as <-. apply (Hop (OTerminateWithCause id ErrTargetLost) I). }
    destruct (fail_over_to e old instanceID) as [ep|[]]; try by eexists.
    destruct (issueTicket _ _ _ _ _ _ _ _ _) as [[tok|[c|]] st]; by eexists.
  - destruct (runs s !! k); [by eexists|]. unfold open_. destruct (redeem e p ip tok (store s)) as [[g|[]] st]; try by eexists. case_match; [by eexists|].
    destruct (match r with WsDesktop => _ | _ => _ end); [by eexists|]. destruct (resolveGrant _ _ _); [|by eexists].
    destruct (available _ _ _ _ _) as [|[]]; by eexists.
  - unfold startRun. destruct (runs s !! k) as [r|]; [|by eexists]. destruct (at_ r); try by eexists. unfold Start. destruct (negb _); [by eexists|].
    destruct (rows s !! sid); [by eexists|]. case_bool_decide; by eexists.
  - unfold live_. destruct (runs s !! k) as [r|]; [|by eexists]. destruct (at_ r) as [|sid| |]; try by eexists. by apply (Hop (OAdd (now e) (live_of r sid))).
  - by apply (Hop (OSetGuacID sid guacID)).
  - unfold end_. destruct (runs s !! k) as [r|]; [|by eexists]. destruct (at_ r); by eexists.
  - unfold done_. destruct (runs s !! k) as [r|]; [|by eexists]. destruct (at_ r) as [| | |sid]; try by eexists. by apply (Hop (ORemove sid)).
  - by apply (Hop (OTerminate sid)).
  - apply He.
  - by apply (Hop (OTerminateUser userID)).
  - by apply (Hop (OTerminateTarget targetID ErrTargetDisabled)).
  - by apply (Hop (OTerminateTarget targetID ErrTrustLost)).
  - apply He.
  - apply He.
Qed.

(** An entry of the registry is under its own session's id. *)
Lemma live_key h sid l : live (reg (run h)) !! sid = Some l → SessionID l = sid.
Proof. intros (k & r & _ & _ & Hw)%(inv_live _ _ (Inv_run h)). by destruct Hw as (_ & _ & _ & _ & _ & _ & ->). Qed.

Lemma list_live h l : l ∈ List_ (reg (run h)) ↔ live (reg (run h)) !! SessionID l = Some l.
Proof.
  unfold List_. rewrite list_elem_of_fmap. split.
  - intros ([sid l'] & -> & Hl%elem_of_map_to_list). cbn. by rewrite (live_key h sid l' Hl).
  - intros Hl. exists (SessionID l, l). split; [done|]. by apply elem_of_map_to_list.
Qed.

Lemma list_nodup h : NoDup (SessionID <$> List_ (reg (run h))).
Proof.
  unfold List_. rewrite <-list_fmap_compose. rewrite (list_fmap_ext _ fst); [apply NoDup_fst_map_to_list|].
  intros i [sid l] Hi. cbn. apply (live_key h). apply elem_of_map_to_list. by eapply list_elem_of_lookup_2.
Qed.

(** Ending the sessions [f] selects of those [keep] does. *)
Lemma revoke_where h cause (keep f : Live → bool) :
  let r := reg (run h) in
  let r' := (revoke_each cause (List.filter f (List.filter keep (List_ r))) r).2 in
  (∀ sid l, live r !! sid = Some l → keep l = true → f l = true →
     ∃ l' c, live r' !! sid = Some l' ∧ ended l' = true ∧ contexts r' !! ctx l' = Some (Some c)) ∧
  (∀ sid l, live r !! sid = Some l → keep l = false ∨ f l = false → live r' !! sid = Some l ∧ contexts r' !! ctx l = contexts r !! ctx l) ∧
  (revoke_each cause (List.filter f (List.filter keep (List_ r))) r).1 =
    length (List.filter (λ l, negb (ended l)) (List.filter f (List.filter keep (List_ r)))).
Proof.
  intros r r'. destruct (reg_inv h) as [seen HI]. destruct (each_spec cause (List.filter f (List.filter keep (List_ r))) seen r HI) as [[seen' HI'] Hs].
  fold r' in HI', Hs. assert (∀ sid l, live r !! sid = Some l →
    (sid ∈ SessionID <$> List.filter f (List.filter keep (List_ r)) ↔ keep l = true ∧ f l = true)) as Hin.
  { intros sid l Hl. rewrite list_elem_of_fmap. pose proof (live_key h sid l Hl) as Hk. split.
    - intros (l0 & E & H0). unfold r in H0. rewrite list_elem_of_In, !filter_In, <-list_elem_of_In, (list_live h) in H0. destruct H0 as [[H0 ?] ?].
      assert (l0 = l) as -> by (rewrite <-E in H0; unfold r in Hl; congruence). done.
    - intros [??]. exists l. split; [done|]. unfold r. rewrite list_elem_of_In, !filter_In, <-list_elem_of_In, (list_live h), Hk. done. }
  split_and!.
  - intros sid l Hl Hk Hf. specialize (Hs sid l Hl). rewrite bool_decide_eq_true_2 in Hs by by apply (Hin sid l Hl).
    eexists. assert (∀ l', live r' !! sid = Some l' → ended l' = true → ∃ c, live r' !! sid = Some l' ∧ ended l' = true ∧ contexts r' !! ctx l' = Some (Some c)) as Hx.
    { intros l' Hl' He. destruct (Registry.inv_ended _ _ HI' sid l' Hl' He) as [c Hc]. by exists c. }
    apply (Hx _ Hs). by destruct (ended l) eqn:E.
  - intros sid l Hl Hn. specialize (Hs sid l Hl). rewrite bool_decide_eq_false_2 in Hs; [done|]. rewrite (Hin sid l Hl). destruct Hn; intuition congruence.
  - eapply each_count; [done| |].
    + pose proof (list_nodup h) as Hd. fold r in Hd. revert Hd. generalize (List_ r). intros ls Hd.
      assert (∀ (g : Live → bool) ls, NoDup (SessionID <$> ls) → NoDup (SessionID <$> List.filter g ls)) as Hf; [|by apply Hf, Hf].
      clear. intros g ls. induction ls as [|l ls IH]; [done|]. cbn [List.filter]. rewrite fmap_cons. intros [Hn Hd]%NoDup_cons.
      destruct (g l); [|by apply IH]. rewrite fmap_cons. apply NoDup_cons. split; [|by apply IH].
      intros (l' & E & Hl')%list_elem_of_fmap. apply Hn. rewrite E. apply list_elem_of_fmap_2.
      rewrite list_elem_of_In, filter_In, <-list_elem_of_In in Hl'. by destruct Hl'.
    + intros l Hl. rewrite list_elem_of_In, !filter_In, <-list_elem_of_In in Hl. destruct Hl as [[Hl _] _]. by apply (list_live h).
Qed.

Definition Allows (l : Live) (d : Decision) : Prop :=
  (Registry.AllowClipboard l = true → dAllowClipboard d = true) ∧ (Registry.AllowFileTransfer l = true → dAllowFileTransfer d = true) ∧
  (Registry.AllowDevTools l = true → dAllowDevTools d = true).

Lemma withdrawn_false e s l : withdrawn e s l = false →
  sessionRef e (SessionID l) s = None ∨
  (∃ ref, sessionRef e (SessionID l) s = Some ref ∧ AdmitLive (gate e) (Registry.UserID l) ref (Registry.Protocol l) (now e) = Failed) ∨
  (∃ ref d, sessionRef e (SessionID l) s = Some ref ∧ AdmitLive (gate e) (Registry.UserID l) ref (Registry.Protocol l) (now e) = LetIn d ∧ Allows l d).
Proof.
  unfold withdrawn. intros H. destruct (sessionRef e (SessionID l) s) as [ref|]; [|by left]. right.
  destruct (AdmitLive _ _ _ _ _) as [d| |] eqn:E; [|done|left; by exists ref]. right. exists ref, d. split_and!; [done..|].
  apply orb_false_iff in H as [[H1 H2]%orb_false_iff H3]. unfold Allows.
  destruct (Registry.AllowClipboard l), (dAllowClipboard d), (Registry.AllowFileTransfer l), (dAllowFileTransfer d), (Registry.AllowDevTools l), (dAllowDevTools d); done.
Qed.

(** C15. After a change of policies, groups or members no session outlives the
access it rests on.  Re-checking the users a change touches, in any state the
gateway reaches: each of their sessions that is in the registry and not ended
afterwards is one that the gate would let in now, with every channel it uses
(clipboard, files, developer tools) still allowed, or one that could not be
checked; each that is ended has its context cancelled; the sessions of other
users, and those still allowed, are exactly as they were; and the count
reported is of the sessions this call was the first to end. *)
Theorem recheck_withdraws h e us :
  let s := run h in
  let '(n, s') := Recheck e us s in
  (∀ sid l, live (reg s') !! sid = Some l → Registry.UserID l ∈ us → ended l = false →
     sessionRef e sid s = None ∨
     (∃ ref, sessionRef e sid s = Some ref ∧ AdmitLive (gate e) (Registry.UserID l) ref (Registry.Protocol l) (now e) = Failed) ∨
     (∃ ref d, sessionRef e sid s = Some ref ∧ AdmitLive (gate e) (Registry.UserID l) ref (Registry.Protocol l) (now e) = LetIn d ∧ Allows l d)) ∧
  (∀ sid l, live (reg s') !! sid = Some l → ended l = true → ∃ c, contexts (reg s') !! ctx l = Some (Some c)) ∧
  (∀ sid l, live (reg s) !! sid = Some l → Registry.UserID l ∉ us ∨ withdrawn e s l = false →
     live (reg s') !! sid = Some l ∧ contexts (reg s') !! ctx l = contexts (reg s) !! ctx l) ∧
  n = length (List.filter (λ l, negb (ended l)) (List.filter (withdrawn e s) (List.filter (λ l, bool_decide (Registry.UserID l ∈ us)) (List_ (reg s))))).
Proof.
  intros s. unfold Recheck. destruct (revoke_where h ErrPolicyRevoked (λ l, bool_decide (Registry.UserID l ∈ us)) (withdrawn e s)) as (H1 & H2 & H3).
  destruct (reg_inv h) as [seen HI]. destruct (each_spec ErrPolicyRevoked (List.filter (withdrawn e s) (List.filter (λ l, bool_decide (Registry.UserID l ∈ us)) (List_ (reg s)))) seen _ HI) as [[seen' HI'] _].
  pose proof (similar_each ErrPolicyRevoked (List.filter (withdrawn e s) (List.filter (λ l, bool_decide (Registry.UserID l ∈ us)) (List_ (reg s)))) (reg s)) as Hsim.
  fold s in H1, H2, H3, HI'. destruct (revoke_each _ _ _) as [n r']. cbn [fst snd reg set_reg] in *. split_and!; [| | |done].
  - intros sid l Hl Hu He. specialize (Hsim sid). rewrite Hl in Hsim. inversion Hsim as [l0 ? Hw E|]; subst.
    destruct (withdrawn e s l0) eqn:Ew.
    + exfalso. destruct Hw as (Eu & _). destruct (H1 sid l0) as (l' & c & Hl' & He' & _); [done|apply bool_decide_eq_true; by rewrite Eu|done|congruence].
    + destruct (H2 sid l0) as [Hl0 _]; [done|by right|]. assert (l0 = l) as -> by congruence.
      rewrite <-(live_key h sid l (eq_sym E)). by apply withdrawn_false.
  - intros sid l Hl He. by eapply (Registry.inv_ended _ _ HI').
  - intros sid l Hl Hn. apply (H2 sid l Hl). destruct Hn as [Hn|Hn]; [left; by apply bool_decide_eq_false|by right].
Qed.

(** C17. A revocation misses the session that is being set up.  Whenever a session
has its row and is not registered yet, which lasts as long as the dial or the
start of its containers, re-checking the users and ending all sessions of its
user ends nothing of it: it goes live afterwards, with its context running and
whatever the gate now says, and nothing of the start asks the gate again. *)
Theorem starting_outruns_revocation h e e' us k r sid :
  runs (run h) !! k = Some r → at_ r = Started sid →
  let s' := run (h ++ [ARecheck e us; AUserRevoked (Ticket.UserID (rg r)); ALive e' k]) in
  ∃ l, live (reg s') !! sid = Some l ∧ Registry.UserID l = Ticket.UserID (rg r) ∧ ended l = false ∧ contexts (reg s') !! ctx l = Some None.
Proof.
  intros Hk Ha s'. unfold s', run. rewrite foldl_app. fold (run h). cbn [foldl step].
  set (s1 := (UserRevoked _ _).2). assert (runs s1 !! k = Some r) as Hk1.
  { unfold s1, UserRevoked, Recheck. destruct (revoke_each _ _ _). cbn. done. }
  unfold live_. rewrite Hk1, Ha. cbn [reg set_runs set_starting set_reg Add snd live contexts live_of SessionID].
  eexists. rewrite lookup_insert_eq. split; [done|]. split_and!; [done..|]. cbn [with_ctx ctx].
  by rewrite lookup_app_r, Nat.sub_diag by lia.
Qed.

End tz.

(** * Witnesses *)

Definition ex_env (at_time : time) (pols : list Policy) : Env := {|
  now := at_time; UserExists := λ _, true; Draining := false; DiskFull := ""; GuacdAddr := "";
  Targets := λ id, if bool_decide (id = "t1") then Ok {|
      tgID := "t1"; tgAddress := "db.example"; tgEngine := ""; tgRetentionDays := None; tgAppUpstream := ""; tgPorts := ∅;
      tgHostKeyFingerprint := Some "SHA256:abc"; tgHostKeyStatus := "trusted"; tgTLSFingerprint := None; tgWinRMTLSFingerprint := None;
      tgTags := {[ "env" := "prod" ]}; tgStatus := "active"; tgCredentials := {[ SSH := "c1" ]} |} else Err NotFound_;
  ASGs := None; CloudSet := false;
  VaultGet := λ id, if bool_decide (id = "c1") then Some {| cType := "password"; cMode := ModeVaulted; cUsername := "root"; cPrincipals := [] |} else None;
  gate := gate_over (λ _, Ok pols) [] None; UnlockPrivateKey := λ _ _, Err ErrBadKey; Resolve := λ _, LResolved; Dials := λ _ _, true;
  Presents := λ _ _, None; ProberSet := true; ImagesSet := false; Parses := λ _, false; OriginForbidden := λ _, false; DBMaxSessions := 0; AppsMaxSessions := 0 |}.

Definition ex_pols : list Policy := [ex_policy "loose" [ex_loose]].

Definition ex_account : Users.User := {|
  Users.ID := "u1"; Users.Username := "ada"; Users.Email := ""; Users.DisplayName := ""; Users.Status_ := Users.StatusActive;
  Users.Roles := ["user"]; Users.IdPID := ""; Users.ExternalID := ""; Users.FailedLogins := 0; Users.LockedUntil := None;
  Users.CreatedAt := 0; Users.UpdatedAt := 0; Users.LastLoginAt := None; Users.MustResetOnLogin := false;
  Users.DirectoryRemovedAt := None; Users.SCIMExternalID := ""; Users.SCIMDeletedAt := None; Users.PasswordHash := "" |}.

Definition ex_principal : Middleware.Principal := {|
  Session := {| Sessions.ID := "b1"; Sessions.UserID := "u1"; Sessions.MFAVerified := true; Sessions.IP := ""; Sessions.UserAgent := "";
    Sessions.CreatedAt := 0; Sessions.ExpiresAt := 0; Sessions.LastSeenAt := 0; Sessions.MFAAt := 0 |};
  User := ex_account; TokenID := "" |}.

Definition ex_raw : bytes := replicate 32 "a"%char.

(** A person connects, opens the terminal, and the session's row is written. *)
Definition ex_start : list act := [
  AConnect (ex_env ex_now ex_pols) (Some ex_raw) ex_principal "10.0.0.1" {|
    qTargetID := "t1"; qASGID := ""; qASGInstanceID := ""; qProtocol := "ssh"; qCredential := None |};
  AOpen (ex_env (ex_now + Second) ex_pols) (ex_env (ex_now + Second) ex_pols) WsTerminal (Some ex_principal) "10.0.0.1" (Base64.EncodeToString ex_raw) 7;
  AStart (ex_env (ex_now + Second) ex_pols) 7 "s1"].

Definition ex_live_history : list act := ex_start ++ [ALive (ex_env (ex_now + 2 * Second) ex_pols) 7].

Lemma live_authorised_witness :
  ∃ l e2 ep1, live (reg (run (TZ := ex_zones) ex_live_history)) !! "s1" = Some l ∧
    ∀ ep2, resolveGrant e2 (epTargetID ep1) (epASGInstanceID ep1) = Ok ep2 →
      ∃ d2, admits (TZ := ex_zones) e2 (Registry.UserID l) ep2 (Registry.Protocol l) = LetIn d2.
Proof.
  destruct (live (reg (run (TZ := ex_zones) ex_live_history)) !! "s1") as [l|] eqn:E; [|by vm_compute in E].
  exists l. destruct (live_authorised (TZ := ex_zones) ex_live_history "s1" l E) as
    (h1 & h2 & e1 & e2 & e3 & p1 & p2 & ip & rt & tok & k & ep1 & ep3 & d1 & reg0 & H). exists e2, ep1. split; [done|]. apply H.
Defined.

(** The read of the target fails while the ticket is redeemed, after its policy
was taken away: the gate is not asked, and the socket opens. *)
Definition ex_unread (e : Env) : Env := {|
  now := now e; UserExists := UserExists e; Draining := Draining e; DiskFull := DiskFull e; GuacdAddr := GuacdAddr e;
  Targets := λ _, Err Unavailable; ASGs := ASGs e; CloudSet := CloudSet e; VaultGet := VaultGet e; gate := gate e; UnlockPrivateKey := UnlockPrivateKey e;
  Resolve := Resolve e; Dials := Dials e; Presents := Presents e; ProberSet := ProberSet e; ImagesSet := ImagesSet e; Parses := Parses e;
  OriginForbidden := OriginForbidden e; DBMaxSessions := DBMaxSessions e; AppsMaxSessions := AppsMaxSessions e |}.

Lemma unread_target_skips_gate :
  let e := ex_env (ex_now + Second) [] in
  let open e1 := AOpen e1 e WsTerminal (Some ex_principal) "10.0.0.1" (Base64.EncodeToString ex_raw) 7 in
  is_Some (runs (run (TZ := ex_zones) (take 1 ex_start ++ [open (ex_unread e)])) !! 7%N) ∧
  runs (run (TZ := ex_zones) (take 1 ex_start ++ [open e])) !! 7%N = None.
Proof. split; [vm_compute; by eexists|by vm_compute]. Qed.

(** The write that closes the row fails; five minutes later the sweep closes it. *)
Definition ex_lost_history : list act :=
  ex_live_history ++ [AEnd (ex_env (ex_now + Minute) ex_pols) 7 false "user_exit" ""; ADone 7].

Definition quiet_pass (now : time) : list gact := [GLook; GLookAgain now; GWrite now true].

Lemma rows_settle_witness :
  ∃ w', rows (core (grun (TZ := ex_zones) ((GAct <$> ex_lost_history) ++ GRead (ex_now + 5 * Minute) :: quiet_pass (ex_now + 5 * Minute)))) !! "s1" = Some w' ∧
    rEndedAt w' ≠ None.
Proof.
  destruct (rows (core (grun (TZ := ex_zones) (GAct <$> ex_lost_history))) !! "s1") as [w|] eqn:E; [|by vm_compute in E].
  apply (rows_settle (TZ := ex_zones) (GAct <$> ex_lost_history) "s1" w E).
  - vm_compute in E. by injection E as <-.
  - intros (k & r & Hk & _). assert (runs (core (grun (TZ := ex_zones) (GAct <$> ex_lost_history))) = ∅) as E0 by by vm_compute. by rewrite E0 in Hk.
  - vm_compute in E. by injection E as <-.
  - by vm_compute.
  - unfold quiet_pass. intros t H. repeat (apply elem_of_cons in H as [H|H]; [discriminate|]). by apply elem_of_nil in H.
  - by vm_compute.
Defined.

(** The race: a session whose set-up took longer than the grace goes live between
the two looks, and the pass closes its row, while its bridge runs on. *)
Lemma sweep_closes_live_session :
  let t := ex_now + 5 * Minute in
  let g := grun (TZ := ex_zones) ((GAct <$> ex_start) ++ [GRead t; GLook; GAct (ALive (ex_env t ex_pols) 7); GLookAgain t; GWrite t true]) in
  (∃ l, live (reg (core g)) !! "s1" = Some l ∧ ended l = false) ∧ (∃ w, rows (core g) !! "s1" = Some w ∧ rEndedAt w = Some (TimeArg t)).
Proof. vm_compute. split; eexists; by split. Qed.

(** The policy is taken away, and everything of the user's is ended, while the
terminal is being dialled; the session goes live, though the gate refuses it. *)
Lemma starting_outruns_revocation_witness :
  let e := ex_env (ex_now + 2 * Second) [] in
  let s' := run (TZ := ex_zones) (ex_start ++ [ARecheck e ["u1"]; AUserRevoked "u1"; ALive e 7]) in
  (∃ d c, admits (TZ := ex_zones) e "u1" (fromTarget {|
      tgID := "t1"; tgAddress := "db.example"; tgEngine := ""; tgRetentionDays := None; tgAppUpstream := ""; tgPorts := ∅;
      tgHostKeyFingerprint := Some "SHA256:abc"; tgHostKeyStatus := "trusted"; tgTLSFingerprint := None; tgWinRMTLSFingerprint := None;
      tgTags := {[ "env" := "prod" ]}; tgStatus := "active"; tgCredentials := {[ SSH := "c1" ]} |}) "ssh" = AccessFlow.Refused d c) ∧
  ∃ l, live (reg s') !! "s1" = Some l ∧ Registry.UserID l = "u1" ∧ ended l = false ∧ contexts (reg s') !! ctx l = Some None.
Proof.
  intros e s'. split; [eexists _, _; by vm_compute|].
  destruct (runs (run (TZ := ex_zones) ex_start) !! 7%N) as [r|] eqn:E; [|by vm_compute in E].
  assert (Ticket.UserID (rg r) = "u1" ∧ at_ r = Started "s1") as [Hu Ha] by (vm_compute in E; by injection E as <-).
  pose proof (starting_outruns_revocation (TZ := ex_zones) ex_start e e ["u1"] 7 r "s1" E Ha) as H. rewrite Hu in H. exact H.
Defined.
