(* ===== verification/Guac.v ===== *)
(** The Guacamole protocol of desktop sessions: src/internal/gateway/guac/protocol.go
and the policy filter and relay loops of bridge.go and shadow.go.

An instruction on the wire is a list of bytes.  [Reader.ReadRaw] reads the next
one from the bytes guacd sent; the relay loops are functions from the
instructions one side sent to what the other side and the recording get, one
instruction at a time, with the stream filter as their state.  The channels,
the clock and the closing of the sockets are not modelled. *)
From S2P Require Import Prelude GoText Strconv.
Local Open Scope Z_scope.

Definition DOT : ascii := byte_of 46.
Definition COMMA : ascii := byte_of 44.
Definition SEMI : ascii := byte_of 59.

Record Instruction := { Op : bytes; Args : list bytes }.

Inductive Error := ErrMalformed | ErrTooLong | ErrEOF.

Definition maxInstruction : Z := 8 * 1024 * 1024.

(** * Writing *)

Definition writeElem (s : bytes) : bytes := FormatInt (Z.of_nat (Utf8.rune_count s)) ++ DOT :: s.

Definition Encode (op : bytes) (args : list bytes) : bytes :=
  writeElem op ++ concat ((λ a, COMMA :: writeElem a) <$> args) ++ [SEMI].

(** * Reading *)

(** What is before the first [c], and what is after it. *)
Fixpoint cut (c : ascii) (b : bytes) : option (bytes * bytes) :=
  match b with
  | [] => None
  | a :: b => if Ascii.eqb a c then Some ([], b) else '(v, r) ← cut c b; Some (a :: v, r)
  end.

(** The first [n] characters, the size of each given by [size]. *)
Fixpoint take_chars (size : bytes → nat) (n : nat) (b : bytes) : option (bytes * bytes) :=
  match n with
  | O => Some ([], b)
  | S n =>
      match b with
      | [] => None
      | _ => let w := size b in '(v, r) ← take_chars size n (drop w b); Some (take w b ++ v, r)
      end
  end.

Definition rune_size (b : bytes) : nat := (Utf8.decode b).2.

(** The first [n] runes; a string shorter than [n] bytes has not that many. *)
Definition take_runes (n : Z) (b : bytes) : option (bytes * bytes) :=
  if Z.of_nat (length b) <? n then None else take_chars rune_size (Z.to_nat n) b.

(** A length, not negative. *)
Definition read_length (b : bytes) : option Z :=
  n ← Atoi b; if n <? 0 then None else Some n.

(** The elements of an instruction without its final ';'. *)
Fixpoint parse_elems (fuel : nat) (rest : bytes) : option (list bytes) :=
  match fuel with
  | O => Some []
  | S fuel =>
      match rest with
      | [] => Some []
      | _ =>
          '(len, rest) ← cut DOT rest;
          n ← read_length len;
          '(v, rest) ← take_runes n rest;
          match rest with
          | [] => Some [v]
          | c :: rest => if Ascii.eqb c COMMA then vs ← parse_elems fuel rest; Some (v :: vs) else None
          end
      end
  end.

Definition Parse (raw : bytes) : option Instruction :=
  match last raw with
  | Some c =>
      if Ascii.eqb c SEMI then
        elems ← parse_elems (length raw) (take (length raw - 1) raw);
        match elems with [] => None | op :: args => Some {| Op := op; Args := args |} end
      else None
  | None => None
  end.

(** ReadRaw: the runes read are written again, so a byte that starts none is
replaced; [acc] is the builder. *)
Fixpoint read_runes (n : nat) (b : bytes) : option (bytes * bytes) :=
  match n with
  | O => Some ([], b)
  | S n =>
      match b with
      | [] => None
      | _ => let '(r, w) := Utf8.decode b in '(v, rest) ← read_runes n (drop w b); Some (Utf8.encode r ++ v, rest)
      end
  end.

Fixpoint read_raw (fuel : nat) (acc b : bytes) : result Error (bytes * bytes) :=
  match fuel with
  | O => Err ErrEOF
  | S fuel =>
      match cut DOT b with
      | None => Err ErrEOF
      | Some (len, b) =>
          match read_length len with
          | None => Err ErrMalformed
          | Some n =>
              let acc := acc ++ len ++ [DOT] in
              if maxInstruction <? Z.of_nat (length acc) + n then Err ErrTooLong
              else
                match read_runes (Z.to_nat n) b with
                | None => Err ErrEOF
                | Some (_, []) => Err ErrEOF
                | Some (v, sep :: b) =>
                    let acc := acc ++ v ++ [sep] in
                    if Ascii.eqb sep COMMA then read_raw fuel acc b
                    else if Ascii.eqb sep SEMI then Ok (acc, b) else Err ErrMalformed
                end
          end
      end
  end.

Definition ReadRaw (b : bytes) : result Error (bytes * bytes) := read_raw (length b) [] b.

(** The opcode by bytes, without a full parse. *)
Definition Opcode (raw : bytes) : bytes :=
  match cut DOT raw with
  | None => []
  | Some (len, rest) =>
      match read_length len with
      | None => []
      | Some n => if Z.of_nat (length rest) <? n then [] else take (Z.to_nat n) rest
      end
  end.

(** The [i]-th element, the opcode being the 0th. *)
Fixpoint element (i : nat) (raw : bytes) : option bytes :=
  '(len, rest) ← cut DOT raw;
  n ← read_length len;
  '(v, rest) ← take_runes n rest;
  match rest with
  | [] => None
  | c :: rest =>
      if Ascii.eqb c COMMA then match i with O => Some v | S i => element i rest end
      else if Ascii.eqb c SEMI then match i with O => Some v | S _ => None end
      else None
  end.

Definition maxStreams : Z := 1024.

Definition streamIndex (raw : bytes) (arg : nat) : option Z :=
  s ← element (S arg) raw;
  n ← Atoi s;
  if (n <? 0) || (maxStreams <=? n) || negb (bool_decide (FormatInt n = s)) then None else Some n.

(** * The policy filter *)

Record Limits := { AllowClipboard : bool; AllowFileTransfer : bool }.

Definition allows (lim : Limits) (op : string) : bool :=
  if bool_decide (op = "clipboard") then AllowClipboard lim
  else if contains ["file"; "pipe"; "filesystem"; "body"; "undefine"; "get"; "put"] op then AllowFileTransfer lim
  else true.

Definition serverOpens : gmap string nat :=
  {[ "audio" := 0%nat; "argv" := 0%nat; "clipboard" := 0%nat; "file" := 0%nat; "img" := 0%nat; "pipe" := 0%nat; "video" := 0%nat; "body" := 1%nat ]}.
Definition clientOpens : gmap string nat :=
  {[ "audio" := 0%nat; "argv" := 0%nat; "clipboard" := 0%nat; "file" := 0%nat; "pipe" := 0%nat; "put" := 1%nat ]}.

Record streamFilter := { opens : gmap string nat; blocked : gset Z }.

Definition newStreamFilter (o : gmap string nat) : streamFilter := {| opens := o; blocked := ∅ |}.

Definition is_data (op : string) : bool := bool_decide (op = "blob") || bool_decide (op = "end").

(** check: whether the instruction passes, the stream it was refused to open, and
the filter. *)
Definition check (lim : Limits) (raw : bytes) (f : streamFilter) : bool * option Z * streamFilter :=
  let op := of_bytes (Opcode raw) in
  if is_data op then
    match streamIndex raw 0 with
    | None => (false, None, f)
    | Some i =>
        if bool_decide (i ∈ blocked f) then
          (false, None, if bool_decide (op = "end") then {| opens := opens f; blocked := blocked f ∖ {[i]} |} else f)
        else (true, None, f)
    end
  else
    match opens f !! op with
    | None => (allows lim op, None, f)
    | Some arg =>
        match streamIndex raw arg with
        | None => (false, None, f)
        | Some i =>
            if allows lim op then (true, None, {| opens := opens f; blocked := blocked f ∖ {[i]} |})
            else (false, Some i, {| opens := opens f; blocked := {[i]} ∪ blocked f |})
        end
    end.

(** * The relay loops *)

Inductive effect := ToBrowser (raw : bytes) | ToGuacd (raw : bytes) | Recorded (raw : bytes).

Definition statusClientForbidden : Z := 771.

Definition op_is (raw : bytes) (op : string) : bool := bool_decide (of_bytes (Opcode raw) = op).

(** One instruction from guacd, and whether the loop goes on. *)
Definition from_guacd (lim : Limits) (raw : bytes) (f : streamFilter) : list effect * streamFilter * bool :=
  if op_is raw "nop" then ([ToBrowser raw], f, true)
  else
    let '(pass, refused, f) := check lim raw f in
    let ack := match refused with
               | Some i => [ToGuacd (Encode (to_bytes "ack") [FormatInt i; to_bytes "blocked by policy"; FormatInt statusClientForbidden])]
               | None => []
               end in
    if pass then (ack ++ [Recorded raw; ToBrowser raw], f, negb (op_is raw "disconnect" || op_is raw "error"))
    else (ack, f, true).

(** One message from the browser. *)
Definition from_browser (lim : Limits) (raw : bytes) (f : streamFilter) : list effect * streamFilter :=
  match Parse raw with
  | None => ([], f)
  | Some _ => let '(pass, _, f) := check lim raw f in ((if pass then [ToGuacd raw] else []), f)
  end.

(** One message from a watcher's browser: shadow.go, Relay. *)
Definition from_watcher (raw : bytes) : list effect :=
  match Parse raw with
  | None => []
  | Some _ => if op_is raw "nop" || op_is raw "sync" then [ToGuacd raw] else []
  end.

Fixpoint guacd_loop (lim : Limits) (raws : list bytes) (f : streamFilter) : list effect :=
  match raws with
  | [] => []
  | raw :: raws => let '(out, f, go) := from_guacd lim raw f in out ++ (if go then guacd_loop lim raws f else [])
  end.

Fixpoint browser_loop (lim : Limits) (raws : list bytes) (f : streamFilter) : list effect :=
  match raws with
  | [] => []
  | raw :: raws => let '(out, f) := from_browser lim raw f in out ++ browser_loop lim raws f
  end.

(** Why a session ended, for the browser. *)
Definition endStatus (reason : string) : Z := if bool_decide (reason = "target_lost") then 519 else 523.

(** * What is written is read back *)

Lemma is_digit_not_dot a : is_digit a = true → Ascii.eqb a DOT = false.
Proof. intros H. destruct (Ascii.eqb_spec a DOT) as [->|]; [by vm_compute in H|done]. Qed.

Lemma cut_digits v rest : Forall (λ a, is_digit a = true) v → cut DOT (v ++ DOT :: rest) = Some (v, rest).
Proof.
  induction 1 as [|a v Ha Hv IH]; cbn [app cut]; [done|]. by rewrite is_digit_not_dot, IH by done.
Qed.

Lemma FormatInt_digits n : 0 ≤ n → Forall (λ a, is_digit a = true) (FormatInt n).
Proof. intros Hn. unfold FormatInt. rewrite (proj2 (Z.ltb_ge n 0) Hn). apply digits_all. Qed.

Lemma read_length_FormatInt n : 0 ≤ n → in_int64 n = true → read_length (FormatInt n) = Some n.
Proof. intros Hn Hi. unfold read_length, Atoi. rewrite ParseInt_FormatInt by done. cbn. by rewrite (proj2 (Z.ltb_ge n 0) Hn). Qed.

(** Valid text is its runes, encoded. *)
Lemma valid_runes v : Utf8.Valid v = true →
  v = concat (Utf8.encode <$> Utf8.runes v) ∧ Forall (λ r, Utf8.valid_rune r = true) (Utf8.runes v).
Proof.
  intros Hv. pose proof (Utf8.Valid_chunks v Hv) as Hc. unfold Utf8.runes. split.
  - rewrite <-(Utf8.chunks_bytes v) at 1. f_equal. rewrite <-list_fmap_compose. apply list_fmap_ext. intros i c Hi. cbn.
    apply Hc. by eapply list_elem_of_lookup_2.
  - apply Forall_fmap, Forall_forall. intros c Hin. by apply Hc.
Qed.

Lemma take_chars_encoded rs rest : Forall (λ r, Utf8.valid_rune r = true) rs →
  take_chars rune_size (length rs) (concat (Utf8.encode <$> rs) ++ rest) = Some (concat (Utf8.encode <$> rs), rest) ∧
  read_runes (length rs) (concat (Utf8.encode <$> rs) ++ rest) = Some (concat (Utf8.encode <$> rs), rest).
Proof.
  induction 1 as [|r rs Hr Hrs [IH1 IH2]]; [done|]. rewrite !fmap_cons. cbn [concat length take_chars read_runes]. rewrite <-app_assoc.
  destruct (Utf8.encode r ++ _) as [|a b] eqn:E.
  { exfalso. apply app_eq_nil in E as [E _]. revert E. unfold Utf8.encode. by repeat case_match. }
  rewrite <-E. unfold rune_size. rewrite Utf8.decode_encode by done. cbn [snd]. change (λ b, (Utf8.decode b).2) with rune_size.
  rewrite !drop_app_length, !take_app_length. by rewrite IH1, IH2.
Qed.

Lemma encoded_length rs : (length rs ≤ length (concat (Utf8.encode <$> rs)))%nat.
Proof.
  induction rs as [|r rs IH]; [done|]. rewrite fmap_cons. cbn [concat length]. rewrite length_app.
  assert (1 ≤ length (Utf8.encode r))%nat; [|lia]. unfold Utf8.encode. repeat case_match; cbn; lia.
Qed.

(** One element, wherever it stands. *)
Lemma element_read v rest : Utf8.Valid v = true → in_int64 (Z.of_nat (length v)) = true →
  let n := Z.of_nat (Utf8.rune_count v) in
  cut DOT (writeElem v ++ rest) = Some (FormatInt n, v ++ rest) ∧ read_length (FormatInt n) = Some n ∧
  take_runes n (v ++ rest) = Some (v, rest) ∧ read_runes (Z.to_nat n) (v ++ rest) = Some (v, rest) ∧ n ≤ Z.of_nat (length v).
Proof.
  intros Hv Hi n. destruct (valid_runes v Hv) as [Ev Hr]. destruct (take_chars_encoded (Utf8.runes v) rest Hr) as [H1 H2]. rewrite <-Ev in H1, H2.
  pose proof (encoded_length (Utf8.runes v)) as Hl. rewrite <-Ev in Hl. assert (n ≤ Z.of_nat (length v)) as Hn by (unfold n, Utf8.rune_count; lia).
  assert (0 ≤ n) by (unfold n; lia). assert (Z.to_nat n = length (Utf8.runes v)) as En by (unfold n, Utf8.rune_count; lia). split_and!; [| | | |done].
  - unfold writeElem. rewrite <-app_assoc. apply cut_digits, FormatInt_digits. lia.
  - apply read_length_FormatInt; [done|]. unfold in_int64, MinInt64, MaxInt64 in *. lia.
  - unfold take_runes. rewrite (proj2 (Z.ltb_ge _ _)) by (rewrite length_app; lia). by rewrite En.
  - by rewrite En.
Qed.

Definition tail_of (args : list bytes) : bytes := concat ((λ a, COMMA :: writeElem a) <$> args).

(** Text the gateway can frame: valid, and no longer than an instruction may be. *)
Definition Framable (op : bytes) (args : list bytes) : Prop :=
  Forall (λ v, Utf8.Valid v = true) (op :: args) ∧ Z.of_nat (length (Encode op args)) ≤ maxInstruction.

Lemma writeElem_long v : Z.of_nat (length v) < Z.of_nat (length (writeElem v)).
Proof. unfold writeElem. rewrite length_app. cbn. lia. Qed.

Lemma parse_elems_encoded args : ∀ fuel v, (length args < fuel)%nat → Forall (λ v, Utf8.Valid v = true ∧ in_int64 (Z.of_nat (length v)) = true) (v :: args) →
  parse_elems fuel (writeElem v ++ tail_of args) = Some (v :: args).
Proof.
  induction args as [|a args IH]; intros fuel v Hf [[Hv Hi] Hs]%Forall_cons; (destruct fuel as [|fuel]; [cbn in Hf; lia|]); cbn [parse_elems].
  all: destruct (writeElem v ++ tail_of _) as [|c b] eqn:E;
    [exfalso; apply app_eq_nil in E as [E _]; pose proof (writeElem_long v) as Hl; rewrite E in Hl; cbn in Hl; lia|].
  all: rewrite <-E; destruct (element_read v (tail_of []) Hv Hi) as (H1 & H2 & H3 & _ & _) || idtac.
  - rewrite H1. cbn [mbind option_bind]. rewrite H2. cbn [mbind option_bind]. rewrite H3. done.
  - destruct (element_read v (tail_of (a :: args)) Hv Hi) as (H1' & H2' & H3' & _ & _). rewrite H1'. cbn [mbind option_bind].
    rewrite H2'. cbn [mbind option_bind]. rewrite H3'. cbn [mbind option_bind].
    change (tail_of (a :: args)) with (COMMA :: (writeElem a ++ tail_of args)). lazy beta match.
    rewrite Ascii.eqb_refl. rewrite IH; [done|cbn in Hf; lia|done].
Qed.

Lemma element_encoded args : ∀ i v w, Forall (λ v, Utf8.Valid v = true ∧ in_int64 (Z.of_nat (length v)) = true) (v :: args) →
  (v :: args) !! i = Some w → element i (writeElem v ++ tail_of args ++ [SEMI]) = Some w.
Proof.
  induction args as [|a args IH]; intros i v w [[Hv Hi] Hs]%Forall_cons Hw.
  - destruct (element_read v ([] ++ [SEMI]) Hv Hi) as (H1 & H2 & H3 & _ & _). destruct i as [|i]; [injection Hw as <-|done].
    cbn [element tail_of fmap list_fmap concat]. rewrite H1. cbn [mbind option_bind]. rewrite H2. cbn [mbind option_bind]. by rewrite H3.
  - destruct (element_read v (tail_of (a :: args) ++ [SEMI]) Hv Hi) as (H1 & H2 & H3 & _ & _).
    destruct i as [|i]; cbn [element]; rewrite H1; cbn [mbind option_bind]; rewrite H2; cbn [mbind option_bind]; rewrite H3; cbn [mbind option_bind];
      change (tail_of (a :: args) ++ [SEMI]) with (COMMA :: ((writeElem a ++ tail_of args) ++ [SEMI])); lazy beta match.
    + injection Hw as <-. by rewrite Ascii.eqb_refl.
    + rewrite Ascii.eqb_refl, <-app_assoc. by apply IH.
Qed.

Lemma read_raw_encoded args : ∀ fuel acc v rest, (length args < fuel)%nat →
  Forall (λ v, Utf8.Valid v = true ∧ in_int64 (Z.of_nat (length v)) = true) (v :: args) →
  Z.of_nat (length acc + length (writeElem v ++ tail_of args)) ≤ maxInstruction →
  read_raw fuel acc ((writeElem v ++ tail_of args ++ [SEMI]) ++ rest) = Ok (acc ++ writeElem v ++ tail_of args ++ [SEMI], rest).
Proof.
  induction args as [|a args IH]; intros fuel acc v rest Hf [[Hv Hi] Hs]%Forall_cons Hm; (destruct fuel as [|fuel]; [cbn in Hf; lia|]); cbn [read_raw].
  - destruct (element_read v (SEMI :: rest) Hv Hi) as (H1 & H2 & _ & H4 & H5).
    replace ((writeElem v ++ tail_of [] ++ [SEMI]) ++ rest) with (writeElem v ++ SEMI :: rest) by by rewrite <-!app_assoc.
    rewrite H1, H2, H4. rewrite (proj2 (Z.ltb_ge _ _)).
    2: { rewrite !length_app in *. unfold writeElem in Hm. rewrite length_app in Hm. cbn in *. lia. }
    change (Ascii.eqb SEMI COMMA) with false. rewrite Ascii.eqb_refl. do 2 f_equal.
    unfold writeElem. cbn [tail_of fmap list_fmap concat app]. by rewrite <-!app_assoc.
  - destruct (element_read v (COMMA :: (writeElem a ++ tail_of args ++ [SEMI]) ++ rest) Hv Hi) as (H1 & H2 & _ & H4 & H5).
    replace ((writeElem v ++ tail_of (a :: args) ++ [SEMI]) ++ rest) with (writeElem v ++ COMMA :: (writeElem a ++ tail_of args ++ [SEMI]) ++ rest)
      by (change (tail_of (a :: args)) with (COMMA :: (writeElem a ++ tail_of args)); rewrite <-!app_assoc; cbn [app]; by rewrite <-!app_assoc).
    change (tail_of (a :: args)) with (COMMA :: (writeElem a ++ tail_of args)) in Hm |- *.
    rewrite H1, H2, H4. rewrite (proj2 (Z.ltb_ge _ _)).
    2: { rewrite !length_app in *. unfold writeElem in Hm at 1. rewrite length_app in Hm. cbn in *. lia. }
    rewrite Ascii.eqb_refl, IH; [|cbn in Hf; lia|done|].
    + f_equal. f_equal. unfold writeElem at 2. rewrite <-!app_assoc. cbn [app]. by rewrite <-!app_assoc.
    + unfold writeElem in Hm at 1. rewrite !length_app in *. cbn in *. rewrite !length_app in *. lia.
Qed.

Lemma Encode_tail op args : Encode op args = writeElem op ++ tail_of args ++ [SEMI].
Proof. done. Qed.

Lemma framed_small op args : Framable op args → Forall (λ v, Utf8.Valid v = true ∧ in_int64 (Z.of_nat (length v)) = true) (op :: args).
Proof.
  intros [Hv Hl]. rewrite Encode_tail, !length_app in Hl. apply Forall_forall. intros v Hin. split; [by eapply Forall_forall in Hv|].
  assert (Z.of_nat (length v) ≤ maxInstruction) as Hs; [|unfold in_int64, MinInt64, MaxInt64, maxInstruction in *; lia].
  apply elem_of_cons in Hin as [->|Hin]; [pose proof (writeElem_long op); lia|].
  assert (∀ args, v ∈ args → (length v ≤ length (tail_of args))%nat) as Ht.
  { clear. induction args as [|a args IH]; [by intros ?%not_elem_of_nil|]. unfold tail_of. rewrite fmap_cons. cbn [concat]. rewrite length_app. cbn [length].
    intros [->|Hin]%elem_of_cons; [pose proof (writeElem_long a); lia|]. apply IH in Hin. unfold tail_of in Hin. lia. }
  apply Ht in Hin. lia.
Qed.

Lemma tail_of_long args : (length args ≤ length (tail_of args))%nat.
Proof. induction args as [|a args IH]; [done|]. unfold tail_of in *. rewrite fmap_cons. cbn [concat]. rewrite length_app. cbn [length]. lia. Qed.

(** What the gateway writes to guacd or to the browser is read back as it was
written.  For any opcode and arguments of valid text that fit an instruction:
parsing the encoded instruction gives them back; the reader takes exactly it
from a stream, and leaves what follows; each element is found at its place
without a parse; and the opcode read by bytes is the opcode, when it is ASCII
as all opcodes are. *)
Theorem instruction_round_trip op args rest : Framable op args →
  Parse (Encode op args) = Some {| Op := op; Args := args |} ∧
  ReadRaw (Encode op args ++ rest) = Ok (Encode op args, rest) ∧
  (∀ i v, (op :: args) !! i = Some v → element i (Encode op args) = Some v) ∧
  (Forall (λ a, (byte_N a < 128)%N) op → Opcode (Encode op args) = op).
Proof.
  intros HF. pose proof (framed_small op args HF) as Hs. destruct HF as [_ Hl]. split_and!.
  - unfold Parse. rewrite Encode_tail, app_assoc, last_snoc, Ascii.eqb_refl. rewrite length_app, Nat.add_sub, take_app_length.
    rewrite parse_elems_encoded; [done| |done]. rewrite length_app. pose proof (tail_of_long args). pose proof (writeElem_long op). cbn. lia.
  - unfold ReadRaw. rewrite Encode_tail in Hl |- *. rewrite read_raw_encoded; [done| |done|].
    + rewrite !length_app. pose proof (tail_of_long args). pose proof (writeElem_long op). cbn. lia.
    + rewrite !length_app in *. cbn in *. lia.
  - intros i v Hv. rewrite Encode_tail. by apply element_encoded.
  - intros Ha. apply Forall_cons in Hs as [[Hv Hi] _]. destruct (element_read op (tail_of args ++ [SEMI]) Hv Hi) as (H1 & H2 & _).
    unfold Opcode. rewrite Encode_tail, H1, H2. assert (Utf8.rune_count op = length op) as ->.
    { unfold Utf8.rune_count, Utf8.runes. rewrite Utf8.chunks_ascii by done. by rewrite !length_fmap. }
    rewrite (proj2 (Z.ltb_ge _ _)) by (rewrite length_app; lia). by rewrite Nat2Z.id, take_app_length.
Qed.

Lemma instruction_round_trip_witness :
  Parse (Encode (to_bytes "clipboard") [to_bytes "3"; to_bytes "text/plain"]) =
    Some {| Op := to_bytes "clipboard"; Args := [to_bytes "3"; to_bytes "text/plain"] |}.
Proof. apply (instruction_round_trip _ _ []). split; [by repeat constructor|by vm_compute]. Defined.

(** * The filter against the streams' history *)

(** Which opcode opened each stream that has not ended since. *)
Definition track (o : gmap string nat) (raw : bytes) (own : gmap Z string) : gmap Z string :=
  let op := of_bytes (Opcode raw) in
  if is_data op then
    match streamIndex raw 0 with Some i => if bool_decide (op = "end") then delete i own else own | None => own end
  else
    match o !! op with
    | Some arg => match streamIndex raw arg with Some i => <[i := op]> own | None => own end
    | None => own
    end.

(** What the policy lets through, given those. *)
Definition permitted (lim : Limits) (o : gmap string nat) (own : gmap Z string) (raw : bytes) : bool :=
  let op := of_bytes (Opcode raw) in
  if is_data op then
    match streamIndex raw 0 with Some i => match own !! i with Some x => allows lim x | None => true end | None => false end
  else allows lim op && match o !! op with Some arg => bool_decide (is_Some (streamIndex raw arg)) | None => true end.

Record Follows (lim : Limits) (f : streamFilter) (o : gmap string nat) (own : gmap Z string) : Prop := {
  fo_opens : opens f = o;
  fo_blocked i : i ∈ blocked f ↔ ∃ x, own !! i = Some x ∧ allows lim x = false;
}.

Lemma check_follows lim f o own raw : Follows lim f o own →
  (check lim raw f).1.1 = permitted lim o own raw ∧ Follows lim (check lim raw f).2 o (track o raw own).
Proof.
  intros [<- Hb]. unfold check, permitted, track. destruct (is_data (of_bytes (Opcode raw))).
  - destruct (streamIndex raw 0) as [i|]; [|done]. specialize (Hb i) as Hi. case_bool_decide as Hin.
    + destruct (proj1 Hi Hin) as (x & Hx & Ha). rewrite Hx, Ha. split; [done|]. case_bool_decide; [|by split].
      split; [done|]. intros j. cbn. rewrite elem_of_difference, elem_of_singleton, Hb. destruct (decide (j = i)) as [->|Hne].
      * rewrite lookup_delete_eq. naive_solver.
      * rewrite lookup_delete_ne by done. naive_solver.
    + cbn. split.
      * destruct (own !! i) as [x|] eqn:Hx; [|done]. destruct (allows lim x) eqn:Ha; [done|]. exfalso. apply Hin, Hi. eauto.
      * case_bool_decide; [|by split]. split; [done|]. intros j. cbn. rewrite Hb. destruct (decide (j = i)) as [->|Hne].
        -- rewrite lookup_delete_eq. rewrite <-Hb. naive_solver.
        -- by rewrite lookup_delete_ne.
  - destruct (opens f !! of_bytes (Opcode raw)) as [arg|] eqn:Ho; [|by rewrite andb_true_r].
    destruct (streamIndex raw arg) as [i|]; [|by rewrite bool_decide_eq_false_2, andb_false_r by by intros []].
    rewrite bool_decide_eq_true_2, andb_true_r by done. destruct (allows lim (of_bytes (Opcode raw))) eqn:Ha; cbn; (split; [done|]); split; try done; cbn; intros j.
    all: destruct (decide (j = i)) as [->|Hne]; [rewrite lookup_insert_eq|rewrite lookup_insert_ne by done].
    + rewrite elem_of_difference, elem_of_singleton. split; [naive_solver|]. intros (x & [= <-] & ?). congruence.
    + rewrite elem_of_difference, elem_of_singleton, Hb. naive_solver.
    + rewrite elem_of_union, elem_of_singleton. naive_solver.
    + rewrite elem_of_union, elem_of_singleton, Hb. naive_solver.
Qed.

(** The browser's side, by the history. *)
Fixpoint browser_spec (lim : Limits) (raws : list bytes) (own : gmap Z string) : list effect :=
  match raws with
  | [] => []
  | raw :: raws =>
      match Parse raw with
      | None => browser_spec lim raws own
      | Some _ => (if permitted lim clientOpens own raw then [ToGuacd raw] else []) ++ browser_spec lim raws (track clientOpens raw own)
      end
  end.

(** What of guacd's the browser and the recording get, by the history. *)
Fixpoint guacd_spec (lim : Limits) (raws : list bytes) (own : gmap Z string) : list bytes :=
  match raws with
  | [] => []
  | raw :: raws =>
      if op_is raw "nop" then guacd_spec lim raws own
      else if permitted lim serverOpens own raw then
        raw :: (if op_is raw "disconnect" || op_is raw "error" then [] else guacd_spec lim raws (track serverOpens raw own))
      else guacd_spec lim raws (track serverOpens raw own)
  end.

Definition recorded (es : list effect) : list bytes := omap (λ e, match e with Recorded raw => Some raw | _ => None end) es.
Definition shown (es : list effect) : list bytes := omap (λ e, match e with ToBrowser raw => if op_is raw "nop" then None else Some raw | _ => None end) es.

Lemma browser_follows lim raws : ∀ f own, Follows lim f clientOpens own → browser_loop lim raws f = browser_spec lim raws own.
Proof.
  induction raws as [|raw raws IH]; intros f own HF; [done|]. cbn [browser_loop browser_spec]. unfold from_browser.
  destruct (Parse raw); [|by apply IH]. destruct (check_follows lim f clientOpens own raw HF) as [H1 H2].
  destruct (check lim raw f) as [[pass refused] f']. cbn [fst snd] in *. rewrite <-H1. f_equal. by apply IH.
Qed.

Lemma guacd_follows lim raws : ∀ f own, Follows lim f serverOpens own →
  recorded (guacd_loop lim raws f) = guacd_spec lim raws own ∧ shown (guacd_loop lim raws f) = guacd_spec lim raws own.
Proof.
  induction raws as [|raw raws IH]; intros f own HF; [done|]. cbn [guacd_loop guacd_spec]. unfold from_guacd. destruct (op_is raw "nop") eqn:En.
  - unfold recorded, shown in *. cbn [app omap list_omap]. rewrite En. by apply IH.
  - destruct (check_follows lim f serverOpens own raw HF) as [H1 H2]. destruct (check lim raw f) as [[pass refused] f']. cbn [fst snd] in *.
    rewrite <-H1. specialize (IH f' _ H2) as [IH1 IH2]. unfold recorded, shown in *.
    destruct pass; [destruct (op_is raw "disconnect" || op_is raw "error")|]; cbn [negb];
      (destruct refused as [i|]; rewrite ?omap_app; cbn [app omap list_omap]; rewrite ?En, ?IH1, ?IH2; done).
Qed.

Lemma Follows_new lim o : Follows lim (newStreamFilter o) o ∅.
Proof. split; [done|]. intros i. cbn. rewrite lookup_empty. set_solver. Qed.

Lemma spec_allows lim raws : ∀ own,
  (∀ raw, ToGuacd raw ∈ browser_spec lim raws own → allows lim (of_bytes (Opcode raw)) = true) ∧
  (∀ raw, raw ∈ guacd_spec lim raws own → allows lim (of_bytes (Opcode raw)) = true).
Proof.
  assert (∀ o own raw, permitted lim o own raw = true → allows lim (of_bytes (Opcode raw)) = true) as Hp.
  { intros o own raw. unfold permitted. destruct (is_data _) eqn:Ed; [|by intros [? _]%andb_true_iff]. intros _.
    unfold is_data in Ed. apply orb_true_iff in Ed as [->%bool_decide_eq_true | ->%bool_decide_eq_true]; done. }
  induction raws as [|r raws IH]; intros own; (split; [|intros raw]); cbn [browser_spec guacd_spec]; try by intros ?%not_elem_of_nil.
  - intros raw. by intros ?%not_elem_of_nil.
  - intros raw. destruct (Parse r); [|by apply IH]. rewrite elem_of_app. intros [Hin|Hin]; [|exact (proj1 (IH _) raw Hin)].
    destruct (permitted _ _ _ _) eqn:E; [|by apply not_elem_of_nil in Hin]. apply list_elem_of_singleton in Hin as [= ->]. by eapply Hp.
  - destruct (op_is r "nop"); [by apply IH|]. destruct (permitted _ _ _ _) eqn:E; [|by apply IH].
    intros [->|Hin]%elem_of_cons; [by eapply Hp|]. destruct (_ || _); [by apply not_elem_of_nil in Hin|exact (proj2 (IH _) raw Hin)].
Qed.

(** C18. The clipboard and file policy holds for whole streams, not only for the
instructions that open them.  Whatever the two sides send, the bridge relays an
instruction exactly when the policy allows its opcode and, for the data and the
end of a stream, when the instruction that last opened that stream was allowed:
the filter, which remembers only the streams it refused, agrees at every
instruction with the full history of the streams.  So with the clipboard off no
clipboard instruction and no data of a clipboard stream passes in either
direction, and likewise for files; what the recording gets is what the browser
is shown, keepalives apart. *)
Theorem policy_holds_for_streams lim raws raws' :
  browser_loop lim raws (newStreamFilter clientOpens) = browser_spec lim raws ∅ ∧
  recorded (guacd_loop lim raws' (newStreamFilter serverOpens)) = guacd_spec lim raws' ∅ ∧
  shown (guacd_loop lim raws' (newStreamFilter serverOpens)) = guacd_spec lim raws' ∅ ∧
  (∀ raw, ToGuacd raw ∈ browser_loop lim raws (newStreamFilter clientOpens) → allows lim (of_bytes (Opcode raw)) = true) ∧
  (∀ raw, raw ∈ shown (guacd_loop lim raws' (newStreamFilter serverOpens)) → allows lim (of_bytes (Opcode raw)) = true).
Proof.
  pose proof (browser_follows lim raws _ _ (Follows_new lim clientOpens)) as H1.
  destruct (guacd_follows lim raws' _ _ (Follows_new lim serverOpens)) as [H2 H3].
  split_and!; [done..| |].
  - intros raw. rewrite H1. by apply spec_allows.
  - intros raw. rewrite H3. by apply spec_allows.
Qed.

(** * Text that is not UTF-8 *)

(** The size the first byte of a character announces. *)
Definition lead_size (b : bytes) : nat :=
  match b with
  | [] => 0
  | a :: _ =>
      let n := byte_N a in
      if (n <? 128)%N then 1 else if (192 <=? n)%N && (n <=? 223)%N then 2 else if (224 <=? n)%N && (n <=? 239)%N then 3
      else if (240 <=? n)%N && (n <=? 247)%N then 4 else 1
  end%nat.

(** The opcodes of the instructions in a stream, for a reader that counts
characters by [size]. *)
Fixpoint opcodes (size : bytes → nat) (fuel : nat) (op : option bytes) (b : bytes) : list bytes :=
  match fuel with
  | O => []
  | S fuel =>
      match cut DOT b with
      | None => []
      | Some (len, b) =>
          match read_length len with
          | None => []
          | Some n =>
              match take_chars size (Z.to_nat n) b with
              | Some (v, c :: b) =>
                  let op := default v op in
                  if Ascii.eqb c COMMA then opcodes size fuel (Some op) b
                  else if Ascii.eqb c SEMI then op :: opcodes size fuel None b else []
              | _ => []
              end
          end
      end
  end.

(** On valid text the first byte tells the truth. *)
Lemma lead_size_valid b : Utf8.Valid b = true → lead_size b = rune_size b.
Proof.
  destruct b as [|a b]; [done|]. unfold Utf8.Valid. rewrite Utf8.chunks_step by done. cbn [forallb]. intros [Hh _]%andb_true_iff.
  unfold lead_size, rune_size. revert Hh. unfold Utf8.decode. set (n := byte_N a). cbn [fst snd].
  destruct (n <? 128)%N eqn:E1; [done|]. destruct ((194 <=? n) && (n <=? 223))%N eqn:E2.
  { replace ((192 <=? n) && (n <=? 223))%N with true by lia. destruct b as [|a1 b]; [done|]. cbv zeta. by destruct (Utf8.cont _). }
  destruct ((224 <=? n) && (n <=? 239))%N eqn:E3.
  { replace ((192 <=? n) && (n <=? 223))%N with false by lia. destruct b as [|a1 [|a2 b]]; [done..|]. cbv zeta. by destruct (Utf8.second_ok _ _ && _). }
  destruct ((240 <=? n) && (n <=? 244))%N eqn:E4; [|done].
  replace ((192 <=? n) && (n <=? 223))%N with false by lia. replace ((240 <=? n) && (n <=? 247))%N with true by lia.
  destruct b as [|a1 [|a2 [|a3 b]]]; [done..|]. cbv zeta. by destruct (Utf8.second_ok _ _ && _ && _).
Qed.

(** A message that is one instruction to the bridge can be two to a reader that
takes the size of a character from its first byte.  The bridge counts a byte
that starts no character as one; such a message, of text that is not UTF-8, is
relayed as it came although the clipboard is off, and that reader finds a
clipboard instruction in it; of valid text the two count alike. *)
Theorem smuggled_instruction : ∃ raw,
  let lim := {| AllowClipboard := false; AllowFileTransfer := false |} in
  browser_loop lim [raw] (newStreamFilter clientOpens) = [ToGuacd raw] ∧
  opcodes rune_size (length raw) None raw = [to_bytes "size"] ∧
  opcodes lead_size (length raw) None raw = [to_bytes "size"; to_bytes "clipboard"] ∧
  (∀ b, Utf8.Valid b = true → lead_size b = rune_size b).
Proof.
  exists (to_bytes "4.size,8." ++ [byte_of 240] ++ to_bytes "aaa" ++ [byte_of 195] ++ to_bytes "abc,31.;9.clipboard,1.0,10.text/plain;,1.x;").
  split; [by vm_compute|]. split; [by vm_compute|]. split; [by vm_compute|]. exact lead_size_valid.
Qed.
