(* ===== verification/UserAdmin.v ===== *)
(** Administering accounts: src/internal/user/adminapi/handlers.go and
src/internal/idp/lifecycle.go, over the accounts of Users.v, the sign-ins of
Sessions.v and the authenticators of Totp.v.

What the handlers ask of the gateway is the interface gateway.Revoker, here the
class [Revoker]: what a client may rely on, which the registry of live sessions
discharges below ([registry_revoker]).  A request runs as its guard, the role
check of the middleware, and its handler; a password's hash and a generated
password are arguments of the request. *)
From S2P Require Import Prelude GoText Textsafe Sessions Totp Users Registry.
Local Open Scope Z_scope.

(** * The gateway's promise *)

(** [running u r]: the live sessions of [u] whose bridge has not been told to end. *)
Class Revoker (R : Type) := {
  reached : R → Prop;
  running : string → R → gset string;
  UserRevoked : string → R → nat * R;
  UserRevoked_reached u r : reached r → reached (UserRevoked u r).2;
  UserRevoked_ends u r : reached r → running u (UserRevoked u r).2 = ∅;
  UserRevoked_others u u' r : reached r → u' ≠ u → running u' (UserRevoked u r).2 = running u' r;
}.

(** * The handlers *)

Record createRequest := {
  crGroupIDs : list string;
  crUsername : string;
  crDisplayName : string;
  crEmail : string;
  crRoles : list string;
  crPassword : string;
  crMustReset : option bool;
  crPasswordLess : bool;
}.

(** A status left out, one that is not known, or one that is. *)
Inductive StatusIn := Unchanged | Unknown | To (s : Status).

Record updateRequest := { urDisplayName : string; urEmail : option string; urStatus : StatusIn }.

Record passwordRequest := { prPassword : string; prGenerate : bool; prMustReset : option bool }.

Definition answer : Type := Z * string.
Definition OK : answer := (200, "").

Definition fail (e : Users.Error) : answer :=
  match e with
  | ErrNotFound => (404, "not_found")
  | ErrDuplicate => (409, "conflict")
  | ErrLastAdmin => (409, "last_admin")
  | ErrUnknownGroup => (422, "invalid_group")
  | ErrInvalidRole | ErrUsernameShape | ErrInvalidInput | ErrWeakPassword => (400, "bad_request")
  | ErrDB => (500, "internal")
  end.

Definition bad : answer := (400, "bad_request").
Definition internal : answer := (500, "internal").

Definition sameRoles (a b : list string) : bool := bool_decide ((list_to_set a : gset string) = list_to_set b).

Definition privileged (roles : list string) : list string :=
  List.filter (λ r, bool_decide (r = RoleAdmin) || bool_decide (r = RoleAuditor)) roles.

Section admin.
Context {R : Type} `{RV : Revoker R}.

(** The tables, and the gateway, if there is one.  [sdown] names the accounts
for whom the database fails the write that signs them out, as it is now. *)
Record world := {
  udb : Users.DB;
  sdb : gmap string Sessions.row;
  tdb : Totp.DB;
  gw : option R;
  sdown : string → bool;
}.

Definition set_udb (d : Users.DB) (w : world) : world := {| udb := d; sdb := sdb w; tdb := tdb w; gw := gw w; sdown := sdown w |}.

(** RevokeAllForUser, or [false] and nothing written. *)
Definition signOut (now : time) (id : string) (w : world) : bool * world :=
  if sdown w id then (false, w)
  else (true, {| udb := udb w; sdb := (RevokeAllForUser now id (sdb w)).1; tdb := tdb w; gw := gw w; sdown := sdown w |}).

Definition endLive (id : string) (w : world) : world := {|
  udb := udb w; sdb := sdb w; tdb := tdb w; gw := (λ r, (UserRevoked id r).2) <$> gw w; sdown := sdown w |}.

Definition new_user (q : createRequest) (hash : string) : User := {|
  ID := ""; Username := Strings.TrimSpace (crUsername q); Email := crEmail q; DisplayName := Strings.TrimSpace (crDisplayName q);
  Status_ := StatusActive; Roles := crRoles q; IdPID := ""; ExternalID := ""; FailedLogins := 0; LockedUntil := None; CreatedAt := 0;
  UpdatedAt := 0; LastLoginAt := None; MustResetOnLogin := default true (crMustReset q); DirectoryRemovedAt := None;
  SCIMExternalID := ""; SCIMDeletedAt := None; PasswordHash := hash |}.

(** [generated] is what GeneratePassword returned, [hash] is HashPassword, [id]
the id the repository draws. *)
Definition create (id : string) (now : time) (generated : result Users.Error string) (hash : string → result Users.Error string)
    (q : createRequest) (w : world) : answer * world :=
  if bool_decide (crRoles q = []) then (bad, w)
  else if crPasswordLess q then (bad, w)
  else if negb (is_ok (Textsafe.Name (Strings.TrimSpace (crDisplayName q)))) then (bad, w)
  else
    match (if bool_decide (crPassword q = "") then match generated with Ok pw => Ok pw | Err _ => Err internal end
           else match CheckPasswordPolicy (crPassword q) with Ok _ => Ok (crPassword q) | Err _ => Err bad end) with
    | Err a => (a, w)
    | Ok initial =>
        match hash initial with
        | Err _ => (internal, w)
        | Ok h =>
            let '(r, d) := CreateInGroups id now (new_user q h) (crGroupIDs q) (udb w) in
            (match r with Ok _ => (201, "") | Err e => fail e end, set_udb d w)
        end
    end.

(** ProviderHolds, [None] when the handler has none. *)
Definition held_back (holds : option (string → result unit bool)) (existing : User) : result answer unit :=
  match holds with
  | None => Ok tt
  | Some f =>
      if bool_decide (is_Some (DirectoryRemovedAt existing)) && negb (bool_decide (IdPID existing = "")) then
        match f (IdPID existing) with
        | Err _ => Err internal
        | Ok b => refuse_if b (409, "left_provider")
        end
      else Ok tt
  end.

Definition update (actor : string) (now : time) (holds : option (string → result unit bool)) (id : string) (q : updateRequest) (w : world)
    : answer * world :=
  match GetByID id (udb w) with
  | Err e => (fail e, w)
  | Ok existing =>
      let name := if bool_decide (urDisplayName q = "") then DisplayName existing else urDisplayName q in
      if negb (bool_decide (urDisplayName q = "")) && negb (is_ok (Textsafe.Name (urDisplayName q))) then (bad, w)
      else
        let email := default (Email existing) (urEmail q) in
        let status := match urStatus q with Unchanged => Some (Status_ existing) | Unknown => None | To s => Some s end in
        if negb (bool_decide (status = Some StatusActive)) && bool_decide (actor = id) then ((409, "self"), w)
        else
          match (if bool_decide (status = Some (Status_ existing)) then Ok tt else held_back holds existing) with
          | Err a => (a, w)
          | Ok _ =>
              match status with
              | None => (fail ErrInvalidInput, w)
              | Some st =>
                  let '(r, d) := Users.Update now id name email st (udb w) in
                  match r with
                  | Err e => (fail e, set_udb d w)
                  | Ok _ =>
                      let w := set_udb d w in
                      let w := if negb (bool_decide (st = StatusActive)) && bool_decide (Status_ existing = StatusActive) then (signOut now id w).2 else w in
                      let w := if bool_decide (st = StatusDisabled) || bool_decide (st = StatusLocked) then endLive id w else w in
                      (OK, w)
                  end
              end
          end
  end.

Definition setRoles (now : time) (id : string) (roles : list string) (w : world) : answer * world :=
  if bool_decide (roles = []) then (bad, w)
  else
    match GetByID id (udb w) with
    | Err e => (fail e, w)
    | Ok before =>
        let '(r, d) := Users.SetRoles now id roles (udb w) in
        match r with
        | Err e => (fail e, set_udb d w)
        | Ok _ => let w := set_udb d w in (OK, if sameRoles (Roles before) roles then w else endLive id w)
        end
    end.

Definition setPassword (now : time) (generated : result Users.Error string) (hash : string → result Users.Error string) (id : string)
    (q : passwordRequest) (w : world) : answer * world :=
  match (if prGenerate q then generated else Ok (prPassword q)) with
  | Err _ => (internal, w)
  | Ok pw =>
      match CheckPasswordPolicy pw with
      | Err _ => (bad, w)
      | Ok _ =>
          match hash pw with
          | Err _ => (internal, w)
          | Ok h =>
              let '(r, d) := SetPasswordHash now id h (default true (prMustReset q)) (udb w) in
              match r with
              | Err e => (fail e, set_udb d w)
              | Ok _ => (OK, endLive id (signOut now id (set_udb d w)).2)
              end
          end
      end
  end.

Definition revokeSessions (now : time) (id : string) (w : world) : answer * world :=
  match GetByID id (udb w) with
  | Err e => (fail e, w)
  | Ok _ => let '(ok, w) := signOut now id w in if ok then (OK, endLive id w) else (internal, w)
  end.

Definition resetMFA (now : time) (id : string) (w : world) : answer * world :=
  match GetByID id (udb w) with
  | Err e => (fail e, w)
  | Ok _ =>
      let '(_, t, s) := Totp.ResetMFA (sdown w id) now id (tdb w) (sdb w) in
      (OK, endLive id {| udb := udb w; sdb := s; tdb := t; gw := gw w; sdown := sdown w |})
  end.

(** What goes with a deleted account: auth_sessions, mfa_totp and
mfa_recovery_codes reference it ON DELETE CASCADE. *)
Definition cascade (id : string) (w : world) : world := {|
  udb := udb w; sdb := filter (λ kv, user_id kv.2 ≠ id) (sdb w); tdb := Totp.Reset id (tdb w); gw := gw w; sdown := sdown w |}.

Definition del (actor : string) (now : time) (id : string) (w : world) : answer * world :=
  if bool_decide (actor = id) then ((409, "self"), w)
  else
    match GetByID id (udb w) with
    | Err e => (fail e, w)
    | Ok _ =>
        let w := endLive id (signOut now id w).2 in
        let '(r, d) := Users.Delete id (udb w) in
        match r with Ok _ => ((204, ""), cascade id (set_udb d w)) | Err e => (fail e, set_udb d w) end
    end.

(** * What a provider says of a person *)

Inductive LeaveErr := IdpLastAdmin.

(** Whether the account was disabled, and how many live sessions that ended. *)
Definition Leave (u : User) (at_ : time) (w : world) : result LeaveErr (bool * nat) * world :=
  if negb (bool_decide (Status_ u = StatusActive)) then (Ok (false, 0%nat), w)
  else if HasRole u RoleAdmin && (CountAdmins (udb w) <=? 1)%nat then (Err IdpLastAdmin, w)
  else
    let '(ok, d) := DisableRemoved at_ (ID u) (udb w) in
    if ok then
      (Ok (true, match gw w with Some r => (UserRevoked (ID u) r).1 | None => 0%nat end), endLive (ID u) (signOut at_ (ID u) (set_udb d w)).2)
    else (Ok (false, 0%nat), set_udb d w).

Definition Return (u : User) (now : time) (w : world) : bool * world :=
  if negb (bool_decide (Status_ u = StatusDisabled)) || negb (bool_decide (is_Some (DirectoryRemovedAt u))) then (false, w)
  else let '(ok, d) := EnableReturned now (ID u) (udb w) in (ok, set_udb d w).

(** * Requests *)

Inductive request :=
| RCreate (id : string) (now : time) (generated : result Users.Error string) (hash : string → result Users.Error string) (q : createRequest)
| RUpdate (now : time) (holds : option (string → result unit bool)) (id : string) (q : updateRequest)
| RSetRoles (now : time) (id : string) (roles : list string)
| RSetPassword (now : time) (generated : result Users.Error string) (hash : string → result Users.Error string) (id : string) (q : passwordRequest)
| RRevokeSessions (now : time) (id : string)
| RResetMFA (now : time) (id : string)
| RDelete (now : time) (id : string).

(** The handler a route of [AdminHandler.Register] runs for [actor]. *)
Definition handle (actor : string) (r : request) (w : world) : answer * world :=
  match r with
  | RCreate id now g h q => create id now g h q w
  | RUpdate now holds id q => update actor now holds id q w
  | RSetRoles now id roles => setRoles now id roles w
  | RSetPassword now g h id q => setPassword now g h id q w
  | RRevokeSessions now id => revokeSessions now id w
  | RResetMFA now id => resetMFA now id w
  | RDelete now id => del actor now id w
  end.

(** The account whose access a request takes away: one an update moves from
active to disabled or locked, and the account of a new password, a sign-out
everywhere, an authenticator removed or a deletion. *)
Definition withdraws (r : request) (w : world) : option string :=
  match r with
  | RUpdate _ _ id q =>
      match urStatus q, users (udb w) !! id with
      | To StatusActive, _ => None
      | To _, Some u => if bool_decide (Status_ u = StatusActive) then Some id else None
      | _, _ => None
      end
  | RSetPassword _ _ _ id _ | RRevokeSessions _ id | RResetMFA _ id | RDelete _ id => Some id
  | _ => None
  end.

(** RequireRole(admin), with the account as it is now. *)
Definition admitted (actor : string) (w : world) : bool :=
  match users (udb w) !! actor with Some u => active_admin u | None => false end.

Inductive event :=
| EAdmin (actor : string) (r : request)
| ELeave (id : string) (at_ : time)
| EReturn (id : string) (now : time)
| ELogin (o : Users.op)
| EDatabase (down : string → bool).

(** What signing in and provisioning write: neither a status nor a role. *)
Definition sign_in (o : Users.op) : bool :=
  match o with
  | OLoginFailure _ _ _ _ | OLoginSuccess _ _ | OLinkExternal _ _ _ _ | OProvision _ _ _ _ | OSetSCIM _ _ _ _ | ORename _ _ _
  | OSetPasswordHash _ _ _ _ | OCreate _ _ _ _ => true
  | _ => false
  end.

Definition step (e : event) (w : world) : world :=
  match e with
  | EAdmin actor r => if admitted actor w then (handle actor r w).2 else w
  | ELeave id at_ => match GetByID id (udb w) with Ok u => (Leave u at_ w).2 | Err _ => w end
  | EReturn id now => match GetByID id (udb w) with Ok u => (Return u now w).2 | Err _ => w end
  | ELogin o => if sign_in o then set_udb (Users.exec1 o (udb w)) w else w
  | EDatabase down => {| udb := udb w; sdb := sdb w; tdb := tdb w; gw := gw w; sdown := down |}
  end.

Definition run (es : list event) (w : world) : world := foldl (λ w e, step e w) w es.

(** * An administrator remains *)

Lemma admin_stays d d' : (∀ id u, users d !! id = Some u → active_admin u = true → ∃ u', users d' !! id = Some u' ∧ active_admin u' = true) →
  (0 < CountAdmins d)%nat → (0 < CountAdmins d')%nat.
Proof. rewrite !CountAdmins_pos. intros H (id & u & Hu & Ha). destruct (H id u Hu Ha) as (u' & ? & ?). eauto. Qed.

(** Writing a row that stays as good an administrator as it was. *)
Lemma put_stays d id u v : wf d → users d !! id = Some u → ID v = id → (active_admin u = true → active_admin v = true) →
  (0 < CountAdmins d)%nat → (0 < CountAdmins (put v d))%nat.
Proof.
  intros Hwf Hu Hid Hv. apply admin_stays. intros j w Hw Ha. cbn. rewrite Hid. destruct (decide (j = id)) as [->|Hne].
  - exists v. rewrite lookup_insert_eq. split; [done|]. apply Hv. congruence.
  - exists w. by rewrite lookup_insert_ne.
Qed.

(** Writing a row while somebody else is an active administrator. *)
Lemma put_other d id v j w : users d !! j = Some w → active_admin w = true → j ≠ id → ID v = id → (0 < CountAdmins (put v d))%nat.
Proof. intros Hw Ha Hne Hid. apply CountAdmins_pos. exists j, w. cbn. rewrite Hid, lookup_insert_ne by done. done. Qed.

Lemma update_stays d id f : wf d → (∀ u, ID (f u) = ID u ∧ active_admin (f u) = active_admin u) →
  (0 < CountAdmins d)%nat → (0 < CountAdmins (Users.update id f d).2)%nat.
Proof.
  intros Hwf Hf. unfold Users.update. destruct (users d !! id) as [u|] eqn:Hu; [|done]. destruct (clashes _ _); [done|]. cbn [snd].
  destruct (wf_rows _ Hwf id u Hu) as [Hid _]. destruct (Hf u) as [H1 H2]. apply (put_stays d id u); [done..|congruence|]. by rewrite H2.
Qed.

Lemma sign_in_stays o d : sign_in o = true → wf d → (0 < CountAdmins d)%nat → (0 < CountAdmins (Users.exec1 o d))%nat.
Proof.
  intros Hs Hwf H. assert (∀ id u v, users d !! id = Some u → ID v = ID u → active_admin v = active_admin u → (0 < CountAdmins (put v d))%nat) as Hp.
  { intros id u v Hu E Ea. destruct (wf_rows _ Hwf id u Hu) as [Hid _]. apply (put_stays d id u); [done..|congruence| |done]. by rewrite Ea. }
  destruct o; try done; cbn [Users.exec1].
  - unfold CreateInGroups. repeat (case_match; [done|]). cbv zeta. destruct (existsb _ _); [done|]. destruct (_ || _) eqn:Hn; [done|].
    apply orb_false_iff in Hn as [_ Hn]. apply bool_decide_eq_false in Hn.
    revert H. apply admin_stays. intros j w Hw Ha. exists w. cbn. rewrite lookup_insert_ne; [done|]. intros <-. apply Hn. by eexists.
  - unfold SetPasswordHash. destruct (users d !! id) as [u|] eqn:Hu; [|done]. by eapply Hp.
  - unfold RecordLoginFailure. destruct (users d !! id) as [u|] eqn:Hu; [|done]. repeat case_match; cbn [snd]; by eapply Hp.
  - unfold RecordLoginSuccess. destruct (users d !! id) as [u|] eqn:Hu; [|done]. by eapply Hp.
  - unfold LinkExternal. destruct (users d !! id) as [u|] eqn:Hu; [|done]. case_match; [|done].
    pose proof (update_stays d id (with_link idpID externalID (SCIMExternalID u) now) Hwf ltac:(done) H) as Hx. repeat case_match; done.
  - unfold Provision. destruct (users d !! id) as [u|] eqn:Hu; [|done]. case_match; [|done].
    pose proof (update_stays d id (with_link idpID (ExternalID u) scimExternalID now) Hwf ltac:(done) H) as Hx. repeat case_match; done.
  - unfold SetSCIM. destruct (users d !! id) as [u|] eqn:Hu; [|done]. by eapply Hp.
  - unfold Rename. case_match; [done|]. by apply update_stays.
Qed.

(** Counting one administrator out leaves the others. *)
Lemma others_count id d : (CountAdmins d ≤ S (other_admins id d))%nat.
Proof.
  unfold CountAdmins, other_admins. pose proof (NoDup_fst_map_to_list (users d)) as Hd. induction (map_to_list (users d)) as [|[j u] l IH]; [cbn; lia|].
  rewrite fmap_cons in Hd. apply NoDup_cons in Hd as [Hn Hd]. specialize (IH Hd). cbn [List.filter fst snd].
  destruct (active_admin u) eqn:Ha; rewrite ?andb_true_r, ?andb_false_r; [|done]. case_bool_decide as Hj; cbn [negb length]; [|lia]. subst j.
  enough (List.filter (λ kv, negb (bool_decide (kv.1 = id)) && active_admin kv.2) l = List.filter (λ kv, active_admin kv.2) l) as -> by lia.
  clear -Hn. induction l as [|[k v] l IH]; [done|]. rewrite fmap_cons in Hn. apply not_elem_of_cons in Hn as [Hk Hn]. cbn [List.filter fst snd].
  rewrite bool_decide_eq_false_2 by (cbn in Hk; congruence). cbn [negb andb]. by rewrite (IH Hn).
Qed.

Lemma handle_admin actor r w : admitted actor w = true → wf (udb w) → (0 < CountAdmins (udb w))%nat →
  wf (udb (handle actor r w).2) ∧ (0 < CountAdmins (udb (handle actor r w).2))%nat.
Proof.
  intros Had Hwf H. unfold admitted in Had. destruct (users (udb w) !! actor) as [ua|] eqn:Hactor; [|done].
  destruct r as [id now g h q|now holds id q|now id roles|now g h id q|now id|now id|now id]; cbn [handle].
  - assert (∀ u, wf (CreateInGroups id now u (crGroupIDs q) (udb w)).2 ∧ (0 < CountAdmins (CreateInGroups id now u (crGroupIDs q) (udb w)).2)%nat) as Hc.
    { intros u. split; [by apply CreateInGroups_wf|]. by apply (sign_in_stays (OCreate id now u (crGroupIDs q))). }
    unfold create. destruct (bool_decide (crRoles q = [])); [done|]. destruct (crPasswordLess q); [done|]. destruct (negb _); [done|].
    destruct (if bool_decide (crPassword q = "") then _ else _) as [initial|]; [|done]. destruct (h initial) as [hash|]; [|done].
    specialize (Hc (new_user q hash)). by destruct (CreateInGroups _ _ _ _ _).
  - unfold update. destruct (GetByID id (udb w)) as [ex|] eqn:Hg; [|done]. assert (users (udb w) !! id = Some ex) as Hex.
    { unfold GetByID in Hg. destruct (users (udb w) !! id); congruence. }
    case_match; [done|]. set (status := match urStatus q with Unchanged => _ | Unknown => _ | To s => _ end).
    destruct (negb (bool_decide (status = Some StatusActive)) && bool_decide (actor = id)) eqn:Eself; [done|].
    destruct (if bool_decide (status = Some (Status_ ex)) then _ else _); [|done]. destruct status as [st|]; [|done].
    set (name := if bool_decide (urDisplayName q = "") then _ else _). set (email := default _ _).
    assert (wf (Users.Update now id name email st (udb w)).2 ∧ (0 < CountAdmins (Users.Update now id name email st (udb w)).2)%nat) as Hu.
    { split; [by apply (Users.exec1_wf (OUpdate now id name email st))|]. unfold Users.Update. case_match; [done|]. unfold Users.update. rewrite Hex.
      destruct (clashes _ _); [done|]. cbn [snd]. destruct (wf_rows _ Hwf id ex Hex) as [Hid _]. destruct (decide (st = StatusActive)) as [->|Hst].
      - apply (put_stays (udb w) id ex); [done..| |done]. unfold active_admin. cbn. by intros [_ ?]%andb_true_iff.
      - apply (put_other (udb w) id _ actor ua); [done..| |done]. intros ->. rewrite bool_decide_eq_false_2 in Eself by congruence.
        by rewrite bool_decide_eq_true_2 in Eself. }
    destruct (Users.Update _ _ _ _ _ _) as [[|] d]; cbn [snd] in Hu; unfold signOut; repeat case_match; done.
  - unfold setRoles. case_match; [done|]. case_match; [|done].
    assert (wf (Users.SetRoles now id roles (udb w)).2 ∧ (0 < CountAdmins (Users.SetRoles now id roles (udb w)).2)%nat) as Hr
      by (split; [by apply SetRoles_wf|by apply SetRoles_admin]).
    destruct (Users.SetRoles _ _ _ _) as [[|] d]; cbn [snd] in Hr; repeat case_match; done.
  - assert (∀ hh mm, wf (SetPasswordHash now id hh mm (udb w)).2 ∧ (0 < CountAdmins (SetPasswordHash now id hh mm (udb w)).2)%nat) as Hp.
    { intros hh mm. split; [by apply (Users.exec1_wf (OSetPasswordHash now id hh mm))|]. by apply (sign_in_stays (OSetPasswordHash now id hh mm)). }
    unfold setPassword. destruct (if prGenerate q then _ else _) as [pw|]; [|done]. destruct (CheckPasswordPolicy pw); [|done].
    destruct (h pw) as [hash|]; [|done]. specialize (Hp hash (default true (prMustReset q))).
    destruct (SetPasswordHash _ _ _ _ _) as [[|] d]; [|done]. unfold signOut. by case_match.
  - unfold revokeSessions, signOut. case_match; [|done]. by destruct (sdown w id).
  - unfold resetMFA. case_match; [|done]. by destruct (Totp.ResetMFA _ _ _ _ _) as [[? ?] ?].
  - unfold del. case_match; [done|]. case_match; [|done]. replace (udb (endLive id (signOut now id w).2)) with (udb w) by (unfold signOut; by destruct (sdown w id)).
    assert (wf (Users.Delete id (udb w)).2 ∧ (0 < CountAdmins (Users.Delete id (udb w)).2)%nat) as Hdl
      by (split; [by apply Delete_wf|by apply Delete_admin]).
    by destruct (Users.Delete _ _) as [[|] d].
Qed.

Lemma step_admin e w : wf (udb w) → (0 < CountAdmins (udb w))%nat → wf (udb (step e w)) ∧ (0 < CountAdmins (udb (step e w)))%nat.
Proof.
  intros Hwf H. destruct e as [actor r|id at_|id now|o|down]; cbn [step].
  - destruct (admitted actor w) eqn:Ha; [|done]. by apply handle_admin.
  - unfold GetByID. destruct (users (udb w) !! id) as [u|] eqn:Hu; [|done]. unfold Leave. case_match; [done|].
    destruct (HasRole u RoleAdmin && (CountAdmins (udb w) <=? 1)%nat) eqn:El; [done|].
    destruct (wf_rows _ Hwf id u Hu) as [Hid _]. rewrite Hid.
    pose proof (Users.exec1_wf (ODisableRemoved at_ id) (udb w) Hwf) as Hwf'. cbn [Users.exec1] in Hwf'.
    assert (0 < CountAdmins (DisableRemoved at_ id (udb w)).2)%nat as Hc.
    { unfold DisableRemoved. rewrite Hu. case_match; [|done]. cbn [snd]. assert (∃ j v, j ≠ id ∧ users (udb w) !! j = Some v ∧ active_admin v = true) as (j & v & Hj & Hv & Hva).
      - destruct (HasRole u RoleAdmin) eqn:Hr.
        + cbn [andb] in El. apply Nat.leb_gt in El. apply other_admins_pos. pose proof (others_count id (udb w)). lia.
        + apply CountAdmins_pos in H as (j & v & Hv & Hva). exists j, v. split_and!; [|done..]. intros ->. assert (v = u) as -> by congruence.
          unfold active_admin in Hva. rewrite Hr, andb_false_r in Hva. done.
      - by apply (put_other (udb w) id _ j v). }
    destruct (DisableRemoved at_ id (udb w)) as [[] d]; [|done]. unfold signOut. cbn [snd set_udb sdown]. by destruct (sdown w id).
  - unfold GetByID. destruct (users (udb w) !! id) as [u|] eqn:Hu; [|done]. unfold Return. case_match; [done|].
    destruct (wf_rows _ Hwf id u Hu) as [Hid _]. rewrite Hid.
    pose proof (Users.exec1_wf (OEnableReturned now id) (udb w) Hwf) as Hwf'. cbn [Users.exec1] in Hwf'.
    assert (0 < CountAdmins (EnableReturned now id (udb w)).2)%nat as Hc.
    { unfold EnableReturned. rewrite Hu. case_match; [|done]. cbn [snd]. apply (put_stays (udb w) id u); [done..| |done]. unfold active_admin. cbn. by intros [_ ?]%andb_true_iff. }
    by destruct (EnableReturned now id (udb w)) as [[] d].
  - destruct (sign_in o) eqn:Hs; [|done]. split; [by apply Users.exec1_wf|by apply sign_in_stays].
  - done.
Qed.

(** C19. Nobody is locked out of administration.  From any set of accounts in
order with an active administrator, an active administrator remains after every
sequence of requests to the account routes, each made by an account that is an
active administrator at that moment, of people leaving and coming back to their
identity provider, and of sign-ins: no request, its own author's included,
disables, locks, deletes or demotes the last one. *)
Theorem admin_remains es w : wf (udb w) → (0 < CountAdmins (udb w))%nat → (0 < CountAdmins (udb (run es w)))%nat.
Proof.
  intros Hwf H. assert (wf (udb (run es w)) ∧ (0 < CountAdmins (udb (run es w)))%nat) as [_ ?]; [|done].
  revert w Hwf H. induction es as [|e es IH]; intros w Hwf H; [done|]. cbn. destruct (step_admin e w Hwf H). by apply IH.
Qed.

(** * A withdrawn account *)

(** The sign-ins of [id] are over, unless the database fails the write that
ends them; its live sessions are told to end; the rest of both is as it was. *)
Definition shut_out (id : string) (w w' : world) : Prop :=
  sdown w' = sdown w ∧
  (sdown w id = false → ∀ i r, sdb w' !! i = Some r → user_id r = id → is_Some (revoked_at r)) ∧
  (∀ i r, user_id r ≠ id → sdb w' !! i = Some r ↔ sdb w !! i = Some r) ∧
  match gw w, gw w' with
  | None, None => True
  | Some r, Some r' => running id r' = ∅ ∧ ∀ u, u ≠ id → running u r' = running u r
  | _, _ => False
  end.

Lemma shut_out_both now id w w' : (∀ r, gw w = Some r → reached r) → sdb w' = sdb (signOut now id w).2 → sdown w' = sdown w →
  gw w' = (λ r, (UserRevoked id r).2) <$> gw w → shut_out id w w'.
Proof.
  intros Hg Hs Hd Hgw. unfold shut_out. rewrite Hs, Hgw. unfold signOut. split_and!; [done|..].
  - intros ->. cbn [snd sdb]. unfold RevokeAllForUser. intros i r. rewrite revoke_where_lookup. destruct (sdb w !! i) as [k|]; [|done]. cbn.
    case_bool_decide as Hk; cbn [andb]; [|intros [= <-]; done].
    destruct (revoked_at k) eqn:Er; cbn; intros [= <-] _; [by rewrite Er|by eexists].
  - intros i r Hne. destruct (sdown w id); [done|]. cbn [snd sdb]. unfold RevokeAllForUser. rewrite revoke_where_lookup.
    destruct (sdb w !! i) as [k|]; [|done]. cbn. case_bool_decide as Hk; cbn [andb]; [|done].
    split; intros [= <-]; [|done]. exfalso. apply Hne. by case_match.
  - destruct (gw w) as [r|]; cbn; [|done]. split; [by apply UserRevoked_ends, Hg|]. intros u Hu. by apply UserRevoked_others; [apply Hg|].
Qed.

Lemma signed_out_rest now id d w : let w' := endLive id (signOut now id (set_udb d w)).2 in
  udb w' = d ∧ gw w' = (λ r, (UserRevoked id r).2) <$> gw w ∧ sdown w' = sdown w.
Proof. unfold signOut, set_udb. cbn. by destruct (sdown w id). Qed.

(** A deletion leaves no sign-in of the account, whatever became of the sign-out. *)
Lemma cascade_none id w i r : sdb (cascade id w) !! i = Some r → user_id r ≠ id.
Proof. cbn. by intros [_ ?]%map_lookup_filter_Some. Qed.

Lemma shut_out_cascade id w w' d : shut_out id w w' → shut_out id w (cascade id (set_udb d w')).
Proof.
  intros (Hd & _ & H2 & H3). split_and!; [exact Hd| |intros i r Hne|exact H3].
  - intros _ i r Hi E. by destruct (cascade_none _ _ _ _ Hi).
  - rewrite <-(H2 i r Hne). cbn. rewrite map_lookup_filter_Some. naive_solver.
Qed.

Lemma signed_out now id d w : (∀ r, gw w = Some r → reached r) →
  let w' := endLive id (signOut now id (set_udb d w)).2 in shut_out id w w' ∧ (sdown w id = true → sdb w' = sdb w).
Proof.
  intros Hg. cbv zeta. split.
  - apply (shut_out_both now); [done|..]; unfold signOut, set_udb; cbn; by destruct (sdown w id).
  - unfold signOut, set_udb. cbn. by intros ->.
Qed.

Lemma held_back_refuses holds u a : held_back holds u = Err a → a.1 ≠ 200 ∧ a.1 ≠ 204.
Proof. unfold held_back. destruct holds as [f|]; [|done]. destruct (_ && _); [|done]. destruct (f _) as [[]|]; cbn; by intros [= <-]. Qed.

(** C20. What a success of the account routes says was withdrawn.  Whenever the
answer to a request that disables or locks an active account, sets its password,
signs it out, removes its authenticator or deletes it is a success, every live
session of the account has been told to end, on a gateway that keeps what
[Revoker] promises; and none of its sign-ins is valid any more, with one
exception: when the database fails the write that ends them, a status change, a
password set and an authenticator removed are answered as successes all the
same, and the sign-ins stand as they were; a sign-out is then refused with 500,
and a deletion leaves no sign-in of the account either way.  No other account
loses a sign-in or a live session by any of it. *)
Theorem withdrawn_everywhere actor r w id :
  (∀ g, gw w = Some g → reached g) → withdraws r w = Some id →
  (handle actor r w).1.1 = 200 ∨ (handle actor r w).1.1 = 204 →
  let w' := (handle actor r w).2 in
  shut_out id w w' ∧
  (sdown w id = true →
   match r with
   | RRevokeSessions _ _ => False
   | RDelete _ _ => ∀ i s, sdb w' !! i = Some s → user_id s ≠ id
   | _ => sdb w' = sdb w
   end).
Proof.
  intros Hg Hr Ha. destruct r as [?|now holds j q|?|now g h j q|now j|now j|now j]; cbn [withdraws handle] in *; try done.
  - revert Ha. unfold update, GetByID. destruct (users (udb w) !! j) as [u|] eqn:Hu; [|destruct (urStatus q) as [| |[]]; done].
    assert (∃ st, urStatus q = To st ∧ st ≠ StatusActive ∧ Status_ u = StatusActive ∧ j = id) as (st & -> & Hst & Hact & ->).
    { destruct (urStatus q) as [| |[]]; try done; case_bool_decide; try done; injection Hr as <-; eexists; done. }
    cbv zeta. destruct (negb _ && negb _); [by intros []|]. destruct (negb _ && bool_decide (actor = id)); [by intros []|].
    rewrite bool_decide_eq_false_2 by congruence. destruct (held_back holds u) as [|a] eqn:Eh; [|intros [E|E]; by destruct (held_back_refuses _ _ _ Eh)].
    destruct (Users.Update _ _ _ _ _ _) as [[|e] d]; [|intros [E|E]; by destruct e]. intros _.
    rewrite (bool_decide_eq_false_2 (st = StatusActive)), (bool_decide_eq_true_2 (Status_ u = _)) by done. cbn [negb andb].
    replace (bool_decide (st = StatusDisabled) || bool_decide (st = StatusLocked)) with true by by destruct st.
    by apply (signed_out now).
  - injection Hr as ->. revert Ha. unfold setPassword. destruct (if prGenerate q then _ else _) as [pw|]; [|by intros []].
    destruct (CheckPasswordPolicy pw); [|by intros []]. destruct (h pw) as [hash|]; [|by intros []].
    destruct (SetPasswordHash _ _ _ _ _) as [[|e] d]; [|intros [E|E]; by destruct e]. intros _. by apply (signed_out now).
  - injection Hr as ->. revert Ha. unfold revokeSessions. destruct (GetByID id (udb w)) as [|e]; [|intros [E|E]; by destruct e].
    destruct (signed_out now id (udb w) w Hg) as [Hs _]. revert Hs. destruct w as [ud sd td g dn]. unfold set_udb, signOut. cbn.
    destruct (dn id) eqn:Ed; [by intros _ []|]. intros Hs _. split; [exact Hs|congruence].
  - injection Hr as ->. revert Ha. unfold resetMFA. destruct (GetByID id (udb w)) as [|e]; [|intros [E|E]; by destruct e].
    intros _. destruct (Totp.ResetMFA _ _ _ _ _) as [[n t] s] eqn:Er. assert (s = sdb (signOut now id w).2) as ->.
    { revert Er. unfold Totp.ResetMFA, signOut. destruct (sdown w id); [by intros [= <- <- <-]|].
      destruct (RevokeAllForUser now id (sdb w)). by intros [= <- <- <-]. }
    cbn. split; [by apply (shut_out_both now)|]. unfold signOut. by intros ->.
  - injection Hr as ->. revert Ha. unfold del. case_bool_decide; [by intros []|]. destruct (GetByID id (udb w)) as [|e]; [|intros [E|E]; by destruct e].
    cbv zeta. destruct (Users.Delete _ _) as [[|e] d]; [|intros [E|E]; by destruct e]. intros _. split.
    + apply shut_out_cascade. apply (shut_out_both now); [done|..]; unfold signOut; by destruct (sdown w id).
    + intros _ i s. apply cascade_none.
Qed.

End admin.

(** * The registry keeps the promise *)

Definition still_running (u : string) (r : Registry) : gset string :=
  dom (filter (λ sl, Registry.UserID sl.2 = u ∧ contexts r !! ctx sl.2 = Some None) (live r)).

Lemma still_running_elem u r sid : sid ∈ still_running u r ↔
  ∃ l, live r !! sid = Some l ∧ Registry.UserID l = u ∧ contexts r !! ctx l = Some None.
Proof. unfold still_running. rewrite elem_of_dom. split; [intros [l [? ?]%map_lookup_filter_Some]|intros (l & ? & ?); exists l; apply map_lookup_filter_Some]; eauto. Qed.

(** connect's UserRevoked is the registry's TerminateUser. *)
#[export] Program Instance registry_revoker : Revoker Registry := {
  reached r := ∃ seen, Registry.Inv seen r;
  running := still_running;
  UserRevoked := TerminateUser;
}.
Next Obligation. intros u r [seen HI]. eexists. by apply Inv_where. Qed.
Next Obligation.
  intros u r [seen HI]. apply set_eq. intros sid. rewrite still_running_elem. split; [|by intros ?%not_elem_of_empty].
  intros (l & Hl & Hu & Hc). destruct (where_contexts seen r (λ l, bool_decide (Registry.UserID l = u)) ErrAdminTerminated HI ltac:(done)) as [H1 _].
  destruct (H1 sid l Hl) as [c Hc']; [by apply bool_decide_eq_true|]. unfold TerminateUser in Hc. congruence.
Qed.
Next Obligation.
  intros u u' r [seen HI] Hne. apply set_eq. intros sid. rewrite !still_running_elem.
  destruct (where_contexts seen r (λ l, bool_decide (Registry.UserID l = u)) ErrAdminTerminated HI ltac:(done)) as [_ H2]. split.
  - intros (l & Hl & Hu & Hc). unfold TerminateUser in Hl. cbn [terminateWhere snd live] in Hl. rewrite lookup_fmap in Hl.
    destruct (live r !! sid) as [k|] eqn:Hk; [|done]. cbn in Hl. injection Hl as Hl.
    assert (Registry.UserID k = u') as Hku by (rewrite <-Hu, <-Hl; by destruct (_ && _)).
    destruct (H2 sid k Hk) as [E1 E2]; [apply bool_decide_eq_false; congruence|]. exists k. split_and!; [done..|].
    unfold TerminateUser in Hc. rewrite <-E2. rewrite <-Hl in Hc. by destruct (_ && _) in Hc.
  - intros (l & Hl & Hu & Hc). destruct (H2 sid l Hl) as [E1 E2]; [apply bool_decide_eq_false; congruence|]. exists l.
    unfold TerminateUser. by rewrite E2.
Qed.

(** * Two administrators *)

Definition ex_account (name : string) : User := new_user {|
  crGroupIDs := []; crUsername := name; crDisplayName := name; crEmail := ""; crRoles := [RoleAdmin]; crPassword := ""; crMustReset := None;
  crPasswordLess := false |} "".

Definition ex_accounts : Users.DB :=
  exec [OCreate "a" 1 (ex_account "ada") []; OCreate "b" 2 (ex_account "bob") []] {| users := ∅; groups := ∅; group_members := ∅ |}.

Definition ex_sessions : list Registry.op := [OAdd 1 (ex_live "s1" "a"); OAdd 2 (ex_live "s2" "b")].

Definition ex_world : world (R := Registry) := {|
  udb := ex_accounts; sdb := ∅; tdb := {| mfa_totp := ∅; mfa_recovery_codes := [] |};
  gw := Some (Registry.run ex_sessions NewRegistry).2; sdown := λ _, false |}.

Definition disable (id : string) : request := RUpdate 5 None id {| urDisplayName := ""; urEmail := None; urStatus := To StatusDisabled |}.

Lemma ex_accounts_wf : wf ex_accounts.
Proof. apply exec_wf. split; cbn; intros *; by rewrite lookup_empty. Qed.

Lemma admin_remains_witness :
  let w := run [EAdmin "a" (disable "b"); EAdmin "b" (disable "a"); EAdmin "a" (disable "a"); ELeave "a" 9] ex_world in
  CountAdmins (udb ex_world) = 2%nat ∧ CountAdmins (udb w) = 1%nat ∧ (0 < CountAdmins (udb w))%nat.
Proof.
  split; [vm_compute; reflexivity|]. split; [vm_compute; reflexivity|].
  apply admin_remains; [apply ex_accounts_wf|vm_compute; lia].
Defined.

(** Bob's sign-in, which the database will not end. *)
Definition ex_signed_in : Sessions.row := {|
  Sessions.user_id := "b"; Sessions.token_hash := "h"; Sessions.ip := ""; Sessions.user_agent := ""; Sessions.mfa_verified := true;
  Sessions.created_at := 1; Sessions.expires_at := 100; Sessions.last_seen_at := 2; Sessions.revoked_at := None;
  Sessions.mfa_verified_at := None; Sessions.idp_id := None; Sessions.id_token_enc := None; Sessions.key_version := None |}.

Definition ex_failing : world (R := Registry) := {|
  udb := ex_accounts; sdb := {[ "k" := ex_signed_in ]}; tdb := tdb ex_world; gw := gw ex_world; sdown := λ u, bool_decide (u = "b") |}.

Lemma ex_reached : ∀ g, gw ex_world = Some g → reached g.
Proof. intros g [= <-]. eexists. apply (proj1 (run_inv ex_sessions [] _ Inv_new NoDup_nil_2 ltac:(by repeat constructor))). Qed.

Lemma withdrawn_everywhere_witness :
  ((handle "a" (disable "b") ex_world).1 = OK ∧ shut_out "b" ex_world (handle "a" (disable "b") ex_world).2) ∧
  sdb (handle "a" (disable "b") ex_failing).2 = sdb ex_failing.
Proof.
  split; [split; [vm_compute; reflexivity|]|].
  - apply (withdrawn_everywhere "a" (disable "b") ex_world "b" ex_reached); [vm_compute; reflexivity|left; vm_compute; reflexivity].
  - apply (withdrawn_everywhere "a" (disable "b") ex_failing "b" ex_reached); [vm_compute; reflexivity|left; vm_compute; reflexivity|reflexivity].
Defined.

(** A disabled account can stay signed in, and the administrator is told that
the change succeeded: the handler only logs that the sign-out failed.  The same
holds of a new password, and of an authenticator removed. *)
Theorem failed_sign_out_answered_ok :
  let w' := (handle "a" (disable "b") ex_failing).2 in
  (handle "a" (disable "b") ex_failing).1 = OK ∧
  Status_ <$> users (udb w') !! "b" = Some StatusDisabled ∧ revoked_at <$> sdb w' !! "k" = Some None ∧
  (handle "a" (RResetMFA 5 "b") ex_failing).1 = OK ∧
  revoked_at <$> sdb (handle "a" (RResetMFA 5 "b") ex_failing).2 !! "k" = Some None.
Proof. vm_compute. split_and!; reflexivity. Qed.

(** Two administrators can still lock everybody out between them.  An update
that disables or locks an account asks only that it is not the caller's own, and
the role check ran before: with two administrators, both admitted, each disables
the other, both requests succeed, and no active administrator is left. *)
Theorem concurrent_lockout :
  let w1 := (handle "a" (disable "b") ex_world).2 in
  let w2 := (handle "b" (disable "a") w1).2 in
  admitted "a" ex_world = true ∧ admitted "b" ex_world = true ∧
  (handle "a" (disable "b") ex_world).1 = OK ∧ (handle "b" (disable "a") w1).1 = OK ∧ CountAdmins (udb w2) = 0%nat.
Proof. vm_compute. split_and!; reflexivity. Qed.
