(* ===== verification/Directory.v ===== *)
(** Identity providers: the accounts they assert, src/internal/idp/idp.go from
Identity on, over the world of UserAdmin.v; the membership operations are those
of src/internal/group/group.go.

The distinguished names of the LDAP library, their parser and their comparison,
and the gateway's re-check are arguments.  One clock reading serves a call. *)
From S2P Require Import Prelude GoText Sessions Users Registry UserAdmin.
Local Open Scope Z_scope.

(** * Providers and what they assert *)

(** GroupMapping with its keys in order. *)
Definition GroupMapping : Type := list (string * string).

(** What of a configuration decides about accounts; how a provider is reached is
not kept. *)
Record Config := {
  cOIDC : option bool;  (* ZanskarMFA, of a provider that is OIDC *)
  DefaultRoles : list string;
  Mapping : GroupMapping;
  AutoProvision : bool;
  SyncUsers : bool;
  SCIM : bool;
}.

Record Opened := { pID : string; Enabled : bool; Conf : Config }.

Record Identity := {
  iExternalID : string;
  iUsername : string;
  iDisplayName : string;
  iEmail : string;
  Groups : list string;
  GroupDNs : list string;
}.

(** ProviderOwnsMFA. *)
Definition ProviderOwnsMFA (c : Config) : bool := match cOIDC c with Some z => negb z | None => false end.

(** SecondFactor: [enrolled] says whether the account has an authenticator,
[open_] reads a provider. *)
Definition SecondFactor (enrolled : string → result unit bool) (open_ : string → result unit (option Opened)) (userID : string) (d : DB)
    : result unit bool :=
  let? ok := enrolled userID in
  if ok then Ok true
  else match GetByID userID d with
       | Err _ => Err tt
       | Ok u =>
           if bool_decide (IdPID u = "") || negb (bool_decide (PasswordHash u = "")) then Ok false
           else let? o := open_ (IdPID u) in
                Ok (match o with None => false | Some op => Enabled op && ProviderOwnsMFA (Conf op) end)
       end.

(** Holds. *)
Definition Holds (o : option Opened) : bool :=
  match o with None => false | Some op => Enabled op && (SyncUsers (Conf op) || SCIM (Conf op)) end.

Inductive Error :=
| ErrInvalidInput | ErrNotProvisioned | ErrAccountConflict | errLocked | FromUsers (e : Users.Error).

#[export] Instance DirError_eq_dec : EqDecision Error.
Proof. solve_decision. Defined.

Definition firstNonEmpty (a b : string) : string := if bool_decide (a = "") then b else a.

(** * Membership *)

Inductive GroupErr := GErrNotFound | GErrSynced | GErrInvalidInput.

Definition with_members (ms : gset (string * string)) (d : DB) : DB := {| users := users d; groups := groups d; group_members := ms |}.

Definition AddMember (groupID userID : string) (d : DB) : result GroupErr unit * DB :=
  match groups d !! groupID with
  | None => (Err GErrNotFound, d)
  | Some idp =>
      if negb (bool_decide (idp = "")) then (Err GErrSynced, d)
      else if bool_decide ((groupID, userID) ∈ group_members d) then (Ok tt, d)
      else if bool_decide (is_Some (users d !! userID)) then (Ok tt, with_members ({[(groupID, userID)]} ∪ group_members d) d)
      else (Err GErrInvalidInput, d)
  end.

Definition RemoveMember (groupID userID : string) (d : DB) : result GroupErr unit * DB :=
  match groups d !! groupID with
  | None => (Err GErrNotFound, d)
  | Some idp =>
      if negb (bool_decide (idp = "")) then (Err GErrSynced, d)
      else (Ok tt, with_members (group_members d ∖ {[(groupID, userID)]}) d)
  end.

Definition GroupIDsForUser (userID : string) (d : DB) : gset string :=
  set_map fst (filter (λ gm, gm.2 = userID) (group_members d)).

(** * Provisioning *)

(** adopt's last lines: the account is linked. *)
Definition link (now : time) (p : Opened) (id : Identity) (u : User) (d : DB) : result Error User * DB :=
  match LinkExternal now (ID u) (pID p) (iExternalID id) d with
  | (Err ErrDuplicate, d) => (Err ErrAccountConflict, d)
  | (Err e, d) => (Err (FromUsers e), d)
  | (Ok _, d) => (Ok (with_link (pID p) (iExternalID id) (SCIMExternalID u) (UpdatedAt u) u), d)
  end.

Definition adopt (now : time) (p : Opened) (id : Identity) (d : DB) : result Error User * DB :=
  match GetByUsername (iUsername id) d with
  | Err e => (Err (FromUsers e), d)
  | Ok u =>
      if negb (bool_decide (PasswordHash u = "")) then (Err ErrAccountConflict, d)
      else if bool_decide (IdPID u = pID p) && bool_decide (ExternalID u = "") then
        if IsLocked u now then (Err errLocked, d) else link now p id u d
      else if bool_decide (IdPID u = pID p) then (Err ErrAccountConflict, d)
      else if negb (bool_decide (IdPID u = "")) then (Err ErrAccountConflict, d)
      else if IsLocked u now then (Err errLocked, d)
      else link now p id u d
  end.

Definition provisioned (p : Opened) (id : Identity) : User := {|
  ID := ""; Username := iUsername id; Email := iEmail id; DisplayName := firstNonEmpty (iDisplayName id) (iUsername id);
  Status_ := StatusActive; Roles := DefaultRoles (Conf p); IdPID := pID p; ExternalID := iExternalID id; FailedLogins := 0; LockedUntil := None;
  CreatedAt := 0; UpdatedAt := 0; LastLoginAt := None; MustResetOnLogin := false; DirectoryRemovedAt := None; SCIMExternalID := "";
  SCIMDeletedAt := None; PasswordHash := "" |}.

(** [newID] is the id the repository draws. *)
Definition create (newID : string) (now : time) (p : Opened) (id : Identity) (d : DB) : result Error User * DB :=
  if negb (AutoProvision (Conf p)) then (Err ErrNotProvisioned, d)
  else match Users.Create newID now (provisioned p id) d with
       | (Err ErrDuplicate, d) => (Err ErrAccountConflict, d)
       | (Err e, d) => (Err (FromUsers e), d)
       | (Ok u, d) => (Ok u, d)
       end.

(** How Resolve found the account. *)
Inductive How := Known | Linked_ | Created_.

Definition identify (newID : string) (now : time) (p : Opened) (id : Identity) (d : DB) : result Error (User * How) * DB :=
  match GetByExternalID (pID p) (iExternalID id) d with
  | Ok u => (Ok (u, Known), d)
  | Err _ =>
      match adopt now p id d with
      | (Ok u, d) => (Ok (u, Linked_), d)
      | (Err (FromUsers ErrNotFound), d) =>
          match create newID now p id d with
          | (Ok u, d) => (Ok (u, Created_), d)
          | (Err e, d) => (Err e, d)
          end
      | (Err e, d) => (Err e, d)
      end
  end.

(** The name and address the provider has, when they differ; a failure to
write them is passed over. *)
Definition refresh (now : time) (id : Identity) (u : User) (how : How) (d : DB) : DB :=
  match how with
  | Created_ => d
  | _ =>
      if negb (bool_decide (DisplayName u = iDisplayName id)) || negb (bool_decide (iEmail id = "")) && negb (bool_decide (Email u = iEmail id)) then
        (Users.Update now (ID u) (firstNonEmpty (iDisplayName id) (DisplayName u)) (firstNonEmpty (iEmail id) (Email u)) (Status_ u) d).2
      else d
  end.

(** * What provisioning does to the accounts *)

Definition bound (p : Opened) (id : Identity) (v' : User) : Prop := IdPID v' = pID p ∧ ExternalID v' = iExternalID id.

(** Nobody's yet, under the username, without a password. *)
Definition free (p : Opened) (id : Identity) (v : User) : Prop :=
  PasswordHash v = "" ∧ sql_lower (Username v) = sql_lower (iUsername id) ∧ (IdPID v = "" ∨ IdPID v = pID p ∧ ExternalID v = "").

(** The account is the person's to sign in to. *)
Definition own (p : Opened) (id : Identity) (v : User) : Prop := bound p id v ∨ free p id v.

(** What a sign-in leaves of an account alone. *)
Definition same_rights (v v' : User) : Prop :=
  ID v' = ID v ∧ Username v' = Username v ∧ Roles v' = Roles v ∧ PasswordHash v' = PasswordHash v ∧ Status_ v' = Status_ v ∧
  LockedUntil v' = LockedUntil v ∧ DirectoryRemovedAt v' = DirectoryRemovedAt v.

(** An account made for the person. *)
Definition made (p : Opened) (id : Identity) (v' : User) : Prop :=
  AutoProvision (Conf p) = true ∧ Roles v' = NormalizeRoles (DefaultRoles (Conf p)) ∧ PasswordHash v' = "" ∧ Status_ v' = StatusActive ∧
  LockedUntil v' = None ∧ bound p id v'.

Lemma getWhere_Ok d cond u : wf d → getWhere cond d = Ok u → users d !! ID u = Some u ∧ cond u = true.
Proof.
  intros Hwf. unfold getWhere. destruct (List.filter cond _) as [|v l] eqn:E; [done|]. cbn. intros [= ->].
  assert (u ∈ List.filter cond (map_to_list (users d)).*2) as Hin by (rewrite E; left).
  apply list_elem_of_In, filter_In in Hin as [Hin Hc]. apply list_elem_of_In, elem_of_users in Hin as [i Hi].
  by destruct (wf_rows _ Hwf i u Hi) as [-> _].
Qed.

Lemma link_cases now p id u d r d' : link now p id u d = (r, d') → users d !! ID u = Some u →
  (∃ e, r = Err e ∧ d' = d) ∨
  (r = Ok (with_link (pID p) (iExternalID id) (SCIMExternalID u) (UpdatedAt u) u) ∧
   d' = put (with_link (pID p) (iExternalID id) (SCIMExternalID u) now u) d).
Proof.
  intros H Hu. unfold link, LinkExternal in H. rewrite Hu in H.
  destruct (bool_decide (PasswordHash u = "") && _); [unfold Users.update in H; rewrite Hu in H; destruct (clashes _ d)|];
    injection H as <- <-; eauto.
Qed.

Lemma adopt_cases now p id d r d' : wf d → adopt now p id d = (r, d') →
  (∃ e, r = Err e ∧ d' = d) ∨
  ∃ v, users d !! ID v = Some v ∧ free p id v ∧ IsLocked v now = false ∧
       r = Ok (with_link (pID p) (iExternalID id) (SCIMExternalID v) (UpdatedAt v) v) ∧
       d' = put (with_link (pID p) (iExternalID id) (SCIMExternalID v) now v) d.
Proof.
  intros Hwf H. unfold adopt in H. destruct (GetByUsername _ d) as [u|] eqn:Hg; [|injection H as <- <-; eauto].
  apply getWhere_Ok in Hg as [Hu Hn]; [|done]. apply bool_decide_eq_true in Hn.
  destruct (decide (PasswordHash u = "")) as [Hp|Hp]; [|rewrite bool_decide_eq_false_2 in H by done; injection H as <- <-; eauto].
  rewrite bool_decide_eq_true_2 in H by done. cbn [negb] in H.
  destruct (bool_decide (IdPID u = pID p) && bool_decide (ExternalID u = "")) eqn:E1.
  - apply andb_true_iff in E1 as [E1%bool_decide_eq_true E2%bool_decide_eq_true].
    destruct (IsLocked u now) eqn:El; [injection H as <- <-; eauto|]. apply link_cases in H as [?|[-> ->]]; [by left| |done].
    right. exists u. split_and!; try done. unfold free. by eauto.
  - destruct (bool_decide (IdPID u = pID p)); [injection H as <- <-; eauto|].
    destruct (decide (IdPID u = "")) as [Hi|Hi]; [|rewrite bool_decide_eq_false_2 in H by done; injection H as <- <-; eauto].
    rewrite bool_decide_eq_true_2 in H by done. cbn [negb] in H.
    destruct (IsLocked u now) eqn:El; [injection H as <- <-; eauto|]. apply link_cases in H as [?|[-> ->]]; [by left| |done].
    right. exists u. split_and!; try done. unfold free. by eauto.
Qed.

Lemma create_cases newID now p id d r d' : create newID now p id d = (r, d') →
  (∃ e, r = Err e ∧ d' = d) ∨
  ∃ v, r = Ok v ∧ users d !! newID = None ∧ ID v = newID ∧ made p id v ∧ users d' = <[newID := v]> (users d) ∧ groups d' = groups d.
Proof.
  unfold create. destruct (AutoProvision (Conf p)) eqn:Ea; cbn [negb]; [|intros [= <- <-]; eauto].
  unfold Create, CreateInGroups. destruct (negb (ValidUsername _)); [intros [= <- <-]; by eauto|].
  destruct (bool_decide (Strings.TrimSpace _ = "")); [intros [= <- <-]; by eauto|].
  destruct (negb (forallb _ _)); [intros [= <- <-]; by eauto|]. cbv zeta. cbn [existsb distinct distinct_loop].
  destruct (clashes _ _ || bool_decide (is_Some (users d !! newID))) eqn:Ec; [intros [= <- <-]; by eauto|]. intros [= <- <-]. right.
  apply orb_false_iff in Ec as [_ Ec%bool_decide_eq_false]. eexists. split_and!; [done|by apply eq_None_not_Some|done|by repeat split|done|done].
Qed.

(** Finding the account changes at most that account. *)
Lemma identify_cases newID now p id d r d' : wf d → identify newID now p id d = (r, d') →
  groups d' = groups d ∧
  ((∃ e, r = Err e ∧ d' = d) ∨
   ∃ u v' how, r = Ok (u, how) ∧ users d' = <[ID u := v']> (users d) ∧ bound p id v' ∧ same_rights u v' ∧
     match how with
     | Created_ => users d !! ID u = None ∧ made p id v'
     | _ => ∃ v, users d !! ID u = Some v ∧ own p id v ∧ same_rights v v'
     end).
Proof.
  intros Hwf H. unfold identify in H. destruct (GetByExternalID _ _ d) as [u|] eqn:Hg.
  { injection H as <- <-. split; [done|]. right. apply getWhere_Ok in Hg as [Hu Hc]; [|done]. bool_simpl.
    exists u, u, Known. split_and!; [done|by rewrite insert_id|by split|by repeat split|]. exists u. split_and!; [done|by left|by repeat split]. }
  destruct (adopt now p id d) as [ra da] eqn:Ha. pose proof (adopt_cases _ _ _ _ _ _ Hwf Ha) as [(ea & -> & ->)|(v & Hv & Ho & Hl & -> & ->)].
  - destruct ea as [| | | |[]]; try (injection H as <- <-; split; [done|left; eauto]).
    destruct (create newID now p id d) as [rc dc] eqn:Hc. clear Ha.
    destruct (create_cases _ _ _ _ _ _ _ Hc) as [(e2 & -> & ->)|(v & -> & Hn & <- & Hm & Hu & Hg')]; injection H as <- <-;
      (split; [done|]); [left; eauto|]. right. exists v, v, Created_. split_and!; try done; by apply Hm.
  - injection H as <- <-. split; [done|]. right. eexists _, _, Linked_. split_and!; [done|reflexivity|done|done|]. exists v. split_and!; [done|by right|done].
Qed.

Lemma same_rights_refl v : same_rights v v.
Proof. by repeat split. Qed.

(** Writing a name, an address and the status an account has changes those two alone. *)
Lemma Update_effect now id n e d v : wf d → users d !! id = Some v →
  let d' := (Users.Update now id n e (Status_ v) d).2 in
  groups d' = groups d ∧ group_members d' = group_members d ∧
  ∃ v', users d' = <[id := v']> (users d) ∧ same_rights v v' ∧ IdPID v' = IdPID v ∧ ExternalID v' = ExternalID v.
Proof.
  intros Hwf Hv. cbv zeta. unfold Users.Update. case_bool_decide.
  { split_and!; [done..|]. exists v. by rewrite insert_id. }
  unfold Users.update. rewrite Hv. destruct (clashes _ d).
  { split_and!; [done..|]. exists v. by rewrite insert_id. }
  split_and!; [done..|]. exists (with_profile n e (Status_ v) now v). destruct (wf_rows _ Hwf _ _ Hv) as [Hid _].
  split_and!; [cbn; by rewrite Hid| |done|done]. unfold same_rights. cbn. by rewrite bool_decide_eq_true_2.
Qed.

Lemma refresh_effect now id u how d v : wf d → users d !! ID u = Some v → Status_ v = Status_ u →
  ∃ v', users (refresh now id u how d) = <[ID u := v']> (users d) ∧ same_rights v v' ∧ IdPID v' = IdPID v ∧ ExternalID v' = ExternalID v.
Proof.
  intros Hwf Hv Hst. unfold refresh. rewrite <-Hst.
  assert (∃ v', users d = <[ID u := v']> (users d) ∧ same_rights v v' ∧ IdPID v' = IdPID v ∧ ExternalID v' = ExternalID v) as Hsame.
  { exists v. split_and!; [by rewrite insert_id|apply same_rights_refl|done|done]. }
  destruct how; [| |done]; (destruct (_ || _); [|done]); by destruct (Update_effect now (ID u) (firstNonEmpty (iDisplayName id) (DisplayName u)) (firstNonEmpty (iEmail id) (Email u)) d v Hwf Hv) as (_ & _ & ?).
Qed.

Lemma same_rights_trans u v w : same_rights u v → same_rights v w → same_rights u w.
Proof. unfold same_rights. intros (-> & -> & -> & -> & -> & -> & ->) (-> & -> & -> & -> & -> & -> & ->). done. Qed.

Lemma locked_same u v now : same_rights u v → IsLocked v now = IsLocked u now.
Proof. unfold IsLocked, IsBlocked. by intros (_ & _ & _ & _ & -> & -> & _). Qed.

Lemma made_same p id v v' : made p id v → same_rights v v' → bound p id v' → made p id v'.
Proof. unfold made. intros (? & ? & ? & ? & ? & _) (_ & _ & -> & -> & -> & -> & _) ?. done. Qed.

Lemma adopt_wf now p id d : wf d → wf (adopt now p id d).2.
Proof.
  intros Hwf. unfold adopt, link. assert (∀ i e, wf (LinkExternal now i (pID p) e d).2) as Hl
    by (intros i e; by apply (exec1_wf (OLinkExternal now i (pID p) e))).
  destruct (GetByUsername _ d) as [u|]; [|done]. specialize (Hl (ID u) (iExternalID id)).
  repeat (case_match; try done); cbn in *; by subst.
Qed.

Lemma create_wf newID now p id d : wf d → wf (create newID now p id d).2.
Proof.
  intros Hwf. unfold create. pose proof (CreateInGroups_wf newID now (provisioned p id) [] d Hwf) as Hc. unfold Create.
  repeat (case_match; try done); cbn in *; by subst.
Qed.

Lemma identify_wf newID now p id d r d' : identify newID now p id d = (r, d') → wf d → wf d'.
Proof.
  intros H Hwf. unfold identify in H. destruct (GetByExternalID _ _ d); [by injection H as <- <-|].
  pose proof (adopt_wf now p id d Hwf) as Ha. destruct (adopt now p id d) as [[u|ea] da]; cbn in Ha; [by injection H as <- <-|].
  pose proof (create_wf newID now p id da Ha) as Hc. destruct (create newID now p id da) as [rc dc]. cbn in Hc.
  repeat (case_match; try (injection H as <- <-; done)).
Qed.

(** One account at most differs, and it was the person's or was made for them. *)
Definition at_most_own (p : Opened) (id : Identity) (m m' : gmap string User) : Prop :=
  ∃ j, (∀ k, k ≠ j → m' !! k = m !! k) ∧
    (m' !! j = m !! j ∨
     (∃ v v', m !! j = Some v ∧ m' !! j = Some v' ∧ own p id v ∧ same_rights v v' ∧ bound p id v') ∨
     (∃ v', m !! j = None ∧ m' !! j = Some v' ∧ made p id v')).

Lemma at_most_own_refl p id m : at_most_own p id m m.
Proof. exists "". auto. Qed.

(** The account a sign-in found, with the name and address of the provider. *)
Lemma identify_refresh newID now p id d u how d' : wf d → identify newID now p id d = (Ok (u, how), d') →
  ∃ v2, users (refresh now id u how d') = <[ID u := v2]> (users d) ∧ bound p id v2 ∧ same_rights u v2 ∧
        at_most_own p id (users d) (<[ID u := v2]> (users d)).
Proof.
  intros Hwf Hi. pose proof (identify_wf _ _ _ _ _ _ _ Hi Hwf) as Hwf'.
  apply identify_cases in Hi as [_ [(e & [=] & _)|(u0 & v' & how0 & [= <- <-] & Hus & Hb & Hs & Hhow)]]; [|done].
  assert (users d' !! ID u = Some v') as Hv' by (rewrite Hus; apply lookup_insert_eq).
  destruct (refresh_effect now id u how d' v' Hwf' Hv') as (v2 & Hr & Hs2 & E1 & E2); [by destruct Hs as (_ & _ & _ & _ & ? & _)|].
  assert (users (refresh now id u how d') = <[ID u := v2]> (users d)) as H2 by by rewrite Hr, Hus, insert_insert_eq.
  assert (bound p id v2) as Hb2 by (destruct Hb; split; congruence).
  exists v2. split_and!; [done|done|by eapply same_rights_trans|]. exists (ID u). split; [intros k Hk; by rewrite lookup_insert_ne|].
  right. rewrite lookup_insert_eq. destruct how; [left|left|right].
  1,2: destruct Hhow as (v & Hv & Ho & Hsv); exists v, v2; split_and!; try done; by eapply same_rights_trans.
  destruct Hhow as [Hn Hm]. exists v2. split_and!; [done..|]. by eapply made_same.
Qed.

Section directory.
Context {R : Type} `{RV : Revoker R}.

(** goldap: [ParseDN], and [EqualFold] of two names. *)
Context {DN : Type} (ParseDN : string → option DN) (EqualFold : DN → DN → bool).

(** The gateway's Recheck. *)
Context (Recheck : list string → R → nat * R).

Definition holds (key : string) (id : Identity) : bool :=
  if existsb (Ascii.eqb "=") (to_bytes key) then
    match ParseDN key with
    | None => false
    | Some want => existsb (EqualFold want) (omap ParseDN (GroupDNs id))
    end
  else contains (Strings.ToLower <$> Groups id) (Strings.ToLower key).

Record Resolution := {
  RUser : User;
  RHow : How;
  GroupsAdded : list string;
  GroupsRemoved : list string;
  LiveSessionsEnded : nat;
}.

(** The state of the loop of syncGroups. *)
Record loop := { before : gset string; added : list string; removed : list string; ended_ : nat; lw : world (R := R) }.

Definition recheck (userID : string) (w : world) : nat * world :=
  match gw w with
  | None => (0%nat, w)
  | Some r => let '(n, r) := Recheck [userID] r in (n, {| udb := udb w; sdb := sdb w; tdb := tdb w; gw := Some r; sdown := sdown w |})
  end.

Definition sync_group (id : Identity) (userID : string) (l : loop) (kv : string * string) : loop :=
  let '(ext, gid) := kv in
  if holds ext id then
    if bool_decide (gid ∈ before l) then l
    else match AddMember gid userID (udb (lw l)) with
         | (Ok _, d) => {| before := {[gid]} ∪ before l; added := added l ++ [gid]; removed := removed l; ended_ := ended_ l; lw := set_udb d (lw l) |}
         | (Err _, _) => l
         end
  else
    if bool_decide (gid ∈ before l) then
      match RemoveMember gid userID (udb (lw l)) with
      | (Ok _, d) =>
          let '(n, w) := recheck userID (set_udb d (lw l)) in
          {| before := before l ∖ {[gid]}; added := added l; removed := removed l ++ [gid]; ended_ := ended_ l + n; lw := w |}
      | (Err _, _) => l
      end
    else l.

Definition syncGroups (p : Opened) (id : Identity) (userID : string) (w : world) : loop :=
  foldl (sync_group id userID)
    {| before := GroupIDsForUser userID (udb w); added := []; removed := []; ended_ := 0; lw := w |} (Mapping (Conf p)).

(** Resolve. *)
Definition Resolve (newID : string) (now : time) (p : Opened) (id : Identity) (w : world) : result Error Resolution * world :=
  if negb (ValidUsername (iUsername id)) then (Err ErrInvalidInput, w)
  else
    match identify newID now p id (udb w) with
    | (Err e, d) => (Err e, set_udb d w)
    | (Ok (u, how), d) =>
        let w := set_udb (refresh now id u how d) w in
        if IsLocked u now then (Err errLocked, w)
        else
          let l := syncGroups p id (ID u) w in
          match GetByID (ID u) (udb (lw l)) with
          | Err e => (Err (FromUsers e), lw l)
          | Ok u => (Ok {| RUser := u; RHow := how; GroupsAdded := added l; GroupsRemoved := removed l; LiveSessionsEnded := ended_ l |}, lw l)
          end
    end.

(** * What a sign-in does to memberships *)

Definition members (l : loop) : gset (string * string) := group_members (udb (lw l)).

(** What the loop keeps. *)
Record loop_ok (userID : string) (d : DB) (l : loop) : Prop := {
  lk_users : users (udb (lw l)) = users d;
  lk_groups : groups (udb (lw l)) = groups d;
  lk_before g : g ∈ before l ↔ (g, userID) ∈ members l;
}.

(** A group an administrator fills. *)
Definition manual (d : DB) (g : string) : Prop := groups d !! g = Some "".

#[local] Instance manual_dec d g : Decision (manual d g).
Proof. unfold manual. apply _. Defined.

Lemma recheck_udb userID w : udb (recheck userID w).2 = udb w.
Proof. unfold recheck. destruct (gw w) as [r|]; [|done]. by destruct (Recheck [userID] r). Qed.

Lemma sync_group_step id userID d l ext gid : loop_ok userID d l → is_Some (users d !! userID) →
  loop_ok userID d (sync_group id userID l (ext, gid)) ∧
  ∀ g u, (g, u) ∈ members (sync_group id userID l (ext, gid)) ↔
    if decide (u = userID ∧ g = gid ∧ manual d g) then holds ext id = true else (g, u) ∈ members l.
Proof.
  intros [Hu Hg Hb] Hex. unfold sync_group, AddMember, RemoveMember.
  assert (loop_ok userID d l) as Hok by by split. rewrite !Hg. unfold manual, members.
  destruct (holds ext id) eqn:Eh.
  - case_bool_decide as Hin. { split; [done|]. intros g u. case_decide as Hd; [|done]. destruct Hd as (-> & -> & _). by rewrite <-Hb. }
    destruct (groups d !! gid) as [idp|] eqn:Ei; [|split; [done|]; intros g u; case_decide as Hd; [naive_solver|done]].
    case_bool_decide as Hidp; cbn [negb]; [subst|split; [done|]; intros g u; case_decide as Hd; [naive_solver|done]].
    rewrite bool_decide_eq_false_2 by by rewrite <-Hb. rewrite Hu, bool_decide_eq_true_2 by done. split.
    + split; cbn; [done|done|]. intros g. rewrite !elem_of_union, !elem_of_singleton, Hb. naive_solver.
    + intros g u. cbn. rewrite elem_of_union, elem_of_singleton. case_decide as Hd; naive_solver.
  - case_bool_decide as Hin; [|split; [done|]; intros g u; case_decide as Hd; [|done]; destruct Hd as (-> & -> & _); rewrite <-Hb; naive_solver].
    destruct (groups d !! gid) as [idp|] eqn:Ei; [|split; [done|]; intros g u; case_decide as Hd; [naive_solver|done]].
    case_bool_decide as Hidp; cbn [negb]; [subst|split; [done|]; intros g u; case_decide as Hd; [naive_solver|done]].
    destruct (recheck userID _) as [n w'] eqn:Er. assert (udb w' = with_members (group_members (udb (lw l)) ∖ {[(gid, userID)]}) (udb (lw l))) as Ew.
    { match type of Er with recheck _ ?x = _ => pose proof (recheck_udb userID x) as E end. by rewrite Er in E. }
    split.
    + split; [cbn; by rewrite Ew|cbn; by rewrite Ew|]. intros g. unfold members. cbn. rewrite Ew. cbn. rewrite !elem_of_difference, !elem_of_singleton, Hb. naive_solver.
    + intros g u. cbn. rewrite Ew. cbn. rewrite elem_of_difference, elem_of_singleton. case_decide as Hd; naive_solver.
Qed.

(** The last key a group is mapped from. *)
Definition last_key (g : string) (m : GroupMapping) : option string :=
  foldl (λ acc kv, if bool_decide (kv.2 = g) then Some kv.1 else acc) None m.

Lemma sync_groups_spec id userID d m : ∀ l, loop_ok userID d l → is_Some (users d !! userID) →
  loop_ok userID d (foldl (sync_group id userID) l m) ∧
  ∀ g u, (g, u) ∈ members (foldl (sync_group id userID) l m) ↔
    match last_key g m with
    | Some ext => if decide (u = userID ∧ manual d g) then holds ext id = true else (g, u) ∈ members l
    | None => (g, u) ∈ members l
    end.
Proof.
  induction m as [|[ext gid] m IH] using rev_ind; intros l Hl Hex; [done|]. destruct (IH l Hl Hex) as [H1 H2]. rewrite foldl_snoc.
  destruct (sync_group_step id userID d _ ext gid H1 Hex) as [H3 H4]. split; [done|]. intros g u. rewrite H4. unfold last_key.
  rewrite foldl_snoc. fold (last_key g m). cbn [fst snd]. case_bool_decide as Hg.
  - subst g. destruct (decide (u = userID ∧ manual d gid)) as [[-> Hm]|Hn]; [by rewrite decide_True by done|].
    rewrite decide_False by tauto. rewrite H2. destruct (last_key gid m); [|done]. by rewrite decide_False.
  - rewrite decide_False by (intros (_ & -> & _); done). apply H2.
Qed.

Lemma loop_start userID w :
  loop_ok userID (udb w) {| before := GroupIDsForUser userID (udb w); added := []; removed := []; ended_ := 0; lw := w |}.
Proof.
  split; [done|done|]. intros g. unfold GroupIDsForUser, members. cbn. rewrite elem_of_map. split.
  - intros ([g' u] & -> & [Hu Hin]%elem_of_filter). cbn in *. by subst.
  - intros Hin. exists (g, userID). split; [done|]. by apply elem_of_filter.
Qed.

(** C21. A sign-in through a provider never takes over somebody's account.
Whatever its outcome, the sign-in of an identity changes at most one account: one
linked to that very subject, or one of its username that has no password and is
linked to no other provider or subject, which it links; or it makes one, for a
provider that creates accounts, with the provider's default roles and no
password.  It leaves every account's roles, password, status and lock alone, and
who signs in is the account bound to the subject, not locked. *)
Theorem no_takeover newID now p id w r w' :
  wf (udb w) → Resolve newID now p id w = (r, w') →
  at_most_own p id (users (udb w)) (users (udb w')) ∧
  (∀ res, r = Ok res → users (udb w') !! ID (RUser res) = Some (RUser res) ∧ bound p id (RUser res) ∧ IsLocked (RUser res) now = false).
Proof.
  intros Hwf H. unfold Resolve in H. destruct (negb _); [injection H as <- <-; split; [by apply at_most_own_refl|done]|].
  destruct (identify newID now p id (udb w)) as [ri d] eqn:Hi. destruct ri as [[u how]|e].
  2:{ injection H as <- <-. apply identify_cases in Hi as [_ [(e' & _ & ->)|(? & ? & ? & [=] & _)]]; [|done]. split; [by apply at_most_own_refl|done]. }
  destruct (identify_refresh _ _ _ _ _ _ _ _ Hwf Hi) as (v2 & H2 & Hb & Hs & Hown). destruct (IsLocked u now) eqn:El.
  { injection H as <- <-. cbn. by rewrite H2. }
  set (w1 := set_udb (refresh now id u how d) w) in *.
  destruct (sync_groups_spec id (ID u) (udb w1) (Mapping (Conf p)) _ (loop_start (ID u) w1)) as [[Hlu _ _] _].
  { cbn. rewrite H2, lookup_insert_eq. by eexists. }
  fold (syncGroups p id (ID u) w1) in Hlu. unfold GetByID in H. rewrite Hlu in H. cbn [w1 udb set_udb] in H, Hlu.
  rewrite H2, lookup_insert_eq in H. injection H as <- <-. rewrite Hlu, H2. split; [done|]. intros res [= <-]. cbn [RUser].
  split_and!; [|done|by rewrite <-El; apply locked_same]. destruct Hs as [-> _]. apply lookup_insert_eq.
Qed.

Lemma last_key_unique ext g m : NoDup m.*2 → (ext, g) ∈ m → last_key g m = Some ext.
Proof.
  unfold last_key. induction m as [|[k h] m IH] using rev_ind; [by intros ? ?%not_elem_of_nil|]. rewrite fmap_app, foldl_snoc. intros Hd Hin.
  apply NoDup_app in Hd as (Hd & Hx & _). apply elem_of_app in Hin as [Hin|Hin%list_elem_of_singleton].
  - cbn. rewrite bool_decide_eq_false_2; [by apply IH|]. intros <-. apply (Hx h); [|by left].
    apply list_elem_of_fmap. by exists (ext, h).
  - injection Hin as -> ->. cbn. by rewrite bool_decide_eq_true_2.
Qed.

Lemma last_key_mapped g m ext : last_key g m = Some ext → g ∈ m.*2.
Proof.
  unfold last_key. induction m as [|[k h] m IH] using rev_ind; [done|]. rewrite foldl_snoc, fmap_app, elem_of_app. cbn.
  case_bool_decide as Hh; [|by auto]. subst. right. left.
Qed.

(** Mapped groups follow the provider.  With each group mapped from one key,
after a sign-in the account is a member of a mapped group that administrators
fill exactly when the provider asserted its key: added to what it gained, removed
from what it lost; every other membership, of other groups, of groups a provider
fills and of other accounts, is as it was. *)
Theorem mapped_groups_follow p id userID w :
  NoDup (Mapping (Conf p)).*2 → is_Some (users (udb w) !! userID) →
  let w' := lw (syncGroups p id userID w) in
  (∀ ext g, (ext, g) ∈ Mapping (Conf p) → manual (udb w) g → (g, userID) ∈ group_members (udb w') ↔ holds ext id = true) ∧
  (∀ g u, u ≠ userID ∨ g ∉ (Mapping (Conf p)).*2 ∨ ¬ manual (udb w) g → (g, u) ∈ group_members (udb w') ↔ (g, u) ∈ group_members (udb w)) ∧
  users (udb w') = users (udb w).
Proof.
  intros Hd Hex w'. destruct (sync_groups_spec id userID (udb w) (Mapping (Conf p)) _ (loop_start userID w) Hex) as [[Hu _ _] Hm].
  fold (syncGroups p id userID w) in Hu, Hm. unfold members in Hm. subst w'. split_and!; [| |done].
  - intros ext g Hin Hman. rewrite (Hm g userID), (last_key_unique ext) by done. by rewrite decide_True.
  - intros g u Hor. rewrite (Hm g u). destruct (last_key g _) as [ext|] eqn:Ek; [|done]. rewrite decide_False; [done|].
    intros [-> Hman]. apply last_key_mapped in Ek. naive_solver.
Qed.

(** Two keys of one group undo each other.  When a group is mapped from two
keys, the later key in order decides alone: a person who holds the earlier one and
not the later one is added by the first and removed by the second, and so is out
of the group after every sign-in, although the provider asserted a key that maps
to it. *)
Theorem earlier_key_undone p id userID w k1 k2 g m :
  Mapping (Conf p) = m ++ [(k1, g); (k2, g)] → is_Some (users (udb w) !! userID) → manual (udb w) g →
  holds k1 id = true → holds k2 id = false →
  (∃ ext, (ext, g) ∈ Mapping (Conf p) ∧ holds ext id = true) ∧ (g, userID) ∉ group_members (udb (lw (syncGroups p id userID w))).
Proof.
  intros Hmap Hex Hman H1 H2. split; [exists k1; split; [rewrite Hmap; set_solver|done]|]. destruct (sync_groups_spec id userID (udb w) (Mapping (Conf p)) _ (loop_start userID w) Hex) as [_ Hm].
  fold (syncGroups p id userID w) in Hm. unfold members in Hm. rewrite (Hm g userID), Hmap. unfold last_key.
  rewrite (foldl_app _ m). cbn [foldl fst snd]. rewrite bool_decide_eq_true_2, decide_True by done. by rewrite H2.
Qed.

End directory.

(** * A provider with mapped groups *)

Definition ex_mapped (m : GroupMapping) : Opened := {| pID := "okta"; Enabled := true; Conf := {|
  cOIDC := Some false; DefaultRoles := [RoleUser]; Mapping := m; AutoProvision := true; SyncUsers := false; SCIM := false |} |}.

Definition ex_asserted : Identity := {|
  iExternalID := "sub-eve"; iUsername := "eve"; iDisplayName := "Eve"; iEmail := "eve@corp.example"; Groups := ["Admins"]; GroupDNs := [] |}.

Definition ex_domain : world (R := Registry.Registry) := {|
  udb := exec [OCreate "a" 1 (ex_account "ada") []; OCreate "e" 2 (provisioned (ex_mapped []) ex_asserted) []]
           {| users := ∅; groups := <["g" := ""]> ∅; group_members := ∅ |};
  sdb := ∅; tdb := tdb ex_world; gw := gw ex_world; sdown := λ _, false |}.

Lemma ex_domain_wf : wf (udb ex_domain).
Proof. apply exec_wf. split; cbn; intros *; by rewrite lookup_empty. Qed.

(** No distinguished names, and a gateway that ends nothing. *)
Abbreviation ex_Resolve := (Resolve (λ _ : string, @None string) (λ _ _, false) (λ _ r, (0%nat, r))).
Abbreviation ex_syncGroups := (syncGroups (λ _ : string, @None string) (λ _ _, false) (λ _ r, (0%nat, r))).

Lemma no_takeover_witness :
  let '(r, w') := ex_Resolve "new" 9 (ex_mapped []) ex_asserted ex_domain in
  is_ok r = true ∧ at_most_own (ex_mapped []) ex_asserted (users (udb ex_domain)) (users (udb w')).
Proof.
  destruct (ex_Resolve "new" 9 (ex_mapped []) ex_asserted ex_domain) as [r w'] eqn:E. split.
  - assert (r = (ex_Resolve "new" 9 (ex_mapped []) ex_asserted ex_domain).1) as -> by (rewrite E; reflexivity). vm_compute. reflexivity.
  - exact (proj1 (no_takeover _ _ _ "new" 9 (ex_mapped []) ex_asserted ex_domain r w' ex_domain_wf E)).
Defined.

Lemma mapped_groups_follow_witness :
  ("g", "e") ∈ group_members (udb (lw (ex_syncGroups (ex_mapped [("admins", "g")]) ex_asserted "e" ex_domain))).
Proof.
  apply (proj1 (mapped_groups_follow (λ _ : string, @None string) (λ _ _, false) (λ _ r, (0%nat, r)) (ex_mapped [("admins", "g")]) ex_asserted "e" ex_domain
    ltac:(apply NoDup_singleton) ltac:(vm_compute; eexists; reflexivity)) "admins" "g"); [left|vm_compute; reflexivity|vm_compute; reflexivity].
Defined.

Lemma earlier_key_undone_witness :
  ("g", "e") ∉ group_members (udb (lw (ex_syncGroups (ex_mapped [("admins", "g"); ("ops", "g")]) ex_asserted "e" ex_domain))).
Proof.
  apply (earlier_key_undone (λ _ : string, @None string) (λ _ _, false) (λ _ r, (0%nat, r)) (ex_mapped [("admins", "g"); ("ops", "g")]) ex_asserted "e" ex_domain
    "admins" "ops" "g" []); [reflexivity|vm_compute; eexists; reflexivity|vm_compute; reflexivity|vm_compute; reflexivity|vm_compute; reflexivity].
Defined.
