(* ===== verification/UserSync.v ===== *)
(** The user sync: src/internal/idp/sync.go, over the provisioning of Directory.v
and the lifecycle of UserAdmin.v.

The directory server is not in the repository: what it lists is an argument of a
run.  The loop over the people goes in the order the sort left them; sort.Slice
is not stable, so the order is an argument too, of which the theorems ask only
that it is a permutation.  The accounts a run read are pointers its later steps
share: [linked] holds what they read at each point.  A database that cannot be
reached is not modelled. *)
From stdpp Require Import sorting.
From S2P Require Import Prelude GoText Sessions Users UserAdmin Directory.
Local Open Scope Z_scope.

Section sync.
Context {R : Type} `{RV : Revoker R}.

(** * The user sync *)

Inductive Hold := ListedNoOne | TooMany | LastAdmin.

Record SyncStatus := {
  Listed : nat; Created : nat; Linked : nat; Updated : nat; SEnabled : nat; Disabled : nat; NotCreated : nat;
  Conflicts : list string; Held : nat; HeldReason : option Hold; Ended : nat;
}.

Definition noStatus (listed : nat) : SyncStatus := {|
  Listed := listed; Created := 0; Linked := 0; Updated := 0; SEnabled := 0; Disabled := 0; NotCreated := 0; Conflicts := []; Held := 0;
  HeldReason := None; Ended := 0 |}.

Definition maxConflicts : nat := 20.

(** Counting: accounts created, linked, updated, enabled, not created. *)
Definition bump (c l u e n : nat) (st : SyncStatus) : SyncStatus := {|
  Listed := Listed st; Created := Created st + c; Linked := Linked st + l; Updated := Updated st + u; SEnabled := SEnabled st + e;
  Disabled := Disabled st; NotCreated := NotCreated st + n; Conflicts := Conflicts st; Held := Held st; HeldReason := HeldReason st; Ended := Ended st |}.

Definition addConflict (username : string) (st : SyncStatus) : SyncStatus := {|
  Listed := Listed st; Created := Created st; Linked := Linked st; Updated := Updated st; SEnabled := SEnabled st; Disabled := Disabled st;
  NotCreated := NotCreated st;
  Conflicts := if (length (Conflicts st) <? maxConflicts)%nat then Conflicts st ++ [username] else Conflicts st;
  Held := Held st; HeldReason := HeldReason st; Ended := Ended st |}.

(** [n] more held back, and why; [d] more disabled, with [live] sessions ended. *)
Definition departed (n : nat) (why : option Hold) (d live : nat) (st : SyncStatus) : SyncStatus := {|
  Listed := Listed st; Created := Created st; Linked := Linked st; Updated := Updated st; SEnabled := SEnabled st; Disabled := Disabled st + d;
  NotCreated := NotCreated st; Conflicts := Conflicts st; Held := Held st + n; HeldReason := match why with Some h => Some h | None => HeldReason st end;
  Ended := Ended st + live |}.

(** keep: the account, as the pointer the run holds to it reads afterwards. *)
Definition keep (now : time) (u : User) (id : Identity) (w : world) (st : SyncStatus) : result Error User * world (R := R) * SyncStatus :=
  let '(back, w) := Return u now w in
  let u := if back then with_status StatusActive None (UpdatedAt u) u else u in
  let st := if back then bump 0 0 0 1 0 st else st in
  let name := firstNonEmpty (iDisplayName id) (DisplayName u) in
  let email := firstNonEmpty (iEmail id) (Email u) in
  if negb (bool_decide (name = DisplayName u)) || negb (bool_decide (email = Email u)) then
    match Users.Update now (ID u) name email (Status_ u) (udb w) with
    | (Ok _, d) => (Ok u, set_udb d w, bump 0 0 1 0 0 st)
    | (Err ErrDuplicate, d) => (Ok u, set_udb d w, addConflict (Username u) st)
    | (Err e, d) => (Err (FromUsers e), set_udb d w, st)
    end
  else (Ok u, w, st).

(** join: the account it adopted. *)
Definition join (newID : string) (now : time) (p : Opened) (id : Identity) (w : world) (st : SyncStatus)
    : result Error (option string) * world (R := R) * SyncStatus :=
  if negb (ValidUsername (iUsername id)) then (Ok None, w, addConflict (iUsername id) st)
  else
    match adopt now p id (udb w) with
    | (Ok u, d) => (Ok (Some (ID u)), set_udb d w, bump 0 1 0 0 0 st)
    | (Err (FromUsers ErrNotFound), d) =>
        if negb (AutoProvision (Conf p)) then (Ok None, set_udb d w, bump 0 0 0 0 1 st)
        else
          match create newID now p id d with
          | (Ok u, d) => (Ok None, set_udb d w, bump 1 0 0 0 0 st)
          | (Err ErrAccountConflict, d) => (Ok None, set_udb d w, addConflict (iUsername id) st)
          | (Err e, d) => (Err e, set_udb d w, st)
          end
    | (Err ErrAccountConflict, d) => (Ok None, set_udb d w, addConflict (iUsername id) st)
    | (Err errLocked, d) => (Ok None, set_udb d w, st)
    | (Err e, d) => (Err e, set_udb d w, st)
    end.

Definition by_uid (u v : User) : Prop := String.leb (ID u) (ID v) = true.

#[local] Instance by_uid_dec : RelDecision by_uid.
Proof. intros u v. unfold by_uid. apply _. Defined.

(** [WHERE idp_id = ? ORDER BY id]. *)
Definition ListByIdP (idp : string) (d : DB) : list User :=
  merge_sort by_uid (List.filter (λ u, bool_decide (IdPID u = idp)) (map_to_list (users d)).*2).

(** The state of a run: [linked] are the accounts it read, shared with the map
by external id; [kept] the ids of the accounts the listing accounts for. *)
Record pass := { rw : world (R := R); rst : SyncStatus; linked : list User; seen : list string; kept : list string }.

Definition replace (u : User) (us : list User) : list User := (λ v, if bool_decide (ID v = ID u) then u else v) <$> us.

Definition byExternal (ext : string) (us : list User) : option User := List.find (λ u, bool_decide (ExternalID u = ext)) (rev us).

Definition person (newID : Identity → string) (now : time) (p : Opened) (id : Identity) (s : pass) : option Error * pass :=
  if bool_decide (iExternalID id = "") || bool_decide (iExternalID id ∈ seen s) then (None, s)
  else
    match byExternal (iExternalID id) (linked s) with
    | Some u =>
        let '(r, w, st) := keep now u id (rw s) (rst s) in
        let s := {| rw := w; rst := st; linked := match r with Ok u => replace u (linked s) | Err _ => linked s end;
                    seen := iExternalID id :: seen s; kept := ID u :: kept s |} in
        (match r with Ok _ => None | Err e => Some e end, s)
    | None =>
        let '(r, w, st) := join (newID id) now p id (rw s) (rst s) in
        let s := {| rw := w; rst := st; linked := linked s; seen := iExternalID id :: seen s;
                    kept := match r with Ok (Some a) => a :: kept s | _ => kept s end |} in
        (match r with Ok _ => None | Err e => Some e end, s)
    end.

Fixpoint people_loop (newID : Identity → string) (now : time) (p : Opened) (ids : list Identity) (s : pass) : option Error * pass :=
  match ids with
  | [] => (None, s)
  | id :: ids => match person newID now p id s with (None, s) => people_loop newID now p ids s | res => res end
  end.

Definition is_active (u : User) : bool := bool_decide (Status_ u = StatusActive).

(** The active accounts nobody listed accounts for. *)
Definition gone (s : pass) : list User := List.filter (λ u, is_active u && negb (bool_decide (ID u ∈ kept s))) (linked s).

Definition leave_one (at_ : time) (ws : world * SyncStatus) (u : User) : world (R := R) * SyncStatus :=
  let '(w, st) := ws in
  match Leave u at_ w with
  | (Err IdpLastAdmin, w) => (w, departed 1 (Some LastAdmin) 0 0 st)
  | (Ok (true, live), w) => (w, departed 0 None 1 live st)
  | (Ok (false, _), w) => (w, st)
  end.

Definition leave (force : bool) (at_ : time) (listed : nat) (s : pass) : world (R := R) * SyncStatus :=
  let n := length (gone s) in
  if (n =? 0)%nat then (rw s, rst s)
  else if (listed =? 0)%nat && negb force then (rw s, departed n (Some ListedNoOne) 0 0 (rst s))
  else if negb force && (3 <? n)%nat && (length (List.filter is_active (linked s)) <? 2 * n)%nat then (rw s, departed n (Some TooMany) 0 0 (rst s))
  else foldl (leave_one at_) (rw s, rst s) (gone s).

Inductive SyncErr := ErrNoDirectory | ErrList | ErrRow (e : Error).

(** sync: [listing] is what the directory answered, [None] for an error;
[order] what sort.Slice makes of it. *)
Definition sync (order : list Identity → list Identity) (newID : Identity → string) (now at_ : time) (force has_directory : bool) (p : Opened)
    (listing : option (list Identity)) (w : world) : option SyncErr * SyncStatus * world (R := R) :=
  if negb has_directory || negb (SyncUsers (Conf p)) then (Some ErrNoDirectory, noStatus 0, w)
  else
    match listing with
    | None => (Some ErrList, noStatus 0, w)
    | Some people =>
        let s := {| rw := w; rst := noStatus (length people); linked := ListByIdP (pID p) (udb w); seen := []; kept := [] |} in
        match people_loop newID now p (order people) s with
        | (Some e, s) => (Some (ErrRow e), rst s, rw s)
        | (None, s) => let '(w, st) := leave force at_ (length people) s in (None, st, w)
        end
    end.

(** * The accounts a run reads *)

(** Disabled, and marked as taken away by the provider. *)
Definition returned (u : User) : bool := bool_decide (Status_ u = StatusDisabled) && bool_decide (is_Some (DirectoryRemovedAt u)).

Lemma ListByIdP_elem idp d u : wf d → u ∈ ListByIdP idp d ↔ users d !! ID u = Some u ∧ IdPID u = idp.
Proof.
  intros Hwf. unfold ListByIdP. rewrite merge_sort_Permutation, list_elem_of_In, filter_In, <-list_elem_of_In, elem_of_users, bool_decide_eq_true.
  split; [intros [[i Hi] ?]|intros [? ?]; by eauto]. by destruct (wf_rows _ Hwf _ _ Hi) as [-> _].
Qed.

Lemma ListByIdP_NoDup idp d : wf d → NoDup (ID <$> ListByIdP idp d).
Proof.
  intros Hwf. unfold ListByIdP. rewrite merge_sort_Permutation. pose proof (NoDup_fst_map_to_list (users d)) as Hd.
  assert (∀ kv, kv ∈ map_to_list (users d) → ID kv.2 = kv.1) as Hid.
  { intros [k u] Hin%elem_of_map_to_list. by destruct (wf_rows _ Hwf _ _ Hin). }
  induction (map_to_list (users d)) as [|[k u] l IH]; [apply NoDup_nil_2|]. rewrite fmap_cons in *. apply NoDup_cons in Hd as [Hn Hd]. cbn [List.filter].
  assert (NoDup (ID <$> List.filter (λ u, bool_decide (IdPID u = idp)) l.*2)) as IH' by (apply IH; [done|]; intros; apply Hid; by right).
  case_bool_decide; [|done]. rewrite fmap_cons. apply NoDup_cons. split; [|done]. intros (v & Hv & Hin)%list_elem_of_fmap. apply Hn.
  apply list_elem_of_In, filter_In in Hin as [Hin _]. apply list_elem_of_In, list_elem_of_fmap in Hin as ([k' v'] & -> & Hin).
  rewrite (Hid (k, u)) in Hv by left. cbn in Hv. rewrite Hv. apply list_elem_of_fmap. exists (k', v'). split; [|done].
  apply (Hid (k', v')). by right.
Qed.

Lemma same_key {A B} (f : A → B) l x y : NoDup (f <$> l) → x ∈ l → y ∈ l → f x = f y → x = y.
Proof.
  intros Hd [i Hi]%list_elem_of_lookup [j Hj]%list_elem_of_lookup E.
  assert (i = j) as ->; [|congruence]. eapply NoDup_lookup; [done|by apply list_lookup_fmap_Some; eauto|by apply list_lookup_fmap_Some; eauto].
Qed.

(** What a run has done to the tables by the time it looks for who left: an
account only ever gains [StatusActive], and that when the provider had taken it. *)
Record base_ok (p : Opened) (w0 w : world (R := R)) : Prop := {
  bo_wf : wf (udb w);
  bo_rest : sdb w = sdb w0 ∧ gw w = gw w0;
  bo_rows j r0 : users (udb w0) !! j = Some r0 → ∃ r, users (udb w) !! j = Some r ∧ Roles r = Roles r0 ∧
    (Status_ r = Status_ r0 ∧ DirectoryRemovedAt r = DirectoryRemovedAt r0 ∨
     returned r0 = true ∧ IdPID r0 = pID p ∧ Status_ r = StatusActive);
}.

(** A pointer [u] of the run, the row [u0] it was read from and the row [r] it is
now. *)
Definition tracks (p : Opened) (u0 u r : User) : Prop :=
  IdPID u0 = pID p ∧ ExternalID u = ExternalID u0 ∧ Roles u = Roles u0 ∧
  Status_ r = Status_ u ∧ DirectoryRemovedAt r = DirectoryRemovedAt u ∧ Roles r = Roles u ∧
  (ExternalID u ≠ "" → IdPID r = pID p ∧ ExternalID r = ExternalID u) ∧
  (Status_ u = Status_ u0 ∧ DirectoryRemovedAt u = DirectoryRemovedAt u0 ∨ returned u0 = true ∧ Status_ u = StatusActive).

Record ptr_ok (p : Opened) (w0 w : world (R := R)) (us : list User) : Prop := {
  pt_ids : ID <$> us = ID <$> ListByIdP (pID p) (udb w0);
  pt_row u : u ∈ us → ∃ u0 r, users (udb w0) !! ID u = Some u0 ∧ users (udb w) !! ID u = Some r ∧ tracks p u0 u r;
}.

(** * One person *)

Lemma Return_effect now u w r : wf (udb w) → users (udb w) !! ID u = Some r →
  Status_ r = Status_ u → DirectoryRemovedAt r = DirectoryRemovedAt u →
  let '(back, w') := Return u now w in
  back = returned r ∧ wf (udb w') ∧ sdb w' = sdb w ∧ gw w' = gw (R := R) w ∧
  users (udb w') = <[ID u := if returned r then with_status StatusActive None now r else r]> (users (udb w)).
Proof.
  intros Hwf Hr Hst Hrm. unfold Return, returned, EnableReturned. rewrite Hr, <-Hst, <-Hrm, <-negb_andb.
  assert (ID r = ID u) as Hid by (by destruct (wf_rows _ Hwf _ _ Hr)).
  destruct (bool_decide (Status_ r = StatusDisabled) && _) eqn:E; cbn [negb].
  - split_and!; [done| |done|done|cbn; by rewrite Hid]. pose proof (Users.exec1_wf (OEnableReturned now (ID u)) (udb w) Hwf) as H.
    cbn [Users.exec1] in H. unfold EnableReturned in H. by rewrite Hr, E in H.
  - split_and!; try done. by rewrite insert_id.
Qed.

(** The row is kept in step with the pointer: enabled together, nothing else of
the account's rights changed. *)
Definition in_step (r r' : User) : Prop :=
  Roles r' = Roles r ∧ IdPID r' = IdPID r ∧ ExternalID r' = ExternalID r ∧ returned r' = false ∧
  (Status_ r' = Status_ r ∧ DirectoryRemovedAt r' = DirectoryRemovedAt r ∨ returned r = true ∧ Status_ r' = StatusActive ∧ DirectoryRemovedAt r' = None).

Lemma in_step_rights r r' r2 : in_step r r' → same_rights r' r2 → IdPID r2 = IdPID r' → ExternalID r2 = ExternalID r' → in_step r r2.
Proof. unfold in_step, returned. intros (? & ? & ? & H1 & H2) (_ & _ & -> & _ & -> & _ & ->) -> ->. done. Qed.

Lemma keep_effect now u id w st res w' st' r : wf (udb w) → users (udb w) !! ID u = Some r →
  Status_ r = Status_ u → DirectoryRemovedAt r = DirectoryRemovedAt u → keep now u id w st = (res, w', st') →
  wf (udb w') ∧ sdb w' = sdb w ∧ gw w' = gw w ∧ Disabled st' = Disabled st ∧
  ∃ r', users (udb w') = <[ID u := r']> (users (udb w)) ∧ in_step r r' ∧
    ∀ u', res = Ok u' → ID u' = ID u ∧ ExternalID u' = ExternalID u ∧ Roles u' = Roles u ∧ Status_ u' = Status_ r' ∧ DirectoryRemovedAt u' = DirectoryRemovedAt r'.
Proof.
  intros Hwf Hr Hst Hrm H. unfold keep in H. pose proof (Return_effect now u w r Hwf Hr Hst Hrm) as HR.
  destruct (Return u now w) as [back w1]. destruct HR as (-> & Hwf1 & Hs1 & Hg1 & Hu1).
  set (r1 := if returned r then with_status StatusActive None now r else r) in *.
  set (u1 := if returned r then with_status StatusActive None (UpdatedAt u) u else u) in *.
  set (st1 := if returned r then bump 0 0 0 1 0 st else st) in *.
  assert (in_step r r1) as Hin by (unfold in_step, r1; destruct (returned r) eqn:E; split_and!; by auto).
  assert (ID u1 = ID u ∧ ExternalID u1 = ExternalID u ∧ Roles u1 = Roles u ∧ Status_ u1 = Status_ r1 ∧ DirectoryRemovedAt u1 = DirectoryRemovedAt r1) as (E1 & E2 & E3 & E4 & E5)
    by (unfold u1, r1; destruct (returned r); by split_and!).
  assert (Disabled st1 = Disabled st) as Ed by (unfold st1; by destruct (returned r)).
  assert (users (udb w1) !! ID u1 = Some r1) as Hr1 by (rewrite Hu1, E1; apply lookup_insert_eq).
  rewrite <-E1 in Hu1. destruct (_ || _).
  - set (n := firstNonEmpty _ _) in H. set (e := firstNonEmpty _ _) in H. rewrite E4 in H.
    destruct (Update_effect now (ID u1) n e (udb w1) r1 Hwf1 Hr1) as (_ & _ & r2 & Hu2 & Hs2 & F1 & F2).
    pose proof (Users.exec1_wf (OUpdate now (ID u1) n e (Status_ r1)) (udb w1) Hwf1) as Hwf2. cbn [Users.exec1] in Hwf2.
    pose proof (in_step_rights _ _ _ Hin Hs2 F1 F2) as Hin2. destruct Hs2 as (_ & _ & _ & _ & G1 & _ & G2).
    assert (∀ x, udb x = (Users.Update now (ID u1) n e (Status_ r1) (udb w1)).2 → sdb x = sdb w1 → gw x = gw w1 →
      wf (udb x) ∧ sdb x = sdb w ∧ gw x = gw w ∧ ∃ r', users (udb x) = <[ID u := r']> (users (udb w)) ∧ in_step r r' ∧
      (ID u1 = ID u ∧ ExternalID u1 = ExternalID u ∧ Roles u1 = Roles u ∧ Status_ u1 = Status_ r' ∧ DirectoryRemovedAt u1 = DirectoryRemovedAt r')) as Hx.
    { intros x -> -> ->. split_and!; [done..|]. exists r2. rewrite Hu2, Hu1, insert_insert_eq, E1. split_and!; try done; congruence. }
    destruct (Users.Update now (ID u1) n e (Status_ r1) (udb w1)) as [ru d2]. destruct (Hx (set_udb d2 w1) eq_refl eq_refl eq_refl) as (? & ? & ? & r' & ? & ? & Hp).
    destruct ru as [|e']; [|destruct e']; injection H as <- <- <-; (split_and!; [done..|exists r']; split_and!; try done; by intros ? [= <-]).
  - injection H as <- <- <-. split_and!; [done..|]. exists r1. rewrite E1 in Hu1. split_and!; [done..|]. by intros ? [= <-].
Qed.

(** Joining links an account nobody has, or makes one, or changes nothing. *)
Lemma join_effect newID now p id w st res w' st' : wf (udb w) → join newID now p id w st = (res, w', st') →
  wf (udb w') ∧ sdb w' = sdb w ∧ gw w' = gw w ∧ Disabled st' = Disabled st ∧
  (users (udb w') = users (udb w) ∨
   (∃ v, users (udb w) !! ID v = Some v ∧ free p id v ∧
         users (udb w') = <[ID v := with_link (pID p) (iExternalID id) (SCIMExternalID v) now v]> (users (udb w))) ∨
   (∃ j v', users (udb w) !! j = None ∧ users (udb w') = <[j := v']> (users (udb w)))) ∧
  (∀ a, res = Ok (Some a) → ∃ v, users (udb w) !! a = Some v ∧ free p id v).
Proof.
  intros Hwf. unfold join. destruct (negb (ValidUsername _)); [intros [= <- <- <-]; split_and!; by auto|].
  pose proof (adopt_wf now p id (udb w) Hwf) as Hwa. destruct (adopt now p id (udb w)) as [ra d] eqn:Ha. cbn in Hwa.
  apply adopt_cases in Ha as [(ea & -> & ->)|(v & Hv & Hf & _ & -> & ->)]; [| |done].
  - destruct ea as [| | | |ue]; try (intros [= <- <- <-]; cbn; split_and!; by auto).
    destruct ue; try (intros [= <- <- <-]; cbn; split_and!; by auto).
    destruct (negb (AutoProvision _)); [intros [= <- <- <-]; cbn; split_and!; by auto|].
    pose proof (create_wf newID now p id (udb w) Hwf) as Hwc. destruct (create newID now p id (udb w)) as [rc dc] eqn:Hc. cbn in Hwc.
    apply create_cases in Hc as [(ec & -> & ->)|(v & -> & Hn & _ & _ & Hu & _)].
    + destruct ec; intros [= <- <- <-]; cbn; split_and!; by auto.
    + intros [= <- <- <-]. cbn. split_and!; [done..| |done]. right. right. eauto.
  - intros [= <- <- <-]. cbn. split_and!; [done..| |].
    + right. left. exists v. done.
    + intros a [= <-]. eauto.
Qed.

(** Composing what a run has done with one more step. *)
Lemma base_ok_step p w0 w w' : base_ok p w0 w → wf (udb w') → sdb w' = sdb w → gw w' = gw w →
  (∀ j r, users (udb w) !! j = Some r → ∃ r', users (udb w') !! j = Some r' ∧ Roles r' = Roles r ∧
     (Status_ r' = Status_ r ∧ DirectoryRemovedAt r' = DirectoryRemovedAt r ∨
      returned r = true ∧ Status_ r' = StatusActive ∧ ∀ r0, users (udb w0) !! j = Some r0 → IdPID r0 = pID p)) →
  base_ok p w0 w'.
Proof.
  intros [_ [Hs Hg] Hrows] Hwf Hs' Hg' Hstep. split; [done|by rewrite Hs', Hg'|]. intros j r0 H0.
  destruct (Hrows j r0 H0) as (r & Hr & E1 & Hor). destruct (Hstep j r Hr) as (r' & Hr' & E2 & Hor'). exists r'. split_and!; [done|congruence|].
  destruct Hor as [[A1 A2]|(A1 & A2 & A3)], Hor' as [[B1 B2]|(B1 & B2 & B3)].
  - left. split; congruence.
  - right. split_and!; [|by apply B3|done]. unfold returned in *. by rewrite <-A1, <-A2.
  - right. split_and!; [done..|congruence].
  - right. done.
Qed.

Lemma replace_ids u us : ID <$> replace u us = ID <$> us.
Proof. unfold replace. rewrite <-list_fmap_compose. apply list_fmap_ext. intros i v _. cbn. case_bool_decide; congruence. Qed.

Lemma elem_replace u v us : v ∈ replace u us → v = u ∨ v ∈ us ∧ ID v ≠ ID u.
Proof. unfold replace. intros (x & -> & Hx)%list_elem_of_fmap. case_bool_decide; by auto. Qed.

Lemma byExternal_Some ext us u : byExternal ext us = Some u → u ∈ us ∧ ExternalID u = ext.
Proof.
  unfold byExternal. intros [Hin Hc%bool_decide_eq_true]%List.find_some. split; [|done]. by apply list_elem_of_In, in_rev.
Qed.

Lemma byExternal_None ext us u : byExternal ext us = None → u ∈ us → ExternalID u ≠ ext.
Proof.
  unfold byExternal. intros H Hu. apply list_elem_of_In, in_rev in Hu. apply (List.find_none _ _ H) in Hu.
  by apply bool_decide_eq_false in Hu.
Qed.

(** * The loop over the people *)

(** Where the loop stands after the people [past]. *)
Record pass_ok (p : Opened) (w0 : world (R := R)) (past : list Identity) (s : pass) : Prop := {
  ps_base : base_ok p w0 (rw s);
  ps_ptr : ptr_ok p w0 (rw s) (linked s);
  ps_seen x : x ∈ seen s ↔ x ≠ "" ∧ ∃ id, id ∈ past ∧ iExternalID id = x;
  ps_kept u : u ∈ linked s → ExternalID u ≠ "" → ID u ∈ kept s ↔ ExternalID u ∈ seen s;
  ps_back u : u ∈ linked s → ExternalID u ≠ "" → ExternalID u ∈ seen s → returned u = false;
  ps_disabled : Disabled (rst s) = 0%nat;
}.

(** Two accounts a run read are not the same subject. *)
Lemma ptr_unique p w0 w us u v : wf (udb w) → pID p ≠ "" → ptr_ok p w0 w us → u ∈ us → v ∈ us →
  ExternalID u ≠ "" → ExternalID v = ExternalID u → ID v = ID u.
Proof.
  intros Hwf Hp [_ Hrow] Hu Hv He E. destruct (Hrow u Hu) as (u0 & r & _ & Hr & T), (Hrow v Hv) as (v0 & q & _ & Hq & T').
  destruct T as (_ & _ & _ & _ & _ & _ & HL & _), T' as (_ & _ & _ & _ & _ & _ & HL' & _).
  destruct (HL He) as [L1 L2], (HL' ltac:(congruence)) as [L3 L4]. apply (wf_unique _ Hwf _ _ q r); [done..|].
  unfold clash. rewrite L1, L2, L3, L4, E. rewrite !(bool_decide_eq_false_2 _ Hp), (bool_decide_eq_false_2 _ He).
  rewrite (bool_decide_eq_true_2 (pID p = pID p)), (bool_decide_eq_true_2 (ExternalID u = ExternalID u)) by done.
  by rewrite !orb_true_r.
Qed.

(** A listed person with an account. *)
Lemma kept_ok p w0 past s id u r w st now : wf (udb w0) → pID p ≠ "" → pass_ok p w0 past s → iExternalID id ≠ "" → iExternalID id ∉ seen s →
  byExternal (iExternalID id) (linked s) = Some u → keep now u id (rw s) (rst s) = (r, w, st) →
  base_ok p w0 w ∧ Disabled st = 0%nat ∧
  ∀ u', r = Ok u' → pass_ok p w0 (past ++ [id])
    {| rw := w; rst := st; linked := replace u' (linked s); seen := iExternalID id :: seen s; kept := ID u :: kept s |}.
Proof.
  intros Hwf0 Hp [Hb Hptr Hseen Hkept Hback Hdis] He Hns Hby Hk. apply byExternal_Some in Hby as [Hu Hext].
  destruct (pt_row _ _ _ _ Hptr u Hu) as (u0 & q & H0 & Hq & T). pose proof T as (T1 & T2 & T3 & T4 & T5 & T6 & T7 & T8).
  destruct (keep_effect now u id (rw s) (rst s) r w st q (bo_wf _ _ _ Hb) Hq T4 T5 Hk) as (Hwf & Hs & Hg & Hd & q' & Hus & (I1 & I2 & I3 & I4 & I5) & Hptr').
  assert (base_ok p w0 w) as Hb'.
  { apply (base_ok_step p w0 (rw s)); [done..|]. intros j x Hx. rewrite Hus. destruct (decide (j = ID u)) as [->|Hne];
      [rewrite lookup_insert_eq|rewrite lookup_insert_ne by done; exists x; by auto]. assert (x = q) as -> by congruence. exists q'. split_and!; [done..|].
    destruct I5 as [?|(? & ? & _)]; [by left|]. right. split_and!; [done..|]. intros r0 Hr0. congruence. }
  split_and!; [done|congruence|]. intros u' Hr. destruct (Hptr' u' Hr) as (P1 & P2 & P3 & P4 & P5). split; cbn [rw linked seen kept rst]; [done| | | | |congruence].
  - split; [rewrite replace_ids; apply Hptr|]. intros v [->|[Hv Hne]]%elem_replace.
    + exists u0, q'. rewrite Hus, P1, lookup_insert_eq. split_and!; [done..|]. unfold tracks. rewrite P2, P3. split_and!; try congruence.
      * intros Hx. destruct (T7 Hx). split; congruence.
      * destruct I5 as [[? ?]|(Hret & ? & _)]; [destruct T8 as [[? ?]|[? ?]]; [left|right]; split; congruence|].
        destruct T8 as [[A1 A2]|[A1 A2]]; [|unfold returned in Hret; rewrite T4, A2 in Hret; done].
        right. split; [|congruence]. unfold returned in *. by rewrite <-A1, <-A2, <-T4, <-T5.
    + destruct (pt_row _ _ _ _ Hptr v Hv) as (v0 & x & ? & Hx & ?). exists v0, x. rewrite Hus, lookup_insert_ne by congruence. done.
  - intros x. rewrite elem_of_cons, Hseen. setoid_rewrite elem_of_app. setoid_rewrite list_elem_of_singleton. split; [naive_solver|].
    intros (Hx & i & [Hi| ->] & <-); [right; eauto|by left].
  - intros v Hv Hve. rewrite !elem_of_cons. apply elem_replace in Hv as [->|[Hv Hne]].
    + rewrite P1, P2, Hext. split; intros _; by left.
    + rewrite (Hkept v Hv Hve). split; (intros [E|E]; [|by right]); [congruence|]. exfalso. apply Hne. rewrite P1.
      apply (ptr_unique p w0 (rw s) (linked s)); [apply Hb|done..|congruence|congruence].
  - intros v Hv Hve Hin. apply elem_replace in Hv as [->|[Hv Hne]].
    + unfold returned. rewrite P4, P5. exact I4.
    + apply (Hback v Hv Hve). apply elem_of_cons in Hin as [E|?]; [|done]. exfalso. apply Hne. rewrite P1.
      apply (ptr_unique p w0 (rw s) (linked s)); [apply Hb|done..|congruence|congruence].
Qed.

(** A listed person without one. *)
Lemma joined_ok p w0 past s id r w st newID now : pID p ≠ "" → pass_ok p w0 past s → iExternalID id ≠ "" → iExternalID id ∉ seen s →
  byExternal (iExternalID id) (linked s) = None → join newID now p id (rw s) (rst s) = (r, w, st) →
  pass_ok p w0 (past ++ [id]) {| rw := w; rst := st; linked := linked s; seen := iExternalID id :: seen s;
                                 kept := match r with Ok (Some a) => a :: kept s | _ => kept s end |}.
Proof.
  intros Hp [Hb Hptr Hseen Hkept Hback Hdis] He Hns Hby Hj.
  destruct (join_effect newID now p id (rw s) (rst s) r w st (bo_wf _ _ _ Hb) Hj) as (Hwf & Hs & Hg & Hd & Hus & Ha).
  assert (∀ u, u ∈ linked s → ExternalID u ≠ "" → ∀ v, users (udb (rw s)) !! ID u = Some v → ¬ free p id v) as Hnf.
  { intros u Hu Hue v Hv (_ & _ & Hf). destruct (pt_row _ _ _ _ Hptr u Hu) as (u0 & q & _ & Hq & (_ & _ & _ & _ & _ & _ & T7 & _)).
    assert (v = q) as -> by congruence. destruct (T7 Hue). destruct Hf as [?|[_ ?]]; congruence. }
  assert (∀ j x, users (udb (rw s)) !! j = Some x → ∃ x', users (udb w) !! j = Some x' ∧ Roles x' = Roles x ∧ Status_ x' = Status_ x ∧
    DirectoryRemovedAt x' = DirectoryRemovedAt x ∧ (x' = x ∨ free p id x)) as Hrows.
  { intros j x Hx. destruct Hus as [->|[(v & Hv & Hf & ->)|(j' & v' & Hn & ->)]].
    - exists x. split_and!; by auto.
    - destruct (decide (j = ID v)) as [->|Hne]; [|rewrite lookup_insert_ne by done; exists x; split_and!; by auto].
      assert (x = v) as -> by congruence. rewrite lookup_insert_eq. eexists. split_and!; [done..|]. by right.
    - destruct (decide (j = j')) as [->|Hne]; [congruence|]. rewrite lookup_insert_ne by done. exists x. split_and!; by auto. }
  split; cbn [rw linked seen kept rst]; [| | | | |congruence].
  - apply (base_ok_step p w0 (rw s)); [done..|]. intros j x Hx. destruct (Hrows j x Hx) as (x' & ? & ? & ? & ? & _). exists x'. split_and!; by auto.
  - split; [apply Hptr|]. intros u Hu. destruct (pt_row _ _ _ _ Hptr u Hu) as (u0 & q & H0 & Hq & T). destruct (Hrows _ _ Hq) as (q' & Hq' & E1 & E2 & E3 & Hor).
    exists u0, q'. split_and!; [done..|]. destruct T as (? & ? & ? & ? & ? & ? & T7 & ?). unfold tracks. split_and!; try congruence.
    intros Hue. destruct Hor as [->|Hf]; [by apply T7|]. by destruct (Hnf u Hu Hue q Hq).
  - intros x. rewrite elem_of_cons, Hseen. setoid_rewrite elem_of_app. setoid_rewrite list_elem_of_singleton. split; [naive_solver|].
    intros (Hx & i & [Hi| ->] & <-); [right; eauto|by left].
  - intros u Hu Hue. rewrite elem_of_cons, <-(Hkept u Hu Hue). pose proof (byExternal_None _ _ _ Hby Hu) as Hne.
    assert (ID u ∈ match r with Ok (Some a) => a :: kept s | _ => kept s end ↔ ID u ∈ kept s) as ->; [|naive_solver].
    destruct r as [[a|]|]; [|done..]. rewrite elem_of_cons. split; [|by auto]. intros [E|?]; [|done]. exfalso.
    destruct (Ha a eq_refl) as (v & Hv & Hf). rewrite <-E in Hv. by apply (Hnf u Hu Hue v).
  - intros u Hu Hue [E|Hin]%elem_of_cons; [|by apply Hback]. by destruct (byExternal_None _ _ _ Hby Hu).
Qed.

Lemma skipped_ok p w0 past s id : pass_ok p w0 past s → iExternalID id = "" ∨ iExternalID id ∈ seen s → pass_ok p w0 (past ++ [id]) s.
Proof.
  intros [Hb Hptr Hseen Hkept Hback Hdis] Hor. split; try done. intros x. rewrite Hseen. setoid_rewrite elem_of_app. setoid_rewrite list_elem_of_singleton.
  split; [naive_solver|]. intros (Hx & i & [Hi| ->] & <-); [by eauto|]. destruct Hor as [?|Hin]; [done|]. by apply Hseen in Hin.
Qed.

Lemma people_ok p w0 newID now ids : wf (udb w0) → pID p ≠ "" → ∀ past s e s', pass_ok p w0 past s → people_loop newID now p ids s = (e, s') →
  base_ok p w0 (rw s') ∧ Disabled (rst s') = 0%nat ∧ (e = None → pass_ok p w0 (past ++ ids) s').
Proof.
  intros Hwf0 Hp. induction ids as [|id ids IH]; intros past s e s' Hs; cbn [people_loop].
  { intros [= <- <-]. rewrite app_nil_r. by destruct Hs. }
  rewrite cons_middle, app_assoc. unfold person. destruct (bool_decide _ || bool_decide _) eqn:Eb.
  { apply IH, skipped_ok; [done|]. apply orb_true_iff in Eb as [?%bool_decide_eq_true|?%bool_decide_eq_true]; by auto. }
  apply orb_false_iff in Eb as [He%bool_decide_eq_false Hns%bool_decide_eq_false]. destruct (byExternal _ _) as [u|] eqn:Hby.
  - destruct (keep now u id (rw s) (rst s)) as [[r w] st] eqn:Hk. destruct (kept_ok _ _ _ _ _ _ _ _ _ _ Hwf0 Hp Hs He Hns Hby Hk) as (Hb & Hd & Hok).
    destruct r as [u'|er]; [by apply IH, Hok|]. intros [= <- <-]. by split_and!.
  - destruct (join _ now p id (rw s) (rst s)) as [[r w] st] eqn:Hj. pose proof (joined_ok _ _ _ _ _ _ _ _ _ _ Hp Hs He Hns Hby Hj) as Hok.
    destruct r as [a|er]; [by apply IH|]. intros [= <- <-]. split_and!; [apply Hok|apply Hok|done].
Qed.

(** * Who left *)

(** No other account is an active administrator. *)
Definition only_admin (id : string) (d : DB) : Prop := ∀ j v, users d !! j = Some v → active_admin v = true → j = id.

Lemma count_one d id v : users d !! id = Some v → active_admin v = true → (CountAdmins d ≤ 1)%nat → only_admin id d.
Proof.
  intros Hv Ha Hc j u Hu Hau. destruct (decide (j = id)) as [|Hne]; [done|exfalso].
  assert (2 ≤ CountAdmins d)%nat; [|lia]. unfold CountAdmins.
  set (l := List.filter _ _). assert ((id, v) ∈ l ∧ (j, u) ∈ l) as [H1 H2].
  { unfold l. rewrite !list_elem_of_In, !filter_In, <-!list_elem_of_In, !elem_of_map_to_list. done. }
  destruct l as [|x [|y l]]; [by apply not_elem_of_nil in H1| |cbn; lia].
  apply list_elem_of_singleton in H1, H2. congruence.
Qed.

(** The account is disabled and marked, its sign-ins are over, unless the
database fails the write that ends them, and its live sessions told to end. *)
Definition taken_away (id : string) (w : world (R := R)) : Prop :=
  (∃ r, users (udb w) !! id = Some r ∧ Status_ r = StatusDisabled ∧ is_Some (DirectoryRemovedAt r)) ∧
  (sdown w id = false → ∀ i s, sdb w !! i = Some s → user_id s = id → is_Some (revoked_at s)) ∧
  (∀ g, gw w = Some g → running id g = ∅).

Lemma Leave_effect u at_ w r : wf (udb w) → (∀ g, gw w = Some g → reached g) → users (udb w) !! ID u = Some r →
  Status_ r = StatusActive → Status_ u = StatusActive → Roles r = Roles u →
  (Leave u at_ w = (Err IdpLastAdmin, w) ∧ active_admin r = true ∧ only_admin (ID u) (udb w)) ∨
  ∃ n w', Leave u at_ w = (Ok (true, n), w') ∧ wf (udb w') ∧ (∀ g, gw w' = Some g → reached g) ∧
    users (udb w') = <[ID u := with_status StatusDisabled (Some (TimeArg at_)) at_ r]> (users (udb w)) ∧
    taken_away (ID u) w' ∧ shut_out (ID u) w w'.
Proof.
  intros Hwf Hg Hr Hst Hu Hro. unfold Leave. rewrite bool_decide_eq_true_2 by done. cbn [negb]. unfold HasRole. rewrite <-Hro. fold (HasRole r RoleAdmin).
  destruct (HasRole r RoleAdmin && (CountAdmins (udb w) <=? 1)%nat) eqn:El.
  { left. apply andb_true_iff in El as [Ha Hc%Nat.leb_le]. assert (active_admin r = true) as Haa.
    { unfold active_admin. by rewrite bool_decide_eq_true_2, Ha. }
    split_and!; [done..|]. by eapply count_one. }
  right. pose proof (Users.exec1_wf (ODisableRemoved at_ (ID u)) (udb w) Hwf) as Hwf'. cbn [Users.exec1] in Hwf'.
  unfold DisableRemoved in *. rewrite Hr, bool_decide_eq_true_2 in * by done. assert (ID r = ID u) as Hid by (by destruct (wf_rows _ Hwf _ _ Hr)).
  eexists _, _. split; [done|]. cbn [snd] in Hwf'. 
  match goal with |- context [set_udb ?d w] => destruct (signed_out_rest at_ (ID u) d w) as (Eu & Eg & Ed); destruct (signed_out at_ (ID u) d w Hg) as [Hsh _] end.
  set (w' := endLive _ _) in *.
  assert (∀ g, gw w' = Some g → reached g) as Hg'.
  { rewrite Eg. destruct (gw w) as [g|]; [|done]. cbn. intros ? [= <-]. by apply UserRevoked_reached, Hg. }
  split_and!; [by rewrite Eu|done|rewrite Eu; cbn; by rewrite Hid| |done]. split_and!.
  - rewrite Eu. cbn. rewrite Hid. eexists. rewrite lookup_insert_eq. split_and!; [done..|]. by eexists.
  - rewrite Ed. apply Hsh.
  - destruct Hsh as (_ & _ & _ & Hgw). intros g E. rewrite E in Hgw. destruct (gw w); [apply Hgw|done].
Qed.

(** Somebody else's departure leaves an account taken away as it is. *)
Lemma taken_away_stays id id' w w' : id ≠ id' → taken_away id w → shut_out id' w w' →
  users (udb w') !! id = users (udb w) !! id → taken_away id w'.
Proof.
  intros Hne (Hr & Hs & Hg) (S0 & S1 & S2 & S3) Hu. split_and!; [by rewrite Hu| |].
  - rewrite S0. intros Hd i s Hi E. apply (Hs Hd i); [|done]. apply S2; [congruence|done].
  - intros g E. rewrite E in S3. destruct (gw w) as [g0|]; [|done]. destruct S3 as [_ S3]. rewrite S3 by done. by apply Hg.
Qed.

Lemma only_admin_stays id j r at_ (w w' : world (R := R)) : only_admin id (udb w) →
  users (udb w') = <[j := with_status StatusDisabled (Some (TimeArg at_)) at_ r]> (users (udb w)) → only_admin id (udb w').
Proof. intros H E k v. rewrite E, lookup_insert_Some. intros [[<- <-]|[_ Hv]] Ha; [done|by eapply H]. Qed.

(** Everybody who left is taken away, unless they are the only administrator. *)
Lemma leave_all at_ us : ∀ w st w' st', NoDup (ID <$> us) → wf (udb w) → (∀ g, gw w = Some g → reached g) →
  (∀ u, u ∈ us → Status_ u = StatusActive ∧ ∃ r, users (udb w) !! ID u = Some r ∧ Status_ r = StatusActive ∧ Roles r = Roles u) →
  foldl (leave_one at_) (w, st) us = (w', st') →
  (∀ j, j ∉ ID <$> us → users (udb w') !! j = users (udb w) !! j ∧ (taken_away j w → taken_away j w')) ∧
  (∀ j, only_admin j (udb w) → only_admin j (udb w')) ∧
  (∀ u, u ∈ us → taken_away (ID u) w' ∨
     ∃ r, users (udb w') !! ID u = Some r ∧ Status_ r = StatusActive ∧ active_admin r = true ∧ only_admin (ID u) (udb w')).
Proof.
  induction us as [|u us IH]; intros w st w' st' Hnd Hwf Hg Hus; cbn [foldl].
  { intros [= <- <-]. split_and!; [done..|]. by intros ? ?%not_elem_of_nil. }
  rewrite fmap_cons in Hnd. apply NoDup_cons in Hnd as [Hni Hnd]. destruct (Hus u ltac:(left)) as (Hact & r & Hr & Hra & Hro).
  unfold leave_one at 2. destruct (Leave_effect u at_ w r Hwf Hg Hr Hra Hact Hro) as [(-> & Haa & Hoa)|(n & w1 & -> & Hwf1 & Hg1 & Hu1 & Hta & Hsh)].
  - intros Hf. destruct (IH _ _ _ _ Hnd Hwf Hg ltac:(intros; apply Hus; by right) Hf) as (I1 & I2 & I3). split_and!; [|done|].
    + intros j Hj. apply I1. rewrite fmap_cons in Hj. by apply not_elem_of_cons in Hj as [_ ?].
    + intros v [->|Hv]%elem_of_cons; [|by apply I3]. right. exists r. destruct (I1 _ Hni) as [-> _]. split_and!; [done..|]. by apply I2.
  - intros Hf. assert (∀ j, j ≠ ID u → users (udb w1) !! j = users (udb w) !! j) as Hoth by (intros j Hj; by rewrite Hu1, lookup_insert_ne).
    destruct (λ H, IH _ _ _ _ Hnd Hwf1 Hg1 H Hf) as (I1 & I2 & I3).
    { intros v Hv. rewrite Hoth; [apply Hus; by right|]. intros E. apply Hni. rewrite <-E. by apply list_elem_of_fmap_2. }
    split_and!.
    + intros j Hj. rewrite fmap_cons in Hj. apply not_elem_of_cons in Hj as [Hj Hj']. destruct (I1 j Hj') as [-> I1']. rewrite Hoth by done.
      split; [done|]. intros Ht. apply I1'. by apply (taken_away_stays j (ID u) w); [| | |apply Hoth].
    + intros j Hj. apply I2. by eapply only_admin_stays.
    + intros v [->|Hv]%elem_of_cons; [|by apply I3]. left. by apply (I1 _ Hni).
Qed.

Lemma start_ok p (w : world (R := R)) listed : wf (udb w) →
  pass_ok p w [] {| rw := w; rst := noStatus listed; linked := ListByIdP (pID p) (udb w); seen := []; kept := [] |}.
Proof.
  intros Hwf. split; cbn; [| | | | |done].
  - split; [done..|]. intros j r0 H0. exists r0. split_and!; by auto.
  - split; [done|]. intros u [Hu Hi]%ListByIdP_elem; [|done]. exists u, u. split_and!; [done..|]. unfold tracks. split_and!; by auto.
  - intros x. split; [by intros ?%not_elem_of_nil|]. by intros (_ & ? & ?%not_elem_of_nil & _).
  - intros u _ _. split; by intros ?%not_elem_of_nil.
  - by intros u _ _ ?%not_elem_of_nil.
Qed.

(** The pointers of those who left are rows that are active. *)
Lemma gone_ok p w0 past s : wf (udb w0) → pass_ok p w0 past s →
  NoDup (ID <$> gone s) ∧
  (∀ u, u ∈ gone s → Status_ u = StatusActive ∧ ∃ r, users (udb (rw s)) !! ID u = Some r ∧ Status_ r = StatusActive ∧ Roles r = Roles u) ∧
  (∀ u, u ∈ gone s ↔ u ∈ linked s ∧ Status_ u = StatusActive ∧ ID u ∉ kept s).
Proof.
  intros Hwf0 Hs. assert (∀ u, u ∈ gone s ↔ u ∈ linked s ∧ Status_ u = StatusActive ∧ ID u ∉ kept s) as Hg.
  { intros u. unfold gone, is_active. rewrite list_elem_of_In, filter_In, <-list_elem_of_In, andb_true_iff, negb_true_iff, bool_decide_eq_true, bool_decide_eq_false. done. }
  split_and!; [| |done].
  - assert (NoDup (ID <$> linked s)) as Hd by (rewrite (pt_ids _ _ _ _ (ps_ptr _ _ _ _ Hs)); by apply ListByIdP_NoDup).
    clear Hs Hg. unfold gone. induction (linked s) as [|u us IH]; [apply NoDup_nil_2|]. rewrite fmap_cons in Hd. apply NoDup_cons in Hd as [Hn Hd].
    cbn [List.filter]. destruct (_ && _); [|by apply IH]. rewrite fmap_cons. apply NoDup_cons. split; [|by apply IH]. intros (v & Hv & Hin)%list_elem_of_fmap.
    apply Hn. rewrite Hv. apply list_elem_of_fmap_2. by apply list_elem_of_In, filter_In, proj1, list_elem_of_In in Hin.
  - intros u (Hu & Ha & _)%Hg. split; [done|]. destruct (pt_row _ _ _ _ (ps_ptr _ _ _ _ Hs) u Hu) as (u0 & r & _ & Hr & (_ & _ & _ & ? & _ & ? & _)).
    exists r. split_and!; [done|congruence|done].
Qed.

Lemma leave_cases force at_ listed s w st : leave force at_ listed s = (w, st) →
  (w = rw s ∧ (gone s = [] ∨ HeldReason st = Some ListedNoOne ∨ HeldReason st = Some TooMany)) ∨
  (foldl (leave_one at_) (rw s, rst s) (gone s) = (w, st) ∧
   (force = false → listed ≠ 0%nat ∧ (length (gone s) ≤ 3 ∨ 2 * length (gone s) ≤ length (List.filter is_active (linked s)))%nat)).
Proof.
  unfold leave. destruct (length (gone s) =? 0)%nat eqn:E0; [intros [= <- <-]; left; split; [done|]; left; apply Nat.eqb_eq in E0; by destruct (gone s)|].
  destruct ((listed =? 0)%nat && negb force) eqn:E1; [intros [= <- <-]; left; by auto|].
  destruct (negb force && _ && _) eqn:E2; [intros [= <- <-]; left; by auto|]. intros Hf. right. split; [done|]. intros ->. cbn [negb] in *.
  rewrite andb_true_r in E1. cbn [andb] in E2. split; [by apply Nat.eqb_neq in E1|]. apply andb_false_iff in E2 as [E2%Nat.ltb_ge|E2%Nat.ltb_ge]; [by left|by right].
Qed.

(** The listing names the account's subject. *)
Definition listed (people : list Identity) (u : User) : Prop := ExternalID u ∈ iExternalID <$> people.

(** A pointer of the run for every account of the provider. *)
Lemma pointer_of p w0 past s u : wf (udb w0) → pass_ok p w0 past s → users (udb w0) !! ID u = Some u → IdPID u = pID p →
  ∃ v r, v ∈ linked s ∧ ID v = ID u ∧ users (udb (rw s)) !! ID u = Some r ∧ tracks p u v r.
Proof.
  intros Hwf0 Hs Hu Hp. assert (ID u ∈ ID <$> linked s) as (v & E & Hv)%list_elem_of_fmap.
  { rewrite (pt_ids _ _ _ _ (ps_ptr _ _ _ _ Hs)). apply list_elem_of_fmap_2. by apply ListByIdP_elem. }
  destruct (pt_row _ _ _ _ (ps_ptr _ _ _ _ Hs) v Hv) as (u0 & r & H0 & Hr & T). exists v, r. rewrite <-E in H0, Hr.
  assert (u0 = u) as -> by congruence. done.
Qed.

(** A finished run leaves the provider's accounts as its directory has them.
After a run that listed the directory whole and was not held back, of the accounts
bound to a subject at the provider: one whose person is listed is active, if it
was or if the provider had taken it away before; an active one whose person is not
listed is disabled and marked, its live sessions ended and its sign-ins too, where
the database takes that write, unless it is the only active administrator left, who stays; and one an administrator
disabled or locked keeps that status, listed or not. *)
Theorem sync_settles order newID now at_ force p people w st w' :
  wf (udb w) → (∀ g, gw w = Some g → reached g) → pID p ≠ "" → (∀ l, order l ≡ₚ l) →
  sync order newID now at_ force true p (Some people) w = (None, st, w') →
  HeldReason st ≠ Some ListedNoOne → HeldReason st ≠ Some TooMany →
  ∀ u, users (udb w) !! ID u = Some u → IdPID u = pID p → ExternalID u ≠ "" →
  (listed people u → Status_ u = StatusActive ∨ returned u = true → ∃ u', users (udb w') !! ID u = Some u' ∧ Status_ u' = StatusActive) ∧
  (¬ listed people u → Status_ u = StatusActive → taken_away (ID u) w' ∨
     ∃ u', users (udb w') !! ID u = Some u' ∧ Status_ u' = StatusActive ∧ active_admin u' = true ∧ only_admin (ID u) (udb w')) ∧
  (Status_ u ≠ StatusActive → returned u = false → ∃ u', users (udb w') !! ID u = Some u' ∧ Status_ u' = Status_ u).
Proof.
  intros Hwf Hg Hp Hord. unfold sync. cbn [negb orb]. destruct (SyncUsers (Conf p)); [|done]. cbn [negb].
  destruct (people_loop _ _ _ _ _) as [e s] eqn:Hl. destruct (people_ok p w newID now _ Hwf Hp [] _ e s (start_ok p w (length people) Hwf) Hl) as (Hb & _ & Hok).
  destruct e as [|]; [done|]. destruct (leave force at_ (length people) s) as [w1 st1] eqn:Hlv. intros [= <- <-] Hh1 Hh2 u Hu Hi He.
  specialize (Hok eq_refl). cbn [app] in Hok. destruct (pointer_of p w _ s u Hwf Hok Hu Hi) as (v & r & Hv & Ev & Hr & T).
  pose proof T as (T1 & T2 & T3 & T4 & T5 & T6 & T7 & T8). destruct (gone_ok p w _ s Hwf Hok) as (Hnd & Hact & Hgone).
  assert (ID u ∈ kept s ↔ listed people u) as Hk.
  { rewrite <-Ev, (ps_kept _ _ _ _ Hok v Hv) by congruence. rewrite (ps_seen _ _ _ _ Hok), T2. unfold listed. rewrite list_elem_of_fmap.
    setoid_rewrite (Hord people). naive_solver. }
  assert (∀ j, j ∉ ID <$> gone s → users (udb w1) !! j = users (udb (rw s)) !! j) as Hother.
  { destruct (leave_cases _ _ _ _ _ _ Hlv) as [[-> _]|[Hf _]]; [done|]. intros j Hj.
    destruct Hb as [Hwf' [_ Hgw] _]. rewrite <-Hgw in Hg. by apply (leave_all at_ (gone s) _ _ _ _ Hnd Hwf' Hg Hact Hf). }
  assert (∀ x, x ∈ linked s → ID x = ID u → x = v) as Huniq.
  { intros x Hx E. assert (NoDup (ID <$> linked s)) as Hd by (rewrite (pt_ids _ _ _ _ (ps_ptr _ _ _ _ Hok)); by apply ListByIdP_NoDup).
    by apply (same_key ID (linked s)); [| | |congruence]. }
  split_and!.
  - intros Hlist Hor. exists r. rewrite Hother; [split; [done|]|].
    + pose proof (ps_back _ _ _ _ Hok v Hv ltac:(congruence)) as Hbk. rewrite <-(ps_kept _ _ _ _ Hok v Hv), Ev in Hbk by congruence.
      specialize (Hbk (proj2 Hk Hlist)). rewrite T4. destruct T8 as [[A1 A2]|[_ A2]]; [|done]. destruct Hor as [?|Hret]; [congruence|].
      exfalso. unfold returned in *. by rewrite A1, A2, Hret in Hbk.
    + intros (x & E & Hx)%list_elem_of_fmap. apply Hgone in Hx as (_ & _ & Hx). apply Hx. rewrite <-E. by apply Hk.
  - intros Hnl Hua. assert (v ∈ gone s) as Hvg.
    { apply Hgone. split_and!; [done| |rewrite Ev; by rewrite Hk]. destruct T8 as [[? _]|[Hret _]]; [congruence|]. unfold returned in Hret. by rewrite Hua in Hret. }
    destruct (leave_cases _ _ _ _ _ _ Hlv) as [[_ [E|[?|?]]]|[Hf _]]; [rewrite E in Hvg; by apply not_elem_of_nil in Hvg|done|done|].
    destruct Hb as [Hwf' [_ Hgw] _]. rewrite <-Hgw in Hg. rewrite <-Ev. by apply (leave_all at_ (gone s) _ _ _ _ Hnd Hwf' Hg Hact Hf).
  - intros Hna Hnr. exists r. rewrite Hother; [split; [done|]|].
    + rewrite T4. destruct T8 as [[? _]|[? _]]; congruence.
    + intros (x & E & Hx)%list_elem_of_fmap. apply Hgone in Hx as (Hx1 & Hx2 & _). rewrite (Huniq x Hx1 (eq_sym E)) in Hx2.
      destruct T8 as [[? _]|[? _]]; congruence.
Qed.

(** The accounts that were active before and are not after. *)
Definition lost (w w' : world (R := R)) : list string :=
  (List.filter (λ kv, is_active kv.2 && negb (match users (udb w') !! kv.1 with Some v => is_active v | None => false end))
     (map_to_list (users (udb w)))).*1.

Lemma lost_elem w w' j : j ∈ lost w w' ↔
  ∃ u, users (udb w) !! j = Some u ∧ Status_ u = StatusActive ∧ ∀ v, users (udb w') !! j = Some v → Status_ v ≠ StatusActive.
Proof.
  unfold lost. rewrite list_elem_of_fmap. split.
  - intros ([k u] & -> & Hin). apply list_elem_of_In, filter_In in Hin as [Hin Hc]. apply list_elem_of_In, elem_of_map_to_list in Hin.
    apply andb_true_iff in Hc as [Ha%bool_decide_eq_true Hn%negb_true_iff]. exists u. split_and!; [done..|]. cbn in *. intros v Hv. rewrite Hv in Hn.
    by apply bool_decide_eq_false in Hn.
  - intros (u & Hu & Ha & Hn). exists (j, u). split; [done|]. apply list_elem_of_In, filter_In. split; [by apply list_elem_of_In, elem_of_map_to_list|].
    cbn. unfold is_active. rewrite bool_decide_eq_true_2 by done. destruct (users (udb w') !! j) as [v|] eqn:Hv; [|done]. cbn. apply negb_true_iff, bool_decide_eq_false. by apply Hn.
Qed.

Lemma lost_NoDup w w' : NoDup (lost w w').
Proof.
  unfold lost. pose proof (NoDup_fst_map_to_list (users (udb w))) as Hd. induction (map_to_list (users (udb w))) as [|[k u] l IH]; [apply NoDup_nil_2|].
  rewrite fmap_cons in Hd. apply NoDup_cons in Hd as [Hn Hd]. cbn [List.filter]. destruct (_ && _); [|by apply IH]. rewrite fmap_cons. apply NoDup_cons.
  split; [|by apply IH]. intros (x & E & Hin)%list_elem_of_fmap. apply Hn. rewrite E. apply list_elem_of_fmap_2. by apply list_elem_of_In, filter_In, proj1, list_elem_of_In in Hin.
Qed.

(** The pointers that are active are rows that were, or that came back. *)
Lemma active_pointers p w0 past s : wf (udb w0) → pass_ok p w0 past s →
  (length (List.filter is_active (linked s)) ≤ length (List.filter (λ u, is_active u || returned u) (ListByIdP (pID p) (udb w0))))%nat.
Proof.
  intros Hwf Hs. assert (∀ u u0, u ∈ linked s → u0 ∈ ListByIdP (pID p) (udb w0) → ID u = ID u0 → is_active u = true → is_active u0 || returned u0 = true) as Hq.
  { intros u u0 Hu [H0 _]%ListByIdP_elem E Ha; [|done]. destruct (pt_row _ _ _ _ (ps_ptr _ _ _ _ Hs) u Hu) as (x & r & Hx & _ & T).
    assert (x = u0) as -> by congruence. destruct T as (_ & _ & _ & _ & _ & _ & _ & [[A _]|[A _]]); unfold is_active in *; rewrite ?A, ?orb_true_r; [|done].
    by rewrite A in Ha; rewrite Ha. }
  pose proof (pt_ids _ _ _ _ (ps_ptr _ _ _ _ Hs)) as Hids. revert Hq Hids. generalize (ListByIdP (pID p) (udb w0)). induction (linked s) as [|u us IH]; intros [|u0 us0] Hq Hids; cbn; try done.
  rewrite !fmap_cons in Hids. injection Hids as Hid Hids. specialize (IH us0 ltac:(intros ? ? ? ?; apply Hq; by right) Hids).
  destruct (is_active u) eqn:Ea; [rewrite (Hq u u0 ltac:(left) ltac:(left) Hid Ea); cbn; lia|]. destruct (_ || _); cbn; lia.
Qed.

(** C22. A directory that answers short cannot lock everybody out.  However a
scheduled run ends, the accounts it took from active are accounts of the
provider whose subject the listing does not have; they are three at most, or no
more than half of the accounts of the provider that were active or came back; and
they are none when the directory could not be listed or listed no one. *)
Theorem sync_bounded order newID now at_ has_directory p listing w e st w' :
  wf (udb w) → (∀ g, gw w = Some g → reached g) → pID p ≠ "" → (∀ l, order l ≡ₚ l) →
  sync order newID now at_ false has_directory p listing w = (e, st, w') →
  let n := length (lost w w') in
  (n ≤ 3 ∨ 2 * n ≤ length (List.filter (λ u, is_active u || returned u) (ListByIdP (pID p) (udb w))))%nat ∧
  (default [] listing = [] → n = 0%nat) ∧
  (∀ j, j ∈ lost w w' → ∃ u, users (udb w) !! j = Some u ∧ IdPID u = pID p ∧ (ExternalID u = "" ∨ ¬ listed (default [] listing) u)).
Proof.
  intros Hwf Hg Hp Hord. unfold sync.
  assert (∀ x, base_ok p w x → lost w x = []) as Hsame.
  { intros x [_ _ Hrows]. apply elem_of_nil_inv. intros j (u & Hu & Ha & Hn)%lost_elem. destruct (Hrows j u Hu) as (r & Hr & _ & [[E _]|(E & _)]).
    - apply (Hn r Hr). congruence.
    - unfold returned in E. by rewrite Ha in E. }
  assert (∀ x, lost w x = [] → (length (lost w x) ≤ 3 ∨ 2 * length (lost w x) ≤ length (List.filter (λ u, is_active u || returned u) (ListByIdP (pID p) (udb w))))%nat ∧
    (default [] listing = [] → length (lost w x) = 0%nat) ∧
    (∀ j, j ∈ lost w x → ∃ u, users (udb w) !! j = Some u ∧ IdPID u = pID p ∧ (ExternalID u = "" ∨ ¬ listed (default [] listing) u))) as Hnone.
  { intros x ->. cbn. split_and!; [lia|done|by intros ? ?%not_elem_of_nil]. }
  assert (base_ok p w w) as Hself by apply (ps_base p w [] _ (start_ok p w 0 Hwf)).
  destruct (negb has_directory || _); [intros [= <- <- <-]; by apply Hnone, Hsame|]. destruct listing as [people|]; [|intros [= <- <- <-]; by apply Hnone, Hsame].
  destruct (people_loop _ _ _ _ _) as [er s] eqn:Hl. destruct (people_ok p w newID now _ Hwf Hp [] _ er s (start_ok p w (length people) Hwf) Hl) as (Hb & _ & Hok).
  destruct er as [er|]; [intros [= <- <- <-]; by apply Hnone, Hsame|]. specialize (Hok eq_refl). cbn [app] in Hok.
  destruct (leave false at_ (length people) s) as [w1 st1] eqn:Hlv. intros [= <- <- <-].
  destruct (leave_cases _ _ _ _ _ _ Hlv) as [[-> _]|[Hf Hbound]]; [by apply Hnone, Hsame|]. destruct (Hbound eq_refl) as [Hpos Hhalf].
  destruct (gone_ok p w _ s Hwf Hok) as (Hnd & Hact & Hgone).
  assert (∀ j, j ∈ lost w w1 → j ∈ ID <$> gone s) as Hsub.
  { intros j (u & Hu & Ha & Hn)%lost_elem. destruct (decide (j ∈ ID <$> gone s)) as [|Hj]; [done|]. exfalso. destruct Hb as [Hwf' [_ Hgw] Hrows]. rewrite <-Hgw in Hg.
    destruct (leave_all at_ (gone s) _ _ _ _ Hnd Hwf' Hg Hact Hf) as (I1 & _). destruct (I1 j Hj) as [E _]. destruct (Hrows j u Hu) as (r & Hr & _ & Hor).
    apply (Hn r); [by rewrite E|]. destruct Hor as [[? _]|(_ & _ & ?)]; congruence. }
  assert (length (lost w w1) ≤ length (gone s))%nat as Hlen.
  { rewrite <-(length_fmap ID). apply submseteq_length, NoDup_submseteq; [apply lost_NoDup|done]. }
  pose proof (active_pointers p w _ s Hwf Hok) as Hap. cbn [default]. split_and!; [lia|intros E; change (people = []) in E; by subst|].
  intros j (x & -> & (Hx & Hxa & Hxk)%Hgone)%Hsub%list_elem_of_fmap. destruct (pt_row _ _ _ _ (ps_ptr _ _ _ _ Hok) x Hx) as (u0 & r & H0 & _ & (T1 & T2 & _)).
  exists u0. split_and!; [done..|]. destruct (decide (ExternalID u0 = "")) as [|He]; [by left|right]. intros Hlist. apply Hxk.
  apply (ps_kept _ _ _ _ Hok x Hx); [congruence|]. rewrite (ps_seen _ _ _ _ Hok), T2. split; [done|]. unfold listed in Hlist.
  apply list_elem_of_fmap in Hlist as (i & Ei & Hi). exists i. split; [by rewrite (Hord people)|done].
Qed.

End sync.

(** * A provider with two people *)

Definition ex_conf : Config := {|
  cOIDC := Some false; DefaultRoles := [RoleUser]; Mapping := []; AutoProvision := true; SyncUsers := true; SCIM := false |}.

Definition ex_provider : Opened := {| pID := "kc"; Enabled := true; Conf := ex_conf |}.

Definition ex_person (name display : string) : Identity := {|
  iExternalID := "sub-" ++ name; iUsername := name; iDisplayName := display; iEmail := ""; Groups := []; GroupDNs := [] |}.

Definition ex_people : world (R := Registry.Registry) := {|
  udb := exec [OCreate "a" 1 (ex_account "ada") []; OCreate "c" 2 (provisioned ex_provider (ex_person "cyd" "Cyd")) [];
               OCreate "d" 3 (provisioned ex_provider (ex_person "dee" "Dee")) []] {| users := ∅; groups := ∅; group_members := ∅ |};
  sdb := ∅; tdb := tdb ex_world; gw := gw ex_world; sdown := λ _, false |}.

Definition status_of (id : string) (w : world (R := Registry.Registry)) : option Status := Status_ <$> users (udb w) !! id.

Lemma ex_people_wf : wf (udb ex_people).
Proof. apply exec_wf. split; cbn; intros *; by rewrite lookup_empty. Qed.

Lemma ex_people_reached : ∀ g, gw ex_people = Some g → reached g.
Proof. intros g [= <-]. eexists. apply (proj1 (Registry.run_inv ex_sessions [] _ Registry.Inv_new NoDup_nil_2 ltac:(by repeat constructor))). Qed.

(** A run with Cyd in the listing, and Dee gone from it. *)
Definition ex_run : option SyncErr * SyncStatus * world (R := Registry.Registry) :=
  sync id (λ i, iUsername i) 9 9 false true ex_provider (Some [ex_person "cyd" "Cyd"]) ex_people.

Lemma ex_run_eq : ex_run = (None, ex_run.1.2, ex_run.2).
Proof. vm_compute. reflexivity. Qed.

Lemma sync_settles_witness : status_of "c" ex_run.2 = Some StatusActive ∧ taken_away "d" ex_run.2.
Proof.
  split; [vm_compute; reflexivity|].
  destruct (users (udb ex_people) !! "d") as [u|] eqn:Hu; [|vm_compute in Hu; discriminate].
  assert (ID u = "d") as Hid by (vm_compute in Hu; injection Hu as <-; reflexivity).
  destruct (sync_settles id (λ i, iUsername i) 9 9 false ex_provider [ex_person "cyd" "Cyd"] ex_people ex_run.1.2 ex_run.2
    ex_people_wf ex_people_reached ltac:(discriminate) (λ l, Permutation_refl l) ex_run_eq
    ltac:(vm_compute; discriminate) ltac:(vm_compute; discriminate) u) as (_ & Hgone & _).
  - rewrite Hid. exact Hu.
  - vm_compute in Hu; injection Hu as <-; reflexivity.
  - vm_compute in Hu; injection Hu as <-; discriminate.
  - rewrite <-Hid. destruct Hgone as [H|(u' & Hu' & Ha & _)].
    + vm_compute in Hu; injection Hu as <-. intros Hin. vm_compute in Hin. apply list_elem_of_singleton in Hin. discriminate.
    + vm_compute in Hu; injection Hu as <-; reflexivity.
    + exact H.
    + exfalso. rewrite Hid in Hu'. vm_compute in Hu'. injection Hu' as <-. vm_compute in Ha. discriminate.
Defined.

Lemma sync_bounded_witness : lost ex_people ex_run.2 = ["d"] ∧ (length (lost ex_people ex_run.2) ≤ 3)%nat.
Proof.
  split; [vm_compute; reflexivity|].
  destruct (sync_bounded id (λ i, iUsername i) 9 9 true ex_provider (Some [ex_person "cyd" "Cyd"]) ex_people ex_run.1.1 ex_run.1.2 ex_run.2
    ex_people_wf ex_people_reached ltac:(discriminate) (λ l, Permutation_refl l) eq_refl) as [[H|H] _]; [exact H|].
  vm_compute in H. vm_compute. lia.
Defined.

(** A run undoes an administrator's decision it did not see.  The sync writes
back the status it read when it began: with an account listed under a new display
name, an administrator who disables the account after the run read it and before
the run reaches it finds it active again when the run has passed. *)
Theorem stale_read_enables :
  let disabled := handle "a" (disable "c") ex_people in
  let s := {| rw := disabled.2; rst := noStatus 1; linked := ListByIdP "kc" (udb ex_people); seen := []; kept := [] |} in
  let after := people_loop (λ i, iUsername i) 9 ex_provider [ex_person "cyd" "Cyd Vane"] s in
  admitted "a" ex_people = true ∧ disabled.1 = OK ∧ status_of "c" (rw s) = Some StatusDisabled ∧
  after.1 = None ∧ status_of "c" (rw after.2) = Some StatusActive.
Proof. vm_compute. split_and!; reflexivity. Qed.
