(* ===== verification/Scim.v ===== *)
(** People a provider pushes: src/internal/idp/scim/scim.go and the SCIM tokens of
src/internal/idp/idp.go, over the world of UserAdmin.v.

A request is what its handler reads of it: the bearer token, the account of its
path and its body, decoded ([Body]; the decoder is encoding/json's, keeping
numbers as they are written).  The pairs of an object come in the order the
runtime hands them out, which is any.  The audit records, the discovery routes,
listing and the resource a request is answered with are not modelled; nor is a
database that cannot be reached. *)
From S2P Require Import Prelude GoText Sha256 Sessions Users Registry UserAdmin Directory UserSync.
Local Open Scope Z_scope.

(** * Tokens *)

Record provider_row := { opened : Opened; scim_token_hash : option string; scim_token_created_at : option time }.

Definition providers : Type := gmap string provider_row.

(** The token of 32 random bytes: [encoded] is their base64. *)
Definition SCIMTokenHash (token : string) : string := Hex.EncodeToString (Sha.Sum256 (to_bytes token)).

Definition NewSCIMToken (encoded : string) : string * string := let token := ("zscim_" ++ encoded)%string in (token, SCIMTokenHash token).

Definition SetSCIMToken (id hash : string) (at_ : time) (t : providers) : bool * providers :=
  match t !! id with
  | None => (false, t)
  | Some r => (true, <[id := {| opened := opened r; scim_token_hash := Some hash; scim_token_created_at := Some (TimeArg at_) |}]> t)
  end.

Definition ClearSCIMToken (id : string) (t : providers) : bool * providers :=
  match t !! id with
  | None => (false, t)
  | Some r => (true, <[id := {| opened := opened r; scim_token_hash := None; scim_token_created_at := None |}]> t)
  end.

Definition CheckSCIMToken (id token : string) (t : providers) : bool :=
  match t !! id ≫= scim_token_hash with
  | None => false
  | Some stored => negb (bool_decide (stored = "")) && negb (bool_decide (token = "")) && bool_decide (SCIMTokenHash token = stored)
  end.

(** * What the provider sends *)

Inductive any :=
| ANull
| ABool (b : bool)
| ANumber (literal : string)
| AString (s : string)
| AArray (l : list any)
| AObject (l : list (string * any)).

Inductive Body := WrongType | Unreadable | TooLarge | NotObject | Object (l : list (string * any)).

Fixpoint set_key (k : string) (v : any) (l : list (string * any)) : list (string * any) :=
  match l with
  | [] => [(k, v)]
  | (k', v') :: l => if bool_decide (k' = k) then (k, v) :: l else (k', v') :: set_key k v l
  end.

Definition get (k : string) (l : list (string * any)) : option any := (List.find (λ kv, bool_decide (kv.1 = k)) l) ≫= λ kv, Some kv.2.

Fixpoint lowerKeys (v : any) : any :=
  match v with
  | AObject l => AObject (foldl (λ out kv, set_key kv.1 kv.2 out) [] ((fix go l := match l with [] => [] | (k, x) :: l => (Strings.ToLower k, lowerKeys x) :: go l end) l))
  | AArray l => AArray ((fix go l := match l with [] => [] | x :: l => lowerKeys x :: go l end) l)
  | _ => v
  end.

Definition fields (v : any) : list (string * any) := match v with AObject l => l | _ => [] end.

Definition text_of (v : option any) : option string := match v with Some (AString s) => Some s | _ => None end.

Definition answer : Type := Z * string.

Definition decode (b : Body) : result answer (list (string * any)) :=
  match b with
  | WrongType => Err (415, "")
  | Unreadable | NotObject => Err (400, "invalidSyntax")
  | TooLarge => Err (413, "")
  | Object l => Ok (fields (lowerKeys (AObject l)))
  end.

Record desired := {
  userName : string; given : string; family : string; formatted : string; display : string; email : string; emailSet : bool;
  externalID : string; externalIDSet : bool; active : option bool;
}.

Definition nothing : desired := {|
  userName := ""; given := ""; family := ""; formatted := ""; display := ""; email := ""; emailSet := false; externalID := "";
  externalIDSet := false; active := None |}.

Definition displayName (d : desired) : string :=
  if negb (bool_decide (display d = "")) then display d
  else if negb (bool_decide (formatted d = "")) then formatted d
  else Strings.TrimSpace (given d ++ " " ++ family d)%string.

(** strconv.ParseBool. *)
Definition ParseBool (s : string) : option bool :=
  if contains ["1"; "t"; "T"; "TRUE"; "true"; "True"] s then Some true
  else if contains ["0"; "f"; "F"; "FALSE"; "false"; "False"] s then Some false
  else None.

(** A missing value reads as nil. *)
Definition scimBool (v : option any) : option bool :=
  match v with
  | Some (ABool b) => Some b
  | Some (AString s) => ParseBool (Strings.TrimSpace s)
  | None | Some ANull => Some false
  | Some _ => None
  end.

(** The loop of primaryEmail; [first] on the first element. *)
Fixpoint pick_email (l : list any) (first : bool) (pick : string) : string :=
  match l with
  | [] => pick
  | e :: l =>
      let m := fields e in
      let val := Strings.ToLower (Strings.TrimSpace (default "" (text_of (get "value" m)))) in
      if bool_decide (val = "") then pick_email l false pick
      else if bool_decide (scimBool (get "primary" m) = Some true) then val
      else pick_email l false
             (if bool_decide (Strings.ToLower (default "" (text_of (get "type" m))) = "work") || first && bool_decide (pick = "") then val else pick)
  end.

Definition primaryEmail (v : any) : string := pick_email (match v with AArray l => l | _ => [] end) true "".

Definition trimmed (v : option any) (old : string) : string := match text_of v with Some s => Strings.TrimSpace s | None => old end.

Definition readName (n : list (string * any)) (d : desired) : desired := {|
  userName := userName d; given := trimmed (get "givenname" n) (given d); family := trimmed (get "familyname" n) (family d);
  formatted := trimmed (get "formatted" n) (formatted d); display := display d; email := email d; emailSet := emailSet d;
  externalID := externalID d; externalIDSet := externalIDSet d; active := active d |}.

(** desiredFrom, which POST and PUT call without a base. *)
Definition desiredFrom (obj : list (string * any)) : option desired :=
  let name := Strings.ToLower (Strings.TrimSpace (default "" (text_of (get "username" obj)))) in
  if bool_decide (name = "") || negb (ValidUsername name) then None
  else
    let d := match get "name" obj with Some (AObject n) => readName n nothing | _ => nothing end in
    match (match get "active" obj with None => Some None | Some v => Some <$> scimBool (Some v) end) with
    | None => None
    | Some act => Some {|
        userName := name; given := given d; family := family d; formatted := formatted d; display := trimmed (get "displayname" obj) "";
        email := match get "emails" obj with Some v => primaryEmail v | None => "" end; emailSet := bool_decide (is_Some (get "emails" obj));
        externalID := Strings.TrimSpace (default "" (text_of (get "externalid" obj))); externalIDSet := bool_decide (is_Some (get "externalid" obj));
        active := act |}
    end.

(** * Patches *)

(** [^emails(\[[^\]]*\])?(\.value)?$]. *)
Fixpoint after_bracket (b : bytes) : option bytes :=
  match b with [] => None | a :: b => if Ascii.eqb a "]" then Some b else after_bracket b end.

Definition emailPathRe (path : string) : bool :=
  let b := to_bytes path in
  if bool_decide (take 6 b = to_bytes "emails") then
    match (match drop 6 b with
           | a :: b => if Ascii.eqb a "[" then after_bracket b else Some (a :: b)
           | [] => Some []
           end) with
    | Some rest => bool_decide (rest = []) || bool_decide (rest = to_bytes ".value")
    | None => false
    end
  else false.

Definition ends_in_value (path : string) : bool :=
  let b := to_bytes path in bool_decide (drop (length b - 6) b = to_bytes ".value").

Inductive Op := Add_ | Replace_ | Remove_.

Definition op_of (s : string) : option Op :=
  let s := Strings.ToLower s in
  if bool_decide (s = "add") then Some Add_ else if bool_decide (s = "replace") then Some Replace_
  else if bool_decide (s = "remove") then Some Remove_ else None.

Definition setPath (d : desired) (path : string) (kind : Op) (v : option any) : option desired :=
  let remove := match kind with Remove_ => true | _ => false end in
  let text := if remove then "" else match text_of v with Some s => Strings.TrimSpace s | None => "" end in
  if bool_decide (path = "username") then
    if remove || negb (ValidUsername (Strings.ToLower text)) then None
    else Some {| userName := Strings.ToLower text; given := given d; family := family d; formatted := formatted d; display := display d; email := email d;
                 emailSet := emailSet d; externalID := externalID d; externalIDSet := externalIDSet d; active := active d |}
  else if bool_decide (path = "displayname") then
    Some {| userName := userName d; given := given d; family := family d; formatted := formatted d; display := text; email := email d;
            emailSet := emailSet d; externalID := externalID d; externalIDSet := externalIDSet d; active := active d |}
  else if bool_decide (path = "name") then Some (match v with Some (AObject n) => if remove then d else readName n d | _ => d end)
  else if bool_decide (path = "name.givenname") then
    Some {| userName := userName d; given := text; family := family d; formatted := formatted d; display := display d; email := email d;
            emailSet := emailSet d; externalID := externalID d; externalIDSet := externalIDSet d; active := active d |}
  else if bool_decide (path = "name.familyname") then
    Some {| userName := userName d; given := given d; family := text; formatted := formatted d; display := display d; email := email d;
            emailSet := emailSet d; externalID := externalID d; externalIDSet := externalIDSet d; active := active d |}
  else if bool_decide (path = "name.formatted") then
    Some {| userName := userName d; given := given d; family := family d; formatted := text; display := display d; email := email d;
            emailSet := emailSet d; externalID := externalID d; externalIDSet := externalIDSet d; active := active d |}
  else if bool_decide (path = "externalid") then
    Some {| userName := userName d; given := given d; family := family d; formatted := formatted d; display := display d; email := email d;
            emailSet := emailSet d; externalID := text; externalIDSet := true; active := active d |}
  else if bool_decide (path = "active") then
    if remove then None
    else match scimBool v with
         | None => None
         | Some b =>
             Some {| userName := userName d; given := given d; family := family d; formatted := formatted d; display := display d; email := email d;
                     emailSet := emailSet d; externalID := externalID d; externalIDSet := externalIDSet d; active := Some b |}
         end
  else if emailPathRe path then
    let e := if remove then "" else if ends_in_value path then Strings.ToLower text
             else primaryEmail (match v with Some (AArray l) => AArray l | Some v => AArray [v] | None => AArray [ANull] end) in
    Some {| userName := userName d; given := given d; family := family d; formatted := formatted d; display := display d; email := e;
            emailSet := true; externalID := externalID d; externalIDSet := externalIDSet d; active := active d |}
  else Some d.

Definition patch_one (d : desired) (raw : any) : option desired :=
  let op := fields raw in
  match op_of (default "" (text_of (get "op" op))) with
  | None => None
  | Some kind =>
      let path := default "" (text_of (get "path" op)) in
      if bool_decide (path = "") then
        match get "value" op with
        | Some (AObject obj) => foldl (λ acc kv, acc ≫= λ d, setPath d kv.1 kind (Some kv.2)) (Some d) obj
        | _ => None
        end
      else setPath d (Strings.ToLower path) kind (get "value" op)
  end.

Definition patched (u : User) (obj : list (string * any)) : option desired :=
  let cur := {| userName := Username u; given := ""; family := ""; formatted := ""; display := ""; email := Email u; emailSet := false;
                externalID := SCIMExternalID u; externalIDSet := false; active := None |} in
  match get "operations" obj with
  | Some (AArray (op :: ops)) => foldl (λ acc raw, acc ≫= λ d, patch_one d raw) (Some cur) (op :: ops)
  | _ => None
  end.

(** * The handlers *)

Section scim.
Context {R : Type} `{RV : Revoker R}.

Definition outcome : Type := result answer unit * world (R := R).

(** The next statement, unless the last one answered. *)
Definition andThen (o : outcome) (k : world → outcome) : outcome := match o with (Ok _, w) => k w | o => o end.

Definition internal_ : answer := (500, "").

Definition rename_step (now : time) (u : User) (want : desired) (w : world) : outcome :=
  if negb (bool_decide (userName want = "")) && negb (bool_decide (userName want = Username u)) then
    match Users.Rename now (ID u) (userName want) (udb w) with
    | (Ok _, d) => (Ok tt, set_udb d w)
    | (Err e, d) => (Err (match e with ErrDuplicate => (409, "uniqueness") | ErrUsernameShape => (400, "invalidValue") | _ => internal_ end), set_udb d w)
    end
  else (Ok tt, w).

Definition profile_step (now : time) (u : User) (want : desired) (w : world) : outcome :=
  let name := if bool_decide (displayName want = "") then DisplayName u else displayName want in
  let mail := if emailSet want then email want else Email u in
  if negb (bool_decide (name = DisplayName u)) || negb (bool_decide (mail = Email u)) then
    match Users.Update now (ID u) name mail (Status_ u) (udb w) with
    | (Ok _, d) => (Ok tt, set_udb d w)
    | (Err e, d) => (Err (match e with ErrDuplicate => (409, "uniqueness") | _ => internal_ end), set_udb d w)
    end
  else (Ok tt, w).

Definition external_step (now : time) (u : User) (want : desired) (w : world) : outcome :=
  if externalIDSet want && negb (bool_decide (externalID want = SCIMExternalID u)) then
    match Users.SetSCIM now (ID u) (externalID want) (SCIMDeletedAt u) (udb w) with
    | (Ok _, d) => (Ok tt, set_udb d w)
    | (Err _, d) => (Err internal_, set_udb d w)
    end
  else (Ok tt, w).

Definition active_step (now : time) (u : User) (want : desired) (w : world) : outcome :=
  match active want with
  | None => (Ok tt, w)
  | Some true => (Ok tt, (Return u now w).2)
  | Some false => match Leave u now w with (Ok _, w) => (Ok tt, w) | (Err IdpLastAdmin, w) => (Err (409, "mutability"), w) end
  end.

Definition apply (now : time) (u : User) (want : desired) (w : world) : outcome :=
  andThen (rename_step now u want w) (λ w, andThen (profile_step now u want w) (λ w, andThen (external_step now u want w) (active_step now u want))).

(** find: an account of this provider that it has not deleted. *)
Definition find_ (p : Opened) (id : string) (w : world (R := R)) : option User :=
  match users (udb w) !! id with
  | Some u => if bool_decide (IdPID u = pID p) && bool_decide (SCIMDeletedAt u = None) then Some u else None
  | None => None
  end.

Definition and_active (want : desired) : desired := {|
  userName := userName want; given := given want; family := family want; formatted := formatted want; display := display want; email := email want;
  emailSet := emailSet want; externalID := externalID want; externalIDSet := externalIDSet want;
  active := match active want with None => Some true | a => a end |}.

Definition with_scim_link (idp scim : string) (u : User) : User := with_link idp (ExternalID u) scim (UpdatedAt u) u.

Definition pushed (p : Opened) (want : desired) : User := {|
  ID := ""; Username := userName want; Email := email want;
  DisplayName := if bool_decide (displayName want = "") then userName want else displayName want; Status_ := StatusActive; Roles := DefaultRoles (Conf p);
  IdPID := pID p; ExternalID := ""; FailedLogins := 0; LockedUntil := None; CreatedAt := 0; UpdatedAt := 0; LastLoginAt := None;
  MustResetOnLogin := false; DirectoryRemovedAt := None; SCIMExternalID := externalID want; SCIMDeletedAt := None; PasswordHash := "" |}.

(** created: 201 with the account, or the error of apply. *)
Definition created (o : outcome) : answer * world (R := R) := match o with (Ok _, w) => ((201, ""), w) | (Err a, w) => (a, w) end.

Definition createUser (newID : string) (now : time) (p : Opened) (b : Body) (w : world) : answer * world (R := R) :=
  match decode b with
  | Err a => (a, w)
  | Ok obj =>
      match desiredFrom obj with
      | None => ((400, "invalidValue"), w)
      | Some want =>
          match GetByUsername (userName want) (udb w) with
          | Ok u =>
              if bool_decide (IdPID u = pID p) && bool_decide (is_Some (SCIMDeletedAt u)) then
                match Users.SetSCIM now (ID u) (externalID want) None (udb w) with
                | (Err _, d) => (internal_, set_udb d w)
                | (Ok _, d) => created (apply now (with_scim (externalID want) None (UpdatedAt u) u) (and_active want) (set_udb d w))
                end
              else if bool_decide (IdPID u = pID p) then ((409, "uniqueness"), w)
              else if bool_decide (IdPID u = "") && bool_decide (PasswordHash u = "") then
                match Users.Provision now (ID u) (pID p) (externalID want) (udb w) with
                | (Err ErrDuplicate, d) => ((409, "uniqueness"), set_udb d w)
                | (Err _, d) => (internal_, set_udb d w)
                | (Ok _, d) => created (apply now (with_scim_link (pID p) (externalID want) u) want (set_udb d w))
                end
              else ((409, "uniqueness"), w)
          | Err ErrNotFound =>
              if negb (AutoProvision (Conf p)) then ((403, ""), w)
              else
                match Users.Create newID now (pushed p want) (udb w) with
                | (Err ErrDuplicate, d) => ((409, "uniqueness"), set_udb d w)
                | (Err _, d) => (internal_, set_udb d w)
                | (Ok u, d) =>
                    let w := set_udb d w in
                    ((201, ""), if bool_decide (active want = Some false) then (Leave u now w).2 else w)
                end
          | Err _ => (internal_, w)
          end
      end
  end.

Definition replaceUser (now : time) (p : Opened) (id : string) (b : Body) (w : world) : answer * world (R := R) :=
  match find_ p id w with
  | None => ((404, ""), w)
  | Some u =>
      match decode b with
      | Err a => (a, w)
      | Ok obj =>
          match desiredFrom obj with
          | None => ((400, "invalidValue"), w)
          | Some want => match apply now u want w with (Ok _, w) => ((200, ""), w) | (Err a, w) => (a, w) end
          end
      end
  end.

Definition patchUser (now : time) (p : Opened) (id : string) (b : Body) (w : world) : answer * world (R := R) :=
  match find_ p id w with
  | None => ((404, ""), w)
  | Some u =>
      match decode b with
      | Err a => (a, w)
      | Ok obj =>
          match patched u obj with
          | None => ((400, "invalidValue"), w)
          | Some want => match apply now u want w with (Ok _, w) => ((200, ""), w) | (Err a, w) => (a, w) end
          end
      end
  end.

Definition deleteUser (now : time) (p : Opened) (id : string) (w : world) : answer * world (R := R) :=
  match find_ p id w with
  | None => ((404, ""), w)
  | Some u =>
      match Leave u now w with
      | (Err IdpLastAdmin, w) => ((409, "mutability"), w)
      | (Ok _, w) =>
          match Users.SetSCIM now (ID u) (SCIMExternalID u) (Some now) (udb w) with
          | (Ok _, d) => ((204, ""), set_udb d w)
          | (Err _, d) => (internal_, set_udb d w)
          end
      end
  end.

(** guard: [allowed] is the limiter's answer for an address with a wrong token. *)
Definition guard (t : providers) (id token : string) (allowed : bool) : result answer Opened :=
  if negb (CheckSCIMToken id (Strings.TrimSpace token) t) then Err (if allowed then 401 else 429, "")
  else match t !! id with
       | None => Err internal_
       | Some r => if negb (Enabled (opened r)) || negb (SCIM (Conf (opened r))) then Err (403, "") else Ok (opened r)
       end.

Inductive request :=
| PCreate (newID : string) (b : Body)
| PReplace (id : string) (b : Body)
| PPatch (id : string) (b : Body)
| PDelete (id : string).

Definition serve (t : providers) (idp token : string) (allowed : bool) (now : time) (r : request) (w : world) : answer * world (R := R) :=
  match guard t idp token allowed with
  | Err a => (a, w)
  | Ok p =>
      match r with
      | PCreate newID b => createUser newID now p b w
      | PReplace id b => replaceUser now p id b w
      | PPatch id b => patchUser now p id b w
      | PDelete id => deleteUser now p id w
      end
  end.

Lemma CreateInGroups_Err newID now u d e d' : CreateInGroups newID now u [] d = (Err e, d') → d' = d.
Proof. unfold CreateInGroups. repeat (destruct (_ : bool); [by intros [= _ <-]|]). done. Qed.

Lemma CreateInGroups_Ok newID now u d v d' : CreateInGroups newID now u [] d = (Ok v, d') →
  v = normal newID now u ∧ users d !! newID = None ∧ users d' = <[newID := v]> (users d).
Proof.
  unfold CreateInGroups. destruct (negb _); [done|]. destruct (bool_decide _); [done|]. destruct (negb _); [done|]. cbv zeta.
  destruct (existsb _ _); [done|]. destruct (_ || _) eqn:E; [done|]. intros [= <- <-]. apply orb_false_iff in E as [_ E%bool_decide_eq_false].
  split_and!; [done|by apply eq_None_not_Some|done].
Qed.

(** * What a request does to an account *)

(** Everything of an account a provider's push leaves alone, its status apart. *)
Definition kept_rights (r r' : User) : Prop :=
  ID r' = ID r ∧ Roles r' = Roles r ∧ PasswordHash r' = PasswordHash r ∧ ExternalID r' = ExternalID r ∧ LockedUntil r' = LockedUntil r ∧
  IdPID r' = IdPID r.

Definition same_status (r r' : User) : Prop := Status_ r' = Status_ r ∧ DirectoryRemovedAt r' = DirectoryRemovedAt r.

(** The status stays, or an active account is disabled and marked, or a marked one
enabled. *)
Definition status_evolves (r r' : User) : Prop :=
  same_status r r' ∨ (Status_ r = StatusActive ∧ Status_ r' = StatusDisabled ∧ is_Some (DirectoryRemovedAt r')) ∨
  (returned r = true ∧ Status_ r' = StatusActive).

(** A pointer and its row. *)
Definition reads (u r : User) : Prop := Status_ r = Status_ u ∧ DirectoryRemovedAt r = DirectoryRemovedAt u ∧ Roles r = Roles u.

Lemma kept_rights_trans a b c : kept_rights a b → kept_rights b c → kept_rights a c.
Proof. unfold kept_rights. intros (? & ? & ? & ? & ? & ?) (? & ? & ? & ? & ? & ?). split_and!; congruence. Qed.

Lemma kept_rights_refl a : kept_rights a a.
Proof. by repeat split. Qed.

(** One write of the row that [w] has for [id], rights and status kept. *)
Definition quiet (id : string) (r : User) (w w' : world (R := R)) : Prop :=
  wf (udb w') ∧ sdb w' = sdb w ∧ gw w' = gw w ∧
  ∃ r', users (udb w') = <[id := r']> (users (udb w)) ∧ kept_rights r r' ∧ same_status r r'.

Lemma quiet_refl id r w : wf (udb w) → users (udb w) !! id = Some r → quiet id r w w.
Proof. intros Hwf Hr. split_and!; [done..|]. exists r. rewrite insert_id by done. split_and!; [done|apply kept_rights_refl|by split]. Qed.

(** What [users d] becomes when the row is written, or the write is refused. *)
Definition writes (id : string) (r : User) (d d' : DB) : Prop :=
  wf d' ∧ ∃ r', users d' = <[id := r']> (users d) ∧ kept_rights r r' ∧ same_status r r'.

Lemma writes_refl id r d : wf d → users d !! id = Some r → writes id r d d.
Proof. intros Hwf Hr. split; [done|]. exists r. rewrite insert_id by done. split_and!; [done|apply kept_rights_refl|by split]. Qed.

Lemma Rename_writes now id name d r : wf d → users d !! id = Some r → writes id r d (Users.Rename now id name d).2.
Proof.
  intros Hwf Hr. split; [by apply (Users.exec1_wf (ORename now id name))|]. unfold Users.Rename. destruct (negb _); [by apply writes_refl|].
  unfold Users.update. rewrite Hr. destruct (clashes _ d); [by apply writes_refl|]. eexists. destruct (wf_rows _ Hwf _ _ Hr) as [Hid _].
  split; [cbn; by rewrite Hid|]. by repeat split.
Qed.

Lemma SetSCIM_writes now id ext del d r : wf d → users d !! id = Some r → writes id r d (Users.SetSCIM now id ext del d).2.
Proof.
  intros Hwf Hr. split; [by apply (Users.exec1_wf (OSetSCIM now id ext del))|]. unfold Users.SetSCIM. rewrite Hr. eexists.
  destruct (wf_rows _ Hwf _ _ Hr) as [Hid _]. split; [cbn; by rewrite Hid|]. by repeat split.
Qed.

Lemma Update_writes now id n e d r : wf d → users d !! id = Some r → writes id r d (Users.Update now id n e (Status_ r) d).2.
Proof.
  intros Hwf Hr. split; [by apply (Users.exec1_wf (OUpdate now id n e (Status_ r)))|].
  destruct (Update_effect now id n e d r Hwf Hr) as (_ & _ & r' & Hu & (? & ? & ? & ? & ? & ? & ?) & ? & ?). exists r'. by repeat split.
Qed.

Lemma quiet_writes id r d w : users (udb w) !! id = Some r → writes id r (udb w) d → quiet id r w (set_udb d w).
Proof. intros Hr (Hwf & r' & Hu & Hk & Hs). split_and!; [done..|]. exists r'. done. Qed.

(** What a request may do to the one account it is about. *)
Definition acts (id : string) (r : User) (w w' : world (R := R)) : Prop :=
  wf (udb w') ∧ ∃ r', users (udb w') = <[id := r']> (users (udb w)) ∧ kept_rights r r' ∧ status_evolves r r' ∧
    (Status_ r = StatusActive → Status_ r' ≠ StatusActive → taken_away id w').

Lemma quiet_acts id r w w' : quiet id r w w' → acts id r w w'.
Proof.
  intros (Hwf & _ & _ & r' & Hu & Hk & Hs). split; [done|]. exists r'. split_and!; [done|done|by left|]. destruct Hs as [Hs _]. congruence.
Qed.

Lemma acts_after id r w w1 r1 w' : users (udb w1) = <[id := r1]> (users (udb w)) → kept_rights r r1 → same_status r r1 →
  acts id r1 w1 w' → acts id r w w'.
Proof.
  intros Hu1 Hk1 [Hs1 Hm1] (Hwf & r2 & Hu2 & Hk2 & Hst & Hta). split; [done|]. exists r2. rewrite Hu2, Hu1, insert_insert_eq.
  split_and!; [done|by eapply kept_rights_trans| |by rewrite <-Hs1]. unfold status_evolves, same_status, returned in *. by rewrite <-Hs1, <-Hm1.
Qed.

Lemma acts_andThen id r w o k : users (udb w) !! id = Some r → quiet id r w o.2 →
  (∀ w1 r1, users (udb w1) !! id = Some r1 → wf (udb w1) → gw w1 = gw w → kept_rights r r1 → same_status r r1 → acts id r1 w1 (k w1).2) →
  acts id r w (andThen o k).2.
Proof.
  intros Hr Ho Hk. destruct o as [[|a] w1]; [|by apply quiet_acts]. cbn [andThen snd] in *. destruct Ho as (Hwf & Hs & Hg & r1 & Hu & Hkr & Hss).
  apply (acts_after id r w w1 r1); [done..|]. apply Hk; try done. rewrite Hu. apply lookup_insert_eq.
Qed.

Lemma reads_same u r r1 : reads u r → kept_rights r r1 → same_status r r1 → reads u r1.
Proof. intros (? & ? & ?) (_ & ? & _) [? ?]. split_and!; congruence. Qed.

Lemma rename_quiet now u want w r : wf (udb w) → users (udb w) !! ID u = Some r → quiet (ID u) r w (rename_step now u want w).2.
Proof.
  intros Hwf Hr. unfold rename_step. destruct (_ && _); [|by apply quiet_refl]. pose proof (Rename_writes now (ID u) (userName want) _ _ Hwf Hr) as Hw.
  destruct (Users.Rename _ _ _ _) as [[|e] d]; by apply quiet_writes.
Qed.

Lemma profile_quiet now u want w r : wf (udb w) → users (udb w) !! ID u = Some r → Status_ r = Status_ u →
  quiet (ID u) r w (profile_step now u want w).2.
Proof.
  intros Hwf Hr Hst. unfold profile_step. cbv zeta. destruct (_ || _); [|by apply quiet_refl]. rewrite <-Hst.
  match goal with |- context [Users.Update now (ID u) ?n ?e _ _] => pose proof (Update_writes now (ID u) n e _ _ Hwf Hr) as Hw end.
  destruct (Users.Update _ _ _ _ _ _) as [[|e] d]; by apply quiet_writes.
Qed.

Lemma external_quiet now u want w r : wf (udb w) → users (udb w) !! ID u = Some r → quiet (ID u) r w (external_step now u want w).2.
Proof.
  intros Hwf Hr. unfold external_step. destruct (_ && _); [|by apply quiet_refl]. pose proof (SetSCIM_writes now (ID u) (externalID want) (SCIMDeletedAt u) _ _ Hwf Hr) as Hw.
  destruct (Users.SetSCIM _ _ _ _ _) as [[|e] d]; by apply quiet_writes.
Qed.

(** A person who left: disabled at once, unless not active or the only administrator. *)
Lemma Leave_acts now u w r : wf (udb w) → (∀ g, gw w = Some g → reached g) → users (udb w) !! ID u = Some r → reads u r → acts (ID u) r w (Leave u now w).2.
Proof.
  intros Hwf Hg Hr (Hst & Hm & Hro). destruct (decide (Status_ u = StatusActive)) as [Hu|Hu].
  - destruct (Leave_effect u now w r Hwf Hg Hr) as [(-> & _)|(n & w' & -> & Hwf' & _ & Hus & Hta & _)]; [congruence|done|done|by apply quiet_acts, quiet_refl|].
    split; [done|]. eexists. split_and!; [done|done| |done]. right. left. split_and!; [congruence|done|by eexists].
  - unfold Leave. rewrite bool_decide_eq_false_2 by done. by apply quiet_acts, quiet_refl.
Qed.

Lemma active_acts now u want w r : wf (udb w) → (∀ g, gw w = Some g → reached g) → users (udb w) !! ID u = Some r → reads u r →
  acts (ID u) r w (active_step now u want w).2.
Proof.
  intros Hwf Hg Hr Hrd. unfold active_step. destruct (active want) as [[]|]; [| |by apply quiet_acts, quiet_refl].
  - destruct Hrd as (Hst & Hm & _). pose proof (Return_effect now u w r Hwf Hr Hst Hm) as HR. destruct (Return u now w) as [back w'].
    destruct HR as (_ & Hwf' & _ & _ & Hu). cbn [snd]. split; [done|]. eexists. split; [done|]. destruct (returned r) eqn:E; [|split_and!; [apply kept_rights_refl|by left|congruence]].
    split_and!; [done|by right; right|done].
  - pose proof (Leave_acts now u w r Hwf Hg Hr Hrd) as HL. by destruct (Leave u now w) as [[|[]] w'].
Qed.

Lemma apply_acts now u want w r : wf (udb w) → (∀ g, gw w = Some g → reached g) → users (udb w) !! ID u = Some r → reads u r →
  acts (ID u) r w (apply now u want w).2.
Proof.
  intros Hwf Hg Hr Hrd. unfold apply. apply acts_andThen; [done|by apply rename_quiet|]. intros w1 r1 Hr1 Hwf1 Hg1 Hk1 Hs1.
  pose proof (reads_same _ _ _ Hrd Hk1 Hs1) as Hrd1. apply acts_andThen; [done|apply profile_quiet; [done..|apply Hrd1]|]. intros w2 r2 Hr2 Hwf2 Hg2 Hk2 Hs2.
  pose proof (reads_same _ _ _ Hrd1 Hk2 Hs2) as Hrd2. apply acts_andThen; [done|by apply external_quiet|]. intros w3 r3 Hr3 Hwf3 Hg3 Hk3 Hs3.
  apply active_acts; [done| |done|by eapply reads_same]. rewrite Hg3, Hg2, Hg1. done.
Qed.

(** An account the provider may write: its own, or one without a password that is
nobody's, which becomes its own. *)
Definition pushed_to (p : Opened) (v v' : User) : Prop :=
  (IdPID v = pID p ∨ IdPID v = "" ∧ PasswordHash v = "") ∧ IdPID v' = pID p ∧ ID v' = ID v ∧ Roles v' = Roles v ∧
  PasswordHash v' = PasswordHash v ∧ ExternalID v' = ExternalID v ∧ LockedUntil v' = LockedUntil v ∧ status_evolves v v'.

Definition pushed_new (p : Opened) (v' : User) : Prop :=
  AutoProvision (Conf p) = true ∧ IdPID v' = pID p ∧ Roles v' = NormalizeRoles (DefaultRoles (Conf p)) ∧ PasswordHash v' = "" ∧ ExternalID v' = "".

(** At most one account differs. *)
Definition at_home (p : Opened) (w w' : world (R := R)) : Prop :=
  ∃ j, (∀ k, k ≠ j → users (udb w') !! k = users (udb w) !! k) ∧
    (users (udb w') !! j = users (udb w) !! j ∨
     (∃ v v', users (udb w) !! j = Some v ∧ users (udb w') !! j = Some v' ∧ pushed_to p v v' ∧
              (Status_ v = StatusActive → Status_ v' ≠ StatusActive → taken_away j w')) ∨
     (∃ v', users (udb w) !! j = None ∧ users (udb w') !! j = Some v' ∧ pushed_new p v')).

Lemma at_home_same p w w' : users (udb w') = users (udb w) → at_home p w w'.
Proof. intros E. exists "". rewrite E. auto. Qed.

Lemma acts_home p id r w w' : users (udb w) !! id = Some r → IdPID r = pID p → acts id r w w' → at_home p w w'.
Proof.
  intros Hr Hp (_ & r' & Hu & (? & ? & ? & ? & ? & ?) & Hst & Hta). exists id. rewrite Hu. split; [intros k Hk; by rewrite lookup_insert_ne|].
  right. left. exists r, r'. rewrite lookup_insert_eq. split_and!; [done..| |done]. unfold pushed_to. split_and!; try done; [by left|congruence].
Qed.

(** An account nobody's is linked, and then written like the provider's own. *)
Lemma linked_home p id r r1 w w1 w' : users (udb w) !! id = Some r → IdPID r = "" → PasswordHash r = "" →
  users (udb w1) = <[id := r1]> (users (udb w)) → IdPID r1 = pID p → ID r1 = ID r → Roles r1 = Roles r → PasswordHash r1 = PasswordHash r →
  ExternalID r1 = ExternalID r → LockedUntil r1 = LockedUntil r → same_status r r1 → acts id r1 w1 w' → at_home p w w'.
Proof.
  intros Hr Hi Hp Hu1 E1 E2 E3 E4 E5 E6 Hs1 (_ & r' & Hu & (? & ? & ? & ? & ? & ?) & Hst & Hta). exists id. rewrite Hu, Hu1, insert_insert_eq.
  split; [intros k Hk; by rewrite lookup_insert_ne|]. right. left. exists r, r'. rewrite lookup_insert_eq. split_and!; [done..| |].
  - unfold pushed_to. split_and!; try congruence; [by right|]. unfold status_evolves, same_status, returned in *. destruct Hs1 as [A B]. by rewrite <-A, <-B.
  - destruct Hs1 as [A _]. by rewrite <-A.
Qed.

Lemma created_snd (o : outcome) : (created o).2 = o.2.
Proof. by destruct o as [[|] w]. Qed.

Lemma create_home newID now p b w : wf (udb w) → (∀ g, gw w = Some g → reached g) → at_home p w (createUser newID now p b w).2.
Proof.
  intros Hwf Hg. unfold createUser. destruct (decode b) as [obj|a]; [|by apply at_home_same]. destruct (desiredFrom obj) as [want|]; [|by apply at_home_same].
  destruct (GetByUsername _ _) as [u|e] eqn:Hget.
  - apply getWhere_Ok in Hget as [Hu _]; [|done]. destruct (bool_decide (IdPID u = pID p) && _) eqn:E1.
    { apply andb_true_iff in E1 as [Hp%bool_decide_eq_true _]. destruct (SetSCIM_writes now (ID u) (externalID want) None _ _ Hwf Hu) as (Hwf1 & r1 & Hu1 & Hk1 & Hs1).
      unfold Users.SetSCIM in *. rewrite Hu in *. cbn [snd] in *. rewrite created_snd. apply (acts_home p (ID u) u); [done..|].
      apply (acts_after (ID u) u w (set_udb (put (with_scim (externalID want) (TimeArg <$> None) now u) (udb w)) w) r1); [done..|]. apply (apply_acts now (with_scim (externalID want) None (UpdatedAt u) u)); [done|done| |].
      - cbn [set_udb udb]. rewrite Hu1. apply lookup_insert_eq.
      - by apply (reads_same _ u). }
    destruct (bool_decide (IdPID u = pID p)); [by apply at_home_same|].
    destruct (bool_decide (IdPID u = "") && bool_decide (PasswordHash u = "")) eqn:E2; [|by apply at_home_same].
    pose proof (Users.exec1_wf (OProvision now (ID u) (pID p) (externalID want)) (udb w) Hwf) as Hwf1. cbn [Users.exec1] in Hwf1. unfold Users.Provision, Users.update in *.
    rewrite Hu, E2 in *. apply andb_true_iff in E2 as [Hi%bool_decide_eq_true Hpw%bool_decide_eq_true].
    destruct (clashes _ _); [by apply at_home_same|]. cbn [snd] in *. rewrite created_snd.
    apply (linked_home p (ID u) u (with_link (pID p) (ExternalID u) (externalID want) now u) w
      (set_udb (put (with_link (pID p) (ExternalID u) (externalID want) now u) (udb w)) w)); try done.
    apply (apply_acts now (with_scim_link (pID p) (externalID want) u)); [done|done|cbn; apply lookup_insert_eq|done].
  - destruct e; try by apply at_home_same. destruct (AutoProvision (Conf p)) eqn:Ea; [|by apply at_home_same]. cbn [negb].
    pose proof (CreateInGroups_wf newID now (pushed p want) [] (udb w) Hwf) as Hwf1. unfold Users.Create.
    destruct (CreateInGroups newID now (pushed p want) [] (udb w)) as [rc d] eqn:Hc. cbn [snd] in Hwf1.
    destruct rc as [u|e]; [|assert (d = udb w) as -> by (eapply CreateInGroups_Err; done); destruct e; by apply at_home_same].
    apply CreateInGroups_Ok in Hc as (-> & Hn & Hu). cbn [snd]. set (v := normal newID now (pushed p want)) in *.
    assert (pushed_new p v) as Hnew by by repeat split. destruct (bool_decide (active want = Some false)).
    + destruct (Leave_acts now v (set_udb d w) v) as (_ & r' & Hu' & (? & ? & ? & ? & ? & ?) & _ & _); [done|done|cbn; rewrite Hu; apply lookup_insert_eq|done|].
      exists newID. rewrite Hu'. cbn. rewrite Hu, insert_insert_eq. split; [intros k Hk; by rewrite lookup_insert_ne|]. right. right. exists r'.
      rewrite lookup_insert_eq. split_and!; [done..|]. destruct Hnew as (? & ? & ? & ? & ?). split_and!; try done; congruence.
    + exists newID. cbn. rewrite Hu. split; [intros k Hk; by rewrite lookup_insert_ne|]. right. right. exists v. by rewrite lookup_insert_eq.
Qed.

(** A deletion is a departure, and a mark that hides the account. *)
Lemma delete_home now p u w : wf (udb w) → (∀ g, gw w = Some g → reached g) → users (udb w) !! ID u = Some u → IdPID u = pID p →
  at_home p w (match Leave u now w with
      | (Err IdpLastAdmin, w) => ((409, "mutability"), w)
      | (Ok _, w) =>
          match Users.SetSCIM now (ID u) (SCIMExternalID u) (Some now) (udb w) with
          | (Ok _, d) => ((204, ""), set_udb d w)
          | (Err _, d) => (internal_, set_udb d w)
          end
      end).2.
Proof.
  intros Hwf Hg Hu Hp. apply (acts_home p (ID u) u); [done..|]. pose proof (Leave_acts now u w u Hwf Hg Hu ltac:(done)) as Ha.
  destruct (Leave u now w) as [[|[]] w1]; [|done]. cbn [snd] in Ha. destruct Ha as (Hwf1 & r1 & Hu1 & Hk1 & Hs1 & Ht1).
  assert (users (udb w1) !! ID u = Some r1) as Hr1 by (rewrite Hu1; apply lookup_insert_eq).
  destruct (SetSCIM_writes now (ID u) (SCIMExternalID u) (Some now) _ _ Hwf1 Hr1) as (Hwf2 & r2 & Hu2 & Hk2 & [Hs2 Hm2]).
  unfold Users.SetSCIM in *. rewrite Hr1 in *. cbn [snd] in *. split; [done|]. exists r2. cbn [set_udb udb]. rewrite Hu2, Hu1, insert_insert_eq.
  split_and!; [done|by eapply kept_rights_trans|unfold status_evolves, same_status in *; by rewrite Hs2, Hm2|]. rewrite Hs2. intros A B.
  destruct (Ht1 A B) as (_ & T2 & T3). split_and!; [|done|done]. exists r2. cbn [udb set_udb]. rewrite Hu2, lookup_insert_eq, Hs2, Hm2. split; [done|].
  destruct Hs1 as [[C _]|[(_ & ? & ?)|[_ ?]]]; [congruence|done|congruence].
Qed.

(** C23. A provider's push stays at home.  A request to the SCIM routes changes
nothing without the provider's current token, or for a provider that is disabled
or has no SCIM; with it, at most one account changes: an account of that provider,
one without a password and without a provider, which it takes, or one it creates
with the provider's default roles and no password, if the provider creates
accounts.  No push changes an account's roles, password, lock or sign-in subject,
and of the status only this: an active account may be disabled and marked, its
live sessions ended and its sign-ins too, where the database takes that write,
and a marked one enabled; a status an administrator set stands. *)
Theorem scim_stays_home t idp token allowed now r w :
  wf (udb w) → (∀ g, gw w = Some g → reached g) →
  let '(a, w') := serve t idp token allowed now r w in
  match guard t idp token allowed with
  | Err e => a = e ∧ w' = w
  | Ok p => ∃ row, t !! idp = Some row ∧ opened row = p ∧ Enabled p = true ∧ SCIM (Conf p) = true ∧
      scim_token_hash row = Some (SCIMTokenHash (Strings.TrimSpace token)) ∧ at_home p w w'
  end.
Proof.
  intros Hwf Hg. unfold serve. destruct (guard t idp token allowed) as [p|e] eqn:Hgd; [|done].
  assert (∃ row, t !! idp = Some row ∧ opened row = p ∧ Enabled p = true ∧ SCIM (Conf p) = true ∧
      scim_token_hash row = Some (SCIMTokenHash (Strings.TrimSpace token))) as (row & ? & ? & ? & ? & ?).
  { unfold guard, CheckSCIMToken in Hgd. destruct (t !! idp) as [row|]; [|done]. cbn [mbind option_bind] in Hgd.
    destruct (scim_token_hash row) as [h|] eqn:Eh; [|done]. destruct (negb (negb (bool_decide (h = "")) && _ && _)) eqn:Ec; [done|]. apply negb_false_iff in Ec. bool_simpl.
    destruct (_ || _) eqn:Eo; [done|]. injection Hgd as <-. bool_simpl. exists row. split_and!; try done. congruence. }
  assert (∀ id k, (∀ u, find_ p id w = Some u → users (udb w) !! ID u = Some u → IdPID u = pID p → at_home p w (k u : answer * world).2) →
    at_home p w (match find_ p id w with None => ((404, ""), w) | Some u => k u end).2) as Hfind.
  { intros id k Hk. destruct (find_ p id w) as [u|] eqn:Hf; [|by apply at_home_same]. unfold find_ in Hf. destruct (users (udb w) !! id) as [v|] eqn:Hv; [|done].
    destruct (_ && _) eqn:E; [|done]. injection Hf as <-. bool_simpl. apply Hk; [done| |done]. by destruct (wf_rows _ Hwf _ _ Hv) as [-> _]. }
  assert (at_home p w (match r with PCreate newID b => createUser newID now p b w | PReplace id b => replaceUser now p id b w
    | PPatch id b => patchUser now p id b w | PDelete id => deleteUser now p id w end).2) as Hh.
  { destruct r as [newID b|id b|id b|id]; [by apply create_home|apply Hfind|apply Hfind|apply Hfind]; intros u _ Hu Hp.
    - destruct (decode b) as [obj|a]; [|by apply at_home_same]. destruct (desiredFrom obj) as [want|]; [|by apply at_home_same].
      pose proof (apply_acts now u want w u Hwf Hg Hu ltac:(done)) as Ha. apply (acts_home p) in Ha; [|done..]. by destruct (apply now u want w) as [[|] w'].
    - destruct (decode b) as [obj|a]; [|by apply at_home_same]. destruct (patched u obj) as [want|]; [|by apply at_home_same].
      pose proof (apply_acts now u want w u Hwf Hg Hu ltac:(done)) as Ha. apply (acts_home p) in Ha; [|done..]. by destruct (apply now u want w) as [[|] w'].
    - by apply delete_home. }
  destruct (match r with PCreate newID b => _ | PReplace id b => _ | PPatch id b => _ | PDelete id => _ end) as [a w']. exists row. done.
Qed.

(** * A rehire *)

(** The body that names a person and nothing else. *)
Definition only_name (name : string) : Body := Object [("userName", AString name)].

Definition named (name : string) : desired := {|
  userName := name; given := ""; family := ""; formatted := ""; display := ""; email := ""; emailSet := false; externalID := "";
  externalIDSet := false; active := None |}.

Lemma desired_only_name name : ValidUsername name = true → Strings.ToLower (Strings.TrimSpace name) = name → name ≠ "" →
  decode (only_name name) = Ok [("username", AString name)] ∧ desiredFrom [("username", AString name)] = Some (named name).
Proof.
  intros Hv Hl Hn. split.
  - unfold decode, only_name. cbn [lowerKeys fields foldl fst snd set_key]. by replace (Strings.ToLower "userName") with "username" by (by vm_compute).
  - unfold desiredFrom. set (l := [("username", AString name)]). change (get "username" l) with (Some (AString name)).
    change (get "name" l) with (@None any). change (get "active" l) with (@None any). change (get "displayname" l) with (@None any).
    change (get "emails" l) with (@None any). change (get "externalid" l) with (@None any). cbn [text_of default trimmed].
    change (id name) with name. rewrite Hl, Hv, bool_decide_eq_false_2 by done. cbn [orb negb].
    rewrite !(bool_decide_eq_false_2 (is_Some None)) by by intros []. by replace (Strings.TrimSpace "") with "" by (by vm_compute).
Qed.

(** Nothing but the status is asked for. *)
Lemma apply_named now u want w : userName want = Username u → displayName want = "" → emailSet want = false → externalIDSet want = false →
  apply now u want w = active_step now u want w.
Proof.
  intros H1 H2 H3 H4. unfold apply, rename_step, profile_step, external_step. rewrite H1, H2, H3, H4.
  rewrite (bool_decide_eq_true_2 (Username u = Username u)), andb_false_r by done. cbn [andThen andb]. cbv zeta.
  rewrite (bool_decide_eq_true_2 ("" = "")), (bool_decide_eq_true_2 (DisplayName u = DisplayName u)), (bool_decide_eq_true_2 (Email u = Email u)) by done. done.
Qed.

(** A person who comes back gets their account back.  When a provider deletes
an active account over SCIM and later creates a person of the same username, the
two requests succeed and the account itself is active again, with its roles, its
password and its sign-in subject, no longer hidden from the provider; no second
account is made and no other account changes.  The only administrator is the one
exception: the deletion is refused. *)
Theorem rehired now now' newID p u w :
  wf (udb w) → (∀ g, gw w = Some g → reached g) → users (udb w) !! ID u = Some u → IdPID u = pID p → SCIMDeletedAt u = None →
  Status_ u = StatusActive → HasRole u RoleAdmin = false ∨ (2 ≤ CountAdmins (udb w))%nat →
  ValidUsername (Username u) = true → Strings.ToLower (Strings.TrimSpace (Username u)) = Username u → Username u ≠ "" →
  let d := deleteUser now p (ID u) w in
  let c := createUser newID now' p (only_name (Username u)) d.2 in
  d.1 = (204, "") ∧ c.1 = (201, "") ∧
  (∃ u', users (udb c.2) = <[ID u := u']> (users (udb w)) ∧ kept_rights u u' ∧ Username u' = Username u ∧ Status_ u' = StatusActive ∧
         DirectoryRemovedAt u' = None ∧ SCIMDeletedAt u' = None).
Proof.
  intros Hwf Hg Hu Hp Hnd Hact Hadm Hv Hl Hn. unfold deleteUser, find_. rewrite Hu, Hp, Hnd, !bool_decide_eq_true_2 by done. cbn [andb].
  destruct (Leave_effect u now w u Hwf Hg Hu Hact Hact eq_refl) as [(_ & Haa & Hoa)|(n & w1 & -> & Hwf1 & Hg1 & Hu1 & _)].
  { exfalso. unfold active_admin in Haa. apply andb_true_iff in Haa as [_ Haa]. destruct Hadm as [?|H2]; [congruence|].
    destruct (other_admins_pos (ID u) (udb w)) as [Hop _]. destruct Hop as (j & x & Hj & Hx & Hxa); [pose proof (others_count (ID u) (udb w)); lia|]. by apply Hj, (Hoa j x). }
  set (r1 := with_status _ _ _ u) in Hu1. assert (users (udb w1) !! ID u = Some r1) as Hr1 by (rewrite Hu1; apply lookup_insert_eq).
  pose proof (Users.exec1_wf (OSetSCIM now (ID u) (SCIMExternalID u) (Some now)) (udb w1) Hwf1) as Hwf2. cbn [Users.exec1] in Hwf2. unfold Users.SetSCIM in *.
  rewrite Hr1 in *. cbn [snd fst] in *. set (r2 := with_scim _ _ _ r1) in *. set (d2 := put r2 (udb w1)) in *. split; [done|].
  destruct (desired_only_name (Username u) Hv Hl Hn) as [Hd Hds]. unfold createUser. rewrite Hd, Hds. cbn [udb set_udb userName named].
  assert (users d2 !! ID u = Some r2) as Hr2 by apply lookup_insert_eq.
  assert (GetByUsername (Username u) d2 = Ok r2) as ->.
  { apply (getWhere_unique d2 (ID u) r2); [done|done|by apply bool_decide_eq_true|]. intros x Hx%bool_decide_eq_true. unfold clash. by rewrite (bool_decide_eq_true_2 (sql_lower _ = _)). }
  change (IdPID r2) with (IdPID u). change (ID r2) with (ID u). rewrite Hp, (bool_decide_eq_true_2 (pID p = pID p)) by done. cbn [andb SCIMDeletedAt r2 with_scim].
  rewrite bool_decide_eq_true_2 by by eexists. unfold Users.SetSCIM. rewrite Hr2. rewrite apply_named by done. unfold active_step. cbn [active and_active named].
  pose proof (Users.exec1_wf (OSetSCIM now' (ID u) "" None) d2 Hwf2) as Hwf3. cbn [Users.exec1] in Hwf3. unfold Users.SetSCIM in Hwf3. rewrite Hr2 in Hwf3. cbn [snd] in Hwf3.
  set (r3 := with_scim "" (TimeArg <$> None) now' r2) in *. change (externalID (named (Username u))) with "". fold r3. set (w3 := set_udb (R := R) (put r3 d2) (set_udb d2 w1)) in *.
  pose proof (Return_effect now' (with_scim "" None (UpdatedAt r2) r2) w3 r3 Hwf3 (lookup_insert_eq _ _ _) eq_refl eq_refl) as HR.
  destruct (Return _ now' w3) as [back w4]. destruct HR as (_ & _ & _ & _ & Hu4). cbn [created fst snd]. split; [done|].
  change (returned r3) with true in Hu4. eexists. rewrite Hu4. cbn. rewrite Hu1, !insert_insert_eq. split; [done|]. by repeat split.
Qed.

End scim.

(** * A provider that pushes *)

Definition ex_pushing : Opened := {| pID := "kc"; Enabled := true; Conf := {|
  cOIDC := Some false; DefaultRoles := [RoleUser]; Mapping := []; AutoProvision := true; SyncUsers := false; SCIM := true |} |}.

Definition ex_token : string * string := NewSCIMToken "c2VjcmV0".

Definition ex_table : providers :=
  (SetSCIMToken "kc" ex_token.2 5 {["kc" := {| opened := ex_pushing; scim_token_hash := None; scim_token_created_at := None |}]}).2.

Definition ex_deactivate : request := PPatch "c" (Object [("Operations", AArray [AObject [("op", AString "Replace"); ("path", AString "active"); ("value", AString "False")]])]).

Lemma scim_stays_home_witness :
  (serve ex_table "kc" ex_token.1 true 9 ex_deactivate ex_people).1 = (200, "") ∧
  status_of "c" (serve ex_table "kc" ex_token.1 true 9 ex_deactivate ex_people).2 = Some StatusDisabled ∧
  at_home ex_pushing ex_people (serve ex_table "kc" ex_token.1 true 9 ex_deactivate ex_people).2.
Proof.
  assert (guard ex_table "kc" ex_token.1 true = Ok ex_pushing) as Hgd by (vm_compute; reflexivity).
  split; [vm_compute; reflexivity|]. split; [vm_compute; reflexivity|].
  pose proof (scim_stays_home ex_table "kc" ex_token.1 true 9 ex_deactivate ex_people ex_people_wf ex_people_reached) as H. rewrite Hgd in H.
  destruct (serve ex_table "kc" ex_token.1 true 9 ex_deactivate ex_people) as [a w']. destruct H as (row & _ & _ & _ & _ & _ & H). exact H.
Defined.

Lemma rehired_witness :
  let d := deleteUser 8 ex_pushing "c" ex_people in
  let c := createUser "new" 9 ex_pushing (only_name "cyd") d.2 in
  status_of "c" d.2 = Some StatusDisabled ∧ c.1 = (201, "") ∧ status_of "c" c.2 = Some StatusActive.
Proof.
  cbv zeta. destruct (users (udb ex_people) !! "c") as [u|] eqn:Hu; [|vm_compute in Hu; discriminate].
  assert (ID u = "c" ∧ Username u = "cyd") as [Hid Hname] by (vm_compute in Hu; injection Hu as <-; split; reflexivity).
  split; [vm_compute; reflexivity|].
  destruct (rehired 8 9 "new" ex_pushing u ex_people ex_people_wf ex_people_reached) as (_ & Hc & u' & Hu' & _ & _ & Hst & _).
  - rewrite Hid. exact Hu.
  - vm_compute in Hu; injection Hu as <-; reflexivity.
  - vm_compute in Hu; injection Hu as <-; reflexivity.
  - vm_compute in Hu; injection Hu as <-; reflexivity.
  - left. vm_compute in Hu; injection Hu as <-; reflexivity.
  - rewrite Hname. vm_compute. reflexivity.
  - rewrite Hname. vm_compute. reflexivity.
  - rewrite Hname. discriminate.
  - rewrite Hid, Hname in *. split; [exact Hc|]. unfold status_of. rewrite Hu', lookup_insert_eq. cbn. rewrite Hst. reflexivity.
Defined.
