(* ===== verification/NetIP.v ===== *)
(** Go's package net as the address rules and the application relay use it:
[net.IP] and its tests, [ParseIP] and [IP.String] (through net/netip),
[ParseCIDR] and [IPNet.Contains], [SplitHostPort] and [JoinHostPort].  A
[net.IP] is a [[]byte]; [nil] is the empty list. *)
From S2P Require Import Prelude GoText Strconv Json.
Local Open Scope N_scope.

Abbreviation IP := bytes.

Definition IPv4len : nat := 4.
Definition IPv6len : nat := 16.

Definition dot : ascii := byte_of 46.
Definition colon : ascii := byte_of 58.
Definition percent : ascii := byte_of 37.
Definition slash : ascii := byte_of 47.
Definition lbracket : ascii := byte_of 91.
Definition rbracket : ascii := byte_of 93.

Definition octets (l : list N) : IP := byte_of <$> l.

Definition v4InV6Prefix : bytes := octets [0; 0; 0; 0; 0; 0; 0; 0; 0; 0; 255; 255].

(** [ip[i]]; every use is guarded by a length. *)
Definition octet (ip : IP) (i : nat) : N := byte_N (nth i ip zero).

(** [ip.To4()]: [None] is [nil]. *)
Definition To4 (ip : IP) : option IP :=
  if bool_decide (length ip = IPv4len) then Some ip
  else if bool_decide (length ip = IPv6len) && bool_decide (take 12 ip = v4InV6Prefix) then Some (drop 12 ip)
  else None.

(** [ip.Equal(x)]. *)
Definition Equal (ip x : IP) : bool :=
  if bool_decide (length ip = length x) then bool_decide (ip = x)
  else if bool_decide (length ip = IPv4len) && bool_decide (length x = IPv6len)
  then bool_decide (take 12 x = v4InV6Prefix) && bool_decide (ip = drop 12 x)
  else if bool_decide (length ip = IPv6len) && bool_decide (length x = IPv4len)
  then bool_decide (take 12 ip = v4InV6Prefix) && bool_decide (drop 12 ip = x)
  else false.

(** [net.IPv4(a, b, c, d)], sixteen bytes. *)
Definition IPv4 (a b c d : N) : IP := v4InV6Prefix ++ octets [a; b; c; d].

Definition IPv4zero : IP := IPv4 0 0 0 0.
Definition IPv4bcast : IP := IPv4 255 255 255 255.
Definition IPv6unspecified : IP := replicate 16 zero.
Definition IPv6loopback : IP := replicate 15 zero ++ octets [1].

Definition IsUnspecified (ip : IP) : bool := Equal ip IPv4zero || Equal ip IPv6unspecified.

Definition IsLoopback (ip : IP) : bool :=
  match To4 ip with
  | Some ip4 => octet ip4 0 =? 127
  | None => Equal ip IPv6loopback
  end.

Definition IsPrivate (ip : IP) : bool :=
  match To4 ip with
  | Some ip4 =>
      (octet ip4 0 =? 10) || ((octet ip4 0 =? 172) && (N.land (octet ip4 1) 240 =? 16))
      || ((octet ip4 0 =? 192) && (octet ip4 1 =? 168))
  | None => bool_decide (length ip = IPv6len) && (N.land (octet ip 0) 254 =? 252)
  end.

Definition IsMulticast (ip : IP) : bool :=
  match To4 ip with
  | Some ip4 => N.land (octet ip4 0) 240 =? 224
  | None => bool_decide (length ip = IPv6len) && (octet ip 0 =? 255)
  end.

Definition IsLinkLocalMulticast (ip : IP) : bool :=
  match To4 ip with
  | Some ip4 => (octet ip4 0 =? 224) && (octet ip4 1 =? 0) && (octet ip4 2 =? 0)
  | None => bool_decide (length ip = IPv6len) && (octet ip 0 =? 255) && (N.land (octet ip 1) 15 =? 2)
  end.

Definition IsLinkLocalUnicast (ip : IP) : bool :=
  match To4 ip with
  | Some ip4 => (octet ip4 0 =? 169) && (octet ip4 1 =? 254)
  | None => bool_decide (length ip = IPv6len) && (octet ip 0 =? 254) && (N.land (octet ip 1) 192 =? 128)
  end.

(** * Reading an address *)

(** [parseIPv4Fields]: [prev] is the byte before, [pos] the fields written. *)
Fixpoint fields4 (s : bytes) (prev : option ascii) (val digLen : N) (pos : nat) (out : bytes) : option bytes :=
  match s with
  | [] => if (pos <? 3)%nat then None else Some (out ++ [byte_of val])
  | c :: s' =>
      if is_digit c then
        if (digLen =? 1) && (val =? 0) then None
        else let val := val * 10 + digit_value c in
             if 255 <? val then None else fields4 s' (Some c) val (digLen + 1) pos out
      else if bool_decide (c = dot) then
        if bool_decide (prev = None) || bool_decide (s' = []) || bool_decide (prev = Some dot) then None
        else if (pos =? 3)%nat then None
        else fields4 s' (Some c) 0 0 (S pos) (out ++ [byte_of val])
      else None
  end.

Definition parseIPv4Fields (s : bytes) : option bytes := fields4 s None 0 0 0 [].

(** The hexadecimal number a group starts with: how many digits, its value and
what follows it. *)
Fixpoint hex_run (s : bytes) (off : nat) (acc : N) : option (nat * N * bytes) :=
  match s with
  | [] => Some (off, acc, [])
  | c :: s' =>
      match hex_value c with
      | Some v =>
          let acc := acc * 16 + v in
          if (3 <? off)%nat then None else if 65535 <? acc then None else hex_run s' (S off) acc
      | None => Some (off, acc, s)
      end
  end.

(** The loop of [parseIPv6]: [ip] holds the bytes written, so [i] is its
length, and the fuel is the number of groups that still fit, [(16 - i) / 2]. *)
Fixpoint groups6 (fuel : nat) (s ip : bytes) (ellipsis : option nat) : option (bytes * bytes * option nat) :=
  match fuel with
  | O => Some (s, ip, ellipsis)
  | S fuel =>
      '(off, acc, rest) ← hex_run s 0 0;
      if (off =? 0)%nat then None
      else if bool_decide (head rest = Some dot) then
        if bool_decide (ellipsis = None) && negb (length ip =? 12)%nat then None
        else if (16 <? length ip + 4)%nat then None
        else v4 ← parseIPv4Fields s; Some ([], ip ++ v4, ellipsis)
      else
        let ip := ip ++ [byte_of (acc / 256); byte_of (acc mod 256)] in
        match rest with
        | [] => Some ([], ip, ellipsis)
        | c :: s =>
            if negb (bool_decide (c = colon)) then None
            else match s with
                 | [] => None
                 | d :: s' =>
                     if bool_decide (d = colon) then
                       match ellipsis with
                       | Some _ => None
                       | None =>
                           match s' with
                           | [] => Some ([], ip, Some (length ip))
                           | _ => groups6 fuel s' ip (Some (length ip))
                           end
                       end
                     else groups6 fuel s ip ellipsis
                 end
        end
  end.

(** [parseIPv6] for an address with no zone (one with a zone is no [net.IP]). *)
Definition parseIPv6 (s : bytes) : option bytes :=
  let '(ellipsis, s') := match s with
                         | a :: b :: s' => if bool_decide (a = colon) && bool_decide (b = colon) then (Some O, s') else (None, s)
                         | _ => (None, s)
                         end in
  if bool_decide (ellipsis = Some O) && bool_decide (s' = []) then Some IPv6unspecified
  else
    '(rest, ip, ellipsis) ← groups6 8 s' [] ellipsis;
    if negb (bool_decide (rest = [])) then None
    else if (length ip <? 16)%nat then
      match ellipsis with
      | None => None
      | Some e => Some (take e ip ++ replicate (16 - length ip) zero ++ drop e ip)
      end
    else match ellipsis with Some _ => None | None => Some ip end.

(** An address as netip reads it: four bytes or sixteen. *)
Inductive Addr :=
| Addr4 (b : bytes)
| Addr6 (b : bytes).

(** [netip.ParseAddr]: the first dot or colon says which kind it is. *)
Fixpoint kind_of (s : bytes) : option ascii :=
  match s with
  | [] => None
  | c :: s => if bool_decide (c = dot) || bool_decide (c = colon) || bool_decide (c = percent) then Some c else kind_of s
  end.

Definition ParseAddr (s : bytes) : option Addr :=
  match kind_of s with
  | Some c =>
      if bool_decide (c = dot) then Addr4 <$> parseIPv4Fields s
      else if bool_decide (c = colon) then
        if bool_decide (percent ∈ s) then None else Addr6 <$> parseIPv6 s
      else None
  | None => None
  end.

Definition As16 (a : Addr) : IP :=
  match a with
  | Addr4 b => v4InV6Prefix ++ b
  | Addr6 b => b
  end.

Definition BitLen (a : Addr) : N := match a with Addr4 _ => 32 | Addr6 _ => 128 end.

(** [net.ParseIP], [nil] for what is no address. *)
Definition ParseIP (s : string) : IP :=
  match ParseAddr (to_bytes s) with
  | Some a => As16 a
  | None => []
  end.

(** * Writing an address *)

Fixpoint join (sep : bytes) (l : list bytes) : bytes :=
  match l with
  | [] => []
  | [x] => x
  | x :: l => x ++ sep ++ join sep l
  end.

Definition string4 (ip4 : IP) : bytes := join [dot] (decimal ∘ byte_N <$> ip4).

(** [appendHex]: a group without its leading zeros. *)
Definition appendHex (g : N) : bytes :=
  (if 4096 <=? g then [hex_digit (g / 4096)] else [])
  ++ (if 256 <=? g then [hex_digit (g / 256 mod 16)] else [])
  ++ (if 16 <=? g then [hex_digit (g / 16 mod 16)] else [])
  ++ [hex_digit (g mod 16)].

(** The eight groups, [ip.v6u16(i)]. *)
Fixpoint groups (ip : IP) : list N :=
  match ip with
  | a :: b :: ip => byte_N a * 256 + byte_N b :: groups ip
  | _ => []
  end.

(** The zero groups from a position on. *)
Definition zero_run (gs : list N) : nat := Strings.leading (λ g, g =? 0) gs.

(** The first of the longest runs of two zero groups or more. *)
Definition longest_run (gs : list N) : option (nat * nat) :=
  foldl (λ best i,
    let l := zero_run (drop i gs) in
    if ((2 <=? l) && (match best with Some (s, e) => e - s | None => 0 end <? l))%nat then Some (i, i + l)%nat else best)
    None (seq 0 8).

(** [appendTo6]. *)
Definition string6 (ip : IP) : bytes :=
  let gs := groups ip in
  match longest_run gs with
  | Some (s, e) => join [colon] (appendHex <$> take s gs) ++ [colon; colon] ++ join [colon] (appendHex <$> drop e gs)
  | None => join [colon] (appendHex <$> gs)
  end.

(** [ip.String()]. *)
Definition IP_String (ip : IP) : string :=
  if bool_decide (ip = []) then "<nil>"
  else if bool_decide (length ip = IPv4len) || bool_decide (length ip = IPv6len) then
    of_bytes match To4 ip with Some ip4 => string4 ip4 | None => string6 ip end
  else ("?" ++ of_bytes (ip ≫= λ a, [hex_digit (byte_N a / 16); hex_digit (byte_N a mod 16)]))%string.

(** * Networks *)

(** [net.CIDRMask(ones, bits)] as bytes. *)
Fixpoint CIDRMask (ones : N) (len : nat) : bytes :=
  match len with
  | O => []
  | S len =>
      if 8 <=? ones then byte_of 255 :: CIDRMask (ones - 8) len
      else byte_of (255 - N.shiftr 255 ones) :: CIDRMask 0 len
  end.

Record IPNet := mkNet { NetIP : IP; NetMask : bytes }.

Definition land_byte (a b : ascii) : ascii := byte_of (N.land (byte_N a) (byte_N b)).

(** [ip.Mask(mask)], for the masks [ParseCIDR] makes. *)
Definition Mask (ip mask : bytes) : option IP :=
  let ip := if bool_decide (length mask = IPv4len) && bool_decide (length ip = IPv6len)
                 && bool_decide (take 12 ip = v4InV6Prefix) then drop 12 ip else ip in
  if bool_decide (length ip = length mask) then Some (zip_with land_byte ip mask) else None.

Definition cut (sep : ascii) (s : bytes) : option (bytes * bytes) :=
  match list_find (λ c, c = sep) s with
  | Some (i, _) => Some (take i s, drop (S i) s)
  | None => None
  end.

(** [dtoi]: a run of digits, given up at [0xFFFFFF]. *)
Fixpoint dtoi_loop (s : bytes) (n : N) : option N :=
  match s with
  | [] => Some n
  | c :: s => if is_digit c then
                let n := n * 10 + digit_value c in
                if 16777215 <=? n then None else dtoi_loop s n
              else None
  end.
Definition dtoi (s : bytes) : option N := if bool_decide (s = []) then None else dtoi_loop s 0.

(** [net.ParseCIDR], the network alone. *)
Definition ParseCIDR (s : string) : option IPNet :=
  '(addr, mask) ← cut slash (to_bytes s);
  a ← ParseAddr addr;
  n ← dtoi mask;
  if BitLen a <? n then None
  else let m := CIDRMask n (N.to_nat (BitLen a / 8)) in
       ip ← Mask (As16 a) m; Some (mkNet ip m).

Definition networkNumberAndMask (n : IPNet) : bytes * bytes :=
  let ip := default (NetIP n) (To4 (NetIP n)) in
  let m := NetMask n in
  if negb (bool_decide (length ip = IPv4len) || bool_decide (length ip = IPv6len)) then ([], [])
  else if bool_decide (length m = IPv4len) then
    if bool_decide (length ip = IPv4len) then (ip, m) else ([], [])
  else if bool_decide (length m = IPv6len) then
    (ip, if bool_decide (length ip = IPv4len) then drop 12 m else m)
  else ([], []).

(** [n.Contains(ip)]. *)
Definition Contains (n : IPNet) (ip : IP) : bool :=
  let '(nn, m) := networkNumberAndMask n in
  let ip := default ip (To4 ip) in
  if negb (bool_decide (length ip = length nn)) then false
  else bool_decide (zip_with land_byte nn m = zip_with land_byte ip m).

(** * host:port *)

Definition index_byte (c : ascii) (s : bytes) : option nat := fst <$> list_find (λ d, d = c) s.

(** The last occurrence of [c]. *)
Definition last_index_byte (c : ascii) (s : bytes) : option nat :=
  (λ i, (length s - 1 - i)%nat) <$> index_byte c (rev s).

(** [net.SplitHostPort], [None] for its errors. *)
Definition split_bytes (s : bytes) : option (bytes * bytes) :=
  i ← last_index_byte colon s;
  '(host, j, k) ←
    (if bool_decide (head s = Some lbracket) then
       e ← index_byte rbracket s;
       if bool_decide (S e = i) then Some (take (e - 1) (drop 1 s), 1%nat, S e) else None
     else
       let host := take i s in
       if bool_decide (colon ∈ host) then None else Some (host, 0%nat, 0%nat));
  if bool_decide (lbracket ∈ drop j s) then None
  else if bool_decide (rbracket ∈ drop k s) then None
  else Some (host, drop (S i) s).

Definition SplitHostPort (hostport : string) : option (string * string) :=
  '(h, p) ← split_bytes (to_bytes hostport); Some (of_bytes h, of_bytes p).

(** [net.JoinHostPort]. *)
Definition JoinHostPort (host port : string) : string :=
  if bool_decide (colon ∈ to_bytes host) then ("[" ++ host ++ "]:" ++ port)%string
  else (host ++ ":" ++ port)%string.

(** * What is written is read back *)

Lemma fields4_decimal a s prev pos out :
  ∃ last digLen, last ≠ dot ∧
    fields4 (decimal (byte_N a) ++ s) prev 0 0 pos out = fields4 s (Some last) (byte_N a) digLen pos out.
Proof.
  destruct a as [[] [] [] [] [] [] [] []]; (eexists _, _; split; [|cbn; reflexivity]; discriminate).
Qed.

Lemma decimal_not_mark a : kind_of (decimal (byte_N a)) = None.
Proof. destruct a as [[] [] [] [] [] [] [] []]; vm_compute; reflexivity. Qed.

Lemma fields4_field a s prev pos out :
  s ≠ [] → (pos < 3)%nat →
  fields4 (decimal (byte_N a) ++ dot :: s) prev 0 0 pos out = fields4 s (Some dot) 0 0 (S pos) (out ++ [a]).
Proof.
  intros Hs Hp. destruct (fields4_decimal a (dot :: s) prev pos out) as (l & n & Hl & ->). cbn [fields4].
  change (is_digit dot) with false. rewrite (bool_decide_eq_true_2 (dot = dot)) by done.
  rewrite !bool_decide_eq_false_2 by congruence. cbn [orb].
  rewrite (proj2 (Nat.eqb_neq _ _)) by lia. by rewrite byte_of_byte_N.
Qed.

Lemma fields4_last a prev out : fields4 (decimal (byte_N a)) prev 0 0 3 out = Some (out ++ [a]).
Proof.
  destruct (fields4_decimal a [] prev 3 out) as (l & n & _ & E). rewrite app_nil_r in E. rewrite E. cbn.
  by rewrite byte_of_byte_N.
Qed.

Lemma kind_of_app s t : kind_of s = None → kind_of (s ++ t) = kind_of t.
Proof. induction s as [|c s IH]; simpl; [done|]. by case_match. Qed.

Lemma parse_string4 a b c d : ParseAddr (string4 [a; b; c; d]) = Some (Addr4 [a; b; c; d]).
Proof.
  assert (∀ x (s : bytes), decimal (byte_N x) ++ s ≠ []) as Hne.
  { intros x s [H%decimal_nonempty _]%app_nil. done. }
  pose proof (Hne d []) as Hd. rewrite app_nil_r in Hd.
  unfold ParseAddr, string4. cbn [fmap list_fmap join app]. unfold compose.
  rewrite kind_of_app by apply decimal_not_mark. cbn [kind_of].
  rewrite (bool_decide_eq_true_2 (dot = dot)) by done. cbn [orb]. rewrite (bool_decide_eq_true_2 (dot = dot)) by done.
  unfold parseIPv4Fields. rewrite !fields4_field by (auto with lia). by rewrite fields4_last.
Qed.

(** The groups of an address, back in bytes. *)
Definition ungroup (gs : list N) : IP := gs ≫= λ g, [byte_of (g / 256); byte_of (g mod 256)].

Definition is_group (g : N) : Prop := g < 65536.

Lemma groups_spec ip n : length ip = (2 * n)%nat → length (groups ip) = n ∧ Forall is_group (groups ip) ∧ ungroup (groups ip) = ip.
Proof.
  revert ip. induction n as [|n IH]; intros ip Hl.
  { destruct ip; [|done]. split_and!; [done|constructor|done]. }
  destruct ip as [|a [|b ip]]; [done| |]; simpl in Hl; [lia|]. destruct (IH ip) as (? & ? & Hu); [lia|].
  pose proof (byte_N_bound a). pose proof (byte_N_bound b). cbn [groups length]. split_and!.
  - lia.
  - constructor; [unfold is_group; lia|done].
  - unfold ungroup in *. cbn [mbind list_bind app]. rewrite Hu. repeat f_equal.
    all: rewrite <-byte_of_byte_N; f_equal; div_lia.
Qed.

Lemma ungroup_length gs : length (ungroup gs) = (2 * length gs)%nat.
Proof. induction gs as [|g gs IH]; [done|]. unfold ungroup in *. cbn [mbind list_bind length app]. rewrite IH. lia. Qed.

Lemma ungroup_app gs hs : ungroup (gs ++ hs) = ungroup gs ++ ungroup hs.
Proof. apply bind_app. Qed.

Lemma ungroup_zeros n : ungroup (replicate n 0) = replicate (2 * n) zero.
Proof.
  induction n as [|n IH]; [done|]. cbn [replicate]. unfold ungroup in *. cbn [mbind list_bind]. rewrite IH.
  replace (2 * S n)%nat with (S (S (2 * n))) by lia. done.
Qed.

(** A byte that ends a hexadecimal group. *)
Definition ends_group (rest : bytes) : Prop := match rest with [] => True | c :: _ => hex_value c = None end.

Lemma hex_run_end off acc rest : ends_group rest → hex_run rest off acc = Some (off, acc, rest).
Proof. destruct rest as [|c rest]; simpl; [done|]. by intros ->. Qed.

Lemma hex_run_digit d s off acc :
  d < 16 → (off <= 3)%nat → acc * 16 + d < 65536 →
  hex_run (hex_digit d :: s) off acc = hex_run s (S off) (acc * 16 + d).
Proof.
  intros Hd Ho Ha. cbn [hex_run]. rewrite hex_value_digit by done.
  rewrite (proj2 (Nat.ltb_ge _ _)) by lia. by rewrite (proj2 (N.ltb_ge _ _)) by lia.
Qed.

Lemma hex_run_group g rest :
  is_group g → ends_group rest → ∃ off, (0 < off)%nat ∧ hex_run (appendHex g ++ rest) 0 0 = Some (off, g, rest).
Proof.
  unfold is_group. intros Hg Hr. unfold appendHex.
  destruct (N.leb_spec 4096 g); [|destruct (N.leb_spec 256 g); [|destruct (N.leb_spec 16 g)]].
  - rewrite !(proj2 (N.leb_le _ g)) by lia. cbn [app]. rewrite !hex_run_digit, hex_run_end by (done || div_lia).
    eexists _. split; [|repeat f_equal; div_lia]. lia.
  - rewrite !(proj2 (N.leb_le _ g)) by lia. cbn [app]. rewrite !hex_run_digit, hex_run_end by (done || div_lia).
    eexists _. split; [|repeat f_equal; div_lia]. lia.
  - cbn [app]. rewrite !hex_run_digit, hex_run_end by (done || div_lia).
    eexists _. split; [|repeat f_equal; div_lia]. lia.
  - cbn [app]. rewrite !hex_run_digit, hex_run_end by (done || div_lia).
    eexists _. split; [|repeat f_equal; div_lia]. lia.
Qed.

(** A group is written in hexadecimal digits, at least one. *)
Lemma appendHex_digits g : is_group g → appendHex g ≠ [] ∧ Forall (λ c, is_Some (hex_value c)) (appendHex g).
Proof.
  unfold is_group, appendHex. intros Hg. split; [by intros [_ [_ [_ ?]%app_nil]%app_nil]%app_nil|].
  assert (∀ d, d < 16 → is_Some (hex_value (hex_digit d))) as Hd by (intros d ?; rewrite hex_value_digit; eauto).
  repeat apply Forall_app_2; repeat case_match; repeat (constructor; [apply Hd; div_lia|]); constructor.
Qed.

Definition joined (gs : list N) : bytes := join [colon] (appendHex <$> gs).

Lemma joined_cons g h gs : joined (g :: h :: gs) = appendHex g ++ colon :: joined (h :: gs).
Proof. done. Qed.

(** What is joined starts with a digit. *)
Lemma joined_head g gs t :
  is_group g → ∃ c s, joined (g :: gs) ++ t = c :: s ∧ c ≠ colon ∧ c ≠ dot ∧ c ≠ percent.
Proof.
  intros [Hne Hd]%appendHex_digits. destruct (appendHex g) as [|c s] eqn:E; [done|].
  apply Forall_cons in Hd as [[v Hv] _].
  assert (∃ s', joined (g :: gs) = c :: s') as [s' ->].
  { destruct gs as [|h gs]; [|rewrite joined_cons]; unfold joined; cbn; rewrite E; simpl; eauto. }
  exists c, (s' ++ t). split; [done|]. split_and!; intros ->; discriminate.
Qed.

Lemma colon_ends s : ends_group (colon :: s).
Proof. reflexivity. Qed.

(** One group of the loop and the colon after it. *)
Lemma groups6_step g s fuel ip ell :
  is_group g → (∃ c s', s = c :: s' ∧ c ≠ colon) →
  groups6 (S fuel) (appendHex g ++ colon :: s) ip ell = groups6 fuel s (ip ++ ungroup [g]) ell.
Proof.
  intros Hg (c & s' & -> & Hc). cbn [groups6].
  destruct (hex_run_group g (colon :: c :: s') Hg (colon_ends _)) as (off & Ho & ->). cbn [mbind option_bind].
  rewrite (proj2 (Nat.eqb_neq _ _)) by lia. rewrite bool_decide_eq_false_2 by done.
  rewrite (bool_decide_eq_true_2 (colon = colon)) by done. cbn [negb].
  by rewrite (bool_decide_eq_false_2 (c = colon)).
Qed.

(** The groups up to the end of the text. *)
Lemma groups6_end gs fuel ip ell :
  Forall is_group gs → gs ≠ [] → (length gs ≤ fuel)%nat →
  groups6 fuel (joined gs) ip ell = Some ([], ip ++ ungroup gs, ell).
Proof.
  revert fuel ip. induction gs as [|g gs IH]; intros fuel ip Hg Hne Hf; [done|].
  destruct fuel as [|fuel]; simpl in Hf; [lia|]. apply Forall_cons in Hg as [Hg Hgs].
  destruct gs as [|h gs].
  - unfold joined. cbn [fmap list_fmap join groups6].
    destruct (hex_run_group g [] Hg I) as (off & Ho & E). rewrite app_nil_r in E. rewrite E. cbn [mbind option_bind].
    rewrite (proj2 (Nat.eqb_neq _ _)) by lia. by rewrite bool_decide_eq_false_2 by done.
  - rewrite joined_cons, groups6_step; [|done|].
    + rewrite IH by (done || simpl in *; lia). by rewrite <-app_assoc, <-ungroup_app.
    + apply Forall_cons in Hgs as [Hh _]. destruct (joined_head h gs [] Hh) as (c & s & E & ? & _).
      rewrite app_nil_r in E. eauto.
Qed.

(** The groups up to the first [::]. *)
Lemma groups6_ellipsis gs t fuel ip :
  Forall is_group gs → gs ≠ [] → (length gs ≤ fuel)%nat →
  groups6 fuel (joined gs ++ colon :: colon :: t) ip None =
  let ip' := ip ++ ungroup gs in
  match t with
  | [] => Some ([], ip', Some (length ip'))
  | _ => groups6 (fuel - length gs) t ip' (Some (length ip'))
  end.
Proof.
  revert fuel ip. induction gs as [|g gs IH]; intros fuel ip Hg Hne Hf; [done|].
  destruct fuel as [|fuel]; simpl in Hf; [lia|]. apply Forall_cons in Hg as [Hg Hgs].
  destruct gs as [|h gs].
  - unfold joined. cbn [fmap list_fmap join groups6].
    destruct (hex_run_group g (colon :: colon :: t) Hg (colon_ends _)) as (off & Ho & ->). cbn [mbind option_bind].
    rewrite (proj2 (Nat.eqb_neq _ _)) by lia. rewrite bool_decide_eq_false_2 by done.
    rewrite (bool_decide_eq_true_2 (colon = colon)) by done. cbn [negb length].
    rewrite Nat.sub_1_r. cbn [Nat.pred]. by destruct t.
  - rewrite joined_cons. rewrite <-app_assoc. cbn [app]. rewrite groups6_step; [|done|].
    + rewrite IH by (done || simpl in *; lia). by rewrite <-app_assoc, <-ungroup_app.
    + apply Forall_cons in Hgs as [Hh _]. destruct (joined_head h gs (colon :: colon :: t) Hh) as (c & s & ? & ? & _). eauto.
Qed.

(** * The longest run of zeros *)

Lemma zero_run_zeros gs : take (zero_run gs) gs = replicate (zero_run gs) 0 ∧ (zero_run gs ≤ length gs)%nat.
Proof.
  unfold zero_run. split; [|apply Strings.leading_le].
  induction gs as [|g gs IH]; simpl; [done|]. destruct (N.eqb_spec g 0) as [->|]; simpl; [by rewrite IH|done].
Qed.

Lemma longest_run_spec gs s e :
  length gs = 8%nat → longest_run gs = Some (s, e) →
  (s + 2 ≤ e)%nat ∧ (e ≤ 8)%nat ∧ gs = take s gs ++ replicate (e - s) 0 ++ drop e gs.
Proof.
  intros Hl. unfold longest_run.
  assert (∀ ix best, Forall (λ i, (i < 8)%nat) ix →
    (∀ s e, best = Some (s, e) → (s + 2 ≤ e)%nat ∧ (e ≤ 8)%nat ∧ gs = take s gs ++ replicate (e - s) 0 ++ drop e gs) →
    ∀ s e, foldl (λ best i, let l := zero_run (drop i gs) in
      if ((2 <=? l) && (match best with Some (s, e) => e - s | None => 0 end <? l))%nat then Some (i, i + l)%nat else best) best ix
      = Some (s, e) → (s + 2 ≤ e)%nat ∧ (e ≤ 8)%nat ∧ gs = take s gs ++ replicate (e - s) 0 ++ drop e gs) as H.
  { intros ix. induction ix as [|i ix IH]; intros best Hix Hb; [exact Hb|]. cbn [foldl]. apply Forall_cons in Hix as [Hi Hix].
    apply IH; [done|]. cbv zeta. destruct (_ && _) eqn:E; [|done]. apply andb_true_iff in E as [?%Nat.leb_le _].
    intros s' e' [= <- <-]. destruct (zero_run_zeros (drop i gs)) as [Hz Hle]. rewrite length_drop in Hle.
    split_and!; [lia|lia|]. replace (i + zero_run (drop i gs) - i)%nat with (zero_run (drop i gs)) by lia.
    rewrite <-Hz, <-(take_drop i gs) at 1. f_equal. rewrite <-(take_drop (zero_run (drop i gs)) (drop i gs)) at 1.
    by rewrite drop_drop. }
  apply (H (seq 0 8) None); [|done]. by repeat (constructor; [lia|]).
Qed.

(** * Reading back *)

Lemma kind_of_head c s : c ≠ colon → c ≠ dot → c ≠ percent → kind_of (c :: s) = kind_of s.
Proof. intros. cbn [kind_of]. by rewrite !bool_decide_eq_false_2. Qed.

Lemma hex_not_mark s : Forall (λ c, is_Some (hex_value c)) s → kind_of s = None ∧ (percent ∉ s).
Proof.
  induction s as [|c s IH]; [by split; [|apply not_elem_of_nil]|]. intros [[v Hv] [IH1 IH2]%IH]%Forall_cons.
  assert (c ≠ colon ∧ c ≠ dot ∧ c ≠ percent) as (? & ? & ?) by (split_and!; intros ->; discriminate).
  split; [by rewrite kind_of_head|]. apply not_elem_of_cons. split; congruence.
Qed.

Lemma joined_marks gs : Forall is_group gs → (percent ∉ joined gs) ∧ (kind_of (joined gs) = None ∨ kind_of (joined gs) = Some colon).
Proof.
  induction gs as [|g gs IH]; [split; [apply not_elem_of_nil|by left]|]. intros [Hg Hgs]%Forall_cons.
  destruct (hex_not_mark (appendHex g)) as [Hk Hp]; [by apply appendHex_digits|].
  destruct gs as [|h gs]; [unfold joined; cbn; auto|]. rewrite joined_cons. destruct (IH Hgs) as [Hn _]. split.
  - rewrite not_elem_of_app, not_elem_of_cons. split_and!; done.
  - right. by rewrite kind_of_app.
Qed.

(** [parseIPv6] on a text with no [::] in front. *)
Lemma parseIPv6_plain c s :
  c ≠ colon → parseIPv6 (c :: s) = (
    '(rest, ip, ellipsis) ← groups6 8 (c :: s) [] None;
    if negb (bool_decide (rest = [])) then None
    else if (length ip <? 16)%nat then
      match ellipsis with
      | None => None
      | Some e => Some (take e ip ++ replicate (16 - length ip) zero ++ drop e ip)
      end
    else match ellipsis with Some _ => None | None => Some ip end).
Proof.
  intros Hc. unfold parseIPv6.
  assert (match c :: s with
          | a :: b :: s' => if bool_decide (a = colon) && bool_decide (b = colon) then (Some O, s') else (None, c :: s)
          | _ => (None, c :: s)
          end = (None, c :: s)) as -> by (destruct s; [done|by rewrite bool_decide_eq_false_2]).
  done.
Qed.

(** The whole text: groups, [::] for the zeros between, groups. *)
Lemma parseIPv6_ellipsis gs n hs :
  Forall is_group gs → Forall is_group hs → (length gs + n + length hs = 8)%nat → (0 < n)%nat →
  parseIPv6 (joined gs ++ [colon; colon] ++ joined hs) = Some (ungroup (gs ++ replicate n 0 ++ hs)).
Proof.
  intros Hg Hh Hl Hn. rewrite !ungroup_app, ungroup_zeros.
  assert (hs ≠ [] → ∃ c s, joined hs = c :: s) as Hne.
  { destruct hs as [|h hs]; [done|]. intros _. apply Forall_cons in Hh as [Hh _].
    destruct (joined_head h hs [] Hh) as (c & s & E & _). rewrite app_nil_r in E. eauto. }
  destruct gs as [|g gs].
  - cbn [length] in Hl. change (joined [] ++ [colon; colon] ++ joined hs) with (colon :: colon :: joined hs).
    unfold parseIPv6. rewrite (bool_decide_eq_true_2 (colon = colon)) by done. cbn [andb].
    rewrite (bool_decide_eq_true_2 (Some 0%nat = Some 0%nat)) by done. cbn [andb].
    destruct hs as [|h hs]; [simpl in Hl; by assert (n = 8%nat) as -> by lia|].
    destruct Hne as (c & s & E); [done|]. rewrite bool_decide_eq_false_2 by (rewrite E; done).
    rewrite groups6_end by (done || simpl in *; lia). cbn [mbind option_bind app].
    rewrite (bool_decide_eq_true_2 ([] = [])) by done. cbn [negb].
    pose proof (ungroup_length (h :: hs)). rewrite (proj2 (Nat.ltb_lt _ _)) by lia.
    change (ungroup []) with (@nil ascii). rewrite take_0, drop_0, !app_nil_l. do 3 f_equal. simpl in *. lia.
  - destruct (joined_head g gs ([colon; colon] ++ joined hs)) as (c & s & E & Hc & _); [by apply Forall_cons in Hg as []|].
    rewrite E, parseIPv6_plain, <-E by done. cbn [app].
    rewrite groups6_ellipsis by (done || simpl in *; lia). cbv zeta. rewrite app_nil_l.
    pose proof (ungroup_length (g :: gs)) as Hgl. pose proof (ungroup_length hs) as Hhl.
    assert (∀ z, z = ungroup hs → take (length (ungroup (g :: gs))) (ungroup (g :: gs) ++ z) ++
      replicate (16 - length (ungroup (g :: gs) ++ z)) zero ++ drop (length (ungroup (g :: gs))) (ungroup (g :: gs) ++ z)
      = ungroup (g :: gs) ++ replicate (2 * n) zero ++ ungroup hs) as Hz.
    { intros z ->. rewrite take_app_length, drop_app_length, length_app. do 3 f_equal. lia. }
    destruct hs as [|h hs].
    + cbn [joined fmap list_fmap join mbind option_bind]. rewrite bool_decide_eq_true_2 by done. cbn [negb].
      rewrite (proj2 (Nat.ltb_lt _ _)) by (simpl in *; lia). f_equal. rewrite <-(Hz []) by done. by rewrite app_nil_r.
    + destruct Hne as (d & u & E'); [done|]. rewrite E' at 1. rewrite groups6_end by (done || simpl in *; lia).
      cbn [mbind option_bind]. rewrite (bool_decide_eq_true_2 ([] = [])) by done. cbn [negb].
      rewrite (proj2 (Nat.ltb_lt _ _)) by (rewrite length_app; simpl in *; lia). f_equal. by apply Hz.
Qed.

Lemma parseIPv6_full gs : Forall is_group gs → length gs = 8%nat → parseIPv6 (joined gs) = Some (ungroup gs).
Proof.
  intros Hg Hl. destruct gs as [|g gs]; [done|].
  destruct (joined_head g gs []) as (c & s & E & Hc & _); [by apply Forall_cons in Hg as []|]. rewrite app_nil_r in E.
  rewrite E, parseIPv6_plain, <-E by done. rewrite groups6_end by (done || lia). cbn [mbind option_bind app].
  rewrite bool_decide_eq_true_2 by done. cbn [negb]. pose proof (ungroup_length (g :: gs)).
  by rewrite (proj2 (Nat.ltb_ge _ _)) by lia.
Qed.

Lemma parse_string6 ip : length ip = IPv6len → ParseAddr (string6 ip) = Some (Addr6 ip).
Proof.
  intros Hip. destruct (groups_spec ip 8 Hip) as (Hl & Hg & Hu).
  assert (∃ s t, string6 ip = s ++ colon :: t ∧ kind_of s = None ∧ (percent ∉ string6 ip) ∧ parseIPv6 (string6 ip) = Some ip)
    as (s & t & E & Hk & Hp & Hr).
  { unfold string6. destruct (longest_run (groups ip)) as [[s e]|] eqn:Er.
    - destruct (longest_run_spec _ _ _ Hl Er) as (? & ? & Eg).
      assert (Forall is_group (take s (groups ip)) ∧ Forall is_group (drop e (groups ip))) as [Ht Hd]
        by (split; [by apply Forall_take|by apply Forall_drop]).
      fold (joined (take s (groups ip))) (joined (drop e (groups ip))).
      destruct (joined_marks _ Ht) as [Hp1 Hk1]. destruct (joined_marks _ Hd) as [Hp2 _].
      assert (parseIPv6 (joined (take s (groups ip)) ++ [colon; colon] ++ joined (drop e (groups ip))) = Some ip) as Hparse.
      { rewrite (parseIPv6_ellipsis _ (e - s)); [by rewrite <-Eg, Hu|done|done| |lia].
        rewrite length_take, length_drop. lia. }
      assert (percent ∉ joined (take s (groups ip)) ++ [colon; colon] ++ joined (drop e (groups ip))) as Hnp.
      { rewrite !not_elem_of_app, !not_elem_of_cons. split_and!; try done. apply not_elem_of_nil. }
      destruct (take s (groups ip)) as [|g [|h gs]] eqn:Et.
      + exists [], (colon :: joined (drop e (groups ip))). done.
      + exists (appendHex g), (colon :: joined (drop e (groups ip))). split_and!; try done.
        apply hex_not_mark, appendHex_digits. by apply Forall_cons in Ht as [].
      + exists (appendHex g), (joined (h :: gs) ++ [colon; colon] ++ joined (drop e (groups ip))).
        split_and!; try done; [by rewrite joined_cons, <-app_assoc|].
        apply hex_not_mark, appendHex_digits. by apply Forall_cons in Ht as [].
    - fold (joined (groups ip)). destruct (joined_marks _ Hg) as [Hp _]. pose proof (parseIPv6_full _ Hg Hl) as Hfull.
      rewrite Hu in Hfull. destruct (groups ip) as [|g [|h gs]]; [done|done|].
      exists (appendHex g), (joined (h :: gs)). split_and!; try done.
      apply hex_not_mark, appendHex_digits. by apply Forall_cons in Hg as []. }
  unfold ParseAddr. rewrite E at 1. rewrite kind_of_app by done. cbn [kind_of].
  rewrite (bool_decide_eq_false_2 (colon = dot)), (bool_decide_eq_true_2 (colon = colon)) by done. cbn [orb].
  rewrite (bool_decide_eq_false_2 (colon = dot)), (bool_decide_eq_true_2 (colon = colon)) by done.
  rewrite bool_decide_eq_false_2 by done. by rewrite Hr.
Qed.

(** The sixteen bytes of an address. *)
Definition To16 (ip : IP) : IP := if bool_decide (length ip = IPv4len) then v4InV6Prefix ++ ip else ip.

(** An address as a resolver or a parser gives it: four bytes or sixteen. *)
Definition is_ip (ip : IP) : Prop := length ip = IPv4len ∨ length ip = IPv6len.

Lemma ParseIP_String ip : is_ip ip → ParseIP (IP_String ip) = To16 ip.
Proof.
  intros Hip. unfold IP_String, ParseIP, To16, To4.
  rewrite bool_decide_eq_false_2 by (intros ->; destruct Hip; done).
  destruct Hip as [H4|H6].
  - rewrite (bool_decide_eq_true_2 (length ip = IPv4len)) by done. cbn [orb]. rewrite to_of_bytes.
    destruct ip as [|a [|b [|c [|d []]]]]; try done. by rewrite parse_string4.
  - rewrite (bool_decide_eq_false_2 (length ip = IPv4len)), (bool_decide_eq_true_2 (length ip = IPv6len)) by (rewrite H6; done).
    cbn [orb andb]. case_bool_decide as Hp; rewrite to_of_bytes.
    + pose proof (length_drop ip 12) as Hd. rewrite H6 in Hd. rewrite <-(take_drop 12 ip) at 2. rewrite Hp.
      destruct (drop 12 ip) as [|a [|b [|c [|d []]]]]; try done. by rewrite parse_string4.
    + by rewrite parse_string6.
Qed.

(** * What is read is an address *)

Lemma fields4_length s prev val digLen pos out b :
  length out = pos → (pos ≤ 3)%nat → fields4 s prev val digLen pos out = Some b → length b = 4%nat.
Proof.
  revert prev val digLen pos out. induction s as [|c s IH]; intros prev val digLen pos out Hl Hp; cbn [fields4].
  { destruct (Nat.ltb_spec pos 3); [done|]. intros [= <-]. rewrite length_app. simpl. lia. }
  destruct (is_digit c).
  - destruct (_ && _); [done|]. cbv zeta. destruct (_ <? _); [done|]. by apply IH.
  - destruct (bool_decide _); [|done]. destruct (_ || _); [done|].
    destruct (Nat.eqb_spec pos 3); [done|]. apply IH; [rewrite length_app; simpl; lia|lia].
Qed.

Lemma parseIPv4Fields_length s b : parseIPv4Fields s = Some b → length b = 4%nat.
Proof. apply fields4_length; [done|lia]. Qed.

Lemma groups6_length fuel s ip ell rest ip' ell' :
  (length ip + 2 * fuel = 16)%nat → (∀ e, ell = Some e → (e ≤ length ip)%nat) →
  groups6 fuel s ip ell = Some (rest, ip', ell') →
  (length ip' ≤ 16)%nat ∧ (∀ e, ell' = Some e → (e ≤ length ip')%nat).
Proof.
  revert s ip ell. induction fuel as [|fuel IH]; intros s ip ell Hf He; cbn [groups6].
  { intros [= <- <- <-]. split; [lia|done]. }
  destruct (hex_run s 0 0) as [[[off acc] r]|]; cbn [mbind option_bind]; [|done].
  destruct (off =? 0)%nat; [done|]. destruct (bool_decide (head r = Some dot)).
  { destruct (_ && _); [done|]. destruct (Nat.ltb_spec 16 (length ip + 4)); [done|].
    destruct (parseIPv4Fields s) as [v4|] eqn:E; cbn [mbind option_bind]; [|done]. intros [= <- <- <-].
    apply parseIPv4Fields_length in E. rewrite length_app. split; [lia|]. intros e ?%He. lia. }
  cbv zeta. set (ip2 := ip ++ _). assert (length ip2 = (length ip + 2)%nat) as Hl by (unfold ip2; rewrite length_app; done).
  assert (∀ e, ell = Some e → (e ≤ length ip2)%nat) as He2 by (intros e ?%He; lia).
  destruct r as [|c r]; [intros [= <- <- <-]; split; [lia|done]|]. destruct (negb _); [done|].
  destruct r as [|d r]; [done|]. destruct (bool_decide (d = colon)); [|apply IH; [lia|done]].
  destruct ell as [e|]; [done|]. destruct r as [|d' r].
  - intros [= <- <- <-]. split; [lia|]. by intros e [= <-].
  - apply IH; [lia|]. by intros e [= <-].
Qed.

Lemma parseIPv6_length s b : parseIPv6 s = Some b → length b = 16%nat.
Proof.
  unfold parseIPv6.
  assert (∀ ell s', (∀ e, ell = Some e → (e ≤ 0)%nat) →
    (if bool_decide (ell = Some O) && bool_decide (s' = []) then Some IPv6unspecified
     else '(rest, ip, ellipsis) ← groups6 8 s' [] ell;
       if negb (bool_decide (rest = [])) then None
       else if (length ip <? 16)%nat then
         match ellipsis with None => None | Some e => Some (take e ip ++ replicate (16 - length ip) zero ++ drop e ip) end
       else match ellipsis with Some _ => None | None => Some ip end) = Some b → length b = 16%nat) as H.
  { intros ell s' He. destruct (_ && _); [by intros [= <-]|].
    destruct (groups6 8 s' [] ell) as [[[rest ip] ell']|] eqn:E; cbn [mbind option_bind]; [|done].
    apply groups6_length in E as [Hl He']; [|done|done]. destruct (negb _); [done|].
    destruct (Nat.ltb_spec (length ip) 16).
    - destruct ell' as [e|]; [|done]. specialize (He' e eq_refl). intros [= <-].
      rewrite !length_app, length_take, length_replicate, length_drop. lia.
    - destruct ell'; [done|]. intros [= <-]. lia. }
  destruct s as [|a [|c s]]; [by apply (H None)..|]. destruct (_ && _); [|by apply (H None)].
  apply (H (Some O)). by intros e [= <-].
Qed.

Lemma As16_length s a : ParseAddr s = Some a → length (As16 a) = IPv6len.
Proof.
  unfold ParseAddr. destruct (kind_of s) as [c|]; [|done]. destruct (bool_decide (c = dot)).
  { destruct (parseIPv4Fields s) eqn:E; [|done]. intros [= <-]. apply parseIPv4Fields_length in E. cbn [As16]. by rewrite length_app, E. }
  destruct (bool_decide (c = colon)); [|done]. destruct (bool_decide (percent ∈ s)); [done|].
  destruct (parseIPv6 s) eqn:E; [|done]. intros [= <-]. by apply parseIPv6_length in E.
Qed.

Lemma ParseIP_length s : ParseIP s = [] ∨ length (ParseIP s) = IPv6len.
Proof. unfold ParseIP. destruct (ParseAddr _) eqn:E; [right; by eapply As16_length|by left]. Qed.

Lemma ParseIP_is_ip s : ParseIP s ≠ [] → is_ip (ParseIP s).
Proof. destruct (ParseIP_length s) as [->|?]; [done|]. intros _. by right. Qed.

(** * host:port, joined and split *)

Lemma index_byte_cons c d l : index_byte c (d :: l) = if decide (d = c) then Some O else S <$> index_byte c l.
Proof. unfold index_byte. cbn. case_decide; [done|]. by destruct (list_find _ l) as [[??]|]. Qed.

Lemma index_byte_app c l r : c ∉ l → index_byte c (l ++ c :: r) = Some (length l).
Proof.
  induction l as [|d l IH]; cbn [app length]; rewrite index_byte_cons.
  - intros _. by rewrite decide_True.
  - intros [Hd Hl]%not_elem_of_cons. rewrite decide_False, IH by congruence. done.
Qed.

Lemma last_index_app c l r : c ∉ r → last_index_byte c (l ++ c :: r) = Some (length l).
Proof.
  intros Hr. unfold last_index_byte. rewrite rev_app_distr. cbn [rev]. rewrite <-app_assoc. cbn [app].
  rewrite index_byte_app by (rewrite list_elem_of_In, <-in_rev, <-list_elem_of_In; done).
  cbn. rewrite length_app, length_rev. simpl. f_equal. lia.
Qed.

Definition bracketless (s : bytes) : Prop := (lbracket ∉ s) ∧ (rbracket ∉ s).

Ltac not_in := rewrite ?not_elem_of_app, ?not_elem_of_cons; repeat split; try done.

Lemma split_join h p :
  bracketless (to_bytes h) → bracketless (to_bytes p) → colon ∉ to_bytes p →
  SplitHostPort (JoinHostPort h p) = Some (h, p).
Proof.
  intros [Hl Hr] [Hlp Hrp] Hp. unfold SplitHostPort, JoinHostPort.
  transitivity (Some (of_bytes (to_bytes h), of_bytes (to_bytes p))); [|by rewrite !of_to_bytes]. case_bool_decide as Hc.
  - rewrite !to_bytes_app. change (to_bytes "[") with [lbracket]. change (to_bytes "]:") with [rbracket; colon].
    set (b := to_bytes h) in *. set (q := to_bytes p) in *.
    assert ([lbracket] ++ b ++ [rbracket; colon] ++ q = (lbracket :: b ++ [rbracket]) ++ colon :: q) as E
      by (cbn; by rewrite <-app_assoc).
    unfold split_bytes. rewrite E at 1. rewrite last_index_app by done. cbn [mbind option_bind].
    rewrite (bool_decide_eq_true_2 (head _ = _)) by done.
    change ([lbracket] ++ b ++ [rbracket; colon] ++ q) with ((lbracket :: b) ++ rbracket :: colon :: q).
    rewrite index_byte_app by not_in. cbn [mbind option_bind].
    rewrite bool_decide_eq_true_2 by (simpl; rewrite length_app; simpl; lia). cbn [mbind option_bind].
    replace (length (lbracket :: b) - 1)%nat with (length b) by (simpl; lia).
    cbn [app drop length]. rewrite !drop_0, take_app_length.
    rewrite bool_decide_eq_false_2 by not_in.
    rewrite drop_app_ge by lia. replace (S (length b) - length b)%nat with 1%nat by lia. cbn [drop].
    rewrite bool_decide_eq_false_2 by not_in. cbn [mbind option_bind]. do 3 f_equal.
    rewrite length_app, drop_app_ge by lia. by replace (S (length b + length [rbracket]) - length b)%nat with 2%nat by (simpl; lia).
  - rewrite !to_bytes_app. change (to_bytes ":") with [colon]. set (b := to_bytes h) in *. set (q := to_bytes p) in *.
    cbn [app]. unfold split_bytes. rewrite last_index_app by done. cbn [mbind option_bind].
    rewrite (bool_decide_eq_false_2 (head _ = _)).
    2:{ destruct b as [|c b]; [done|]. intros [= ->]. apply Hl. left. }
    rewrite take_app_length, bool_decide_eq_false_2 by done. cbn [mbind option_bind]. rewrite drop_0.
    rewrite !bool_decide_eq_false_2 by not_in.
    cbn. rewrite drop_app_ge by lia. by replace (S (length b) - length b)%nat with 1%nat by lia.
Qed.

(** * Addresses as numbers *)

(** The big-endian number an address is. *)
Fixpoint value (ip : IP) : N :=
  match ip with
  | [] => 0
  | a :: ip => byte_N a * 2 ^ (8 * N.of_nat (length ip)) + value ip
  end.

Lemma value_bound ip : value ip < 2 ^ (8 * N.of_nat (length ip)).
Proof.
  induction ip as [|a ip IH]; cbn [value length]; [vm_compute; reflexivity|].
  pose proof (byte_N_bound a). rewrite Nat2N.inj_succ, N.mul_succ_r, N.pow_add_r. change (2 ^ 8) with 256. nia.
Qed.

Lemma value_app p q : value (p ++ q) = value p * 2 ^ (8 * N.of_nat (length q)) + value q.
Proof.
  induction p as [|a p IH]; cbn [app value]; [lia|]. rewrite IH, length_app, Nat2N.inj_add, N.mul_add_distr_l, N.pow_add_r. lia.
Qed.

Lemma byte_N_inj a b : byte_N a = byte_N b → a = b.
Proof. intros H. by rewrite <-(byte_of_byte_N a), H, byte_of_byte_N. Qed.

(** A quotient and a remainder below the divisor are determined by the number. *)
Lemma digits_unique a b x y n : x < n → y < n → a * n + x = b * n + y → a = b ∧ x = y.
Proof. intros. assert (a = b) as -> by nia. lia. Qed.

Lemma value_inj p q : length p = length q → value p = value q → p = q.
Proof.
  revert q. induction p as [|a p IH]; intros [|b q]; cbn [length value]; try done. intros [= Hl] H.
  rewrite Hl in H. apply digits_unique in H as [->%byte_N_inj ?]; [by f_equal; apply IH| |apply value_bound].
  rewrite <-Hl. apply value_bound.
Qed.

Lemma cons_inj {A} (a b : A) l k : a :: l = b :: k → a = b ∧ l = k.
Proof. by intros [= -> ->]. Qed.

(** ** Masks *)

Lemma CIDRMask_length n len : length (CIDRMask n len) = len.
Proof. revert n. induction len as [|len IH]; intros n; cbn [CIDRMask]; [done|]. case_match; cbn; by rewrite IH. Qed.

Lemma mask_none p len : length p = len → zip_with land_byte p (CIDRMask 0 len) = replicate len zero.
Proof.
  revert len. induction p as [|a p IH]; intros [|len]; cbn [length CIDRMask]; try done. intros [= Hl].
  change (8 <=? 0) with false. cbn [zip_with replicate]. rewrite IH by done. f_equal.
  unfold land_byte. change (byte_N (byte_of (255 - N.shiftr 255 0))) with 0. by rewrite N.land_0_r.
Qed.

Lemma mask_byte_all :
  forallb (λ k, forallb (λ x, N.land (N.of_nat x) (byte_N (byte_of (255 - N.shiftr 255 (N.of_nat k))))
                              =? N.of_nat x / 2 ^ (8 - N.of_nat k) * 2 ^ (8 - N.of_nat k)) (seq 0 256)) (seq 0 9) = true.
Proof. vm_compute. reflexivity. Qed.

Lemma land_byte_mask a k :
  k <= 8 → byte_N (land_byte a (byte_of (255 - N.shiftr 255 k))) = byte_N a / 2 ^ (8 - k) * 2 ^ (8 - k).
Proof.
  intros Hk. pose proof mask_byte_all as H. rewrite forallb_true in H. specialize (H (N.to_nat k)).
  rewrite elem_of_seq, forallb_true in H. specialize (H ltac:(lia) (N.to_nat (byte_N a))). pose proof (byte_N_bound a) as Ha.
  rewrite elem_of_seq, !N2Nat.id in H. specialize (H ltac:(lia)). apply N.eqb_eq in H.
  unfold land_byte. rewrite H. apply Utf8.byte_N_of. pose proof (N.Div0.mul_div_le (byte_N a) (2 ^ (8 - k))). lia.
Qed.

Lemma land_byte_eq a b k :
  k <= 8 → land_byte a (byte_of (255 - N.shiftr 255 k)) = land_byte b (byte_of (255 - N.shiftr 255 k))
  ↔ byte_N a / 2 ^ (8 - k) = byte_N b / 2 ^ (8 - k).
Proof.
  intros Hk. split; intros H.
  - apply (f_equal byte_N) in H. rewrite !land_byte_mask in H by done. pose proof (N.pow_nonzero 2 (8 - k) ltac:(done)). nia.
  - apply byte_N_inj. rewrite !land_byte_mask by done. by rewrite H.
Qed.

(** Masking keeps the leading bits: two addresses agree under a mask of [n]
ones iff their numbers agree once the other bits are dropped. *)
Lemma mask_prefix p q n :
  length p = length q → n <= 8 * N.of_nat (length p) →
  zip_with land_byte p (CIDRMask n (length p)) = zip_with land_byte q (CIDRMask n (length p)) ↔
  value p / 2 ^ (8 * N.of_nat (length p) - n) = value q / 2 ^ (8 * N.of_nat (length p) - n).
Proof.
  revert q n. induction p as [|a p IH]; intros [|b q] n; cbn [length]; try done. intros [= Hl] Hn.
  cbn [CIDRMask value]. rewrite <-Hl. set (w := 8 * N.of_nat (length p)) in *.
  pose proof (value_bound p) as Hp. pose proof (value_bound q) as Hq. rewrite <-Hl in Hq. fold w in Hp, Hq.
  assert (8 * N.of_nat (S (length p)) = w + 8) as Hw by lia. rewrite Hw in *.
  destruct (N.leb_spec 8 n) as [Hn8|Hn8].
  - cbn [zip_with]. change (byte_of 255) with (byte_of (255 - N.shiftr 255 8)) at 1 2.
    replace (w + 8 - n) with (w - (n - 8)) by lia. set (k := w - (n - 8)).
    assert (2 ^ w = 2 ^ (w - k) * 2 ^ k) as E by (rewrite <-N.pow_add_r; f_equal; lia).
    pose proof (N.pow_nonzero 2 k ltac:(done)) as Hk.
    assert (∀ x v, (x * 2 ^ w + v) / 2 ^ k = x * 2 ^ (w - k) + v / 2 ^ k) as Hdiv.
    { intros x v. rewrite E, N.mul_assoc, N.div_add_l by done. done. }
    assert (∀ v, v < 2 ^ w → v / 2 ^ k < 2 ^ (w - k)) as Hlt.
    { intros v Hv. apply N.Div0.div_lt_upper_bound. lia. }
    rewrite !Hdiv. specialize (IH q (n - 8) Hl ltac:(lia)). fold w in IH. fold k in IH. split.
    + intros [Ha Hr]%cons_inj. apply (land_byte_eq a b 8) in Ha; [|done]. change (2 ^ (8 - 8)) with 1 in Ha. rewrite !N.div_1_r in Ha.
      rewrite Ha. f_equal. by apply IH.
    + intros [Ha Hr]%digits_unique; [|by apply Hlt..]. f_equal; [|by apply IH].
      apply (land_byte_eq a b 8); [done|]. by rewrite Ha.
  - cbn [zip_with]. rewrite !mask_none by done.
    assert (∀ x v, v < 2 ^ w → (x * 2 ^ w + v) / 2 ^ (w + 8 - n) = x / 2 ^ (8 - n)) as Hdiv.
    { intros x v Hv. replace (w + 8 - n) with (w + (8 - n)) by lia. rewrite N.pow_add_r, <-N.Div0.div_div.
      f_equal. rewrite N.div_add_l by (apply N.pow_nonzero; done). rewrite N.div_small by done. lia. }
    rewrite !Hdiv by done. rewrite <-land_byte_eq by lia. split; [by intros [-> _]%cons_inj|by intros ->].
Qed.

(** ** IPv4 inside IPv6 *)

(** [::ffff:0:0/96] starts here. *)
Definition v4_base : N := 281470681743360.

Lemma value_v4 x : length x = 4%nat → value (v4InV6Prefix ++ x) = v4_base + value x.
Proof. intros Hx. rewrite value_app, Hx. reflexivity. Qed.

Lemma To4_Some ip x : is_ip ip → To4 ip = Some x → length x = 4%nat ∧ To16 ip = v4InV6Prefix ++ x.
Proof.
  unfold To4, To16. intros Hip. case_bool_decide as H4; [by intros [= <-]|].
  destruct Hip as [|H6]; [done|]. rewrite bool_decide_eq_true_2 by done. cbn [andb]. case_bool_decide as Hp; [|done].
  intros [= <-]. split; [by rewrite length_drop, H6|]. by rewrite <-Hp, take_drop.
Qed.

Lemma To4_None ip : is_ip ip → To4 ip = None → length ip = 16%nat ∧ To16 ip = ip ∧ ¬ (v4_base <= value ip < v4_base + 2 ^ 32).
Proof.
  unfold To4, To16. intros Hip. case_bool_decide as H4; [done|].
  destruct Hip as [|H6]; [done|]. rewrite bool_decide_eq_true_2 by done. cbn [andb]. case_bool_decide as Hp; [done|].
  intros _. split_and!; [done..|]. intros Hr. apply Hp. apply value_inj; [by rewrite length_take, H6|].
  assert (value ip = value (take 12 ip) * 2 ^ 32 + value (drop 12 ip)) as E.
  { rewrite <-(take_drop 12 ip) at 1. rewrite value_app, length_drop, H6. done. }
  pose proof (value_bound (drop 12 ip)) as Hb. rewrite length_drop, H6 in Hb.
  change (8 * N.of_nat (IPv6len - 12)) with 32 in Hb. change (value v4InV6Prefix) with 65535.
  unfold v4_base in *. change (2 ^ 32) with 4294967296 in *. nia.
Qed.

Lemma To16_length ip : is_ip ip → length (To16 ip) = 16%nat.
Proof. unfold To16. intros [H|H]; case_bool_decide as E; [by rewrite length_app, H|done|by rewrite H in E|done]. Qed.

(** [ip.Equal] compares numbers. *)
Lemma Equal_value ip x : is_ip ip → length x = 16%nat → Equal ip x = true ↔ value (To16 ip) = value x.
Proof.
  intros Hip Hx.
  assert (Equal ip x = true ↔ To16 ip = x) as ->.
  { unfold Equal, To16. rewrite Hx. destruct Hip as [H4|H6].
    - rewrite H4, !bool_decide_eq_false_2, !bool_decide_eq_true_2 by done. cbn [andb].
      rewrite andb_true_iff, !bool_decide_eq_true. split.
      + intros [Hp ->]. by rewrite <-Hp, take_drop.
      + intros <-. done.
    - rewrite H6, bool_decide_eq_true_2, (bool_decide_eq_false_2 (IPv6len = IPv4len)) by done. apply bool_decide_eq_true. }
  split; [by intros ->|]. apply value_inj. by rewrite To16_length.
Qed.

(** ** Networks as intervals *)

Definition within (lo hi v : N) : bool := (lo <=? v) && (v <=? hi).

Lemma within_spec lo hi v : within lo hi v = true ↔ lo <= v <= hi.
Proof. unfold within. rewrite andb_true_iff, !N.leb_le. done. Qed.

Lemma block_range v lo k : lo mod 2 ^ k = 0 → v / 2 ^ k = lo / 2 ^ k ↔ lo <= v <= lo + 2 ^ k - 1.
Proof.
  intros Hm. pose proof (N.pow_nonzero 2 k ltac:(done)) as Hk. pose proof (N.div_mod lo (2 ^ k) Hk) as Hlo. rewrite Hm in Hlo.
  split.
  - intros E. pose proof (N.div_mod v (2 ^ k) Hk). pose proof (N.mod_lt v (2 ^ k) Hk). rewrite E in *. lia.
  - intros Hv. symmetry. apply (N.div_unique v (2 ^ k) (lo / 2 ^ k) (v - lo)); lia.
Qed.

Lemma value_v4_bound x : length x = 4%nat → value x < 2 ^ 32.
Proof. intros Hx. pose proof (value_bound x) as H. by rewrite Hx in H. Qed.

(** Two addresses of one length under a mask of [ones]. *)
Lemma masked_range nn x ones :
  length x = length nn → ones <= 8 * N.of_nat (length nn) → value nn mod 2 ^ (8 * N.of_nat (length nn) - ones) = 0 →
  zip_with land_byte nn (CIDRMask ones (length nn)) = zip_with land_byte x (CIDRMask ones (length nn))
  ↔ value nn <= value x <= value nn + 2 ^ (8 * N.of_nat (length nn) - ones) - 1.
Proof. intros Hl Ho Hm. rewrite mask_prefix by done. rewrite <-(block_range _ _ _ Hm). done. Qed.

(** [n.Contains(ip)] for an IPv4 network. *)
Lemma Contains_v4 nn ones ip :
  length nn = 4%nat → ones <= 32 → value nn mod 2 ^ (32 - ones) = 0 → is_ip ip →
  Contains (mkNet nn (CIDRMask ones 4)) ip =
  within (v4_base + value nn) (v4_base + value nn + 2 ^ (32 - ones) - 1) (value (To16 ip)).
Proof.
  intros Hnn Ho Hm Hip. unfold Contains, networkNumberAndMask. cbn [NetIP NetMask].
  assert (To4 nn = Some nn) as E by (unfold To4; by rewrite bool_decide_eq_true_2). rewrite E. cbn [default].
  rewrite (bool_decide_eq_true_2 (length nn = IPv4len)) by done. cbn [negb orb].
  rewrite (bool_decide_eq_true_2 (length (CIDRMask ones 4) = IPv4len)) by apply CIDRMask_length. cbv iota beta.
  pose proof (value_v4_bound nn Hnn) as Hb.
  assert (value nn + 2 ^ (32 - ones) <= 2 ^ 32) as Htop.
  { pose proof (N.pow_nonzero 2 (32 - ones) ltac:(done)) as Hk. pose proof (N.div_mod (value nn) _ Hk) as Hd. rewrite Hm in Hd.
    assert (2 ^ 32 = 2 ^ ones * 2 ^ (32 - ones)) as Ep by (rewrite <-N.pow_add_r; f_equal; lia). rewrite Ep in *. nia. }
  destruct (To4 ip) as [x|] eqn:E4; cbn [default].
  - destruct (To4_Some _ _ Hip E4) as [Hx ->]. rewrite value_v4 by done.
    rewrite (bool_decide_eq_true_2 (length x = length nn)) by congruence. cbn [negb].
    pose proof (masked_range nn x ones) as Hr. rewrite Hnn in Hr. change (8 * N.of_nat 4) with 32 in Hr.
    apply eq_true_iff_eq. rewrite within_spec, bool_decide_eq_true, Hr by done. lia.
  - destruct (To4_None _ Hip E4) as (Hl & -> & Hr). rewrite (bool_decide_eq_false_2 (length ip = length nn)) by (rewrite Hl, Hnn; done). cbn [negb].
    symmetry. apply not_true_iff_false. rewrite within_spec. lia.
Qed.

(** [n.Contains(ip)] for an IPv6 network apart from the mapped IPv4 addresses. *)
Lemma Contains_v6 nn ones ip :
  length nn = 16%nat → ones <= 128 → value nn mod 2 ^ (128 - ones) = 0 → is_ip ip →
  (value nn + 2 ^ (128 - ones) <= v4_base ∨ v4_base + 2 ^ 32 <= value nn) →
  Contains (mkNet nn (CIDRMask ones 16)) ip =
  within (value nn) (value nn + 2 ^ (128 - ones) - 1) (value (To16 ip)).
Proof.
  intros Hnn Ho Hm Hip Hout. unfold Contains, networkNumberAndMask. cbn [NetIP NetMask].
  assert (To4 nn = None) as E.
  { destruct (To4 nn) as [x|] eqn:E; [|done]. apply To4_Some in E as [Hx E]; [|by right].
    unfold To16 in E. rewrite bool_decide_eq_false_2 in E by (rewrite Hnn; done).
    pose proof (value_v4_bound x Hx). pose proof (value_v4 x Hx). rewrite <-E in *.
    pose proof (N.pow_nonzero 2 (128 - ones) ltac:(done)). lia. }
  rewrite E. cbn [default]. rewrite (bool_decide_eq_false_2 (length nn = IPv4len)) by (rewrite Hnn; done).
  rewrite (bool_decide_eq_true_2 (length nn = IPv6len)) by done. cbn [negb orb].
  rewrite (bool_decide_eq_false_2 (length (CIDRMask ones 16) = IPv4len)) by (rewrite CIDRMask_length; done).
  rewrite (bool_decide_eq_true_2 (length (CIDRMask ones 16) = IPv6len)) by apply CIDRMask_length. cbv iota beta.
  destruct (To4 ip) as [x|] eqn:E4; cbn [default].
  - destruct (To4_Some _ _ Hip E4) as [Hx ->]. rewrite value_v4 by done. pose proof (value_v4_bound x Hx).
    rewrite (bool_decide_eq_false_2 (length x = length nn)) by (rewrite Hx, Hnn; done). cbn [negb].
    symmetry. apply not_true_iff_false. rewrite within_spec. lia.
  - destruct (To4_None _ Hip E4) as (Hl & -> & Hr). rewrite (bool_decide_eq_true_2 (length ip = length nn)) by congruence. cbn [negb].
    pose proof (masked_range nn ip ones) as Hmr. rewrite Hnn in Hmr. change (8 * N.of_nat 16) with 128 in Hmr.
    apply eq_true_iff_eq. by rewrite within_spec, bool_decide_eq_true, Hmr by done.
Qed.

(** * The characters of an address *)

Definition addr_char (c : ascii) : Prop := is_digit c = true ∨ is_Some (hex_value c) ∨ c = dot ∨ c = colon.

Lemma join_Forall (P : ascii → Prop) sep l : Forall P sep → Forall (Forall P) l → Forall P (join sep l).
Proof.
  intros Hs. induction l as [|x l IH]; [constructor|]. intros [Hx Hl]%Forall_cons. destruct l as [|y l]; [done|].
  cbn [join]. repeat apply Forall_app_2; auto.
Qed.

Lemma joined_chars gs : Forall is_group gs → Forall addr_char (joined gs).
Proof.
  intros Hg. apply join_Forall; [by repeat constructor|].
  apply Forall_fmap. eapply Forall_impl; [exact Hg|]. intros g [_ H]%appendHex_digits.
  eapply Forall_impl; [exact H|]. intros c Hc. unfold addr_char. auto.
Qed.

Lemma IP_String_chars ip : is_ip ip → Forall addr_char (to_bytes (IP_String ip)).
Proof.
  intros Hip. unfold IP_String. rewrite bool_decide_eq_false_2 by (intros ->; destruct Hip; done).
  replace (bool_decide (length ip = IPv4len) || bool_decide (length ip = IPv6len)) with true.
  2:{ symmetry. apply orb_true_iff. rewrite !bool_decide_eq_true. done. }
  rewrite to_of_bytes. destruct (To4 ip) as [x|] eqn:E4.
  - apply join_Forall; [by repeat constructor|]. apply Forall_fmap, Forall_true. intros a.
    eapply Forall_impl; [apply digits_all|]. intros c Hc. by left.
  - destruct (To4_None _ Hip E4) as (Hl & _). destruct (groups_spec ip 8 Hl) as (_ & Hg & _). unfold string6.
    destruct (longest_run _) as [[s e]|]; [|by apply joined_chars].
    apply Forall_app_2; [apply joined_chars; by apply Forall_take|].
    apply Forall_app_2; [by repeat constructor|]. apply joined_chars. by apply Forall_drop.
Qed.

Lemma addr_chars_bracketless s : Forall addr_char s → bracketless s.
Proof.
  intros H. rewrite Forall_forall in H. split; intros Hin%H; destruct Hin as [|[[v Hv]|[|]]]; discriminate.
Qed.

(** A port as [strconv.Itoa] writes it. *)
Definition Itoa (n : Z) : string := of_bytes (FormatInt n).

Lemma FormatInt_chars z : Forall (λ c, is_digit c = true ∨ c = byte_of 45) (FormatInt z).
Proof.
  unfold FormatInt. case_match; [constructor; [by right|]|]; unfold decimal;
    (eapply Forall_impl; [apply digits_all|]; intros c Hc; by left).
Qed.

Lemma Itoa_plain n : bracketless (to_bytes (Itoa n)) ∧ (colon ∉ to_bytes (Itoa n)).
Proof.
  unfold Itoa. rewrite to_of_bytes. pose proof (FormatInt_chars n) as H. rewrite Forall_forall in H.
  split_and!; [split|]; intros Hin%H; destruct Hin; discriminate.
Qed.

(** An address and a port written for a dialer are read back as they were. *)
Lemma dial_text ip port :
  is_ip ip → SplitHostPort (JoinHostPort (IP_String ip) (Itoa port)) = Some (IP_String ip, Itoa port).
Proof.
  intros Hip. destruct (Itoa_plain port). apply split_join; [|done..].
  by apply addr_chars_bracketless, IP_String_chars.
Qed.
