(* ===== verification/Addresses.v ===== *)
(** Which addresses the gateway connects to: the special-purpose address space
(internal/ipspace) and the rules a target's address and the guacd setting pass
(internal/target/forbidden.go, internal/connect/address.go).  DNS is an
argument: a [Resolver] answers what it likes, lookup by lookup. *)
From S2P Require Import Prelude GoText Strconv Json NetIP.
Local Open Scope N_scope.

(** * ipspace *)
Module Ipspace.

Definition Metadata : list IP :=
  [ParseIP "fd00:ec2::254"; ParseIP "fd00:ec2::23"; ParseIP "100.100.100.200"; ParseIP "168.63.129.16"; ParseIP "192.0.0.192"].

Definition IsMetadata (ip : IP) : bool := existsb (Equal ip) Metadata.

Definition reserved_cidrs : list (string * string) :=
  [("0.0.0.0/8", "this network");
   ("100.64.0.0/10", "shared address space (carrier-grade NAT)");
   ("192.0.0.0/24", "IETF protocol assignments");
   ("192.0.2.0/24", "documentation");
   ("198.51.100.0/24", "documentation");
   ("203.0.113.0/24", "documentation");
   ("198.18.0.0/15", "benchmarking");
   ("240.0.0.0/4", "reserved");
   ("2001:db8::/32", "documentation");
   ("64:ff9b::/96", "NAT64");
   ("64:ff9b:1::/48", "local NAT64");
   ("2002::/16", "6to4");
   ("2001::/32", "Teredo");
   ("fec0::/10", "site-local");
   ("100::/64", "discard")].

(** The table built at start-up; a range that does not parse would panic
([reserved_whole] below: none does). *)
Definition reserved : list (IPNet * string) :=
  omap (λ r, n ← ParseCIDR r.1; Some (n, r.2)) reserved_cidrs.

Fixpoint first_net (l : list (IPNet * string)) (ip : IP) : string :=
  match l with
  | [] => ""
  | (n, what) :: l => if Contains n ip then what else first_net l ip
  end.

Definition Reserved (ip : IP) : string :=
  if bool_decide (ip = []) then "not an address"
  else if IsUnspecified ip then "unspecified"
  else if IsLoopback ip then "loopback"
  else if IsLinkLocalUnicast ip || IsLinkLocalMulticast ip then "link-local"
  else if IsMulticast ip then "multicast"
  else if IsMetadata ip then "a cloud metadata service"
  else if IsPrivate ip then "private"
  else if Equal ip IPv4bcast then "broadcast"
  else first_net reserved ip.

Lemma reserved_whole : length reserved = length reserved_cidrs.
Proof. vm_compute. reflexivity. Qed.

(** ** The same, read off one table of intervals *)

(** A row: the first address, how many low bits are free, and the words. *)
Abbreviation row := (N * N * string)%type.

Definition v4 (a b c d : N) : N := v4_base + a * 2 ^ 24 + b * 2 ^ 16 + c * 2 ^ 8 + d.

(** The address whose leading groups are given. *)
Definition v6 (gs : list N) : N := value (ungroup (gs ++ replicate (8 - length gs) 0)).

Definition in_row (v : N) (r : row) : bool := within r.1.1 (r.1.1 + 2 ^ r.1.2 - 1) v.

Fixpoint look_up (v : N) (rows : list row) : string :=
  match rows with
  | [] => ""
  | r :: rows => if in_row v r then r.2 else look_up v rows
  end.

Definition unspecified_rows : list row := [(v4 0 0 0 0, 0, "unspecified"); (v6 [], 0, "unspecified")].
Definition loopback_rows : list row := [(v4 127 0 0 0, 24, "loopback"); (v6 [0; 0; 0; 0; 0; 0; 0; 1], 0, "loopback")].
Definition link_local_unicast_rows : list row := [(v4 169 254 0 0, 16, "link-local"); (v6 [0xfe80], 118, "link-local")].
(** Multicast of link-local scope: [224.0.0.0/24], and [ffX2::/16] for each flag nibble. *)
Definition link_local_multicast_rows : list row :=
  (v4 224 0 0 0, 8, "link-local") :: ((λ x, (v6 [0xff02 + 16 * N.of_nat x], 112, "link-local")) <$> seq 0 16).
Definition multicast_rows : list row := [(v4 224 0 0 0, 28, "multicast"); (v6 [0xff00], 120, "multicast")].
Definition metadata_rows : list row :=
  [(v6 [0xfd00; 0xec2; 0; 0; 0; 0; 0; 0x254], 0, "a cloud metadata service");
   (v6 [0xfd00; 0xec2; 0; 0; 0; 0; 0; 0x23], 0, "a cloud metadata service");
   (v4 100 100 100 200, 0, "a cloud metadata service");
   (v4 168 63 129 16, 0, "a cloud metadata service");
   (v4 192 0 0 192, 0, "a cloud metadata service")].
Definition private_rows : list row :=
  [(v4 10 0 0 0, 24, "private"); (v4 172 16 0 0, 20, "private"); (v4 192 168 0 0, 16, "private"); (v6 [0xfc00], 121, "private")].
Definition broadcast_rows : list row := [(v4 255 255 255 255, 0, "broadcast")].
Definition registry_rows : list row :=
  [(v4 0 0 0 0, 24, "this network");
   (v4 100 64 0 0, 22, "shared address space (carrier-grade NAT)");
   (v4 192 0 0 0, 8, "IETF protocol assignments");
   (v4 192 0 2 0, 8, "documentation");
   (v4 198 51 100 0, 8, "documentation");
   (v4 203 0 113 0, 8, "documentation");
   (v4 198 18 0 0, 17, "benchmarking");
   (v4 240 0 0 0, 28, "reserved");
   (v6 [0x2001; 0xdb8], 96, "documentation");
   (v6 [0x64; 0xff9b], 32, "NAT64");
   (v6 [0x64; 0xff9b; 1], 80, "local NAT64");
   (v6 [0x2002], 112, "6to4");
   (v6 [0x2001; 0], 96, "Teredo");
   (v6 [0xfec0], 118, "site-local");
   (v6 [0x100], 64, "discard")].

Definition spaces : list row :=
  unspecified_rows ++ loopback_rows ++ (link_local_unicast_rows ++ link_local_multicast_rows) ++ multicast_rows
  ++ metadata_rows ++ private_rows ++ broadcast_rows ++ registry_rows.

(** ** Bit tests on a byte as intervals *)

Lemma byte_tests :
  forallb (λ n, let x := N.of_nat n in
    Bool.eqb (N.land x 240 =? 16) (within 16 31 x) && Bool.eqb (N.land x 254 =? 252) (within 252 253 x)
    && Bool.eqb (N.land x 240 =? 224) (within 224 239 x) && Bool.eqb (N.land x 192 =? 128) (within 128 191 x)
    && Bool.eqb (N.land x 15 =? 2) (x mod 16 =? 2)) (seq 0 256) = true.
Proof. vm_compute. reflexivity. Qed.

Lemma byte_test x :
  x < 256 →
  (N.land x 240 =? 16) = within 16 31 x ∧ (N.land x 254 =? 252) = within 252 253 x
  ∧ (N.land x 240 =? 224) = within 224 239 x ∧ (N.land x 192 =? 128) = within 128 191 x
  ∧ (N.land x 15 =? 2) = (x mod 16 =? 2).
Proof.
  intros Hx. pose proof byte_tests as H. rewrite forallb_true in H. specialize (H (N.to_nat x)).
  rewrite elem_of_seq, N2Nat.id in H. specialize (H ltac:(lia)). cbv zeta in H.
  rewrite !andb_true_iff, !Bool.eqb_true_iff in H. intuition.
Qed.

(** An IPv4 address by its bytes, an IPv6 address by its first two. *)
Lemma v4_bytes ip x :
  is_ip ip → To4 ip = Some x →
  value (To16 ip) = v4 (octet x 0) (octet x 1) (octet x 2) (octet x 3)
  ∧ octet x 0 < 256 ∧ octet x 1 < 256 ∧ octet x 2 < 256 ∧ octet x 3 < 256.
Proof.
  intros Hip E. destruct (To4_Some _ _ Hip E) as [Hx ->]. rewrite value_v4 by done.
  destruct x as [|a [|b [|c [|d []]]]]; try done. unfold octet. cbn [nth].
  split_and!; try apply byte_N_bound. unfold v4. cbn [value length N.of_nat Pos.of_succ_nat Pos.succ].
  change (2 ^ (8 * 3)) with (2 ^ 24). change (2 ^ (8 * 2)) with (2 ^ 16). change (2 ^ (8 * 1)) with (2 ^ 8).
  change (2 ^ (8 * 0)) with 1. lia.
Qed.

Lemma v6_bytes ip :
  is_ip ip → To4 ip = None →
  length ip = IPv6len ∧ ∃ rest, value (To16 ip) = octet ip 0 * 2 ^ 120 + octet ip 1 * 2 ^ 112 + rest ∧ rest < 2 ^ 112
  ∧ octet ip 0 < 256 ∧ octet ip 1 < 256 ∧ ¬ (v4_base <= value (To16 ip) < v4_base + 2 ^ 32).
Proof.
  intros Hip E. destruct (To4_None _ Hip E) as (Hl & -> & Hr). split; [done|].
  destruct ip as [|a [|b ip]]; [done|done|]. simpl in Hl. injection Hl as Hl. unfold octet. cbn [nth].
  exists (value ip). pose proof (value_bound ip) as Hb. rewrite Hl in Hb. split_and!; try apply byte_N_bound; [|done|done].
  cbn [value length]. rewrite Hl. change (8 * N.of_nat 15) with 120. change (8 * N.of_nat 14) with 112. lia.
Qed.

(** Decides a test against its rows: the rows become intervals of numbers. *)
Ltac rows :=
  match goal with
  | |- _ = existsb _ ?r => let r' := eval vm_compute in r in change r with r'
  end;
  cbn [existsb]; unfold in_row; cbn [fst snd]; apply eq_true_iff_eq;
  rewrite ?orb_true_iff, ?andb_true_iff, ?orb_false_r, ?within_spec, ?N.eqb_eq;
  repeat match goal with |- context [2 ^ ?k] => let p := eval vm_compute in (2 ^ k) in change (2 ^ k) with p end.

Section Tests.
Variable ip : IP.
Hypothesis Hip : is_ip ip.
Abbreviation v := (value (To16 ip)).

Lemma Equal_row x n w : length x = 16%nat → value x = n → Equal ip x = in_row v (n, 0, w).
Proof.
  intros Hx <-. apply eq_true_iff_eq. rewrite Equal_value by done. unfold in_row. cbn [fst snd]. rewrite within_spec.
  change (2 ^ 0) with 1. lia.
Qed.

Lemma unspecified_spec : IsUnspecified ip = existsb (in_row v) unspecified_rows.
Proof.
  unfold IsUnspecified, unspecified_rows. cbn [existsb]. rewrite orb_false_r.
  f_equal; by apply Equal_row; vm_compute.
Qed.

Lemma metadata_spec : IsMetadata ip = existsb (in_row v) metadata_rows.
Proof.
  unfold IsMetadata, Metadata, metadata_rows. cbn [existsb].
  repeat (apply (f_equal2 orb); [by apply Equal_row; vm_compute|]). done.
Qed.

Lemma broadcast_spec : Equal ip IPv4bcast = existsb (in_row v) broadcast_rows.
Proof. unfold broadcast_rows. cbn [existsb]. rewrite orb_false_r. by apply Equal_row; vm_compute. Qed.

(** The two families of a test that looks at the leading bytes. *)
Ltac families :=
  destruct (To4 ip) as [x|] eqn:E4;
  [destruct (v4_bytes ip x Hip E4) as (-> & ? & ? & ? & ?); clear E4
  |destruct (v6_bytes ip Hip E4) as (Hl & rest & Hv & ? & ? & ? & Hr);
   rewrite ?(bool_decide_eq_true_2 (length ip = IPv6len)) by done; cbn [andb]; clear E4 Hl].

(** Bit tests rewritten to intervals, then both sides to arithmetic. *)
Ltac bit_tests :=
  repeat match goal with
  | |- context [N.land ?x ?m =? ?k] =>
      let H := fresh in
      assert (x < 256) as H by assumption; apply byte_test in H;
      destruct H as (?T1 & ?T2 & ?T3 & ?T4 & ?T5);
      match goal with T : (N.land x m =? k) = _ |- _ => rewrite T end;
      clear T1 T2 T3 T4 T5
  end.

(** Powers of two as literals, everywhere. *)
Ltac powers :=
  repeat match goal with
  | H : context [2 ^ ?k] |- _ => let p := eval vm_compute in (2 ^ k) in change (2 ^ k) with p in H
  | |- context [2 ^ ?k] => let p := eval vm_compute in (2 ^ k) in change (2 ^ k) with p
  end.

Ltac leading := bit_tests; rows; unfold v4, v4_base in *; powers; lia.

Lemma loopback_spec : IsLoopback ip = existsb (in_row v) loopback_rows.
Proof.
  unfold IsLoopback. families; [leading|]. rewrite (Equal_row IPv6loopback 1 "") by reflexivity. unfold in_row at 1.
  cbn [fst snd]. leading.
Qed.

Lemma link_local_unicast_spec : IsLinkLocalUnicast ip = existsb (in_row v) link_local_unicast_rows.
Proof. unfold IsLinkLocalUnicast. families; leading. Qed.

Lemma v6_one g : g < 65536 → v6 [g] = g * 2 ^ 112.
Proof.
  intros Hg. unfold v6. cbn [app length Nat.sub replicate].
  change (g :: [0; 0; 0; 0; 0; 0; 0]) with ([g] ++ replicate 7 0). rewrite ungroup_app, value_app, ungroup_zeros.
  rewrite length_replicate. change (value (replicate (2 * 7) zero)) with 0. rewrite N.add_0_r. f_equal.
  unfold ungroup. cbn [mbind list_bind app value length]. rewrite !Utf8.byte_N_of by div_lia.
  change (2 ^ (8 * N.of_nat 1)) with 256. change (2 ^ (8 * N.of_nat 0)) with 1. div_lia.
Qed.

(** Every flag nibble of [ffX2::/16] at once. *)
Lemma scope_rows :
  existsb (in_row v) ((λ x, (v6 [0xff02 + 16 * N.of_nat x], 112, "link-local")) <$> seq 0 16) = true ↔
  ∃ x : N, x < 16 ∧ (65282 + 16 * x) * 2 ^ 112 <= v <= (65282 + 16 * x) * 2 ^ 112 + 2 ^ 112 - 1.
Proof.
  rewrite existsb_true. setoid_rewrite list_elem_of_fmap. split.
  - intros (r & (x & -> & Hx%elem_of_seq) & Hr). exists (N.of_nat x). split; [lia|]. unfold in_row in Hr. cbn [fst snd] in Hr.
    rewrite within_spec, v6_one in Hr by lia. done.
  - intros (x & Hx & Hr). eexists. split.
    + exists (N.to_nat x). split; [done|]. apply elem_of_seq. lia.
    + unfold in_row. cbn [fst snd]. rewrite within_spec, N2Nat.id, v6_one by lia. done.
Qed.

Lemma link_local_multicast_spec : IsLinkLocalMulticast ip = existsb (in_row v) link_local_multicast_rows.
Proof.
  unfold IsLinkLocalMulticast, link_local_multicast_rows. cbn [existsb]. apply eq_true_iff_eq.
  rewrite orb_true_iff, scope_rows. unfold in_row. cbn [fst snd]. rewrite within_spec.
  change (v4 224 0 0 0) with 281474439839744. families; bit_tests; rewrite !andb_true_iff, !N.eqb_eq; unfold v4, v4_base in *; powers.
  - split; [lia|]. intros [?|(y & ? & ?)]; lia.
  - split.
    + intros [H255 Hm]. right. exists (octet ip 1 / 16). split; [div_lia|].
      assert (octet ip 1 = 16 * (octet ip 1 / 16) + 2) by div_lia. lia.
    + intros [?|(y & ? & ?)]; [lia|]. assert (octet ip 0 = 255 ∧ octet ip 1 = 16 * y + 2) as [-> ->] by lia.
      split; [done|]. div_lia.
Qed.

Lemma multicast_spec : IsMulticast ip = existsb (in_row v) multicast_rows.
Proof. unfold IsMulticast. families; leading. Qed.

Lemma private_spec : IsPrivate ip = existsb (in_row v) private_rows.
Proof. unfold IsPrivate. families; leading. Qed.

(** ** The registries' ranges *)

Lemma reserved_nets :
  reserved =
  [(mkNet (octets [0; 0; 0; 0]) (CIDRMask 8 4), "this network");
   (mkNet (octets [100; 64; 0; 0]) (CIDRMask 10 4), "shared address space (carrier-grade NAT)");
   (mkNet (octets [192; 0; 0; 0]) (CIDRMask 24 4), "IETF protocol assignments");
   (mkNet (octets [192; 0; 2; 0]) (CIDRMask 24 4), "documentation");
   (mkNet (octets [198; 51; 100; 0]) (CIDRMask 24 4), "documentation");
   (mkNet (octets [203; 0; 113; 0]) (CIDRMask 24 4), "documentation");
   (mkNet (octets [198; 18; 0; 0]) (CIDRMask 15 4), "benchmarking");
   (mkNet (octets [240; 0; 0; 0]) (CIDRMask 4 4), "reserved");
   (mkNet (ParseIP "2001:db8::") (CIDRMask 32 16), "documentation");
   (mkNet (ParseIP "64:ff9b::") (CIDRMask 96 16), "NAT64");
   (mkNet (ParseIP "64:ff9b:1::") (CIDRMask 48 16), "local NAT64");
   (mkNet (ParseIP "2002::") (CIDRMask 16 16), "6to4");
   (mkNet (ParseIP "2001::") (CIDRMask 32 16), "Teredo");
   (mkNet (ParseIP "fec0::") (CIDRMask 10 16), "site-local");
   (mkNet (ParseIP "100::") (CIDRMask 64 16), "discard")].
Proof. vm_compute. reflexivity. Qed.

Lemma row_v4 nn ones lo k w rest rows :
  length nn = 4%nat → ones <= 32 → value nn mod 2 ^ (32 - ones) = 0 → lo = v4_base + value nn → k = 32 - ones →
  first_net rest ip = look_up v rows →
  first_net ((mkNet nn (CIDRMask ones 4), w) :: rest) ip = look_up v ((lo, k, w) :: rows).
Proof. intros. subst. cbn [first_net look_up]. unfold in_row. cbn [fst snd]. rewrite Contains_v4 by done. by case_match. Qed.

Lemma row_v6 nn ones lo k w rest rows :
  length nn = 16%nat → ones <= 128 → value nn mod 2 ^ (128 - ones) = 0 →
  (value nn + 2 ^ (128 - ones) <=? v4_base) || (v4_base + 2 ^ 32 <=? value nn) = true →
  lo = value nn → k = 128 - ones → first_net rest ip = look_up v rows →
  first_net ((mkNet nn (CIDRMask ones 16), w) :: rest) ip = look_up v ((lo, k, w) :: rows).
Proof.
  intros ??? Hout. intros. subst. cbn [first_net look_up]. unfold in_row. cbn [fst snd]. rewrite Contains_v6; try done.
  - by case_match.
  - apply orb_true_iff in Hout as [?%N.leb_le|?%N.leb_le]; auto.
Qed.

Lemma registry_spec : first_net reserved ip = look_up v registry_rows.
Proof.
  rewrite reserved_nets. unfold registry_rows.
  do 8 (apply row_v4; [vm_compute; done..|]). do 7 (apply row_v6; [vm_compute; done..|]). done.
Qed.

Lemma look_up_app rows rows' w :
  Forall (λ r : row, r.2 = w) rows →
  look_up v (rows ++ rows') = if existsb (in_row v) rows then w else look_up v rows'.
Proof.
  induction rows as [|r rows IH]; [done|]. intros [<- Hr]%Forall_cons. cbn [app look_up existsb].
  destruct (in_row v r); [done|]. by rewrite IH.
Qed.

Lemma Reserved_rows : Reserved ip = look_up v spaces.
Proof.
  assert (ip ≠ []) as Hne by (intros ->; destruct Hip; done).
  unfold Reserved, spaces. rewrite bool_decide_eq_false_2 by done.
  rewrite (look_up_app _ _ "unspecified") by (by repeat constructor).
  rewrite (look_up_app _ _ "loopback") by (by repeat constructor).
  rewrite (look_up_app _ _ "link-local") by (by repeat constructor).
  rewrite (look_up_app _ _ "multicast") by (by repeat constructor).
  rewrite (look_up_app _ _ "a cloud metadata service") by (by repeat constructor).
  rewrite (look_up_app _ _ "private") by (by repeat constructor).
  rewrite (look_up_app _ _ "broadcast") by (by repeat constructor).
  rewrite existsb_app, <-link_local_unicast_spec, <-link_local_multicast_spec, <-unspecified_spec, <-loopback_spec,
    <-multicast_spec, <-metadata_spec, <-private_spec, <-broadcast_spec, registry_spec. done.
Qed.

End Tests.

(** The switch of [ipspace.Reserved], its byte tests and its table of CIDRs
say, for every IPv4 and IPv6 address, exactly what one table of address
intervals says, first match first; an address outside every interval is public;
and an IPv4 address is told the same in its four bytes and mapped into IPv6. *)
Theorem Reserved_is_table ip :
  is_ip ip → Reserved ip = look_up (value (To16 ip)) spaces ∧ Reserved (To16 ip) = Reserved ip.
Proof.
  intros Hip. pose proof (To16_length ip Hip) as Hl. split; [by apply Reserved_rows|].
  rewrite (Reserved_rows ip), (Reserved_rows (To16 ip)) by (done || by right). do 2 f_equal. unfold To16 at 1. by rewrite bool_decide_eq_false_2 by (rewrite Hl; done).
Qed.

Lemma Reserved_is_table_witness :
  Reserved (ParseIP "fd00:ec2::254") = look_up (value (To16 (ParseIP "fd00:ec2::254"))) spaces
  ∧ Reserved (ParseIP "2606:4700::1111") = "".
Proof.
  split; [refine (proj1 (Reserved_is_table (ParseIP "fd00:ec2::254") _)); right; vm_compute; reflexivity|vm_compute; reflexivity].
Defined.

End Ipspace.

(** * target: the address rules *)
Module Rules.
Import Ipspace.

(** What a lookup answers: the error's text or the addresses. *)
Abbreviation Resolver := (string → result string (list IP)).

(** [Prober] without its resolver, an argument of the operations here; a nil
[Self] is the empty address. *)
Record Prober := { AllowLoopback : bool; Self : IP }.

(** A nil [*Prober]. *)
Definition strict : Prober := {| AllowLoopback := false; Self := [] |}.

Inductive Error :=
| AddressForbidden (detail : string)  (* wraps ErrAddressForbidden *)
| BadHostPort  (* wraps ErrAddressForbidden and SplitHostPort's error *)
| Unresolvable (host err : string)  (* CheckInternal: wraps ErrAddressForbidden and the lookup's error *)
| LookupFailed (address err : string)
| NoAddresses (address : string).

(** [errors.Is(err, ErrAddressForbidden)]. *)
Definition forbidden (e : Error) : bool :=
  match e with
  | AddressForbidden _ | BadHostPort | Unresolvable _ _ => true
  | LookupFailed _ _ | NoAddresses _ => false
  end.

Definition refusal (p : Prober) (ip : IP) : string :=
  if IsUnspecified ip then "unspecified"
  else if IsLoopback ip && negb (AllowLoopback p) then "loopback"
  else if IsLinkLocalUnicast ip || IsLinkLocalMulticast ip then "link-local"
  else if IsMulticast ip then "multicast"
  else if negb (bool_decide (Self p = [])) && Equal ip (Self p) then "the address the gateway listens on"
  else if IsMetadata ip then "a cloud metadata service"
  else "".

Definition refuse (p : Prober) (address : string) (ip : IP) (literal : bool) : result Error unit :=
  let why := refusal p ip in
  if bool_decide (why = "") then Ok tt
  else if literal then Err (AddressForbidden (address ++ " is " ++ why))
  else Err (AddressForbidden (address ++ " resolves to " ++ IP_String ip ++ ", which is " ++ why)).

Definition Resolve (p : Prober) (lookup : Resolver) (address : string) : result Error IP :=
  let ip := ParseIP address in
  if negb (bool_decide (ip = [])) then
    let? _ := refuse p address ip true in Ok ip
  else
    match lookup address with
    | Err e => Err (LookupFailed address e)
    | Ok [] => Err (NoAddresses address)
    | Ok ((first :: _) as addrs) =>
        let? _ := first_error (λ a, refuse p address a false) addrs in
        Ok match List.find (λ a, match To4 a with Some _ => true | None => false end) addrs with
           | Some a => a
           | None => first
           end
    end.

Definition CheckLiteral (p : Prober) (address : string) : result Error unit :=
  let address := Strings.TrimSpace address in
  let ip := ParseIP address in
  if bool_decide (ip = []) then Ok tt else refuse p address ip true.

Definition ListenIP (listenAddr : string) : IP :=
  match SplitHostPort listenAddr with
  | None => []
  | Some (host, _) =>
      let ip := ParseIP host in
      if bool_decide (ip = []) || IsUnspecified ip then [] else ip
  end.

Definition Internal (ip : IP) : bool := negb (bool_decide (ip = [])) && (IsLoopback ip || IsPrivate ip).

(** [InternalDialer]'s Control on the address about to be connected to. *)
Definition internal_control (address : string) : result Error unit :=
  match SplitHostPort address with
  | None => Err BadHostPort
  | Some (host, _) =>
      if Internal (ParseIP host) then Ok tt
      else Err (AddressForbidden (host ++ " is not a loopback or private address"))
  end.

Definition CheckInternal (lookup : Resolver) (hostport : string) : result Error unit :=
  let hostport := Strings.TrimSpace hostport in
  if bool_decide (hostport = "") then Ok tt
  else match SplitHostPort hostport with
  | None => Err BadHostPort
  | Some (host, _) =>
      let ip := ParseIP host in
      if negb (bool_decide (ip = [])) then
        refuse_if (negb (Internal ip)) (AddressForbidden (host ++ " is not a loopback or private address"))
      else match lookup host with
      | Err e => Err (Unresolvable host e)
      | Ok [] => Err (AddressForbidden (host ++ " resolves to no address"))
      | Ok addrs =>
          first_error (λ a, refuse_if (negb (Internal a))
            (AddressForbidden (host ++ " resolves to " ++ IP_String a ++ ", which is not a loopback or private address"))) addrs
      end
  end.

(** The address a probe and a session dial once [Resolve] has answered. *)
Definition dial_address (ip : IP) (port : Z) : string := JoinHostPort (IP_String ip) (Itoa port).

(** ** The rules as intervals *)

(** The space a prober refuses, its own address apart. *)
Definition refused_rows (p : Prober) : list row :=
  unspecified_rows ++ (if AllowLoopback p then [] else loopback_rows) ++ link_local_unicast_rows ++ link_local_multicast_rows
  ++ multicast_rows ++ metadata_rows.

(** An address the gateway may connect to. *)
Definition may_connect (p : Prober) (ip : IP) : Prop :=
  existsb (in_row (value (To16 ip))) (refused_rows p) = false ∧ (Self p ≠ [] → value (To16 ip) ≠ value (Self p)).

(** The listener's address, as [ListenIP] gives it. *)
Definition self_ok (p : Prober) : Prop := Self p = [] ∨ length (Self p) = IPv6len.

Lemma refusal_none p ip : is_ip ip → self_ok p → refusal p ip = "" ↔ may_connect p ip.
Proof.
  intros Hip Hself. unfold may_connect, refused_rows, refusal. rewrite !existsb_app.
  rewrite <-unspecified_spec, <-link_local_unicast_spec, <-link_local_multicast_spec, <-multicast_spec, <-metadata_spec by done.
  assert (existsb (in_row (value (To16 ip))) (if AllowLoopback p then [] else loopback_rows)
          = IsLoopback ip && negb (AllowLoopback p)) as ->.
  { rewrite (loopback_spec ip Hip). by destruct (AllowLoopback p); rewrite ?andb_false_r, ?andb_true_r. }
  assert (negb (bool_decide (Self p = [])) && Equal ip (Self p) = true ↔ Self p ≠ [] ∧ value (To16 ip) = value (Self p)) as Hs.
  { rewrite andb_true_iff, negb_true_iff, bool_decide_eq_false. destruct Hself as [->|Hl]; [naive_solver|].
    rewrite Equal_value by done. done. }
  destruct (IsUnspecified ip); [naive_solver|]. destruct (IsLoopback ip && _); [naive_solver|].
  destruct (IsLinkLocalUnicast ip); [naive_solver|]. destruct (IsLinkLocalMulticast ip); [naive_solver|].
  destruct (IsMulticast ip); [naive_solver|]. cbn [orb].
  destruct (negb _ && Equal ip (Self p)) eqn:Es; [naive_solver|]. destruct (IsMetadata ip); [naive_solver|].
  split; [|done]. intros _. split; [done|]. intros Hn Hv. pose proof (proj2 Hs (conj Hn Hv)); congruence.
Qed.

Lemma refuse_Ok p address ip literal : refuse p address ip literal = Ok tt ↔ refusal p ip = "".
Proof. unfold refuse. cbv zeta. case_bool_decide; [done|]. destruct literal; done. Qed.

Lemma ListenIP_self listenAddr : self_ok {| AllowLoopback := false; Self := ListenIP listenAddr |}.
Proof.
  unfold self_ok, ListenIP. cbn [Self]. destruct (SplitHostPort listenAddr) as [[host port]|]; [|by left]. cbv zeta.
  destruct (ParseIP_length host) as [->|Hl]; [by left|]. destruct (_ || _); auto.
Qed.

(** What [Resolve] answers, and from which lookup. *)
Lemma Resolve_Ok p lookup address ip :
  Resolve p lookup address = Ok ip →
  refusal p ip = "" ∧
  ((ParseIP address = ip ∧ ip ≠ []) ∨
   ParseIP address = [] ∧ ∃ ips, lookup address = Ok ips ∧ ip ∈ ips ∧ Forall (λ a, refusal p a = "") ips
     ∧ (To4 ip = None → Forall (λ a, To4 a = None) ips)).
Proof.
  unfold Resolve. cbv zeta. case_bool_decide as E; cbn [negb].
  - destruct (lookup address) as [[|a ips]|] eqn:El; [done| |done]. intros H. apply rbind_Ok in H as ([] & Hf & H).
    apply Ok_inj in H. subst ip.
    apply (first_error_ok _ (a :: ips)) in Hf. assert (Forall (λ x, refusal p x = "") (a :: ips)) as Hall.
    { eapply Forall_impl; [exact Hf|]. intros x Hx. by apply refuse_Ok in Hx. }
    destruct (List.find _ (a :: ips)) as [b|] eqn:Ef.
    + apply find_some in Ef as [Hb%list_elem_of_In Hb4]. split; [by rewrite Forall_forall in Hall; apply Hall|].
      right. split; [done|]. exists (a :: ips). split_and!; try done. by destruct (To4 b).
    + split; [by apply Forall_cons in Hall as []|]. right. split; [done|]. exists (a :: ips).
      split_and!; try done; [left|]. intros _. rewrite Forall_forall. intros x Hx%list_elem_of_In.
      apply (find_none _ _ Ef) in Hx. by destruct (To4 x).
  - rewrite rbind_Ok. intros ([] & Hr%refuse_Ok & [= <-]). auto.
Qed.

(** C24. An address a session or a probe dials was checked: whatever the
resolver answers, when [Resolve] gives an address, the text that is dialled
reads back as that same address and the port; the address lies outside every
refused interval and is not the listener's own; and for a name, it is one of
the answers of the one lookup made, all of which passed, an IPv4 one if any
answer was. *)
Theorem dialled_was_checked p (lookup : Resolver) address ip port :
  self_ok p → (∀ ips, lookup address = Ok ips → Forall is_ip ips) → Resolve p lookup address = Ok ip →
  (∃ host, SplitHostPort (dial_address ip port) = Some (host, Itoa port) ∧ ParseIP host = To16 ip)
  ∧ may_connect p ip
  ∧ (ParseIP address = [] → ∃ ips, lookup address = Ok ips ∧ ip ∈ ips ∧ Forall (may_connect p) ips
       ∧ (To4 ip = None → Forall (λ a, To4 a = None) ips)).
Proof.
  intros Hself Hans [Hr Hfrom]%Resolve_Ok.
  assert (is_ip ip) as Hip.
  { destruct Hfrom as [[<- Hne]|(_ & ips & Hl & Hin & _)]; [by apply ParseIP_is_ip|].
    apply Hans in Hl. rewrite Forall_forall in Hl. by apply Hl. }
  split_and!.
  - exists (IP_String ip). split; [by apply dial_text|by apply ParseIP_String].
  - by apply refusal_none.
  - intros Hn. destruct Hfrom as [[Hp Hne]|(_ & ips & Hl & Hin & Hall & H4)]; [congruence|].
    exists ips. split_and!; try done. specialize (Hans _ Hl). rewrite Forall_forall in *.
    intros a Ha. apply refusal_none; auto.
Qed.

Definition rebinding : Resolver := λ h, if bool_decide (h = "app.corp") then Ok [ParseIP "fd00::7"; ParseIP "10.0.0.7"] else Err "no such host".

Lemma dialled_was_checked_witness :
  Resolve strict rebinding "app.corp" = Ok (ParseIP "10.0.0.7") ∧ may_connect strict (ParseIP "10.0.0.7").
Proof.
  assert (Resolve strict rebinding "app.corp" = Ok (ParseIP "10.0.0.7")) as H by (vm_compute; reflexivity).
  split; [exact H|]. refine (proj1 (proj2 (dialled_was_checked strict rebinding "app.corp" _ 443 _ _ H))).
  - by left.
  - intros ips [= <-]. repeat constructor; right; vm_compute; reflexivity.
Defined.

(** A name with one forbidden answer is refused, whatever the others are. *)
Lemma one_bad_answer p lookup address ips a :
  ParseIP address = [] → lookup address = Ok ips → a ∈ ips → refusal p a ≠ "" →
  ∃ e, Resolve p lookup address = Err e ∧ forbidden e = true.
Proof.
  intros Hp Hl Ha Hr. unfold Resolve. cbv zeta. rewrite bool_decide_eq_true_2 by done. cbn [negb]. rewrite Hl.
  destruct ips as [|b ips]; [by apply not_elem_of_nil in Ha|].
  assert (∀ l, a ∈ l → ∃ e, first_error (λ x, refuse p address x false) l = Err e ∧ forbidden e = true) as H.
  { intros l. induction l as [|x l IH]; [by intros ?%not_elem_of_nil|]. intros Hin. cbn [first_error].
    destruct (refuse p address x false) as [[]|e] eqn:E.
    - cbn [rbind]. apply elem_of_cons in Hin as [->|Hin]; [by apply refuse_Ok in E|]. by apply IH.
    - exists e. split; [done|]. unfold refuse in E. cbv zeta in E. case_bool_decide; [done|]. by injection E as <-. }
  destruct (H (b :: ips) Ha) as (e & -> & He). by exists e.
Qed.

End Rules.
