(* ===== verification/Apprelay.v ===== *)
(** The relay beside an application session (internal/gateway/apprelay): its
table and what it accepts as one, the SOCKS listener that reaches the
application's origins alone, and the inspecting proxy that lets a page's
dependencies through to public addresses.  The network is an argument: a
resolver's answers, the bytes a client sends, whether a write or a dial goes
through; so are the PEM and URL parsers of the standard library. *)
From S2P Require Import Prelude GoText Strconv Json NetIP Addresses.
Local Open Scope Z_scope.

(** * strings *)

Definition TrimPrefix (s p : string) : string :=
  if Strings.HasPrefix s p then of_bytes (drop (String.length p) (to_bytes s)) else s.

Definition HasSuffix (s p : string) : bool :=
  bool_decide (String.length p ≤ String.length s)%nat
  && bool_decide (drop (String.length s - String.length p) (to_bytes s) = to_bytes p).

Definition TrimSuffix (s p : string) : string :=
  if HasSuffix s p then of_bytes (take (String.length s - String.length p) (to_bytes s)) else s.

(** * relay.go: the table *)

Record Forward := { FListen : string; FTo : string; Once : bool; Retry : duration }.
Record Route := { Host : string; Port : Z; To : string }.
Record SOCKS := { SListen : string; SAllow : list Route }.
Record Proxy := {
  PListen : string; CACert : string; CAKey : string; PAllow : list Route; TLSCA : string;
  PrivateNetworks : list string; PrivateHosts : list string; Name : string;
}.
Record Config := { Forwards : list Forward; socks : option SOCKS; proxy_ : option Proxy; InternalSubnet : string }.

(** [normHost]. *)
Definition normHost (h : string) : string :=
  let h := TrimSuffix (Strings.ToLower (Strings.TrimSpace h)) "." in
  let h := TrimSuffix (TrimPrefix h "[") "]" in
  let ip := ParseIP h in
  if bool_decide (ip = []) then h else IP_String ip.

(** A port's text: a number from 1 to 65535. *)
Definition port_of (s : string) : option Z :=
  n ← Atoi (to_bytes s);
  if (n <? 1) || (65535 <? n) then None else Some n.

Definition listenPort (listen : string) : option Z :=
  if Strings.HasPrefix listen "internal:" then port_of (TrimPrefix listen "internal:")
  else if Strings.HasPrefix listen ":" then port_of (TrimPrefix listen ":")
  else None.

Inductive ConfigError :=
| NoForwards
| ListenNotInternal
| BadListen
| ListenShared
| AllowsNothing
| RouteIncomplete
| RouteRepeats
| RouteToName
| RouteToPort
| BothProxyAndSOCKS
| BadCA
| BadTLSCA
| BadPrivateNetwork
| BadPrivateHost
| BadSubnet
| ForwardTo
| ForwardRetry.

(** The key a route is found under. *)
Definition key (rt : Route) : string := JoinHostPort (normHost (Host rt)) (Itoa (Port rt)).

(** [validRoutes]: per route, before and after the test of its key. *)
Definition route_named (rt : Route) : result ConfigError unit :=
  refuse_if (bool_decide (normHost (Host rt) = "") || (Port rt <? 1) || (65535 <? Port rt)) RouteIncomplete.

Definition route_pinned (rt : Route) : result ConfigError unit :=
  match SplitHostPort (To rt) with
  | None => Err RouteToName
  | Some (ip, p) =>
      if bool_decide (ParseIP ip = []) then Err RouteToName
      else match port_of p with None => Err RouteToPort | Some _ => Ok tt end
  end.

Definition validRoutes (routes : list Route) : result ConfigError unit :=
  if bool_decide (routes = []) then Err AllowsNothing
  else each_once key route_named (λ _, RouteRepeats) route_pinned routes [].

(** The listen of a SOCKS or a proxy section: on the session network, on no
forward's port. *)
Definition validListen (c : Config) (listen : string) : result ConfigError unit :=
  if negb (Strings.HasPrefix listen "internal:") then Err ListenNotInternal
  else match listenPort listen with
  | None => Err BadListen
  | Some port =>
      first_error (λ f, refuse_if (bool_decide (default 0 (listenPort (FListen f)) = port)) ListenShared) (Forwards c)
  end.

Definition validSOCKS (c : Config) : result ConfigError unit :=
  match socks c with
  | None => Ok tt
  | Some s => let? _ := validListen c (SListen s) in validRoutes (SAllow s)
  end.

Definition private_host_ok (h : string) : result ConfigError unit :=
  match SplitHostPort h with
  | None => Err BadPrivateHost
  | Some (host, port) =>
      if bool_decide (normHost host = "") then Err BadPrivateHost
      else match port_of port with None => Err BadPrivateHost | Some _ => Ok tt end
  end.

Section Config.
(** [parseCA] succeeds on a certificate and its key; [AppendCertsFromPEM]
finds a certificate in a bundle. *)
Variable parseCA : string → string → bool.
Variable has_certificate : string → bool.

Definition validProxy (c : Config) : result ConfigError unit :=
  match proxy_ c with
  | None => Ok tt
  | Some p =>
      let? _ := validListen c (PListen p) in
      let? _ := refuse_if (match socks c with Some _ => true | None => false end) BothProxyAndSOCKS in
      let? _ := refuse_if (negb (parseCA (CACert p) (CAKey p))) BadCA in
      let? _ := validRoutes (PAllow p) in
      let? _ := refuse_if (negb (bool_decide (TLSCA p = "")) && negb (has_certificate (TLSCA p))) BadTLSCA in
      let? _ := first_error (λ n, match ParseCIDR n with Some _ => Ok tt | None => Err BadPrivateNetwork end) (PrivateNetworks p) in
      first_error private_host_ok (PrivateHosts p)
  end.

Definition forward_ok (f : Forward) : result ConfigError unit :=
  match listenPort (FListen f) with
  | None => Err BadListen
  | Some _ =>
      match SplitHostPort (FTo f) with
      | None => Err ForwardTo
      | Some (host, port) =>
          if bool_decide (host = "") then Err ForwardTo
          else match port_of port with
               | None => Err ForwardTo
               | Some _ => refuse_if (Retry f <? 0) ForwardRetry
               end
      end
  end.

Definition Validate (c : Config) : result ConfigError unit :=
  match Forwards c, socks c, proxy_ c with
  | [], None, None => Err NoForwards
  | _, _, _ =>
      let? _ := validSOCKS c in
      let? _ := validProxy c in
      let? _ := refuse_if (negb (bool_decide (InternalSubnet c = "")) && bool_decide (ParseCIDR (InternalSubnet c) = None)) BadSubnet in
      first_error forward_ok (Forwards c)
  end.
End Config.

(** The map [serveSOCKS] and [newProxy] build from a table of routes. *)
Definition routes_of (l : list Route) : gmap string string :=
  foldl (λ m rt, <[key rt := To rt]> m) ∅ l.

(** * socks.go *)

Definition socksVersion : N := 5.
Definition replySucceeded : N := 0.
Definition replyNotAllowed : N := 2.
Definition replyHostUnreachable : N := 4.
Definition replyRefused : N := 5.
Definition replyCmdUnsupported : N := 7.
Definition replyAtypUnsupported : N := 8.

(** [io.ReadFull]: the next [n] bytes, if the client sends that many before
the deadline. *)
Definition ReadFull (n : nat) (c : bytes) : option (bytes * bytes) :=
  if bool_decide (n ≤ length c)%nat then Some (take n c, drop n c) else None.

Definition socksReply (code : N) : bytes := octets [socksVersion; code; 0; 1; 0; 0; 0; 0; 0; 0]%N.

(** [socksRequest] over what the client sends: the destination, if any, what
was written to the client, and what the client has still to say.  [w] says
whether writes go through. *)
Definition socksRequest (w : bool) (c : bytes) : option (string * bytes) * bytes :=
  match ReadFull 2 c with
  | None => (None, [])
  | Some (hdr, c) =>
      if negb (octet hdr 0 =? socksVersion)%N then (None, [])
      else match ReadFull (N.to_nat (octet hdr 1)) c with
      | None => (None, [])
      | Some (methods, c) =>
          let method := if existsb (λ m, byte_N m =? 0)%N methods then 0%N else 255%N in
          let said := octets [socksVersion; method] in
          if negb w || negb (method =? 0)%N then (None, said)
          else match ReadFull 4 c with
          | None => (None, said)
          | Some (req, c) =>
              if negb (octet req 0 =? socksVersion)%N then (None, said)
              else
                let atyp := octet req 3 in
                let host :=
                  if (atyp =? 1)%N || (atyp =? 4)%N then
                    Some ('(ip, c) ← ReadFull (if atyp =? 4 then IPv6len else IPv4len)%N c; Some (IP_String ip, c))
                  else if (atyp =? 3)%N then
                    Some ('(n, c) ← ReadFull 1 c; '(name, c) ← ReadFull (N.to_nat (octet n 0)) c; Some (of_bytes name, c))
                  else None in
                match host with
                | None => (None, said ++ socksReply replyAtypUnsupported)
                | Some None => (None, said)
                | Some (Some (host, c)) =>
                    match ReadFull 2 c with
                    | None => (None, said)
                    | Some (port, c) =>
                        if negb (octet req 1 =? 1)%N then (None, said ++ socksReply replyCmdUnsupported)
                        else (Some (JoinHostPort (normHost host) (Itoa (Z.of_N (octet port 0 * 256 + octet port 1))), c), said)
                    end
                end
          end
      end
  end.

(** How a dial ends. *)
Inductive DialResult := Connected | ConnRefused | Unreachable.

(** What [socksConn] did: the address it dialled, if any, what it wrote, and
whether it went on to copy bytes both ways. *)
Record Served := { dialled : option string; wrote : bytes; piped : bool }.

Definition socksConn (routes : gmap string string) (dial : string → DialResult) (w : bool) (c : bytes) : Served :=
  match socksRequest w c with
  | (None, said) => {| dialled := None; wrote := said; piped := false |}
  | (Some (dest, _), said) =>
      match routes !! dest with
      | None => {| dialled := None; wrote := said ++ socksReply replyNotAllowed; piped := false |}
      | Some to =>
          match dial to with
          | Connected => {| dialled := Some to; wrote := said ++ socksReply replySucceeded; piped := w |}
          | ConnRefused => {| dialled := Some to; wrote := said ++ socksReply replyRefused; piped := false |}
          | Unreachable => {| dialled := Some to; wrote := said ++ socksReply replyHostUnreachable; piped := false |}
          end
      end
  end.

(** * The routes *)

Lemma routes_of_snoc l rt : routes_of (l ++ [rt]) = <[key rt := To rt]> (routes_of l).
Proof. unfold routes_of. by rewrite foldl_app. Qed.

Lemma routes_of_lookup l k to :
  NoDup (key <$> l) → routes_of l !! k = Some to ↔ ∃ rt, rt ∈ l ∧ key rt = k ∧ To rt = to.
Proof.
  induction l as [|rt l IH] using rev_ind.
  { intros _. split; [done|]. by intros (rt & ?%not_elem_of_nil & _). }
  rewrite fmap_app, NoDup_app, routes_of_snoc. intros (Hl & Hx & _). specialize (IH Hl).
  destruct (decide (key rt = k)) as [<-|Hk].
  - rewrite lookup_insert_eq. split; [intros [= <-]; exists rt; split; [apply elem_of_app; right; left|done]|]. intros (rt' & Hin & Hk & <-).
    apply elem_of_app in Hin as [Hin|Hin]; [|apply list_elem_of_singleton in Hin as ->; done].
    exfalso. apply (Hx (key rt)); [rewrite <-Hk; by apply list_elem_of_fmap_2|left].
  - rewrite lookup_insert_ne by done. rewrite IH. split; intros (rt' & Hin & ? & ?); exists rt'; [split; [apply elem_of_app; by left|done]|].
    apply elem_of_app in Hin as [Hin| ->%list_elem_of_singleton]; [done|congruence].
Qed.

(** A table that passes [validRoutes]: keys that differ, pins that are addresses. *)
Lemma validRoutes_spec l :
  validRoutes l = Ok tt → NoDup (key <$> l) ∧ Forall (λ rt, 1 ≤ Port rt ≤ 65535 ∧ ∃ ip p, SplitHostPort (To rt) = Some (ip, p) ∧ ParseIP ip ≠ []) l.
Proof.
  unfold validRoutes. case_bool_decide; [done|]. rewrite each_once_ok. intros [Hf Hn]. split; [done|].
  eapply Forall_impl; [exact Hf|]. intros rt (Hb & Ha & _). split.
  - unfold route_named in Hb. rewrite refuse_if_ok, !orb_false_iff in Hb. lia.
  - unfold route_pinned in Ha. destruct (SplitHostPort (To rt)) as [[ip p]|]; [|done]. case_bool_decide; [done|]. eauto.
Qed.

Lemma ReadFull_app n x r : length x = n → ReadFull n (x ++ r) = Some (x, r).
Proof.
  intros <-. unfold ReadFull. rewrite bool_decide_eq_true_2 by (rewrite length_app; lia).
  by rewrite take_app_length, drop_app_length.
Qed.

(** A client that names [host] and [port] in a CONNECT. *)
Definition connect_domain (host : string) (port : N) : bytes :=
  octets [5; 1; 0]%N ++ octets [5; 1; 0; 3; N.of_nat (String.length host)]%N ++ to_bytes host ++ octets [port / 256; port mod 256]%N.

Lemma to_bytes_length s : length (to_bytes s) = String.length s.
Proof. induction s as [|c s IH]; [done|]. cbn. f_equal. exact IH. Qed.

Lemma socksRequest_domain host port rest :
  (String.length host < 256)%nat → (port < 65536)%N →
  socksRequest true (connect_domain host port ++ rest) =
  (Some (JoinHostPort (normHost host) (Itoa (Z.of_N port)), rest), octets [5; 0]%N).
Proof.
  intros Hh Hp. unfold connect_domain. set (n := N.of_nat (String.length host)).
  assert (byte_N (byte_of n) = n) as Hn by (apply Utf8.byte_N_of; lia).
  unfold socksRequest. rewrite <-!app_assoc.
  change (octets [5; 1; 0]%N ++ ?x) with (octets [5; 1]%N ++ octets [0]%N ++ x).
  rewrite (ReadFull_app 2) by done. change (octet (octets [5; 1]%N) 0) with 5%N. change (octet (octets [5; 1]%N) 1) with 1%N.
  change (negb (5 =? socksVersion)%N) with false. cbv iota. change (N.to_nat 1) with 1%nat. rewrite (ReadFull_app 1) by done.
  change (existsb (λ m, byte_N m =? 0)%N (octets [0]%N)) with true. cbv iota zeta. cbn [negb orb N.eqb].
  change (octets [5; 1; 0; 3; n]%N ++ ?x) with (octets [5; 1; 0; 3]%N ++ octets [n] ++ x).
  rewrite (ReadFull_app 4) by done. change (octet (octets [5; 1; 0; 3]%N) 0) with 5%N.
  change (octet (octets [5; 1; 0; 3]%N) 1) with 1%N. change (octet (octets [5; 1; 0; 3]%N) 3) with 3%N.
  change (negb (5 =? socksVersion)%N) with false. cbv iota. cbn [N.eqb Pos.eqb orb].
  rewrite (ReadFull_app 1) by done. cbn [mbind option_bind].
  assert (octet (octets [n]) 0 = n) as -> by (unfold octet; exact Hn).
  rewrite (ReadFull_app (N.to_nat n)) by (rewrite to_bytes_length; lia). cbn [mbind option_bind].
  rewrite (ReadFull_app 2) by done. cbn [negb]. rewrite of_to_bytes.
  assert (octet (octets [port / 256; port mod 256]%N) 0 = port / 256)%N as -> by (unfold octet; apply Utf8.byte_N_of; div_lia).
  assert (octet (octets [port / 256; port mod 256]%N) 1 = port mod 256)%N as -> by (unfold octet; apply Utf8.byte_N_of; div_lia).
  replace (port / 256 * 256 + port mod 256)%N with port by div_lia. done.
Qed.

(** An application held to its origins reaches them and nothing more: over
a table that passed [validRoutes], whatever bytes a client sends, the address
the relay dials is the pinned IP address of a route whose host and port are the
ones the client named; and a client that names any route's host, in whatever
case or with a trailing dot or brackets, and its port, has that route's address
dialled and, when the dial goes through, is told so and connected. *)
Theorem socks_reaches_origins_alone l dial :
  validRoutes l = Ok tt →
  (∀ w c to, dialled (socksConn (routes_of l) dial w c) = Some to →
     ∃ rt rest said ip p, rt ∈ l ∧ to = To rt ∧ socksRequest w c = (Some (key rt, rest), said)
       ∧ SplitHostPort to = Some (ip, p) ∧ ParseIP ip ≠ []) ∧
  (∀ rt host rest, rt ∈ l → (String.length host < 256)%nat → normHost host = normHost (Host rt) →
     let s := socksConn (routes_of l) dial true (connect_domain host (Z.to_N (Port rt)) ++ rest) in
     dialled s = Some (To rt) ∧
     (dial (To rt) = Connected → piped s = true ∧ wrote s = octets [5; 0]%N ++ socksReply replySucceeded)).
Proof.
  intros [Hn Hf]%validRoutes_spec. rewrite Forall_forall in Hf. split.
  - intros w c to. unfold socksConn. destruct (socksRequest w c) as [[[dest rest]|] said] eqn:E; [|done].
    destruct (routes_of l !! dest) as [to'|] eqn:Er; [|done]. intros Hd.
    assert (to' = to) as -> by (by destruct (dial to'); injection Hd).
    apply routes_of_lookup in Er as (rt & Hin & <- & <-); [|done]. destruct (Hf rt Hin) as (_ & ip & p & ? & ?).
    by exists rt, rest, said, ip, p.
  - intros rt host rest Hin Hh Hnorm. destruct (Hf rt Hin) as (Hp & _). cbv zeta. unfold socksConn.
    rewrite socksRequest_domain by lia. rewrite Z2N.id by lia.
    assert (routes_of l !! JoinHostPort (normHost host) (Itoa (Port rt)) = Some (To rt)) as ->.
    { rewrite Hnorm. apply routes_of_lookup; [done|]. by exists rt. }
    destruct (dial (To rt)); done.
Qed.

Definition ex_routes : list Route :=
  [{| Host := "app.corp"; Port := 443; To := "10.0.0.7:443" |}; {| Host := "[FD00::1]"; Port := 8443; To := "[fd00::1]:8443" |}].

Lemma socks_reaches_origins_alone_witness :
  validRoutes ex_routes = Ok tt ∧
  dialled (socksConn (routes_of ex_routes) (λ _, Connected) true (connect_domain "APP.Corp." 443 ++ [])) = Some "10.0.0.7:443".
Proof.
  assert (validRoutes ex_routes = Ok tt) as H by (vm_compute; reflexivity). split; [exact H|].
  refine (proj1 (proj2 (socks_reaches_origins_alone ex_routes (λ _, Connected) H) {| Host := "app.corp"; Port := 443; To := "10.0.0.7:443" |} "APP.Corp." [] _ _ _)).
  - left.
  - vm_compute. lia.
  - vm_compute. reflexivity.
Defined.

(** * proxy.go *)

Inductive kind := Origin | Public | Private | Refused.

#[export] Instance kind_eq_dec : EqDecision kind.
Proof. solve_decision. Defined.

Record decision := { dkind : kind; to : string; why : string; at_ : time }.

Definition refuse_because (w : string) : decision := {| dkind := Refused; to := ""; why := w; at_ := zero_time |}.

Definition decisionTTL : duration := Minute.

Definition browserServices : list string :=
  ["accounts.google.com"; "update.googleapis.com"; "clients1.google.com"; "clients2.google.com"; "clients3.google.com";
   "clients4.google.com"; "clients5.google.com"; "clients6.google.com"].

(** What a [proxy] is set up with: its routes, the private networks and the
private host:port pairs a dependency may reach, and [Relay.Classify]. *)
Record settings := {
  routes : gmap string string;
  nets : list IPNet;
  private : list string;
  Classify : option (IP → string);
}.

(** [newProxy], for a section that passed [validProxy]. *)
Definition newProxy (p : Proxy) : settings := {|
  routes := routes_of (PAllow p);
  nets := omap ParseCIDR (PrivateNetworks p);
  private := omap (λ h, '(host, port) ← SplitHostPort h; Some (JoinHostPort (normHost host) port)) (PrivateHosts p);
  Classify := None;
|}.

Definition classify (px : settings) : IP → string := default Ipspace.Reserved (Classify px).

Definition canonicalDest (hostport scheme : string) : string :=
  let '(host, port) := match SplitHostPort hostport with
                       | Some hp => hp
                       | None => (hostport, if bool_decide (scheme = "https") then "443" else "80")
                       end in
  JoinHostPort (normHost host) port.

Definition inNets (px : settings) (ip : IP) : bool := existsb (λ n, Contains n ip) (nets px).

Definition is_v4 (ip : IP) : bool := match To4 ip with Some _ => true | None => false end.

(** The loop of [decide] over the answers: every one must pass; the one to
dial is the first, or the first IPv4 one.  [pick] is nil until one is seen. *)
Fixpoint choose (px : settings) (dest : string) (literal : bool) (ips : list IP) (k : kind) (pick : IP) : result string (kind * IP) :=
  match ips with
  | [] => Ok (k, pick)
  | ip :: ips =>
      let w := classify px ip in
      let next k := choose px dest literal ips k
                      (if bool_decide (pick = []) || (is_v4 ip && negb (is_v4 pick)) then ip else pick) in
      if bool_decide (w = "") then next k
      else if bool_decide (w = "private") && (contains (private px) dest || inNets px ip) then next Private
      else if bool_decide (w = "private") then Err "private"
      else if literal then Err w
      else Err ("resolves to " ++ IP_String ip ++ ", which is " ++ w)%string
  end.

Definition decide_ (px : settings) (lookup : Rules.Resolver) (dest : string) : decision :=
  match SplitHostPort dest with
  | None => refuse_because "not host:port"
  | Some (host, port) =>
      if contains browserServices host then refuse_because "the browser's own service"
      else
        let ip := ParseIP host in
        let literal := negb (bool_decide (ip = [])) in
        match (if literal then Ok [ip] else lookup host) with
        | Err e => refuse_because ("lookup failed: " ++ e)
        | Ok [] => refuse_because "resolves to nothing"
        | Ok ips =>
            match choose px dest literal ips Public [] with
            | Err w => refuse_because w
            | Ok (k, pick) => {| dkind := k; to := JoinHostPort (IP_String pick) port; why := ""; at_ := zero_time |}
            end
        end
  end.

(** The state a proxy keeps: the decisions it caches, the address pinned for
every destination it allowed, and what it refused (a count since the last line
and when that line was written, by key). *)
Record refused := { n : Z; said : time }.
Record proxy := { decided : gmap string decision; pins : gmap string string; seen : gmap string refused }.

Definition fresh_proxy : proxy := {| decided := ∅; pins := ∅; seen := ∅ |}.

Definition set_at (d : decision) (now : time) : decision := {| dkind := dkind d; to := to d; why := why d; at_ := now |}.

Definition pin (dest to : string) (s : proxy) : proxy :=
  {| decided := decided s; pins := <[dest := to]> (pins s); seen := seen s |}.

(** [destination]. *)
Definition destination (px : settings) (lookup : Rules.Resolver) (now : time) (dest : string) (s : proxy) : decision * proxy :=
  match routes px !! dest with
  | Some t => ({| dkind := Origin; to := t; why := ""; at_ := zero_time |}, pin dest t s)
  | None =>
      let again :=
        let d := set_at (decide_ px lookup dest) now in
        let s := {| decided := <[dest := d]> (decided s); pins := pins s; seen := seen s |} in
        (d, if bool_decide (dkind d = Refused) then s else pin dest (to d) s) in
      match decided s !! dest with
      | Some d => if Sub now (at_ d) <? decisionTTL then (d, s) else again
      | None => again
      end
  end.

(** [dial]: the address pinned for what the transport names, or an error. *)
Definition dial (s : proxy) (addr : string) : option string := pins s !! addr.

(** A request as the proxy reads it. *)
Record request := {
  Method : string; Path : string; SecFetchMode : string; SecFetchDest : string; Accept : string;
  OriginHeader : string; Referer : string; Upgrade : string;
}.

Definition isDocument (req : request) : bool :=
  if negb (bool_decide (SecFetchMode req = "")) || negb (bool_decide (SecFetchDest req = ""))
  then bool_decide (SecFetchMode req = "navigate") && bool_decide (SecFetchDest req = "document")
  else (bool_decide (Method req = "GET") || bool_decide (Method req = "HEAD")) && Strings.HasPrefix (Accept req) "text/html".

Definition what (req : request) : string :=
  if negb (bool_decide (SecFetchDest req = "")) then SecFetchDest req
  else if isDocument req then "document" else "resource".

Definition isFavicon (req : request) : bool := bool_decide (Path req = "/favicon.ico") && negb (isDocument req).

Definition refusedNote (w : string) : string :=
  if bool_decide (w = "private")
  then "It is a private address, and the gateway reaches those only when an administrator allows them."
  else ("The gateway does not reach it: " ++ w ++ ".")%string.

(** A line of the relay's log saying what was refused. *)
Record line := { lkey : string; lhost : string; lport : string; lwhy : string; lwhat : string; lfrom : string; count : Z }.

Definition refusal_key (dest why what from : string) : string := String.concat "|" [dest; why; what; from].

(** [refusals.add]. *)
Definition add (dest w wh from : string) (now : time) (s : proxy) : proxy * list line :=
  if bool_decide (w = "the browser's own service") then (s, [])
  else
    let '(host, port) := default ("", "") (SplitHostPort dest) in
    let k := refusal_key dest w wh from in
    let old := seen s !! k in
    let r := match old with Some r => {| n := n r + 1; said := said r |} | None => {| n := 1; said := zero_time |} end in
    let set r := {| decided := decided s; pins := pins s; seen := <[k := r]> (seen s) |} in
    if bool_decide (is_Some old) && (Sub now (said r) <? Minute) then (set r, [])
    else (set {| n := 0; said := now |},
          [{| lkey := k; lhost := host; lport := port; lwhy := w; lwhat := wh; lfrom := from; count := n r |}]).

(** What [handle] answered. *)
Inductive answer :=
| Blocked (shown note : string)  (* the relay's own page, 403 *)
| Forbidden (why : string)  (* 403 *)
| Forwarded (kind : kind) (scheme dest : string) (upgrade : bool).  (* the origin's own answer *)

(** [blocked]: the host shown, with its port when it is not the scheme's. *)
Definition blocked (dest scheme note : string) : answer :=
  let '(host, port) := default ("", "") (SplitHostPort dest) in
  Blocked (if (bool_decide (scheme = "https") && negb (bool_decide (port = "443")))
              || (bool_decide (scheme = "http") && negb (bool_decide (port = "80"))) then dest else host) note.

(** Answers are IPv4 or IPv6 addresses, as net.Resolver gives them. *)
Definition answers_ips (lookup : Rules.Resolver) : Prop := ∀ h ips, lookup h = Ok ips → Forall is_ip ips.

Section Handle.
(** [url.Parse]: the scheme and the host, when the text parses. *)
Variable url_parse : string → option (string * string).

Definition from (req : request) : string :=
  let raw := if bool_decide (OriginHeader req = "") || bool_decide (OriginHeader req = "null") then Referer req else OriginHeader req in
  match url_parse raw with
  | Some (scheme, host) => if bool_decide (host = "") then "" else (scheme ++ "://" ++ host)%string
  | None => ""
  end.

(** [handle]: one request bound for [dest] under [scheme]. *)
Definition handle (px : settings) (lookup : Rules.Resolver) (now : time) (req : request) (dest scheme : string) (s : proxy)
    : answer * proxy * list line :=
  let '(d, s) := destination px lookup now dest s in
  if bool_decide (dkind d = Refused) then
    let '(s, lines) := if isFavicon req then (s, []) else add dest (why d) (what req) (from req) now s in
    (if isDocument req then blocked dest scheme (refusedNote (why d)) else Forbidden (why d), s, lines)
  else if negb (bool_decide (dkind d = Origin)) && isDocument req then
    let '(s, lines) := add dest "not an origin of the application" "document" (from req) now s in
    (blocked dest scheme "", s, lines)
  else (Forwarded (dkind d) scheme dest (negb (bool_decide (Upgrade req = ""))), s, []).

(** Requests as they come, each with the DNS of its moment. *)
Record arrival := { lookup_ : Rules.Resolver; now_ : time; req_ : request; dest_ : string; scheme_ : string }.

Definition serve (px : settings) (a : arrival) (s : proxy) : answer * proxy * list line :=
  handle px (lookup_ a) (now_ a) (req_ a) (dest_ a) (scheme_ a) s.

Inductive reachable (px : settings) : proxy → Prop :=
| reach_fresh : reachable px fresh_proxy
| reach_serve s a : answers_ips (lookup_ a) → reachable px s → reachable px (serve px a s).1.2.
End Handle.

(** * What the proxy dials *)

(** An address a dependency bound for [dest] may be fetched from: public, or
private where the application allows it. *)
Definition dependency_ok (px : settings) (dest : string) (ip : IP) : Prop :=
  let space := Ipspace.look_up (value (To16 ip)) Ipspace.spaces in
  space = "" ∨ space = "private" ∧ (dest ∈ private px ∨ inNets px ip = true).

(** What the relay may dial for [dest]: the pin of an origin, or the text of an
address a dependency may be fetched from, with the port asked for. *)
Definition allowed (px : settings) (dest t : string) : Prop :=
  routes px !! dest = Some t ∨
  ∃ host port ip, SplitHostPort dest = Some (host, port) ∧ SplitHostPort t = Some (IP_String ip, port)
    ∧ is_ip ip ∧ ParseIP (IP_String ip) = To16 ip ∧ dependency_ok px dest ip.

Lemma index_byte_prefix c s i : index_byte c s = Some i → c ∉ take i s.
Proof.
  revert i. induction s as [|d s IH]; intros i; [done|]. rewrite index_byte_cons.
  case_decide as E; [intros [= <-]; apply not_elem_of_nil|].
  destruct (index_byte c s) as [j|]; [|done]. intros [= <-]. cbn [take]. apply not_elem_of_cons. split; [congruence|]. by apply IH.
Qed.

Lemma last_index_suffix c s i : last_index_byte c s = Some i → c ∉ drop (S i) s.
Proof.
  unfold last_index_byte. destruct (index_byte c (rev s)) as [j|] eqn:E; [|done]. intros [= <-].
  assert (j < length s)%nat as Hj.
  { unfold index_byte in E. destruct (list_find _ (rev s)) as [[j' d]|] eqn:Ef; [|done]. injection E as <-.
    apply list_find_Some in Ef as (Hl & _). apply lookup_lt_Some in Hl. by rewrite length_rev in Hl. }
  apply index_byte_prefix in E. intros Hin. apply E.
  replace (S (length s - 1 - j)) with (length s - j)%nat in Hin by lia.
  rewrite firstn_rev, list_elem_of_In, <-in_rev, <-list_elem_of_In. done.
Qed.

(** A port [SplitHostPort] gives is plain text. *)
Lemma SplitHostPort_port s host port :
  SplitHostPort s = Some (host, port) → bracketless (to_bytes port) ∧ (colon ∉ to_bytes port).
Proof.
  unfold SplitHostPort, split_bytes. destruct (last_index_byte colon (to_bytes s)) as [i|] eqn:Ei; cbn [mbind option_bind]; [|done].
  set (b := to_bytes s) in *. intros H.
  assert (∃ h j k, j ≤ S i ∧ k ≤ S i ∧ (lbracket ∉ drop j b) ∧ (rbracket ∉ drop k b) ∧ port = of_bytes (drop (S i) b) ∧ host = of_bytes h)%nat
    as (h & j & k & Hj & Hk & Hl & Hr & -> & _).
  { destruct (bool_decide (head b = Some lbracket)).
    - destruct (index_byte rbracket b) as [e|]; cbn [mbind option_bind] in H; [|done]. case_bool_decide as He; [|done]. cbn [mbind option_bind] in H.
      case_bool_decide; [done|]. case_bool_decide; [done|]. injection H as <- <-. eexists _, 1%nat, (S e). split_and!; try done; lia.
    - case_bool_decide; [done|]. cbn [mbind option_bind] in H. case_bool_decide; [done|]. case_bool_decide; [done|].
      injection H as <- <-. eexists _, 0%nat, 0%nat. split_and!; try done; lia. }
  rewrite to_of_bytes.
  assert (∀ c m, (m ≤ S i)%nat → c ∈ drop (S i) b → c ∈ drop m b) as Hd.
  { intros c m Hm. replace (S i) with (m + (S i - m))%nat by lia. rewrite <-drop_drop. intros Hc.
    rewrite <-(take_drop (S i - m) (drop m b)). apply elem_of_app. by right. }
  split; [split; [intros ?%(Hd _ j); auto|intros ?%(Hd _ k); auto]|by apply last_index_suffix].
Qed.

Section Safety.
Context (url_parse : string → option (string * string)) (px : settings) (Hclassify : Classify px = None).

Lemma classify_table ip : is_ip ip → classify px ip = Ipspace.look_up (value (To16 ip)) Ipspace.spaces.
Proof. intros Hip. unfold classify. rewrite Hclassify. by apply Ipspace.Reserved_rows. Qed.

(** The loop over the answers: every answer passed, and the one to dial is one
of them. *)
Lemma choose_Ok dest literal ips k pick k' pick' :
  Forall is_ip ips → choose px dest literal ips k pick = Ok (k', pick') →
  Forall (dependency_ok px dest) ips ∧ (pick' = pick ∨ pick' ∈ ips) ∧ (pick = [] → ips ≠ [] → pick' ∈ ips)
  ∧ (k ≠ Origin → k ≠ Refused → k' ≠ Origin ∧ k' ≠ Refused).
Proof.
  revert k pick. induction ips as [|ip ips IH]; intros k pick Hips; cbn [choose].
  { intros [= <- <-]. split_and!; [by constructor|by left|done|done]. }
  apply Forall_cons in Hips as [Hip Hips]. cbv zeta. set (pick2 := if bool_decide (pick = []) || (is_v4 ip && negb (is_v4 pick)) then ip else pick).
  assert (∀ j, dependency_ok px dest ip → (k ≠ Origin → k ≠ Refused → j ≠ Origin ∧ j ≠ Refused) →
    choose px dest literal ips j pick2 = Ok (k', pick') → Forall (dependency_ok px dest) (ip :: ips)
    ∧ (pick' = pick ∨ pick' ∈ ip :: ips) ∧ (pick = [] → ip :: ips ≠ [] → pick' ∈ ip :: ips)
    ∧ (k ≠ Origin → k ≠ Refused → k' ≠ Origin ∧ k' ≠ Refused)) as Hnext.
  { intros j Hok Hj Hc. destruct (IH j pick2 Hips Hc) as (Hall & Hin & _ & Hk).
    assert (pick = [] → pick2 = ip) as Hp2 by (intros ->; unfold pick2; by rewrite bool_decide_eq_true_2).
    assert (pick2 = ip ∨ pick2 = pick) as Hp by (unfold pick2; destruct (_ || _); auto).
    split_and!; [by constructor| | |naive_solver].
    - destruct Hin as [->|Hin]; [destruct Hp as [->|]; [right; left|by left]|right; by right].
    - intros Hn _. destruct Hin as [->|Hin]; [rewrite Hp2 by done; left|by right]. }
  rewrite classify_table by done. set (w := Ipspace.look_up _ _) in *. case_bool_decide as Hw; [apply Hnext; [by left|done]|].
  destruct (bool_decide (w = "private")) eqn:Hpr; cbn [andb]; [|by destruct literal]. apply bool_decide_eq_true in Hpr.
  destruct (contains (private px) dest || inNets px ip) eqn:Hor; [|done]. apply Hnext; [right; split; [done|]|done].
  apply orb_true_iff in Hor as [?%contains_spec|?]; auto.
Qed.

Lemma decide_allowed lookup dest :
  answers_ips lookup → let d := decide_ px lookup dest in
  dkind d ≠ Origin ∧ (dkind d ≠ Refused → allowed px dest (to d)).
Proof.
  intros Hans. cbv zeta. unfold decide_. destruct (SplitHostPort dest) as [[host port]|] eqn:Es; [|done].
  destruct (contains browserServices host); [done|]. cbv zeta.
  set (l := if negb (bool_decide (ParseIP host = [])) then Ok [ParseIP host] else lookup host).
  assert (∀ ips, l = Ok ips → Forall is_ip ips) as Hl.
  { intros ips. unfold l. case_bool_decide; cbn [negb]; [apply Hans|]. intros [= <-]. constructor; [by apply ParseIP_is_ip|done]. }
  destruct l as [[|ip ips]|e]; [done| |done]. specialize (Hl _ eq_refl).
  destruct (choose px dest _ (ip :: ips) Public []) as [[k pick]|w] eqn:Ec; [|done].
  apply choose_Ok in Ec as (Hall & _ & Hin & Hk); [|done]. specialize (Hin eq_refl ltac:(done)).
  destruct (Hk ltac:(done) ltac:(done)) as [? ?]. split; [done|]. intros _. cbn [to]. right.
  rewrite Forall_forall in Hall, Hl. specialize (Hl _ Hin). exists host, port, pick.
  destruct (SplitHostPort_port _ _ _ Es) as [Hb Hc]. split_and!; try done; [|by apply ParseIP_String|by apply Hall].
  apply split_join; [by apply addr_chars_bracketless, IP_String_chars|done|done].
Qed.

(** What holds in every state a proxy can be in. *)
Record good (s : proxy) : Prop := {
  good_pins dest t : pins s !! dest = Some t → allowed px dest t;
  good_decided dest d : decided s !! dest = Some d → dkind d ≠ Origin ∧ (dkind d ≠ Refused → is_Some (pins s !! dest));
}.

Lemma pin_good dest t s : allowed px dest t → good s → good (pin dest t s).
Proof.
  intros Ht [Hp Hd]. split; unfold pin; cbn [pins decided].
  - intros dest' t'. destruct (decide (dest = dest')) as [<-|]; [rewrite lookup_insert_eq; by intros [= <-]|].
    rewrite lookup_insert_ne by done. apply Hp.
  - intros dest' d H'. destruct (Hd _ _ H') as [? Hs]. split; [done|]. intros Hr.
    destruct (decide (dest = dest')) as [<-|]; [rewrite lookup_insert_eq|rewrite lookup_insert_ne by done]; auto.
Qed.

(** [destination] keeps the state good; unless it refuses, the destination it
decided is pinned, and only an origin is decided an origin. *)
Lemma destination_good lookup now dest s d s' :
  answers_ips lookup → good s → destination px lookup now dest s = (d, s') →
  good s' ∧ (dkind d ≠ Refused → is_Some (pins s' !! dest)) ∧ (dkind d = Origin → is_Some (routes px !! dest)).
Proof.
  intros Hans Hs. unfold destination. destruct (routes px !! dest) as [t|] eqn:Er.
  { intros [= <- <-]. split_and!; [apply pin_good; [by left|done]| |done]. intros _. cbn. by rewrite lookup_insert_eq. }
  cbv zeta. set (d0 := set_at (decide_ px lookup dest) now). set (s0 := {| decided := _; pins := _; seen := _ |}).
  destruct (decide_allowed lookup dest Hans) as [Ho Ha]. cbv zeta in Ha.
  assert (dkind d0 ≠ Origin) as Ho0 by done.
  assert ((d0, if bool_decide (dkind d0 = Refused) then s0 else pin dest (to d0) s0) = (d, s') →
    good s' ∧ (dkind d ≠ Refused → is_Some (pins s' !! dest)) ∧ (dkind d = Origin → is_Some (@None string))) as Hagain.
  { intros [= <- <-]. assert (∀ s1, (∀ dest' t', pins s1 !! dest' = Some t' → allowed px dest' t') → decided s1 = decided s0 →
      (∀ dest', is_Some (pins s !! dest') → is_Some (pins s1 !! dest')) → (dkind d0 ≠ Refused → is_Some (pins s1 !! dest)) →
      good s1 ∧ (dkind d0 ≠ Refused → is_Some (pins s1 !! dest)) ∧ (dkind d0 = Origin → is_Some (@None string))) as Hgen.
    { intros s1 Hp Hd Hmono Hpin. split_and!; [|done|done]. split; [exact Hp|]. rewrite Hd. intros dest' d' Hd'. cbn in Hd'.
      destruct (decide (dest = dest')) as [<-|Hne].
      - rewrite lookup_insert_eq in Hd'. injection Hd' as <-. done.
      - rewrite lookup_insert_ne in Hd' by done. destruct (good_decided _ Hs _ _ Hd') as [? Hsome]. split; auto. }
    case_bool_decide as Hr; (apply Hgen; [|done| |]).
    - exact (good_pins _ Hs).
    - done.
    - done.
    - intros dest' t'. cbn. destruct (decide (dest = dest')) as [<-|]; [rewrite lookup_insert_eq; intros [= <-]; by apply Ha|].
      rewrite lookup_insert_ne by done. apply (good_pins _ Hs).
    - intros dest' Hsome. cbn. destruct (decide (dest = dest')) as [<-|]; [by rewrite lookup_insert_eq|by rewrite lookup_insert_ne].
    - intros _. cbn. by rewrite lookup_insert_eq. }
  destruct (decided s !! dest) as [d1|] eqn:Ed; [|exact Hagain].
  destruct (_ <? _); [|exact Hagain]. intros [= <- <-]. destruct (good_decided _ Hs _ _ Ed) as [? Hsome].
  split_and!; [done|exact Hsome|done].
Qed.

Lemma add_good dest w wh fr now s : good s → good (add dest w wh fr now s).1.
Proof.
  intros [Hp Hd]. unfold add. case_bool_decide; [by split|]. destruct (default _ _) as [h p]. cbv zeta.
  destruct (_ && _); split; cbn; done.
Qed.

(** One request: the state stays good, and what is forwarded is pinned, a
document only to an origin. *)
Lemma serve_good a s ans s' lines :
  answers_ips (lookup_ a) → good s → serve url_parse px a s = (ans, s', lines) →
  good s' ∧ (∀ k scheme dest u, ans = Forwarded k scheme dest u →
    dest = dest_ a ∧ k ≠ Refused ∧ is_Some (dial s' dest) ∧ (isDocument (req_ a) = true ∨ k = Origin → is_Some (routes px !! dest))).
Proof.
  intros Hans Hs. unfold serve, handle. destruct (destination px (lookup_ a) (now_ a) (dest_ a) s) as [d s1] eqn:Ed.
  destruct (destination_good _ _ _ _ _ _ Hans Hs Ed) as (Hs1 & Hpin & Horigin).
  assert (∀ n k scheme dest u, blocked (dest_ a) (scheme_ a) n ≠ Forwarded k scheme dest u) as Hblocked.
  { intros. unfold blocked. by destruct (default _ _). }
  case_bool_decide as Hr.
  - destruct (if isFavicon (req_ a) then _ else _) as [s2 l2] eqn:E2. intros [= <- <- <-].
    assert (good s2) as Hs2.
    { destruct (isFavicon (req_ a)); [by injection E2 as <- <-|]. rewrite (surjective_pairing (add _ _ _ _ _ _)) in E2.
      injection E2 as <- _. by apply add_good. }
    split; [done|]. intros k scheme dest u. destruct (isDocument (req_ a)); [intros H; by apply Hblocked in H|done].
  - destruct (negb _ && _) eqn:Eb.
    + rewrite (surjective_pairing (add _ _ _ _ _ _)). intros [= <- <- <-]. split; [by apply add_good|].
      intros k scheme dest u H. by apply Hblocked in H.
    + intros [= <- <- <-]. split; [done|]. intros k scheme dest u [= <- <- <- <-]. split_and!; try done; [by apply Hpin|].
      intros [Hdoc|Hk]; [|by apply Horigin]. rewrite Hdoc, andb_true_r, negb_false_iff, bool_decide_eq_true in Eb. auto.
Qed.

Lemma fresh_good : good fresh_proxy.
Proof. split; done. Qed.
End Safety.

Lemma reachable_good url_parse px s : Classify px = None → reachable url_parse px s → good px s.
Proof.
  intros Hc. induction 1 as [|s a Hans Hr IH]; [apply fresh_good|].
  destruct (serve url_parse px a s) as [[ans s'] lines] eqn:E. by destruct (serve_good url_parse px Hc a s ans s' lines Hans IH E).
Qed.

(** C25. The inspecting proxy keeps a page where the application is: after any
requests, whatever DNS answered each of them, every address the transport can
dial is an origin's pin or the written form of an address in public space, or in
private space the application allows, on the port asked for; a request that is
forwarded has such an address pinned for its destination; and one that opens a
page at the top is forwarded only to an origin. *)
Theorem proxy_contains_pages url_parse px s :
  Classify px = None → reachable url_parse px s →
  (∀ addr t, dial s addr = Some t → allowed px addr t) ∧
  (∀ a k scheme dest u s' lines, answers_ips (lookup_ a) →
     serve url_parse px a s = (Forwarded k scheme dest u, s', lines) →
     dest = dest_ a ∧ (∃ t, dial s' dest = Some t ∧ allowed px dest t)
     ∧ (isDocument (req_ a) = true → is_Some (routes px !! dest))).
Proof.
  intros Hc Hr. pose proof (reachable_good url_parse px s Hc Hr) as Hs. split; [apply (good_pins _ _ Hs)|].
  intros a k scheme dest u s' lines Hans E.
  destruct (serve_good url_parse px Hc a s _ _ _ Hans Hs E) as [Hs' Hf].
  destruct (Hf _ _ _ _ eq_refl) as (Hd & _ & [t Ht] & Hdoc). split; [done|]. split; [|auto].
  exists t. split; [done|]. by apply (good_pins _ _ Hs').
Qed.

Definition ex_proxy : settings := newProxy {|
  PListen := "internal:3128"; CACert := ""; CAKey := ""; PAllow := ex_routes; TLSCA := "";
  PrivateNetworks := ["10.8.0.0/16"]; PrivateHosts := ["files.corp:443"]; Name := "" |}.

Definition ex_dns : Rules.Resolver := λ h,
  if bool_decide (h = "cdn.example") then Ok [ParseIP "2606:4700::6810"; ParseIP "104.16.1.1"]
  else if bool_decide (h = "internal.example") then Ok [ParseIP "104.16.1.1"; ParseIP "10.0.0.5"] else Err "no such host".

Definition ex_arrival (dest : string) : arrival := {|
  lookup_ := ex_dns; now_ := 0; dest_ := dest; scheme_ := "https";
  req_ := {| Method := "GET"; Path := "/lib.js"; SecFetchMode := "cors"; SecFetchDest := "script"; Accept := "*/*";
             OriginHeader := "https://app.corp"; Referer := ""; Upgrade := "" |} |}.

Lemma ex_dns_ips : answers_ips ex_dns.
Proof.
  intros h ips. unfold ex_dns. case_bool_decide; [|case_bool_decide; [|done]];
    (intros [= <-]; constructor; [right; vm_compute; reflexivity|constructor; [right; vm_compute; reflexivity|constructor]]).
Qed.

(** A script from a public host is fetched at its IPv4 answer; a name that also
answers a private address is refused. *)
Lemma proxy_contains_pages_witness :
  let s := (serve (λ _, None) ex_proxy (ex_arrival "cdn.example:443") fresh_proxy).1.2 in
  dial s "cdn.example:443" = Some "104.16.1.1:443" ∧ allowed ex_proxy "cdn.example:443" "104.16.1.1:443"
  ∧ (serve (λ _, None) ex_proxy (ex_arrival "internal.example:443") s).1.1 = Forbidden "private".
Proof.
  cbv zeta. set (s := (serve _ _ _ _).1.2).
  assert (dial s "cdn.example:443" = Some "104.16.1.1:443") as Hd by (vm_compute; reflexivity).
  split; [exact Hd|]. split; [|vm_compute; reflexivity].
  refine (proj1 (proxy_contains_pages (λ _, None) ex_proxy s eq_refl _) _ _ Hd).
  apply reach_serve; [exact ex_dns_ips|apply reach_fresh].
Defined.

(** * What the log counts *)

(** A call of [refusals.add]. *)
Record refusal := { rdest : string; rwhy : string; rwhat : string; rfrom : string; rnow : time }.

Definition add_one (r : refusal) (s : proxy) : proxy * list line := add (rdest r) (rwhy r) (rwhat r) (rfrom r) (rnow r) s.

Fixpoint add_all (l : list refusal) (s : proxy) : proxy * list line :=
  match l with
  | [] => (s, [])
  | r :: l => let '(s, a) := add_one r s in let '(s, b) := add_all l s in (s, a ++ b)
  end.

(** Whether a refusal is the page's own and filed under [k]. *)
Definition filed (k : string) (r : refusal) : bool :=
  negb (bool_decide (rwhy r = "the browser's own service"))
  && bool_decide (refusal_key (rdest r) (rwhy r) (rwhat r) (rfrom r) = k).

Definition logged (k : string) (l : list line) : Z :=
  foldr (λ x acc, (if bool_decide (lkey x = k) then count x else 0) + acc) 0 l.

Definition pending (k : string) (s : proxy) : Z := match seen s !! k with Some r => n r | None => 0 end.

Lemma logged_app k a b : logged k (a ++ b) = logged k a + logged k b.
Proof. unfold logged. induction a as [|x a IH]; cbn [app foldr]; [lia|]. rewrite IH. lia. Qed.

Lemma add_one_counts k r s s' lines :
  add_one r s = (s', lines) → logged k lines + pending k s' = pending k s + (if filed k r then 1 else 0).
Proof.
  unfold add_one, add, filed. case_bool_decide; cbn [negb andb]; [intros [= <- <-]; cbn; lia|].
  destruct (default _ _) as [h p]. cbv zeta. set (k0 := refusal_key _ _ _ _). set (old := seen s !! k0).
  assert (∀ r', pending k {| decided := decided s; pins := pins s; seen := <[k0 := r']> (seen s) |}
    = if bool_decide (k0 = k) then n r' else pending k s) as Hset.
  { intros r'. unfold pending. cbn [seen]. case_bool_decide as E; [by rewrite E, lookup_insert_eq|by rewrite lookup_insert_ne]. }
  assert (bool_decide (k0 = k) = true → pending k s = match old with Some r0 => n r0 | None => 0 end) as Hold.
  { intros <-%bool_decide_eq_true. done. }
  destruct (_ && _); intros [= <- <-]; rewrite Hset; cbn [logged foldr lkey count]; destruct (bool_decide (k0 = k));
    try rewrite Hold by done; destruct old; cbn [n]; lia.
Qed.

(** No refusal is dropped from the count while the relay runs: for every
key, the refusals filed under it are those its log lines have counted plus those
counted since its last line. *)
Theorem refusals_counted l s s' lines k :
  add_all l s = (s', lines) →
  logged k lines + pending k s' = pending k s + Z.of_nat (length (List.filter (filed k) l)).
Proof.
  revert s s' lines. induction l as [|r l IH]; intros s s' lines; cbn [add_all]; [intros [= <- <-]; cbn; lia|].
  destruct (add_one r s) as [s1 a] eqn:E1. destruct (add_all l s1) as [s2 b] eqn:E2. intros [= <- <-].
  apply (add_one_counts k) in E1. apply IH in E2. rewrite logged_app. cbn [List.filter].
  destruct (filed k r); cbn [length]; lia.
Qed.

Definition ex_refusal (now : time) : refusal :=
  {| rdest := "10.0.0.5:443"; rwhy := "private"; rwhat := "image"; rfrom := "https://app.corp"; rnow := now |}.

Lemma refusals_counted_witness :
  let '(s, lines) := add_all [ex_refusal 0; ex_refusal Second; ex_refusal (61 * Second); ex_refusal (62 * Second)] fresh_proxy in
  (count <$> lines) = [1; 2] ∧ logged "10.0.0.5:443|private|image|https://app.corp" lines
    + pending "10.0.0.5:443|private|image|https://app.corp" s = 4.
Proof.
  destruct (add_all _ fresh_proxy) as [s lines] eqn:E. split.
  - assert ((count <$> (add_all [ex_refusal 0; ex_refusal Second; ex_refusal (61 * Second); ex_refusal (62 * Second)] fresh_proxy).2) = [1; 2])
      as H by (vm_compute; reflexivity). by rewrite E in H.
  - exact (refusals_counted _ fresh_proxy s lines "10.0.0.5:443|private|image|https://app.corp" E).
Defined.
