(* ===== verification/Retention.v ===== *)
(** Recordings kept and deleted: the retention policy and its sweep
(internal/session/retention.go, keptUntil of session.go), and the move of local
recordings to a bucket (moveOne of internal/recstorage/recstorage.go), which
runs beside it.  A blob store is a map from URIs to contents; the two
goroutines interleave between their calls to the store and to the database, each
of which may fail, and the gateway may stop between any two.  No recording is
added while they run. *)
From S2P Require Import Prelude GoText Strconv Sha256.
From stdpp Require Import sorting.
Local Open Scope Z_scope.

Definition Day : duration := 24 * Hour.

(** [t.AddDate(0, 0, d)] of a UTC time. *)
Definition AddDays (t : time) (d : Z) : time := t + d * Day.

(** A 64-bit sum wraps around. *)
Definition wrap64 (z : Z) : Z := (z + 9223372036854775808) mod 18446744073709551616 - 9223372036854775808.

Record RetentionPolicy := { MaxAgeDays : Z; MaxTotalBytes : Z; UpdatedAt : option time; UpdatedBy : string }.

Definition no_policy : RetentionPolicy := {| MaxAgeDays := 0; MaxTotalBytes := 0; UpdatedAt := None; UpdatedBy := "" |}.

(** The recordings table's columns the sweep and the move read. *)
Record Recording := {
  Format : string; StorageURI : string; SizeBytes : Z; SHA256 : string;
  FinishedAt : option time; RetentionUntil : option time; PurgedAt : option time;
}.

Record purgeCandidate := { id : string; uri : string; size : Z; finished : time; until : option time }.

(** The database, the command index, the blob store and the purges audited. *)
Record world := {
  policy : option RetentionPolicy;
  recordings : gmap string Recording;
  commands : gset string;
  blobs : gmap string bytes;
  audited : list (string * string);
}.

Definition set_recordings (w : world) (m : gmap string Recording) : world :=
  {| policy := policy w; recordings := m; commands := commands w; blobs := blobs w; audited := audited w |}.
Definition set_blobs (w : world) (m : gmap string bytes) : world :=
  {| policy := policy w; recordings := recordings w; commands := commands w; blobs := m; audited := audited w |}.
Definition set_commands (w : world) (c : gset string) : world :=
  {| policy := policy w; recordings := recordings w; commands := c; blobs := blobs w; audited := audited w |}.
Definition set_audited (w : world) (l : list (string * string)) : world :=
  {| policy := policy w; recordings := recordings w; commands := commands w; blobs := blobs w; audited := l |}.

Definition GetRetentionPolicy (w : world) : RetentionPolicy := default no_policy (policy w).

(** [SetRetentionPolicy]; [None] is the refusal of a negative value. *)
Definition SetRetentionPolicy (p : RetentionPolicy) (actor : string) (now : time) (w : world) : option world :=
  if (MaxAgeDays p <? 0) || (MaxTotalBytes p <? 0) then None
  else Some {| policy := Some {| MaxAgeDays := MaxAgeDays p; MaxTotalBytes := MaxTotalBytes p;
                                 UpdatedAt := Some (TimeArg now); UpdatedBy := actor |};
               recordings := recordings w; commands := commands w; blobs := blobs w; audited := audited w |}.

Definition older (a b : purgeCandidate) : Prop := finished a ≤ finished b.

#[export] Instance older_dec : RelDecision older.
Proof. intros a b. unfold older. apply _. Defined.

Definition candidate (ir : string * Recording) : option purgeCandidate :=
  match PurgedAt ir.2, FinishedAt ir.2 with
  | None, Some f => Some {| id := ir.1; uri := StorageURI ir.2; size := SizeBytes ir.2; finished := f; until := RetentionUntil ir.2 |}
  | _, _ => None
  end.

(** [listPurgeCandidates]: finished and not purged, oldest first. *)
Definition listPurgeCandidates (w : world) : list purgeCandidate :=
  merge_sort older (omap candidate (map_to_list (recordings w))).

(** [markRecordingPurged]: only while the row still names [u]; the command
index goes with the file. *)
Definition markRecordingPurged (i u : string) (when : time) (w : world) : bool * world :=
  match recordings w !! i with
  | Some r =>
      if bool_decide (StorageURI r = u) && bool_decide (PurgedAt r = None) then
        let r' := {| Format := Format r; StorageURI := StorageURI r; SizeBytes := SizeBytes r; SHA256 := SHA256 r;
                     FinishedAt := FinishedAt r; RetentionUntil := RetentionUntil r; PurgedAt := Some (TimeArg when) |} in
        (true, set_commands (set_recordings w (<[i := r']> (recordings w))) (commands w ∖ {[i]}))
      else (false, w)
  | None => (false, w)
  end.

(** ** selectForPurge *)

(** Whether age takes a recording: its own date, else the global age. *)
Definition expired (p : RetentionPolicy) (now : time) (c : purgeCandidate) : bool :=
  match until c with
  | Some u => After now u
  | None => (0 <? MaxAgeDays p) && Before (finished c) (AddDays now (- MaxAgeDays p))
  end.

(** The first loop: the reasons so far, the survivors and their bytes. *)
Definition by_age (p : RetentionPolicy) (now : time) (acc : gmap string string * list purgeCandidate * Z) (c : purgeCandidate)
    : gmap string string * list purgeCandidate * Z :=
  let '(reason, survivors, keptBytes) := acc in
  if expired p now c then (<[id c := "age"]> reason, survivors, keptBytes)
  else (reason, survivors ++ [c], wrap64 (keptBytes + size c)).

(** The size backstop: oldest survivors first, until the rest fits. *)
Fixpoint by_size (cap : Z) (survivors : list purgeCandidate) (keptBytes : Z) (reason : gmap string string) : gmap string string :=
  match survivors with
  | [] => reason
  | c :: rest =>
      if keptBytes <=? cap then reason
      else by_size cap rest (wrap64 (keptBytes - size c)) (<[id c := "size"]> reason)
  end.

Definition selectForPurge (cands : list purgeCandidate) (p : RetentionPolicy) (now : time) : gmap string string :=
  let '(reason, survivors, keptBytes) := foldl (by_age p now) (∅, [], 0) cands in
  if 0 <? MaxTotalBytes p then by_size (MaxTotalBytes p) survivors keptBytes reason else reason.

(** [keptUntil]: when age takes a recording, as the console shows it. *)
Definition keptUntil (own fin : option time) (purged : bool) (p : RetentionPolicy) : option time :=
  match purged, fin with
  | true, _ | _, None => None
  | false, Some f =>
      match own with
      | Some u => Some u
      | None => if 0 <? MaxAgeDays p then Some (AddDays f (MaxAgeDays p)) else None
      end
  end.

(** ** Sweep *)

(** [Storage.Delete]: removing what is gone is no error; [ok] says whether the
store answered. *)
Definition Delete (ok : bool) (u : string) (w : world) : bool * world :=
  if ok then (true, set_blobs w (delete u (blobs w))) else (false, w).

(** The candidates the sweep acts on, with the reasons, in order. *)
Definition plan (now : time) (w : world) : list (purgeCandidate * string) :=
  let cands := listPurgeCandidates w in
  let reasons := selectForPurge cands (GetRetentionPolicy w) now in
  omap (λ c, r ← reasons !! id c; Some (c, r)) cands.

(** What follows a deletion that went through: the row marked, then audited. *)
Definition mark (c : purgeCandidate) (reason : string) (when : time) (w : world) : bool * world :=
  let '(marked, w) := markRecordingPurged (id c) (uri c) when w in
  (marked, if marked then set_audited w (audited w ++ [(id c, reason)]) else w).

(** One sweep with nothing beside it: how many it purged. *)
Fixpoint sweep_loop (ok : string → bool) (when : time) (l : list (purgeCandidate * string)) (n : Z) (w : world) : Z * world :=
  match l with
  | [] => (n, w)
  | (c, reason) :: l =>
      let '(deleted, w) := Delete (ok (uri c)) (uri c) w in
      if negb deleted then sweep_loop ok when l n w
      else let '(marked, w) := mark c reason when w in
           sweep_loop ok when l (if marked then n + 1 else n) w
  end.

Definition Sweep (ok : string → bool) (now : time) (w : world) : Z * world := sweep_loop ok now (plan now w) 0 w.

(** ** recstorage: the move *)

(** [UpdateRecordingURI]: only while the row names [from_] and is not purged. *)
Definition UpdateRecordingURI (i from_ to : string) (w : world) : bool * world :=
  match recordings w !! i with
  | Some r =>
      if bool_decide (StorageURI r = from_) && bool_decide (PurgedAt r = None) then
        (true, set_recordings w (<[i := {| Format := Format r; StorageURI := to; SizeBytes := SizeBytes r; SHA256 := SHA256 r;
                                           FinishedAt := FinishedAt r; RetentionUntil := RetentionUntil r; PurgedAt := PurgedAt r |}]> (recordings w)))
      else (false, w)
  | None => (false, w)
  end.

(** The name [moveOne] gives the copy, and the URI [S3Storage.Create] gives it. *)
Definition copy_name (i : string) (r : Recording) : string :=
  (i ++ if bool_decide (Format r = "guac") then ".guac" else ".cast")%string.
Definition copy_uri (bucket prefix i : string) (r : Recording) : string :=
  ("s3://" ++ bucket ++ "/" ++ prefix ++ copy_name i r)%string.

(** [moveOne]'s digest check, on what was copied. *)
Definition digest_ok (r : Recording) (content : bytes) : bool :=
  bool_decide (SHA256 r = "") || bool_decide (Hex.EncodeToString (Sha.Sum256 content) = SHA256 r).

(** * What the policy selects *)

Definition total (l : list purgeCandidate) : Z := foldr (λ c acc, size c + acc) 0 l.

Lemma total_app a b : total (a ++ b) = total a + total b.
Proof. unfold total. induction a as [|c a IH]; cbn [app foldr]; [lia|]. rewrite IH. lia. Qed.

Lemma total_nonneg l : Forall (λ c, 0 ≤ size c) l → 0 ≤ total l.
Proof. induction 1 as [|c l Hc _ IH]; cbn; [lia|]. fold (total l). lia. Qed.

Lemma total_sublist f l : Forall (λ c, 0 ≤ size c) l → total (List.filter f l) ≤ total l.
Proof.
  induction 1 as [|c l Hc _ IH]; cbn [List.filter]; [done|]. destruct (f c); cbn [total foldr]; fold (total l);
    fold (total (List.filter f l)); lia.
Qed.

Lemma sizes_filter f l : Forall (λ c, 0 ≤ size c) l → Forall (λ c, 0 ≤ size c) (List.filter f l).
Proof. rewrite !Forall_forall. intros H c. rewrite list_elem_of_In, filter_In, <-list_elem_of_In. intros [? _]. auto. Qed.

Lemma wrap64_id z : MinInt64 ≤ z ≤ MaxInt64 → wrap64 z = z.
Proof. unfold wrap64, MinInt64, MaxInt64. intros. rewrite Z.mod_small; lia. Qed.

(** The first loop: what age takes, what survives and its bytes. *)
Lemma by_age_spec p now l : Forall (λ c, 0 ≤ size c) l → total l ≤ MaxInt64 →
  ∃ reason, foldl (by_age p now) (∅, [], 0) l
    = (reason, List.filter (λ c, negb (expired p now c)) l, total (List.filter (λ c, negb (expired p now c)) l))
  ∧ ∀ i r, reason !! i = Some r ↔ r = "age" ∧ ∃ c, c ∈ l ∧ id c = i ∧ expired p now c = true.
Proof.
  induction l as [|c l IH] using rev_ind.
  { intros _ _. exists ∅. split; [done|]. intros i r. rewrite lookup_empty. split; [done|]. by intros (_ & c & ?%not_elem_of_nil & _). }
  intros [Hl [Hc _]%Forall_cons]%Forall_app. rewrite total_app. cbn [total foldr]. intros Ht.
  destruct (IH Hl ltac:(lia)) as (reason & Hfold & Hreason). rewrite foldl_app, Hfold, List.filter_app. cbn [foldl by_age List.filter].
  assert (∀ c', c' ∈ l ++ [c] ↔ c' ∈ l ∨ c' = c) as Hin by (intros c'; rewrite elem_of_app, list_elem_of_singleton; done).
  destruct (expired p now c) eqn:E; cbn [negb]; rewrite ?app_nil_r; eexists; (split; [|intros i r]).
  - done.
  - destruct (decide (id c = i)) as [<-|Hne].
    + rewrite lookup_insert_eq. split; [intros [= <-]; split; [done|]; exists c; rewrite Hin; auto|]. by intros [-> _].
    + rewrite lookup_insert_ne, Hreason by done. setoid_rewrite Hin. split; [intros (? & c' & ?); split; [done|]; exists c'; naive_solver|].
      intros (? & c' & [?| ->] & ? & ?); [|done]. eauto.
  - rewrite total_app. cbn [total foldr]. rewrite wrap64_id; [do 2 f_equal; lia|].
    pose proof (total_sublist (λ c, negb (expired p now c)) l Hl).
    pose proof (total_nonneg _ (sizes_filter (λ c, negb (expired p now c)) l Hl)). unfold MinInt64. lia.
  - rewrite Hreason. setoid_rewrite Hin. split; [intros (? & c' & ?); split; [done|]; exists c'; naive_solver|].
    intros (? & c' & [?| ->] & ? & ?); [eauto|congruence].
Qed.

(** The size backstop: a prefix of the survivors, as short as the cap allows. *)
Lemma by_size_spec cap l reason :
  0 < cap → Forall (λ c, 0 ≤ size c) l → total l ≤ MaxInt64 →
  ∃ dropped kept, l = dropped ++ kept ∧ total kept ≤ cap
    ∧ (∀ d c, dropped = d ++ [c] → cap < size c + total kept)
    ∧ (∀ i, by_size cap l (total l) reason !! i = if bool_decide (i ∈ id <$> dropped) then Some "size" else reason !! i).
Proof.
  intros Hcap. revert reason. induction l as [|c l IH]; intros reason Hl Ht; cbn [by_size].
  { exists [], []. split_and!; [done|cbn; lia|intros [|??] ?; done|]. intros i. rewrite bool_decide_eq_false_2 by apply not_elem_of_nil. done. }
  cbn [total foldr] in Ht |- *. fold (total l) in Ht |- *. apply Forall_cons in Hl as [Hc Hl]. pose proof (total_nonneg l Hl).
  destruct (Z.leb_spec (size c + total l) cap).
  { exists [], (c :: l). split_and!; [done|done|intros [|??] ?; done|]. intros i.
    rewrite bool_decide_eq_false_2 by apply not_elem_of_nil. done. }
  rewrite wrap64_id by (unfold MinInt64; lia). replace (size c + total l - size c) with (total l) by lia.
  destruct (IH (<[id c := "size"]> reason) Hl ltac:(lia)) as (dropped & kept & -> & Hk & Hmin & Hlook).
  exists (c :: dropped), kept. split_and!; [done|done| |].
  - intros [|x d] c'; cbn [app]; [intros [= -> ->]; cbn [app total foldr] in *; fold (total kept) in *; lia|].
    intros [= -> Hd]. by apply Hmin in Hd.
  - intros i. rewrite Hlook, fmap_cons. destruct (decide (id c = i)) as [<-|Hne].
    + rewrite (bool_decide_eq_true_2 (id c ∈ id c :: _)) by left. rewrite lookup_insert_eq. by case_bool_decide.
    + rewrite lookup_insert_ne by done.
      by rewrite (bool_decide_ext (i ∈ id c :: _) (i ∈ id <$> dropped)) by (rewrite elem_of_cons; naive_solver).
Qed.

(** The date the console shows is the date the sweep goes by. *)
Lemma expired_keptUntil p now c :
  expired p now c = true ↔ ∃ t, keptUntil (until c) (Some (finished c)) false p = Some t ∧ t < now.
Proof.
  unfold expired, keptUntil, After, Before, AddDays. destruct (until c) as [u|].
  - rewrite bool_decide_eq_true. split; [eauto|]. by intros (t & [= <-] & ?).
  - destruct (0 <? MaxAgeDays p); cbn [andb]; [|split; [done|]; by intros (t & ? & _)].
    rewrite bool_decide_eq_true. split; [intros; eexists; split; [done|]; lia|]. intros (t & [= <-] & ?). lia.
Qed.

(** Filtering keeps the order and the distinct ids. *)
Lemma filter_sorted f l : StronglySorted older l → StronglySorted older (List.filter f l).
Proof.
  induction 1 as [|x l Hl IH Hx]; [constructor|]. cbn [List.filter]. destruct (f x); [|done].
  constructor; [done|]. rewrite Forall_forall in *. intros y. rewrite list_elem_of_In, filter_In, <-list_elem_of_In. intros [? _]. auto.
Qed.

Lemma sorted_split a b l k : StronglySorted older (l ++ k) → a ∈ l → b ∈ k → older a b.
Proof.
  intros Hs Ha Hb. induction l as [|x l IH]; [by apply not_elem_of_nil in Ha|]. cbn [app] in Hs.
  apply StronglySorted_inv in Hs as [Hl Hx]. apply elem_of_cons in Ha as [->|Ha]; [|by apply IH].
  rewrite Forall_forall in Hx. apply Hx, elem_of_app. by right.
Qed.

Lemma filter_ids f l : NoDup (id <$> l) → NoDup (List.filter f l).
Proof.
  intros Hn%NoDup_fmap_1. by apply NoDup_ListNoDup, List.NoDup_filter, NoDup_ListNoDup.
Qed.

Lemma ids_inj l c d : NoDup (id <$> l) → c ∈ l → d ∈ l → id d = id c → d = c.
Proof.
  intros Hn Hc Hd Hid. apply list_elem_of_lookup in Hd as [j Hj], Hc as [k Hk].
  assert (j = k) as ->; [|congruence].
  eapply (NoDup_lookup _ _ _ (id c) Hn); rewrite list_lookup_fmap; [by rewrite Hj; simpl; rewrite Hid|by rewrite Hk].
Qed.

(** What a sweep takes: by age exactly the recordings whose date, the one
the console shows, has passed; by size a run of the oldest of the others, only
when a cap is set, and then no more than it takes: what is kept fits the cap,
and would not with the last one dropped.  Nothing else is touched. *)
Theorem purge_selection cands p now :
  NoDup (id <$> cands) → StronglySorted older cands → Forall (λ c, 0 ≤ size c) cands → total cands ≤ MaxInt64 →
  let reason c := selectForPurge cands p now !! id c in
  ∃ dropped kept, List.filter (λ c, negb (expired p now c)) cands = dropped ++ kept
    ∧ (∀ c, c ∈ cands → (reason c = Some "age" ↔ ∃ t, keptUntil (until c) (Some (finished c)) false p = Some t ∧ t < now)
        ∧ (reason c = Some "size" ↔ c ∈ dropped) ∧ (reason c = None ↔ c ∈ kept))
    ∧ (∀ a b, a ∈ dropped → b ∈ kept → finished a ≤ finished b)
    ∧ (MaxTotalBytes p ≤ 0 → dropped = [])
    ∧ (0 < MaxTotalBytes p → total kept ≤ MaxTotalBytes p ∧ ∀ d c, dropped = d ++ [c] → MaxTotalBytes p < size c + total kept).
Proof.
  intros Hn Hs Hsz Ht. cbv zeta. unfold selectForPurge.
  destruct (by_age_spec p now cands Hsz Ht) as (reason & -> & Hreason).
  set (alive := List.filter _ cands). pose proof (sizes_filter (λ c, negb (expired p now c)) cands Hsz) as Hasz. fold alive in Hasz.
  pose proof (total_sublist (λ c, negb (expired p now c)) cands Hsz) as Hat. fold alive in Hat.
  assert (∃ dropped kept, alive = dropped ++ kept ∧
    (∀ i, (if 0 <? MaxTotalBytes p then by_size (MaxTotalBytes p) alive (total alive) reason else reason) !! i
          = if bool_decide (i ∈ id <$> dropped) then Some "size" else reason !! i) ∧
    (MaxTotalBytes p ≤ 0 → dropped = []) ∧
    (0 < MaxTotalBytes p → total kept ≤ MaxTotalBytes p ∧ ∀ d c, dropped = d ++ [c] → MaxTotalBytes p < size c + total kept))
    as (dropped & kept & Hsplit & Hlook & Hoff & Hon).
  { destruct (Z.ltb_spec 0 (MaxTotalBytes p)) as [Hp|Hp].
    - destruct (by_size_spec (MaxTotalBytes p) alive reason Hp Hasz ltac:(lia)) as (dropped & kept & ? & ? & ? & ?).
      exists dropped, kept. split_and!; try done. lia.
    - exists [], alive. split_and!; [done| |done|lia]. intros i. by rewrite bool_decide_eq_false_2 by apply not_elem_of_nil. }
  exists dropped, kept. split_and!; try done.
  - intros c Hc. rewrite Hlook.
    pose proof (λ d Hd, ids_inj cands c d Hn Hc Hd) as Hinj.
    assert (∀ d, d ∈ alive ↔ d ∈ cands ∧ expired p now d = false) as Halive.
    { intros d. unfold alive. rewrite list_elem_of_In, filter_In, <-list_elem_of_In, negb_true_iff. done. }
    assert (bool_decide (id c ∈ id <$> dropped) = true ↔ c ∈ dropped) as Hdrop.
    { rewrite bool_decide_eq_true, list_elem_of_fmap. split; [|eauto]. intros (d & Hid & Hd).
      rewrite <-(Hinj d); [done| |done]. apply Halive. rewrite Hsplit. apply elem_of_app. by left. }
    assert (reason !! id c = if expired p now c then Some "age" else None) as ->.
    { destruct (expired p now c) eqn:E; [apply Hreason; eauto|].
      destruct (reason !! id c) as [r|] eqn:Er; [|done]. apply Hreason in Er as (_ & d & Hd & Hid & Hx).
      rewrite (Hinj d Hd Hid) in Hx. congruence. }
    rewrite <-expired_keptUntil, <-Hdrop.
    pose proof (Halive c) as Hac. rewrite Hsplit, elem_of_app in Hac.
    pose proof (filter_ids (λ c, negb (expired p now c)) cands Hn) as Hna. fold alive in Hna.
    rewrite Hsplit, NoDup_app in Hna. destruct Hna as (_ & Hdisj & _).
    destruct (bool_decide (id c ∈ id <$> dropped)) eqn:Ed, (expired p now c) eqn:Ex; naive_solver.
  - pose proof (filter_sorted (λ c, negb (expired p now c)) cands Hs) as Hsa. fold alive in Hsa. rewrite Hsplit in Hsa.
    intros a b. by apply sorted_split.
Qed.

Definition ex_cand (i : string) (n : Z) (f : time) : purgeCandidate := {| id := i; uri := ("file:///rec/" ++ i)%string; size := n; finished := f; until := None |}.

Definition ex_policy : RetentionPolicy := {| MaxAgeDays := 30; MaxTotalBytes := 100; UpdatedAt := None; UpdatedBy := "" |}.

Definition ex_cands : list purgeCandidate := [ex_cand "a" 10 0; ex_cand "b" 60 (40 * Day); ex_cand "c" 50 (41 * Day); ex_cand "d" 50 (42 * Day)].

(** Forty-five days in, the first goes by age and the second to fit the cap. *)
Lemma purge_selection_witness :
  map_to_list (selectForPurge ex_cands ex_policy (45 * Day)) = map_to_list (<["b" := "size"]> {["a" := "age"]}) ∧
  ∃ dropped kept, List.filter (λ c, negb (expired ex_policy (45 * Day) c)) ex_cands = dropped ++ kept ∧ total kept ≤ 100.
Proof.
  split; [vm_compute; reflexivity|].
  assert (NoDup (id <$> ex_cands)) as H1 by (apply (bool_decide_unpack (NoDup (id <$> ex_cands))); vm_compute; exact I).
  assert (StronglySorted older ex_cands) as H2.
  { repeat (constructor; [|repeat (constructor; [vm_compute; discriminate|]); constructor]). constructor. }
  assert (Forall (λ c, 0 ≤ size c) ex_cands) as H3 by (repeat (constructor; [vm_compute; discriminate|]); constructor).
  assert (total ex_cands ≤ MaxInt64) as H4 by (vm_compute; discriminate).
  destruct (purge_selection ex_cands ex_policy (45 * Day) H1 H2 H3 H4) as (dropped & kept & E & _ & _ & _ & Hon).
  exists dropped, kept. split; [exact E|]. exact (proj1 (Hon eq_refl)).
Defined.

(** * The sweep beside the move *)
Section Interleaved.
Context (bucket prefix : string).

Abbreviation copy := (copy_uri bucket prefix).

(** Where the mover is in [moveOne], with the row it read. *)
Inductive mover_at :=
| MIdle
| MOpened (i : string) (r : Recording) (content : bytes)
| MUploaded (i : string) (r : Recording) (content : bytes)
| MSwitched (i : string) (r : Recording)  (* the local file still to go *)
| MAbandon (i : string) (r : Recording).  (* the copy still to go *)

(** The whole: the world, the sweep's plan, the candidate whose blob it has
deleted and whose row it has still to mark, and the mover.  The last two are for
the statements alone: the URIs at which a call that stores or removes a blob
went wrong, and the recordings whose blob was deleted and whose mark failed. *)
Record sys := Sys {
  w : world; todo : list (purgeCandidate * string); marking : option (purgeCandidate * string); mover : mover_at;
  left_ : gset string; unmarked : gset string }.

Definition is_file (r : Recording) : bool := Strings.HasPrefix (StorageURI r) "file://".

(** What a mover that goes no further leaves behind. *)
Definition leaves (m : mover_at) : gset string :=
  match m with
  | MIdle | MOpened _ _ _ => ∅
  | MUploaded i r _ | MAbandon i r => {[copy i r]}
  | MSwitched _ r => {[StorageURI r]}
  end.

Definition leaves_unmarked (k : option (purgeCandidate * string)) : gset string := match k with Some c => {[id c.1]} | None => ∅ end.

Inductive step : sys → sys → Prop :=
| sweep_start now x m F U : step (Sys x [] None m F U) (Sys x (plan now x) None m F U)
| sweep_cannot_delete x c l m F U : step (Sys x (c :: l) None m F U) (Sys x l None m F U)
| sweep_delete x c l m F U : step (Sys x (c :: l) None m F U) (Sys (Delete true (uri c.1) x).2 l (Some c) m F U)
(* deleted, and answered with an error all the same *)
| sweep_delete_unsure x c l m F U :
    step (Sys x (c :: l) None m F U) (Sys (Delete true (uri c.1) x).2 l None m F ({[id c.1]} ∪ U))
| sweep_mark x c l m F U when : step (Sys x l (Some c) m F U) (Sys (mark c.1 c.2 when x).2 l None m F U)
| sweep_cannot_mark x c l m F U : step (Sys x l (Some c) m F U) (Sys x l None m F ({[id c.1]} ∪ U))
(* the row is marked and its commands are not forgotten: nothing is audited *)
| sweep_mark_half x c l m F U when marked x' :
    markRecordingPurged (id c.1) (uri c.1) when x = (marked, x') →
    step (Sys x l (Some c) m F U) (Sys (set_recordings x (recordings x')) l None m F U)
| move_open x i r content l k F U :
    recordings x !! i = Some r → is_file r = true → blobs x !! StorageURI r = Some content →
    step (Sys x l k MIdle F U) (Sys x l k (MOpened i r content) F U)
(* no copy could be begun, or none of it arrived *)
| move_cannot_copy x i r content l k F U : step (Sys x l k (MOpened i r content) F U) (Sys x l k MIdle F U)
(* io.Copy fails, and closing the spool uploads what it has; or the whole was
uploaded and Close answers an error *)
| move_cut_short x i r content n l k F U :
    step (Sys x l k (MOpened i r content) F U)
         (Sys (set_blobs x (<[copy i r := take n content]> (blobs x))) l k MIdle ({[copy i r]} ∪ F) U)
| move_upload x i r content l k F U :
    step (Sys x l k (MOpened i r content) F U) (Sys (set_blobs x (<[copy i r := content]> (blobs x))) l k (MUploaded i r content) F U)
| move_digest_differs x i r content l k F U :
    digest_ok r content = false → step (Sys x l k (MUploaded i r content) F U) (Sys x l k (MAbandon i r) F U)
| move_switch x i r content l k F U (switched : bool) x' :
    digest_ok r content = true → UpdateRecordingURI i (StorageURI r) (copy i r) x = (switched, x') →
    step (Sys x l k (MUploaded i r content) F U) (Sys x' l k (if switched then MSwitched i r else MAbandon i r) F U)
| move_cannot_switch x i r content l k F U :
    digest_ok r content = true → step (Sys x l k (MUploaded i r content) F U) (Sys x l k (MAbandon i r) F U)
| move_remove_local x i r l k F U :
    step (Sys x l k (MSwitched i r) F U) (Sys (Delete true (StorageURI r) x).2 l k MIdle F U)
| move_remove_copy x i r l k F U :
    step (Sys x l k (MAbandon i r) F U) (Sys (Delete true (copy i r) x).2 l k MIdle F U)
(* a removal that fails is logged or ignored *)
| move_cannot_remove x m l k F U :
    match m with MSwitched _ _ | MAbandon _ _ => True | _ => False end →
    step (Sys x l k m F U) (Sys x l k MIdle (leaves m ∪ F) U)
(* the gateway stops *)
| stop x m l k F U : step (Sys x l k m F U) (Sys x [] None MIdle (leaves m ∪ F) (leaves_unmarked k ∪ U)).

(** A store in order to start from: rows name distinct blobs, no copy of a
local recording is there yet, and a blob is there exactly for the rows not
purged. *)
Record in_order (x : world) : Prop := {
  uris_distinct i j ri rj : recordings x !! i = Some ri → recordings x !! j = Some rj → StorageURI ri = StorageURI rj → i = j;
  no_copy_named i j ri rj : recordings x !! i = Some ri → is_file ri = true → recordings x !! j = Some rj → StorageURI rj ≠ copy i ri;
  no_copy_there i r : recordings x !! i = Some r → is_file r = true → blobs x !! copy i r = None;
  blob_iff_kept i r : recordings x !! i = Some r → is_Some (blobs x !! StorageURI r) ↔ PurgedAt r = None;
  blobs_named u b : blobs x !! u = Some b → ∃ i r, recordings x !! i = Some r ∧ StorageURI r = u;
}.

(** ** One recording's share of the state *)

Inductive lmover := LIdle | LOpened (b : bytes) | LUploaded (b : bytes) | LSwitched | LAbandon.

(** What concerns one recording: its row, what is stored at its own URI and at
its copy's, where the mover is with it, the URI the sweep has deleted for it, the
URIs it plans to, the URIs where a call went wrong, and whether a mark of it did. *)
Record view := View {
  row : Recording; bs : option bytes; bc : option bytes; lm : lmover; lk : option string; lt : list string; vl : gset string; vu : Prop }.

Section One.
(** The recording as it was at the start: its row, its copy's URI, its content. *)
Variables (r0 : Recording) (cp : string) (b0 : option bytes).
Hypothesis Hcp : is_file r0 = true → cp ≠ StorageURI r0.

Abbreviation src := (StorageURI r0).

(** What is stored where the row points. *)
Definition here (v : view) : option bytes := if bool_decide (StorageURI (row v) = src) then bs v else bc v.

Record ok (v : view) : Prop := {
  o_place : StorageURI (row v) = src ∨ is_file r0 = true ∧ StorageURI (row v) = cp;
  o_content b : bs v = Some b ∨ StorageURI (row v) ≠ src ∧ bc v = Some b → b0 = Some b;
  o_purged : PurgedAt (row v) ≠ None → here v = None;
  o_kept : PurgedAt (row v) = None → here v = None → lk v = Some (StorageURI (row v)) ∨ vu v;
  o_mover : match lm v with
            | LIdle => (StorageURI (row v) = src → is_Some (bc v) → cp ∈ vl v) ∧ (StorageURI (row v) ≠ src → is_Some (bs v) → src ∈ vl v)
            | LOpened b => is_file r0 = true ∧ StorageURI (row v) = src ∧ (is_Some (bc v) → cp ∈ vl v) ∧ b0 = Some b
            | LUploaded b => is_file r0 = true ∧ StorageURI (row v) = src ∧ bc v = Some b ∧ b0 = Some b
            | LSwitched => is_file r0 = true ∧ StorageURI (row v) = cp
            | LAbandon => is_file r0 = true ∧ StorageURI (row v) = src
            end;
  o_sweep u : u ∈ lt v ∨ lk v = Some u → u = src ∨ is_file r0 = true ∧ u = cp ∧ StorageURI (row v) = cp;
  o_marking u : lk v = Some u → (u = src → bs v = None) ∧ (u ≠ src → bc v = None);
}.

(** A row at another URI, and a row purged. *)
Definition at_uri (r : Recording) (u : string) : Recording :=
  {| Format := Format r; StorageURI := u; SizeBytes := SizeBytes r; SHA256 := SHA256 r; FinishedAt := FinishedAt r;
     RetentionUntil := RetentionUntil r; PurgedAt := PurgedAt r |}.
Definition at_purge (r : Recording) (when : time) : Recording :=
  {| Format := Format r; StorageURI := StorageURI r; SizeBytes := SizeBytes r; SHA256 := SHA256 r; FinishedAt := FinishedAt r;
     RetentionUntil := RetentionUntil r; PurgedAt := Some when |}.

Definition lleaves (m : lmover) : gset string :=
  match m with LIdle | LOpened _ => ∅ | LUploaded _ | LAbandon => {[cp]} | LSwitched => {[src]} end.

(** How the steps of the whole touch one recording. *)
Inductive lstep : view → view → Prop :=
| l_same r x y m k t F F' (U U' : Prop) : F ⊆ F' → (U → U') → lstep (View r x y m k t F U) (View r x y m k t F' U')
| l_plan r x y m t F U : (∀ u, u ∈ t → u = StorageURI r) → lstep (View r x y m None [] F U) (View r x y m None t F U)
| l_skip r x y m t t' F U : (∀ u, u ∈ t' → u ∈ t) → lstep (View r x y m None t F U) (View r x y m None t' F U)
| l_delete r x y m u t k F (U U' : Prop) :
    k = Some u ∨ k = None ∧ U' → (U → U') →
    lstep (View r x y m None (u :: t) F U)
          (View r (if bool_decide (u = src) then None else x) (if bool_decide (u = src) then y else None) m k t F U')
| l_mark r x y m u t when F U :
    lstep (View r x y m (Some u) t F U)
          (View (if bool_decide (StorageURI r = u) && bool_decide (PurgedAt r = None) then at_purge r when else r) x y m None t F U)
| l_unmarked r x y m k t F (U U' : Prop) : (is_Some k → U') → (U → U') → lstep (View r x y m k t F U) (View r x y m None t F U')
| l_open r b y k t F U : is_file r0 = true → StorageURI r = src → lstep (View r (Some b) y LIdle k t F U) (View r (Some b) y (LOpened b) k t F U)
| l_cannot_copy r x y b k t F U : lstep (View r x y (LOpened b) k t F U) (View r x y LIdle k t F U)
| l_cut_short r x y b b' k t F F' U : F ⊆ F' → cp ∈ F' → lstep (View r x y (LOpened b) k t F U) (View r x (Some b') LIdle k t F' U)
| l_upload r x y b k t F U : lstep (View r x y (LOpened b) k t F U) (View r x (Some b) (LUploaded b) k t F U)
| l_too_late r x y b k t F U : lstep (View r x y (LUploaded b) k t F U) (View r x y LAbandon k t F U)
| l_switch r x y b k t F U :
    StorageURI r = src → PurgedAt r = None → lstep (View r x y (LUploaded b) k t F U) (View (at_uri r cp) x y LSwitched k t F U)
| l_remove_local r x y k t F U : lstep (View r x y LSwitched k t F U) (View r None y LIdle k t F U)
| l_remove_copy r x y k t F U : lstep (View r x y LAbandon k t F U) (View r x None LIdle k t F U)
| l_leave r x y m k t F F' U : F ⊆ F' → lleaves m ⊆ F' → lstep (View r x y m k t F U) (View r x y LIdle k t F' U)
| l_stop r x y m k t F F' (U U' : Prop) :
    F ⊆ F' → lleaves m ⊆ F' → (is_Some k → U') → (U → U') → lstep (View r x y m k t F U) (View r x y LIdle None [] F' U').

(** Splits an invariant of a view whose shape is known into its clauses. *)
Ltac ok_clauses := split; unfold here; cbn [row bs bc lm lk lt vl vu StorageURI PurgedAt at_uri at_purge].

(** Growing what went wrong weakens nothing that is said. *)
Lemma grow_ok r x y m k t F F' (U U' : Prop) : F ⊆ F' → (U → U') → ok (View r x y m k t F U) → ok (View r x y m k t F' U').
Proof.
  intros HF HU [Hp Hc Hpu Hk Hm Ht Hmk]. unfold here in *. cbn [row bs bc lm lk lt vl vu] in *. ok_clauses; try done.
  - intros Hn Hh. destruct (Hk Hn Hh); auto.
  - destruct m; naive_solver.
Qed.

Lemma delete_ok r x y m u t k F (U U' : Prop) :
  k = Some u ∨ k = None ∧ U' → (U → U') → ok (View r x y m None (u :: t) F U) →
  ok (View r (if bool_decide (u = src) then None else x) (if bool_decide (u = src) then y else None) m k t F U').
Proof.
  intros Hk' HU [Hp Hc Hpu Hk Hm Ht Hmk]. unfold here in *. cbn [row bs bc lm lk lt vl vu] in *.
  assert (∀ u', k = Some u' → u' = u) as Hku by (intros u'; destruct Hk' as [->|[-> _]]; congruence).
  assert (k = Some u ∨ U') as Hkept by tauto.
  assert (u = src ∨ is_file r0 = true ∧ u = cp ∧ StorageURI r = cp) as [->|(Hf & -> & Hr)] by (apply Ht; left; left).
  - rewrite bool_decide_eq_true_2 by done. ok_clauses.
    + done.
    + intros b [?|?]; [done|auto].
    + case_bool_decide; auto.
    + intros Hn. specialize (Hk Hn). case_bool_decide as E; [by rewrite E|]. intros Hy. destruct (Hk Hy) as [?|HUU]; [done|auto].
    + destruct m; [split; [apply Hm|by intros _ []]|done..].
    + intros u' [Hin|E%Hku]; [|subst u'; by left]. apply Ht. left. by right.
    + intros u' E%Hku. by subst u'.
  - specialize (Hcp Hf). rewrite (bool_decide_eq_false_2 (cp = src)) by done.
    rewrite Hr, (bool_decide_eq_false_2 (cp = src)) in Hpu, Hk by done. ok_clauses.
    + done.
    + intros b [?|[_ ?]]; [auto|done].
    + by rewrite Hr, bool_decide_eq_false_2.
    + by rewrite Hr.
    + rewrite Hr in *. destruct m; naive_solver.
    + intros u' [Hin|E%Hku]; [|subst u'; by auto]. apply Ht. left. by right.
    + intros u' E%Hku. by subst u'.
Qed.

Lemma mark_ok r x y m u t when F U :
  ok (View r x y m (Some u) t F U) →
  ok (View (if bool_decide (StorageURI r = u) && bool_decide (PurgedAt r = None) then at_purge r when else r) x y m None t F U).
Proof.
  intros [Hp Hc Hpu Hk Hm Ht Hmk]. unfold here in *. cbn [row bs bc lm lk lt vl vu] in *.
  assert (∀ u', u' ∈ t ∨ None = Some u' → u' = src ∨ is_file r0 = true ∧ u' = cp ∧ StorageURI r = cp) as Ht'.
  { intros u' [|]; [|done]. apply Ht. by left. }
  destruct (bool_decide (StorageURI r = u) && bool_decide (PurgedAt r = None)) eqn:E.
  - apply andb_true_iff in E as [<-%bool_decide_eq_true Hn%bool_decide_eq_true]. destruct (Hmk _ eq_refl) as [H1 H2].
    ok_clauses; try done. intros _. case_bool_decide; auto.
  - ok_clauses; try done. intros Hn Hh. right. destruct (Hk Hn Hh) as [[= ->]|?]; [|done].
    rewrite !bool_decide_eq_true_2 in E by done. done.
Qed.

Lemma switch_ok r x y b k t F U :
  StorageURI r = src → PurgedAt r = None → ok (View r x y (LUploaded b) k t F U) → ok (View (at_uri r cp) x y LSwitched k t F U).
Proof.
  intros Hr Hn [Hp Hc Hpu Hk Hm Ht Hmk]. unfold here in *. cbn [row bs bc lm lk lt vl vu] in *.
  destruct Hm as (Hf & _ & -> & Hb). specialize (Hcp Hf). ok_clauses.
  - auto.
  - intros b' [?|[_ [= <-]]]; [|done]. apply Hc. by left.
  - done.
  - by rewrite bool_decide_eq_false_2.
  - done.
  - intros u Hu. destruct (Ht u Hu) as [|(_ & _ & E)]; [by left|]. congruence.
  - done.
Qed.

(** Something stored at the copy's URI while the row is at its own. *)
Lemma stored_ok r x y b b' m' k t F F' U :
  F ⊆ F' → match m' with LIdle => cp ∈ F' | LUploaded c => c = b ∧ b' = b | _ => False end →
  ok (View r x y (LOpened b) k t F U) → ok (View r x (Some b') m' k t F' U).
Proof.
  intros HF Hm' [Hp Hc Hpu Hk (Hf & Hr & Hy & Hb) Ht Hmk]. unfold here in *. cbn [row bs bc lm lk lt vl vu] in *.
  rewrite bool_decide_eq_true_2 in Hpu, Hk by done. specialize (Hcp Hf). ok_clauses; try done.
  - intros b'' [?|[? _]]; [|done]. apply Hc. by left.
  - by rewrite bool_decide_eq_true_2.
  - by rewrite bool_decide_eq_true_2.
  - destruct m' as [|?|c| |]; try done. by destruct Hm' as [-> ->].
  - intros u Hu. split; [by apply Hmk|]. intros Hn. destruct (Ht u) as [|(_ & _ & E)]; [by right|done|congruence].
Qed.

Lemma remove_local_ok r x y k t F U : ok (View r x y LSwitched k t F U) → ok (View r None y LIdle k t F U).
Proof.
  intros [Hp Hc Hpu Hk [Hf Hr] Ht Hmk]. unfold here in *. cbn [row bs bc lm lk lt vl vu] in *. specialize (Hcp Hf).
  rewrite bool_decide_eq_false_2 in Hpu, Hk by congruence. ok_clauses; try done.
  - intros b [|?]; [done|]. apply Hc. by right.
  - by rewrite bool_decide_eq_false_2 by congruence.
  - by rewrite bool_decide_eq_false_2 by congruence.
  - split; [congruence|by intros _ []].
  - intros u Hu. split; [done|]. by apply Hmk.
Qed.

Lemma remove_copy_ok r x y k t F U : ok (View r x y LAbandon k t F U) → ok (View r x None LIdle k t F U).
Proof.
  intros [Hp Hc Hpu Hk [Hf Hr] Ht Hmk]. unfold here in *. cbn [row bs bc lm lk lt vl vu] in *.
  rewrite bool_decide_eq_true_2 in Hpu, Hk by done. ok_clauses; try done.
  - intros b [|[? _]]; [|done]. apply Hc. by left.
  - by rewrite bool_decide_eq_true_2.
  - by rewrite bool_decide_eq_true_2.
  - intros u Hu. split; [by apply Hmk|done].
Qed.

(** The mover goes no further. *)
Lemma leave_ok r x y m k t F F' U : F ⊆ F' → lleaves m ⊆ F' → ok (View r x y m k t F U) → ok (View r x y LIdle k t F' U).
Proof.
  intros HF Hl Ho%(grow_ok _ _ _ _ _ _ F F' U U HF (λ H, H)). destruct Ho as [Hp Hc Hpu Hk Hm Ht Hmk].
  unfold here in *. cbn [row bs bc lm lk lt vl vu] in *. ok_clauses; try done.
  destruct m as [|b|b| |]; cbn [lleaves] in Hl; [done|..].
  - destruct Hm as (_ & ? & ? & _). split; [done|congruence].
  - destruct Hm as (_ & ? & _). split; [set_solver|congruence].
  - destruct Hm as (Hf & ?). split; [|set_solver]. intros E. destruct (Hcp Hf). congruence.
  - destruct Hm as (_ & ?). split; [set_solver|congruence].
Qed.

Lemma unmarked_ok r x y m k t F (U U' : Prop) : (is_Some k → U') → (U → U') → ok (View r x y m k t F U) → ok (View r x y m None t F U').
Proof.
  intros Hk' HU [Hp Hc Hpu Hk Hm Ht Hmk]. unfold here in *. cbn [row bs bc lm lk lt vl vu] in *. ok_clauses; try done.
  - intros Hn Hh. right. destruct (Hk Hn Hh) as [->|?]; [apply Hk'; by eexists|auto].
  - intros u [?|?]; [|done]. auto.
Qed.

Lemma skip_ok r x y m k t t' F U : (∀ u, u ∈ t' → u ∈ t) → ok (View r x y m k t F U) → ok (View r x y m k t' F U).
Proof.
  intros Hs [Hp Hc Hpu Hk Hm Ht Hmk]. unfold here in *. cbn [row bs bc lm lk lt vl vu] in *. ok_clauses; try done.
  intros u [?%Hs|?]; auto.
Qed.

Lemma lstep_ok v v' : lstep v v' → ok v → ok v'.
Proof.
  intros Hs Hok. destruct Hs as [| |r x y m t t' F U Ht'| | | |r b y k t F U Hf Hr|r x y b k t F U|r x y b b' k t F F' U HF Hin| |r x y b k t F U| | |
    |r x y m k t F F' U HF Hl|r x y m k t F F' U U' HF Hl Hk' HU].
  - by eapply grow_ok.
  - destruct Hok as [Hp Hc Hpu Hk Hm Ht Hmk]. unfold here in *. cbn [row bs bc lm lk lt vl vu] in *. ok_clauses; try done.
    intros u [Hu%H|?]; [|done]. subst u. destruct Hp as [|[? ?]]; auto.
  - by eapply skip_ok.
  - by eapply delete_ok.
  - by apply mark_ok.
  - by eapply unmarked_ok.
  - destruct Hok as [Hp Hc Hpu Hk Hm Ht Hmk]. unfold here in *. cbn [row bs bc lm lk lt vl vu] in *. ok_clauses; try done.
    split_and!; [done|done|by apply Hm|]. apply Hc. by left.
  - destruct Hok as [Hp Hc Hpu Hk Hm Ht Hmk]. unfold here in *. cbn [row bs bc lm lk lt vl vu] in *. ok_clauses; try done.
    destruct Hm as (_ & Hr & ? & _). split; [done|congruence].
  - by eapply stored_ok.
  - eapply stored_ok; [done| |done]. done.
  - destruct Hok as [Hp Hc Hpu Hk Hm Ht Hmk]. unfold here in *. cbn [row bs bc lm lk lt vl vu] in *. ok_clauses; try done.
    by destruct Hm as (? & ? & _).
  - by eapply switch_ok.
  - by eapply remove_local_ok.
  - by eapply remove_copy_ok.
  - by apply (leave_ok r x y m k t F F' U HF Hl).
  - apply (skip_ok r x y LIdle None t); [|by apply (leave_ok r x y m None t F F' U' HF Hl), (unmarked_ok r x y m k t F U U')]. by intros u ?%not_elem_of_nil.
Qed.
End One.

(** ** The whole as its recordings' shares *)

Lemma string_app_inj_l s a b : (s ++ a = s ++ b)%string → a = b.
Proof. induction s as [|c s IH]; [done|]. intros H. injection H. exact IH. Qed.

Lemma string_app_inj_r a b s t : length (to_bytes s) = length (to_bytes t) → (a ++ s = b ++ t)%string → a = b.
Proof. intros Hl H%(f_equal to_bytes). rewrite !to_bytes_app in H. apply app_inj_2 in H as [H _]; [|done]. by apply to_bytes_inj. Qed.

(** Copies of different recordings have different names, and none is local. *)
Lemma copy_inj i j ri rj : copy i ri = copy j rj → i = j.
Proof.
  unfold copy_uri, copy_name. intros H. do 4 apply string_app_inj_l in H.
  eapply string_app_inj_r; [|exact H]. by repeat case_bool_decide.
Qed.

Lemma copy_not_file i r r' : StorageURI r' = copy i r → is_file r' = false.
Proof. intros H. unfold is_file. by rewrite H. Qed.

Section Whole.
Context (x0 : world) (Hstart : in_order x0).

(** The URIs that are a recording's own. *)
Definition owns (i : string) (r0 : Recording) (u : string) : Prop :=
  recordings x0 !! i = Some r0 ∧ (u = StorageURI r0 ∨ is_file r0 = true ∧ u = copy i r0).

Lemma owns_unique i j ri rj u : owns i ri u → owns j rj u → i = j.
Proof.
  intros [Hi [->|[Hfi ->]]] [Hj [Hu|[Hfj Hu]]].
  - by eapply (uris_distinct _ Hstart).
  - exfalso. by eapply (no_copy_named _ Hstart j i rj ri).
  - exfalso. by eapply (no_copy_named _ Hstart i j ri rj).
  - by eapply copy_inj.
Qed.

Lemma copy_elsewhere i r0 : recordings x0 !! i = Some r0 → is_file r0 = true → copy i r0 ≠ StorageURI r0.
Proof. intros Hi Hf H. by eapply (no_copy_named _ Hstart i i r0 r0). Qed.

Definition copy_stored (m : gmap string bytes) (i : string) (r0 : Recording) : option bytes :=
  if is_file r0 then m !! copy i r0 else None.

Definition mover_of (m : mover_at) (i : string) : lmover :=
  match m with
  | MIdle => LIdle
  | MOpened j _ b => if bool_decide (j = i) then LOpened b else LIdle
  | MUploaded j _ b => if bool_decide (j = i) then LUploaded b else LIdle
  | MSwitched j _ => if bool_decide (j = i) then LSwitched else LIdle
  | MAbandon j _ => if bool_decide (j = i) then LAbandon else LIdle
  end.

Definition marking_of (k : option (purgeCandidate * string)) (i : string) : option string :=
  c ← k; if bool_decide (id c.1 = i) then Some (uri c.1) else None.

Definition todo_of (l : list (purgeCandidate * string)) (i : string) : list string :=
  omap (λ c, if bool_decide (id c.1 = i) then Some (uri c.1) else None) l.

Definition view_of (s : sys) (i : string) (r0 r : Recording) : view :=
  View r (blobs (w s) !! StorageURI r0) (copy_stored (blobs (w s)) i r0) (mover_of (mover s) i) (marking_of (marking s) i) (todo_of (todo s) i)
    (left_ s) (i ∈ unmarked s).

(** What the mover holds is the row of a local recording. *)
Definition mover_ok (m : mover_at) : Prop :=
  match m with
  | MIdle => True
  | MOpened j r _ | MUploaded j r _ | MSwitched j r | MAbandon j r =>
      ∃ r0, recordings x0 !! j = Some r0 ∧ is_file r0 = true ∧ StorageURI r = StorageURI r0 ∧ copy j r = copy j r0
  end.

Record sound (s : sys) : Prop := {
  s_rows i r : recordings (w s) !! i = Some r → ∃ r0, recordings x0 !! i = Some r0 ∧ Format r = Format r0
    ∧ ok r0 (copy i r0) (blobs x0 !! StorageURI r0) (view_of s i r0 r);
  s_kept i : is_Some (recordings x0 !! i) → is_Some (recordings (w s) !! i);
  s_blobs u b : blobs (w s) !! u = Some b → ∃ i r0, owns i r0 u;
  s_sweep c : c ∈ todo s ∨ marking s = Some c → is_Some (recordings x0 !! id c.1);
  s_mover : mover_ok (mover s);
}.

(** Storing or deleting at another recording's URI leaves this one's alone. *)
Lemma other_blobs i r0 j rj u m m' :
  recordings x0 !! i = Some r0 → owns j rj u → j ≠ i → (∀ u', u' ≠ u → m' !! u' = m !! u') →
  m' !! StorageURI r0 = m !! StorageURI r0 ∧ copy_stored m' i r0 = copy_stored m i r0.
Proof.
  intros Hi Hu Hne Hm. unfold copy_stored. split; [|destruct (is_file r0) eqn:Hf; [|done]]; apply Hm; intros <-; apply Hne;
    eapply owns_unique; [exact Hu| |exact Hu|]; split; eauto.
Qed.

Lemma plan_listed now x c reason : (c, reason) ∈ plan now x → ∃ r, recordings x !! id c = Some r ∧ uri c = StorageURI r.
Proof.
  unfold plan. cbv zeta. rewrite list_elem_of_omap. intros (c' & Hc & Hr).
  destruct (selectForPurge _ _ _ !! id c'); cbn in Hr; [|done]. injection Hr as -> ->.
  unfold listPurgeCandidates in Hc. rewrite merge_sort_Permutation, list_elem_of_omap in Hc.
  destruct Hc as ([i r] & Hin%elem_of_map_to_list & Hc). unfold candidate in Hc. cbn in Hc.
  destruct (PurgedAt r); [done|]. destruct (FinishedAt r); [|done]. injection Hc as <-. cbn. eauto.
Qed.

Lemma leaves_of m i r0 : recordings x0 !! i = Some r0 → mover_ok m → lleaves r0 (copy i r0) (mover_of m i) ⊆ leaves m.
Proof.
  intros Hi. destruct m as [|j rj b|j rj b|j rj|j rj]; cbn [mover_ok mover_of leaves]; [done|by case_bool_decide|..];
    intros (r0j & Hj & _ & Hs & Hc); case_bool_decide as E; [|done| |done| |done]; subst j; assert (r0j = r0) as -> by congruence;
    cbn [lleaves]; rewrite ?Hs, ?Hc; done.
Qed.

(** The step as one recording sees it. *)
Definition seen_as (s s' : sys) (i : string) (r0 r : Recording) : Prop :=
  ∃ r', recordings (w s') !! i = Some r' ∧ Format r' = Format r ∧ lstep r0 (copy i r0) (view_of s i r0 r) (view_of s' i r0 r').

Section Steps.
Context (i : string) (r0 r : Recording) (Hi : recordings x0 !! i = Some r0).

(** A recording's view does not change when its row, what it stores and what
the threads hold of it do not. *)
Lemma seen_same s s' :
  recordings (w s') !! i = Some r →
  blobs (w s') !! StorageURI r0 = blobs (w s) !! StorageURI r0 → copy_stored (blobs (w s')) i r0 = copy_stored (blobs (w s)) i r0 →
  mover_of (mover s') i = mover_of (mover s) i → marking_of (marking s') i = marking_of (marking s) i →
  todo_of (todo s') i = todo_of (todo s) i → left_ s ⊆ left_ s' → unmarked s ⊆ unmarked s' → seen_as s s' i r0 r.
Proof.
  intros Hr H1 H2 H3 H4 H5 H6 H7. exists r. split_and!; [done..|]. unfold view_of. rewrite H1, H2, H3, H4, H5. apply l_same; set_solver.
Qed.

Lemma todo_of_cons c l : todo_of (c :: l) i = if bool_decide (id c.1 = i) then uri c.1 :: todo_of l i else todo_of l i.
Proof. unfold todo_of. cbn. by case_bool_decide. Qed.

Lemma marking_of_Some c : marking_of (Some c) i = if bool_decide (id c.1 = i) then Some (uri c.1) else None.
Proof. done. Qed.

Lemma start_seen now x m F U :
  recordings x !! i = Some r → seen_as (Sys x [] None m F U) (Sys x (plan now x) None m F U) i r0 r.
Proof.
  intros Hr. exists r. split_and!; [done..|]. unfold view_of. cbn [w todo marking mover left_ unmarked marking_of todo_of].
  apply l_plan. intros u. unfold todo_of. rewrite list_elem_of_omap. intros ([c reason] & Hin & Hc).
  case_bool_decide as Hid; [|done]. injection Hc as <-. apply plan_listed in Hin as (r' & Hr' & ->).
  cbn in Hid. rewrite Hid in Hr'. congruence.
Qed.

Lemma delete_seen x c l k m rc F U U' :
  recordings x !! i = Some r → owns (id c.1) rc (uri c.1) → k = Some c ∨ k = None ∧ id c.1 ∈ U' → U ⊆ U' →
  seen_as (Sys x (c :: l) None m F U) (Sys (Delete true (uri c.1) x).2 l k m F U') i r0 r.
Proof.
  intros Hr Hown Hk HU. destruct (decide (id c.1 = i)) as [Hid|Hid].
  - exists r. split_and!; [done..|]. unfold view_of. cbn [w todo marking mover left_ unmarked Delete snd blobs set_blobs].
    rewrite todo_of_cons, !bool_decide_eq_true_2 by done. cbn [marking_of mbind option_bind].
    destruct Hown as [Hc Hu]. rewrite Hid, Hi in Hc. injection Hc as <-. rewrite Hid in Hu.
    replace (delete (uri c.1) (blobs x) !! StorageURI r0) with (if bool_decide (uri c.1 = StorageURI r0) then None else blobs x !! StorageURI r0)
      by (case_bool_decide as E; [by rewrite E, lookup_delete_eq|by rewrite lookup_delete_ne]).
    replace (copy_stored (delete (uri c.1) (blobs x)) i r0)
      with (if bool_decide (uri c.1 = StorageURI r0) then copy_stored (blobs x) i r0 else None).
    { apply l_delete; [|set_solver]. destruct Hk as [->|[-> Hin]]; [left; by rewrite marking_of_Some, bool_decide_eq_true_2|right; by rewrite <-Hid]. }
    unfold copy_stored. destruct Hu as [Hu|[Hf Hu]].
    + rewrite bool_decide_eq_true_2 by done. destruct (is_file r0) eqn:Hf; [|done].
      rewrite lookup_delete_ne; [done|]. rewrite Hu. intros E. by apply (copy_elsewhere i r0).
    + pose proof (copy_elsewhere i r0 Hi Hf). rewrite bool_decide_eq_false_2 by congruence. by rewrite Hf, Hu, lookup_delete_eq.
  - destruct (other_blobs i r0 (id c.1) rc (uri c.1) (blobs x) (delete (uri c.1) (blobs x)) Hi Hown Hid) as [H1 H2].
    { intros u' Hu'. by rewrite lookup_delete_ne. }
    apply seen_same; cbn [w todo marking mover left_ unmarked Delete snd blobs set_blobs recordings]; try done.
    + destruct Hk as [->|[-> _]]; [by rewrite marking_of_Some, bool_decide_eq_false_2|done].
    + by rewrite todo_of_cons, bool_decide_eq_false_2.
Qed.

(** A mark that took the row, whatever else went through. *)
Lemma mark_seen x x' c l m F U when :
  recordings x !! i = Some r → blobs x' = blobs x → recordings x' = recordings (markRecordingPurged (id c.1) (uri c.1) when x).2 →
  seen_as (Sys x l (Some c) m F U) (Sys x' l None m F U) i r0 r.
Proof.
  intros Hr Hb Hm. destruct (decide (id c.1 = i)) as [Hid|Hid].
  - exists (if bool_decide (StorageURI r = uri c.1) && bool_decide (PurgedAt r = None) then at_purge r (TimeArg when) else r).
    assert (recordings x' !! i = Some
      (if bool_decide (StorageURI r = uri c.1) && bool_decide (PurgedAt r = None) then at_purge r (TimeArg when) else r)) as Hr'.
    { rewrite Hm. unfold markRecordingPurged. rewrite Hid, Hr. destruct (_ && _); cbn; [by rewrite lookup_insert_eq|done]. }
    split_and!; [exact Hr'|by destruct (_ && _)|]. unfold view_of. cbn [w todo marking mover left_ unmarked]. rewrite Hb, marking_of_Some.
    rewrite bool_decide_eq_true_2 by done. apply l_mark.
  - apply seen_same; cbn [w todo marking mover left_ unmarked]; rewrite ?Hb; try done.
    + rewrite Hm. unfold markRecordingPurged. destruct (recordings x !! id c.1) as [rc|]; [|done].
      destruct (_ && _); cbn; [by rewrite lookup_insert_ne|done].
    + by rewrite marking_of_Some, bool_decide_eq_false_2.
Qed.

(** The mark failed, or the gateway stopped before it. *)
Lemma unmarked_seen x l k m F U :
  recordings x !! i = Some r → seen_as (Sys x l k m F U) (Sys x l None m F (leaves_unmarked k ∪ U)) i r0 r.
Proof.
  intros Hr. exists r. split_and!; [done..|]. unfold view_of. cbn [w todo marking mover left_ unmarked marking_of mbind option_bind].
  apply l_unmarked; [|set_solver]. intros [u Hu]. unfold marking_of in Hu. destruct k as [c|]; [|done]. cbn in Hu.
  case_bool_decide as E; [|done]. cbn [leaves_unmarked]. set_solver.
Qed.

(** A mover step on [j]: unless it is this recording, nothing of it changes. *)
Lemma mover_elsewhere x x' j l k m m' u rj F F' U :
  recordings x !! i = Some r → j ≠ i → owns j rj u → recordings x' !! i = recordings x !! i →
  (∀ u', u' ≠ u → blobs x' !! u' = blobs x !! u') → mover_of m i = LIdle → mover_of m' i = LIdle → F ⊆ F' →
  seen_as (Sys x l k m F U) (Sys x' l k m' F' U) i r0 r.
Proof.
  intros Hr Hj Hown Hrec Hb Hm Hm' HF. destruct (other_blobs i r0 j rj u _ _ Hi Hown Hj Hb) as [H1 H2].
  apply seen_same; cbn [w todo marking mover left_ unmarked]; done || congruence.
Qed.

Lemma open_seen x j rj b l k F U :
  recordings x !! i = Some r → recordings x !! j = Some rj → is_file rj = true → blobs x !! StorageURI rj = Some b →
  (StorageURI r = StorageURI r0 ∨ is_file r0 = true ∧ StorageURI r = copy i r0) →
  seen_as (Sys x l k MIdle F U) (Sys x l k (MOpened j rj b) F U) i r0 r.
Proof.
  intros Hr Hj Hf Hb Hp. destruct (decide (j = i)) as [->|Hne].
  - assert (rj = r) as -> by congruence.
    destruct Hp as [Hp|[_ Hp]]; [|by rewrite (copy_not_file i r0 r Hp) in Hf].
    exists r. split_and!; [done..|]. unfold view_of. cbn [w todo marking mover left_ unmarked mover_of].
    rewrite bool_decide_eq_true_2 by done. rewrite <-Hp, Hb. apply l_open; [|done]. unfold is_file in *. by rewrite <-Hp.
  - apply seen_same; cbn [w todo marking mover left_ unmarked mover_of]; try done. by rewrite bool_decide_eq_false_2.
Qed.

Lemma switch_seen x x' j rj r0j b l k F U (switched : bool) :
  recordings x !! i = Some r → recordings x0 !! j = Some r0j → is_file r0j = true → StorageURI rj = StorageURI r0j → copy j rj = copy j r0j →
  UpdateRecordingURI j (StorageURI rj) (copy j rj) x = (switched, x') →
  seen_as (Sys x l k (MUploaded j rj b) F U) (Sys x' l k (if switched then MSwitched j rj else MAbandon j rj) F U) i r0 r.
Proof.
  intros Hr Hj Hf Hs Hc Hup. assert (blobs x' = blobs x) as Hb.
  { unfold UpdateRecordingURI in Hup. by repeat (case_match; simplify_eq/=). }
  destruct (decide (j = i)) as [->|Hne].
  - assert (r0j = r0) as -> by congruence. unfold UpdateRecordingURI in Hup. rewrite Hr in Hup.
    destruct (_ && _) eqn:E; injection Hup as <- <-.
    + apply andb_true_iff in E as [Eu%bool_decide_eq_true Ep%bool_decide_eq_true].
      exists (at_uri r (copy i r0)). rewrite Hc. split_and!; [cbn; by rewrite lookup_insert_eq|done|].
      unfold view_of. cbn [w todo marking mover left_ unmarked mover_of set_recordings blobs]. rewrite bool_decide_eq_true_2 by done.
      apply l_switch; [congruence|done].
    + exists r. split_and!; [done..|]. unfold view_of. cbn [w todo marking mover left_ unmarked mover_of].
      rewrite bool_decide_eq_true_2 by done. apply l_too_late.
  - eapply (mover_elsewhere _ _ j _ _ _ _ (StorageURI r0j) r0j); try done.
    + split; [done|by left].
    + unfold UpdateRecordingURI in Hup. destruct (recordings x !! j); [|by injection Hup as _ <-].
      destruct (_ && _); injection Hup as _ <-; cbn; [by rewrite lookup_insert_ne|done].
    + intros u' _. by rewrite Hb.
    + cbn. by rewrite bool_decide_eq_false_2.
    + destruct switched; cbn; by rewrite bool_decide_eq_false_2.
Qed.

(** The mover goes on without storing or removing anything. *)
Lemma mover_seen x l k m m' F U :
  recordings x !! i = Some r →
  (∀ y z, lstep r0 (copy i r0) (View r y z (mover_of m i) (marking_of k i) (todo_of l i) F (i ∈ U))
                               (View r y z (mover_of m' i) (marking_of k i) (todo_of l i) F (i ∈ U))) →
  seen_as (Sys x l k m F U) (Sys x l k m' F U) i r0 r.
Proof.
  intros Hr Hl. exists r. split_and!; [done..|]. unfold view_of. cbn [w todo marking mover left_ unmarked].
  exact (Hl (blobs x !! StorageURI r0) (copy_stored (blobs x) i r0)).
Qed.

(** A blob stored or removed at the copy's or the local URI of [j]. *)
Lemma blob_seen x m' j rj r0j l k m1 m2 u F F' U :
  recordings x !! i = Some r → recordings x0 !! j = Some r0j → is_file r0j = true → StorageURI rj = StorageURI r0j → copy j rj = copy j r0j →
  owns j r0j u → (∀ u', u' ≠ u → m' !! u' = blobs x !! u') → F ⊆ F' →
  (j ≠ i → mover_of m1 i = LIdle ∧ mover_of m2 i = LIdle) →
  (j = i → lstep r0 (copy i r0) (view_of (Sys x l k m1 F U) i r0 r) (view_of (Sys (set_blobs x m') l k m2 F' U) i r0 r)) →
  seen_as (Sys x l k m1 F U) (Sys (set_blobs x m') l k m2 F' U) i r0 r.
Proof.
  intros Hr Hj Hf Hs Hc Hown Hm HF Hother Hself. destruct (decide (j = i)) as [->|Hne].
  - exists r. split_and!; [done|done|]. by apply Hself.
  - destruct (Hother Hne). by eapply (mover_elsewhere _ _ j _ _ _ _ u r0j).
Qed.

(** Something stored at the URI of the copy of [j]. *)
Lemma store_seen x j rj r0j l k b b' m2 F F' U :
  recordings x !! i = Some r → recordings x0 !! j = Some r0j → is_file r0j = true → StorageURI rj = StorageURI r0j → copy j rj = copy j r0j →
  F ⊆ F' → (j ≠ i → mover_of m2 i = LIdle) →
  (j = i → mover_of m2 i = LIdle ∧ copy i r0 ∈ F' ∨ mover_of m2 i = LUploaded b ∧ b' = b ∧ F' = F) →
  seen_as (Sys x l k (MOpened j rj b) F U) (Sys (set_blobs x (<[copy j rj := b']> (blobs x))) l k m2 F' U) i r0 r.
Proof.
  intros Hr Hj Hf Hs Hc HF Hother Hself. eapply (blob_seen x _ j rj r0j _ _ _ _ (copy j rj)); try done.
  - split; [done|]. right. by rewrite Hc.
  - intros u' Hu'. by rewrite lookup_insert_ne.
  - intros Hne. split; [cbn; by rewrite bool_decide_eq_false_2|auto].
  - intros ->. assert (r0j = r0) as -> by congruence. unfold view_of. cbn [w todo marking mover left_ unmarked mover_of set_blobs blobs].
    rewrite !bool_decide_eq_true_2 by done. unfold copy_stored. rewrite Hf, Hc, lookup_insert_eq.
    rewrite lookup_insert_ne by (by apply copy_elsewhere).
    destruct (Hself eq_refl) as [[-> Hin]|(-> & -> & ->)]; [by apply l_cut_short|apply l_upload].
Qed.

(** The mover goes no further. *)
Lemma leave_seen x l k m F U :
  recordings x !! i = Some r → mover_ok m → seen_as (Sys x l k m F U) (Sys x l k MIdle (leaves m ∪ F) U) i r0 r.
Proof.
  intros Hr Hm. exists r. split_and!; [done..|]. unfold view_of. cbn [w todo marking mover left_ unmarked mover_of].
  apply l_leave; [set_solver|etrans; [by apply leaves_of|apply union_subseteq_l]].
Qed.

Lemma stop_seen x l k m F U :
  recordings x !! i = Some r → mover_ok m →
  seen_as (Sys x l k m F U) (Sys x [] None MIdle (leaves m ∪ F) (leaves_unmarked k ∪ U)) i r0 r.
Proof.
  intros Hr Hm. exists r. split_and!; [done..|]. unfold view_of.
  cbn [w todo marking mover left_ unmarked mover_of marking_of todo_of mbind option_bind omap list_omap].
  apply l_stop; [set_solver|etrans; [by apply leaves_of|apply union_subseteq_l]| |set_solver]. intros [u Hu]. unfold marking_of in Hu. destruct k as [c|]; [|done]. cbn in Hu.
  case_bool_decide as E; [|done]. cbn [leaves_unmarked]. set_solver.
Qed.
End Steps.

(** Every step is, for every recording, a step of its own. *)
Lemma step_seen s s' i r0 r :
  step s s' → sound s → recordings (w s) !! i = Some r → recordings x0 !! i = Some r0 → seen_as s s' i r0 r.
Proof.
  intros Hs Hsound Hr Hi. destruct (s_rows _ Hsound i r Hr) as (r0' & Hi' & _ & Hok). assert (r0' = r0) as -> by congruence.
  pose proof (s_mover _ Hsound) as Hmov.
  assert (∀ c l, todo s = c :: l → ∃ rc, owns (id c.1) rc (uri c.1)) as Hplanned.
  { intros c l Ht. destruct (s_sweep _ Hsound c) as [rc Hc]; [left; rewrite Ht; left|].
    destruct (s_kept _ Hsound (id c.1)) as [rc' Hc']; [by eauto|]. destruct (s_rows _ Hsound _ _ Hc') as (rc0 & Hc0 & _ & Hokc).
    exists rc0. split; [done|]. destruct (o_sweep _ _ _ _ Hokc (uri c.1)) as [|(? & ? & _)]; [|by left|by right].
    left. cbn [view_of lt]. rewrite Ht, todo_of_cons, bool_decide_eq_true_2 by done. left. }
  destruct Hs as [now x m F U|x c l m F U|x c l m F U|x c l m F U|x c l m F U when|x c l m F U|x c l m F U when marked x' Hmk
    |x j rj b l k F U Hj Hf Hb|x j rj b l k F U|x j rj b n l k F U|x j rj b l k F U|x j rj b l k F U Hd|x j rj b l k F U sw x' Hd Hup
    |x j rj b l k F U Hd|x j rj l k F U|x j rj l k F U|x m l k F U Hm|x m l k F U]; cbn [w todo mover mover_ok] in *.
  - by apply start_seen.
  - exists r. split_and!; [done..|]. unfold view_of. cbn [w todo marking mover left_ unmarked marking_of mbind option_bind]. apply l_skip.
    intros u Hu. rewrite todo_of_cons. case_bool_decide; [by right|done].
  - destruct (Hplanned c l eq_refl) as [rc Hc]. apply (delete_seen i r0 r Hi _ _ _ _ _ rc); auto.
  - destruct (Hplanned c l eq_refl) as [rc Hc]. apply (delete_seen i r0 r Hi _ _ _ _ _ rc); [done|done|right; set_solver|set_solver].
  - apply mark_seen with (when := when); [done|..]; unfold mark, markRecordingPurged; by repeat (case_match; simplify_eq/=).
  - by apply (unmarked_seen i r0 r Hi x l (Some c)).
  - apply mark_seen with (when := when); [done|done|done|by rewrite Hmk].
  - apply open_seen; try done. exact (o_place _ _ _ _ Hok).
  - apply mover_seen; [done|]. intros y z. cbn. case_bool_decide; [apply l_cannot_copy|by apply l_same].
  - destruct Hmov as (r0j & Hj & Hf & Hs & Hc). eapply (store_seen i r0 r Hi); try done; [apply union_subseteq_r|]. intros ->. left. split; [done|].
    assert (r0j = r0) as -> by congruence. rewrite Hc. by apply elem_of_union_l, elem_of_singleton.
  - destruct Hmov as (r0j & Hj & Hf & Hs & Hc). eapply (store_seen i r0 r Hi); try done.
    + intros Hne. cbn. by rewrite bool_decide_eq_false_2.
    + intros ->. right. cbn. by rewrite bool_decide_eq_true_2.
  - apply mover_seen; [done|]. intros y z. cbn. case_bool_decide; [apply l_too_late|by apply l_same].
  - destruct Hmov as (r0j & Hj & Hf & Hs & Hc). by eapply switch_seen.
  - apply mover_seen; [done|]. intros y z. cbn. case_bool_decide; [apply l_too_late|by apply l_same].
  - destruct Hmov as (r0j & Hj & Hf & Hs & Hc). cbn [Delete snd].
    eapply (blob_seen i r0 r Hi x _ j rj r0j _ _ _ _ (StorageURI rj)); try done.
    + split; [done|by left].
    + intros u' Hu'. by rewrite lookup_delete_ne.
    + intros Hne. cbn. by rewrite !bool_decide_eq_false_2.
    + intros ->. assert (r0j = r0) as -> by congruence. unfold view_of. cbn [w todo marking mover left_ unmarked mover_of set_blobs blobs].
      rewrite !bool_decide_eq_true_2 by done. unfold copy_stored. rewrite Hf, Hs, lookup_delete_eq.
      rewrite lookup_delete_ne by (intros E; by apply (copy_elsewhere i r0)). apply l_remove_local.
  - destruct Hmov as (r0j & Hj & Hf & Hs & Hc). cbn [Delete snd].
    eapply (blob_seen i r0 r Hi x _ j rj r0j _ _ _ _ (copy j rj)); try done.
    + split; [done|]. right. by rewrite Hc.
    + intros u' Hu'. by rewrite lookup_delete_ne.
    + intros Hne. cbn. by rewrite !bool_decide_eq_false_2.
    + intros ->. assert (r0j = r0) as -> by congruence. unfold view_of. cbn [w todo marking mover left_ unmarked mover_of set_blobs blobs].
      rewrite !bool_decide_eq_true_2 by done. unfold copy_stored. rewrite Hf, Hc, lookup_delete_eq.
      rewrite lookup_delete_ne by (by apply copy_elsewhere). apply l_remove_copy.
  - by apply leave_seen.
  - by apply stop_seen.
Qed.

(** No step adds a row or takes one away. *)
Lemma marked_rows j u when x i : is_Some (recordings (markRecordingPurged j u when x).2 !! i) ↔ is_Some (recordings x !! i).
Proof.
  unfold markRecordingPurged. destruct (recordings x !! j) eqn:E; [|done]. destruct (_ && _); [|done]. cbn.
  destruct (decide (j = i)) as [<-|]; [|by rewrite lookup_insert_ne]. rewrite lookup_insert_eq. naive_solver.
Qed.

Lemma step_rows s s' i : step s s' → is_Some (recordings (w s') !! i) ↔ is_Some (recordings (w s) !! i).
Proof.
  intros Hs. destruct Hs as [| | | |x c l m F U when| |x c l m F U when marked x' Hmk| | | | | |x j rj b l k F U sw x' Hd Hup| | | | |]; cbn [w]; try done.
  - rewrite <-(marked_rows (id c.1) (uri c.1) when x i). unfold mark. destruct (markRecordingPurged _ _ _ x) as [[] ?]; done.
  - cbn [recordings set_recordings]. by rewrite <-(marked_rows (id c.1) (uri c.1) when x i), Hmk.
  - unfold UpdateRecordingURI in Hup. destruct (recordings x !! j) eqn:E; [|by injection Hup as _ <-].
    destruct (_ && _); injection Hup as _ <-; [|done]. cbn.
    destruct (decide (j = i)) as [<-|]; [|by rewrite lookup_insert_ne]. rewrite lookup_insert_eq. naive_solver.
Qed.

Lemma copy_format i r r' : Format r = Format r' → copy i r = copy i r'.
Proof. intros H. unfold copy_uri, copy_name. by rewrite H. Qed.

Lemma step_sound s s' : step s s' → sound s → sound s'.
Proof.
  intros Hs Hsound. split.
  - intros i r' Hr'. assert (is_Some (recordings (w s) !! i)) as [r Hr] by (rewrite <-(step_rows _ _ _ Hs); eauto).
    destruct (s_rows _ Hsound _ _ Hr) as (r0 & Hi & Hf & Hok).
    destruct (step_seen _ _ _ _ _ Hs Hsound Hr Hi) as (r2 & Hr2 & Hf2 & Hl). assert (r2 = r') as -> by congruence.
    exists r0. split_and!; [done|congruence|]. eapply lstep_ok; [|exact Hl|exact Hok]. intros. by apply copy_elsewhere.
  - intros i Hi. rewrite (step_rows _ _ _ Hs). by apply (s_kept _ Hsound).
  - pose proof (s_blobs _ Hsound) as Hb. pose proof (s_mover _ Hsound) as Hmov.
    assert (∀ j rj b' (x : world), w s = x → (∃ r0, recordings x0 !! j = Some r0 ∧ is_file r0 = true ∧ StorageURI rj = StorageURI r0 ∧ copy j rj = copy j r0) →
      ∀ u b, <[copy j rj := b']> (blobs x) !! u = Some b → ∃ i r0, owns i r0 u) as Hins.
    { intros j rj b' x <- (r0 & Hj & Hf & _ & Hc) u b. destruct (decide (copy j rj = u)) as [<-|]; [|rewrite lookup_insert_ne by done; apply Hb].
      intros _. exists j, r0. split; [done|]. right. by rewrite Hc. }
    destruct Hs as [| |x c l m F U|x c l m F U|x c l m F U when| |x c l m F U when marked x' Hmk| | | | | |x j rj b l k F U sw x' Hd Hup| |x j rj l k F U|x j rj l k F U| |];
      cbn [w mover mover_ok] in *; try done.
    + intros u b'. cbn. rewrite lookup_delete_Some. intros [_ H]. eauto.
    + intros u b'. cbn. rewrite lookup_delete_Some. intros [_ H]. eauto.
    + assert (blobs (mark c.1 c.2 when x).2 = blobs x) as ->; [|done].
      unfold mark, markRecordingPurged. by repeat (case_match; simplify_eq/=).
    + by apply (Hins _ _ _ _ eq_refl).
    + by apply (Hins _ _ _ _ eq_refl).
    + assert (blobs x' = blobs x) as ->; [|done]. unfold UpdateRecordingURI in Hup. by repeat (case_match; simplify_eq/=).
    + intros u b'. cbn. rewrite lookup_delete_Some. intros [_ H]. eauto.
    + intros u b'. cbn. rewrite lookup_delete_Some. intros [_ H]. eauto.
  - pose proof (s_sweep _ Hsound) as Hsw.
    destruct Hs as [now x m F U|x c l m F U|x c l m F U|x c l m F U| | | | | | | | | | | | | |]; cbn [todo marking] in *; try done.
    + intros [c reason] [Hin|]; [|done]. apply plan_listed in Hin as (r & Hr & _).
      destruct (s_rows _ Hsound _ _ Hr) as (r0 & ? & _). eauto.
    + intros c' [|]; [|done]. apply Hsw. left. by right.
    + intros c' [|[= <-]]; [apply Hsw; left; by right|]. apply Hsw. left. left.
    + intros c' [|]; [|done]. apply Hsw. left. by right.
    + intros c' [|]; [|done]. apply Hsw. by left.
    + intros c' [|]; [|done]. apply Hsw. by left.
    + intros c' [|]; [|done]. apply Hsw. by left.
    + by intros c' [?%not_elem_of_nil|].
  - pose proof (s_mover _ Hsound) as Hmov.
    destruct Hs as [| | | | | | |x j rj b l k F U Hj Hf Hb| | | | |x j rj b l k F U sw x' Hd Hup| | | | |]; cbn [mover mover_ok] in *; try done.
    + destruct (s_rows _ Hsound _ _ Hj) as (r0 & Hj0 & Hfmt & Hok). destruct (o_place _ _ _ _ Hok) as [Hp|[_ Hp]]; cbn [view_of row] in Hp.
      * exists r0. split_and!; [done| |done|by apply copy_format]. unfold is_file in *. by rewrite <-Hp.
      * by rewrite (copy_not_file j r0 rj Hp) in Hf.
    + by destruct sw.
Qed.

Definition initial : sys := Sys x0 [] None MIdle ∅ ∅.

Lemma initial_sound : sound initial.
Proof.
  split; cbn [w todo marking mover initial mover_ok]; try done.
  - intros i r Hr. exists r. split_and!; [done..|].
    assert (copy_stored (blobs x0) i r = None) as Hc.
    { unfold copy_stored. destruct (is_file r) eqn:Hf; [|done]. by apply (no_copy_there _ Hstart). }
    pose proof (blob_iff_kept _ Hstart i r Hr) as Hk.
    split; unfold here, view_of;
      cbn [row bs bc lm lk lt vl vu w mover marking todo left_ unmarked initial mover_of marking_of todo_of mbind option_bind omap list_omap];
      rewrite ?Hc, ?(bool_decide_eq_true_2 (StorageURI r = StorageURI r)) by done; try done.
    + by left.
    + intros b [|[_ ?]]; done.
    + intros Hp. destruct (blobs x0 !! StorageURI r) as [b|]; [|done]. exfalso. apply Hp, Hk. by eauto.
    + intros Hp Hn. apply Hk in Hp. rewrite Hn in Hp. by destruct Hp.
    + intros u [Hu|]; [|done]. by apply not_elem_of_nil in Hu.
  - intros u b Hb. destruct (blobs_named _ Hstart u b Hb) as (i & r & Hr & Hu). exists i, r. split; [done|]. left. done.
  - intros c [Hc|]; [|done]. by apply not_elem_of_nil in Hc.
Qed.

Lemma reachable_sound s : rtc step initial s → sound s.
Proof.
  assert (∀ a b, rtc step a b → sound a → sound b) as H; [|intros Hr; by eapply H, initial_sound].
  intros a b. induction 1 as [|a b c Hs _ IH]; [done|]. intros Ha. by eapply IH, step_sound.
Qed.
End Whole.

(** C26. The sweep and the move can run at once.  From a store in order, however
their calls to the store and the database interleave, whichever of them fail and
wherever the gateway stops: what is stored where a live row points is always that
recording's own content, whole; a purged row has nothing there; a live row has
nothing there only when the sweep deleted it and has still to mark the row, or
could not (the database failed the mark, the store answered a deletion it made with
an error, or the gateway stopped in between).  Once both rest, whatever is stored
is what a live row names, or the file or the copy of a recording at which storing
or removing went wrong ([left_]): a copy that io.Copy did not finish, or a removal
that failed.  While no call has gone wrong ([left_] and [unmarked] are empty), that
leaves a live row its content, or the sweep about to mark it, and nothing else in
the store. *)
Theorem move_and_sweep_agree x0 s :
  in_order x0 → rtc step (initial x0) s →
  (∀ i r, recordings (w s) !! i = Some r → ∃ r0, recordings x0 !! i = Some r0 ∧
     if bool_decide (PurgedAt r = None)
     then match blobs (w s) !! StorageURI r with
          | Some b => blobs x0 !! StorageURI r0 = Some b
          | None => i ∈ unmarked s ∨ ∃ c, marking s = Some c ∧ id c.1 = i ∧ uri c.1 = StorageURI r
          end
     else blobs (w s) !! StorageURI r = None) ∧
  (mover s = MIdle →
   ∀ u b, blobs (w s) !! u = Some b →
     (∃ i r, recordings (w s) !! i = Some r ∧ PurgedAt r = None ∧ StorageURI r = u) ∨
     (u ∈ left_ s ∧ ∃ i r0, recordings x0 !! i = Some r0 ∧ is_file r0 = true ∧ (u = StorageURI r0 ∨ u = copy i r0))).
Proof.
  intros Hstart Hr. pose proof (reachable_sound x0 Hstart s Hr) as Hs.
  assert (∀ i r0 r, ok r0 (copy i r0) (blobs x0 !! StorageURI r0) (view_of s i r0 r) →
    recordings x0 !! i = Some r0 → here r0 (view_of s i r0 r) = blobs (w s) !! StorageURI r) as Hhere.
  { intros i r0 r Hok Hi. unfold here, view_of. cbn [row bs bc]. case_bool_decide as E; [by rewrite E|].
    destruct (o_place _ _ _ _ Hok) as [|[Hf Hp]]; [done|]. cbn [view_of row] in Hp. unfold copy_stored. by rewrite Hf, Hp. }
  split.
  - intros i r Hi. destruct (s_rows _ _ Hs _ _ Hi) as (r0 & Hi0 & _ & Hok). exists r0. split; [done|].
    pose proof (Hhere i r0 r Hok Hi0) as Hh. case_bool_decide as Hp; rewrite <-Hh; [|by apply (o_purged _ _ _ _ Hok)].
    destruct (here r0 (view_of s i r0 r)) as [b|] eqn:Eb.
    + apply (o_content _ _ _ _ Hok). unfold here in Eb. case_bool_decide; auto.
    + destruct (o_kept _ _ _ _ Hok Hp Eb) as [Hk|Hk]; [right|by left]. cbn [view_of lk row] in Hk.
      destruct (marking s) as [c|]; [|done]. rewrite marking_of_Some in Hk. case_bool_decide; [|done]. injection Hk as <-. eauto.
  - intros Hmv u b Hb. destruct (s_blobs _ _ Hs _ _ Hb) as (i & r0 & Hi0 & Hu).
    destruct (s_kept _ _ Hs i) as [r Hi]; [by eauto|]. destruct (s_rows _ _ Hs _ _ Hi) as (r0' & Hi0' & _ & Hok).
    assert (r0' = r0) as -> by congruence. destruct (decide (StorageURI r = u)) as [Hru|Hru].
    { left. exists i, r. split; [done|]. split; [|done]. destruct (PurgedAt r) eqn:Ep; [|done].
      pose proof (o_purged _ _ _ _ Hok) as Hp. cbn [view_of row] in Hp. rewrite Hhere, Hru in Hp by done.
      rewrite Hp in Hb by (by rewrite Ep). done. }
    right. pose proof (o_mover _ _ _ _ Hok) as Hm. cbn [view_of lm row bs bc vl] in Hm. rewrite Hmv in Hm. cbn [mover_of] in Hm.
    destruct Hm as [H1 H2]. unfold copy_stored in H1. destruct (o_place _ _ _ _ Hok) as [Hp|[Hf Hp]]; cbn [view_of row] in Hp.
    + destruct Hu as [->|[Hf ->]]; [congruence|]. rewrite Hf in H1. split; [apply H1; [done|by eexists]|]. eauto 6.
    + destruct Hu as [->|[_ ->]]; [|congruence]. split; [apply H2; [done|by eexists]|]. eauto 6.
Qed.
End Interleaved.

(** The race the row's URI guards against: the mover has uploaded its copy when
the sweep deletes the local file; the mover switches the row first, so the
sweep's mark finds another URI and leaves the recording for the next sweep. *)
Definition ex_rec : Recording := {|
  Format := "asciicast"; StorageURI := "file:///rec/1.cast"; SizeBytes := 3; SHA256 := "";
  FinishedAt := Some 0; RetentionUntil := Some Hour; PurgedAt := None |}.

Definition ex_store : world := {|
  policy := None; recordings := {["1" := ex_rec]}; commands := {["1"]};
  blobs := {["file:///rec/1.cast" := to_bytes "abc"]}; audited := [] |}.

Definition ex_copied : world := set_blobs ex_store (<["s3://b/recordings/1.cast" := to_bytes "abc"]> (blobs ex_store)).
Definition ex_deleted : world := (Delete true "file:///rec/1.cast" ex_copied).2.
Definition ex_switched : world := (UpdateRecordingURI "1" "file:///rec/1.cast" "s3://b/recordings/1.cast" ex_deleted).2.
Definition ex_left : purgeCandidate * string :=
  ({| id := "1"; uri := "file:///rec/1.cast"; size := 3; finished := 0; until := Some Hour |}, "age").
Definition ex_marked : world := (mark ex_left.1 ex_left.2 (2 * Hour) ex_switched).2.
Definition ex_end : world := (Delete true "file:///rec/1.cast" ex_marked).2.

Lemma ex_store_in_order : in_order "b" "recordings/" ex_store.
Proof.
  assert (∀ i r, recordings ex_store !! i = Some r → i = "1" ∧ r = ex_rec) as H.
  { intros i r Hi. cbn in Hi. apply lookup_singleton_Some in Hi as [<- <-]. done. }
  split.
  - intros i j ri rj [-> _]%H [-> _]%H _. done.
  - intros i j ri rj [-> ->]%H _ [-> ->]%H. discriminate.
  - intros i r [-> ->]%H _. reflexivity.
  - intros i r [-> ->]%H. split; [done|]. intros _. eexists. reflexivity.
  - intros u b Hu. cbn in Hu. apply lookup_singleton_Some in Hu as [<- <-]. exists "1", ex_rec. split; reflexivity.
Qed.

Abbreviation ex_step := (step "b" "recordings/").
Abbreviation ex_bytes := (to_bytes "abc").

Lemma ex_race : rtc ex_step (initial ex_store) (Sys ex_end [] None MIdle ∅ ∅).
Proof.
  eapply rtc_l; [apply (move_open _ _ ex_store "1" ex_rec ex_bytes); reflexivity|].
  eapply rtc_l; [apply move_upload|].
  eapply rtc_l; [apply (sweep_start _ _ (2 * Hour))|].
  eapply rtc_l.
  { replace (plan (2 * Hour) _) with [ex_left] by (vm_compute; reflexivity). apply sweep_delete. }
  eapply rtc_l.
  { apply (move_switch _ _ _ _ _ _ _ _ _ _ true ex_switched); vm_compute; reflexivity. }
  eapply rtc_l; [apply (sweep_mark _ _ _ _ _ _ _ _ (2 * Hour))|].
  eapply rtc_l; [apply move_remove_local|]. apply rtc_refl.
Qed.

Lemma move_and_sweep_agree_witness :
  recordings ex_end !! "1" = Some (at_uri ex_rec "s3://b/recordings/1.cast")
  ∧ blobs ex_end !! "s3://b/recordings/1.cast" = Some ex_bytes ∧ blobs ex_end !! "file:///rec/1.cast" = None.
Proof.
  assert (recordings ex_end !! "1" = Some (at_uri ex_rec "s3://b/recordings/1.cast")) as Hr by (vm_compute; reflexivity).
  split; [exact Hr|]. split; [|vm_compute; reflexivity].
  destruct (move_and_sweep_agree "b" "recordings/" ex_store _ ex_store_in_order ex_race) as [H _].
  destruct (H "1" _ Hr) as (r0 & Hr0 & E). injection Hr0 as <-. exact E.
Defined.

(** A copy cut short outlives its recording.  io.Copy fails after two bytes, and
closing the spool uploads them; the recording is then purged where it is, and
what was uploaded stays in the bucket, where no row names it. *)
Definition ex_part : world := set_blobs ex_store (<["s3://b/recordings/1.cast" := take 2 ex_bytes]> (blobs ex_store)).
Definition ex_gone : world := (mark ex_left.1 ex_left.2 (2 * Hour) (Delete true "file:///rec/1.cast" ex_part).2).2.

Lemma part_outlives_recording :
  rtc ex_step (initial ex_store) (Sys ex_gone [] None MIdle ({["s3://b/recordings/1.cast"]} ∪ ∅) ∅)
  ∧ PurgedAt <$> recordings ex_gone !! "1" = Some (Some (2 * Hour))
  ∧ blobs ex_gone !! "s3://b/recordings/1.cast" = Some (to_bytes "ab").
Proof.
  split; [|vm_compute; split; reflexivity].
  eapply rtc_l; [apply (move_open _ _ ex_store "1" ex_rec ex_bytes); reflexivity|].
  eapply rtc_l; [apply (move_cut_short _ _ _ _ _ _ 2)|].
  eapply rtc_l; [apply (sweep_start _ _ (2 * Hour))|].
  eapply rtc_l.
  { replace (plan (2 * Hour) _) with [ex_left] by (vm_compute; reflexivity). apply sweep_delete. }
  eapply rtc_l; [apply (sweep_mark _ _ _ _ _ _ _ _ (2 * Hour))|]. apply rtc_refl.
Qed.
