(* ===== verification/Autoscaling.v ===== *)
(** Autoscaling groups: the instances a group has, as the sync loop of
src/internal/asg/sync.go reads them from the cloud and probes them, the rows of
src/internal/asg/asg.go it keeps them in, and the schedule of its polls.

A poll is a chain of steps of its goroutine ([begin_], one [item_] per instance,
[finish_]), and any other request or poll may run between two of them; the
locals of a poll are a [Poll].  What the cloud, the network and the database
answer comes with each step.  The order a query returns rows in is the
database's ([order], any permutation).  The audit log and the registry are set,
as the program sets them. *)
From S2P Require Import Prelude GoText Protocol Connect Registry.

(** * Data *)

Record Group := {
  gID : string; Name : string; Provider : string; Region : string; ExternalName : string; RoleARN : string; ExternalID : string;
  OSFamily : string; Ports : gmap string Z; Capabilities : list string; AddressPreference : string; PollIntervalSeconds : Z;
  Tags : gmap string string; Status : string; LastSyncedAt : option time; LastError : string;
}.

Record Instance := {
  ID : string; GroupID : string; InstanceID : string; PrivateIP : string; PublicIP : string; AvailabilityZone : string;
  LifecycleState : string; LBHealth : string; ProbeHealth : string; HostKeyFingerprint : string; HostKeySource : string;
  TLSFingerprint : string; WinRMTLSFingerprint : string; LaunchedAt : option time; FirstSeenAt : time; LastSeenAt : time;
  TerminatedAt : option time; Healthy : bool;
}.

(** cloud.Instance: what the cloud says of a member. *)
Record CloudInstance := {
  cID : string; cPrivateIP : string; cPublicIP : string; cAvailabilityZone : string; cLifecycleState : string; cLBHealth : string;
  cLaunchedAt : time;
}.

(** target.ProbeResult: who answered, and the fingerprints captured. *)
Record ProbeResult := {
  Reachable : gmap string bool; SSHHostKey : option string; TLS : option string; WinRMTLS : option string;
}.

Record Summary := {
  Seen : nat; nHealthy : nat; Joined : nat; Left : nat; Retired : nat; HostKeyMismatches : nat; CertificateMismatches : nat;
}.

Definition no_summary : Summary :=
  {| Seen := 0; nHealthy := 0; Joined := 0; Left := 0; Retired := 0; HostKeyMismatches := 0; CertificateMismatches := 0 |}.

(** The audit records of the sync, by the instance they are about. *)
Inductive Event :=
| InstanceJoined (instanceID : string) (healthy : bool) (source : string)
| InstanceUnhealthy (instanceID : string)
| InstanceLeft (instanceID : string)
| HostKeyChanged (instanceID pinned observed : string)
| HostKeyMismatch (instanceID : string) (console : list string) (observed : string)
| CertificateChanged (instanceID protocol pinned observed : string).

(** * Health *)

Definition cloud_Healthy (lifecycle lb : string) : bool :=
  if negb (bool_decide (lifecycle = "InService")) then false
  else let lb := Strings.ToLower lb in bool_decide (lb = "") || bool_decide (lb = "healthy").

Definition derive (i : Instance) : bool :=
  if negb (bool_decide (TerminatedAt i = None)) || negb (bool_decide (ProbeHealth i = "healthy")) then false
  else cloud_Healthy (LifecycleState i) (LBHealth i).

Definition set_probe (h : string) (i : Instance) : Instance := {|
  ID := ID i; GroupID := GroupID i; InstanceID := InstanceID i; PrivateIP := PrivateIP i; PublicIP := PublicIP i;
  AvailabilityZone := AvailabilityZone i; LifecycleState := LifecycleState i; LBHealth := LBHealth i; ProbeHealth := h;
  HostKeyFingerprint := HostKeyFingerprint i; HostKeySource := HostKeySource i; TLSFingerprint := TLSFingerprint i;
  WinRMTLSFingerprint := WinRMTLSFingerprint i; LaunchedAt := LaunchedAt i; FirstSeenAt := FirstSeenAt i; LastSeenAt := LastSeenAt i;
  TerminatedAt := TerminatedAt i; Healthy := Healthy i |}.

Definition set_host_key (k src : string) (i : Instance) : Instance := {|
  ID := ID i; GroupID := GroupID i; InstanceID := InstanceID i; PrivateIP := PrivateIP i; PublicIP := PublicIP i;
  AvailabilityZone := AvailabilityZone i; LifecycleState := LifecycleState i; LBHealth := LBHealth i; ProbeHealth := ProbeHealth i;
  HostKeyFingerprint := k; HostKeySource := src; TLSFingerprint := TLSFingerprint i;
  WinRMTLSFingerprint := WinRMTLSFingerprint i; LaunchedAt := LaunchedAt i; FirstSeenAt := FirstSeenAt i; LastSeenAt := LastSeenAt i;
  TerminatedAt := TerminatedAt i; Healthy := Healthy i |}.

Definition set_certs (tls winrm : string) (i : Instance) : Instance := {|
  ID := ID i; GroupID := GroupID i; InstanceID := InstanceID i; PrivateIP := PrivateIP i; PublicIP := PublicIP i;
  AvailabilityZone := AvailabilityZone i; LifecycleState := LifecycleState i; LBHealth := LBHealth i; ProbeHealth := ProbeHealth i;
  HostKeyFingerprint := HostKeyFingerprint i; HostKeySource := HostKeySource i; TLSFingerprint := tls;
  WinRMTLSFingerprint := winrm; LaunchedAt := LaunchedAt i; FirstSeenAt := FirstSeenAt i; LastSeenAt := LastSeenAt i;
  TerminatedAt := TerminatedAt i; Healthy := Healthy i |}.

(** Identity, the times seen and the health the row is given. *)
Definition set_seen (id : string) (first last : time) (terminated : option time) (healthy : bool) (i : Instance) : Instance := {|
  ID := id; GroupID := GroupID i; InstanceID := InstanceID i; PrivateIP := PrivateIP i; PublicIP := PublicIP i;
  AvailabilityZone := AvailabilityZone i; LifecycleState := LifecycleState i; LBHealth := LBHealth i; ProbeHealth := ProbeHealth i;
  HostKeyFingerprint := HostKeyFingerprint i; HostKeySource := HostKeySource i; TLSFingerprint := TLSFingerprint i;
  WinRMTLSFingerprint := WinRMTLSFingerprint i; LaunchedAt := LaunchedAt i; FirstSeenAt := first; LastSeenAt := last;
  TerminatedAt := terminated; Healthy := healthy |}.

Definition set_gone (when : time) (i : Instance) : Instance := {|
  ID := ID i; GroupID := GroupID i; InstanceID := InstanceID i; PrivateIP := PrivateIP i; PublicIP := PublicIP i;
  AvailabilityZone := AvailabilityZone i; LifecycleState := "Terminated"; LBHealth := LBHealth i; ProbeHealth := "unhealthy";
  HostKeyFingerprint := HostKeyFingerprint i; HostKeySource := HostKeySource i; TLSFingerprint := TLSFingerprint i;
  WinRMTLSFingerprint := WinRMTLSFingerprint i; LaunchedAt := LaunchedAt i; FirstSeenAt := FirstSeenAt i; LastSeenAt := LastSeenAt i;
  TerminatedAt := Some when; Healthy := Healthy i |}.

(** scanInstance: the row, with its health derived. *)
Definition scanInstance (i : Instance) : Instance :=
  set_seen (ID i) (FirstSeenAt i) (LastSeenAt i) (TerminatedAt i) (derive i) i.

Definition Port (g : Group) (p : string) : Z :=
  match Ports g !! p with
  | Some n => if (0 <? n)%Z then n else default 0%Z (DefaultPorts !! p)
  | None => default 0%Z (DefaultPorts !! p)
  end.

Definition Address (g : Group) (i : Instance) : string :=
  if bool_decide (AddressPreference g = "public") && negb (bool_decide (PublicIP i = "")) then PublicIP i
  else if negb (bool_decide (PrivateIP i = "")) then PrivateIP i
  else PublicIP i.

(** * The mismatches already audited *)

Definition nul : string := String "000" "".

Definition sighting (instanceID kind observed : string) : string := (instanceID ++ nul ++ kind ++ nul ++ observed)%string.

Definition firstSighting (instanceID kind observed : string) (reported : gset string) : bool * gset string :=
  let key := sighting instanceID kind observed in
  if bool_decide (key ∈ reported) then (false, reported) else (true, {[key]} ∪ reported).

Definition cleared (instanceID kind : string) (reported : gset string) : gset string :=
  filter (λ k, Strings.HasPrefix k (instanceID ++ nul ++ kind)%string = false) reported.

(** * A probe *)

(** What a probe changes besides its instance. *)
Record trail := { tSum : Summary; tReported : gset string; tEvents : list Event }.

Definition count_host_key (s : Summary) : Summary := {|
  Seen := Seen s; nHealthy := nHealthy s; Joined := Joined s; Left := Left s; Retired := Retired s;
  HostKeyMismatches := S (HostKeyMismatches s); CertificateMismatches := CertificateMismatches s |}.

Definition count_cert (s : Summary) : Summary := {|
  Seen := Seen s; nHealthy := nHealthy s; Joined := Joined s; Left := Left s; Retired := Retired s;
  HostKeyMismatches := HostKeyMismatches s; CertificateMismatches := S (CertificateMismatches s) |}.

Definition forget (instanceID kind : string) (t : trail) : trail :=
  {| tSum := tSum t; tReported := cleared instanceID kind (tReported t); tEvents := tEvents t |}.

(** A mismatch: counted, and audited when it is new. *)
Definition mismatch (count : Summary → Summary) (instanceID kind observed : string) (e : Event) (t : trail) : trail :=
  let '(new, rep) := firstSighting instanceID kind observed (tReported t) in
  {| tSum := count (tSum t); tReported := rep; tEvents := tEvents t ++ if new then [e] else [] |}.

(** The closure [pin]: the fingerprint to keep, whether the probe stays
healthy, and the trail. *)
Definition pin (instanceID proto observed pinned : string) (t : trail) : string * bool * trail :=
  let kind := ("cert:" ++ proto)%string in
  if bool_decide (pinned = "") then (observed, true, t)
  else if bool_decide (observed = "") || bool_decide (observed = pinned) then
    (pinned, true, if bool_decide (observed = pinned) then forget instanceID kind t else t)
  else (pinned, false, mismatch count_cert instanceID kind observed (CertificateChanged instanceID proto pinned observed) t).

(** One certificate: [now_] is what the instance has, set only when there is
an observation or a pin. *)
Definition pin_one (instanceID proto : string) (seen : option string) (pinned now_ : string) (t : trail) : string * bool * trail :=
  if negb (bool_decide (seen = None)) || negb (bool_decide (pinned = "")) then pin instanceID proto (default "" seen) pinned t
  else (now_, true, t).

Definition unhealthy_unless (b : bool) (i : Instance) : Instance := if b then i else set_probe "unhealthy" i.

Definition pinCertificates (i : Instance) (prev : option Instance) (res : ProbeResult) (t : trail) : Instance * trail :=
  let prevTLS := default "" (TLSFingerprint <$> prev) in
  let prevWinRM := default "" (WinRMTLSFingerprint <$> prev) in
  let '(tls, ok1, t) := pin_one (InstanceID i) RDP (TLS res) prevTLS (TLSFingerprint i) t in
  let '(winrm, ok2, t) := pin_one (InstanceID i) WinRM (WinRMTLS res) prevWinRM (WinRMTLSFingerprint i) t in
  (unhealthy_unless (ok1 && ok2) (set_certs tls winrm i), t).

(** What the world answers while one instance is looked at: the prober (none
when the syncer has none), the console, and the database: the id a new row
draws, the clock, and its refusal if it fails. *)
Record Answers := {
  prober : option (string → gmap string Z → result unit ProbeResult);
  ConsoleHostKeys : string → result unit (list string);
  newID : string;
  aNow : time;
  aFault : option string;
}.

Definition ports_of (g : Group) : gmap string Z := foldl (λ m p, <[p := Port g p]> m) ∅ (Capabilities g).

(** A key seen first: pinned when the console publishes it, or gives no answer;
never when the console publishes other keys. *)
Definition fresh_host_key (a : Answers) (i : Instance) (res : ProbeResult) (t : trail) : Instance * trail :=
  let id := InstanceID i in
  match SSHHostKey res with
  | None => (i, t)
  | Some observed =>
      if bool_decide (observed = "") then (i, t)
      else
        match ConsoleHostKeys a id with
        | Ok keys =>
            if contains keys observed then (set_host_key observed "console" i, forget id "console" t)
            else (set_probe "unhealthy" i, mismatch count_host_key id "console" observed (HostKeyMismatch id keys observed) t)
        | Err _ => (set_host_key observed "tofu" i, t)
        end
  end.

(** A key seen where one is pinned: another makes the instance unhealthy. *)
Definition known_host_key (p : Instance) (i : Instance) (res : ProbeResult) (t : trail) : Instance * trail :=
  let id := InstanceID i in
  let '(i, t) :=
    match SSHHostKey res with
    | Some k =>
        if negb (bool_decide (k = HostKeyFingerprint p))
        then (set_probe "unhealthy" i, mismatch count_host_key id "hostkey" k (HostKeyChanged id (HostKeyFingerprint p) k) t)
        else (i, forget id "hostkey" t)
    | None => (i, t)
    end in
  (set_host_key (HostKeyFingerprint p) (HostKeySource p) i, t).

Definition pin_host_key (a : Answers) (i : Instance) (prev : option Instance) (res : ProbeResult) (t : trail) : Instance * trail :=
  match prev with
  | Some p => if negb (bool_decide (HostKeyFingerprint p = "")) then known_host_key p i res t else fresh_host_key a i res t
  | None => fresh_host_key a i res t
  end.

Definition reaches_all (g : Group) (res : ProbeResult) : bool :=
  forallb (λ p, default false (Reachable res !! p)) (Capabilities g).

Definition probe (g : Group) (a : Answers) (i : Instance) (prev : option Instance) (t : trail) : Instance * trail :=
  let addr := Address g i in
  match prober a with
  | None => (set_probe "unhealthy" i, t)
  | Some Probe =>
      if bool_decide (addr = "") then (set_probe "unhealthy" i, t)
      else
        match Probe addr (ports_of g) with
        | Err _ => (set_probe "unhealthy" i, t)
        | Ok res =>
            let i := set_probe (if reaches_all g res then "healthy" else "unhealthy") i in
            let '(i, t) := pinCertificates i prev res t in
            pin_host_key a i prev res t
        end
  end.

(** * The rows *)

Abbreviation table := (gmap string Instance).

Definition orUnknown (s : string) : string := if bool_decide (s = "") then "unknown" else s.

Definition is_row (groupID instanceID : string) (i : Instance) : bool :=
  bool_decide (GroupID i = groupID) && bool_decide (InstanceID i = instanceID).

Definition instanceByCloudID (groupID instanceID : string) (t : table) : option Instance :=
  scanInstance <$> head (List.filter (is_row groupID instanceID) (map_to_list t).*2).

(** The columns a statement writes. *)
Definition stored_form (i : Instance) : Instance :=
  set_probe (orUnknown (ProbeHealth i)) {|
    ID := ID i; GroupID := GroupID i; InstanceID := InstanceID i; PrivateIP := PrivateIP i; PublicIP := PublicIP i;
    AvailabilityZone := AvailabilityZone i; LifecycleState := LifecycleState i; LBHealth := LBHealth i; ProbeHealth := ProbeHealth i;
    HostKeyFingerprint := HostKeyFingerprint i; HostKeySource := HostKeySource i; TLSFingerprint := TLSFingerprint i;
    WinRMTLSFingerprint := WinRMTLSFingerprint i; LaunchedAt := TimeArg <$> LaunchedAt i; FirstSeenAt := TimeArg (FirstSeenAt i);
    LastSeenAt := TimeArg (LastSeenAt i); TerminatedAt := TerminatedAt i; Healthy := Healthy i |}.

(** Keep a pinned host key or certificate unless the caller supplies one. *)
Definition keep_pins (existing i : Instance) : Instance :=
  let i := if bool_decide (HostKeyFingerprint i = "") then set_host_key (HostKeyFingerprint existing) (HostKeySource existing) i else i in
  set_certs (if bool_decide (TLSFingerprint i = "") then TLSFingerprint existing else TLSFingerprint i)
            (if bool_decide (WinRMTLSFingerprint i = "") then WinRMTLSFingerprint existing else WinRMTLSFingerprint i) i.

Definition with_health (i : Instance) : Instance := set_seen (ID i) (FirstSeenAt i) (LastSeenAt i) (TerminatedAt i) (derive i) i.

(** UpsertInstance: the row as returned, whether it is new, and the table. *)
Definition UpsertInstance (a : Answers) (i : Instance) (t : table) : result string (Instance * bool * table) :=
  match aFault a with
  | Some e => Err e
  | None =>
      match instanceByCloudID (GroupID i) (InstanceID i) t with
      | None =>
          if bool_decide (is_Some (t !! newID a)) then Err "UNIQUE constraint failed: asg_instances.id"
          else
            let i := set_seen (newID a) (aNow a) (aNow a) None (Healthy i) i in
            Ok (with_health i, true, <[ID i := stored_form i]> t)
      | Some existing =>
          let i := set_seen (ID existing) (FirstSeenAt existing) (aNow a) None (Healthy i) (keep_pins existing i) in
          Ok (with_health i, false, <[ID i := stored_form i]> t)
      end
  end.

Section asg.
Context (order : list Instance → list Instance).

(** Instances with onlyHealthy false, the form every call here uses. *)
Definition Instances (groupID : string) (t : table) : list Instance :=
  order (scanInstance <$> List.filter (λ i, bool_decide (GroupID i = groupID)) (map_to_list t).*2).

(** The row MarkTerminated returns. *)
Definition left_form (now : time) (i : Instance) : Instance :=
  set_seen (ID i) (FirstSeenAt i) (LastSeenAt i) (Some now) false (set_probe (ProbeHealth i) (set_gone now i)).

(** The loop of MarkTerminated: each statement that goes through marks its row;
the first that fails ends the loop with its error, what was marked staying so. *)
Fixpoint mark_loop (keep : list string) (now : time) (fault : string → option string) (rows : list Instance) (gone : list Instance) (t : table)
    : result string (list Instance) * table :=
  match rows with
  | [] => (Ok gone, t)
  | i :: rows =>
      if contains keep (InstanceID i) || negb (bool_decide (TerminatedAt i = None)) then mark_loop keep now fault rows gone t
      else
        match fault (ID i) with
        | Some e => (Err e, t)
        | None => mark_loop keep now fault rows (gone ++ [left_form now i]) (alter (set_gone (TimeArg now)) (ID i) t)
        end
  end.

(** [readFault] is the database's refusal of the first query. *)
Definition MarkTerminated (groupID : string) (keep : list string) (now : time) (readFault : option string) (fault : string → option string)
    (t : table) : result string (list Instance) * table :=
  match readFault with
  | Some e => (Err e, t)
  | None => mark_loop keep now fault (Instances groupID t) [] t
  end.

(** * Polls *)

(** The locals of a poll between two of its steps. *)
Record Poll := {
  pGroup : Group; previous : gmap string Instance; todo : list CloudInstance; keep : list string; pSum : Summary;
}.

Record state := {
  groups : gmap string Group;
  instances : table;
  reg : Registry;
  reported : gset string;
  running : gmap string Poll;
  events : list Event;
}.

Definition set_running (m : gmap string Poll) (s : state) : state := {|
  groups := groups s; instances := instances s; reg := reg s; reported := reported s; running := m; events := events s |}.

Definition synced (now : time) (msg : string) (g : Group) : Group := {|
  gID := gID g; Name := Name g; Provider := Provider g; Region := Region g; ExternalName := ExternalName g; RoleARN := RoleARN g;
  ExternalID := ExternalID g; OSFamily := OSFamily g; Ports := Ports g; Capabilities := Capabilities g;
  AddressPreference := AddressPreference g; PollIntervalSeconds := PollIntervalSeconds g; Tags := Tags g; Status := Status g;
  LastSyncedAt := Some (TimeArg now); LastError := msg |}.

Definition RecordSync (now : time) (id : string) (err : option string) (s : state) : state := {|
  groups := alter (synced now (String.substring 0 500 (default "" err))) id (groups s);
  instances := instances s; reg := reg s; reported := reported s; running := running s; events := events s |}.

(** A poll that ends with an error: recorded, and the group free again. *)
Definition fail_poll (now : time) (id e : string) (s : state) : state :=
  set_running (delete id (running s)) (RecordSync now id (Some e) s).

(** What was stored last time, by the cloud's id. *)
Definition snapshot (rows : list Instance) : gmap string Instance := foldl (λ m i, <[InstanceID i := i]> m) ∅ rows.

(** SyncGroup up to its loop: [snap] is what the provider and the cloud answer,
[readFault] the database. *)
Definition begin_ (now : time) (g : Group) (snap : result string (list CloudInstance)) (readFault : option string) (s : state)
    : result string unit * state :=
  match running s !! gID g with
  | Some _ => (Err "asg: sync already running for this group", s)
  | None =>
      match snap, readFault with
      | Err e, _ => (Err e, fail_poll now (gID g) e s)
      | Ok _, Some e => (Err e, fail_poll now (gID g) e s)
      | Ok cis, None =>
          let prev := snapshot (Instances (gID g) (instances s)) in
          (Ok tt, set_running (<[gID g := {| pGroup := g; previous := prev; todo := cis; keep := []; pSum := no_summary |}]> (running s)) s)
      end
  end.

Definition retire (i : Instance) (r : Registry) : Registry := (TerminateTarget (ID i) ErrTargetLost r).2.

Definition seen_instance (g : Group) (ci : CloudInstance) : Instance := {|
  ID := ""; GroupID := gID g; InstanceID := cID ci; PrivateIP := cPrivateIP ci; PublicIP := cPublicIP ci;
  AvailabilityZone := cAvailabilityZone ci; LifecycleState := cLifecycleState ci; LBHealth := cLBHealth ci; ProbeHealth := "unknown";
  HostKeyFingerprint := ""; HostKeySource := ""; TLSFingerprint := ""; WinRMTLSFingerprint := "";
  LaunchedAt := if bool_decide (cLaunchedAt ci = zero_time) then None else Some (cLaunchedAt ci);
  FirstSeenAt := zero_time; LastSeenAt := zero_time; TerminatedAt := None; Healthy := false |}.

(** The instance as this poll sees it. *)
Definition observe (g : Group) (a : Answers) (ci : CloudInstance) (prev : option Instance) (t : trail) : Instance * trail :=
  let i := seen_instance g ci in
  if cloud_Healthy (cLifecycleState ci) (cLBHealth ci) then probe g a i prev t else (set_probe "unhealthy" i, t).

Definition count_seen (s : Summary) : Summary := {|
  Seen := S (Seen s); nHealthy := nHealthy s; Joined := Joined s; Left := Left s; Retired := Retired s;
  HostKeyMismatches := HostKeyMismatches s; CertificateMismatches := CertificateMismatches s |}.

Definition count_stored (healthy joined retired : bool) (s : Summary) : Summary := {|
  Seen := Seen s; nHealthy := if healthy then S (nHealthy s) else nHealthy s; Joined := if joined then S (Joined s) else Joined s;
  Left := Left s; Retired := if retired then S (Retired s) else Retired s;
  HostKeyMismatches := HostKeyMismatches s; CertificateMismatches := CertificateMismatches s |}.

Definition count_left (n : nat) (s : Summary) : Summary := {|
  Seen := Seen s; nHealthy := nHealthy s; Joined := Joined s; Left := Left s + n; Retired := Retired s;
  HostKeyMismatches := HostKeyMismatches s; CertificateMismatches := CertificateMismatches s |}.

(** Whether a row this poll stored was healthy before and is not now. *)
Definition lost (prev : option Instance) (isNew : bool) (stored : Instance) : bool :=
  negb isNew && default false (Healthy <$> prev) && negb (Healthy stored).

(** One turn of the loop of SyncGroup for the group's running poll. *)
Definition item_ (gid : string) (a : Answers) (s : state) : result string unit * state :=
  match running s !! gid with
  | Some p =>
      match todo p with
      | [] => (Ok tt, s)
      | ci :: rest =>
          let prev := previous p !! cID ci in
          let '(i, t) := observe (pGroup p) a ci prev {| tSum := count_seen (pSum p); tReported := reported s; tEvents := events s |} in
          let s := {| groups := groups s; instances := instances s; reg := reg s; reported := tReported t; running := running s; events := tEvents t |} in
          match UpsertInstance a i (instances s) with
          | Err e => (Err e, fail_poll (aNow a) gid e s)
          | Ok (stored, isNew, tbl) =>
              let left := lost prev isNew stored in
              let p' := {| pGroup := pGroup p; previous := previous p; todo := rest; keep := keep p ++ [cID ci];
                           pSum := count_stored (Healthy stored) isNew left (tSum t) |} in
              (Ok tt, {| groups := groups s; instances := tbl;
                         reg := if left then retire stored (reg s) else reg s;
                         reported := reported s; running := <[gid := p']> (running s);
                         events := events s ++ if isNew then [InstanceJoined (cID ci) (Healthy stored) (HostKeySource stored)]
                                               else if left then [InstanceUnhealthy (cID ci)] else [] |})
          end
      end
  | None => (Ok tt, s)
  end.

(** The rest of SyncGroup, once its loop is through. *)
Definition finish_ (now : time) (gid : string) (readFault : option string) (fault : string → option string) (s : state)
    : result string Summary * state :=
  match running s !! gid with
  | Some p =>
      match todo p with
      | _ :: _ => (Ok (pSum p), s)
      | [] =>
          match MarkTerminated gid (keep p) now readFault fault (instances s) with
          | (Err e, tbl) =>
              (Err e, fail_poll now gid e {| groups := groups s; instances := tbl; reg := reg s; reported := reported s; running := running s; events := events s |})
          | (Ok gone, tbl) =>
              (Ok (count_left (length gone) (pSum p)),
               set_running (delete gid (running s)) (RecordSync now gid None {|
                 groups := groups s; instances := tbl; reg := foldl (λ r i, retire i r) (reg s) gone;
                 reported := foldl (λ r i, cleared (InstanceID i) "" r) (reported s) gone;
                 running := running s; events := events s ++ (InstanceLeft ∘ InstanceID <$> gone) |}))
          end
      end
  | None => (Ok no_summary, s)
  end.

Fixpoint items_ (n : nat) (gid : string) (ans : nat → Answers) (s : state) : result string unit * state :=
  match n with
  | O => (Ok tt, s)
  | S n =>
      match item_ gid (ans n) s with
      | (Err e, s) => (Err e, s)
      | (Ok _, s) => items_ n gid ans s
      end
  end.

(** SyncGroup with nothing beside it; [ans n] is what the world answers when
[n] more instances are to follow. *)
Definition SyncGroup (now : time) (g : Group) (snap : result string (list CloudInstance)) (readFault markReadFault : option string)
    (ans : nat → Answers) (fault : string → option string) (s : state) : result string Summary * state :=
  match begin_ now g snap readFault s with
  | (Err e, s) => (Err e, s)
  | (Ok _, s) =>
      match items_ (match snap with Ok cis => length cis | Err _ => 0%nat end) (gID g) ans s with
      | (Err e, s) => (Err e, s)
      | (Ok _, s) => finish_ now (gID g) markReadFault fault s
      end
  end.

End asg.

(** * What a poll decides of an instance *)

Definition cert_agrees (seen : option string) (pinned : string) : bool :=
  bool_decide (pinned = "") || match seen with None => true | Some k => bool_decide (k = "") || bool_decide (k = pinned) end.

Definition key_agrees (a : Answers) (id pinned : string) (seen : option string) : bool :=
  match seen with
  | None => true
  | Some k =>
      if bool_decide (pinned = "")
      then bool_decide (k = "") || match ConsoleHostKeys a id with Ok keys => contains keys k | Err _ => true end
      else bool_decide (k = pinned)
  end.

(** The instance answers on every port of the group, and with what is pinned. *)
Definition sound (g : Group) (a : Answers) (ci : CloudInstance) (prev : option Instance) : bool :=
  match prober a with
  | None => false
  | Some Probe =>
      negb (bool_decide (Address g (seen_instance g ci) = "")) &&
      match Probe (Address g (seen_instance g ci)) (ports_of g) with
      | Err _ => false
      | Ok res =>
          reaches_all g res && cert_agrees (TLS res) (default "" (TLSFingerprint <$> prev))
          && cert_agrees (WinRMTLS res) (default "" (WinRMTLSFingerprint <$> prev))
          && key_agrees a (cID ci) (default "" (HostKeyFingerprint <$> prev)) (SSHHostKey res)
      end
  end.

(** Why a host key may be pinned: it was seen, and the console publishes it or
gives no answer. *)
Definition evidence (g : Group) (a : Answers) (ci : CloudInstance) (k src : string) : Prop :=
  k ≠ "" ∧ ∃ Probe res, prober a = Some Probe ∧ Probe (Address g (seen_instance g ci)) (ports_of g) = Ok res ∧ SSHHostKey res = Some k ∧
    ((src = "console" ∧ ∃ keys, ConsoleHostKeys a (cID ci) = Ok keys ∧ k ∈ keys) ∨ (src = "tofu" ∧ ∃ e, ConsoleHostKeys a (cID ci) = Err e)).

(** The columns a probe leaves alone. *)
Definition same_place (i j : Instance) : Prop :=
  GroupID i = GroupID j ∧ InstanceID i = InstanceID j ∧ LifecycleState i = LifecycleState j ∧ LBHealth i = LBHealth j.

Lemma pin_one_spec id proto seen pinned t : ∃ k t', pin_one id proto seen pinned "" t = (k, cert_agrees seen pinned, t') ∧ (pinned = "" ∨ k = pinned).
Proof.
  unfold pin_one, pin, cert_agrees. destruct (decide (pinned = "")) as [->|Hp].
  - rewrite !(bool_decide_eq_true_2 ("" = "")) by done. destruct seen as [k|]; cbn; eexists _, _; split; [reflexivity|by left|reflexivity|by left].
  - rewrite !(bool_decide_eq_false_2 (pinned = "")) by done. rewrite orb_true_r. cbn [orb]. destruct seen as [k|]; cbn [default Datatypes.id].
    + destruct (bool_decide (k = "") || bool_decide (k = pinned)); eexists _, _; (split; [reflexivity|by right]).
    + rewrite (bool_decide_eq_true_2 ("" = "")) by done. eexists _, _. split; [reflexivity|by right].
Qed.

Definition verdict (b : bool) : string := if b then "healthy" else "unhealthy".

Lemma pinCertificates_spec i prev res t b : TLSFingerprint i = "" → WinRMTLSFingerprint i = "" → ProbeHealth i = verdict b →
  ∃ i' t', pinCertificates i prev res t = (i', t') ∧ same_place i' i ∧
    ProbeHealth i' = verdict (b && cert_agrees (TLS res) (default "" (TLSFingerprint <$> prev)) && cert_agrees (WinRMTLS res) (default "" (WinRMTLSFingerprint <$> prev))) ∧
    HostKeyFingerprint i' = HostKeyFingerprint i ∧ HostKeySource i' = HostKeySource i ∧
    (default "" (TLSFingerprint <$> prev) = "" ∨ TLSFingerprint i' = default "" (TLSFingerprint <$> prev)) ∧
    (default "" (WinRMTLSFingerprint <$> prev) = "" ∨ WinRMTLSFingerprint i' = default "" (WinRMTLSFingerprint <$> prev)).
Proof.
  intros Ht Hw Hb. unfold pinCertificates. rewrite Ht, Hw.
  destruct (pin_one_spec (InstanceID i) RDP (TLS res) (default "" (TLSFingerprint <$> prev)) t) as (k1 & t1 & -> & H1).
  destruct (pin_one_spec (InstanceID i) WinRM (WinRMTLS res) (default "" (WinRMTLSFingerprint <$> prev)) t1) as (k2 & t2 & -> & H2).
  eexists _, _. split; [reflexivity|]. destruct (cert_agrees _ _), (cert_agrees _ _); cbn [andb unhealthy_unless]; rewrite ?andb_true_r, ?andb_false_r;
    repeat split; done.
Qed.

Lemma pin_host_key_spec a i prev res t b : HostKeyFingerprint i = "" → ProbeHealth i = verdict b →
  let pinned := default "" (HostKeyFingerprint <$> prev) in
  ∃ i' t', pin_host_key a i prev res t = (i', t') ∧ same_place i' i ∧ TLSFingerprint i' = TLSFingerprint i ∧
    WinRMTLSFingerprint i' = WinRMTLSFingerprint i ∧
    ProbeHealth i' = verdict (b && key_agrees a (InstanceID i) pinned (SSHHostKey res)) ∧
    (pinned ≠ "" → HostKeyFingerprint i' = pinned ∧ HostKeySource i' = default "" (HostKeySource <$> prev)) ∧
    (pinned = "" → HostKeyFingerprint i' ≠ "" → SSHHostKey res = Some (HostKeyFingerprint i') ∧
       ((HostKeySource i' = "console" ∧ ∃ keys, ConsoleHostKeys a (InstanceID i) = Ok keys ∧ HostKeyFingerprint i' ∈ keys) ∨
        (HostKeySource i' = "tofu" ∧ ∃ e, ConsoleHostKeys a (InstanceID i) = Err e))).
Proof.
  intros Hk Hb pinned.
  assert (pinned = "" → ∃ i' t', fresh_host_key a i res t = (i', t') ∧ same_place i' i ∧ TLSFingerprint i' = TLSFingerprint i ∧
    WinRMTLSFingerprint i' = WinRMTLSFingerprint i ∧ ProbeHealth i' = verdict (b && key_agrees a (InstanceID i) "" (SSHHostKey res)) ∧
    (HostKeyFingerprint i' ≠ "" → SSHHostKey res = Some (HostKeyFingerprint i') ∧
       ((HostKeySource i' = "console" ∧ ∃ keys, ConsoleHostKeys a (InstanceID i) = Ok keys ∧ HostKeyFingerprint i' ∈ keys) ∨
        (HostKeySource i' = "tofu" ∧ ∃ e, ConsoleHostKeys a (InstanceID i) = Err e)))) as Hfresh.
  { intros Hp. unfold fresh_host_key, key_agrees. rewrite (bool_decide_eq_true_2 ("" = "")) by done.
    destruct (SSHHostKey res) as [k|]; [|eexists _, _; split; [reflexivity|]; rewrite andb_true_r; by repeat split].
    destruct (bool_decide_reflect (k = "")) as [->|Hne]; cbn [orb]; [eexists _, _; split; [reflexivity|]; rewrite andb_true_r; by repeat split|].
    destruct (ConsoleHostKeys a (InstanceID i)) as [keys|e] eqn:Ec; [destruct (contains keys k) eqn:Eck|]; eexists _, _; (split; [reflexivity|]);
      rewrite ?andb_true_r, ?andb_false_r; repeat split; try done.
    - left. split; [done|]. exists keys. split; [done|by apply contains_spec].
    - right. eauto. }
  subst pinned. unfold pin_host_key. destruct prev as [p|]; cbn [fmap option_fmap option_map default Datatypes.id] in *.
  2:{ destruct (Hfresh eq_refl) as (i' & t' & -> & H). eexists _, _. split; [reflexivity|]. naive_solver. }
  destruct (bool_decide_reflect (HostKeyFingerprint p = "")) as [He|Hne]; cbn [negb].
  { destruct (Hfresh He) as (i' & t' & -> & H). rewrite He. eexists _, _. split; [reflexivity|]. naive_solver. }
  unfold known_host_key, key_agrees. rewrite (bool_decide_eq_false_2 (HostKeyFingerprint p = "")) by done.
  destruct (SSHHostKey res) as [k|]; [destruct (bool_decide_reflect (k = HostKeyFingerprint p)); cbn [negb]|]; eexists _, _; (split; [reflexivity|]);
    rewrite ?andb_true_r, ?andb_false_r; by repeat split.
Qed.

(** What a poll makes of one instance. *)
Lemma observe_spec g a ci prev t : ∃ i t', observe g a ci prev t = (i, t') ∧ same_place i (seen_instance g ci) ∧
  ProbeHealth i = verdict (cloud_Healthy (cLifecycleState ci) (cLBHealth ci) && sound g a ci prev) ∧
  (HostKeyFingerprint i = "" ∨
   (HostKeyFingerprint i = default "" (HostKeyFingerprint <$> prev) ∧ HostKeySource i = default "" (HostKeySource <$> prev)) ∨
   (default "" (HostKeyFingerprint <$> prev) = "" ∧ evidence g a ci (HostKeyFingerprint i) (HostKeySource i))) ∧
  (TLSFingerprint i = "" ∨ default "" (TLSFingerprint <$> prev) = "" ∨ TLSFingerprint i = default "" (TLSFingerprint <$> prev)) ∧
  (WinRMTLSFingerprint i = "" ∨ default "" (WinRMTLSFingerprint <$> prev) = "" ∨ WinRMTLSFingerprint i = default "" (WinRMTLSFingerprint <$> prev)).
Proof.
  unfold observe. destruct (cloud_Healthy _ _); cbn [andb]; [|eexists _, _; split; [reflexivity|]; repeat split; by left].
  unfold probe, sound. destruct (prober a) as [Probe|] eqn:Ep; [|eexists _, _; split; [reflexivity|]; repeat split; by left].
  destruct (bool_decide (Address g _ = "")); cbn [negb andb]; [eexists _, _; split; [reflexivity|]; repeat split; by left|].
  destruct (Probe _ _) as [res|] eqn:Er; [|eexists _, _; split; [reflexivity|]; repeat split; by left].
  destruct (pinCertificates_spec (set_probe (verdict (reaches_all g res)) (seen_instance g ci)) prev res t (reaches_all g res))
    as (i1 & t1 & E1 & (P1 & P2 & P3 & P4) & H1 & Hk & Hs & Ht & Hw); [done..|]. unfold verdict in E1 at 1. rewrite E1.
  edestruct (pin_host_key_spec a i1 prev res t1) as (i2 & t2 & -> & (Q1 & Q2 & Q3 & Q4) & H2t & H2w & H2 & Hpin & Hnew); [done|exact H1|].
  rewrite P2 in H2, Hnew. eexists _, _. split; [reflexivity|]. rewrite H2t, H2w.
  split; [by repeat split; etrans|]. split; [exact H2|]. split; [|by auto].
  destruct (decide (HostKeyFingerprint i2 = "")) as [|Hne]; [by left|right].
  destruct (decide (default "" (HostKeyFingerprint <$> prev) = "")) as [He|Hp]; [right|left; by apply Hpin].
  split; [done|]. split; [done|]. exists Probe, res. destruct (Hnew He Hne) as [? ?]. done.
Qed.

(** * The table *)

(** Each row under its own id, one per instance of a group. *)
Definition table_ok (t : table) : Prop :=
  (∀ k r, t !! k = Some r → ID r = k) ∧
  (∀ k k' r r', t !! k = Some r → t !! k' = Some r' → GroupID r = GroupID r' → InstanceID r = InstanceID r' → k = k').

Lemma rows_elem (f : Instance → bool) (t : table) r : r ∈ List.filter f (map_to_list t).*2 ↔ (∃ k, t !! k = Some r) ∧ f r = true.
Proof.
  rewrite list_elem_of_In, filter_In, <-list_elem_of_In, list_elem_of_fmap. split.
  - intros [([k r'] & -> & Hin%elem_of_map_to_list) ?]. eauto.
  - intros [[k Hk] ?]. split; [|done]. exists (k, r). split; [done|by apply elem_of_map_to_list].
Qed.

Lemma is_row_spec g k r : is_row g k r = true ↔ GroupID r = g ∧ InstanceID r = k.
Proof. unfold is_row. rewrite andb_true_iff, !bool_decide_eq_true. done. Qed.

Lemma byCloudID_Some g k t e : instanceByCloudID g k t = Some e → ∃ id r, t !! id = Some r ∧ e = scanInstance r ∧ GroupID r = g ∧ InstanceID r = k.
Proof.
  unfold instanceByCloudID. destruct (List.filter _ _) as [|r l] eqn:E; [done|]. intros [= <-].
  assert (r ∈ List.filter (is_row g k) (map_to_list t).*2) as [[id Hid] Hr%is_row_spec]%rows_elem by (rewrite E; left). exists id, r. done.
Qed.

Lemma byCloudID_None g k t id r : instanceByCloudID g k t = None → t !! id = Some r → GroupID r = g → InstanceID r = k → False.
Proof.
  unfold instanceByCloudID. destruct (List.filter _ _) as [|r' l] eqn:E; [|done]. intros _ Hr Hg Hk.
  apply (not_elem_of_nil r). rewrite <-E. apply rows_elem. split; [eauto|by apply is_row_spec].
Qed.

Lemma byCloudID_row t k r : table_ok t → t !! k = Some r → instanceByCloudID (GroupID r) (InstanceID r) t = Some (scanInstance r).
Proof.
  intros [_ Hu] Hr. destruct (instanceByCloudID _ _ t) as [e|] eqn:E; [|exfalso; by eapply byCloudID_None].
  apply byCloudID_Some in E as (k' & r' & Hr' & -> & Hg & Hi). assert (k' = k) as -> by by eapply Hu. congruence.
Qed.

Lemma byCloudID_ext g i t t' : table_ok t → table_ok t' →
  (∀ k r, GroupID r = g → InstanceID r = i → t !! k = Some r ↔ t' !! k = Some r) → instanceByCloudID g i t = instanceByCloudID g i t'.
Proof.
  intros Hok Hok' He. apply option_eq. intros x. split.
  - intros (k & r & Hr & -> & Hg & Hi)%byCloudID_Some. apply He in Hr; [|done..]. subst. by eapply byCloudID_row.
  - intros (k & r & Hr & -> & Hg & Hi)%byCloudID_Some. apply He in Hr; [|done..]. subst. by eapply byCloudID_row.
Qed.

(** What is pinned of a row. *)
Definition pins (r : Instance) : string * string * string * string :=
  (HostKeyFingerprint r, HostKeySource r, TLSFingerprint r, WinRMTLSFingerprint r).

(** A statement stores the instance in its row, found or new. *)
Lemma Upsert_Ok a i t stored isNew t' : table_ok t → UpsertInstance a i t = Ok (stored, isNew, t') →
  ∃ r', t' = <[ID stored := r']> t ∧ ID r' = ID stored ∧ same_place r' i ∧ TerminatedAt r' = None ∧ Healthy stored = derive r' ∧
    (ProbeHealth i = "healthy" ↔ ProbeHealth r' = "healthy") ∧
    ((isNew = true ∧ t !! ID stored = None ∧ pins r' = pins i ∧ (∀ k r, t !! k = Some r → GroupID r = GroupID i → InstanceID r = InstanceID i → False)) ∨
     (isNew = false ∧ ∃ r, t !! ID stored = Some r ∧ GroupID r = GroupID i ∧ InstanceID r = InstanceID i ∧ pins r' = pins (keep_pins r i))).
Proof.
  intros [Hid _]. unfold UpsertInstance. destruct (aFault a); [done|].
  assert (∀ h, orUnknown h = "healthy" ↔ h = "healthy") as Hu.
  { intros h. unfold orUnknown. destruct (bool_decide_reflect (h = "")) as [->|]; [split; discriminate|done]. }
  assert (∀ r j, same_place (stored_form (set_seen (ID r) (FirstSeenAt r) (aNow a) None (Healthy j) (keep_pins r j))) j ∧
    ProbeHealth (keep_pins r j) = ProbeHealth j) as Hkeep.
  { intros r j. unfold keep_pins. destruct (bool_decide (HostKeyFingerprint j = "")); repeat split. }
  assert (∀ j, Healthy (with_health j) = derive (stored_form j)) as Hd.
  { intros j. unfold with_health, derive. cbn. by rewrite (bool_decide_ext (orUnknown (ProbeHealth j) = "healthy") (ProbeHealth j = "healthy")). }
  destruct (instanceByCloudID _ _ t) as [e|] eqn:E.
  - apply byCloudID_Some in E as (k & r & Hr & -> & Hg & Hk). intros H. apply Ok_inj in H. injection H as <- <- <-. cbn [ID with_health set_seen scanInstance].
    rewrite (Hid _ _ Hr). eexists. split; [reflexivity|]. rewrite Hd. split; [done|]. split; [apply (Hkeep (scanInstance r))|]. split; [done|]. split; [done|].
    split; [cbn [stored_form set_probe ProbeHealth set_seen]; by rewrite Hu, (proj2 (Hkeep _ _))|]. right. split; [done|]. by exists r.
  - destruct (bool_decide_reflect (is_Some (t !! newID a))) as [|Hn]; [done|]. intros H. apply Ok_inj in H. injection H as <- <- <-. cbn [ID with_health set_seen].
    eexists. split; [reflexivity|]. rewrite Hd. split_and!; try done; [cbn; by rewrite Hu|]. left. split_and!; try done; [by apply eq_None_not_Some|].
    intros. by eapply byCloudID_None.
Qed.

Lemma table_ok_insert t k r : table_ok t → ID r = k →
  (∀ k' r', t !! k' = Some r' → GroupID r' = GroupID r → InstanceID r' = InstanceID r → k' = k) → table_ok (<[k := r]> t).
Proof.
  intros [Hid Hu] Hk Hr. split.
  - intros k' r'. rewrite lookup_insert_Some. intros [[<- <-]|[_ H]]; [done|by apply Hid].
  - intros k1 k2 r1 r2. rewrite !lookup_insert_Some. intros [[<- <-]|[H1 H1']] [[<- <-]|[H2 H2']] Eg Ei; [done|..].
    + symmetry. by eapply Hr.
    + by eapply Hr.
    + by eapply Hu.
Qed.

Lemma Upsert_table_ok a i t stored isNew t' : table_ok t → UpsertInstance a i t = Ok (stored, isNew, t') → table_ok t'.
Proof.
  intros Hok H. apply Upsert_Ok in H as (r' & -> & Hid & (Hg & Hi & _) & _ & _ & _ & Hcase); [|done].
  apply table_ok_insert; [done..|]. rewrite Hg, Hi. intros k r Hr Eg Ei. destruct Hcase as [(_ & _ & _ & Hno)|(_ & r0 & Hr0 & Eg0 & Ei0 & _)].
  - exfalso. by eapply Hno.
  - destruct Hok as [_ Hu]. eapply Hu; [exact Hr|exact Hr0|congruence..].
Qed.

(** * Histories *)

(** The steps of polls, interleaved as they come, with anything the gateway
does to its live sessions; a restart forgets the polls and the registry. *)
Inductive action :=
| ABegin (now : time) (g : Group) (snap : result string (list CloudInstance)) (readFault : option string)
| AItem (gid : string) (a : Answers)
| AFinish (now : time) (gid : string) (readFault : option string) (fault : string → option string)
| ARegistry (o : Registry.op)
| ARestart.

Definition set_instances (t : table) (s : state) : state := {|
  groups := groups s; instances := t; reg := reg s; reported := reported s; running := running s; events := events s |}.

(** The cloud lists an instance of a group once. *)
Definition listed_once (x : action) : Prop :=
  match x with ABegin _ _ (Ok cis) _ => NoDup (cID <$> cis) | _ => True end.

(** A later table keeps the rows of an earlier one, and what they pin. *)
Definition kept (t t' : table) : Prop := ∀ k r, t !! k = Some r → ∃ r', t' !! k = Some r' ∧ GroupID r' = GroupID r ∧ InstanceID r' = InstanceID r ∧
  (HostKeyFingerprint r ≠ "" → HostKeyFingerprint r' = HostKeyFingerprint r ∧ HostKeySource r' = HostKeySource r) ∧
  (TLSFingerprint r ≠ "" → TLSFingerprint r' = TLSFingerprint r) ∧
  (WinRMTLSFingerprint r ≠ "" → WinRMTLSFingerprint r' = WinRMTLSFingerprint r).

#[export] Instance kept_preorder : PreOrder kept.
Proof.
  split; [intros t k r H; exists r; by split_and!|]. intros t1 t2 t3 H12 H23 k r H.
  apply H12 in H as (r2 & H2 & G2 & I2 & K2 & T2 & W2). apply H23 in H2 as (r3 & H3 & G3 & I3 & K3 & T3 & W3).
  exists r3. split; [done|]. split; [congruence|]. split; [congruence|]. split_and!.
  - intros Hne. destruct (K2 Hne) as [E1 E2]. destruct K3 as [E3 E4]; [congruence|]. split; congruence.
  - intros Hne. rewrite T3; [by apply T2|]. by rewrite T2.
  - intros Hne. rewrite W3; [by apply W2|]. by rewrite W2.
Qed.

Section histories.
Context (order : list Instance → list Instance) (order_perm : ∀ l, order l ≡ₚ l).

Definition exec (x : action) (s : state) : state :=
  match x with
  | ABegin now g snap f => (begin_ order now g snap f s).2
  | AItem gid a => (item_ gid a s).2
  | AFinish now gid f fault => (finish_ order now gid f fault s).2
  | ARegistry o => {| groups := groups s; instances := instances s; reg := exec1 o (reg s); reported := reported s; running := running s; events := events s |}
  | ARestart => {| groups := groups s; instances := instances s; reg := NewRegistry; reported := ∅; running := ∅; events := events s |}
  end.

Definition history (l : list action) (s : state) : state := foldl (λ s x, exec x s) s l.

(** The instances a running poll has still to look at are in its snapshot of
the table as they are in the table. *)
Definition poll_ok (t : table) (gid : string) (p : Poll) : Prop :=
  gID (pGroup p) = gid ∧ NoDup (cID <$> todo p) ∧ ∀ ci, ci ∈ todo p → previous p !! cID ci = instanceByCloudID gid (cID ci) t.

Definition state_ok (s : state) : Prop := table_ok (instances s) ∧ ∀ gid p, running s !! gid = Some p → poll_ok (instances s) gid p.

Lemma Instances_elem gid t i : i ∈ Instances order gid t ↔ ∃ k r, t !! k = Some r ∧ GroupID r = gid ∧ i = scanInstance r.
Proof using order_perm.
  unfold Instances. rewrite order_perm, list_elem_of_fmap. split.
  - intros (r & -> & [[k Hk] Hg%bool_decide_eq_true]%rows_elem). eauto.
  - intros (k & r & Hk & Hg & ->). exists r. split; [done|]. apply rows_elem. split; [eauto|by apply bool_decide_eq_true].
Qed.

Lemma snapshot_lookup l k : (∀ x y, x ∈ l → y ∈ l → InstanceID x = InstanceID y → x = y) →
  ∀ x, snapshot l !! k = Some x ↔ x ∈ l ∧ InstanceID x = k.
Proof.
  unfold snapshot. induction l as [|y l IH] using rev_ind; intros Hu x; [cbn [foldl]; rewrite lookup_empty, elem_of_nil; naive_solver|].
  rewrite foldl_app. cbn [foldl]. rewrite lookup_insert_Some, IH, elem_of_app, list_elem_of_singleton; [|intros; apply Hu; rewrite ?elem_of_app; auto].
  split; [naive_solver|]. intros [[Hx| ->] <-]; [|by left].
  destruct (decide (InstanceID y = InstanceID x)) as [E|E]; [|by right]. left. split; [done|]. apply Hu; rewrite ?elem_of_app, ?list_elem_of_singleton; auto.
Qed.

Lemma previous_spec gid t k : table_ok t → snapshot (Instances order gid t) !! k = instanceByCloudID gid k t.
Proof using order_perm.
  intros Hok. apply option_eq. intros x. rewrite snapshot_lookup.
  - rewrite Instances_elem. split.
    + intros [(k' & r & Hr & <- & ->) <-]. by apply (byCloudID_row t k' r).
    + intros (k' & r & Hr & -> & <- & <-)%byCloudID_Some. split; [by eauto|done].
  - intros y z (k1 & r1 & H1 & G1 & ->)%Instances_elem (k2 & r2 & H2 & G2 & ->)%Instances_elem Hi. cbn in Hi.
    assert (k1 = k2) as -> by (eapply Hok; [exact H1|exact H2|congruence|done]). congruence.
Qed.

(** The rows MarkTerminated marks: those it selects, or a prefix of them when a statement fails. *)
Definition to_mark (keep : list string) (i : Instance) : bool :=
  negb (contains keep (InstanceID i)) && bool_decide (TerminatedAt i = None).

Definition marked (when : time) (l : list Instance) (t : table) : table := foldl (λ t i, alter (set_gone when) (ID i) t) t l.

Lemma mark_loop_spec keep now fault rows : ∀ gone t, ∃ l,
  (mark_loop keep now fault rows gone t).2 = marked (TimeArg now) l t ∧ l `prefix_of` List.filter (to_mark keep) rows ∧
  (∀ g, (mark_loop keep now fault rows gone t).1 = Ok g → g = gone ++ (left_form now <$> l) ∧ l = List.filter (to_mark keep) rows).
Proof.
  induction rows as [|i rows IH]; intros gone t; cbn [mark_loop List.filter].
  { exists []. split_and!; [done|done|]. intros g [= <-]. by rewrite app_nil_r. }
  assert (contains keep (InstanceID i) || negb (bool_decide (TerminatedAt i = None)) = negb (to_mark keep i)) as -> by
    (unfold to_mark; by destruct (contains _ _), (bool_decide _)).
  destruct (to_mark keep i); cbn [negb]; [|apply IH].
  destruct (fault (ID i)); [exists []; split_and!; [done|apply prefix_nil|done]|].
  destruct (IH (gone ++ [left_form now i]) (alter (set_gone (TimeArg now)) (ID i) t)) as (l & E1 & E2 & E3). exists (i :: l). split_and!.
  - done.
  - by apply prefix_cons.
  - intros g Hg. destruct (E3 g Hg) as [-> ->]. by rewrite <-app_assoc.
Qed.

Lemma marked_lookup when l : ∀ t k, marked when l t !! k = if bool_decide (k ∈ ID <$> l) then set_gone when <$> t !! k else t !! k.
Proof.
  induction l as [|i l IH]; intros t k; [done|]. unfold marked in *. cbn [foldl]. rewrite IH, fmap_cons.
  destruct (decide (k = ID i)) as [->|Hne].
  - rewrite lookup_alter_eq, (bool_decide_eq_true_2 (ID i ∈ ID i :: _)) by left. destruct (bool_decide _); [|done]. by destruct (t !! ID i).
  - rewrite lookup_alter_ne by done. rewrite (bool_decide_ext (k ∈ ID i :: _) (k ∈ ID <$> l)); [done|]. rewrite elem_of_cons. naive_solver.
Qed.

Lemma marked_kept when l t : kept t (marked when l t).
Proof. intros k r H. rewrite marked_lookup, H. destruct (bool_decide _); eexists; (split; [reflexivity|by split_and!]). Qed.

Lemma marked_back when l t k r' : marked when l t !! k = Some r' → ∃ r, t !! k = Some r ∧ ID r' = ID r ∧ GroupID r' = GroupID r ∧ InstanceID r' = InstanceID r ∧
  pins r' = pins r ∧ (k ∉ ID <$> l → r' = r).
Proof.
  rewrite marked_lookup. destruct (bool_decide_reflect (k ∈ ID <$> l)) as [Hin|Hin]; [|by intros H; exists r'].
  destruct (t !! k) as [r|]; [|done]. intros [= <-]. exists r. by split_and!.
Qed.

Lemma marked_ok when l t : table_ok t → table_ok (marked when l t).
Proof.
  intros [Hid Hu]. split.
  - intros k r' (r & Hr & -> & _)%marked_back. by apply Hid.
  - intros k1 k2 r1 r2 (s1 & H1 & _ & -> & -> & _)%marked_back (s2 & H2 & _ & -> & -> & _)%marked_back. by apply Hu.
Qed.

(** A turn of the loop that stores its instance. *)
Record turn (gid : string) (a : Answers) (s s' : state) (p p' : Poll) (ci : CloudInstance) (i stored : Instance) (isNew : bool) : Prop := {
  turn_poll : running s !! gid = Some p;
  turn_todo : todo p = ci :: todo p';
  turn_seen : ∃ t t', observe (pGroup p) a ci (previous p !! cID ci) t = (i, t');
  turn_stored : UpsertInstance a i (instances s) = Ok (stored, isNew, instances s');
  turn_running : running s' = <[gid := p']> (running s);
  turn_group : pGroup p' = pGroup p;
  turn_previous : previous p' = previous p;
  turn_keep : keep p' = keep p ++ [cID ci];
  turn_reg : reg s' = if lost (previous p !! cID ci) isNew stored then retire stored (reg s) else reg s;
}.

Lemma item_cases gid a s :
  (instances (item_ gid a s).2 = instances s ∧ reg (item_ gid a s).2 = reg s ∧
   (running (item_ gid a s).2 = running s ∧ (running s !! gid = None ∨ ∃ p, running s !! gid = Some p ∧ todo p = []) ∨
    running (item_ gid a s).2 = delete gid (running s) ∧ ∃ e, (item_ gid a s).1 = Err e)) ∨
  ∃ p p' ci i stored isNew, (item_ gid a s).1 = Ok tt ∧ turn gid a s (item_ gid a s).2 p p' ci i stored isNew.
Proof.
  unfold item_. destruct (running s !! gid) as [p|] eqn:Ep; [|left; split_and!; [done..|by left; auto]].
  destruct (todo p) as [|ci rest] eqn:Et; [left; split_and!; [done..|left; eauto]|].
  destruct (observe _ _ _ _ _) as [i t] eqn:Eo. cbn [instances].
  destruct (UpsertInstance a i (instances s)) as [[[stored isNew] tbl]|e] eqn:Eu.
  - right. eexists p, _, ci, i, stored, isNew. split; [done|]. cbn [snd]. split; try done; cbn; eauto.
  - left. split_and!; [done..|]. right. split; [done|eauto].
Qed.

(** The row a turn stores, its health, and what it pins. *)
Lemma turn_row gid a s s' p p' ci i stored isNew : state_ok s → turn gid a s s' p p' ci i stored isNew →
  ∃ r', instances s' = <[ID stored := r']> (instances s) ∧ ID r' = ID stored ∧ GroupID r' = gid ∧ InstanceID r' = cID ci ∧ TerminatedAt r' = None ∧
    Healthy stored = derive r' ∧
    derive r' = cloud_Healthy (cLifecycleState ci) (cLBHealth ci) && sound (pGroup p) a ci (previous p !! cID ci) ∧
    (∀ k r, instances s !! k = Some r → GroupID r = gid → InstanceID r = cID ci → k = ID stored) ∧
    (isNew = bool_decide (previous p !! cID ci = None)) ∧
    (∀ r, instances s !! ID stored = Some r → GroupID r = gid ∧ InstanceID r = cID ci ∧ previous p !! cID ci = Some (scanInstance r)) ∧
    (HostKeyFingerprint r' ≠ "" → evidence (pGroup p) a ci (HostKeyFingerprint r') (HostKeySource r') ∨
       ∃ r, instances s !! ID stored = Some r ∧ HostKeyFingerprint r = HostKeyFingerprint r' ∧ HostKeySource r = HostKeySource r') ∧
    kept (instances s) (instances s').
Proof using.
  intros [Hok Hpoll] [Hp Ht (t & t' & Ho) Hu _ _ _ _ _]. destruct (Hpoll _ _ Hp) as (Hg & _ & Hprev). specialize (Hprev ci). rewrite Ht in Hprev. specialize (Hprev (list_elem_of_here _ _)).
  destruct (observe_spec (pGroup p) a ci (previous p !! cID ci) t) as (i0 & t0 & E0 & (Pg & Pi & Pl & Pb) & Hh & Hk & Htl & Hw). rewrite E0 in Ho. injection Ho as -> _.
  apply Upsert_Ok in Hu as (r' & -> & Hid & (Qg & Qi & Ql & Qb) & Hterm & Hst & Hhr & Hcase); [|done].
  rewrite Pg in Qg, Hcase. rewrite Pi in Qi, Hcase. rewrite Pl in Ql. rewrite Pb in Qb. cbn in Qg, Qi, Ql, Qb, Hcase. rewrite Hg in Qg, Hcase.
  exists r'. split; [done|]. split; [done|]. split; [done|]. split; [done|]. split; [done|]. split; [done|]. split.
  { unfold derive. rewrite Hterm, Ql, Qb. rewrite (bool_decide_eq_true_2 (None = None)) by done. cbn [negb orb].
    destruct (cloud_Healthy _ _); cbn [andb] in Hh |- *; [|by destruct (negb _)].
    destruct (sound _ _ _ _); cbn [verdict] in Hh.
    - rewrite bool_decide_eq_true_2; [done|by apply Hhr].
    - rewrite bool_decide_eq_false_2; [done|]. rewrite <-Hhr, Hh. done. }
  destruct Hcase as [(-> & Hnone & Hpins & Hno)|(-> & r & Hr & Rg & Ri & Hpins)].
  - assert (previous p !! cID ci = None) as Hpn.
    { rewrite Hprev. destruct (instanceByCloudID _ _ _) eqn:E; [|done]. apply byCloudID_Some in E as (k & r & ? & _ & ? & ?). exfalso. by eapply Hno. }
    rewrite Hpn in *. split; [intros k r ???; exfalso; by eapply Hno|]. split; [by rewrite bool_decide_eq_true_2|]. split; [by intros r; rewrite Hnone|].
    injection Hpins as E1 E2 E3 E4. cbn [fmap option_fmap option_map default] in Hk. split.
    + rewrite E1, E2. intros Hne. left. destruct Hk as [|[[? _]|[_ ?]]]; [done..|by auto].
    + intros k r Hr. exists r. rewrite lookup_insert_ne by congruence. by split_and!.
  - assert (previous p !! cID ci = Some (scanInstance r)) as Hps by (rewrite Hprev, <-Rg, <-Ri; by eapply byCloudID_row).
    rewrite Hps in *. split; [intros k r0 ???; eapply (proj2 Hok); [done|exact Hr|congruence..]|]. split; [by rewrite bool_decide_eq_false_2|].
    split; [rewrite Hr; by intros r0 [= <-]|]. cbn [fmap option_fmap option_map default Datatypes.id scanInstance set_seen HostKeyFingerprint HostKeySource TLSFingerprint WinRMTLSFingerprint] in Hk, Htl, Hw.
    unfold keep_pins in Hpins. injection Hpins as E1 E2 E3 E4. split.
    + intros Hne. destruct (bool_decide_reflect (HostKeyFingerprint i = "")) as [He|He]; cbn in E1, E2.
      * right. exists r. by rewrite E1, E2.
      * rewrite E1, E2. destruct Hk as [|[[? ?]|[_ ?]]]; [done|right; by exists r|by left].
    + intros k r0 Hr0. destruct (decide (k = ID stored)) as [->|Hne]; [|exists r0; rewrite lookup_insert_ne by done; by split_and!].
      rewrite Hr in Hr0. injection Hr0 as <-. exists r'. rewrite lookup_insert_eq. split; [done|]. split; [congruence|]. split; [congruence|].
      split_and!; intros Hne.
      * destruct (bool_decide_reflect (HostKeyFingerprint i = "")) as [He|He]; cbn in E1, E2; [by rewrite E1, E2|].
        rewrite E1, E2. destruct Hk as [|[[? ?]|[? _]]]; done.
      * destruct (bool_decide (HostKeyFingerprint i = "")); cbn in E3; destruct (bool_decide_reflect (TLSFingerprint i = "")) in E3; rewrite E3; naive_solver.
      * destruct (bool_decide (HostKeyFingerprint i = "")); cbn in E4; destruct (bool_decide_reflect (WinRMTLSFingerprint i = "")) in E4; rewrite E4; naive_solver.
Qed.

Lemma begin_cases now g snap f s :
  instances (begin_ order now g snap f s).2 = instances s ∧ reg (begin_ order now g snap f s).2 = reg s ∧
  ((running (begin_ order now g snap f s).2 = running s ∨ running (begin_ order now g snap f s).2 = delete (gID g) (running s)) ∧
     (∃ e, (begin_ order now g snap f s).1 = Err e) ∨
   ∃ cis, snap = Ok cis ∧ (begin_ order now g snap f s).1 = Ok tt ∧ running s !! gID g = None ∧
     running (begin_ order now g snap f s).2 = <[gID g := {| pGroup := g; previous := snapshot (Instances order (gID g) (instances s));
       todo := cis; keep := []; pSum := no_summary |}]> (running s)).
Proof.
  unfold begin_. destruct (running s !! gID g) eqn:E; [split_and!; [done..|left; eauto]|].
  destruct snap as [cis|e]; [destruct f as [e|]|]; (split; [done|split; [done|]]); cbn [fst snd].
  - left. split; [by right|eauto].
  - right. by exists cis.
  - left. split; [by right|eauto].
Qed.

Lemma finish_cases now gid f fault s :
  ((finish_ order now gid f fault s).2 = s ∧ ∀ p, running s !! gid = Some p → todo p ≠ []) ∨
  ∃ p l, running s !! gid = Some p ∧ todo p = [] ∧ l `prefix_of` List.filter (to_mark (keep p)) (Instances order gid (instances s)) ∧
    instances (finish_ order now gid f fault s).2 = marked (TimeArg now) l (instances s) ∧
    running (finish_ order now gid f fault s).2 = delete gid (running s) ∧
    ((∃ e, (finish_ order now gid f fault s).1 = Err e) ∧ reg (finish_ order now gid f fault s).2 = reg s ∨
     (∃ sum, (finish_ order now gid f fault s).1 = Ok sum) ∧ l = List.filter (to_mark (keep p)) (Instances order gid (instances s)) ∧
     reg (finish_ order now gid f fault s).2 = foldl (λ r i, retire i r) (reg s) (left_form now <$> l)).
Proof.
  unfold finish_. destruct (running s !! gid) as [p|] eqn:Ep; [|by left].
  destruct (todo p) as [|] eqn:Et; [|left; split; [done|]; intros q [= <-]; by rewrite Et]. right. exists p.
  unfold MarkTerminated. destruct f as [e|]; [exists []; split_and!; [done|done|apply prefix_nil|done|done|left; eauto]|].
  destruct (mark_loop_spec (keep p) now fault (Instances order gid (instances s)) [] (instances s)) as (l & E1 & E2 & E3).
  destruct (mark_loop _ _ _ _ _ _) as [[gone|e] tbl]; cbn [fst snd] in *; subst tbl; exists l.
  - destruct (E3 gone eq_refl) as [-> Hl]. split_and!; [done..|]. right. split; [eauto|done].
  - split_and!; [done..|]. left. eauto.
Qed.

Lemma to_mark_row gid keep t l k : table_ok t → (l `prefix_of` List.filter (to_mark keep) (Instances order gid t)) → k ∈ ID <$> l →
  ∃ r, t !! k = Some r ∧ GroupID r = gid ∧ (InstanceID r ∉ keep) ∧ TerminatedAt r = None.
Proof using order_perm.
  intros [Hid _] [l' Hl] (i & -> & Hi)%list_elem_of_fmap.
  assert (i ∈ List.filter (to_mark keep) (Instances order gid t)) as Hin by (rewrite Hl, elem_of_app; by left).
  apply list_elem_of_In, filter_In in Hin as [Hin Hm]. apply list_elem_of_In, Instances_elem in Hin as (k & r & Hr & Hg & ->).
  unfold to_mark in Hm. bool_simpl. exists r. cbn. rewrite (Hid _ _ Hr). split_and!; [done..| |done]. by apply contains_false.
Qed.

Lemma exec_kept x s : state_ok s → listed_once x → state_ok (exec x s) ∧ kept (instances s) (instances (exec x s)).
Proof using order_perm.
  intros Hs Hx. pose proof Hs as [Hok Hpoll]. destruct x as [now g snap f|gid a|now gid f fault|o|]; cbn [exec].
  - destruct (begin_cases now g snap f s) as (Hi & _ & Hc). unfold state_ok. rewrite Hi. split; [|done]. split; [done|].
    destruct Hc as [[[-> | ->] _]|(cis & -> & _ & _ & ->)]; [done|intros gid p [_ H]%lookup_delete_Some; by apply Hpoll|].
    intros gid p. rewrite lookup_insert_Some. intros [[<- <-]|[_ H]]; [|by apply Hpoll]. split_and!; [done|exact Hx|].
    intros ci _. by apply previous_spec.
  - destruct (item_cases gid a s) as [(Hi & _ & Hr)|(p & p' & ci & i & stored & isNew & _ & Ht)].
    { unfold state_ok. rewrite Hi. split; [|done]. split; [done|]. destruct Hr as [[-> _]|[-> _]]; [done|]. intros g p [_ H]%lookup_delete_Some. by apply Hpoll. }
    destruct (turn_row _ _ _ _ _ _ _ _ _ _ Hs Ht) as (r' & Hi & Hid & Hg & Hc & _ & _ & _ & Hsame & _ & Hold & _ & Hkept). split; [|done].
    assert (table_ok (instances (item_ gid a s).2)) as Hok' by (eapply Upsert_table_ok; [done|apply (turn_stored _ _ _ _ _ _ _ _ _ _ Ht)]).
    split; [done|]. rewrite (turn_running _ _ _ _ _ _ _ _ _ _ Ht). destruct (Hpoll _ _ (turn_poll _ _ _ _ _ _ _ _ _ _ Ht)) as (Hpg & Hnd & Hprev).
    rewrite (turn_todo _ _ _ _ _ _ _ _ _ _ Ht), fmap_cons in Hnd. apply NoDup_cons in Hnd as [Hnin Hnd].
    assert (∀ g k, (g, k) ≠ (gid, cID ci) → instanceByCloudID g k (instances s) = instanceByCloudID g k (instances (item_ gid a s).2)) as Hext.
    { intros g k Hne. apply byCloudID_ext; [done..|]. intros k' r Er Ek. rewrite Hi. destruct (decide (k' = ID stored)) as [->|Hk]; [|by rewrite lookup_insert_ne].
      rewrite lookup_insert_eq. split; [intros Hr; apply Hold in Hr as (? & ? & _); congruence|intros [= <-]; congruence]. }
    intros g q. rewrite lookup_insert_Some. intros [[<- <-]|[Hne Hq]].
    + split; [by rewrite (turn_group _ _ _ _ _ _ _ _ _ _ Ht)|]. split; [done|]. intros ci' Hin. rewrite (turn_previous _ _ _ _ _ _ _ _ _ _ Ht), <-Hext.
      * apply Hprev. rewrite (turn_todo _ _ _ _ _ _ _ _ _ _ Ht). by right.
      * intros [= E]. apply Hnin. rewrite <-E. by apply list_elem_of_fmap_2.
    + destruct (Hpoll _ _ Hq) as (Hqg & Hqd & Hqp). split_and!; [done..|]. intros ci' Hin. rewrite <-Hext by congruence. by apply Hqp.
  - destruct (finish_cases now gid f fault s) as [[-> _]|(p & l & _ & _ & Hl & Hi & Hr & _)]; [done|]. unfold state_ok. rewrite Hi, Hr.
    split; [|apply marked_kept]. split; [by apply marked_ok|]. intros g q [Hne Hq]%lookup_delete_Some. destruct (Hpoll _ _ Hq) as (Hqg & Hqd & Hqp). split_and!; [done..|].
    intros ci Hin. rewrite (Hqp ci Hin). apply byCloudID_ext; [done|by apply marked_ok|]. intros k r Hrg Hri. rewrite marked_lookup. destruct (bool_decide_reflect (k ∈ ID <$> l)) as [Hk|]; [|done].
    apply (to_mark_row gid (keep p) (instances s)) in Hk as (r0 & -> & Hg0 & _); [|done..]. cbn. split; [intros [= <-]|intros [= <-]]; cbn in Hrg; congruence.
  - done.
  - split; [|done]. split; [done|]. intros g p H. cbn in H. by rewrite lookup_empty in H.
Qed.

Lemma history_ok l s : state_ok s → Forall listed_once l → state_ok (history l s) ∧ kept (instances s) (instances (history l s)).
Proof using order_perm.
  intros Hs Hl. unfold history. induction l as [|x l IH] using rev_ind; [by split|]. apply Forall_app in Hl as [Hl Hx]. rewrite Forall_singleton in Hx.
  destruct (IH Hl) as [H1 H2]. rewrite foldl_app. cbn [foldl]. destruct (exec_kept x _ H1 Hx) as [H3 H4]. split; [done|by etrans].
Qed.

(** A pin that was not there before comes from a turn of a poll that saw it. *)
Lemma exec_evidence x s k r' : state_ok s → instances (exec x s) !! k = Some r' → HostKeyFingerprint r' ≠ "" →
  (∃ r, instances s !! k = Some r ∧ GroupID r' = GroupID r ∧ InstanceID r' = InstanceID r ∧ HostKeyFingerprint r' = HostKeyFingerprint r ∧
     HostKeySource r' = HostKeySource r) ∨
  ∃ a p ci, x = AItem (GroupID r') a ∧ running s !! GroupID r' = Some p ∧ head (todo p) = Some ci ∧ cID ci = InstanceID r' ∧
    evidence (pGroup p) a ci (HostKeyFingerprint r') (HostKeySource r').
Proof using order_perm.
  intros Hs Hr' Hne. destruct x as [now g snap f|gid a|now gid f fault|o|]; cbn [exec] in Hr'; [| | |left; eauto 10..].
  - destruct (begin_cases now g snap f s) as (Hi & _). rewrite Hi in Hr'. left. eauto 10.
  - destruct (item_cases gid a s) as [(Hi & _)|(p & p' & ci & i & stored & isNew & _ & Ht)]; [rewrite Hi in Hr'; left; eauto 10|].
    destruct (turn_row _ _ _ _ _ _ _ _ _ _ Hs Ht) as (r & Hi & Hid & Hg & Hc & _ & _ & _ & _ & _ & Hold & Hev & _).
    rewrite Hi, lookup_insert_Some in Hr'. destruct Hr' as [[<- <-]|[_ Hr']]; [|left; eauto 10].
    destruct (Hev Hne) as [He|(r0 & Hr0 & E1 & E2)].
    + right. exists a, p, ci. rewrite Hg. split_and!; [done|apply (turn_poll _ _ _ _ _ _ _ _ _ _ Ht)| |done|done].
      by rewrite (turn_todo _ _ _ _ _ _ _ _ _ _ Ht).
    + left. destruct (Hold _ Hr0) as (? & ? & _). exists r0. split_and!; [done|congruence..].
  - left. destruct (finish_cases now gid f fault s) as [[E _]|(p & l & _ & _ & _ & Hi & _)]; [rewrite E in Hr'; eauto 10|].
    rewrite Hi in Hr'. apply marked_back in Hr' as (r & Hr & _ & ? & ? & [= ???] & _). exists r. by split_and!.
Qed.

Definition fresh (s : state) : Prop := instances s = ∅ ∧ running s = ∅.

Lemma fresh_ok s : fresh s → state_ok s.
Proof. intros [Hi Hr]. unfold state_ok, table_ok. rewrite Hi, Hr. split_and!; intros *; by rewrite lookup_empty. Qed.

Lemma history_snoc l x s : history (l ++ [x]) s = exec x (history l s).
Proof. unfold history. by rewrite foldl_app. Qed.

Lemma history_app l1 l2 s : history (l1 ++ l2) s = history l2 (history l1 s).
Proof. unfold history. by rewrite foldl_app. Qed.

Lemma history_evidence s l k r : fresh s → Forall listed_once l → instances (history l s) !! k = Some r → HostKeyFingerprint r ≠ "" →
  ∃ l0 a l1 p ci, l = l0 ++ AItem (GroupID r) a :: l1 ∧ running (history l0 s) !! GroupID r = Some p ∧ head (todo p) = Some ci ∧
    cID ci = InstanceID r ∧ evidence (pGroup p) a ci (HostKeyFingerprint r) (HostKeySource r).
Proof using order_perm.
  intros Hs. revert r. induction l as [|x l IH] using rev_ind; intros r Hl Hr Hne; [destruct Hs as [Hi _]; cbn in Hr; by rewrite Hi, lookup_empty in Hr|].
  rewrite Forall_app, Forall_singleton in Hl. destruct Hl as [Hl Hx]. rewrite history_snoc in Hr.
  destruct (exec_evidence x (history l s) k r) as [(r0 & Hr0 & Eg & Ei & Ek & Es)|(a & p & ci & -> & H)]; [by apply history_ok; [apply fresh_ok|]|done..| |].
  - destruct (IH r0 Hl Hr0) as (l0 & a & l1 & p & ci & -> & H); [congruence|]. exists l0, a, (l1 ++ [x]), p, ci.
    rewrite Eg, Ei, Ek, Es. split; [|done]. by rewrite <-app_assoc.
  - exists l, a, [], p, ci. done.
Qed.

End histories.

(** * Ending the sessions of several targets *)

Definition retire_all (ids : list string) (r : Registry) : Registry := foldl (λ r id, (TerminateTarget id ErrTargetLost r).2) r ids.

Lemma retire_all_spec ids : ∀ seen r, Inv seen r → (∃ seen', Inv seen' (retire_all ids r)) ∧
  (∀ sid l, live (retire_all ids r) !! sid = Some l → TargetID l ∈ ids → ∃ c, contexts (retire_all ids r) !! ctx l = Some (Some c)) ∧
  (∀ sid l, live r !! sid = Some l → TargetID l ∉ ids → live (retire_all ids r) !! sid = Some l ∧ contexts (retire_all ids r) !! ctx l = contexts r !! ctx l).
Proof.
  induction ids as [|id ids IH] using rev_ind; intros seen r HI; [split_and!; [by exists seen|intros *; by rewrite elem_of_nil|done]|].
  destruct (IH seen r HI) as ([seen' HI'] & Hin & Hout). unfold retire_all in *. rewrite foldl_app. cbn [foldl]. set (r1 := foldl _ r ids) in *. clearbody r1.
  destruct (where_contexts _ r1 (λ l, bool_decide (TargetID l = id)) ErrTargetLost HI') as [H1 H2]; [done|]. split_and!.
  - eexists. by apply Inv_where.
  - intros sid l Hl. rewrite elem_of_app, list_elem_of_singleton. intros [Hi|Hi]; [|by apply (H1 sid l Hl), bool_decide_eq_true].
    cbn [TerminateTarget terminateWhere snd live contexts] in Hl |- *. rewrite lookup_fmap in Hl. destruct (live r1 !! sid) as [l1|] eqn:E1; [|done]. injection Hl as <-.
    destruct (Hin sid l1 E1) as [c Hc]; [by destruct (_ && _) in Hi|]. exists c. rewrite foldr_cancel.
    assert (ctx (if bool_decide (TargetID l1 = id) && negb (ended l1) then set_ended l1 else l1) = ctx l1) as -> by by destruct (_ && _).
    destruct (bool_decide (_ ∈ _)); by rewrite Hc.
  - intros sid l Hl. rewrite elem_of_app, list_elem_of_singleton. intros Hn. destruct (Hout sid l Hl) as [Hl1 Hc1]; [naive_solver|].
    destruct (H2 sid l Hl1) as [Hl2 Hc2]; [apply bool_decide_eq_false; naive_solver|]. split; [exact Hl2|]. by etrans; [exact Hc2|].
Qed.

Lemma retire_gone l r : foldl (λ r i, retire i r) r l = retire_all (ID <$> l) r.
Proof. unfold retire_all. revert r. induction l as [|i l IH]; intros r; [done|]. cbn [foldl fmap list_fmap]. apply IH. Qed.

Section poll.
Context (order : list Instance → list Instance) (order_perm : ∀ l, order l ≡ₚ l).

(** What the turns of one poll do, one after another. *)
Lemma items_spec gid ans : ∀ n s p s1, state_ok s → running s !! gid = Some p → length (todo p) = n → items_ n gid ans s = (Ok tt, s1) →
  ∃ p1 ids, running s1 !! gid = Some p1 ∧ todo p1 = [] ∧ keep p1 = keep p ++ (cID <$> todo p) ∧ state_ok s1 ∧ reg s1 = retire_all ids (reg s) ∧
  (∀ j ci, todo p !! j = Some ci → ∃ k r', instances s1 !! k = Some r' ∧ GroupID r' = gid ∧ InstanceID r' = cID ci ∧ TerminatedAt r' = None ∧
     derive r' = cloud_Healthy (cLifecycleState ci) (cLBHealth ci) && sound (pGroup p) (ans (n - S j)) ci (instanceByCloudID gid (cID ci) (instances s))) ∧
  (∀ k r, GroupID r ≠ gid ∨ (InstanceID r ∉ cID <$> todo p) → instances s1 !! k = Some r ↔ instances s !! k = Some r) ∧
  kept (instances s) (instances s1) ∧
  (∀ k, k ∈ ids ↔ ∃ r r', instances s !! k = Some r ∧ GroupID r = gid ∧ InstanceID r ∈ cID <$> todo p ∧ derive r = true ∧
     instances s1 !! k = Some r' ∧ derive r' = false).
Proof using order_perm.
  induction n as [|n IH]; intros s p s1 Hs Hp Hlen; cbn [items_].
  { intros [= <-]. apply nil_length_inv in Hlen. exists p, []. rewrite Hlen. cbn [fmap list_fmap]. rewrite app_nil_r.
    split_and!; try done. intros k. rewrite elem_of_nil. split; [done|]. intros (? & ? & _ & _ & H & _). by apply elem_of_nil in H. }
  destruct (item_cases gid (ans n) s) as [(_ & _ & [[_ H]|[_ [e He]]])|(p0 & p' & ci & i & stored & isNew & He & Ht)].
  { exfalso. destruct H as [?|(q & Hq & Hqt)]; [congruence|]. rewrite Hp in Hq. injection Hq as <-. by rewrite Hqt in Hlen. }
  { destruct (item_ gid (ans n) s) as [x s2]. cbn in He. by subst x. }
  destruct (exec_kept order order_perm (AItem gid (ans n)) s Hs I) as [Hs2 Hk2]. cbn [exec] in Hs2, Hk2.
  destruct (item_ gid (ans n) s) as [x s2]. cbn [fst snd] in *. subst x. pose proof (turn_poll _ _ _ _ _ _ _ _ _ _ Ht) as Hp0. rewrite Hp in Hp0. injection Hp0 as <-.
  pose proof (turn_todo _ _ _ _ _ _ _ _ _ _ Ht) as Htd. destruct (turn_row _ _ _ _ _ _ _ _ _ _ Hs Ht) as (r' & Hi & Hid & Hg & Hc & Hterm & Hst & Hd & Hsame & Hnew & Hold & _).
  assert (running s2 !! gid = Some p') as Hp' by by rewrite (turn_running _ _ _ _ _ _ _ _ _ _ Ht), lookup_insert_eq.
  intros Hrest. destruct (IH s2 p' s1 Hs2 Hp') as (p1 & ids & R1 & R2 & R3 & R4 & R5 & R6 & R7 & R8 & R9); [rewrite Htd in Hlen; cbn in Hlen; lia|done|].
  destruct (proj2 Hs gid p Hp) as (Hpg & Hnd & Hprev). rewrite Htd, fmap_cons in Hnd. apply NoDup_cons in Hnd as [Hnin Hnd].
  assert (previous p !! cID ci = instanceByCloudID gid (cID ci) (instances s)) as Hpc by (apply Hprev; rewrite Htd; left).
  assert (instances s1 !! ID stored = Some r') as Hr'.
  { apply R7; [right; by rewrite Hc|]. by rewrite Hi, lookup_insert_eq. }
  exists p1, ((if lost (previous p !! cID ci) isNew stored then [ID stored] else []) ++ ids). rewrite Htd, fmap_cons. split; [done|]. split; [done|]. split; [|split; [done|split; [|split; [|split; [|split; [by etrans|]]]]]].
  - rewrite R3, (turn_keep _ _ _ _ _ _ _ _ _ _ Ht). by rewrite <-app_assoc.
  - rewrite R5, (turn_reg _ _ _ _ _ _ _ _ _ _ Ht). by destruct (lost _ _ _).
  - intros [|j] cj; cbn [lookup list_lookup].
    + intros [= <-]. exists (ID stored), r'. rewrite Hd, Hpc. replace (S n - 1)%nat with n by lia. done.
    + intros Hj. destruct (R6 j cj Hj) as (k & rk & ? & ? & Hik & ? & Hdk). exists k, rk. split_and!; [done..|]. rewrite Hdk, (turn_group _ _ _ _ _ _ _ _ _ _ Ht).
      replace (S n - S (S j))%nat with (n - S j)%nat by lia. do 2 f_equal.
      assert (cj ∈ todo p') as Hin by by eapply list_elem_of_lookup_2.
      rewrite <-(proj2 (proj2 (proj2 Hs2 gid p' Hp')) cj Hin), (turn_previous _ _ _ _ _ _ _ _ _ _ Ht). apply Hprev. rewrite Htd. by right.
  - intros k r Hr. rewrite not_elem_of_cons in Hr. rewrite R7 by naive_solver. rewrite Hi.
    destruct (decide (k = ID stored)) as [->|Hne]; [|by rewrite lookup_insert_ne]. rewrite lookup_insert_eq. split.
    + intros [= <-]. naive_solver congruence.
    + intros H. destruct (Hold r H) as (? & ? & _). naive_solver congruence.
  - intros k. rewrite elem_of_app, R9. split.
    + intros [Hl|(r & r2 & Hr & Rg & Ri & Rd & Hr2 & Rd2)].
      * destruct (lost _ _ _) eqn:El; [|by apply elem_of_nil in Hl]. apply list_elem_of_singleton in Hl as ->. unfold lost in El. bool_simpl.
        destruct (previous p !! cID ci) as [q|] eqn:Eq; [|done]. symmetry in Hpc. apply byCloudID_Some in Hpc as (k & r & Hr & -> & Rg & Ri).
        pose proof (Hsame k r Hr Rg Ri) as ->. exists r, r'. split_and!; [done..|rewrite Ri; left|done|done|congruence].
      * exists r, r2. assert (instances s !! k = Some r) as Hr0.
        { rewrite Hi, lookup_insert_Some in Hr. destruct Hr as [[<- <-]|[_ ?]]; [|done]. by rewrite Hc in Ri. }
        split_and!; try done. by right.
    + intros (r & r2 & Hr & Rg & Ri & Rd & Hr2 & Rd2). destruct (decide (k = ID stored)) as [->|Hne].
      * left. destruct (Hold r Hr) as (_ & _ & Hq). unfold lost. rewrite Hnew, Hq, Hst. rewrite Hr' in Hr2. injection Hr2 as <-. rewrite Rd2.
        rewrite bool_decide_eq_false_2 by done. cbn. rewrite Rd. left.
      * right. exists r, r2. split_and!; try done; [by rewrite Hi, lookup_insert_ne|]. apply elem_of_cons in Ri as [Ri|Ri]; [|done]. exfalso. apply Hne. by eapply Hsame.
Qed.

End poll.

(** A row the poll lost: healthy before and not after, or gone since. *)
Definition lost_row (gid : string) (s s' : state) (k : string) : Prop :=
  ∃ r r', instances s !! k = Some r ∧ GroupID r = gid ∧ instances s' !! k = Some r' ∧
    ((derive r = true ∧ derive r' = false) ∨ (TerminatedAt r = None ∧ TerminatedAt r' ≠ None)).

(** The rows a finished poll lost are the ones whose sessions it ended. *)
Lemma lost_row_ids gid (cis : list CloudInstance) s s1 s' ids gone when : table_ok (instances s) → table_ok (instances s1) →
  instances s' = marked when gone (instances s1) →
  (∀ ci, ci ∈ cis → ∃ k r, instances s1 !! k = Some r ∧ GroupID r = gid ∧ InstanceID r = cID ci ∧ TerminatedAt r = None) →
  (∀ k r, GroupID r ≠ gid ∨ (InstanceID r ∉ cID <$> cis) → instances s1 !! k = Some r ↔ instances s !! k = Some r) →
  kept (instances s) (instances s1) →
  (∀ k, k ∈ ids ↔ ∃ r r', instances s !! k = Some r ∧ GroupID r = gid ∧ InstanceID r ∈ cID <$> cis ∧ derive r = true ∧
     instances s1 !! k = Some r' ∧ derive r' = false) →
  (∀ k, k ∈ ID <$> gone ↔ ∃ r, instances s1 !! k = Some r ∧ GroupID r = gid ∧ (InstanceID r ∉ cID <$> cis) ∧ TerminatedAt r = None) →
  ∀ k, lost_row gid s s' k ↔ k ∈ ids ++ (ID <$> gone).
Proof.
  intros Hok Hok1 Hi' Hlist Hout Hkept Hids Hmark k. rewrite elem_of_app, Hids. unfold lost_row. rewrite Hi', marked_lookup. split.
  - intros (r & r' & Hr & Hg & Hr' & Hc). destruct (Hkept k r Hr) as (r1 & Hr1 & Hg1 & Hin1 & _). rewrite Hr1 in Hr'. cbn in Hr'.
    destruct (decide (InstanceID r ∈ cID <$> cis)) as [Hin|Hn].
    + assert (k ∉ ID <$> gone) as Hk by (rewrite Hmark; intros (r0 & ? & _ & ? & _); congruence). rewrite bool_decide_eq_false_2 in Hr' by done. injection Hr' as <-.
      pose proof Hin as (ci & Hci & Hin')%list_elem_of_fmap. destruct (Hlist ci Hin') as (k0 & r0 & Hr0 & Hg0 & Hi0 & Ht0).
      assert (k0 = k) as -> by (eapply (proj2 Hok1); [exact Hr0|exact Hr1|congruence..]). rewrite Hr1 in Hr0. injection Hr0 as <-.
      destruct Hc as [[? ?]|[_ ?]]; [|done]. left. eauto 10.
    + right. assert (instances s1 !! k = Some r) as Hr1' by (apply Hout; [by right|done]). rewrite Hr1 in Hr1'. injection Hr1' as ->.
      apply Hmark. exists r. split_and!; [done..|]. destruct Hc as [[Hd _]|[? _]]; [|done]. unfold derive in Hd. destruct (TerminatedAt r); [|done].
      by rewrite bool_decide_eq_false_2 in Hd.
  - intros [(r & r' & Hr & Hg & Hin & Hd & Hr' & Hd')|Hk].
    + exists r, r'. destruct (Hkept k r Hr) as (r1 & Hr1 & _ & Hin1 & _). rewrite Hr1 in Hr'. injection Hr' as <-.
      assert (k ∉ ID <$> gone) by (rewrite Hmark; intros (r0 & ? & _ & ? & _); congruence). rewrite Hr1, bool_decide_eq_false_2 by done. split_and!; eauto.
    + pose proof Hk as (r1 & Hr1 & Hg & Hn & Ht)%Hmark. exists r1, (set_gone when r1). split_and!; [by apply Hout; [right|]|done| |right; done].
      by rewrite bool_decide_eq_true_2, Hr1.
Qed.

(** * Claims *)

(** C27. Over every history of polls and whatever else runs between their steps,
a row keeps its instance and everything once pinned of it, the SSH host key with
its source and both certificates, provided no listing of the cloud names one
instance twice ([listed_once], which the cloud's API keeps; [listed_twice_repins]
says what a listing that does would do).  Nothing else is asked of what the cloud,
the network and the database answer.  A pinned host key was seen by a probe of that instance, and
either the cloud's console published it then or the console gave no answer. *)
Theorem pins_hold order s l1 l2 k r :
  (∀ l, order l ≡ₚ l) → fresh s → Forall listed_once (l1 ++ l2) → instances (history order l1 s) !! k = Some r →
  (∃ r', instances (history order (l1 ++ l2) s) !! k = Some r' ∧ GroupID r' = GroupID r ∧ InstanceID r' = InstanceID r ∧
     (HostKeyFingerprint r ≠ "" → HostKeyFingerprint r' = HostKeyFingerprint r ∧ HostKeySource r' = HostKeySource r) ∧
     (TLSFingerprint r ≠ "" → TLSFingerprint r' = TLSFingerprint r) ∧
     (WinRMTLSFingerprint r ≠ "" → WinRMTLSFingerprint r' = WinRMTLSFingerprint r)) ∧
  (HostKeyFingerprint r ≠ "" → ∃ l0 a l3 p ci, l1 = l0 ++ AItem (GroupID r) a :: l3 ∧
     running (history order l0 s) !! GroupID r = Some p ∧ head (todo p) = Some ci ∧ cID ci = InstanceID r ∧
     evidence (pGroup p) a ci (HostKeyFingerprint r) (HostKeySource r)).
Proof.
  intros Hord Hs [Hl1 Hl2]%Forall_app Hr. destruct (history_ok order Hord l1 s (fresh_ok s Hs) Hl1) as [Hs1 _]. split.
  - rewrite history_app. by apply (history_ok order Hord l2 _ Hs1 Hl2).
  - by eapply history_evidence.
Qed.

(** C28. A poll that finishes leaves each instance the cloud listed healthy exactly
when the cloud has it in service, its balancer does not object, it answers on
every port of the group and it shows what is pinned of it (or a key the console
does not contradict); the rest of the group is marked as terminated.  Every
session on an instance it lost is ended, and no other session is touched. *)
Theorem poll_settles order now g cis ans fault s sum s' seen :
  (∀ l, order l ≡ₚ l) → state_ok s → Inv seen (reg s) → NoDup (cID <$> cis) →
  SyncGroup order now g (Ok cis) None None ans fault s = (Ok sum, s') →
  (∀ j ci, cis !! j = Some ci → ∃ k r, instances s' !! k = Some r ∧ GroupID r = gID g ∧ InstanceID r = cID ci ∧ TerminatedAt r = None ∧
     derive r = cloud_Healthy (cLifecycleState ci) (cLBHealth ci)
                && sound g (ans (length cis - S j)) ci (instanceByCloudID (gID g) (cID ci) (instances s))) ∧
  (∀ k r, instances s' !! k = Some r → GroupID r = gID g → (InstanceID r ∉ cID <$> cis) → TerminatedAt r ≠ None) ∧
  (∀ k, lost_row (gID g) s s' k → ∀ sid l, live (reg s') !! sid = Some l → TargetID l = k → ∃ c, contexts (reg s') !! ctx l = Some (Some c)) ∧
  (∀ sid l, live (reg s) !! sid = Some l → ¬ lost_row (gID g) s s' (TargetID l) →
     live (reg s') !! sid = Some l ∧ contexts (reg s') !! ctx l = contexts (reg s) !! ctx l).
Proof.
  intros Hord Hs HI Hnd. unfold SyncGroup. destruct (exec_kept order Hord (ABegin now g (Ok cis) None) s Hs Hnd) as [Hs0 _]. cbn [exec] in Hs0.
  destruct (begin_cases order now g (Ok cis) None s) as (Hi0 & Hr0 & Hb).
  destruct (begin_ order now g (Ok cis) None s) as [[[]|e] s0]; cbn [fst snd] in *; [|done].
  destruct Hb as [[_ [e ?]]|(cis' & [= <-] & _ & _ & Hrun)]; [done|].
  destruct (items_ _ _ _ s0) as [[[]|e] s1] eqn:Eit; [|done].
  edestruct (items_spec order Hord (gID g) ans (length cis) s0) as (p1 & ids & R1 & R2 & R3 & R4 & R5 & R6 & R7 & R8 & R9);
    [done|by rewrite Hrun, lookup_insert_eq|done|done|]. cbn [todo keep pGroup app] in *. rewrite Hi0 in R6, R7, R8, R9. rewrite Hr0 in R5.
  intros Hf. destruct (finish_cases order now (gID g) None fault s1) as [[_ E]|(p & gone & Hp & _ & _ & Hi' & _ & Hc)]; [by apply E in R1|].
  rewrite R1 in Hp. injection Hp as <-. rewrite Hf in Hi', Hc. cbn [fst snd] in Hi', Hc. destruct Hc as [[[e ?] _]|(_ & Hgone & Hreg)]; [done|].
  rewrite retire_gone, R5, <-list_fmap_compose in Hreg. change (ID ∘ left_form now) with ID in Hreg.
  assert (reg s' = retire_all (ids ++ (ID <$> gone)) (reg s)) as Hreg' by (rewrite Hreg; unfold retire_all; by rewrite foldl_app). clear Hreg.
  assert (∀ k, k ∈ ID <$> gone ↔ ∃ r, instances s1 !! k = Some r ∧ GroupID r = gID g ∧ (InstanceID r ∉ cID <$> cis) ∧ TerminatedAt r = None) as Hmark.
  { intros k. rewrite Hgone, <-R3. split; [intros Hk; by apply (to_mark_row order Hord (gID g) (keep p1) (instances s1) _ k (proj1 R4) (reflexivity _))|]. intros (r & Hr & Hg & Hn & Ht).
    apply list_elem_of_fmap. exists (scanInstance r). split; [symmetry; apply (proj1 (proj1 R4) k r Hr)|].
    apply list_elem_of_In, filter_In. split; [apply list_elem_of_In, Instances_elem; [done|eauto]|]. unfold to_mark. cbn.
    rewrite Ht, bool_decide_eq_true_2 by done. rewrite andb_true_r, negb_true_iff. by apply contains_false. }
  assert (∀ k, lost_row (gID g) s s' k ↔ k ∈ ids ++ (ID <$> gone)) as Hlost.
  { intros k. apply (lost_row_ids (gID g) cis s s1 s' ids gone (TimeArg now)); [apply Hs|apply R4|..]; try done.
    intros ci (j & Hj)%list_elem_of_lookup_1. destruct (R6 j ci Hj) as (k0 & r & ? & ? & ? & ? & _). eauto 10. }
  destruct (retire_all_spec (ids ++ (ID <$> gone)) seen (reg s) HI) as (_ & Hend & Hkeep). rewrite <-Hreg' in Hend, Hkeep. split_and!.
  - intros j ci Hj. destruct (R6 j ci Hj) as (k & r & Hr & Hg & Hci & Ht & Hd). exists k, r. split_and!; try done.
    rewrite Hi', marked_lookup, bool_decide_eq_false_2; [done|]. rewrite Hmark. intros (r0 & Hr0' & _ & Hn & _). rewrite Hr in Hr0'. injection Hr0' as <-. apply Hn. rewrite Hci.
    apply list_elem_of_fmap_2. by eapply list_elem_of_lookup_2.
  - intros k r. rewrite Hi', marked_lookup. destruct (bool_decide_reflect (k ∈ ID <$> gone)) as [Hk|Hk].
    + destruct (instances s1 !! k); [|done]. by intros [= <-].
    + intros Hr Hg Hn Ht. apply Hk, Hmark. by exists r.
  - intros k Hk%Hlost sid l Hl <-. by eapply Hend.
  - intros sid l Hl Hn. apply Hkeep; [done|]. by rewrite <-Hlost.
Qed.

(** * Examples *)

Definition ex_group : Group := {|
  gID := "g1"; Name := "web"; Provider := "aws"; Region := "eu-west-1"; ExternalName := "web-asg"; RoleARN := "arn:aws:iam::123456789012:role/zanskar";
  ExternalID := "zanskar-0"; OSFamily := "linux"; Ports := ∅; Capabilities := ["ssh"]; AddressPreference := "private"; PollIntervalSeconds := 30%Z;
  Tags := ∅; Status := "active"; LastSyncedAt := None; LastError := "" |}.

Definition ex_ci (id : string) : CloudInstance := {|
  cID := id; cPrivateIP := "10.0.0.7"; cPublicIP := ""; cAvailabilityZone := "a"; cLifecycleState := "InService"; cLBHealth := "Healthy"; cLaunchedAt := zero_time |}.

(** The instance answers with this host key, and the console publishes [keys]. *)
Definition ex_answers (id key : string) (keys : result unit (list string)) : Answers := {|
  prober := Some (λ _ _, Ok {| Reachable := {[ "ssh" := true ]}; SSHHostKey := Some key; TLS := None; WinRMTLS := None |});
  ConsoleHostKeys := λ _, keys; newID := id; aNow := 1%Z; aFault := None |}.

Definition ex_state : state := {| groups := {[ "g1" := ex_group ]}; instances := ∅; reg := NewRegistry; reported := ∅; running := ∅; events := [] |}.

Definition ex_first : list action :=
  [ABegin 1%Z ex_group (Ok [ex_ci "i-1"]) None; AItem "g1" (ex_answers "r1" "SHA256:a" (Ok ["SHA256:a"])); AFinish 2%Z "g1" None (λ _, None)].

(** A second poll of it finds another key. *)
Definition ex_second : list action :=
  [ABegin 3%Z ex_group (Ok [ex_ci "i-1"]) None; AItem "g1" (ex_answers "r2" "SHA256:b" (Ok ["SHA256:b"])); AFinish 4%Z "g1" None (λ _, None)].

Definition ex_row : Instance := default (seen_instance ex_group (ex_ci "")) (instances (history id ex_first ex_state) !! "r1").

Lemma ex_listed : Forall listed_once (ex_first ++ ex_second).
Proof. repeat constructor; apply not_elem_of_nil. Qed.

(** The second poll keeps the pin of the first. *)
Lemma pins_hold_witness : instances (history id ex_first ex_state) !! "r1" = Some ex_row ∧ HostKeyFingerprint ex_row = "SHA256:a" ∧
  ∃ r', instances (history id (ex_first ++ ex_second) ex_state) !! "r1" = Some r' ∧ HostKeyFingerprint r' = "SHA256:a".
Proof.
  assert (instances (history id ex_first ex_state) !! "r1" = Some ex_row) as Hr by (vm_compute; reflexivity).
  assert (HostKeyFingerprint ex_row = "SHA256:a") as Hk by (vm_compute; reflexivity). split; [exact Hr|]. split; [exact Hk|].
  destruct (pins_hold id ex_state ex_first ex_second "r1" ex_row (λ l, reflexivity l) (conj eq_refl eq_refl) ex_listed Hr) as [(r' & Hr' & _ & _ & Hp & _) _].
  exists r'. split; [exact Hr'|]. rewrite Hk in Hp. apply Hp. discriminate.
Defined.

(** A listing that names an instance twice could replace a pin: both items go by
the row that was there when the poll began, none, and the second to be written
takes the place of the first. *)
Lemma listed_twice_repins :
  let l := [ABegin 1%Z ex_group (Ok [ex_ci "i-1"; ex_ci "i-1"]) None; AItem "g1" (ex_answers "r1" "SHA256:a" (Ok ["SHA256:a"]));
            AItem "g1" (ex_answers "r2" "SHA256:b" (Ok ["SHA256:b"]))] in
  HostKeyFingerprint <$> instances (history id (take 2 l) ex_state) !! "r1" = Some "SHA256:a" ∧
  HostKeyFingerprint <$> instances (history id l ex_state) !! "r1" = Some "SHA256:b".
Proof. split; vm_compute; reflexivity. Qed.

(** Two instances with a session on the first. *)
Definition ex_two : state :=
  history id [ABegin 1%Z ex_group (Ok [ex_ci "i-1"; ex_ci "i-2"]) None; AItem "g1" (ex_answers "r1" "SHA256:a" (Err tt));
              AItem "g1" (ex_answers "r2" "SHA256:c" (Err tt)); AFinish 2%Z "g1" None (λ _, None);
              ARegistry (OAdd 3%Z {| SessionID := "s1"; UserID := "ada"; TargetID := "r1"; Protocol := "ssh"; PolicyID := "p"; AllowClipboard := true;
                AllowFileTransfer := false; AllowDevTools := false; StartedAt := zero_time; tap := None; GuacID := ""; ctx := 0; ended := false |})] ex_state.

(** The next poll sees the second instance alone. *)
Definition ex_answer_two (n : nat) : Answers := ex_answers "r3" "SHA256:c" (Err tt).

Definition ex_polled : result string Summary * state :=
  SyncGroup id 5%Z ex_group (Ok [ex_ci "i-2"]) None None ex_answer_two (λ _, None) ex_two.

Definition ex_sum : Summary := {| Seen := 1; nHealthy := 1; Joined := 0; Left := 1; Retired := 0; HostKeyMismatches := 0; CertificateMismatches := 0 |}.

Lemma ex_two_ok : state_ok ex_two.
Proof.
  apply (history_ok id (λ l, reflexivity l)); [by apply fresh_ok|]. repeat constructor; cbn; try apply not_elem_of_nil.
  rewrite list_elem_of_singleton. discriminate.
Qed.

Lemma ex_two_inv : ∃ seen, Inv seen (reg ex_two).
Proof. eexists. apply (Inv_add [] NewRegistry); [apply Inv_new|reflexivity]. Qed.

Lemma pair_fst {A B} (p : A * B) a : p.1 = a → p = (a, p.2).
Proof. by destruct p; intros <-. Qed.

(** The session on the instance that left is ended. *)
Lemma poll_settles_witness : ∃ sum, ex_polled.1 = Ok sum ∧ lost_row "g1" ex_two ex_polled.2 "r1" ∧
  ∃ l c, live (reg ex_polled.2) !! "s1" = Some l ∧ contexts (reg ex_polled.2) !! ctx l = Some (Some c).
Proof.
  destruct ex_two_inv as [seen HI].
  assert (ex_polled.1 = Ok ex_sum) as Hok by (vm_compute; reflexivity).
  assert (lost_row "g1" ex_two ex_polled.2 "r1") as Hl.
  { eexists _, _. split; [vm_compute; reflexivity|]. split; [vm_compute; reflexivity|]. split; [vm_compute; reflexivity|]. left. split; vm_compute; reflexivity. }
  eexists. split; [exact Hok|]. split; [exact Hl|].
  assert (∃ l, live (reg ex_polled.2) !! "s1" = Some l ∧ TargetID l = "r1") as (l & Hll & Ht) by (eexists; split; vm_compute; reflexivity).
  destruct (poll_settles id 5%Z ex_group [ex_ci "i-2"] ex_answer_two (λ _, None) ex_two ex_sum ex_polled.2 seen (λ l, reflexivity l) ex_two_ok HI) as (_ & _ & Hend & _).
  - repeat constructor. apply not_elem_of_nil.
  - exact (pair_fst ex_polled (Ok ex_sum) Hok).
  - destruct (Hend "r1" Hl "s1" l Hll Ht) as [c Hc]. exists l, c. split; [exact Hll|exact Hc].
Defined.

(** * A failed statement partway through the termination marks *)

(** The next poll lists neither instance and its second statement fails; the
poll after it goes through. *)
Definition ex_half : state :=
  (SyncGroup id 7%Z ex_group (Ok []) None None ex_answer_two (λ _, None)
     (SyncGroup id 5%Z ex_group (Ok []) None None ex_answer_two (λ k, if bool_decide (k = "r1") then None else Some "disk full") ex_two).2).2.

(** MarkTerminated returns no rows when a statement fails, and later polls pass
over rows that are marked: a session on an instance marked before the failure
is never ended, though the instance is gone. *)
Theorem half_marked_stays :
  (SyncGroup id 5%Z ex_group (Ok []) None None ex_answer_two (λ k, if bool_decide (k = "r1") then None else Some "disk full") ex_two).1 = Err "disk full" ∧
  (∃ r, instances ex_half !! "r1" = Some r ∧ TerminatedAt r ≠ None ∧ derive r = false) ∧
  (∃ r, instances ex_half !! "r2" = Some r ∧ TerminatedAt r ≠ None) ∧
  (∃ l, live (reg ex_half) !! "s1" = Some l ∧ TargetID l = "r1" ∧ contexts (reg ex_half) !! ctx l = Some None).
Proof.
  split; [vm_compute; reflexivity|]. split; [|split].
  - eexists. split; [vm_compute; reflexivity|]. split; [vm_compute; discriminate|vm_compute; reflexivity].
  - eexists. split; [vm_compute; reflexivity|vm_compute; discriminate].
  - eexists. split; [vm_compute; reflexivity|]. split; vm_compute; reflexivity.
Qed.

(** * When a group polls *)

Module Schedule.
Local Open Scope Z_scope.

Record groupSchedule := { next : time; failures : nat; running : bool }.

Abbreviation schedule := (gmap string groupSchedule).

Definition maxBackoff : duration := 10 * Minute.

(** A group never seen: due at once. *)
Definition unseen : groupSchedule := {| next := zero_time; failures := 0; running := false |}.

Definition start (id : string) (now : time) (sc : schedule) : bool * schedule :=
  let g := default unseen (sc !! id) in
  if running g || Before now (next g) then (false, <[id := g]> sc)
  else (true, <[id := {| next := next g; failures := failures g; running := true |}]> sc).

(** [wait *= 2] on an int64. *)
Definition twice (w : duration) : duration := (w * 2 + 9223372036854775808) mod 18446744073709551616 - 9223372036854775808.

(** The loop that doubles, at most [n] times and while below the limit. *)
Fixpoint back_off (n : nat) (limit wait : duration) : duration :=
  match n with
  | O => wait
  | S n => if wait <? limit then back_off n limit (twice wait) else wait
  end.

Definition done (id : string) (interval : duration) (failed : bool) (now : time) (sc : schedule) : schedule :=
  let g := default unseen (sc !! id) in
  if negb failed then <[id := {| next := now + interval; failures := 0; running := false |}]> sc
  else
    let failures := S (failures g) in
    let limit := Z.max maxBackoff interval in
    <[id := {| next := now + Z.min (back_off failures limit interval) limit; failures := failures; running := false |}]> sc.

(** A pass of the scheduler asks each group; a poll that ends says how. *)
Inductive call := Start (id : string) (now : time) | Done (id : string) (interval : duration) (failed : bool) (now : time).

Definition exec1 (c : call) (sc : schedule) : schedule :=
  match c with Start id now => (start id now sc).2 | Done id interval failed now => done id interval failed now sc end.

Definition calls (l : list call) : schedule := foldl (λ sc c, exec1 c sc) ∅ l.

(** The failures of a group in a row, up to its last poll that ended. *)
Fixpoint in_a_row (id : string) (newest_first : list call) : nat :=
  match newest_first with
  | [] => 0
  | Done id' _ failed _ :: l => if bool_decide (id' = id) then (if failed then S (in_a_row id l) else 0) else in_a_row id l
  | Start _ _ :: l => in_a_row id l
  end.

(** Whether the last poll of a group that started has not ended. *)
Fixpoint under_way (id : string) (newest_first : list call) : bool :=
  match newest_first with
  | [] => false
  | Done id' _ _ _ :: l => if bool_decide (id' = id) then false else under_way id l
  | Start id' now :: l =>
      if bool_decide (id' = id) && (start id now (calls (rev l))).1 then true else under_way id l
  end.

Lemma twice_id w : 0 ≤ w < 4611686018427387904 → twice w = 2 * w.
Proof. intros. unfold twice. rewrite Z.mod_small; lia. Qed.

(** Doubling under a limit is one power of two. *)
Lemma back_off_spec limit n : ∀ wait, 0 < wait → limit ≤ 4611686018427387904 →
  Z.min (back_off n limit wait) limit = Z.min (wait * 2 ^ Z.of_nat n) limit.
Proof.
  induction n as [|n IH]; intros wait Hw Hl; cbn [back_off]; [by rewrite Z.mul_1_r|].
  rewrite Nat2Z.inj_succ, Z.pow_succ_r by lia. assert (1 ≤ 2 ^ Z.of_nat n) by (pose proof (Z.pow_pos_nonneg 2 (Z.of_nat n)); lia).
  destruct (Z.ltb_spec wait limit).
  - rewrite twice_id by lia. rewrite IH by lia. f_equal. lia.
  - rewrite !Z.min_r; [done|nia|lia].
Qed.

Lemma calls_snoc l c : calls (l ++ [c]) = exec1 c (calls l).
Proof. unfold calls. by rewrite foldl_app. Qed.

Lemma calls_state id l : failures (default unseen (calls l !! id)) = in_a_row id (rev l) ∧ running (default unseen (calls l !! id)) = under_way id (rev l).
Proof.
  induction l as [|c l [IH1 IH2]] using rev_ind; [done|]. rewrite calls_snoc, rev_unit. cbn [in_a_row under_way]. rewrite rev_involutive.
  destruct c as [id' now|id' interval failed now]; cbn [exec1].
  - unfold start. destruct (bool_decide_reflect (id' = id)) as [->|Hne]; cbn [andb].
    + destruct (running _ || Before _ _) eqn:E; cbn [fst snd]; rewrite lookup_insert_eq; cbn [default Datatypes.id failures running]; done.
    + destruct (running _ || _); cbn [snd]; by rewrite lookup_insert_ne.
  - unfold done. destruct (bool_decide_reflect (id' = id)) as [->|Hne].
    + destruct failed; cbn [negb]; rewrite lookup_insert_eq; cbn; [by rewrite IH1|done].
    + destruct failed; cbn [negb]; by rewrite lookup_insert_ne.
Qed.

End Schedule.

(** Whatever the scheduler was asked and told before, a poll that fails makes
its group wait its interval doubled once for each failure in a row, and no
longer than ten minutes or its interval; a poll that succeeds makes it wait the
interval.  The group is due exactly from then on, and while a poll of it is
under way no other starts. *)
Theorem polls_back_off l id interval failed now t :
  (10 * Second ≤ interval ≤ 3600 * Second)%Z →
  let sc := Schedule.done id interval failed now (Schedule.calls l) in
  let wait := (if failed then Z.min (interval * 2 ^ Z.of_nat (S (Schedule.in_a_row id (rev l)))) (Z.max Schedule.maxBackoff interval) else interval)%Z in
  ((Schedule.start id t sc).1 = true ↔ (now + wait ≤ t)%Z) ∧
  (Schedule.under_way id (rev l) = true → ∀ t', (Schedule.start id t' (Schedule.calls l)).1 = false).
Proof.
  intros Hi sc wait. destruct (Schedule.calls_state id l) as [Hf Hr]. split.
  - assert (sc !! id = Some {| Schedule.next := (now + wait)%Z; Schedule.failures := if failed then S (Schedule.in_a_row id (rev l)) else 0; Schedule.running := false |}) as Hsc.
    { subst sc wait. unfold Schedule.done. rewrite Hf. destruct failed; cbn [negb]; rewrite lookup_insert_eq; [|done].
      rewrite Schedule.back_off_spec; [done|unfold Second in Hi; lia|unfold Schedule.maxBackoff, Minute, Second in *; lia]. }
    unfold Schedule.start. rewrite Hsc. cbn [default Datatypes.id Schedule.running Schedule.next orb]. unfold Before.
    case_bool_decide; cbn [fst]; split; (done || lia).
  - intros Hu t'. unfold Schedule.start. rewrite Hr, Hu. done.
Qed.

Lemma polls_back_off_witness :
  let l := [Schedule.Start "g1" 0%Z; Schedule.Done "g1" (30 * Second)%Z true 10%Z; Schedule.Start "g1" (60 * Second + 10)%Z] in
  Schedule.under_way "g1" (rev l) = true ∧
  ((Schedule.start "g1" (200 * Second)%Z (Schedule.done "g1" (30 * Second)%Z true (70 * Second)%Z (Schedule.calls l))).1 = true ↔
   (70 * Second + 120 * Second ≤ 200 * Second)%Z).
Proof.
  intros l. split; [vm_compute; reflexivity|]. apply (polls_back_off l "g1" (30 * Second)%Z true (70 * Second)%Z (200 * Second)%Z).
  unfold Second. lia.
Defined.
