(* ===== verification/MysqlRelay.v ===== *)
(** The credential-holding hop of MySQL and MariaDB sessions:
src/internal/gateway/mysqlrelay/relay.go.

Both handshakes are go-mysql's; what is modelled is the repository's own part:
the configuration, the choice of TLS, the agreement on capability flags, the
reader that never runs past a packet, and the relay of commands.  A connection
is the list of the chunks its reads will find, in any segmentation; whether a
write goes through is an argument, and so are the constants of the protocol,
which go-mysql declares. *)
From S2P Require Import Prelude GoText NetIP.

(** * Configuration *)

Definition TLSPrefer : string := "prefer".
Definition TLSRequire : string := "require".
Definition TLSDisable : string := "disable".
Definition TLSVerifyFull : string := "verify-full".

Record Upstream := { Addr : string; uUser : string; Password : string; Database : string; uTLS : string; CA : string }.

Record Config := { Listen : string; User : string; Up : Upstream; DialTimeout : duration }.

Inductive ConfigError := BadTLS | BadCA | NoCA | BadAddr | NoUser.

(** Validate; [pem] is AppendCertsFromPEM. *)
Definition Validate (pem : string → bool) (c : Config) : result ConfigError Config :=
  let u := Up c in
  let tls := if bool_decide (uTLS u = "") then TLSPrefer else uTLS u in
  let? _ := refuse_if (negb (contains [TLSPrefer; TLSRequire; TLSDisable; TLSVerifyFull] tls)) BadTLS in
  let? _ := refuse_if (negb (bool_decide (CA u = "")) && negb (pem (CA u))) BadCA in
  let? _ := refuse_if (bool_decide (tls = TLSVerifyFull) && bool_decide (CA u = "")) NoCA in
  let? _ := refuse_if (bool_decide (SplitHostPort (Addr u) = None)) BadAddr in
  let? _ := refuse_if (bool_decide (uUser u = "")) NoUser in
  Ok {| Listen := if bool_decide (Listen c = "") then ":3306" else Listen c;
        User := if bool_decide (User c = "") then uUser u else User c;
        Up := {| Addr := Addr u; uUser := uUser u; Password := Password u; Database := Database u; uTLS := tls; CA := CA u |};
        DialTimeout := if (DialTimeout c <=? 0)%Z then (15 * Second)%Z else DialTimeout c |}.

(** A failed connect: the server's own refusal, or anything else. *)
Inductive DialErr := MyError | OtherErr.

(** dial: [connect] is what connecting with or without TLS comes to; the
booleans tried, in order, come back too. *)
Definition dial {A} (connect : bool → result DialErr A) (tls : string) : result DialErr A * list bool :=
  if bool_decide (tls = TLSDisable) then (connect false, [false])
  else if bool_decide (tls = TLSRequire) || bool_decide (tls = TLSVerifyFull) then (connect true, [true])
  else match connect true with
       | Err OtherErr => (connect false, [true; false])
       | r => (r, [true])
       end.

(** The TLS policy of a connection that uses it: the name and the roots
checked, or nothing. *)
Definition tlsConfig (u : Upstream) : option (string * string) :=
  if negb (bool_decide (uTLS u = TLSVerifyFull)) then None
  else Some (default "" (fst <$> SplitHostPort (Addr u)), CA u).

(** * Reading *)

Abbreviation conn := (list bytes).

(** One Read of at most [k] bytes; [None] is the end of the stream. *)
Definition cread (k : nat) (c : conn) : option (bytes * conn) :=
  if (k =? 0)%nat then Some ([], c)
  else match c with
       | [] => None
       | ch :: rest => if (k <? length ch)%nat then Some (take k ch, drop k ch :: rest) else Some (ch, rest)
       end.

(** io.ReadFull on a connection. *)
Fixpoint cread_full (n : nat) (c : conn) : option (bytes * conn) :=
  if (n =? 0)%nat then Some ([], c)
  else match c with
       | [] => None
       | ch :: rest =>
           if (n <? length ch)%nat then Some (take n ch, drop n ch :: rest)
           else '(b, r) ← cread_full (n - length ch) rest; Some (ch ++ b, r)
       end.

Record paced := { pConn : conn; hdr : bytes; hdrLeft : nat; payLeft : nat }.

Definition octet (h : bytes) (i : nat) : N := default 0%N (byte_N <$> h !! i).

(** The length a header gives its packet. *)
Definition packet_length (h : bytes) : nat :=
  N.to_nat (N.lor (N.lor (octet h 0) (N.shiftl (octet h 1) 8)) (N.shiftl (octet h 2) 16)).

Definition newPaced (c : conn) : paced := {| pConn := c; hdr := replicate 4 (byte_of 0); hdrLeft := 0; payLeft := 0 |}.

(** The header of the next packet, once the one before is handed out. *)
Definition refill (p : paced) : option paced :=
  if (hdrLeft p =? 0)%nat && (payLeft p =? 0)%nat then
    '(h, c) ← cread_full 4 (pConn p); Some {| pConn := c; hdr := h; hdrLeft := 4; payLeft := packet_length h |}
  else Some p.

(** The rest of Read: header bytes, then at most one Read of the payload. *)
Definition give (k : nat) (p : paced) : bytes * bool * paced :=
  let n := Nat.min k (hdrLeft p) in
  let b := take n (drop (4 - hdrLeft p) (hdr p)) in
  let left := (hdrLeft p - n)%nat in
  if (0 <? hdrLeft p)%nat && ((0 <? left)%nat || (k =? n)%nat) then
    (b, false, {| pConn := pConn p; hdr := hdr p; hdrLeft := left; payLeft := payLeft p |})
  else if (0 <? payLeft p)%nat then
    match cread (Nat.min (k - n) (payLeft p)) (pConn p) with
    | None => (b, true, {| pConn := pConn p; hdr := hdr p; hdrLeft := left; payLeft := payLeft p |})
    | Some (b2, c) => (b ++ b2, false, {| pConn := c; hdr := hdr p; hdrLeft := left; payLeft := payLeft p - length b2 |})
    end
  else (b, false, {| pConn := pConn p; hdr := hdr p; hdrLeft := left; payLeft := payLeft p |}).

(** paced.Read into a buffer of [k] bytes: the bytes, whether it failed, and
the reader; a header that never completes leaves the connection at its end. *)
Definition Read (k : nat) (p : paced) : bytes * bool * paced :=
  match refill p with
  | None => ([], true, {| pConn := []; hdr := hdr p; hdrLeft := 0; payLeft := 0 |})
  | Some p => give k p
  end.

Inductive ReadErr := EOF | OutOfFuel.

(** io.ReadFull over the paced reader. *)
Fixpoint ReadFull (fuel n : nat) (p : paced) : result ReadErr bytes * paced :=
  match fuel with
  | O => (Err OutOfFuel, p)
  | S fuel =>
      if (n =? 0)%nat then (Ok [], p)
      else
        let '(b, err, p) := Read n p in
        if (n <=? length b)%nat then (Ok b, p)
        else if (err : bool) then (Err EOF, p)
        else match ReadFull fuel (n - length b) p with
             | (Ok b', p) => (Ok (b ++ b'), p)
             | (Err e, p) => (Err e, p)
             end
  end.

(** Enough turns for any ReadFull on this reader. *)
Definition turns (p : paced) : nat := S (hdrLeft p + length (concat (pConn p)) + length (pConn p)).

(** * Relaying *)

Section mysql.
Context (COM_CHANGE_USER ERR_HEADER : ascii) (ER_NOT_SUPPORTED_YET : N).

(** writeErr: the bytes of the packet. *)
Definition writeErr (seq : N) (code : N) (msg : bytes) : bytes :=
  let body := ERR_HEADER :: byte_of (code mod 256) :: byte_of (code / 256 mod 256) :: to_bytes "#HY000" ++ msg in
  let n := N.of_nat (length body) in
  [byte_of (n mod 256); byte_of (n / 256 mod 256); byte_of (n / 65536 mod 256); byte_of seq] ++ body.

Definition refusal_packet : bytes := writeErr 1 ER_NOT_SUPPORTED_YET (to_bytes "re-authentication is not available through the gateway").

(** Whether a packet is the command that signs in anew. *)
Definition changes_user (h payload : bytes) : bool :=
  (octet h 3 =? 0)%N && (0 <? packet_length h)%nat && bool_decide (head payload = Some COM_CHANGE_USER).

(** relayCommands, until an error ends it: what the server and the client got.
[server_ok] and [client_ok] say whether a write goes through after what was
written before. *)
Fixpoint relayCommands (server_ok client_ok : bytes → bool) (fuel : nat) (p : paced) (server client : bytes) : option (bytes * bytes) :=
  match fuel with
  | O => None
  | S fuel =>
      match ReadFull (turns p) 4 p with
      | (Err _, _) => Some (server, client)
      | (Ok h, p) =>
          match ReadFull (turns p) (packet_length h) p with
          | (Err _, _) => Some (server, client)
          | (Ok payload, p) =>
              if changes_user h payload then
                if client_ok client then relayCommands server_ok client_ok fuel p server (client ++ refusal_packet)
                else Some (server, client)
              else if negb (server_ok server) then Some (server, client)
              else if negb (server_ok (server ++ h)) then Some (server ++ h, client)
              else relayCommands server_ok client_ok fuel p (server ++ h ++ payload) client
          end
      end
  end.

End mysql.

(** * The capability flags *)

(** framingMismatch; the flags are masks of go-mysql's constants. *)
Definition framingMismatch (requested framingMask clientFlags upstream : Z) : Z :=
  Z.land (Z.lxor (Z.land clientFlags requested) upstream) framingMask.

(** OnAuthSuccess: [None] is no objection. *)
Definition OnAuthSuccess (requested framingMask capability upCaps : Z) : option Z :=
  let diff := framingMismatch requested framingMask capability upCaps in
  if (diff =? 0)%Z then None else Some diff.

(** What GetCredential answers: the error it passes on, or who may sign in with
no password. *)
Inductive Credential := Refused (own : bool) | WrongUser | NoPassword.

Definition GetCredential (user : string) (upstreamErr : option DialErr) (username : string) : Credential :=
  match upstreamErr with
  | Some MyError => Refused true
  | Some OtherErr => Refused false
  | None => if negb (bool_decide (username = user)) then WrongUser else NoPassword
  end.

(** * What reading keeps *)

(** What the reader has still to hand out. *)
Definition pending (p : paced) : bytes := drop (4 - hdrLeft p) (hdr p) ++ concat (pConn p).

Definition reader_ok (p : paced) : Prop := length (hdr p) = 4%nat ∧ (hdrLeft p ≤ 4)%nat.

(** The bytes of the packet in hand that are left. *)
Definition left_of (p : paced) : nat := hdrLeft p + payLeft p.

Lemma cread_full_spec n : ∀ c, match cread_full n c with
  | Some (b, c') => b ++ concat c' = concat c ∧ length b = n
  | None => (length (concat c) < n)%nat
  end.
Proof.
  intros c. revert n. induction c as [|ch c IH]; intros n; cbn [cread_full]; destruct (Nat.eqb_spec n 0) as [->|Hn]; [done|cbn; lia|done|].
  destruct (Nat.ltb_spec n (length ch)) as [Hlt|Hge]; [cbn; rewrite app_assoc, take_drop, length_take; split; [done|lia]|].
  specialize (IH (n - length ch)%nat). destruct (cread_full _ c) as [[b c']|]; cbn; [|rewrite length_app; lia].
  destruct IH as [<- Hb]. rewrite length_app, <-app_assoc. split; [done|lia].
Qed.

Lemma cread_full_chunks n c : match cread_full n c with Some (_, c') => (length c' ≤ length c)%nat | None => True end.
Proof.
  revert n. induction c as [|ch c IH]; intros n; cbn [cread_full]; destruct (n =? 0)%nat; try done.
  destruct (n <? length ch)%nat; [cbn; lia|]. specialize (IH (n - length ch)%nat). destruct (cread_full _ c) as [[b c']|]; cbn; [lia|done].
Qed.

Lemma cread_spec k c : (0 < k)%nat → match cread k c with
  | Some (b, c') => b ++ concat c' = concat c ∧ (length b ≤ k)%nat ∧ (length b + length c > length c')%nat ∧ (length c' ≤ length c)%nat
  | None => c = []
  end.
Proof.
  intros Hk. unfold cread. destruct (Nat.eqb_spec k 0); [lia|]. destruct c as [|ch c]; [done|].
  destruct (Nat.ltb_spec k (length ch)) as [Hlt|Hge]; cbn; [rewrite app_assoc, take_drop, length_take; split_and!; [done|lia..]|split_and!; [done|lia..]].
Qed.

(** A refill leaves what is to hand out as it was, with a packet in hand. *)
Lemma refill_spec p : reader_ok p → match refill p with
  | Some p' => reader_ok p' ∧ pending p' = pending p ∧ (0 < left_of p')%nat ∧
      (left_of p ≠ 0%nat → p' = p) ∧ (left_of p = 0%nat → hdrLeft p' = 4%nat ∧ hdr p' = take 4 (pending p) ∧ payLeft p' = packet_length (take 4 (pending p)))
  | None => left_of p = 0%nat ∧ (length (pending p) < 4)%nat
  end.
Proof.
  intros [Hh Hl]. unfold refill, left_of. destruct (Nat.eqb_spec (hdrLeft p) 0) as [H0|H0], (Nat.eqb_spec (payLeft p) 0) as [H1|H1]; cbn [andb].
  2-4: split_and!; [done..|lia|done|lia].
  assert (pending p = concat (pConn p)) as Hp by (unfold pending; by rewrite H0, drop_ge by lia). rewrite Hp.
  pose proof (cread_full_spec 4 (pConn p)) as Hc. destruct (cread_full 4 (pConn p)) as [[h c]|]; cbn [mbind option_bind]; [|split; [lia|done]].
  destruct Hc as [Hc Hlh]. unfold reader_ok, pending. cbn [hdrLeft payLeft hdr pConn]. rewrite drop_0, <-Hc, take_app_length' by done.
  split_and!; try done; try lia.
Qed.

(** A Read hands out the next bytes, of the packet in hand alone. *)
Lemma give_spec k p b err p' : reader_ok p → (0 < k)%nat → (0 < left_of p)%nat → give k p = (b, err, p') →
  reader_ok p' ∧ b ++ pending p' = pending p ∧ (length b ≤ k)%nat ∧ (left_of p' + length b)%nat = left_of p ∧
  (err = true → pending p' = [] ∧ pConn p' = []) ∧ (err = false → turns p' < turns p)%nat.
Proof.
  intros [Hh Hl] Hk Hleft. unfold give. set (n := Nat.min k (hdrLeft p)). set (q := drop (4 - hdrLeft p) (hdr p)).
  assert (length q = hdrLeft p) as Hq by (unfold q; rewrite length_drop; lia).
  assert (take n q ++ drop (4 - (hdrLeft p - n)) (hdr p) = q) as Hb.
  { unfold q. replace (4 - (hdrLeft p - n))%nat with (4 - hdrLeft p + n)%nat by lia. rewrite <-drop_drop, take_drop. done. }
  assert (length (take n q) = n) as Hn by (rewrite length_take; lia). unfold reader_ok, pending, left_of, turns in *.
  destruct (Nat.ltb_spec 0 (hdrLeft p)) as [H0|H0]; cbn [andb];
    [destruct (Nat.ltb_spec 0 (hdrLeft p - n)) as [H1|H1]; cbn [orb]; [|destruct (Nat.eqb_spec k n) as [H2|H2]]|].
  1,2: intros [= <- <- <-]; cbn [hdr hdrLeft payLeft pConn]; rewrite app_assoc, Hb; split_and!; try done; try lia.
  all: destruct (Nat.ltb_spec 0 (payLeft p)) as [H3|H3]; [|try lia].
  1,3: pose proof (cread_spec (Nat.min (k - n) (payLeft p)) (pConn p)) as Hc; destruct (cread _ _) as [[b2 c]|]; intros [= <- <- <-];
    cbn [hdr hdrLeft payLeft pConn];
    [destruct Hc as (Hc & Hk2 & Ht & Ht2); [lia|]; rewrite <-Hc|rewrite Hc by lia; cbn [concat]; rewrite ?app_nil_r].
  all: try (intros [= <- <- <-]; cbn [hdr hdrLeft payLeft pConn]).
  all: assert (drop (4 - (hdrLeft p - n)) (hdr p) = []) as Hd by (apply drop_ge; lia); rewrite Hd in *; rewrite ?app_nil_r in Hb; rewrite ?Hb.
  all: cbn [app]; rewrite ?length_app, ?Hq, ?app_nil_r, <-?app_assoc; split_and!; try done; try lia.
Qed.

Lemma Read_spec k p b err p' : reader_ok p → (0 < k)%nat → Read k p = (b, err, p') →
  reader_ok p' ∧ (length b ≤ k)%nat ∧
  (err = false → b ++ pending p' = pending p ∧
     (length b ≤ if (left_of p =? 0)%nat then 4 + packet_length (take 4 (pending p)) else left_of p)%nat).
Proof.
  intros Hp Hk. unfold Read. pose proof (refill_spec p Hp) as Hr. destruct (refill p) as [q|].
  - destruct Hr as (Hq & Hpend & Hl & Hsame & Hnew). intros Hg. destruct (give_spec _ _ _ _ _ Hq Hk Hl Hg) as (H1 & H2 & H3 & H4 & _). split; [done|]. split; [done|].
    intros _. split; [congruence|]. destruct (Nat.eqb_spec (left_of p) 0) as [E|E]; [|rewrite (Hsame E) in H4; lia].
    destruct (Hnew E) as (E1 & _ & E2). unfold left_of in H4 at 2. lia.
  - intros [= <- <- <-]. destruct Hp. split; [split; [done|cbn; lia]|]. split; [cbn; lia|done].
Qed.

(** io.ReadFull within the packet in hand gives exactly the next bytes. *)
Lemma ReadFull_within fuel : ∀ n p, reader_ok p → (turns p ≤ fuel)%nat → (n ≤ left_of p)%nat →
  if (n <=? length (pending p))%nat then ∃ p', ReadFull fuel n p = (Ok (take n (pending p)), p') ∧ reader_ok p' ∧ pending p' = drop n (pending p) ∧ (left_of p' + n)%nat = left_of p
  else ∃ p', ReadFull fuel n p = (Err EOF, p').
Proof.
  induction fuel as [|fuel IH]; intros n p Hp Hf Hn; [unfold turns in Hf; lia|]. cbn [ReadFull].
  destruct (Nat.eqb_spec n 0) as [->|Hn0]; [exists p; rewrite drop_0; split_and!; [done..|lia]|].
  unfold Read. pose proof (refill_spec p Hp) as Hr. destruct (refill p) as [q|]; [|lia]. destruct Hr as (_ & _ & _ & Hsame & _). rewrite (Hsame ltac:(lia)). clear q Hsame.
  destruct (give n p) as [[b err] p1] eqn:Hg. apply give_spec in Hg as (H1 & H2 & H3 & H4 & H5 & H6); [|done|lia..].
  destruct (Nat.leb_spec n (length b)) as [Hb|Hb].
  - assert (length b = n) as Hbn by lia. rewrite <-H2, length_app. destruct (Nat.leb_spec n (length b + length (pending p1))); [|lia].
    exists p1. rewrite take_app_length', drop_app_length' by done. split_and!; [done..|lia].
  - destruct err.
    + destruct (H5 eq_refl) as [H7 _]. rewrite <-H2, H7, app_nil_r. destruct (Nat.leb_spec n (length b)); [lia|eauto].
    + specialize (IH (n - length b)%nat p1 H1 ltac:(specialize (H6 eq_refl); lia) ltac:(lia)). rewrite <-H2, length_app.
      destruct (Nat.leb_spec (n - length b) (length (pending p1))), (Nat.leb_spec n (length b + length (pending p1))); try lia.
      * destruct IH as (p2 & -> & Hok & Hd & Hl). exists p2. rewrite take_app_ge, drop_app_ge by lia. split_and!; [done..|lia].
      * destruct IH as (p2 & ->). eauto.
Qed.

(** At a boundary, the four bytes of a header, and then the packet is in hand. *)
Lemma ReadFull_header p : reader_ok p → left_of p = 0%nat →
  if (4 <=? length (pending p))%nat then ∃ p', ReadFull (turns p) 4 p = (Ok (take 4 (pending p)), p') ∧ reader_ok p' ∧ pending p' = drop 4 (pending p) ∧
    left_of p' = packet_length (take 4 (pending p))
  else ∃ p', ReadFull (turns p) 4 p = (Err EOF, p').
Proof.
  intros Hp Hl. pose proof (refill_spec p Hp) as Hr. destruct (refill p) as [q|] eqn:Eq.
  - destruct Hr as (Hq & Hpq & Hlq & _ & Hnew). destruct (Hnew Hl) as (E1 & E2 & E3).
    assert (ReadFull (turns p) 4 p = ReadFull (turns p) 4 q) as ->.
    { unfold turns. cbn [ReadFull Nat.eqb]. unfold Read. rewrite Eq. unfold refill. by rewrite E1. }
    assert (4 ≤ length (pending p))%nat as H4.
    { destruct Hq as [Hq _]. rewrite E2, length_take in Hq. lia. }
    assert (turns q ≤ turns p)%nat as Ht.
    { unfold refill, left_of in *. destruct (Nat.eqb_spec (hdrLeft p) 0); [|lia]. destruct (Nat.eqb_spec (payLeft p) 0); [|lia]. cbn [andb] in Eq.
      pose proof (cread_full_spec 4 (pConn p)) as Hc. pose proof (cread_full_chunks 4 (pConn p)) as Hch. destruct (cread_full 4 (pConn p)) as [[h c]|]; [|done].
      injection Eq as <-. destruct Hc as [Hc Hh]. unfold turns. cbn [hdrLeft pConn]. rewrite <-Hc, length_app. lia. }
    pose proof (ReadFull_within (turns p) 4 q Hq Ht ltac:(unfold left_of; lia)) as Hw. rewrite Hpq in Hw. destruct (Nat.leb_spec 4 (length (pending p))); [|lia].
    destruct Hw as (p' & -> & H1 & H2 & H3). exists p'. split_and!; [done..|]. unfold left_of in H3 at 2. lia.
  - destruct Hr as [_ Hr]. destruct (Nat.leb_spec 4 (length (pending p))); [lia|]. unfold turns. cbn [ReadFull Nat.eqb]. unfold Read. rewrite Eq. cbn. eauto.
Qed.

(** * The packets of a stream *)

Fixpoint packets_ (fuel : nat) (l : bytes) : list (bytes * bytes) :=
  match fuel with
  | O => []
  | S fuel =>
      let h := take 4 l in
      let rest := drop 4 l in
      if (length l <? 4)%nat || (length rest <? packet_length h)%nat then []
      else (h, take (packet_length h) rest) :: packets_ fuel (drop (packet_length h) rest)
  end.

(** The complete packets at the front of a stream, header and payload. *)
Definition packets (l : bytes) : list (bytes * bytes) := packets_ (S (length l)) l.

Definition flatten (ps : list (bytes * bytes)) : bytes := concat ((λ hb, hb.1 ++ hb.2) <$> ps).

Definition whole (hb : bytes * bytes) : Prop := length hb.1 = 4%nat ∧ length hb.2 = packet_length hb.1.

Lemma packets_fuel f : ∀ f' l, (length l < f)%nat → (length l < f')%nat → packets_ f l = packets_ f' l.
Proof.
  induction f as [|f IH]; intros [|f'] l Hf Hf'; try lia. cbn [packets_]. destruct (Nat.ltb_spec (length l) 4); cbn [orb]; [done|].
  destruct (_ <? _)%nat; [done|]. f_equal. apply IH; rewrite !length_drop; lia.
Qed.

Lemma packets_cons h b k : length h = 4%nat → length b = packet_length h → packets (h ++ b ++ k) = (h, b) :: packets k.
Proof.
  intros Hh Hb. unfold packets. cbn [packets_]. rewrite take_app_length', drop_app_length' by done. rewrite !length_app.
  destruct (Nat.ltb_spec (length h + (length b + length k)) 4), (Nat.ltb_spec (length b + length k) (packet_length h)); cbn [orb]; try lia.
  rewrite take_app_length', drop_app_length' by done. f_equal. apply (packets_fuel _ (S (length k))); lia.
Qed.

Lemma packets_flatten ps : Forall whole ps → packets (flatten ps) = ps.
Proof.
  induction 1 as [|[h b] ps [Hh Hb] _ IH]; [done|]. unfold flatten in *. cbn [fmap list_fmap concat fst snd]. rewrite <-app_assoc, packets_cons by done. by rewrite IH.
Qed.

Lemma packets_whole l : Forall whole (packets l) ∧ flatten (packets l) `prefix_of` l.
Proof.
  unfold packets. generalize (S (length l)) as f. intros f. revert l. induction f as [|f IH]; intros l; [split; [constructor|apply prefix_nil]|]. cbn [packets_].
  destruct (Nat.ltb_spec (length l) 4), (Nat.ltb_spec (length (drop 4 l)) (packet_length (take 4 l))); cbn [orb]; try (split; [constructor|apply prefix_nil]).
  destruct (IH (drop (packet_length (take 4 l)) (drop 4 l))) as [H1 [k H2]]. split.
  - constructor; [|done]. split; cbn [fst snd]; rewrite length_take; lia.
  - unfold flatten in *. cbn [fmap list_fmap concat fst snd]. exists k. rewrite <-!app_assoc, <-H2, take_drop. by rewrite take_drop.
Qed.

Lemma packets_prefix l k : packets l `prefix_of` packets (l ++ k).
Proof.
  destruct (packets_whole l) as [Hw [r Hr]]. rewrite Hr at 2. rewrite <-app_assoc. remember (packets l) as ps eqn:E. clear E Hr.
  induction Hw as [|[h b] ps [Hh Hb] _ IH]; [apply prefix_nil|]. unfold flatten in *. cbn [fmap list_fmap concat fst snd].
  rewrite <-!app_assoc, packets_cons by done. by apply prefix_cons.
Qed.

(** * What the relay forwards *)

Section forwards.
Context (COM_CHANGE_USER ERR_HEADER : ascii) (ER_NOT_SUPPORTED_YET : N) (server_ok client_ok : bytes → bool).

(** Every packet but a command, so of sequence number 0, whose first byte is
the one that signs in anew. *)
Definition allowed (hb : bytes * bytes) : bool :=
  negb (bool_decide (hb.1 !! 3%nat = Some (byte_of 0)) && bool_decide (head hb.2 = Some COM_CHANGE_USER)).

Lemma allowed_spec h b : length h = 4%nat → length b = packet_length h → allowed (h, b) = negb (changes_user COM_CHANGE_USER h b).
Proof.
  intros Hh Hb. unfold allowed, changes_user. cbn [fst snd]. f_equal. destruct h as [|x0 [|x1 [|x2 [|x3 [|]]]]]; try done. cbn [lookup list_lookup].
  unfold octet. cbn [lookup list_lookup fmap option_fmap option_map default Datatypes.id].
  assert (bool_decide (Some x3 = Some (byte_of 0)) = (byte_N x3 =? 0)%N) as ->.
  { destruct (N.eqb_spec (byte_N x3) 0) as [E|E]; [apply bool_decide_eq_true_2; by rewrite <-E, byte_of_byte_N|apply bool_decide_eq_false_2].
    intros [= ->]. by apply E. }
  rewrite <-Hb. destruct (byte_N x3 =? 0)%N; [|done]. cbn [andb]. by destruct b.
Qed.

Definition refused_count (ps : list (bytes * bytes)) : nat := length (List.filter (λ hb, negb (allowed hb)) ps).

Definition refusals (n : nat) : bytes := concat (replicate n (refusal_packet ERR_HEADER ER_NOT_SUPPORTED_YET)).

Lemma relay_spec fuel : ∀ p server client, reader_ok p → left_of p = 0%nat → (length (pending p) < fuel)%nat →
  ∃ s n, relayCommands COM_CHANGE_USER ERR_HEADER ER_NOT_SUPPORTED_YET server_ok client_ok fuel p server client = Some (server ++ s, client ++ refusals n) ∧
    s `prefix_of` flatten (List.filter allowed (packets (pending p))) ∧ (n ≤ refused_count (packets (pending p)))%nat ∧
    ((∀ x, server_ok x = true) → (∀ x, client_ok x = true) →
       s = flatten (List.filter allowed (packets (pending p))) ∧ n = refused_count (packets (pending p))).
Proof.
  induction fuel as [|fuel IH]; intros p server client Hp Hl Hf; [lia|]. cbn [relayCommands].
  assert (∀ x : option (bytes * bytes), x = Some (server, client) → packets (pending p) = [] → ∃ s n, x = Some (server ++ s, client ++ refusals n) ∧
    s `prefix_of` flatten (List.filter allowed (packets (pending p))) ∧ (n ≤ refused_count (packets (pending p)))%nat ∧
    ((∀ x, server_ok x = true) → (∀ x, client_ok x = true) → s = flatten (List.filter allowed (packets (pending p))) ∧ n = refused_count (packets (pending p)))) as Hend.
  { intros x -> ->. exists [], 0%nat. unfold refusals. cbn. rewrite !app_nil_r. split_and!; [done|done|done|done]. }
  pose proof (ReadFull_header p Hp Hl) as Hh. destruct (Nat.leb_spec 4 (length (pending p))) as [H4|H4].
  2:{ destruct Hh as [p' ->]. apply Hend; [done|]. unfold packets. cbn [packets_]. by destruct (Nat.ltb_spec (length (pending p)) 4); [|lia]. }
  destruct Hh as (p1 & -> & Hp1 & Hd1 & Hl1). pose proof (ReadFull_within (turns p1) _ p1 Hp1 ltac:(lia) (Nat.eq_le_incl _ _ (eq_sym Hl1))) as Hb.
  rewrite Hd1 in Hb. destruct (Nat.leb_spec (packet_length (take 4 (pending p))) (length (drop 4 (pending p)))) as [H5|H5].
  2:{ destruct Hb as [p' ->]. apply Hend; [done|]. unfold packets. cbn [packets_].
      destruct (Nat.ltb_spec (length (pending p)) 4); [lia|]. cbn [orb]. by destruct (Nat.ltb_spec (length (drop 4 (pending p))) (packet_length (take 4 (pending p)))); [|lia]. }
  destruct Hb as (p2 & -> & Hp2 & Hd2 & Hl2). clear Hend.
  set (h := take 4 (pending p)) in *. set (b := take (packet_length h) (drop 4 (pending p))) in *.
  assert (pending p = h ++ b ++ pending p2) as Hpend by (unfold h, b; rewrite Hd2, take_drop, take_drop; done).
  assert (length h = 4%nat) as Hh by (unfold h; rewrite length_take; lia).
  assert (length b = packet_length h) as Hb by (unfold b; rewrite length_take; lia).
  assert (length (pending p2) < fuel)%nat as Hf2 by (rewrite Hpend, !length_app in Hf; lia).
  assert (left_of p2 = 0%nat) as Hl3 by lia.
  rewrite Hpend, packets_cons by done. unfold refused_count in *. cbn [List.filter].
  rewrite !(allowed_spec h b) by done.
  destruct (changes_user COM_CHANGE_USER h b); cbn [negb].
  - destruct (client_ok client) eqn:Ek; [|exists [], 0%nat; rewrite !app_nil_r; split_and!; [done|apply prefix_nil|lia|intros _ H; by rewrite H in Ek]].
    destruct (IH p2 server (client ++ refusal_packet ERR_HEADER ER_NOT_SUPPORTED_YET) Hp2 Hl3 Hf2) as (s & n & -> & H1 & H2 & H3).
    exists s, (S n). split; [by rewrite <-app_assoc|]. split; [done|]. split; [cbn [length]; lia|]. intros Hs Hc. destruct (H3 Hs Hc) as [-> ->]. done.
  - destruct (server_ok server) eqn:E1; cbn [negb]; [|exists [], 0%nat; rewrite !app_nil_r; split_and!; [done|apply prefix_nil|lia|intros H; by rewrite H in E1]].
    destruct (server_ok (server ++ h)) eqn:E2; cbn [negb].
    + destruct (IH p2 (server ++ h ++ b) client Hp2 Hl3 Hf2) as (s & n & -> & H1 & H2 & H3). exists (h ++ b ++ s), n.
      split; [by rewrite <-!app_assoc|]. unfold flatten. cbn [fmap list_fmap concat fst snd]. rewrite <-app_assoc.
      split; [by do 2 apply prefix_app|]. split; [done|]. intros Hs Hc. destruct (H3 Hs Hc) as [-> ->]. done.
    + exists h, 0%nat. rewrite !app_nil_r. split; [done|]. split; [unfold flatten; cbn [fmap list_fmap concat fst snd]; rewrite <-app_assoc; by apply prefix_app_r|].
      split; [lia|]. intros H. by rewrite H in E2.
Qed.

End forwards.

(** The reads of the handshake, of these sizes, when none fails. *)
Fixpoint reads (ks : list nat) (p : paced) : option (list bytes * paced) :=
  match ks with
  | [] => Some ([], p)
  | k :: ks => let '(b, err, p) := Read k p in if (err : bool) then None else '(bs, p) ← reads ks p; Some (b :: bs, p)
  end.

Lemma reads_spec ks : ∀ p bs p', reader_ok p → Forall (λ k, 0 < k)%nat ks → reads ks p = Some (bs, p') → reader_ok p' ∧ concat bs ++ pending p' = pending p.
Proof.
  induction ks as [|k ks IH]; intros p bs p' Hp Hk; cbn [reads]; [by intros [= <- <-]|]. apply Forall_cons in Hk as [Hk Hks].
  destruct (Read k p) as [[b err] p1] eqn:E. apply Read_spec in E as (H1 & _ & H2); [|done..]. destruct err; [done|]. destruct (H2 eq_refl) as [<- _].
  destruct (reads ks p1) as [[bs' p2]|] eqn:Er; [|done]. intros [= <- <-]. destruct (IH _ _ _ H1 Hks Er) as [H3 <-]. cbn [concat]. by rewrite app_assoc.
Qed.

Lemma filter_whole f ps : Forall whole ps → Forall whole (List.filter f ps).
Proof. rewrite !Forall_forall. intros H x [Hx _]%list_elem_of_In%filter_In. apply H. by apply list_elem_of_In. Qed.

(** C29. Whatever way the client's bytes arrive in and the handshake reads them, the
reader loses, repeats and holds back nothing, and no Read runs past its packet.
Once the handshake stopped at a packet's end, the server receives of the rest
exactly the client's complete packets in order, without the commands that sign
in anew, each of which the client is answered with a refusal; where a write
fails, a prefix of that. *)
Theorem relay_forwards (COM ERR : ascii) (ER : N) server_ok client_ok chunks ks bs p :
  Forall (λ k, 0 < k)%nat ks → reads ks (newPaced chunks) = Some (bs, p) → left_of p = 0%nat →
  let rest := pending p in
  concat chunks = concat bs ++ rest ∧
  (∀ k b p', (0 < k)%nat → Read k p = (b, false, p') → b `prefix_of` rest ∧ (length b ≤ 4 + packet_length (take 4 rest))%nat) ∧
  ∃ server n, relayCommands COM ERR ER server_ok client_ok (S (length rest)) p [] [] = Some (server, refusals ERR ER n) ∧
    packets server `prefix_of` List.filter (allowed COM) (packets rest) ∧
    (n ≤ refused_count COM (packets rest))%nat ∧
    ((∀ x, server_ok x = true) → (∀ x, client_ok x = true) →
       packets server = List.filter (allowed COM) (packets rest) ∧ n = refused_count COM (packets rest)).
Proof.
  intros Hk Hr Hl rest. assert (reader_ok (newPaced chunks)) as Hok by (split; [done|cbn; lia]). destruct (reads_spec _ _ _ _ Hok Hk Hr) as [Hp Hcat].
  split; [done|]. split.
  { intros k b p' Hk' HR. apply Read_spec in HR as (_ & _ & H2); [|done..]. destruct (H2 eq_refl) as [H3 H4]. rewrite Hl in H4. split; [by eexists|done]. }
  destruct (relay_spec COM ERR ER server_ok client_ok (S (length rest)) p [] [] Hp Hl (Nat.lt_succ_diag_r _)) as (s & n & E & H1 & H2 & H3).
  exists s, n. rewrite E. split; [done|]. fold rest in H1, H2, H3.
  assert (packets (flatten (List.filter (allowed COM) (packets rest))) = List.filter (allowed COM) (packets rest)) as Hpf.
  { apply packets_flatten, filter_whole, packets_whole. }
  split; [|split; [done|]].
  - rewrite <-Hpf. destruct H1 as [k ->]. apply packets_prefix.
  - intros Hs Hc. destruct (H3 Hs Hc) as [-> ->]. by rewrite Hpf.
Qed.

(** A sign-in packet read in two reads; then a query, a change of user and a
quit, in three segments that cut through them. *)
Definition ex_stream : list bytes :=
  let b := λ l, byte_of <$> l in
  [b [2; 0; 0; 1; 65; 66; 2; 0; 0]%N; b [0; 3; 83; 1]%N; b [0; 0; 0; 17; 1; 0; 0; 0; 1]%N].

Definition ex_reader : paced := default (newPaced []) (snd <$> reads [5%nat; 100%nat] (newPaced ex_stream)).

Definition ex_read : list bytes := default [] (fst <$> reads [5%nat; 100%nat] (newPaced ex_stream)).

Lemma relay_forwards_witness : reads [5%nat; 100%nat] (newPaced ex_stream) = Some (ex_read, ex_reader) ∧ left_of ex_reader = 0%nat ∧
  ∃ server, relayCommands (byte_of 17) (byte_of 255) 1235 (λ _, true) (λ _, true) (S (length (pending ex_reader))) ex_reader [] []
    = Some (server, refusals (byte_of 255) 1235 1) ∧ length (packets server) = 2%nat.
Proof.
  split; [vm_compute; reflexivity|]. split; [vm_compute; reflexivity|].
  destruct (relay_forwards (byte_of 17) (byte_of 255) 1235 (λ _, true) (λ _, true) ex_stream [5%nat; 100%nat] ex_read ex_reader)
    as (_ & _ & server & n & E & _ & _ & H); [by repeat constructor; lia|vm_compute; reflexivity|vm_compute; reflexivity|].
  destruct H as [H1 H2]; [done|done|]. exists server. assert (n = 1%nat) as Hn by (rewrite H2; vm_compute; reflexivity). rewrite Hn in E. split; [exact E|].
  rewrite H1. vm_compute. reflexivity.
Defined.

(** * Configuration and handshake *)

(** Only prefer ever connects in plain, and only after a failure that is not the
server's own refusal; a validated verify-full checks the name and a CA. *)
Lemma tls_kept {A} (connect : bool → result DialErr A) pem c c' : Validate pem c = Ok c' →
  (false ∈ (dial connect (uTLS (Up c'))).2 → uTLS (Up c') = TLSDisable ∨ (uTLS (Up c') = TLSPrefer ∧ connect true = Err OtherErr)) ∧
  (uTLS (Up c') = TLSVerifyFull → ∃ host, tlsConfig (Up c') = Some (host, CA (Up c')) ∧ pem (CA (Up c')) = true).
Proof.
  unfold Validate. intros Hv. repeat (apply rbind_Ok in Hv as ([] & ?%refuse_if_ok & Hv)). apply Ok_inj in Hv. subst c'. cbn [Up uTLS CA].
  set (tls := if bool_decide (uTLS (Up c) = "") then TLSPrefer else uTLS (Up c)) in *. split.
  - unfold dial. destruct (bool_decide_reflect (tls = TLSDisable)) as [?|Hd]; [by left|].
    destruct (bool_decide (tls = TLSRequire) || bool_decide (tls = TLSVerifyFull)) eqn:Et; [intros [=]%list_elem_of_singleton|]. bool_simpl.
    assert (tls = TLSPrefer) as ->.
    { assert (contains [TLSPrefer; TLSRequire; TLSDisable; TLSVerifyFull] tls = true) as Hc by (by destruct (contains _ _)).
      apply contains_spec in Hc. rewrite !elem_of_cons, elem_of_nil in Hc. naive_solver. }
    destruct (connect true) as [|[]]; [intros [=]%list_elem_of_singleton..|]. by right.
  - intros Htls. unfold tlsConfig. cbn [uTLS Addr CA]. rewrite Htls in *. rewrite bool_decide_eq_true_2 by done. cbn [negb]. eexists. split; [done|].
    destruct (pem (CA (Up c))); [done|]. by destruct (bool_decide (CA (Up c) = "")).
Qed.

(** No objection after sign-in: the two sides hold the same value of every flag
that frames packets. *)
Lemma framing_agrees requested framingMask capability upCaps : OnAuthSuccess requested framingMask capability upCaps = None ↔
  ∀ i, (0 ≤ i)%Z → Z.testbit framingMask i = true → Z.testbit (Z.land capability requested) i = Z.testbit upCaps i.
Proof.
  unfold OnAuthSuccess, framingMismatch. destruct (Z.eqb_spec (Z.land (Z.lxor (Z.land capability requested) upCaps) framingMask) 0) as [E|E].
  - split; [|done]. intros _ i Hi Hm. apply (f_equal (λ z, Z.testbit z i)) in E. rewrite Z.land_spec, Z.lxor_spec, Z.bits_0, Hm, andb_true_r in E. by destruct (Z.testbit (Z.land capability requested) i), (Z.testbit upCaps i).
  - split; [done|]. intros H. exfalso. apply E. apply Z.bits_inj_0. intros i. destruct (Z.ltb_spec i 0); [by apply Z.testbit_neg_r|].
    rewrite Z.land_spec, Z.lxor_spec. destruct (Z.testbit framingMask i) eqn:Em; [|apply andb_false_r]. by rewrite H, xorb_nilpotent.
Qed.
