(* ===== verification/TargetForm.v ===== *)
(** What a target may be: the fields an administrator writes and their check,
src/internal/target/target.go, with the private space and the origins of an
application.  The text of an error is not kept, only which check made it.

The parser of URLs and the reader of PEM bundles are arguments; what a URL's
host and port are is computed here.  Go visits a map in no fixed order, so
which of several bad ports or tags an error is about is not fixed either. *)
From S2P Require Import Prelude GoText Strconv Json Protocol Textsafe NetIP Addresses Apprelay Connect.
Local Open Scope Z_scope.

(** * Data *)

Definition CredentialProtocols : list string := [SSH; RDP; VNC; WinRM; Protocol.Database].

Definition TLSVerifyFull : string := "verify-full".
Definition TLSModes : list string := ["disable"; "prefer"; "require"; TLSVerifyFull].
Definition ValidTLSMode (m : string) : bool := contains TLSModes m.
Definition ValidEngine (e : string) : bool := bool_decide (is_Some (EngineDefaultPorts !! e)).

Definition Linux : string := "linux".
Definition Windows : string := "windows".
Definition OtherOS : string := "other".
Definition StatusActive : string := "active".
Definition StatusDisabled : string := "disabled".

Definition MaxNameLen : nat := 64.
Definition MaxNotesLen : nat := 4000.
Definition MaxTags : nat := 32.
Definition MaxTagLen : nat := 64.
Definition MaxAppEndpoints : nat := 31.
Definition MaxEndpointNameLen : nat := 64.
Definition MaxPrivateEntries : nat := 64.

Definition DependenciesPublic : string := "public".
Definition DependenciesOrigins : string := "origins".

Record AppPrivate := { Networks : list string; Hosts : list string }.
Record AppEndpoint := { eName : string; eURL : string }.

(** [p.Entries()], of no allowance too. *)
Definition Entries (p : option AppPrivate) : list string :=
  match p with None => [] | Some p => Networks p ++ Hosts p end.

(** The editable fields of a Target, which are those of a request's body. *)
Record Write := {
  wName : string; wAddress : string; wEngine : string; wEngineVersion : string; wRetentionDays : option Z; wDatabaseName : string;
  wTLSMode : string; wTLSCA : string; wAppUpstream : string; wAppEndpoints : list AppEndpoint; wAppDependencies : string;
  wAppPrivate : option AppPrivate; wOSFamily : string; wPorts : gmap string Z; wCapabilities : list string;
  wTags : gmap string string; wStatus : string; wNotes : string; wCredentials : gmap string string;
}.

(** The errors of the package; [ErrInvalid] with the check that failed. *)
Inductive Error :=
| ErrNotFound
| ErrDuplicate
| ErrInvalid (why : string)
| ErrInvalidCredential
| ErrFingerprintMismatch
| ErrNoPendingHostKey
| ErrNoPendingCertificate
| ErrDatabase.

Definition IsDatabase (w : Write) : bool := negb (bool_decide (wEngine w = "")).
Definition IsApplication (w : Write) : bool := negb (bool_decide (wAppUpstream w = "")).

Definition Kind (w : Write) : string :=
  if IsDatabase w then KindDatabase else if IsApplication w then KindApplication else KindHost.

(** [t.Port(p)] and [t.EffectivePorts()]. *)
Definition Port_ (w : Write) (p : string) : Z :=
  let fallback := if bool_decide (p = Protocol.Database) then default 0 (EngineDefaultPorts !! wEngine w) else default 0 (DefaultPorts !! p) in
  match wPorts w !! p with
  | Some n => if 0 <? n then n else fallback
  | None => fallback
  end.

Definition EffectivePorts (w : Write) : gmap string Z :=
  list_to_map ((λ p, (p, Port_ w p)) <$> [SSH; RDP; VNC; WinRM]).

(** * Addresses *)

Definition in_byte (lo hi : N) (a : ascii) : bool := ((lo <=? byte_N a) && (byte_N a <=? hi))%N.
Definition alnum (a : ascii) : bool := in_byte 97 122 a || in_byte 65 90 a || in_byte 48 57 a.
Definition hyphen : ascii := byte_of 45.

(** The parts of [s] between its dots. *)
Fixpoint labels (s cur : bytes) : list bytes :=
  match s with
  | [] => [cur]
  | c :: s => if bool_decide (c = dot) then cur :: labels s [] else labels s (cur ++ [c])
  end.

(** One label of [hostnameRe]: a letter or digit, or two of them with up to 62
letters, digits and hyphens between. *)
Definition label_ok (l : bytes) : bool :=
  bool_decide (1 ≤ length l ≤ 64)%nat && forallb (λ a, alnum a || bool_decide (a = hyphen)) l
  && match head l with Some a => alnum a | None => false end && match last l with Some a => alnum a | None => false end.

(** [hostnameRe.MatchString]: labels between dots, the last dot optional. *)
Definition hostname (s : bytes) : bool :=
  let ls := labels s [] in
  let ls := match last ls with Some [] => removelast ls | _ => ls end in
  negb (bool_decide (ls = [])) && forallb label_ok ls.

(** [strings.ContainsAny] of a set of ASCII characters. *)
Definition ContainsAny (s chars : string) : bool := existsb (λ a, bool_decide (a ∈ to_bytes chars)) (to_bytes s).

Definition address_breaks : string := of_bytes (byte_of <$> [32; 9; 47; 92; 64; 91; 93]%N).

Definition ValidAddress (s : string) : bool :=
  if bool_decide (s = "") || bool_decide (253 < String.length s)%nat || ContainsAny s address_breaks then false
  else if negb (bool_decide (ParseIP s = [])) then true
  else hostname (to_bytes s).

(** * Origins *)

(** url.URL, as far as the code reads one; [User] is whether it has one. *)
Record URL := {
  Scheme : string; uHost : string; Opaque : string; User : bool; Path : string; RawQuery : string; ForceQuery : bool; Fragment : string;
}.

(** The URL the code builds of a scheme and a host. *)
Definition plain (scheme host : string) : URL :=
  {| Scheme := scheme; uHost := host; Opaque := ""; User := false; Path := ""; RawQuery := ""; ForceQuery := false; Fragment := "" |}.

(** [validOptionalPort] and [splitHostPort] of net/url. *)
Definition validOptionalPort (b : bytes) : bool :=
  match b with
  | [] => true
  | c :: b => bool_decide (c = colon) && forallb is_digit b
  end.

Definition unbracket (h : bytes) : bytes :=
  if bool_decide (head h = Some lbracket) && bool_decide (last h = Some rbracket) && bool_decide (2 ≤ length h)%nat
  then removelast (tail h) else h.

Definition url_split (hostPort : bytes) : bytes * bytes :=
  match last_index_byte colon hostPort with
  | Some i => if validOptionalPort (drop i hostPort) then (unbracket (take i hostPort), drop (S i) hostPort)
              else (unbracket hostPort, [])
  | None => (unbracket hostPort, [])
  end.

Definition Hostname (u : URL) : string := of_bytes (url_split (to_bytes (uHost u))).1.
Definition url_Port (u : URL) : string := of_bytes (url_split (to_bytes (uHost u))).2.

(** [u.String()] of a [plain] URL whose host needs no escaping. *)
Definition URL_String (u : URL) : string := (Scheme u ++ "://" ++ uHost u)%string.

Definition OriginPort (u : URL) : Z :=
  if negb (bool_decide (url_Port u = "")) then default 0 (Atoi (to_bytes (url_Port u)))
  else if bool_decide (Scheme u = "https") then 443 else 80.

Definition originKey (u : URL) : string :=
  (Scheme u ++ "://" ++ JoinHostPort (TrimSuffix (Hostname u) ".") (Itoa (OriginPort u)))%string.

(** The loop that reads each element, refuses one whose key was seen, and
keeps what it makes of the others. *)
Fixpoint collect_once {E A B C} (read : A → result E B) (key : B → string) (twice : E) (keep : B → result E C)
    (l : list A) (seen : list string) : result E (list C) :=
  match l with
  | [] => Ok []
  | x :: l =>
      let? y := read x in
      if contains seen (key y) then Err twice
      else let? z := keep y in
           let? rest := collect_once read key twice keep l (key y :: seen) in Ok (z :: rest)
  end.

Section Form.
(** [url.Parse], and whether [AppendCertsFromPEM] finds a certificate. *)
Variable url_parse : string → option URL.
Variable has_certificate : string → bool.

Definition parseOrigin (raw : string) : result Error URL :=
  match url_parse (Strings.TrimSpace raw) with
  | None => Err (ErrInvalid "origin")
  | Some u =>
      if (negb (bool_decide (Scheme u = "http")) && negb (bool_decide (Scheme u = "https")))
         || bool_decide (uHost u = "") || negb (bool_decide (Opaque u = "")) then Err (ErrInvalid "origin")
      else if User u || (negb (bool_decide (Path u = "")) && negb (bool_decide (Path u = "/"))) || negb (bool_decide (RawQuery u = ""))
              || ForceQuery u || negb (bool_decide (Fragment u = "")) then Err (ErrInvalid "origin only")
      else if negb (ValidAddress (Hostname u)) then Err (ErrInvalid "origin host")
      else if negb (bool_decide (url_Port u = "")) && negb (bool_decide (is_Some (port_of (url_Port u)))) then Err (ErrInvalid "origin port")
      else Ok (plain (Scheme u) (Strings.ToLower (uHost u)))
  end.

Definition ParseUpstream (raw : string) : result Error URL := parseOrigin raw.

(** What is kept of an endpoint, and whether its origin is https. *)
Definition endpoint_kept (ue : URL * AppEndpoint) : result Error (AppEndpoint * bool) :=
  let '(u, e) := ue in
  let name := Strings.TrimSpace (eName e) in
  let name := if bool_decide (name = "") then uHost u else name in
  if bool_decide (MaxEndpointNameLen < Utf8.rune_count (to_bytes name))%nat || existsb Unicode.IsControl (Utf8.runes (to_bytes name))
  then Err (ErrInvalid "endpoint name")
  else Ok ({| eName := name; eURL := URL_String u |}, bool_decide (Scheme u = "https")).

Definition validEndpoints (home : URL) (es : list AppEndpoint) : result Error (list AppEndpoint * bool) :=
  if bool_decide (MaxAppEndpoints < length es)%nat then Err (ErrInvalid "endpoints")
  else let? kept := collect_once (λ e, let? u := parseOrigin (eURL e) in Ok (u, e)) (λ ue, originKey ue.1)
                      (ErrInvalid "endpoint repeats") endpoint_kept es [originKey home] in
       Ok (kept.*1, existsb (λ k, k.2) kept).

(** * Private dependencies *)

(** [simpleMaskLength]: the leading ones of a mask of ones then zeros. *)
Fixpoint byte_ones (fuel : nat) (v : N) : nat :=
  match fuel with
  | O => O
  | S fuel => if N.testbit v 7 then S (byte_ones fuel (N.land (N.shiftl v 1) 255)) else O
  end.

Fixpoint simpleMaskLength (m : bytes) : option nat :=
  match m with
  | [] => Some O
  | b :: m =>
      if (byte_N b =? 255)%N then (λ n, (8 + n)%nat) <$> simpleMaskLength m
      else let n := byte_ones 8 (byte_N b) in
           if bool_decide (byte_N b = (255 - N.shiftr 255 (N.of_nat n))%N) && forallb (λ c, (byte_N c =? 0)%N) m then Some n else None
  end.

Definition hex_bytes (m : bytes) : bytes := m ≫= λ a, [hex_digit (byte_N a / 16)%N; hex_digit (byte_N a mod 16)%N].

(** [n.String()]. *)
Definition IPNet_String (n : IPNet) : string :=
  let '(nn, m) := networkNumberAndMask n in
  if bool_decide (nn = []) then "<nil>"
  else match simpleMaskLength m with
       | Some l => (IP_String nn ++ "/" ++ of_bytes (decimal (N.of_nat l)))%string
       | None => (IP_String nn ++ "/" ++ of_bytes (hex_bytes m))%string
       end.

(** The address of [net.ParseCIDR], beside the network. *)
Definition CIDR_ip (s : string) : IP :=
  match cut slash (to_bytes s) with
  | Some (addr, _) => match ParseAddr addr with Some a => As16 a | None => [] end
  | None => []
  end.

Definition private_network (raw : string) : result Error string :=
  let s := Strings.TrimSpace raw in
  match ParseCIDR s with
  | None => Err (ErrInvalid "private network form")
  | Some n =>
      if negb (Equal (CIDR_ip s) (NetIP n)) then Err (ErrInvalid "private network address")
      else if negb (bool_decide (Ipspace.Reserved (NetIP n) = "private")) then Err (ErrInvalid "private network space")
      else Ok (IPNet_String n)
  end.

Definition private_host (raw : string) : result Error string :=
  match SplitHostPort (Strings.TrimSpace raw) with
  | None => Err (ErrInvalid "private host form")
  | Some (host, port) =>
      if bool_decide (Strings.TrimSpace host = "") then Err (ErrInvalid "private host form")
      else
        let host := TrimSuffix (Strings.ToLower (Strings.TrimSpace host)) "." in
        if negb (bool_decide (is_Some (port_of port))) then Err (ErrInvalid "private host port")
        else let ip := ParseIP host in
             if negb (bool_decide (ip = [])) then
               if negb (bool_decide (Ipspace.Reserved ip = "private")) then Err (ErrInvalid "private host space")
               else Ok (JoinHostPort (IP_String ip) port)
             else if negb (ValidAddress host) then Err (ErrInvalid "private host name")
             else Ok (JoinHostPort host port)
  end.

Definition validPrivate (p : option AppPrivate) : result Error (option AppPrivate) :=
  match p with
  | None => Ok None
  | Some p =>
      if bool_decide (MaxPrivateEntries < length (Networks p))%nat || bool_decide (MaxPrivateEntries < length (Hosts p))%nat
      then Err (ErrInvalid "private entries")
      else
        let? nets := collect_once private_network (λ s, s) (ErrInvalid "private repeats") Ok (Networks p) [] in
        let? hosts := collect_once private_host (λ s, s) (ErrInvalid "private repeats") Ok (Hosts p) nets in
        Ok (if bool_decide (nets = []) && bool_decide (hosts = []) then None else Some {| Networks := nets; Hosts := hosts |})
  end.

(** * Validate *)

Definition validCABundle (pem : string) : result Error unit :=
  if 65536 <? Z.of_nat (String.length pem) then Err (ErrInvalid "tls_ca size")
  else if negb (has_certificate pem) then Err (ErrInvalid "tls_ca") else Ok tt.

(** The fields that say what kind of target it is. *)
Record Form := {
  fAddress : string; fEngine : string; fEngineVersion : string; fOSFamily : string; fDatabaseName : string; fTLSMode : string;
  fTLSCA : string; fAppUpstream : string; fAppEndpoints : list AppEndpoint; fAppDependencies : string; fAppPrivate : option AppPrivate;
}.

Definition or_other (os : string) : string := if bool_decide (os = "") then OtherOS else os.

Definition validApplication (w : Write) (upstream : string) : result Error Form :=
  let? _ := refuse_if (negb (bool_decide (wEngine w = ""))) (ErrInvalid "two kinds") in
  let? u := ParseUpstream upstream in
  let? es := validEndpoints u (wAppEndpoints w) in
  let deps := Strings.ToLower (Strings.TrimSpace (wAppDependencies w)) in
  let deps := if bool_decide (deps = "") then DependenciesPublic else deps in
  let? _ := refuse_if (negb (contains [DependenciesPublic; DependenciesOrigins] deps)) (ErrInvalid "app_dependencies") in
  let? priv := validPrivate (wAppPrivate w) in
  let ca := Strings.TrimSpace (wTLSCA w) in
  let? _ := (if bool_decide (ca = "") then Ok tt
             else if negb (bool_decide (Scheme u = "https")) && negb es.2 then Err (ErrInvalid "tls_ca without https")
             else validCABundle ca) in
  Ok {| fAddress := Hostname u; fEngine := wEngine w; fEngineVersion := wEngineVersion w; fOSFamily := or_other (wOSFamily w);
        fDatabaseName := ""; fTLSMode := ""; fTLSCA := ca; fAppUpstream := URL_String u; fAppEndpoints := es.1;
        fAppDependencies := deps; fAppPrivate := priv |}.

Definition notApplication (w : Write) : result Error Form :=
  let? _ := refuse_if (negb (bool_decide (wAppEndpoints w = []))) (ErrInvalid "app_endpoints of no application") in
  let? _ := refuse_if (negb (bool_decide (Strings.TrimSpace (wAppDependencies w) = ""))) (ErrInvalid "app_dependencies of no application") in
  let? _ := refuse_if (negb (bool_decide (Entries (wAppPrivate w) = []))) (ErrInvalid "app_private of no application") in
  Ok {| fAddress := Strings.TrimSpace (wAddress w); fEngine := wEngine w; fEngineVersion := wEngineVersion w; fOSFamily := wOSFamily w;
        fDatabaseName := wDatabaseName w; fTLSMode := wTLSMode w; fTLSCA := wTLSCA w; fAppUpstream := ""; fAppEndpoints := [];
        fAppDependencies := wAppDependencies w; fAppPrivate := None |}.

Definition database_name_breaks : string := of_bytes (byte_of <$> [32; 9; 10; 13; 39; 34; 96; 59; 92; 47]%N).

Definition validDatabase (f : Form) : result Error Form :=
  let engine := Strings.ToLower (Strings.TrimSpace (fEngine f)) in
  let? _ := refuse_if (negb (ValidEngine engine)) (ErrInvalid "engine") in
  let name := Strings.TrimSpace (fDatabaseName f) in
  let? _ := refuse_if (bool_decide (128 < String.length name)%nat || ContainsAny name database_name_breaks) (ErrInvalid "database_name") in
  let mode := Strings.ToLower (Strings.TrimSpace (fTLSMode f)) in
  let mode := if bool_decide (mode = "") then TLSVerifyFull else mode in
  let? _ := refuse_if (negb (ValidTLSMode mode)) (ErrInvalid "tls_mode") in
  let ca := Strings.TrimSpace (fTLSCA f) in
  let? _ := (if bool_decide (ca = "") then Ok tt else validCABundle ca) in
  let? _ := refuse_if (bool_decide (mode = TLSVerifyFull) && bool_decide (ca = "")) (ErrInvalid "verify-full without tls_ca") in
  Ok {| fAddress := fAddress f; fEngine := engine; fEngineVersion := Strings.TrimSpace (fEngineVersion f); fOSFamily := or_other (fOSFamily f);
        fDatabaseName := name; fTLSMode := mode; fTLSCA := ca; fAppUpstream := fAppUpstream f; fAppEndpoints := fAppEndpoints f;
        fAppDependencies := fAppDependencies f; fAppPrivate := fAppPrivate f |}.

(** A target that is neither a database nor an application. *)
Definition plainHost (f : Form) : Form :=
  {| fAddress := fAddress f; fEngine := fEngine f; fEngineVersion := fEngineVersion f; fOSFamily := fOSFamily f;
     fDatabaseName := ""; fTLSMode := ""; fTLSCA := ""; fAppUpstream := fAppUpstream f; fAppEndpoints := fAppEndpoints f;
     fAppDependencies := fAppDependencies f; fAppPrivate := fAppPrivate f |}.

Definition validForm (w : Write) : result Error Form :=
  let upstream := Strings.TrimSpace (wAppUpstream w) in
  let? f := (if bool_decide (upstream = "") then notApplication w else validApplication w upstream) in
  let? _ := refuse_if (negb (ValidAddress (fAddress f))) (ErrInvalid "address") in
  if negb (bool_decide (fEngine f = "")) then validDatabase f
  else Ok (if bool_decide (fAppUpstream f = "") then plainHost f else f).

(** The capabilities, each once. *)
Fixpoint distinct (l seen : list string) : list string :=
  match l with
  | [] => []
  | c :: l => if contains seen c then distinct l seen else c :: distinct l (c :: seen)
  end.

Definition port_ok (pn : string * Z) : result Error unit :=
  let? _ := refuse_if (negb (ValidProtocol pn.1)) (ErrInvalid "ports protocol") in
  refuse_if ((pn.2 <? 1) || (65535 <? pn.2)) (ErrInvalid "port").

Definition tag_ok (kv : string * string) : result Error unit :=
  refuse_if (bool_decide (kv.1 = "") || bool_decide (MaxTagLen < String.length kv.1)%nat || bool_decide (MaxTagLen < String.length kv.2)%nat)
    (ErrInvalid "tag").

Definition credential_ok (pc : string * string) : result Error unit :=
  let? _ := refuse_if (negb (ValidProtocol pc.1)) (ErrInvalid "credentials protocol") in
  refuse_if (bool_decide (pc.2 = "")) (ErrInvalid "credential id").

Definition valid_name (name : string) : result Error unit :=
  let? _ := refuse_if (bool_decide (name = "") || bool_decide (MaxNameLen < String.length name)%nat) (ErrInvalid "name") in
  match Textsafe.Name name with Ok _ => Ok tt | Err _ => Err (ErrInvalid "name text") end.

(** The checks that change nothing, on the fields as they stand. *)
Definition valid_rest (os status : string) (w : Write) : result Error unit :=
  let? _ := match wRetentionDays w with
            | None => Ok tt
            | Some d => refuse_if ((d <=? 0) || (3650 <? d)) (ErrInvalid "retention_days") end in
  let? _ := refuse_if (negb (contains [Linux; Windows; OtherOS] os)) (ErrInvalid "os_family") in
  let? _ := refuse_if (negb (contains [StatusActive; StatusDisabled] status)) (ErrInvalid "status") in
  let? _ := first_error port_ok (map_to_list (wPorts w)) in
  let? _ := first_error (λ c, refuse_if (negb (ValidProtocol c)) (ErrInvalid "capability")) (wCapabilities w) in
  let? _ := refuse_if (bool_decide (MaxTags < size (wTags w))%nat) (ErrInvalid "tags") in
  let? _ := first_error tag_ok (map_to_list (wTags w)) in
  let? _ := refuse_if (bool_decide (MaxNotesLen < String.length (wNotes w))%nat) (ErrInvalid "notes") in
  first_error credential_ok (map_to_list (wCredentials w)).

Definition Validate (w : Write) : result Error Write :=
  let name := Strings.TrimSpace (wName w) in
  let? _ := valid_name name in
  let? f := validForm w in
  let status := if bool_decide (wStatus w = "") then StatusActive else wStatus w in
  let? _ := valid_rest (fOSFamily f) status w in
  Ok {| wName := name; wAddress := fAddress f; wEngine := fEngine f; wEngineVersion := fEngineVersion f; wRetentionDays := wRetentionDays w;
        wDatabaseName := fDatabaseName f; wTLSMode := fTLSMode f; wTLSCA := fTLSCA f; wAppUpstream := fAppUpstream f;
        wAppEndpoints := fAppEndpoints f; wAppDependencies := fAppDependencies f; wAppPrivate := fAppPrivate f; wOSFamily := fOSFamily f;
        wPorts := wPorts w; wCapabilities := distinct (wCapabilities w) []; wTags := wTags w; wStatus := status; wNotes := wNotes w;
        wCredentials := wCredentials w |}.
End Form.

(** * Letters and their case *)

Definition ascii7 (a : ascii) : Prop := (byte_N a < 128)%N.
Definition lc (a : ascii) : ascii := if in_byte 65 90 a then byte_of (byte_N a + 32) else a.

(** A printable character that is no white space, and no capital letter. *)
Definition visible (a : ascii) : Prop := (33 ≤ byte_N a ≤ 126)%N.
Definition small (a : ascii) : Prop := visible a ∧ in_byte 65 90 a = false.

Ltac all_bytes a := destruct a as [[] [] [] [] [] [] [] []]; vm_compute.

Lemma lc_same a :
  is_digit (lc a) = is_digit a ∧ hex_value (lc a) = hex_value a ∧ (is_digit a = true → lc a = a)
  ∧ (lc a = dot ↔ a = dot) ∧ (lc a = colon ↔ a = colon) ∧ (lc a = percent ↔ a = percent).
Proof. all_bytes a; naive_solver. Qed.

Lemma lc_more a :
  alnum (lc a) = alnum a ∧ in_byte 65 90 (lc a) = false ∧ (lc a = hyphen ↔ a = hyphen)
  ∧ (lc a = lbracket ↔ a = lbracket) ∧ (lc a = rbracket ↔ a = rbracket)
  ∧ bool_decide (lc a ∈ to_bytes address_breaks) = bool_decide (a ∈ to_bytes address_breaks).
Proof. all_bytes a; naive_solver. Qed.

Lemma lc_small a : in_byte 65 90 a = false → lc a = a.
Proof. unfold lc. by intros ->. Qed.

Lemma lower_no_upper r : in_byte 65 90 (byte_of (Unicode.ToLower r)) = false ∨ (128 ≤ Unicode.ToLower r)%N.
Proof.
  assert (∀ n, (n < 128)%N → ¬ (65 ≤ n ≤ 90)%N → in_byte 65 90 (byte_of n) = false) as Hb.
  { intros n Hn Hr. unfold in_byte. rewrite Utf8.byte_N_of by lia. lia. }
  destruct (N.lt_ge_cases (Unicode.ToLower r) 128) as [H|H]; [left|by right]. apply Hb; [done|].
  revert H. unfold Unicode.ToLower. destruct (N.ltb_spec r 128).
  { unfold Unicode.in_range. destruct (_ && _)%bool eqn:E; lia. }
  assert (forallb (λ '(lo, hi, step, to), (91 <=? to)%N) Unicode.lower_table = true) as Ht by (vm_compute; reflexivity).
  destruct (List.find _ _) as [[[[lo hi] step] to]|] eqn:E; [|lia]. apply List.find_some in E as [Hin _].
  rewrite forallb_forall in Ht. specialize (Ht _ Hin). cbn in Ht. lia.
Qed.

Lemma encode_wide r : (128 ≤ r)%N → Forall (λ a, (128 ≤ byte_N a)%N) (Utf8.encode r).
Proof.
  intros Hr. unfold Utf8.encode. set (q := if Utf8.valid_rune r then r else Utf8.RuneError).
  assert (128 ≤ q ≤ 1114111)%N as Hq.
  { unfold q. destruct (Utf8.valid_rune r) eqn:E; [|by vm_compute]. unfold Utf8.valid_rune in E. lia. }
  clearbody q. cbv zeta. destruct (N.ltb_spec q 128); [lia|].
  assert (∀ n, (128 ≤ n < 256)%N → (128 ≤ byte_N (byte_of n))%N) as Hb by (intros n Hn; rewrite Utf8.byte_N_of; lia).
  assert (∀ n, (128 ≤ 128 + n mod 64 < 256)%N) as Hm by (intros n; div_lia).
  destruct (N.ltb_spec q 2048); [|destruct (N.ltb_spec q 65536)]; repeat (apply Forall_cons; split); try apply Forall_nil;
    try done; apply Hb; try apply Hm; div_lia.
Qed.

(** What strings.ToLower writes has no capital ASCII letter. *)
Lemma ToLower_small s : Forall (λ a, in_byte 65 90 a = false) (to_bytes (Strings.ToLower s)).
Proof.
  unfold Strings.ToLower. rewrite to_of_bytes. apply Forall_concat, Forall_fmap, Forall_true. intros r. cbn.
  destruct (N.lt_ge_cases (Unicode.ToLower r) 128) as [H|H].
  - destruct (lower_no_upper r) as [Hs|]; [|lia].
    rewrite <-(Utf8.byte_N_of (Unicode.ToLower r)) by lia. rewrite Utf8.encode_ascii by (rewrite Utf8.byte_N_of; lia). by repeat constructor.
  - eapply Forall_impl; [by apply encode_wide|]. intros a Ha. cbn in Ha. unfold in_byte. lia.
Qed.

Lemma ToLower_bytes s : Forall ascii7 (to_bytes s) → to_bytes (Strings.ToLower s) = map lc (to_bytes s).
Proof.
  intros H. unfold Strings.ToLower, Utf8.runes. rewrite to_of_bytes, Utf8.chunks_ascii by done.
  rewrite <-!list_fmap_compose. induction H as [|a l Ha _ IH]; [done|]. cbn [fmap list_fmap concat]. rewrite IH. cbn.
  unfold ascii7 in Ha. unfold Unicode.ToLower, Unicode.in_range. rewrite (proj2 (N.ltb_lt _ _) Ha). unfold lc, in_byte.
  destruct (_ && _)%bool eqn:E; [|by rewrite Utf8.encode_ascii].
  rewrite <-(Utf8.byte_N_of (byte_N a + 32)) by lia. rewrite Utf8.encode_ascii by (rewrite Utf8.byte_N_of; lia).
  by rewrite Utf8.byte_N_of by lia.
Qed.

Lemma visible_ascii b : Forall visible b → Forall ascii7 b.
Proof. intros H. eapply Forall_impl; [exact H|]. intros a Ha. unfold visible in Ha. unfold ascii7. lia. Qed.

Lemma ToLower_fixed s : Forall small (to_bytes s) → Strings.ToLower s = s.
Proof.
  intros H. rewrite <-(of_to_bytes (Strings.ToLower s)), ToLower_bytes.
  2:{ eapply Forall_impl; [exact H|]. intros a [Ha _]. unfold visible in Ha. unfold ascii7. lia. }
  rewrite <-(of_to_bytes s) at 2. f_equal. induction H as [|a l [_ Ha] _ IH]; [done|]. cbn. by rewrite IH, lc_small.
Qed.

Lemma TrimSpace_fixed s : Forall visible (to_bytes s) → Strings.TrimSpace s = s.
Proof.
  intros H. unfold Strings.TrimSpace.
  assert (Forall ascii7 (to_bytes s)) as H7 by by apply visible_ascii.
  assert (Forall (λ c, Strings.is_space_chunk c = false) (Utf8.chunks (to_bytes s))) as Hc.
  { rewrite Utf8.chunks_ascii by done. apply Forall_fmap. eapply Forall_impl; [exact H|]. intros a Ha. unfold visible in Ha. cbn.
    unfold Strings.is_space_chunk, Unicode.IsSpace, Unicode.in_range. cbn. repeat (apply orb_false_iff; split); lia. }
  assert (∀ l, Forall (λ c, Strings.is_space_chunk c = false) l → Strings.leading Strings.is_space_chunk l = 0%nat) as Hl.
  { intros l [|c k Hf _]; [done|]. cbn. by rewrite Hf. }
  unfold Strings.trim_chunks. rewrite (Hl _ Hc), drop_0, Hl, Nat.sub_0_r, firstn_all by by apply Forall_rev.
  rewrite Utf8.chunks_bytes. apply of_to_bytes.
Qed.

(** * Addresses are read in any case, and hold few characters *)

Lemma fields4_lower s prev val dl pos out :
  fields4 (map lc s) (lc <$> prev) val dl pos out = fields4 s prev val dl pos out.
Proof.
  revert prev val dl pos out. induction s as [|c s IH]; intros prev val dl pos out; [done|]. cbn [map fields4].
  destruct (lc_same c) as (Hd & _ & Hdv & Hdot & _). rewrite Hd. destruct (is_digit c) eqn:Ec.
  { rewrite (Hdv eq_refl). destruct (_ && _); [done|]. cbv zeta. destruct (_ <? _)%N; [done|].
    rewrite <-IH. cbn. by rewrite Hdv. }
  rewrite (bool_decide_ext (lc c = dot) (c = dot)) by done. case_bool_decide; [|done].
  rewrite (bool_decide_ext (lc <$> prev = None) (prev = None)) by (destruct prev; cbn; naive_solver).
  rewrite (bool_decide_ext (map lc s = []) (s = [])) by (destruct s; cbn; naive_solver).
  rewrite (bool_decide_ext (lc <$> prev = Some dot) (prev = Some dot)).
  2:{ destruct prev as [p|]; cbn; [|done]. destruct (lc_same p) as (_ & _ & _ & Hp & _). split; intros [= E]; f_equal; by apply Hp. }
  destruct (_ || _ || _); [done|]. destruct (pos =? 3)%nat; [done|]. by rewrite <-IH.
Qed.

Lemma hex_run_lower s off acc :
  hex_run (map lc s) off acc = option_map (λ '(o, a, r), (o, a, map lc r)) (hex_run s off acc).
Proof.
  revert off acc. induction s as [|c s IH]; intros off acc; [done|]. cbn [map hex_run].
  destruct (lc_same c) as (_ & -> & _). destruct (hex_value c); [|done]. cbv zeta.
  destruct (3 <? off)%nat; [done|]. destruct (_ <? _)%N; [done|]. apply IH.
Qed.

Lemma groups6_lower fuel s ip ell :
  groups6 fuel (map lc s) ip ell = option_map (λ '(r, i, e), (map lc r, i, e)) (groups6 fuel s ip ell).
Proof.
  revert s ip ell. induction fuel as [|fuel IH]; intros s ip ell; [done|]. cbn [groups6]. rewrite hex_run_lower.
  destruct (hex_run s 0 0) as [[[off acc] r]|]; cbn [fmap option_fmap option_map mbind option_bind]; [|done].
  destruct (off =? 0)%nat; [done|].
  rewrite (bool_decide_ext (head (map lc r) = Some dot) (head r = Some dot)).
  2:{ destruct r as [|c r]; cbn; [done|]. destruct (lc_same c) as (_ & _ & _ & Hc & _). split; intros [= E]; f_equal; by apply Hc. }
  unfold parseIPv4Fields. change (@None ascii) with (lc <$> @None ascii) at 1. rewrite fields4_lower.
  case_bool_decide. { destruct (_ && _); [done|]. destruct (16 <? _)%nat; [done|]. by destruct (fields4 _ _ _ _ _ _). }
  cbv zeta. destruct r as [|c r]; [done|]. cbn [map].
  destruct (lc_same c) as (_ & _ & _ & _ & Hc & _). rewrite (bool_decide_ext (lc c = colon) (c = colon)) by done.
  destruct (negb _); [done|]. destruct r as [|d r]; [done|]. cbn [map].
  destruct (lc_same d) as (_ & _ & _ & _ & Hd & _). rewrite (bool_decide_ext (lc d = colon) (d = colon)) by done.
  case_bool_decide; [|apply (IH (d :: r))]. destruct ell; [done|]. destruct r as [|e r]; [done|]. apply (IH (e :: r)).
Qed.

Lemma lc_nil s : map lc s = [] ↔ s = [].
Proof. destruct s; cbn; naive_solver. Qed.

Lemma parseIPv6_lower s : parseIPv6 (map lc s) = parseIPv6 s.
Proof.
  assert (∀ t ell,
    (if bool_decide (ell = Some O) && bool_decide (map lc t = []) then Some IPv6unspecified
     else '(rest, ip, e) ← groups6 8 (map lc t) [] ell;
       if negb (bool_decide (rest = [])) then None
       else if (length ip <? 16)%nat then
         match e with None => None | Some e => Some (take e ip ++ replicate (16 - length ip) zero ++ drop e ip) end
       else match e with Some _ => None | None => Some ip end) =
    (if bool_decide (ell = Some O) && bool_decide (t = []) then Some IPv6unspecified
     else '(rest, ip, e) ← groups6 8 t [] ell;
       if negb (bool_decide (rest = [])) then None
       else if (length ip <? 16)%nat then
         match e with None => None | Some e => Some (take e ip ++ replicate (16 - length ip) zero ++ drop e ip) end
       else match e with Some _ => None | None => Some ip end)) as H.
  { intros t ell. rewrite (bool_decide_ext _ _ (lc_nil t)). destruct (_ && _); [done|]. rewrite groups6_lower.
    destruct (groups6 8 t [] ell) as [[[r i] e]|]; cbn [fmap option_fmap option_map mbind option_bind]; [|done].
    by rewrite (bool_decide_ext _ _ (lc_nil r)). }
  unfold parseIPv6. destruct s as [|a [|b s]]; [by apply (H [] None)|by apply (H [a] None)|]. cbn [map].
  destruct (lc_same a) as (_ & _ & _ & _ & Ha & _). destruct (lc_same b) as (_ & _ & _ & _ & Hb & _).
  rewrite (bool_decide_ext _ _ Ha), (bool_decide_ext _ _ Hb). destruct (_ && _); [apply (H s (Some O))|apply (H (a :: b :: s) None)].
Qed.

Lemma kind_of_lower s : kind_of (map lc s) = option_map lc (kind_of s).
Proof.
  induction s as [|c s IH]; [done|]. cbn [map kind_of]. destruct (lc_same c) as (_ & _ & _ & Hd & Hc & Hp).
  rewrite (bool_decide_ext _ _ Hd), (bool_decide_ext _ _ Hc), (bool_decide_ext _ _ Hp). by destruct (_ || _).
Qed.

Lemma ParseAddr_lower s : ParseAddr (map lc s) = ParseAddr s.
Proof.
  unfold ParseAddr. rewrite kind_of_lower. destruct (kind_of s) as [c|]; [|done]. cbn [fmap option_fmap option_map].
  destruct (lc_same c) as (_ & _ & _ & Hd & Hc & _). rewrite (bool_decide_ext _ _ Hd), (bool_decide_ext _ _ Hc).
  unfold parseIPv4Fields. change (@None ascii) with (lc <$> @None ascii) at 1. rewrite fields4_lower, parseIPv6_lower.
  destruct (bool_decide (c = dot)); [done|]. destruct (bool_decide (c = colon)); [|done].
  rewrite (bool_decide_ext (percent ∈ map lc s) (percent ∈ s)); [done|]. rewrite list_elem_of_fmap. split.
  - intros (a & E & Ha). symmetry in E. apply lc_same in E as ->. done.
  - intros Hp. exists percent. split; [by vm_compute|done].
Qed.

Lemma fields4_chars s prev val dl pos out b : fields4 s prev val dl pos out = Some b → Forall addr_char s.
Proof.
  revert prev val dl pos out. induction s as [|c s IH]; intros prev val dl pos out; [done|]. cbn [fields4].
  destruct (is_digit c) eqn:Ec.
  { destruct (_ && _); [done|]. cbv zeta. destruct (_ <? _)%N; [done|]. intros H%IH. constructor; [by left|done]. }
  case_bool_decide; [|done]. destruct (_ || _ || _); [done|]. destruct (pos =? 3)%nat; [done|].
  intros Hs%IH. constructor; [|done]. unfold addr_char. auto.
Qed.

Lemma hex_run_chars s off acc o a r : hex_run s off acc = Some (o, a, r) → Forall addr_char r → Forall addr_char s.
Proof.
  revert off acc. induction s as [|c s IH]; intros off acc; cbn [hex_run]; [by intros [= <- <- <-]|].
  destruct (hex_value c) eqn:Ec; [|by intros [= <- <- <-]]. cbv zeta. destruct (3 <? off)%nat; [done|].
  destruct (_ <? _)%N; [done|]. intros H Hr. constructor; [|by eapply IH]. unfold addr_char. eauto.
Qed.

Lemma groups6_chars fuel s ip ell ip' ell' : groups6 fuel s ip ell = Some ([], ip', ell') → Forall addr_char s.
Proof.
  revert s ip ell. induction fuel as [|fuel IH]; intros s ip ell; cbn [groups6]; [by intros [= -> _ _]|].
  destruct (hex_run s 0 0) as [[[off acc] r]|] eqn:Eh; cbn [mbind option_bind]; [|done]. destruct (off =? 0)%nat; [done|].
  case_bool_decide.
  { destruct (_ && _); [done|]. destruct (16 <? _)%nat; [done|]. unfold parseIPv4Fields.
    destruct (fields4 _ _ _ _ _ _) eqn:E; [|done]. intros _. by eapply fields4_chars. }
  cbv zeta. intros Hg. eapply hex_run_chars; [exact Eh|]. revert Hg. destruct r as [|c r]; [done|].
  destruct (negb _) eqn:Ec; [done|]. bool_simpl. assert (addr_char c) by (unfold addr_char; auto).
  destruct r as [|d r]; [done|]. case_bool_decide as Ed.
  - assert (addr_char d) by (unfold addr_char; auto). destruct ell; [done|]. destruct r; [by repeat constructor|].
    intros Hr%IH. by repeat (constructor; [done|]).
  - intros Hr%IH. by constructor.
Qed.

Lemma ParseAddr_chars s a : ParseAddr s = Some a → Forall addr_char s.
Proof.
  unfold ParseAddr. destruct (kind_of s) as [c|]; [|done]. destruct (bool_decide (c = dot)).
  { unfold parseIPv4Fields. destruct (fields4 _ _ _ _ _ _) eqn:E; [|done]. intros _. by eapply fields4_chars. }
  destruct (bool_decide (c = colon)); [|done]. destruct (bool_decide (percent ∈ s)); [done|].
  destruct (parseIPv6 s) as [b|] eqn:E; [|done]. intros _. revert E. unfold parseIPv6.
  assert (∀ t ell,
    (if bool_decide (ell = Some O) && bool_decide (t = []) then Some IPv6unspecified
     else '(rest, ip, e) ← groups6 8 t [] ell;
       if negb (bool_decide (rest = [])) then None
       else if (length ip <? 16)%nat then
         match e with None => None | Some e => Some (take e ip ++ replicate (16 - length ip) zero ++ drop e ip) end
       else match e with Some _ => None | None => Some ip end) = Some b → Forall addr_char t) as H.
  { intros t ell. destruct (_ && _) eqn:E; [bool_simpl; by subst|].
    destruct (groups6 8 t [] ell) as [[[r i] e]|] eqn:Eg; cbn [mbind option_bind]; [|done].
    destruct (negb _) eqn:Er; [done|]. bool_simpl. subst r. intros _. by eapply groups6_chars. }
  destruct s as [|x [|y s]]; [by apply (H [] None)|by apply (H [x] None)|]. destruct (_ && _) eqn:Exy; [|by apply (H (x :: y :: s) None)].
  bool_simpl. subst. intros E%(H s (Some O)). repeat (constructor; [unfold addr_char; auto|]). done.
Qed.

(** The characters of a host name or an address. *)
Definition host_char (a : ascii) : Prop := alnum a = true ∨ a = hyphen ∨ a = dot ∨ a = colon.

Lemma addr_host_char a : addr_char a → host_char a.
Proof.
  intros [H|[[v H]|H]]; [left|left|unfold host_char; tauto]; revert H; all_bytes a; done.
Qed.

Lemma host_char_visible a : host_char a → visible a ∧ a ≠ lbracket ∧ a ≠ rbracket.
Proof.
  intros [H|[->|[->| ->]]]; [|by vm_compute..]. revert H. unfold visible. all_bytes a; (done || (intros _; split_and!; done)).
Qed.

Lemma labels_chars s cur : Forall (Forall (λ a, alnum a = true ∨ a = hyphen)) (labels s cur) → Forall host_char (cur ++ s).
Proof.
  revert cur. induction s as [|c s IH]; intros cur; cbn [labels].
  - rewrite app_nil_r. intros [H _]%Forall_cons. eapply Forall_impl; [exact H|]. unfold host_char. naive_solver.
  - case_bool_decide as E.
    + intros [H Hs]%Forall_cons. apply IH in Hs. apply Forall_app_2; [|constructor; [unfold host_char; auto|done]].
      eapply Forall_impl; [exact H|]. unfold host_char. naive_solver.
    + intros H%IH. by rewrite <-app_assoc in H.
Qed.

Lemma label_ok_chars l : label_ok l = true → Forall (λ a, alnum a = true ∨ a = hyphen) l.
Proof.
  unfold label_ok. rewrite !andb_true_iff, forallb_true. intros [[[_ H] _] _]. apply Forall_forall. intros a Ha.
  specialize (H a Ha). apply orb_true_iff in H as [?|?]; bool_simpl; auto.
Qed.

Lemma hostname_chars s : hostname s = true → Forall host_char s.
Proof.
  unfold hostname. cbv zeta. rewrite andb_true_iff. intros [_ H]. apply (labels_chars s []). revert H.
  assert (∀ ls, forallb label_ok ls = true → Forall (Forall (λ a, alnum a = true ∨ a = hyphen)) ls) as Hf.
  { intros ls Hl. apply Forall_forall. intros l Hin. rewrite forallb_true in Hl. by apply label_ok_chars, Hl. }
  destruct (last (labels s [])) as [[|c l]|] eqn:El; [|by apply Hf..].
  apply last_Some in El as [k ->]. rewrite removelast_last. intros H. apply Forall_app_2; [by apply Hf|by repeat constructor].
Qed.

Lemma ValidAddress_chars s : ValidAddress s = true → Forall host_char (to_bytes s).
Proof.
  unfold ValidAddress. destruct (_ || _ || _); [done|]. case_bool_decide as E; cbn [negb]; [apply hostname_chars|].
  intros _. unfold ParseIP in E. destruct (ParseAddr (to_bytes s)) eqn:Ep; [|done].
  eapply Forall_impl; [by eapply ParseAddr_chars|]. apply addr_host_char.
Qed.

Lemma ParseIP_lower s : Forall ascii7 (to_bytes s) → ParseIP (Strings.ToLower s) = ParseIP s.
Proof. intros H. unfold ParseIP. by rewrite ToLower_bytes, ParseAddr_lower. Qed.

Lemma labels_lower s cur : labels (map lc s) (map lc cur) = map (map lc) (labels s cur).
Proof.
  revert cur. induction s as [|c s IH]; intros cur; [done|]. cbn [map labels]. destruct (lc_same c) as (_ & _ & _ & Hd & _).
  rewrite (bool_decide_ext _ _ Hd). case_bool_decide; cbn [map].
  - f_equal. apply (IH []).
  - rewrite <-IH, map_app. done.
Qed.

Lemma head_map {A B} (f : A → B) l : head (map f l) = option_map f (head l).
Proof. by destruct l. Qed.

Lemma last_map {A B} (f : A → B) l : last (map f l) = option_map f (last l).
Proof. induction l as [|a [|b l] IH]; [done..|]. exact IH. Qed.

Lemma label_ok_lower l : label_ok (map lc l) = label_ok l.
Proof.
  unfold label_ok. rewrite length_map, head_map, last_map. f_equal; [f_equal; [f_equal|]|].
  - induction l as [|a l IH]; [done|]. cbn [map forallb]. rewrite IH. destruct (lc_more a) as (-> & _ & Hh & _).
    by rewrite (bool_decide_ext _ _ Hh).
  - destruct (head l) as [a|]; [|done]. cbn. apply lc_more.
  - destruct (last l) as [a|]; [|done]. cbn. apply lc_more.
Qed.

Lemma removelast_map {A B} (f : A → B) l : removelast (map f l) = map f (removelast l).
Proof. induction l as [|a [|b l] IH]; [done..|]. cbn [map removelast] in *. by rewrite IH. Qed.

Lemma hostname_lower s : hostname (map lc s) = hostname s.
Proof.
  pose proof (labels_lower s []) as Hl. cbn [map] in Hl. unfold hostname. rewrite Hl, last_map, removelast_map. cbv zeta.
  assert (∀ ls, forallb label_ok (map (map lc) ls) = forallb label_ok ls) as Hf.
  { induction ls as [|l ls IH]; [done|]. cbn [map forallb]. by rewrite IH, label_ok_lower. }
  assert (∀ ls : list bytes, bool_decide (map (map lc) ls = []) = bool_decide (ls = [])) as Hn.
  { intros ls. apply bool_decide_ext. destruct ls; cbn; naive_solver. }
  destruct (last (labels s [])) as [[|c l]|]; cbn [option_map map]; by rewrite Hf, Hn.
Qed.

Lemma host_char_ascii b : Forall host_char b → Forall ascii7 b.
Proof. intros H. eapply Forall_impl; [exact H|]. intros a [[? ?] _]%host_char_visible. unfold ascii7. lia. Qed.

Lemma ValidAddress_lower s : ValidAddress s = true → ValidAddress (Strings.ToLower s) = true.
Proof.
  intros H. pose proof (host_char_ascii _ (ValidAddress_chars _ H)) as H7. pose proof (ToLower_bytes _ H7) as Hb. revert H.
  unfold ValidAddress. rewrite ParseIP_lower, Hb, hostname_lower by done.
  replace (String.length (Strings.ToLower s)) with (String.length s).
  2:{ rewrite <-(of_to_bytes (Strings.ToLower s)), <-(of_to_bytes s) at 1. by rewrite !of_bytes_length, Hb, length_map. }
  replace (ContainsAny (Strings.ToLower s) address_breaks) with (ContainsAny s address_breaks).
  2:{ unfold ContainsAny. rewrite Hb. clear. induction (to_bytes s) as [|a l IH]; [done|]. cbn [map existsb].
      rewrite IH. f_equal. symmetry. apply lc_more. }
  replace (bool_decide (Strings.ToLower s = "")) with (bool_decide (s = "")); [done|].
  apply bool_decide_ext. assert (∀ t, t = ""%string ↔ to_bytes t = []) as Ht.
  { intros t. split; [by intros ->|]. intros E. by rewrite <-(of_to_bytes t), E. }
  rewrite !Ht, Hb. symmetry. apply lc_nil.
Qed.

(** * Origins, read and printed *)

Lemma validOptionalPort_lower b : validOptionalPort (map lc b) = validOptionalPort b.
Proof.
  destruct b as [|c b]; [done|]. cbn [map validOptionalPort]. destruct (lc_same c) as (_ & _ & _ & _ & Hc & _).
  rewrite (bool_decide_ext _ _ Hc). f_equal. induction b as [|d b IH]; [done|]. cbn [map forallb]. rewrite IH. f_equal. apply lc_same.
Qed.

Lemma digits_lower b : forallb is_digit b = true → map lc b = b.
Proof.
  induction b as [|d b IH]; [done|]. cbn [forallb map]. intros [Hd Hb]%andb_true_iff. rewrite IH by done. f_equal. by apply lc_same.
Qed.

Lemma unbracket_lower h : unbracket (map lc h) = map lc (unbracket h).
Proof.
  unfold unbracket. rewrite head_map, last_map, length_map.
  replace (bool_decide (option_map lc (head h) = Some lbracket)) with (bool_decide (head h = Some lbracket)).
  2:{ apply bool_decide_ext. destruct (head h) as [a|]; cbn; [|done]. destruct (lc_more a) as (_ & _ & _ & Ha & _).
      split; intros [= E]; f_equal; by apply Ha. }
  replace (bool_decide (option_map lc (last h) = Some rbracket)) with (bool_decide (last h = Some rbracket)).
  2:{ apply bool_decide_ext. destruct (last h) as [a|]; cbn; [|done]. destruct (lc_more a) as (_ & _ & _ & _ & Ha & _).
      split; intros [= E]; f_equal; by apply Ha. }
  destruct (_ && _ && _); [|done]. destruct h; [done|]. cbn [map tail]. apply removelast_map.
Qed.

Lemma index_byte_lower l : index_byte colon (map lc l) = index_byte colon l.
Proof.
  induction l as [|a l IH]; [done|]. cbn [map]. rewrite !index_byte_cons, IH. destruct (lc_same a) as (_ & _ & _ & _ & Ha & _).
  destruct (decide (lc a = colon)), (decide (a = colon)); naive_solver.
Qed.

Lemma url_split_lower b : (url_split (map lc b)).1 = map lc (url_split b).1 ∧ (url_split (map lc b)).2 = (url_split b).2.
Proof.
  unfold url_split, last_index_byte. rewrite <-map_rev, index_byte_lower, length_map.
  destruct (index_byte colon (rev b)) as [i|]; cbn [fmap option_fmap option_map]; [|by rewrite unbracket_lower].
  set (j := (length b - 1 - i)%nat).
  rewrite skipn_map, validOptionalPort_lower. destruct (validOptionalPort (drop j b)) eqn:E; cbn [fst snd]; [|by rewrite unbracket_lower].
  rewrite firstn_map, unbracket_lower. split; [done|]. rewrite skipn_map. apply digits_lower.
  destruct (drop j b) as [|c d] eqn:Ed.
  - replace (S j) with (j + 1)%nat by lia. rewrite <-drop_drop, Ed. done.
  - replace (S j) with (j + 1)%nat by lia. rewrite <-drop_drop, Ed. cbn in E |- *. by apply andb_true_iff in E as [_ ?].
Qed.

Lemma unbracket_chars (P : ascii → Prop) h : P lbracket → P rbracket → Forall P (unbracket h) → Forall P h.
Proof.
  intros Hl Hr. unfold unbracket. destruct (_ && _ && _) eqn:E; [|done]. bool_simpl.
  destruct h as [|a h]; [done|]. cbn in *. simplify_eq. destruct h as [|b h] using rev_ind; [simpl in *; lia|].
  rewrite removelast_last. rewrite app_comm_cons, last_snoc in *. simplify_eq. intros H. constructor; [done|].
  apply Forall_app_2; [done|by repeat constructor].
Qed.

Lemma url_split_chars (P : ascii → Prop) b :
  P lbracket → P rbracket → P colon → (∀ a, is_digit a = true → P a) → Forall P (url_split b).1 → Forall P b.
Proof.
  intros Hl Hr Hc Hd. unfold url_split. destruct (last_index_byte colon b) as [i|]; [|by apply unbracket_chars].
  destruct (validOptionalPort (drop i b)) eqn:E; [|by apply unbracket_chars]. cbn [fst]. intros H%unbracket_chars; [|done..].
  rewrite <-(take_drop i b). apply Forall_app_2; [done|]. destruct (drop i b) as [|c d]; [done|]. cbn in E.
  apply andb_true_iff in E as [Ec Ed]. bool_simpl. subst c. constructor; [done|]. apply Forall_forall. intros a Ha.
  rewrite forallb_true in Ed. auto.
Qed.

Lemma host_visible u : ValidAddress (Hostname u) = true → Forall visible (to_bytes (uHost u)).
Proof.
  intros H. apply url_split_chars; [by vm_compute..| |].
  - intros a. unfold is_digit, visible. intros Ha. lia.
  - eapply Forall_impl; [apply ValidAddress_chars in H; unfold Hostname in H; rewrite to_of_bytes in H; exact H|].
    intros a [Ha _]%host_char_visible. done.
Qed.

Lemma collect_once_ok {E A B C} (read : A → result E B) key twice (keep : B → result E C) l seen out :
  collect_once read key twice keep l seen = Ok out ↔
  ∃ mids, Forall2 (λ x y, read x = Ok y) l mids ∧ Forall2 (λ y z, keep y = Ok z) mids out
    ∧ NoDup (key <$> mids) ∧ Forall (λ y, key y ∉ seen) mids.
Proof.
  revert seen out. induction l as [|x l IH]; intros seen out; cbn [collect_once].
  { split.
    - intros [= <-]. exists []. by repeat split; constructor.
    - intros (mids & ->%Forall2_nil_inv_l & ->%Forall2_nil_inv_l & _). done. }
  rewrite rbind_Ok. split.
  - intros (y & Hy & H). destruct (contains seen (key y)) eqn:Es; [done|]. apply contains_false in Es.
    apply rbind_Ok in H as (z & Hz & H). apply rbind_Ok in H as (rest & Hr & [= <-]).
    apply IH in Hr as (mids & H1 & H2 & H3 & H4). exists (y :: mids). repeat split.
    1-2: by constructor.
    + rewrite fmap_cons. constructor; [|done]. rewrite list_elem_of_fmap. intros (y' & E' & Hin).
      rewrite Forall_forall in H4. apply (H4 y' Hin). rewrite <-E'. left.
    + constructor; [done|]. eapply Forall_impl; [exact H4|]. intros y' Hn Hin. apply Hn. by right.
  - intros (mids & H1 & H2 & H3 & H4). apply Forall2_cons_inv_l in H1 as (y & mids' & Hy & H1 & ->).
    apply Forall2_cons_inv_l in H2 as (z & rest & Hz & H2 & ->). rewrite fmap_cons in H3. apply NoDup_cons in H3 as [Hn H3].
    apply Forall_cons in H4 as [Hk H4]. exists y. split; [done|]. rewrite (proj2 (contains_false _ _) Hk), Hz. cbn [rbind].
    rewrite (proj2 (IH _ rest)); [done|]. exists mids'. repeat split; [done..|].
    rewrite Forall_forall in H4 |- *. intros y' Hin [E'|Hs]%elem_of_cons; [|by apply (H4 y' Hin)].
    apply Hn. rewrite <-E'. by apply list_elem_of_fmap_2.
Qed.

Lemma Forall2_Ok {E A} (l out : list A) : Forall2 (λ y z, @Ok E A y = Ok z) l out ↔ out = l.
Proof.
  split; [|intros ->; apply Forall_Forall2_diag, Forall_true; done]. induction 1 as [|y z l out [= ->] _ IH]; [done|]. by f_equal.
Qed.

(** * Reading again what was kept *)

(** What is relied on of [url.Parse]: an origin it read is read as itself when
it is printed again, its host in lower case. *)
Definition reads_back (url_parse : string → option URL) : Prop :=
  ∀ raw u, url_parse raw = Some u → (Scheme u = "http" ∨ Scheme u = "https") → ValidAddress (Hostname u) = true →
    let v := plain (Scheme u) (Strings.ToLower (uHost u)) in url_parse (URL_String v) = Some v.

Section Again.
Context (url_parse : string → option URL).

(** An origin as it is kept. *)
Record origin_ok (u : URL) : Prop := {
  ok_plain : u = plain (Scheme u) (uHost u);
  ok_scheme : Scheme u = "http" ∨ Scheme u = "https";
  ok_host : uHost u ≠ "";
  ok_small : Forall small (to_bytes (uHost u));
  ok_address : ValidAddress (Hostname u) = true;
  ok_port : url_Port u = "" ∨ is_Some (port_of (url_Port u));
}.

Lemma lower_hostname s h :
  Forall ascii7 (to_bytes h) →
  Hostname (plain s (Strings.ToLower h)) = Strings.ToLower (Hostname (plain s h)) ∧ url_Port (plain s (Strings.ToLower h)) = url_Port (plain s h)
  ∨ ¬ Forall ascii7 (to_bytes (Hostname (plain s h))).
Proof.
  intros H7. destruct (decide (Forall ascii7 (to_bytes (Hostname (plain s h))))) as [H|H]; [left|by right].
  unfold Hostname, url_Port, plain in *. cbn [uHost] in *. rewrite to_of_bytes in H. rewrite ToLower_bytes by done.
  destruct (url_split_lower (to_bytes h)) as [-> ->]. split; [|done]. rewrite <-(of_to_bytes (Strings.ToLower _)). f_equal.
  symmetry. rewrite ToLower_bytes; by rewrite to_of_bytes.
Qed.

Lemma parseOrigin_ok raw u :
  parseOrigin url_parse raw = Ok u →
  origin_ok u ∧ ∃ v, url_parse (Strings.TrimSpace raw) = Some v ∧ ValidAddress (Hostname v) = true
    ∧ u = plain (Scheme v) (Strings.ToLower (uHost v)).
Proof.
  unfold parseOrigin. destruct (url_parse _) as [v|]; [|done].
  destruct (_ || _) eqn:E1; [done|]. destruct (_ || _) eqn:E2 in |- *; [done|]. destruct (ValidAddress (Hostname v)) eqn:E3; cbn [negb]; [|done].
  destruct (_ && _) eqn:E4 in |- *; [done|]. intros [= <-]. split; [|by exists v].
  assert (Forall visible (to_bytes (uHost v))) as Hv by by apply host_visible.
  assert (Forall ascii7 (to_bytes (uHost v))) as H7 by by apply visible_ascii.
  destruct (lower_hostname (Scheme v) (uHost v) H7) as [[Hh Hp]|Hn].
  2:{ exfalso. apply Hn. by apply host_char_ascii, ValidAddress_chars. }
  bool_simpl. split; cbn [Scheme uHost plain].
  - done.
  - match goal with H : negb (bool_decide (Scheme v = _)) = false ∨ _ |- _ => destruct H; bool_simpl; auto end.
  - intros E. assert (to_bytes (Strings.ToLower (uHost v)) = []) as E' by by rewrite E. rewrite ToLower_bytes, lc_nil in E' by done.
    apply (f_equal of_bytes) in E'. rewrite of_to_bytes in E'. done.
  - pose proof (ToLower_small (uHost v)) as Hs. rewrite ToLower_bytes in Hs |- * by done. rewrite Forall_forall in Hs, Hv |- *. intros a Ha.
    split; [|by apply Hs]. apply list_elem_of_In, in_map_iff in Ha as (b & <- & Hb). apply list_elem_of_In in Hb. specialize (Hv b Hb). revert Hv.
    clear. unfold visible. all_bytes b; naive_solver.
  - rewrite Hh. by apply ValidAddress_lower.
  - rewrite Hp. change (url_Port (plain (Scheme v) (uHost v))) with (url_Port v).
    match goal with H : negb (bool_decide (url_Port v = _)) = false ∨ _ |- _ => destruct H; bool_simpl; auto end.
Qed.

Lemma origin_text u : origin_ok u → Forall visible (to_bytes (URL_String u)).
Proof.
  intros [_ Hs _ Hh _ _]. unfold URL_String. rewrite !to_bytes_app. repeat apply Forall_app_2.
  - destruct Hs as [->| ->]; by repeat constructor.
  - by repeat constructor.
  - eapply Forall_impl; [exact Hh|]. by intros a [? _].
Qed.

Lemma parseOrigin_again raw u :
  reads_back url_parse → parseOrigin url_parse raw = Ok u → parseOrigin url_parse (URL_String u) = Ok u.
Proof.
  intros Hr H. destruct (parseOrigin_ok _ _ H) as [Hok (v & Hv & Hva & Hu)]. unfold parseOrigin.
  rewrite TrimSpace_fixed by by apply origin_text. pose proof (ok_scheme _ Hok) as Hs.
  assert (url_parse (URL_String u) = Some u) as ->. { rewrite Hu. apply (Hr _ _ Hv); [by rewrite Hu in Hs|done]. }
  destruct Hok as [Hp _ Hh Hsm Ha Hport]. clear Hv Hva Hu H. revert Hs Hh Hsm Ha Hport. rewrite Hp.
  generalize (Scheme u) (uHost u). clear. intros s h Hs Hh Hsm Ha Hport. cbn [Scheme uHost plain] in Hs, Hh, Hsm.
  cbn [Scheme uHost Opaque User Path RawQuery ForceQuery Fragment plain].
  replace (negb (bool_decide (s = "http")) && negb (bool_decide (s = "https"))) with false by (by destruct Hs as [-> | ->]).
  rewrite (bool_decide_eq_false_2 (h = "")) by done. rewrite Ha.
  replace (negb (bool_decide (url_Port (plain s h) = "")) && negb (bool_decide (is_Some (port_of (url_Port (plain s h)))))) with false.
  2:{ destruct Hport as [->|Hp']; [done|]. by rewrite (bool_decide_eq_true_2 _ Hp'), andb_false_r. }
  cbn. by rewrite ToLower_fixed.
Qed.
End Again.

(** * Networks, read and printed *)

Lemma byte_ones_mask : forallb (λ n, let v := (255 - N.shiftr 255 (N.of_nat n))%N in
  bool_decide (byte_ones 8 v = n) && negb (v =? 255)%N && (v <? 256)%N) (seq 0 8) = true.
Proof. vm_compute. reflexivity. Qed.

Lemma mask_zero len : forallb (λ c, (byte_N c =? 0)%N) (CIDRMask 0 len) = true.
Proof. by induction len. Qed.

Lemma simpleMaskLength_CIDR n len : (n ≤ 8 * len)%nat → simpleMaskLength (CIDRMask (N.of_nat n) len) = Some n.
Proof.
  revert n. induction len as [|len IH]; intros n Hn; cbn [CIDRMask simpleMaskLength]; [f_equal; lia|].
  destruct (N.leb_spec 8 (N.of_nat n)).
  - cbn [simpleMaskLength]. replace (byte_N (byte_of 255) =? 255)%N with true by done.
    replace (N.of_nat n - 8)%N with (N.of_nat (n - 8)) by lia. rewrite IH by lia. cbn. f_equal. lia.
  - cbn [simpleMaskLength]. pose proof byte_ones_mask as Hb. rewrite forallb_true in Hb.
    assert (n ∈ seq 0 8) as Hin by (apply elem_of_seq; lia). specialize (Hb n Hin). cbv zeta in Hb. bool_simpl.
    rewrite Utf8.byte_N_of by lia. match goal with H : (_ =? 255)%N = false |- _ => rewrite H end.
    match goal with H : byte_ones _ _ = n |- _ => rewrite H end. by rewrite bool_decide_eq_true_2, mask_zero.
Qed.

Lemma CIDRMask_drop k n len : (8 * k ≤ n)%nat → drop k (CIDRMask (N.of_nat n) (k + len)) = CIDRMask (N.of_nat (n - 8 * k)) len.
Proof.
  revert n. induction k as [|k IH]; intros n Hn; [by rewrite Nat.mul_0_r, Nat.sub_0_r|]. cbn [Nat.add CIDRMask].
  destruct (N.leb_spec 8 (N.of_nat n)); [|lia]. cbn [drop]. replace (N.of_nat n - 8)%N with (N.of_nat (n - 8)) by lia.
  rewrite IH by lia. f_equal. lia.
Qed.

Lemma mask_low : forallb (λ p, match CIDRMask (N.of_nat p) 16 !! 11%nat with Some c => (byte_N c <? 255)%N | None => false end) (seq 0 96) = true.
Proof. vm_compute. reflexivity. Qed.

Lemma dtoi_ok : forallb (λ n, bool_decide (dtoi (decimal (N.of_nat n)) = Some (N.of_nat n))) (seq 0 129) = true.
Proof. vm_compute. reflexivity. Qed.

Lemma dtoi_decimal n : (n ≤ 128)%nat → dtoi (decimal (N.of_nat n)) = Some (N.of_nat n).
Proof.
  intros Hn. pose proof dtoi_ok as H. rewrite forallb_true in H. specialize (H n). rewrite bool_decide_eq_true in H.
  apply H, elem_of_seq. lia.
Qed.

Lemma land_byte_idem a c : land_byte (land_byte a c) c = land_byte a c.
Proof.
  unfold land_byte. rewrite Utf8.byte_N_of; [by rewrite <-N.land_assoc, N.land_diag|].
  pose proof (byte_N_bound c). apply N.le_lt_trans with (byte_N c); [|done]. apply N.land_le_r.
Qed.

Lemma mask_idem b m : zip_with land_byte (zip_with land_byte b m) m = zip_with land_byte b m.
Proof. revert m. induction b as [|a b IH]; intros [|c m]; [done..|]. cbn. by rewrite IH, land_byte_idem. Qed.

Lemma mask_full a c : land_byte a c = byte_of 255 → byte_N c = 255%N.
Proof.
  unfold land_byte. intros E. apply (f_equal byte_N) in E. pose proof (byte_N_bound c).
  assert (N.land (byte_N a) (byte_N c) ≤ byte_N c)%N by apply N.land_le_r.
  rewrite !Utf8.byte_N_of in E by lia. lia.
Qed.

Lemma cut_text a b : slash ∉ a → cut slash (a ++ slash :: b) = Some (a, b).
Proof.
  intros Ha. unfold cut. pose proof (index_byte_app slash a b Ha) as H. unfold index_byte in H.
  destruct (list_find _ _) as [[i c]|]; [|done]. cbn in H. simplify_eq. rewrite take_app_length.
  rewrite drop_app_ge by lia. by replace (S (length a) - length a)%nat with 1%nat by lia.
Qed.

(** A network written as its address and the length of its mask. *)
Lemma CIDR_read x p len a :
  ParseAddr (to_bytes (IP_String x)) = Some a → NetIP.is_ip x → BitLen a = N.of_nat (8 * len) → (p ≤ 8 * len)%nat → (len ≤ 16)%nat →
  let s := (IP_String x ++ "/" ++ of_bytes (decimal (N.of_nat p)))%string in
  CIDR_ip s = As16 a ∧
  ParseCIDR s = (let m := CIDRMask (N.of_nat p) len in ip ← Mask (As16 a) m; Some (mkNet ip m)).
Proof.
  intros Hp Hx Hl Hle Hlen s. unfold CIDR_ip, ParseCIDR, s. rewrite !to_bytes_app, to_of_bytes.
  change (to_bytes "/") with [slash]. cbn [app]. rewrite cut_text.
  2:{ intros Hin. pose proof (IP_String_chars x Hx) as Hc. rewrite Forall_forall in Hc. apply Hc in Hin as [|[[v Hv]|[|]]]; discriminate. }
  cbn [mbind option_bind]. rewrite Hp. cbn [mbind option_bind]. split; [done|]. rewrite dtoi_decimal by lia. cbn [mbind option_bind].
  rewrite Hl. destruct (N.ltb_spec (N.of_nat (8 * len)) (N.of_nat p)); [lia|].
  replace (N.to_nat (N.of_nat (8 * len) / 8)) with len by (rewrite Nat2N.inj_mul, N.mul_comm, N.div_mul by done; lia). done.
Qed.

Lemma string4_read x : length x = 4%nat → ParseAddr (to_bytes (IP_String x)) = Some (Addr4 x).
Proof.
  intros H. assert (IP_String x = of_bytes (string4 x)) as ->.
  { unfold IP_String, To4. rewrite H, bool_decide_eq_false_2 by by intros ->. done. }
  rewrite to_of_bytes. destruct x as [|a [|b [|c [|d []]]]]; try done. apply parse_string4.
Qed.

Lemma string6_read x : length x = 16%nat → To4 x = None → ParseAddr (to_bytes (IP_String x)) = Some (Addr6 x).
Proof.
  intros H E. assert (IP_String x = of_bytes (string6 x)) as ->.
  { unfold IP_String. rewrite E, H, bool_decide_eq_false_2 by by intros ->. done. }
  rewrite to_of_bytes. by apply parse_string6.
Qed.

(** A network as [ParseCIDR] makes one of its own text. *)
Definition canonical (n : IPNet) : Prop :=
  ∃ x p len, n = mkNet x (CIDRMask (N.of_nat p) len) ∧ length x = len ∧ (len = 4%nat ∨ len = 16%nat ∧ To4 x = None)
    ∧ (p ≤ 8 * len)%nat ∧ zip_with land_byte x (CIDRMask (N.of_nat p) len) = x.

Lemma Mask4 b p : length b = 4%nat → Mask (v4InV6Prefix ++ b) (CIDRMask p 4) = Some (zip_with land_byte b (CIDRMask p 4)).
Proof.
  intros Hb. unfold Mask. rewrite CIDRMask_length, length_app, Hb, take_app_length', drop_app_length' by done.
  change (bool_decide (4%nat = IPv4len) && bool_decide ((length v4InV6Prefix + 4)%nat = IPv6len) && bool_decide (v4InV6Prefix = v4InV6Prefix))
    with true. cbv iota zeta. rewrite Hb. done.
Qed.

Lemma Mask16 b p : length b = 16%nat → Mask b (CIDRMask p 16) = Some (zip_with land_byte b (CIDRMask p 16)).
Proof.
  intros Hb. unfold Mask. rewrite CIDRMask_length. change (bool_decide (16%nat = IPv4len)) with false. cbn [andb].
  by rewrite Hb.
Qed.

Lemma canonical_parts x m :
  length x = length m → length m = 4%nat ∨ length m = 16%nat ∧ To4 x = None → networkNumberAndMask (mkNet x m) = (x, m).
Proof.
  intros Hx Hm. unfold networkNumberAndMask. cbn [NetIP NetMask].
  assert (default x (To4 x) = x) as ->. { destruct Hm as [Hm|[_ E4]]; [|by rewrite E4]. unfold To4. by rewrite Hx, Hm. }
  rewrite Hx. by destruct Hm as [->|[-> _]].
Qed.

Lemma canonical_text n :
  canonical n → ∃ p, (p ≤ 128)%nat ∧ IPNet_String n = (IP_String (NetIP n) ++ "/" ++ of_bytes (decimal (N.of_nat p)))%string
    ∧ NetIP.is_ip (NetIP n) ∧ ParseCIDR (IPNet_String n) = Some n ∧ CIDR_ip (IPNet_String n) = To16 (NetIP n).
Proof.
  intros (x & p & len & -> & Hx & Hlen & Hp & Hm). exists p.
  assert (NetIP.is_ip x) as Hip by (unfold NetIP.is_ip, IPv4len, IPv6len; destruct Hlen as [->|[-> _]]; auto).
  assert (x ≠ []) as Hne by (intros ->; destruct Hip; done).
  assert (IPNet_String (mkNet x (CIDRMask (N.of_nat p) len)) = (IP_String x ++ "/" ++ of_bytes (decimal (N.of_nat p)))%string) as Ht.
  { unfold IPNet_String. rewrite canonical_parts by (rewrite ?CIDRMask_length; done).
    by rewrite bool_decide_eq_false_2, simpleMaskLength_CIDR. }
  split_and!; [destruct Hlen as [->|[-> _]]; lia|done|done|..]; rewrite Ht; cbn [NetIP].
  - destruct Hlen as [->|[-> E4]].
    + destruct (CIDR_read x p 4 (Addr4 x)) as [_ ->]; [by apply string4_read|done|done|done|lia|]. cbv zeta. cbn [As16].
      rewrite Mask4 by done. cbn [mbind option_bind]. by rewrite Hm.
    + destruct (CIDR_read x p 16 (Addr6 x)) as [_ ->]; [by apply string6_read|done|done|done|lia|]. cbv zeta. cbn [As16].
      rewrite Mask16 by done. cbn [mbind option_bind]. by rewrite Hm.
  - destruct Hlen as [->|[-> E4]].
    + destruct (CIDR_read x p 4 (Addr4 x)) as [-> _]; [by apply string4_read|done|done|done|lia|]. unfold To16. by rewrite Hx.
    + destruct (CIDR_read x p 16 (Addr6 x)) as [-> _]; [by apply string6_read|done|done|done|lia|]. unfold To16. by rewrite Hx.
Qed.

Lemma ParseCIDR_canonical s n :
  ParseCIDR s = Some n → ∃ n', canonical n' ∧ IPNet_String n' = IPNet_String n ∧ To16 (NetIP n') = To16 (NetIP n) ∧ NetIP.is_ip (NetIP n).
Proof.
  unfold ParseCIDR. destruct (cut slash _) as [[addr mask]|]; cbn [mbind option_bind]; [|done].
  destruct (ParseAddr addr) as [a|] eqn:Ea; cbn [mbind option_bind]; [|done].
  destruct (dtoi mask) as [q|]; cbn [mbind option_bind]; [|done]. destruct (N.ltb_spec (BitLen a) q) as [|Hq]; [done|].
  set (p := N.to_nat q). assert (q = N.of_nat p) as Eq by lia. clearbody p. subst q. pose proof (As16_length _ _ Ea) as H16.
  cbv zeta. destruct a as [b|b]; cbn [As16 BitLen] in *.
  - assert (length b = 4%nat) as Hb by (rewrite length_app in H16; unfold IPv6len in H16; simpl in H16; lia).
    change (N.to_nat (32 / 8)) with 4%nat. rewrite Mask4 by done. cbn [mbind option_bind]. intros E. apply (inj Some) in E as <-.
    exists (mkNet (zip_with land_byte b (CIDRMask (N.of_nat p) 4)) (CIDRMask (N.of_nat p) 4)).
    assert (length (zip_with land_byte b (CIDRMask (N.of_nat p) 4)) = 4%nat) as Hz by (rewrite length_zip_with, CIDRMask_length; lia).
    split_and!; [|done|done|by left]. eexists _, p, 4%nat. split_and!; [done|done|by left|lia|apply mask_idem].
  - change (N.to_nat (128 / 8)) with 16%nat. unfold IPv6len in H16. rewrite Mask16 by done. cbn [mbind option_bind].
    intros E. apply (inj Some) in E as <-. set (x := zip_with land_byte b (CIDRMask (N.of_nat p) 16)).
    assert (length x = 16%nat) as Hx by (unfold x; rewrite length_zip_with, CIDRMask_length; lia).
    destruct (To4 x) as [y|] eqn:E4.
    2:{ exists (mkNet x (CIDRMask (N.of_nat p) 16)). split_and!; [|done|done|by right]. exists x, p, 16%nat.
        split_and!; [done|done|by right|lia|apply mask_idem]. }
    assert (y = drop 12 x ∧ take 12 x = v4InV6Prefix) as [Ey Hpre].
    { unfold To4 in E4. rewrite Hx in E4. change (bool_decide (16%nat = IPv4len)) with false in E4.
      change (bool_decide (16%nat = IPv6len)) with true in E4. cbn [andb] in E4. case_bool_decide; [|done]. split; [congruence|done]. }
    assert (length y = 4%nat) as Hy by (rewrite Ey, length_drop; lia).
    assert (96 ≤ p)%nat as H96.
    { destruct (Nat.le_gt_cases 96 p) as [|Hlt]; [done|]. exfalso. pose proof mask_low as Hl. rewrite forallb_true in Hl.
      assert (p ∈ seq 0 96) as Hin by (apply elem_of_seq; lia). specialize (Hl p Hin). destruct (CIDRMask (N.of_nat p) 16 !! 11%nat) as [c|] eqn:Ec; [|done].
      assert (x !! 11%nat = Some (byte_of 255)) as Hx11.
      { rewrite <-(lookup_take_lt x 12 11) by lia. by rewrite Hpre. }
      unfold x in Hx11. rewrite lookup_zip_with, Ec in Hx11. destruct (b !! 11%nat) as [d|]; cbn [mbind option_bind] in Hx11; [|done].
      assert (land_byte d c = byte_of 255) as Ed by congruence. apply mask_full in Ed. lia. }
    pose proof (CIDRMask_drop 12 p 4 ltac:(lia)) as Hd. replace (p - 8 * 12)%nat with (p - 96)%nat in Hd by lia. cbn [Nat.add] in Hd.
    exists (mkNet y (CIDRMask (N.of_nat (p - 96)) 4)).
    assert (canonical (mkNet y (CIDRMask (N.of_nat (p - 96)) 4))) as Hcan.
    { exists y, (p - 96)%nat, 4%nat. split_and!; [done|done|by left|lia|]. rewrite <-Hd, Ey. rewrite <-zip_with_drop. f_equal. apply mask_idem. }
    split_and!; [done| | |by right].
    + unfold IPNet_String. rewrite (canonical_parts y) by (rewrite ?CIDRMask_length; auto).
      assert (networkNumberAndMask (mkNet x (CIDRMask (N.of_nat p) 16)) = (y, CIDRMask (N.of_nat (p - 96)) 4)) as ->; [|done].
      unfold networkNumberAndMask. cbn [NetIP NetMask]. rewrite E4, CIDRMask_length. cbn [default Datatypes.id].
      change (default x (Some y)) with y. rewrite Hy. cbn [orb negb]. by rewrite <-Hd.
    + cbn [NetIP]. unfold To16. rewrite Hy, Hx. change (bool_decide (4%nat = IPv4len)) with true.
      change (bool_decide (16%nat = IPv4len)) with false. cbv iota. by rewrite Ey, <-Hpre, take_drop.
Qed.

Lemma IPNet_text_visible n : canonical n → Forall visible (to_bytes (IPNet_String n)).
Proof.
  intros (p & _ & -> & Hip & _)%canonical_text. rewrite !to_bytes_app, to_of_bytes. repeat apply Forall_app_2.
  - eapply Forall_impl; [by apply IP_String_chars|]. intros a Ha. by apply addr_host_char, host_char_visible in Ha as [? _].
  - by repeat constructor.
  - unfold decimal. eapply Forall_impl; [apply digits_all|]. intros a. unfold is_digit, visible. lia.
Qed.

Lemma Reserved_same x y : NetIP.is_ip x → NetIP.is_ip y → To16 x = To16 y → Ipspace.Reserved x = Ipspace.Reserved y.
Proof. intros Hx Hy E. by rewrite !Ipspace.Reserved_rows, E. Qed.

Lemma Equal_To16 x : NetIP.is_ip x → Equal (To16 x) x = true.
Proof.
  intros [Hx|Hx]; unfold Equal, To16; rewrite Hx.
  - change (bool_decide (IPv4len = IPv4len)) with true. cbv iota. rewrite length_app, Hx, take_app_length', drop_app_length' by done.
    by rewrite (bool_decide_eq_true_2 (v4InV6Prefix = v4InV6Prefix)), (bool_decide_eq_true_2 (x = x)).
  - change (bool_decide (IPv6len = IPv4len)) with false. cbv iota. rewrite Hx. by rewrite (bool_decide_eq_true_2 (x = x)).
Qed.

(** A private network that was kept is kept as it is. *)
Lemma private_network_again raw s :
  private_network raw = Ok s → private_network s = Ok s ∧ ∃ n, ParseCIDR s = Some n ∧ Ipspace.Reserved (NetIP n) = "private".
Proof.
  unfold private_network at 1. destruct (ParseCIDR (Strings.TrimSpace raw)) as [n|] eqn:En; [|done].
  destruct (negb _); [done|]. destruct (negb _) eqn:Er in |- *; [done|]. bool_simpl. intros E. apply Ok_inj in E as <-.
  destruct (ParseCIDR_canonical _ _ En) as (n' & Hc & <- & H16 & Hip). pose proof (IPNet_text_visible _ Hc) as Hv.
  destruct (canonical_text _ Hc) as (p & _ & _ & Hip' & Hp & Hcip).
  assert (Ipspace.Reserved (NetIP n') = "private") as Hres by (rewrite <-Er; by apply Reserved_same).
  split; [|by exists n']. unfold private_network. rewrite TrimSpace_fixed, Hp, Hcip, Equal_To16 by done. cbn [negb].
  by rewrite bool_decide_eq_true_2.
Qed.

Lemma parse_digits_all b acc n : parse_digits b acc = Some n → Forall (λ a, is_digit a = true) b.
Proof.
  revert acc. induction b as [|a b IH]; intros acc; cbn [parse_digits]; [done|]. destruct (is_digit a) eqn:E; [|done].
  intros H. constructor; [done|]. by eapply IH.
Qed.

Definition port_char (a : ascii) : Prop := is_digit a = true ∨ a = byte_of 43 ∨ a = byte_of 45.

Lemma port_of_chars p : is_Some (port_of p) → Forall port_char (to_bytes p).
Proof.
  unfold port_of, Atoi, ParseInt. intros [n H]. revert H. cbv zeta.
  assert (∀ b m, parse_digits b 0 = Some m → Forall port_char b) as Hd.
  { intros b m Hb%parse_digits_all. eapply Forall_impl; [exact Hb|]. intros a Ha. by left. }
  destruct (to_bytes p) as [|a b] eqn:E; [done|].
  assert (∀ neg ds, (if bool_decide (ds = []) then None else m ← parse_digits ds 0;
      let z := if neg : bool then - Z.of_N m else Z.of_N m in if in_int64 z then Some z else None)
    ≫= (λ m, if (m <? 1) || (65535 <? m) then None else Some m) = Some n → Forall port_char ds) as Hp.
  { intros neg ds. case_bool_decide; [done|]. destruct (parse_digits ds 0) eqn:Ed; [|done]. intros _. by eapply Hd. }
  case_bool_decide as E1; [|case_bool_decide as E2].
  - intros H%(Hp true). constructor; [|done]. right. right. by rewrite <-E1, byte_of_byte_N.
  - intros H%(Hp false). constructor; [|done]. right. left. by rewrite <-E2, byte_of_byte_N.
  - apply (Hp false).
Qed.

Lemma port_char_plain a : port_char a → visible a ∧ a ≠ lbracket ∧ a ≠ rbracket ∧ a ≠ colon.
Proof.
  intros [H|[->| ->]]; [|by vm_compute..]. revert H. unfold visible. all_bytes a; (done || (intros _; split_and!; done)).
Qed.

Lemma length_to_bytes s : String.length s = length (to_bytes s).
Proof. rewrite <-(of_to_bytes s) at 1. apply of_bytes_length. Qed.

Lemma HasSuffix_dot_lower s : Forall ascii7 (to_bytes s) → HasSuffix (Strings.ToLower s) "." = HasSuffix s ".".
Proof.
  intros H. unfold HasSuffix. rewrite !length_to_bytes, ToLower_bytes, length_map, skipn_map by done. f_equal.
  apply bool_decide_ext. change (to_bytes ".") with [dot]. generalize (drop (length (to_bytes s) - length [dot]) (to_bytes s)). clear.
  intros l. destruct l as [|a [|b l]]; cbn; [done| |naive_solver]. destruct (lc_same a) as (_ & _ & _ & Ha & _).
  split; intros [= E]; f_equal; by apply Ha.
Qed.

Lemma TrimSuffix_none s p : HasSuffix s p = false → TrimSuffix s p = s.
Proof. unfold TrimSuffix. by intros ->. Qed.

Lemma TrimSuffix_Forall (P : ascii → Prop) s p : Forall P (to_bytes s) → Forall P (to_bytes (TrimSuffix s p)).
Proof. unfold TrimSuffix. intros H. case_match; [|done]. rewrite to_of_bytes. by apply Forall_take. Qed.

(** A host kept with a dot at its end: what is left of a name that had two. *)
Definition dotted (h : string) : bool :=
  match SplitHostPort h with Some (host, _) => HasSuffix host "." | None => false end.

(** A host and port as they are kept. *)
Lemma host_text host port :
  Forall host_char (to_bytes host) → is_Some (port_of port) →
  SplitHostPort (JoinHostPort host port) = Some (host, port) ∧ Strings.TrimSpace (JoinHostPort host port) = JoinHostPort host port
  ∧ Strings.TrimSpace host = host.
Proof.
  intros Hh Hp%port_of_chars. rewrite Forall_forall in Hh, Hp.
  assert (Forall visible (to_bytes host)) as Hv by (apply Forall_forall; intros a Ha; by apply host_char_visible, Hh).
  assert (Forall visible (to_bytes port)) as Hvp by (apply Forall_forall; intros a Ha; by apply port_char_plain, Hp).
  split_and!; [|apply TrimSpace_fixed|by apply TrimSpace_fixed].
  - apply split_join; [split|split|]; intros Hin.
    1-2: apply Hh, host_char_visible in Hin as (_ & ? & ?); done.
    all: apply Hp, port_char_plain in Hin as (_ & ? & ? & ?); done.
  - unfold JoinHostPort. case_match; rewrite !to_bytes_app; repeat apply Forall_app_2; try done; by repeat constructor.
Qed.

Lemma IP_String_host ip : length ip = IPv6len → Forall host_char (to_bytes (IP_String ip)) ∧ ParseIP (IP_String ip) = ip ∧ IP_String ip ≠ "".
Proof.
  intros H. assert (NetIP.is_ip ip) as Hip by by right. split_and!.
  - eapply Forall_impl; [by apply IP_String_chars|]. apply addr_host_char.
  - rewrite ParseIP_String by done. unfold To16. by rewrite H.
  - intros E. assert (ParseIP (IP_String ip) = []) as E' by by rewrite E. rewrite ParseIP_String in E' by done.
    unfold To16 in E'. rewrite H in E'. change (bool_decide (IPv6len = IPv4len)) with false in E'. cbv iota in E'. by subst.
Qed.

Lemma HasPrefix_head s c : Strings.HasPrefix s (of_bytes [c]) = true → head (to_bytes s) = Some c.
Proof. destruct s as [|d s]; cbn; [done|]. destruct (ascii_dec c d) as [->|]; done. Qed.

Lemma bracket_trims s : Forall host_char (to_bytes s) → TrimSuffix (TrimPrefix s "[") "]" = s.
Proof.
  intros H. rewrite Forall_forall in H.
  assert (TrimPrefix s "[" = s) as ->.
  { unfold TrimPrefix. destruct (Strings.HasPrefix s "[") eqn:E; [|done]. apply (HasPrefix_head s lbracket) in E.
    apply head_Some_elem_of in E. apply H, host_char_visible in E as (_ & ? & _). done. }
  apply TrimSuffix_none. unfold HasSuffix. apply andb_false_iff. right. apply bool_decide_eq_false_2. intros E.
  assert (rbracket ∈ to_bytes s) as Hin.
  { apply (subseteq_drop (String.length s - String.length "]")). rewrite E. left. }
  apply H, host_char_visible in Hin as (_ & _ & ?). done.
Qed.

(** A host the relay reads is never empty. *)
Lemma normHost_some t : Forall host_char (to_bytes t) → t ≠ "" → t ≠ "." → normHost t ≠ "".
Proof.
  intros H Hne Hnd. unfold normHost. pose proof (host_char_ascii _ H) as H7.
  rewrite (TrimSpace_fixed t) by (eapply Forall_impl; [exact H|]; by intros a [? _]%host_char_visible).
  assert (Forall host_char (to_bytes (Strings.ToLower t))) as Hl.
  { rewrite ToLower_bytes by done. apply Forall_map. eapply Forall_impl; [exact H|]. clear. intros a. unfold host_char.
    destruct (lc_more a) as (-> & _ & Hh & _). destruct (lc_same a) as (_ & _ & _ & Hd & Hc & _). naive_solver. }
  cbv zeta. rewrite bracket_trims by by apply TrimSuffix_Forall.
  case_bool_decide as Hp.
  2:{ destruct (ParseIP_length (TrimSuffix (Strings.ToLower t) ".")) as [|Hlen]; [done|]. by destruct (IP_String_host _ Hlen) as (_ & _ & ?). }
  unfold TrimSuffix. assert (length (to_bytes (Strings.ToLower t)) = length (to_bytes t)) as Hll by (rewrite ToLower_bytes, length_map; done).
  destruct (HasSuffix (Strings.ToLower t) ".") eqn:Es.
  - intros E. apply (f_equal to_bytes) in E. rewrite to_of_bytes in E. apply (f_equal length) in E. cbn in E.
    rewrite length_take, length_to_bytes, Hll in E. rewrite HasSuffix_dot_lower in Es by done. unfold HasSuffix in Es. bool_simpl.
    rewrite length_to_bytes in *. cbn [String.length] in *. apply Hnd. rewrite <-(of_to_bytes t).
    match goal with H : drop _ _ = _ |- _ => replace (length (to_bytes t) - 1)%nat with 0%nat in H by lia; rewrite drop_0 in H; by rewrite H end.
  - intros E. apply (f_equal to_bytes) in E. rewrite ToLower_bytes, lc_nil in E by done. apply Hne. by rewrite <-(of_to_bytes t), E.
Qed.

Lemma dot_alone : ValidAddress "." = false ∧ ParseIP "." = [].
Proof. vm_compute. done. Qed.

(** A private host that was kept is kept as it is, and the relay's table takes
it. *)
Lemma private_host_again raw s :
  private_host raw = Ok s → private_host_ok s = Ok tt ∧ (dotted s = false → private_host s = Ok s).
Proof.
  unfold private_host at 1. destruct (SplitHostPort _) as [[host port]|]; [|done]. destruct (bool_decide _); [done|]. cbv zeta.
  set (h := TrimSuffix _ _). assert (h = TrimSuffix (Strings.ToLower (Strings.TrimSpace host)) ".") as Eh by done. clearbody h. case_bool_decide as Hp; cbn [negb]; [|done].
  assert (∀ t, Forall host_char (to_bytes t) → normHost t ≠ "" → private_host_ok (JoinHostPort t port) = Ok tt) as Hok.
  { intros t Ht Hn. unfold private_host_ok. destruct (host_text t port Ht Hp) as (-> & _). rewrite bool_decide_eq_false_2 by done.
    destruct Hp as [n ->]. done. }
  case_bool_decide as Hip; cbn [negb].
  - destruct (ValidAddress h) eqn:Hv; cbn [negb]; [|done]. intros [= <-]. pose proof (ValidAddress_chars _ Hv) as Hc.
    destruct (host_text h port Hc Hp) as (Hs & Ht & Hh).
    assert (h ≠ "") as Hne by (intros E; by rewrite E in Hv).
    assert (Strings.ToLower h = h) as Hl.
    { apply ToLower_fixed, Forall_forall. intros a Ha. rewrite Forall_forall in Hc. split; [by apply host_char_visible, Hc|].
      pose proof (TrimSuffix_Forall _ (Strings.ToLower (Strings.TrimSpace host)) "." (ToLower_small _)) as Hs'.
      rewrite <-Eh, Forall_forall in Hs'. by apply Hs'. }
    split.
    + apply Hok, normHost_some; [done|done|done|]. intros E. by rewrite E, (proj1 dot_alone) in Hv.
    + unfold dotted. rewrite Hs. intros Hd. unfold private_host. rewrite Ht, Hs, Hh, bool_decide_eq_false_2 by done.
      cbv zeta. rewrite Hl, TrimSuffix_none by done. rewrite bool_decide_eq_true_2 by done. cbn [negb].
      rewrite (bool_decide_eq_true_2 (ParseIP h = [])), Hv by done. done.
  - case_bool_decide as Hr; cbn [negb]; [|done]. intros [= <-]. set (ip := ParseIP h) in *.
    assert (length ip = IPv6len) as H16 by (destruct (ParseIP_length h); done).
    destruct (IP_String_host ip H16) as (Hc & Hback & Hne). destruct (host_text (IP_String ip) port Hc Hp) as (Hs & Ht & Hh).
    split.
    + apply Hok, normHost_some; [done|done|done|]. intros E. rewrite E, (proj2 dot_alone) in Hback. by rewrite <-Hback in H16.
    + unfold dotted. rewrite Hs. intros Hd. unfold private_host. rewrite Ht, Hs, Hh, bool_decide_eq_false_2 by done. cbv zeta.
      pose proof (host_char_ascii _ Hc) as H7. rewrite TrimSuffix_none by by rewrite HasSuffix_dot_lower.
      rewrite ParseIP_lower, Hback by done. rewrite (bool_decide_eq_true_2 (is_Some _)) by done. cbn [negb].
      rewrite bool_decide_eq_false_2 by done. cbn [negb]. by rewrite bool_decide_eq_true_2.
Qed.
