(* ===== verification/TargetValid.v ===== *)
(** What the check of a target accepts, and that it accepts it again as it
stands: well-formedness of every target that was stored, for the definitions of
TargetForm.v. *)
From S2P Require Import Prelude GoText Strconv Json Protocol Textsafe NetIP Addresses Apprelay Connect TargetForm.
Local Open Scope Z_scope.

(** * What is accepted *)

Definition hosts_of (p : option AppPrivate) : list string := match p with Some p => Hosts p | None => [] end.

(** A private host as it is kept: a name an address may be, or an address in
private space. *)
Definition host_private (s : string) : Prop :=
  ∃ host port, SplitHostPort s = Some (host, port) ∧ is_Some (port_of port)
    ∧ (if bool_decide (ParseIP host = []) then ValidAddress host = true else Ipspace.Reserved (ParseIP host) = "private").

Lemma private_host_space raw s : private_host raw = Ok s → host_private s.
Proof.
  unfold private_host. destruct (SplitHostPort _) as [[host port]|]; [|done]. destruct (bool_decide _); [done|]. cbv zeta.
  set (h := TrimSuffix _ _). clearbody h. case_bool_decide as Hp; cbn [negb]; [|done]. case_bool_decide as Hip; cbn [negb].
  - destruct (ValidAddress h) eqn:Hv; cbn [negb]; [|done]. intros [= <-]. pose proof (ValidAddress_chars _ Hv) as Hc.
    destruct (host_text h port Hc Hp) as (Hs & _). exists h, port. split_and!; [done..|]. by rewrite bool_decide_eq_true_2.
  - case_bool_decide as Hr; cbn [negb]; [|done]. intros [= <-].
    assert (length (ParseIP h) = IPv6len) as H16 by (destruct (ParseIP_length h); done).
    destruct (IP_String_host _ H16) as (Hc & Hback & _). destruct (host_text _ port Hc Hp) as (Hs & _).
    exists (IP_String (ParseIP h)), port. split_and!; [done..|]. by rewrite Hback, bool_decide_eq_false_2.
Qed.

(** What passed the checks of an application's private space. *)
Record private_ok (p : option AppPrivate) : Prop := {
  po_networks : ∀ n, p ≠ None → n ∈ Entries p → n ∉ hosts_of p → ∃ net, ParseCIDR n = Some net ∧ Ipspace.Reserved (NetIP net) = "private";
  po_hosts : Forall (λ h, private_host_ok h = Ok tt ∧ host_private h) (hosts_of p);
  po_once : NoDup (Entries p);
  po_bound : (length (Entries p) ≤ 2 * MaxPrivateEntries)%nat;
}.

Lemma NoDup_app_seen (l k : list string) : NoDup l → NoDup k → Forall (λ y, y ∉ l) k → NoDup (l ++ k).
Proof. intros Hl Hk Hf. apply NoDup_app. split_and!; [done| |done]. intros x Hx Hk'. rewrite Forall_forall in Hf. by apply (Hf x). Qed.

Lemma collected_strings (read : string → result Error string) twice l seen out :
  collect_once read (λ s, s) twice Ok l seen = Ok out ↔
  Forall2 (λ x y, read x = Ok y) l out ∧ NoDup out ∧ Forall (λ y, y ∉ seen) out.
Proof.
  rewrite collect_once_ok. split.
  - intros (mids & H1 & H2%Forall2_Ok & H3 & H4). subst. rewrite list_fmap_id in H3. done.
  - intros (H1 & H2 & H3). exists out. rewrite list_fmap_id. split_and!; [done|by apply Forall2_Ok|done|done].
Qed.

Lemma Forall2_again {A} (f : A → result Error A) (Q : A → Prop) l out :
  (∀ x y, f x = Ok y → Q y → f y = Ok y) → Forall2 (λ x y, f x = Ok y) l out → Forall Q out → Forall2 (λ x y, f x = Ok y) out out.
Proof.
  intros Hf H. induction H as [|x y l out Hx _ IH]; [done|]. intros [Hq Hout]%Forall_cons. constructor; [by eapply Hf|by apply IH].
Qed.

Lemma Forall2_made {A B} (f : A → result Error B) (P : B → Prop) l out :
  (∀ x y, f x = Ok y → P y) → Forall2 (λ x y, f x = Ok y) l out → Forall P out.
Proof. intros Hf. induction 1; constructor; eauto. Qed.

Lemma private_none : private_ok None.
Proof. split; cbn; [by intros n Hn|apply Forall_nil_2|apply NoDup_nil_2|lia]. Qed.

Lemma validPrivate_ok p q : validPrivate p = Ok q → private_ok q.
Proof.
  destruct p as [p|]; cbn; [|intros [= <-]; exact private_none].
  destruct (_ || _) eqn:Eb; [done|]. bool_simpl. intros (nets & Hn & Hx)%rbind_Ok. apply rbind_Ok in Hx as (hosts & Hh & [= <-]).
  apply collected_strings in Hn as (Hn & Hnd & _). apply collected_strings in Hh as (Hh & Hhd & Hs).
  pose proof (Forall2_length _ _ _ Hn). pose proof (Forall2_length _ _ _ Hh).
  destruct (_ && _); [exact private_none|]. split; cbn.
  - intros n _ [Hin|Hin]%elem_of_app Hnot; [|done].
    assert (Forall (λ s, ∃ net, ParseCIDR s = Some net ∧ Ipspace.Reserved (NetIP net) = "private") nets) as Hf.
    { eapply Forall2_made; [|exact Hn]. intros x y [_ ?]%private_network_again. done. }
    rewrite Forall_forall in Hf. by apply Hf.
  - eapply Forall2_made; [|exact Hh]. intros x y Hxy. split; [by eapply private_host_again|by eapply private_host_space].
  - by apply NoDup_app_seen.
  - rewrite length_app. unfold MaxPrivateEntries in *. lia.
Qed.

Lemma validPrivate_again p q : validPrivate p = Ok q → Forall (λ h, dotted h = false) (hosts_of q) → validPrivate q = Ok q.
Proof.
  destruct p as [p|]; cbn [validPrivate]; [|by intros [= <-]]. destruct (_ || _) eqn:Eb; [done|]. bool_simpl.
  intros (nets & Hn & Hx)%rbind_Ok. apply rbind_Ok in Hx as (hosts & Hh & [= <-]).
  apply collected_strings in Hn as (Hn & Hnd & Hns). apply collected_strings in Hh as (Hh & Hhd & Hs).
  pose proof (Forall2_length _ _ _ Hn). pose proof (Forall2_length _ _ _ Hh).
  destruct (bool_decide (nets = []) && bool_decide (hosts = [])) eqn:Ee; [done|]. cbn [hosts_of Hosts]. intros Hd. cbn [validPrivate Networks Hosts].
  rewrite !bool_decide_eq_false_2 by lia. cbn [orb].
  rewrite (proj2 (collected_strings private_network _ nets [] nets)); cbn [rbind].
  2:{ split_and!; [|done|done]. eapply (Forall2_again _ (λ _, True)); [|exact Hn|by apply Forall_true].
      intros x y [? _]%private_network_again _. done. }
  rewrite (proj2 (collected_strings private_host _ hosts nets hosts)); cbn [rbind]; [by rewrite Ee|].
  split_and!; [|done|done]. eapply Forall2_again; [|exact Hh|exact Hd]. intros x y [_ ?]%private_host_again. done.
Qed.

Section Accepted.
Context (url_parse : string → option URL) (has_certificate : string → bool).

(** A name an endpoint may have, as the session's tab bar shows it. *)
Definition endpoint_named (e : AppEndpoint) : Prop :=
  eName e ≠ "" ∧ Strings.TrimSpace (eName e) = eName e
  ∧ (Utf8.rune_count (to_bytes (eName e)) ≤ MaxEndpointNameLen)%nat
  ∧ existsb Unicode.IsControl (Utf8.runes (to_bytes (eName e))) = false.

Definition read_endpoint (e : AppEndpoint) : result Error (URL * AppEndpoint) :=
  let? u := parseOrigin url_parse (eURL e) in Ok (u, e).

Lemma read_endpoint_ok e ue : read_endpoint e = Ok ue → parseOrigin url_parse (eURL e) = Ok ue.1 ∧ ue.2 = e.
Proof. unfold read_endpoint. by intros (u & -> & [= <-])%rbind_Ok. Qed.

Lemma endpoint_kept_again u e k :
  origin_ok u → endpoint_kept (u, e) = Ok k → eURL k.1 = URL_String u ∧ k.2 = bool_decide (Scheme u = "https") ∧ endpoint_kept (u, k.1) = Ok k ∧ endpoint_named k.1.
Proof.
  intros Hu. unfold endpoint_kept. set (name := if bool_decide (Strings.TrimSpace (eName e) = "") then _ else _). cbv zeta.
  assert (Strings.TrimSpace name = name ∧ name ≠ "") as [Ht Hne].
  { unfold name. case_bool_decide; [|split; [apply Strings.TrimSpace_idem|done]]. split; [|by apply ok_host].
    apply TrimSpace_fixed. eapply Forall_impl; [by apply ok_small|]. by intros a [? _]. }
  clearbody name. destruct (_ || _) eqn:E; [done|]. intros [= <-]. cbn [fst snd eURL eName].
  rewrite Ht, (bool_decide_eq_false_2 (name = "")) by done. rewrite E. split_and!; [done..|]. unfold endpoint_named. cbn [eName]. bool_simpl.
  split_and!; [done..|lia|done].
Qed.

Lemma endpoints_made es home kept any :
  validEndpoints url_parse home es = Ok (kept, any) →
  ∃ us, Forall2 (λ e u, eURL e = URL_String u ∧ origin_ok u) kept us ∧ Forall endpoint_named kept ∧ NoDup (originKey <$> home :: us)
    ∧ any = existsb (λ u, bool_decide (Scheme u = "https")) us ∧ (length kept ≤ MaxAppEndpoints)%nat
    ∧ (reads_back url_parse → validEndpoints url_parse home kept = Ok (kept, any)).
Proof.
  unfold validEndpoints. case_bool_decide as Hlen; [done|]. intros (out & H & E)%rbind_Ok. change (λ e, let? u := _ in Ok (u, e)) with read_endpoint in *.
  apply collect_once_ok in H as (mids & H1 & H2 & H3 & H4). simplify_eq.
  assert (Forall2 (λ ue k, origin_ok ue.1 ∧ eURL k.1 = URL_String ue.1 ∧ k.2 = bool_decide (Scheme ue.1 = "https") ∧
    endpoint_kept (ue.1, k.1) = Ok k ∧ endpoint_named k.1 ∧ (reads_back url_parse → read_endpoint k.1 = Ok (ue.1, k.1))) mids out) as Hk.
  { clear H3 H4 Hlen. revert out H2. induction H1 as [|x ue l mids Hx _ IH]; intros out H2.
    { apply Forall2_nil_inv_l in H2 as ->. constructor. }
    apply Forall2_cons_inv_l in H2 as (k & out' & Hk & H2 & ->). constructor; [|by apply IH].
    apply read_endpoint_ok in Hx as [Hx _]. destruct (parseOrigin_ok _ _ _ Hx) as [Hok _]. destruct ue as [u e]. cbn [fst] in *.
    destruct (endpoint_kept_again u e k Hok Hk) as (Hu & Hb & Hag & Hnm). split_and!; [done..|]. intros Hr. unfold read_endpoint.
    by rewrite Hu, (parseOrigin_again url_parse _ _ Hr Hx). }
  pose proof (Forall2_length _ _ _ H1). pose proof (Forall2_length _ _ _ H2). exists (mids.*1). split_and!.
  - clear -Hk. induction Hk as [|ue k mids out (? & ? & _) _ IH]; cbn; constructor; auto.
  - clear -Hk. induction Hk as [|ue k mids out (_ & _ & _ & _ & ? & _) _ IH]; cbn; constructor; auto.
  - rewrite fmap_cons, <-list_fmap_compose. constructor; [|done]. rewrite list_elem_of_fmap. intros (ue & E & Hin).
    rewrite Forall_forall in H4. apply (H4 _ Hin). rewrite E. left.
  - clear -Hk. induction Hk as [|ue k mids out (_ & _ & Hb & _) _ IH]; [done|]. cbn. by rewrite IH, Hb.
  - rewrite length_fmap. lia.
  - intros Hr. rewrite bool_decide_eq_false_2 by (rewrite length_fmap; lia).
    rewrite (proj2 (collect_once_ok _ _ _ _ _ _ out)); [done|]. exists (zip_with (λ ue k, (ue.1, k.1)) mids out).
    assert (((λ ue : URL * AppEndpoint, originKey ue.1) <$> zip_with (λ ue k, (ue.1, k.1)) mids out) = ((λ ue, originKey ue.1) <$> mids)) as Ekey.
    { clear -Hk. induction Hk; [done|]. cbn. by f_equal. }
    split_and!.
    + clear -Hk Hr. induction Hk as [|ue k mids out (_ & _ & _ & _ & _ & Hk) _ IH]; cbn; constructor; auto.
    + clear -Hk. induction Hk as [|ue k mids out (_ & _ & _ & Hk & _) _ IH]; cbn; constructor; auto.
    + by rewrite Ekey.
    + apply Forall_forall. intros ue Hin. apply (list_elem_of_fmap_2 (λ ue, originKey ue.1)) in Hin. rewrite Ekey in Hin.
      apply list_elem_of_fmap in Hin as (ue' & -> & Hin). rewrite Forall_forall in H4. by apply H4.
Qed.

(** ** The kinds *)

(** A certificate bundle that is set is bounded and has a certificate in it. *)
Definition bundle_ok (ca : string) : Prop := ca = "" ∨ (has_certificate ca = true ∧ Z.of_nat (String.length ca) ≤ 65536).

Record application_form (f : Form) : Prop := {
  af_engine : fEngine f = "";
  af_origins : ∃ u us, fAppUpstream f = URL_String u ∧ origin_ok u ∧ fAddress f = Hostname u
    ∧ Forall2 (λ e v, eURL e = URL_String v ∧ origin_ok v) (fAppEndpoints f) us ∧ Forall endpoint_named (fAppEndpoints f) ∧ NoDup (originKey <$> u :: us)
    ∧ (length (fAppEndpoints f) ≤ MaxAppEndpoints)%nat
    ∧ (fTLSCA f = "" ∨ Exists (λ v, Scheme v = "https") (u :: us));
  af_dependencies : fAppDependencies f = DependenciesPublic ∨ fAppDependencies f = DependenciesOrigins;
  af_private : private_ok (fAppPrivate f);
  af_bundle : bundle_ok (fTLSCA f);
}.

Record database_form (f : Form) : Prop := {
  df_engine : ServableEngine (fEngine f) = true;
  df_upstream : fAppUpstream f = "";
  df_mode : fTLSMode f ∈ TLSModes;
  df_verified : fTLSMode f = TLSVerifyFull → fTLSCA f ≠ "";
  df_bundle : bundle_ok (fTLSCA f);
  df_name : ContainsAny (fDatabaseName f) database_name_breaks = false ∧ (String.length (fDatabaseName f) ≤ 128)%nat;
}.

Record host_form (f : Form) : Prop := {
  hf_engine : fEngine f = "";
  hf_upstream : fAppUpstream f = "";
  hf_database : fDatabaseName f = "" ∧ fTLSMode f = "" ∧ fTLSCA f = "";
  hf_application : fAppEndpoints f = [] ∧ Strings.TrimSpace (fAppDependencies f) = "" ∧ fAppPrivate f = None;
}.

Lemma validCABundle_ok ca : validCABundle has_certificate ca = Ok tt → has_certificate ca = true ∧ Z.of_nat (String.length ca) ≤ 65536.
Proof. unfold validCABundle. destruct (_ <? _) eqn:E; [done|]. apply Z.ltb_ge in E. by destruct (has_certificate ca). Qed.

Lemma URL_String_some u : URL_String u ≠ "".
Proof. unfold URL_String. by destruct (Scheme u). Qed.

Lemma existsb_https us : existsb (λ u, bool_decide (Scheme u = "https")) us = true → Exists (λ v, Scheme v = "https") us.
Proof. rewrite existsb_true, Exists_exists. intros (u & ? & ?%bool_decide_eq_true). eauto. Qed.

Lemma validApplication_form w up f : validApplication url_parse has_certificate w up = Ok f → application_form f.
Proof.
  unfold validApplication. intros ([] & He%refuse_if_ok & H)%rbind_Ok. bool_simpl. apply rbind_Ok in H as (u & Hu & H).
  apply rbind_Ok in H as ([es any] & Hes & H). cbv zeta in H. apply rbind_Ok in H as ([] & Hd%refuse_if_ok & H).
  apply rbind_Ok in H as (q & Hq & H). apply rbind_Ok in H as ([] & Hca & H). apply Ok_inj in H as <-.
  apply parseOrigin_ok in Hu as [Hok _]. destruct (endpoints_made _ _ _ _ Hes) as (us & Hk & Hnm & Hnd & -> & Hlen & _).
  apply negb_false_iff, contains_spec in Hd. split; cbn.
  - done.
  - exists u, us. split_and!; [done..|]. case_bool_decide as Hc; [by left|]. right.
    destruct (negb _ && negb _) eqn:E; [done|]. apply andb_false_iff in E as [E|E]; apply negb_false_iff in E.
    + left. by bool_simpl.
    + right. by apply existsb_https.
  - set_unfold in Hd. destruct Hd as [|[|[]]]; auto.
  - by eapply validPrivate_ok.
  - case_bool_decide; [by left|]. destruct (_ && _); [done|]. right. by apply validCABundle_ok.
Qed.

Lemma ValidEngine_servable e : ValidEngine e = true → e ∈ ServableEngines.
Proof.
  unfold ValidEngine, EngineDefaultPorts. rewrite bool_decide_eq_true. intros H.
  assert (e ∈ dom EngineDefaultPorts) as Hd by by apply elem_of_dom.
  unfold EngineDefaultPorts in Hd. rewrite !dom_insert_L, dom_singleton_L in Hd. unfold ServableEngines. set_solver.
Qed.

Lemma validDatabase_form f g : fAppUpstream f = "" → validDatabase has_certificate f = Ok g → database_form g.
Proof.
  intros Hup. unfold validDatabase. cbv zeta. intros ([] & He%refuse_if_ok & H)%rbind_Ok. apply negb_false_iff in He.
  apply rbind_Ok in H as ([] & Hn%refuse_if_ok & H). apply rbind_Ok in H as ([] & Hm%refuse_if_ok & H). apply negb_false_iff, contains_spec in Hm.
  apply rbind_Ok in H as ([] & Hca & H). apply rbind_Ok in H as ([] & Hv%refuse_if_ok & H). apply Ok_inj in H as <-. split; cbn.
  - pose proof (ValidEngine_servable _ He) as Hin. unfold ServableEngine. unfold ServableEngines in *. set_unfold in Hin.
    destruct Hin as [->|[->|[->|[]]]]; by vm_compute.
  - done.
  - done.
  - intros Hf Hc. rewrite Hf, Hc in Hv. done.
  - unfold bundle_ok. destruct (bool_decide (Strings.TrimSpace (fTLSCA f) = "")) eqn:Ec; bool_simpl; [by left|]. right. by apply validCABundle_ok.
  - apply orb_false_iff in Hn as [Hn ?]. bool_simpl. split; [done|lia].
Qed.

(** Every form that is accepted is of exactly one kind. *)
Lemma validForm_kinds w f :
  validForm url_parse has_certificate w = Ok f →
  ValidAddress (fAddress f) = true ∧ (application_form f ∨ database_form f ∨ host_form f).
Proof.
  unfold validForm. cbv zeta. intros (g & Hg & H)%rbind_Ok. apply rbind_Ok in H as ([] & Ha%refuse_if_ok & H).
  apply negb_false_iff in Ha. destruct (bool_decide (Strings.TrimSpace (wAppUpstream w) = "")) eqn:Eu.
  - unfold notApplication in Hg. apply rbind_Ok in Hg as ([] & He%refuse_if_ok & Hg). apply rbind_Ok in Hg as ([] & Hd%refuse_if_ok & Hg).
    apply rbind_Ok in Hg as ([] & Hp%refuse_if_ok & [= <-]). bool_simpl. cbn [fEngine fAppUpstream] in H.
    destruct (negb (bool_decide (wEngine w = ""))) eqn:Ee.
    + split; [|right; left; eapply validDatabase_form; [|exact H]; done]. unfold validDatabase in H. cbv zeta in H.
      repeat (apply rbind_Ok in H as ([] & _ & H)). apply Ok_inj in H as <-. done.
    + bool_simpl. apply Ok_inj in H as <-. split; [done|]. right. right. by split.
  - pose proof (validApplication_form _ _ _ Hg) as Hf. rewrite (af_engine _ Hf) in H. cbn [fEngine fAppUpstream] in H.
    destruct (af_origins _ Hf) as (u & us & Hu & _). rewrite (bool_decide_eq_false_2 (fAppUpstream g = "")) in H
      by (rewrite Hu; apply URL_String_some). apply Ok_inj in H as <-. split; [done|by left].
Qed.

(** ** Checked again *)

Definition form_of (w : Write) : Form :=
  {| fAddress := wAddress w; fEngine := wEngine w; fEngineVersion := wEngineVersion w; fOSFamily := wOSFamily w;
     fDatabaseName := wDatabaseName w; fTLSMode := wTLSMode w; fTLSCA := wTLSCA w; fAppUpstream := wAppUpstream w;
     fAppEndpoints := wAppEndpoints w; fAppDependencies := wAppDependencies w; fAppPrivate := wAppPrivate w |}.

(** Equations between the fields of two forms. *)
Ltac fields E :=
  pose proof (f_equal fAddress E); pose proof (f_equal fEngine E); pose proof (f_equal fEngineVersion E); pose proof (f_equal fOSFamily E);
  pose proof (f_equal fDatabaseName E); pose proof (f_equal fTLSMode E); pose proof (f_equal fTLSCA E); pose proof (f_equal fAppUpstream E);
  pose proof (f_equal fAppEndpoints E); pose proof (f_equal fAppDependencies E); pose proof (f_equal fAppPrivate E);
  cbn [form_of fAddress fEngine fEngineVersion fOSFamily fDatabaseName fTLSMode fTLSCA fAppUpstream fAppEndpoints fAppDependencies fAppPrivate fst snd] in *.

Lemma or_other_idem os : or_other (or_other os) = or_other os.
Proof. unfold or_other. destruct (decide (os = "")) as [->|H]; [by vm_compute|]. by rewrite !(bool_decide_eq_false_2 (os = "")). Qed.

Lemma validApplication_again w up f :
  reads_back url_parse → validApplication url_parse has_certificate w up = Ok f → Forall (λ h, dotted h = false) (hosts_of (fAppPrivate f)) →
  Strings.TrimSpace (fAppUpstream f) = fAppUpstream f
  ∧ ∀ w', form_of w' = f → validApplication url_parse has_certificate w' (fAppUpstream f) = Ok f.
Proof.
  intros Hr. unfold validApplication at 1. intros ([] & He%refuse_if_ok & H)%rbind_Ok. apply rbind_Ok in H as (u & Hu & H).
  apply rbind_Ok in H as ([es any] & Hes & H). cbv zeta in H. set (deps := if bool_decide (Strings.ToLower _ = "") then _ else _) in H.
  apply rbind_Ok in H as ([] & Hd%refuse_if_ok & H). apply rbind_Ok in H as (q & Hq & H). apply rbind_Ok in H as ([] & Hca & H). apply Ok_inj in H as <-.
  cbn [fAppPrivate fAppUpstream]. intros Hdots. destruct (parseOrigin_ok _ _ _ Hu) as [Hok _].
  split; [by apply TrimSpace_fixed, origin_text|]. intros w' E. fields E. unfold validApplication, ParseUpstream.
  destruct (endpoints_made _ _ _ _ Hes) as (_ & _ & _ & _ & _ & _ & Hag).
  assert (Strings.ToLower (Strings.TrimSpace deps) = deps ∧ deps ≠ "") as [Hdeps Hdn].
  { apply negb_false_iff, contains_spec in Hd. clearbody deps. set_unfold in Hd. destruct Hd as [->|[->|[]]]; by vm_compute. }
  clearbody deps. repeat match goal with H : _ w' = _ |- _ => rewrite H; clear H end. rewrite He. cbn [refuse_if rbind].
  rewrite (parseOrigin_again url_parse _ _ Hr Hu). cbn [rbind]. rewrite (Hag Hr). cbn [rbind]. cbv zeta.
  rewrite Hdeps, (bool_decide_eq_false_2 (deps = "")), Hd by done. cbn [refuse_if rbind].
  rewrite (validPrivate_again _ _ Hq Hdots). cbn [rbind]. rewrite Strings.TrimSpace_idem. cbn [fst snd]. rewrite Hca. cbn [rbind].
  by rewrite or_other_idem.
Qed.

Lemma validDatabase_again f g :
  validDatabase has_certificate f = Ok g → fEngine g ≠ "" ∧ validDatabase has_certificate g = Ok g ∧ fAddress g = fAddress f
  ∧ fAppUpstream g = fAppUpstream f ∧ fAppEndpoints g = fAppEndpoints f ∧ fAppDependencies g = fAppDependencies f ∧ fAppPrivate g = fAppPrivate f.
Proof.
  unfold validDatabase at 1. cbv zeta. set (engine := Strings.ToLower (Strings.TrimSpace (fEngine f))).
  set (mode := if bool_decide (Strings.ToLower (Strings.TrimSpace (fTLSMode f)) = "") then _ else _).
  intros ([] & He%refuse_if_ok & H)%rbind_Ok. apply rbind_Ok in H as ([] & Hn%refuse_if_ok & H).
  apply rbind_Ok in H as ([] & Hm%refuse_if_ok & H). apply rbind_Ok in H as ([] & Hca & H). apply rbind_Ok in H as ([] & Hv%refuse_if_ok & H).
  apply Ok_inj in H as <-. clearbody engine mode.
  assert (Strings.ToLower (Strings.TrimSpace engine) = engine ∧ engine ≠ "") as [Hel Hen].
  { apply negb_false_iff, ValidEngine_servable in He. unfold ServableEngines in He. set_unfold in He.
    destruct He as [->|[->|[->|[]]]]; by vm_compute. }
  assert (Strings.ToLower (Strings.TrimSpace mode) = mode ∧ mode ≠ "") as [Hml Hmn].
  { apply negb_false_iff, contains_spec in Hm. unfold TLSModes in Hm. set_unfold in Hm. destruct Hm as [->|[->|[->|[->|[]]]]]; by vm_compute. }
  cbn. split_and!; try done. unfold validDatabase. cbn [fEngine fDatabaseName fTLSMode fTLSCA fEngineVersion fOSFamily fAddress]. cbv zeta.
  rewrite Hel, Hml, (bool_decide_eq_false_2 (mode = "")) by done. rewrite !Strings.TrimSpace_idem, He. cbn [refuse_if rbind].
  rewrite Hn. cbn [refuse_if rbind]. rewrite Hm. cbn [refuse_if rbind]. rewrite Hca. cbn [rbind]. rewrite Hv. cbn [refuse_if rbind].
  by rewrite or_other_idem.
Qed.

Lemma validForm_again w f :
  reads_back url_parse → validForm url_parse has_certificate w = Ok f → Forall (λ h, dotted h = false) (hosts_of (fAppPrivate f)) →
  ∀ w', form_of w' = f → validForm url_parse has_certificate w' = Ok f.
Proof.
  intros Hr. unfold validForm at 1. cbv zeta. intros (g & Hg & H)%rbind_Ok. apply rbind_Ok in H as ([] & Ha%refuse_if_ok & H).
  destruct (bool_decide (Strings.TrimSpace (wAppUpstream w) = "")) eqn:Eu.
  - unfold notApplication in Hg. apply rbind_Ok in Hg as ([] & _ & Hg). apply rbind_Ok in Hg as ([] & Hd%refuse_if_ok & Hg).
    apply rbind_Ok in Hg as ([] & _ & Hg). apply Ok_inj in Hg as <-. cbn [fEngine fAppUpstream fAddress] in *.
    destruct (negb (bool_decide (wEngine w = ""))) eqn:Ee.
    + apply validDatabase_again in H as (Hne & Hag & H1 & H2 & H3 & H4 & H5). cbn in H1, H2, H3, H4, H5.
      intros _ w' <-. unfold form_of in *. cbn in *. unfold validForm, notApplication. rewrite H2, H3, H4, H5, H1. cbv zeta.
      change (bool_decide (Strings.TrimSpace "" = "")) with true. cbv iota. rewrite Hd, Strings.TrimSpace_idem. cbn.
      rewrite Ha. cbn. rewrite bool_decide_eq_false_2 by done. cbn. by rewrite H1, H2, H3, H4, H5 in Hag.
    + bool_simpl. apply Ok_inj in H as <-. intros _ w' E. unfold plainHost in E. fields E. unfold validForm, notApplication.
      repeat match goal with H : _ w' = _ |- _ => rewrite H; clear H end. cbv zeta.
      change (bool_decide (Strings.TrimSpace "" = "")) with true. cbv iota. rewrite Strings.TrimSpace_idem, Hd, Ee.
      change (bool_decide (@nil AppEndpoint = [])) with true. change (bool_decide (Entries None = [])) with true.
      change (bool_decide ("" = "")) with true. cbn. by rewrite Ha.
  - pose proof (validApplication_form _ _ _ Hg) as Hf. rewrite (af_engine _ Hf) in H. cbn in H.
    assert (fAppUpstream g ≠ "") as Hne by (destruct (af_origins _ Hf) as (u & us & -> & _); apply URL_String_some).
    rewrite (bool_decide_eq_false_2 (fAppUpstream g = "")) in H by done. apply Ok_inj in H as <-. intros Hdots w' E.
    destruct (validApplication_again _ _ _ Hr Hg Hdots) as [Ht Hag]. unfold validForm. cbv zeta.
    assert (wAppUpstream w' = fAppUpstream g) as Hup by (by rewrite <-E). rewrite Hup, Ht, (bool_decide_eq_false_2 (fAppUpstream g = "")) by done.
    rewrite (Hag w' E). cbn [rbind]. rewrite Ha. cbn [refuse_if rbind]. rewrite (af_engine _ Hf). cbn.
    by rewrite (bool_decide_eq_false_2 (fAppUpstream g = "")).
Qed.
End Accepted.

(** * Targets as they are stored *)

(** What every stored target is. *)
Record well_formed (has_certificate : string → bool) (w : Write) : Prop := {
  wf_name : wName w ≠ "" ∧ (String.length (wName w) ≤ MaxNameLen)%nat ∧ Textsafe.Name (wName w) = Ok tt
    ∧ Strings.TrimSpace (wName w) = wName w;
  wf_address : ValidAddress (wAddress w) = true;
  wf_kind : application_form has_certificate (form_of w) ∨ database_form has_certificate (form_of w) ∨ host_form (form_of w);
  wf_os : wOSFamily w ∈ [Linux; Windows; OtherOS];
  wf_status : wStatus w ∈ [StatusActive; StatusDisabled];
  wf_retention : ∀ d, wRetentionDays w = Some d → 1 ≤ d ≤ 3650;
  wf_ports : map_Forall (λ p n, ValidProtocol p = true ∧ 1 ≤ n ≤ 65535) (wPorts w);
  wf_capabilities : NoDup (wCapabilities w) ∧ Forall (λ c, ValidProtocol c = true) (wCapabilities w);
  wf_tags : (size (wTags w) ≤ MaxTags)%nat ∧
    map_Forall (λ k v, k ≠ "" ∧ (String.length k ≤ MaxTagLen)%nat ∧ (String.length v ≤ MaxTagLen)%nat) (wTags w);
  wf_notes : (String.length (wNotes w) ≤ MaxNotesLen)%nat;
  wf_credentials : map_Forall (λ p c, ValidProtocol p = true ∧ c ≠ "") (wCredentials w);
}.

Lemma distinct_spec l seen : NoDup (distinct l seen) ∧ Forall (λ c, (c ∉ seen) ∧ c ∈ l) (distinct l seen).
Proof.
  revert seen. induction l as [|c l IH]; intros seen; cbn [distinct]; [by split; constructor|].
  destruct (contains seen c) eqn:Es.
  - destruct (IH seen) as [Hn Hf]. split; [done|]. eapply Forall_impl; [exact Hf|]. intros x [? ?]. split; [done|by right].
  - apply contains_false in Es. destruct (IH (c :: seen)) as [Hn Hf]. rewrite Forall_forall in Hf. split.
    + constructor; [|done]. intros [Hc _]%Hf. apply Hc. left.
    + constructor; [split; [done|left]|]. apply Forall_forall. intros x [Hx ?]%Hf. split; [|by right]. intros ?. apply Hx. by right.
Qed.

Lemma distinct_again l seen : NoDup l → Forall (λ c, c ∉ seen) l → distinct l seen = l.
Proof.
  revert seen. induction l as [|c l IH]; intros seen; [done|]. intros [Hc Hn]%NoDup_cons [Hs Hf]%Forall_cons. cbn [distinct].
  rewrite (proj2 (contains_false _ _) Hs). f_equal. apply IH; [done|]. rewrite Forall_forall in Hf |- *.
  intros x Hx [->|Hin]%elem_of_cons; [done|by apply (Hf x)].
Qed.

Lemma distinct_fixed l : distinct (distinct l []) [] = distinct l [].
Proof. apply distinct_again; [apply distinct_spec|]. apply Forall_true. intros x. apply not_elem_of_nil. Qed.

Lemma distinct_checked (f : string → result Error unit) l : first_error f l = Ok tt → first_error f (distinct l []) = Ok tt.
Proof.
  rewrite !first_error_ok, !Forall_forall. intros H x Hx. destruct (distinct_spec l []) as [_ Hf]. rewrite Forall_forall in Hf.
  by apply H, Hf.
Qed.

Lemma map_check {A} (f : string * A → result Error unit) (P : string → A → Prop) (m : gmap string A) :
  (∀ k v, f (k, v) = Ok tt → P k v) → first_error f (map_to_list m) = Ok tt → map_Forall P m.
Proof.
  intros Hf H. apply first_error_ok in H. rewrite Forall_forall in H. intros k v Hk. apply Hf, H. by apply elem_of_map_to_list.
Qed.

(** C30. Every target the check of the package accepts, and so every target that
is stored, is well formed: it is exactly one of a host, a database and an
application; its name is safe text, its address a host name or an IP literal,
its ports and retention in range, its capabilities distinct.  A database
verifies its server against a bundle or says in its mode that it does not; an
application's address is its upstream's host, its origins are all distinct the
way a browser tells them apart, each endpoint has a bounded name without
control characters, and a bundle is at most 64 KiB.  Each private host that is
an address is a private one, and of each private network the first address is
private: only that one is looked at, so a network wider than the private space
it begins in passes ([wide_network_accepted]). *)
Theorem validated_well_formed url_parse has_certificate w w' :
  Validate url_parse has_certificate w = Ok w' → well_formed has_certificate w'.
Proof.
  unfold Validate. cbv zeta. intros ([] & Hn & H)%rbind_Ok. apply rbind_Ok in H as (f & Hf & H). apply rbind_Ok in H as ([] & Hrest & H).
  apply Ok_inj in H as <-. destruct (validForm_kinds _ _ _ _ Hf) as [Ha Hk]. unfold valid_name in Hn.
  apply rbind_Ok in Hn as ([] & Hn%refuse_if_ok & Ht). unfold valid_rest in Hrest.
  apply rbind_Ok in Hrest as ([] & Hret & H). apply rbind_Ok in H as ([] & Hos%refuse_if_ok & H).
  apply rbind_Ok in H as ([] & Hst%refuse_if_ok & H). apply rbind_Ok in H as ([] & Hports & H). apply rbind_Ok in H as ([] & Hcaps & H).
  apply rbind_Ok in H as ([] & Hts%refuse_if_ok & H). apply rbind_Ok in H as ([] & Htags & H).
  apply rbind_Ok in H as ([] & Hnotes%refuse_if_ok & Hcreds). bool_simpl.
  rewrite contains_spec in *. split; cbn -[MaxNameLen MaxTags MaxTagLen MaxNotesLen].
  - split_and!; [done|lia| |apply Strings.TrimSpace_idem]. by destruct (Textsafe.Name _) as [[]|].
  - done.
  - by destruct f.
  - done.
  - done.
  - intros d Hd. rewrite Hd in Hret. apply refuse_if_ok in Hret. lia.
  - eapply map_check; [|exact Hports]. intros k v. unfold port_ok. cbn. intros ([] & Hp%refuse_if_ok & Hr%refuse_if_ok)%rbind_Ok.
    apply negb_false_iff in Hp. split; [done|lia].
  - split; [apply distinct_spec|]. apply first_error_ok in Hcaps. rewrite Forall_forall in Hcaps.
    eapply Forall_impl; [apply distinct_spec|]. intros c [_ Hc]. specialize (Hcaps c Hc). by apply refuse_if_ok, negb_false_iff in Hcaps.
  - split; [lia|]. eapply map_check; [|exact Htags]. intros k v Htag%refuse_if_ok. cbn -[MaxTagLen] in Htag. bool_simpl. split_and!; [done|lia|lia].
  - lia.
  - eapply map_check; [|exact Hcreds]. intros k v. unfold credential_ok. cbn.
    intros ([] & Hp%refuse_if_ok & Hr%refuse_if_ok)%rbind_Ok. apply negb_false_iff in Hp. bool_simpl. done.
Qed.

(** C31. What is stored passes the check again, unchanged: saving a target as it
was read back neither refuses nor alters it.  It rests on [url.Parse] reading a
printed origin as that origin; and a private host whose name was written with
two dots at its end is the one exception ([dots_drop_one_by_one]). *)
Theorem validated_stands url_parse has_certificate w w' :
  reads_back url_parse → Validate url_parse has_certificate w = Ok w' → Forall (λ h, dotted h = false) (hosts_of (wAppPrivate w')) →
  Validate url_parse has_certificate w' = Ok w'.
Proof.
  intros Hr. unfold Validate at 1. cbv zeta. intros ([] & Hn & H)%rbind_Ok. apply rbind_Ok in H as (f & Hf & H).
  apply rbind_Ok in H as ([] & Hrest & H). set (status := if bool_decide (wStatus w = "") then _ else _) in *.
  assert (status ≠ "") as Hs. { unfold status. case_bool_decide; [by vm_compute|done]. } clearbody status.
  apply Ok_inj in H as <-. intros Hd. unfold Validate. rewrite (validForm_again _ _ _ f Hr Hf Hd) by by destruct f.
  cbn [rbind wName wStatus]. rewrite Strings.TrimSpace_idem, Hn, (bool_decide_eq_false_2 (status = "")) by done. cbn [rbind].
  unfold valid_rest in *. cbn [wRetentionDays wPorts wCapabilities wTags wNotes wCredentials].
  apply rbind_Ok in Hrest as ([] & -> & H). apply rbind_Ok in H as ([] & -> & H). apply rbind_Ok in H as ([] & -> & H).
  apply rbind_Ok in H as ([] & -> & H). apply rbind_Ok in H as ([] & Hcaps & H). rewrite (distinct_checked _ _ Hcaps).
  apply rbind_Ok in H as ([] & -> & H). apply rbind_Ok in H as ([] & -> & H). apply rbind_Ok in H as ([] & -> & H). rewrite H.
  cbn [rbind]. by rewrite distinct_fixed.
Qed.

(** An origin written out, read by its scheme alone. *)
Definition sample_parse (s : string) : option URL :=
  if Strings.HasPrefix s "http://" then Some (plain "http" (TrimPrefix s "http://"))
  else if Strings.HasPrefix s "https://" then Some (plain "https" (TrimPrefix s "https://")) else None.

Lemma sample_reads_back : reads_back sample_parse.
Proof.
  intros raw u H. unfold sample_parse in H. assert (∀ h, sample_parse ("http://" ++ h)%string = Some (plain "http" h)) as H1.
  { intros h. unfold sample_parse, TrimPrefix. assert (Strings.HasPrefix ("http://" ++ h) "http://" = true) as -> by (by destruct h).
    cbv iota. do 2 f_equal. apply (of_to_bytes h). }
  assert (∀ h, sample_parse ("https://" ++ h)%string = Some (plain "https" h)) as H2.
  { intros h. unfold sample_parse, TrimPrefix. change (Strings.HasPrefix ("https://" ++ h) "http://") with false.
    assert (Strings.HasPrefix ("https://" ++ h) "https://" = true) as -> by (by destruct h). do 2 f_equal. apply (of_to_bytes h). }
  intros Hs _. unfold URL_String. cbn [Scheme uHost plain]. destruct Hs as [-> | ->]; [apply H1|apply H2].
Qed.

Definition sample_write : Write :=
  {| wName := " wiki "; wAddress := ""; wEngine := ""; wEngineVersion := ""; wRetentionDays := Some 30; wDatabaseName := ""; wTLSMode := "";
     wTLSCA := " pem "; wAppUpstream := " http://Wiki.Corp:8080"; wAppEndpoints := [{| eName := ""; eURL := "https://SSO.corp" |}];
     wAppDependencies := ""; wAppPrivate := Some {| Networks := ["::ffff:10.1.0.0/112"]; Hosts := ["CDN.corp.:443"; "[FD00::7]:8443"] |};
     wOSFamily := ""; wPorts := {[ SSH := 2222 ]}; wCapabilities := [SSH; SSH]; wTags := {[ "team" := "docs" ]}; wStatus := "";
     wNotes := ""; wCredentials := ∅ |}.

Definition sample_kept : Write :=
  {| wName := "wiki"; wAddress := "wiki.corp"; wEngine := ""; wEngineVersion := ""; wRetentionDays := Some 30; wDatabaseName := ""; wTLSMode := "";
     wTLSCA := "pem"; wAppUpstream := "http://wiki.corp:8080"; wAppEndpoints := [{| eName := "sso.corp"; eURL := "https://sso.corp" |}];
     wAppDependencies := "public"; wAppPrivate := Some {| Networks := ["10.1.0.0/16"]; Hosts := ["cdn.corp:443"; "[fd00::7]:8443"] |};
     wOSFamily := "other"; wPorts := {[ SSH := 2222 ]}; wCapabilities := [SSH]; wTags := {[ "team" := "docs" ]}; wStatus := "active";
     wNotes := ""; wCredentials := ∅ |}.

Lemma sample_validates : Validate sample_parse (λ _, true) sample_write = Ok sample_kept.
Proof. vm_compute. reflexivity. Qed.

Lemma validated_well_formed_witness : well_formed (λ _, true) sample_kept.
Proof. exact (validated_well_formed sample_parse (λ _, true) sample_write sample_kept sample_validates). Defined.

Lemma sample_undotted : Forall (λ h, dotted h = false) (hosts_of (wAppPrivate sample_kept)).
Proof. repeat constructor. Qed.

Lemma validated_stands_witness : Validate sample_parse (λ _, true) sample_kept = Ok sample_kept.
Proof. exact (validated_stands sample_parse (λ _, true) sample_write sample_kept sample_reads_back sample_validates sample_undotted). Defined.

(** A host name written with two dots at its end loses one at each save, so the
allowance reads as another one after a save that changed nothing. *)
Lemma dots_drop_one_by_one :
  private_host "cdn.corp..:443" = Ok "cdn.corp.:443" ∧ private_host "cdn.corp.:443" = Ok "cdn.corp:443".
Proof. vm_compute. done. Qed.

(** Only a network's first address is looked at: one that is wider than the
private space it starts in is accepted, public addresses and all. *)
Lemma wide_network_accepted :
  private_network "10.0.0.0/7" = Ok "10.0.0.0/7" ∧
  (∃ n, ParseCIDR "10.0.0.0/7" = Some n ∧ Contains n (ParseIP "11.0.0.1") = true) ∧ Ipspace.Reserved (ParseIP "11.0.0.1") = "".
Proof. split_and!; [by vm_compute| |by vm_compute]. eexists. split; by vm_compute. Qed.
