(* ===== verification/PolicyRepo.v ===== *)
(** Who holds which policy: the tables of access policies, their subjects and
the groups, src/internal/policy/repo.go and src/internal/group/group.go, and the
handlers that change them (policy/handlers.go, policy/review.go,
group/handlers.go) with the people each of them re-checks.

A handler runs whole, without another one between its queries.  The order of
names is the database's collation and its LOWER an argument; so are what the
account, target and group repositories answer ([Checks]), and whether the
database lists the people a change covers.  A body that does not decode is refused
with nothing changed, and is not modelled. *)
From stdpp Require Import sorting.
From S2P Require Import Prelude GoText Protocol Textsafe Policy PolicyEval.
Local Open Scope Z_scope.

(** * Tables *)

Record Group := {
  grName : string; grDescription : string; grIdPID : string; grExternalID : string; grCreatedAt : time; grUpdatedAt : time;
}.

#[export] Instance Subject_countable : Countable Subject.
Proof.
  refine (inj_countable' (λ s, (sKind s, sID s)) (λ ks, {| sKind := ks.1; sID := ks.2 |}) _). by intros [].
Defined.

(** A policy's row has no subjects; they are the rows of
[access_policy_subjects].  A membership is (group, user). *)
Record Tables := {
  tUsers : gset string;
  tGroups : gmap string Group;
  tMembers : gset (string * string);
  tPolicies : gmap string Policy;
  tSubjects : gset (string * Subject);
}.

Definition set_policies (ps : gmap string Policy) (ss : gset (string * Subject)) (t : Tables) : Tables :=
  {| tUsers := tUsers t; tGroups := tGroups t; tMembers := tMembers t; tPolicies := ps; tSubjects := ss |}.

Definition set_groups (gs : gmap string Group) (ms : gset (string * string)) (ss : gset (string * Subject)) (t : Tables) : Tables :=
  {| tUsers := tUsers t; tGroups := gs; tMembers := ms; tPolicies := tPolicies t; tSubjects := ss |}.

Inductive RepoErr := ErrNotFound | ErrDuplicate | ErrInvalidInput (e : Policy.Error) | ErrUnknownSubject.

Definition set_gid (id : string) (g : Grant) : Grant := {|
  gID := id; Kind := Kind g; Targets := Targets g; Tags := Tags g; Access := Access g; SignIn := SignIn g; RequireMFA := RequireMFA g;
  AllowClipboard := AllowClipboard g; AllowFileTransfer := AllowFileTransfer g; AllowDevTools := AllowDevTools g;
  IdleTimeoutMinutes := IdleTimeoutMinutes g; MaxSessionMinutes := MaxSessionMinutes g; TimeWindows := TimeWindows g;
  RetentionDays := RetentionDays g |}.

(** [encodeGrants]: a grant without an id gets a new one. *)
Definition encodeGrants (newIDs : nat → string) (l : list Grant) : list Grant :=
  imap (λ i g, if bool_decide (gID g = "") then set_gid (newIDs i) g else g) l.

Definition with_subjects (ss : list Subject) (p : Policy) : Policy := {|
  pID := pID p; pName := pName p; Description := Description p; Enabled := Enabled p; Subjects := ss; Grants := Grants p;
  CreatedBy := CreatedBy p; CreatedAt := CreatedAt p; UpdatedAt := UpdatedAt p; ReviewedAt := ReviewedAt p; ReviewedBy := ReviewedBy p |}.

(** The row of a policy that is written with these grants. *)
Definition policy_row (p : Policy) (grants : list Grant) (created : time) (updated : time) (reviewed : option time) (by_ : string) : Policy := {|
  pID := pID p; pName := pName p; Description := Description p; Enabled := Enabled p; Subjects := []; Grants := grants;
  CreatedBy := CreatedBy p; CreatedAt := created; UpdatedAt := updated; ReviewedAt := reviewed; ReviewedBy := by_ |}.

Definition set_id (id : string) (p : Policy) : Policy := {|
  pID := id; pName := pName p; Description := Description p; Enabled := Enabled p; Subjects := Subjects p; Grants := Grants p;
  CreatedBy := CreatedBy p; CreatedAt := CreatedAt p; UpdatedAt := UpdatedAt p; ReviewedAt := ReviewedAt p; ReviewedBy := ReviewedBy p |}.

(** The UNIQUE of a policy's name. *)
Definition name_used (name except : string) (t : Tables) : bool :=
  existsb (λ ip, bool_decide (pName ip.2 = name) && negb (bool_decide (ip.1 = except))) (map_to_list (tPolicies t)).

(** The row a subject references. *)
Definition subject_exists (t : Tables) (s : Subject) : bool :=
  if bool_decide (sKind s = SubjectGroup) then bool_decide (is_Some (tGroups t !! sID s)) else bool_decide (sID s ∈ tUsers t).

(** A subject as its row is read back: one that is no group names a user. *)
Definition subject_row (s : Subject) : Subject :=
  if bool_decide (sKind s = SubjectGroup) then s else {| sKind := SubjectUser; sID := sID s |}.

(** [writeSubjects], into the subjects of a transaction. *)
Definition writeSubjects (id : string) (ss : list Subject) (t : Tables) (rows : gset (string * Subject)) : result RepoErr (gset (string * Subject)) :=
  if forallb (subject_exists t) ss then Ok (list_to_set ((λ s, (id, subject_row s)) <$> ss) ∪ rows) else Err ErrUnknownSubject.

Definition without_policy (id : string) (rows : gset (string * Subject)) : gset (string * Subject) := filter (λ r, r.1 ≠ id) rows.

Section Repo.
Context `{TimeZones}.
(** The database's order of names and ids. *)
Variable le : string → string → bool.

Definition valid (p : Policy) : result RepoErr Policy := match Validate p with Ok p => Ok p | Err e => Err (ErrInvalidInput e) end.

Definition Create (newID : string) (newIDs : nat → string) (now : time) (p : Policy) (t : Tables) : result RepoErr (Policy * Tables) :=
  let? p := valid p in
  let p := set_id newID p in
  let grants := encodeGrants newIDs (Grants p) in
  let? _ := refuse_if (name_used (pName p) newID t) ErrDuplicate in
  let? ss := writeSubjects newID (Subjects p) t (tSubjects t) in
  Ok (with_grants p grants, set_policies (<[newID := policy_row p grants (TimeArg now) (TimeArg now) None ""]> (tPolicies t)) ss t).

Definition Update (newIDs : nat → string) (now : time) (p : Policy) (t : Tables) : result RepoErr (Policy * Tables) :=
  let? p := valid p in
  let grants := encodeGrants newIDs (Grants p) in
  match tPolicies t !! pID p with
  | None => Err ErrNotFound
  | Some old =>
      let? _ := refuse_if (name_used (pName p) (pID p) t) ErrDuplicate in
      let? ss := writeSubjects (pID p) (Subjects p) t (without_policy (pID p) (tSubjects t)) in
      let row := {| pID := pID p; pName := pName p; Description := Description p; Enabled := Enabled p; Subjects := []; Grants := grants;
                    CreatedBy := CreatedBy old; CreatedAt := CreatedAt old; UpdatedAt := TimeArg now; ReviewedAt := ReviewedAt old;
                    ReviewedBy := ReviewedBy old |} in
      Ok (with_grants p grants, set_policies (<[pID p := row]> (tPolicies t)) ss t)
  end.

Definition Delete (id : string) (t : Tables) : result RepoErr Tables :=
  match tPolicies t !! id with
  | None => Err ErrNotFound
  | Some _ => Ok (set_policies (delete id (tPolicies t)) (without_policy id (tSubjects t)) t)
  end.

Definition Reviewed (id reviewerID : string) (at_ : time) (t : Tables) : result RepoErr Tables :=
  match tPolicies t !! id with
  | None => Err ErrNotFound
  | Some p => Ok (set_policies (<[id := {| pID := pID p; pName := pName p; Description := Description p; Enabled := Enabled p;
                     Subjects := Subjects p; Grants := Grants p; CreatedBy := CreatedBy p; CreatedAt := CreatedAt p; UpdatedAt := UpdatedAt p;
                     ReviewedAt := Some (TimeArg at_); ReviewedBy := reviewerID |}]> (tPolicies t)) (tSubjects t) t)
  end.

(** The subjects of a policy: groups first, each kind in id order. *)
Definition subject_le (a b : Subject) : Prop :=
  if bool_decide (sKind a = sKind b) then le (sID a) (sID b) = true else sKind a = SubjectGroup.

#[export] Instance subject_le_dec : RelDecision subject_le.
Proof. intros a b. unfold subject_le. destruct (bool_decide _); apply _. Defined.

Definition subjects_of (id : string) (t : Tables) : list Subject :=
  merge_sort subject_le (elements (set_map snd (filter (λ r, r.1 = id) (tSubjects t)) : gset Subject)).

Definition attachSubjects (t : Tables) (ps : list Policy) : list Policy := (λ p, with_subjects (subjects_of (pID p) t) p) <$> ps.

Definition Get (id : string) (t : Tables) : result RepoErr Policy :=
  match tPolicies t !! id with
  | None => Err ErrNotFound
  | Some p => Ok (with_subjects (subjects_of id t) p)
  end.

Definition name_le (p q : Policy) : Prop := le (pName p) (pName q) = true.

#[export] Instance name_le_dec : RelDecision name_le.
Proof. intros p q. unfold name_le. apply _. Defined.

(** The rows of a query, in name order. *)
Definition by_name (m : gmap string Policy) : list Policy := merge_sort name_le (map_to_list m).*2.

Definition List_ (afterName : string) (limit : Z) (t : Tables) : list Policy * string :=
  let limit := if (limit <=? 0) || (500 <? limit) then 50 else limit in
  let out := take (Z.to_nat limit + 1) (by_name (filter (λ ip, le (pName ip.2) afterName = false) (tPolicies t))) in
  if limit <? Z.of_nat (length out) then
    let out := take (Z.to_nat limit) out in (attachSubjects t out, default "" (pName <$> last out))
  else (attachSubjects t out, "").

(** A policy reaches a user by name or through a group. *)
Definition reaches (t : Tables) (id userID : string) : Prop :=
  (id, {| sKind := SubjectUser; sID := userID |}) ∈ tSubjects t
  ∨ set_Exists (λ r, r.1 = id ∧ sKind r.2 = SubjectGroup ∧ (sID r.2, userID) ∈ tMembers t) (tSubjects t).

#[export] Instance reaches_dec t id userID : base.Decision (reaches t id userID).
Proof. unfold reaches. apply _. Defined.

Definition ForUser (userID : string) (t : Tables) : list Policy :=
  attachSubjects t (by_name (filter (λ ip, Enabled ip.2 = true ∧ reaches t ip.1 userID) (tPolicies t))).

Definition ForGroup (groupID : string) (t : Tables) : list Policy :=
  attachSubjects t (by_name (filter (λ ip, (ip.1, {| sKind := SubjectGroup; sID := groupID |}) ∈ tSubjects t) (tPolicies t))).

(** The users the subjects reach, sorted, once each. *)
Definition covered (ss : list Subject) (t : Tables) : gset string :=
  list_to_set (sID <$> filter (λ s, sKind s = SubjectUser) ss)
  ∪ set_map snd (filter (λ m, m.1 ∈ sID <$> filter (λ s, sKind s ≠ SubjectUser) ss) (tMembers t)).

Definition string_le (a b : string) : Prop := String.leb a b = true.

#[export] Instance string_le_dec : RelDecision string_le.
Proof. intros a b. unfold string_le. apply _. Defined.

Definition UsersCovered (ss : list Subject) (t : Tables) : list string := merge_sort string_le (elements (covered ss t)).

(** ** Taking a target out *)

Record Removal := { rmPolicyID : string; rmName : string; GrantsRemoved : nat; NoGrantsLeft : bool }.

Definition removal (targetID asgID : string) (p : Policy) : option Removal :=
  let '(grants, n, changed) := WithoutTarget p targetID asgID in
  if changed : bool then Some {| rmPolicyID := pID p; rmName := pName p; GrantsRemoved := n; NoGrantsLeft := bool_decide (grants = []) |} else None.

(** The loop over the pages of [List]; [fuel] bounds the pages. *)
Fixpoint usage_from (fuel : nat) (after targetID asgID : string) (t : Tables) : list Removal :=
  match fuel with
  | O => []
  | S fuel =>
      let '(batch, next) := List_ after 500 t in
      omap (removal targetID asgID) batch ++ (if bool_decide (next = "") then [] else usage_from fuel next targetID asgID t)
  end.

Definition TargetUsage (targetID asgID : string) (t : Tables) : list Removal :=
  usage_from (S (size (tPolicies t))) "" targetID asgID t.

(** The same loop collecting the names of the policies that reference it. *)
Fixpoint referencing_from (fuel : nat) (after targetID asgID : string) (t : Tables) : list string :=
  match fuel with
  | O => []
  | S fuel =>
      let '(batch, next) := List_ after 500 t in
      (pName <$> filter (λ p, References p targetID asgID = true) batch)
      ++ (if bool_decide (next = "") then [] else referencing_from fuel next targetID asgID t)
  end.

Definition Referencing (targetID asgID : string) (t : Tables) : list string :=
  referencing_from (S (size (tPolicies t))) "" targetID asgID t.

(** One policy of the loop; [newIDs] are drawn for grants that have no id. *)
Definition remove_one (newIDs : string → nat → string) (now : time) (targetID asgID : string) (p : Policy) : Policy :=
  let '(grants, _, changed) := WithoutTarget p targetID asgID in
  if changed : bool then
    policy_row p (encodeGrants (newIDs (pID p)) grants) (CreatedAt p) (TimeArg now) (ReviewedAt p) (ReviewedBy p)
  else p.

Definition RemoveTargetTx (newIDs : string → nat → string) (now : time) (targetID asgID : string) (t : Tables) : list Removal * Tables :=
  (omap (removal targetID asgID) (by_name (tPolicies t)),
   set_policies (remove_one newIDs now targetID asgID <$> tPolicies t) (tSubjects t) t).

(** ** What the dashboard counts *)

Definition no_mfa (g : Grant) : bool := negb (bool_decide (Access g = AccessApproval)) && negb (RequireMFA g).

Definition CountStandingNoMFA (t : Tables) : nat * nat :=
  let ns := List.filter (λ n, (0 <? n)%nat)
              ((λ ip, length (List.filter no_mfa (Grants ip.2))) <$> map_to_list (filter (λ ip, Enabled ip.2 = true) (tPolicies t))) in
  (sum_list ns, length ns).
End Repo.

(** * Groups *)

Inductive GroupErr := GNotFound | GDuplicate | GInvalidInput | GSynced | GUnknownUser.

Definition valid_group_name (name : string) : bool :=
  bool_decide (1 ≤ String.length name ≤ 64)%nat && is_ok (Textsafe.Name name).

(** Drops empty and repeated ids, keeping the first order. *)
Fixpoint distinctIDs (ids seen : list string) : list string :=
  match ids with
  | [] => []
  | id :: ids =>
      let id := Strings.TrimSpace id in
      if bool_decide (id = "") || contains seen id then distinctIDs ids seen else id :: distinctIDs ids (id :: seen)
  end.

Section Groups.
(** The database's LOWER. *)
Variable lower : string → string.

Definition nameTaken (name except : string) (t : Tables) : bool :=
  existsb (λ ig, bool_decide (lower (grName ig.2) = lower name) && negb (bool_decide (ig.1 = except))) (map_to_list (tGroups t)).

(** The UNIQUE of a group's name. *)
Definition group_name_used (name except : string) (t : Tables) : bool :=
  existsb (λ ig, bool_decide (grName ig.2 = name) && negb (bool_decide (ig.1 = except))) (map_to_list (tGroups t)).

Definition CreateWithMembers (newID : string) (now : time) (name description : string) (userIDs : list string) (t : Tables)
    : result GroupErr Tables :=
  let name := Strings.TrimSpace name in
  let? _ := refuse_if (negb (valid_group_name name)) GInvalidInput in
  let? _ := refuse_if (nameTaken name "" t) GDuplicate in
  let members := distinctIDs userIDs [] in
  let? _ := refuse_if (negb (forallb (λ u, bool_decide (u ∈ tUsers t)) members)) GUnknownUser in
  let? _ := refuse_if (group_name_used name newID t) GDuplicate in
  let g := {| grName := name; grDescription := description; grIdPID := ""; grExternalID := ""; grCreatedAt := TimeArg now; grUpdatedAt := TimeArg now |} in
  Ok (set_groups (<[newID := g]> (tGroups t)) (list_to_set ((λ u, (newID, u)) <$> members) ∪ tMembers t) (tSubjects t) t).

Definition group_with (name description : string) (updated : time) (g : Group) : Group :=
  {| grName := name; grDescription := description; grIdPID := grIdPID g; grExternalID := grExternalID g; grCreatedAt := grCreatedAt g;
     grUpdatedAt := updated |}.

Definition group_Update (now : time) (id name description : string) (t : Tables) : result GroupErr Tables :=
  let name := Strings.TrimSpace name in
  let? _ := refuse_if (negb (valid_group_name name)) GInvalidInput in
  let? _ := refuse_if (nameTaken name id t) GDuplicate in
  match tGroups t !! id with
  | None => Err GNotFound
  | Some g =>
      let? _ := refuse_if (group_name_used name id t) GDuplicate in
      Ok (set_groups (<[id := group_with name description (TimeArg now) g]> (tGroups t)) (tMembers t) (tSubjects t) t)
  end.
End Groups.

(** Deleting a group takes its memberships and its subject rows with it; what
is returned is the names of the policies that named it. *)
Definition group_Delete (le : string → string → bool) (id : string) (t : Tables) : result GroupErr (list string * Tables) :=
  match tGroups t !! id with
  | None => Err GNotFound
  | Some _ =>
      Ok (pName <$> by_name le (filter (λ ip, (ip.1, {| sKind := SubjectGroup; sID := id |}) ∈ tSubjects t) (tPolicies t)),
          set_groups (delete id (tGroups t)) (filter (λ m, m.1 ≠ id) (tMembers t))
            (filter (λ r, r.2 ≠ {| sKind := SubjectGroup; sID := id |}) (tSubjects t)) t)
  end.

(** The members of a group. *)
Definition members_of (groupID : string) (t : Tables) : gset string := set_map snd (filter (λ m, m.1 = groupID) (tMembers t)).

(** Replaces the membership, and says who was added and who removed. *)
Definition SetMembers (now : time) (groupID : string) (userIDs : list string) (t : Tables) : result GroupErr (gset string * gset string * Tables) :=
  match tGroups t !! groupID with
  | None => Err GNotFound
  | Some g =>
      if negb (bool_decide (grIdPID g = "")) then Err GSynced
      else
        let want : gset string := list_to_set (filter (λ u, u ≠ "") userIDs) in
        let have := members_of groupID t in
        let added := want ∖ have in
        let removed := have ∖ want in
        if bool_decide (added ⊆ tUsers t) then
          Ok (added, removed,
              set_groups (<[groupID := group_with (grName g) (grDescription g) (TimeArg now) g]> (tGroups t))
                (set_map (λ u, (groupID, u)) added ∪ filter (λ m, m.1 = groupID → m.2 ∉ removed) (tMembers t)) (tSubjects t) t)
        else Err GInvalidInput
  end.

(** * The handlers *)

Record grantInput := {
  giID : string; giKind : string; giTargets : list GrantTarget; giTags : option TagMatch; giAccess : string; giSignIn : string;
  giRequireMFA : option bool; giAllowClipboard : bool; giAllowFileTransfer : bool; giAllowDevTools : bool; giRequireWatcher : bool;
  giIdleTimeoutMinutes : Z; giMaxSessionMinutes : option Z; giTimeWindows : list TimeWindow; giRetentionDays : option Z;
}.

(** [inKeys] are the members the body has. *)
Record input := {
  inKeys : list string; inName : string; inDescription : string; inEnabled : option bool; inSubjects : list Subject; inGrants : list grantInput;
}.

Definition legacyFields : list string := [
  "group_id"; "user_id"; "target_selector"; "protocols"; "rules"; "time_windows"; "max_session_minutes";
  "idle_timeout_minutes"; "retention_days"; "allow_clipboard"; "allow_file_transfer"; "require_mfa"; "require_approval"].

Definition grant_of (g : grantInput) : Grant := {|
  gID := giID g; Kind := giKind g; Targets := giTargets g; Tags := giTags g; Access := giAccess g; SignIn := giSignIn g;
  RequireMFA := default true (giRequireMFA g); AllowClipboard := giAllowClipboard g; AllowFileTransfer := giAllowFileTransfer g;
  AllowDevTools := giAllowDevTools g; IdleTimeoutMinutes := giIdleTimeoutMinutes g; MaxSessionMinutes := giMaxSessionMinutes g;
  TimeWindows := giTimeWindows g; RetentionDays := giRetentionDays g |}.

(** [in.apply] to a policy that is otherwise [p]. *)
Definition apply_input (i : input) (p : Policy) : Policy := {|
  pID := pID p; pName := inName i; Description := inDescription i; Enabled := default true (inEnabled i); Subjects := inSubjects i;
  Grants := grant_of <$> inGrants i; CreatedBy := CreatedBy p; CreatedAt := CreatedAt p; UpdatedAt := UpdatedAt p; ReviewedAt := ReviewedAt p;
  ReviewedBy := ReviewedBy p |}.

Definition blank (id createdBy : string) (created : time) : Policy := {|
  pID := id; pName := ""; Description := ""; Enabled := false; Subjects := []; Grants := []; CreatedBy := createdBy; CreatedAt := created;
  UpdatedAt := zero_time; ReviewedAt := None; ReviewedBy := "" |}.

Inductive Answer :=
| ACreated (p : Policy)
| ASaved (p : Policy)
| ADone
| ARefused (status : Z) (code : string)
| AInternal.

Definition BadRequest : Answer := ARefused 400 "bad_request".

Definition decode (i : input) : result Answer unit :=
  let? _ := refuse_if (existsb (contains (inKeys i)) legacyFields) (ARefused 400 "legacy_policy_shape") in
  refuse_if (existsb giRequireWatcher (inGrants i)) (ARefused 400 "four_eyes_removed").

Definition is_protocol_error (e : Policy.Error) : bool :=
  match e with
  | GrantError _ (TargetProtocols _ (ErrProtocolNotForKind _)) | GrantError _ (TagProtocols (ErrProtocolNotForKind _)) => true
  | _ => false
  end.

Definition fail (e : RepoErr) : Answer :=
  match e with
  | ErrNotFound => ARefused 404 "not_found"
  | ErrDuplicate => ARefused 409 "conflict"
  | ErrInvalidInput e => if is_protocol_error e then ARefused 400 "protocol_not_for_kind" else BadRequest
  | ErrUnknownSubject => ARefused 422 "invalid_subject"
  end.

(** What the other repositories answer: whether an account can connect ([None]
for one that is not there), the kind of a live target, whether a live group has
the id; [Err] is a query that failed. *)
Record Checks := {
  CanConnect : string → result unit (option bool);
  TargetKind : string → result unit (option string);
  GroupExists : string → result unit bool;
}.

Definition checkSubject (c : Checks) (s : Subject) : result Answer unit :=
  if negb (bool_decide (sKind s = SubjectUser)) then Ok tt
  else match CanConnect c (sID s) with
       | Err _ => Err AInternal
       | Ok None => Err (ARefused 422 "invalid_subject")
       | Ok (Some can) => refuse_if (negb can) (ARefused 422 "review_only_subject")
       end.

Definition checkNamed (c : Checks) (kind : string) (t : GrantTarget) : result Answer unit :=
  let found : result unit (option string) :=
    if bool_decide (kind = KindAutoscaling) then
      match GroupExists c (gtID t) with Err _ => Err tt | Ok true => Ok (Some KindAutoscaling) | Ok false => Ok None end
    else TargetKind c (gtID t) in
  match found with
  | Err _ => Err AInternal
  | Ok None => Err (ARefused 422 "unknown_target")
  | Ok (Some k) => refuse_if (negb (bool_decide (k = kind))) (ARefused 422 "kind_mismatch")
  end.

Definition answer_of {A} (r : result RepoErr A) : result Answer A := match r with Ok a => Ok a | Err e => Err (fail e) end.

Section Handlers.
Context `{TimeZones}.
Variable le : string → string → bool.

(** [checkWrite]: the policy as [Validate] left it. *)
Definition checkWrite (c : Checks) (p : Policy) : result Answer Policy :=
  let? p := answer_of (valid p) in
  let? _ := first_error (checkSubject c) (Subjects p) in
  let? _ := first_error (λ g, first_error (checkNamed c (Kind g)) (Targets g)) (Grants p) in
  Ok p.

(** A handler answers, leaves the tables, and names the people re-checked. *)
Definition outcome : Type := Answer * Tables * list string.

(** The people the subjects reach, or nobody when the database fails to list
them ([up] is [false]): the change is stored by then, and the log says so. *)
Definition recheck (up : bool) (ss : list Subject) (t : Tables) : list string := if up then UsersCovered ss t else [].

Definition or_fail (t : Tables) (r : result Answer outcome) : outcome := match r with Ok o => o | Err a => (a, t, []) end.

Definition create (up : bool) (who newID : string) (newIDs : nat → string) (now : time) (c : Checks) (i : input) (t : Tables) : outcome :=
  or_fail t (
    let? _ := decode i in
    let p := apply_input i (blank "" who zero_time) in
    let? _ := refuse_if (bool_decide (Subjects p = [])) BadRequest in
    let? _ := refuse_if (existsb (λ g, negb (bool_decide (gID g = ""))) (Grants p)) (ARefused 422 "unknown_grant") in
    let? p := checkWrite c p in
    let? pt := answer_of (Create newID newIDs now p t) in
    Ok (ACreated pt.1, pt.2, recheck up (Subjects pt.1) pt.2)).

Definition update (up : bool) (id : string) (newIDs : nat → string) (now : time) (c : Checks) (i : input) (t : Tables) : outcome :=
  or_fail t (
    let? _ := decode i in
    let? old := answer_of (Get le id t) in
    let p := apply_input i (blank (pID old) (CreatedBy old) (CreatedAt old)) in
    let? _ := refuse_if (existsb (λ g, negb (bool_decide (gID g = "")) && negb (contains (gID <$> Grants old) (gID g))) (Grants p))
                (ARefused 422 "unknown_grant") in
    let? p := checkWrite c p in
    let? pt := answer_of (Update newIDs now p t) in
    Ok (ASaved pt.1, pt.2, recheck up (Subjects old ++ Subjects pt.1) pt.2)).

(** Whom the policy covered is read before the deletion, and a failure refuses it. *)
Definition del (up : bool) (id : string) (t : Tables) : outcome :=
  or_fail t (
    let? p := answer_of (Get le id t) in
    let? covered := if up then Ok (UsersCovered (Subjects p) t) else Err AInternal in
    let? t' := answer_of (Delete (pID p) t) in
    Ok (ADone, t', covered)).

Record reviewInput := { Remove : list Subject; Note : string }.

Definition maxNote : Z := 2000.

Definition completeReview (up : bool) (id who : string) (newIDs : nat → string) (now : time) (i : reviewInput) (t : Tables) : outcome :=
  if maxNote <? Z.of_nat (String.length (Strings.TrimSpace (Note i))) then (BadRequest, t, [])
  else match Get le id t with
  | Err e => (fail e, t, [])
  | Ok old =>
      if negb (forallb (λ s, bool_decide (s ∈ Subjects old)) (Remove i)) then (ARefused 422 "unknown_subject", t, [])
      else
        let kept := List.filter (λ s, negb (bool_decide (s ∈ Remove i))) (Subjects old) in
        let written : result RepoErr (Tables * list string) :=
          if bool_decide (Remove i = []) then Ok (t, [])
          else let? pt := Update newIDs now (with_subjects kept old) t in Ok (pt.2, recheck up (Subjects old) pt.2) in
        match written with
        | Err e => (fail e, t, [])
        | Ok (t', us) =>
            match Reviewed (pID old) who now t' with
            | Err e => (fail e, t', us)
            | Ok t' => match Get le (pID old) t' with Ok p => (ASaved p, t', us) | Err e => (fail e, t', us) end
            end
        end
  end.

(** The group's handlers; a failure is answered by its error. *)
Definition group_fail (e : GroupErr) : Answer :=
  match e with
  | GNotFound => ARefused 404 "not_found"
  | GDuplicate => ARefused 409 "conflict"
  | GSynced => ARefused 409 "synced"
  | GUnknownUser => ARefused 422 "invalid_user"
  | GInvalidInput => BadRequest
  end.

Definition group_create (lower : string → string) (newID : string) (now : time) (name description : string) (userIDs : list string) (t : Tables) : outcome :=
  match CreateWithMembers lower newID now (Strings.TrimSpace name) description userIDs t with
  | Ok t' => (ADone, t', [])
  | Err e => (group_fail e, t, [])
  end.

Definition group_update (lower : string → string) (now : time) (id name description : string) (t : Tables) : outcome :=
  match tGroups t !! id with
  | None => (group_fail GNotFound, t, [])
  | Some g =>
      match group_Update lower now id (if bool_decide (name = "") then grName g else name) description t with
      | Ok t' => (ADone, t', [])
      | Err e => (group_fail e, t, [])
      end
  end.

Definition group_del (id : string) (t : Tables) : outcome :=
  match tGroups t !! id with
  | None => (group_fail GNotFound, t, [])
  | Some _ =>
      let members := elements (members_of id t) in
      match group_Delete le id t with
      | Ok (_, t') => (ADone, t', members)
      | Err e => (group_fail e, t, [])
      end
  end.

(** [userIDs] is [None] when the body has no [user_ids]. *)
Definition setMembers (now : time) (id : string) (userIDs : option (list string)) (t : Tables) : outcome :=
  match userIDs with
  | None => (BadRequest, t, [])
  | Some us =>
      match SetMembers now id us t with
      | Ok (_, removed, t') => (ADone, t', elements removed)
      | Err e => (group_fail e, t, [])
      end
  end.
End Handlers.

(** * Who is touched by a change *)

(** What the decision reads of a policy. *)
Definition strip (p : Policy) : Policy := {|
  pID := pID p; pName := pName p; Description := ""; Enabled := Enabled p; Subjects := []; Grants := Grants p; CreatedBy := "";
  CreatedAt := 0; UpdatedAt := 0; ReviewedAt := None; ReviewedBy := "" |}.

Lemma merge_sort_fmap {A B} (R : relation A) (S : relation B) `{!RelDecision R, !RelDecision S} (f : A → B) l :
  (∀ x y, R x y ↔ S (f x) (f y)) → merge_sort S (f <$> l) = f <$> merge_sort R l.
Proof.
  intros HR.
  assert (∀ l k, list_merge S (f <$> l) (f <$> k) = f <$> list_merge R l k) as Hm.
  { induction l0 as [|x l0 IH]; intros k; [by destruct k|]. induction k as [|y k IHk]; [done|]. cbn [fmap list_fmap list_merge].
    destruct (decide (R x y)) as [Hr|Hr]; [rewrite decide_True by by apply HR|rewrite decide_False by by rewrite <-HR]; cbn; f_equal.
    - apply (IH (y :: k)).
    - apply IHk. }
  unfold merge_sort.
  set (fs := λ st : list (option (list A)), map (option_map (map f)) st).
  assert (∀ st l, merge_list_to_stack S (fs st) (f <$> l) = fs (merge_list_to_stack R st l)) as Hst.
  { induction st as [|[m|] st IH]; intros k; [done| |done]. cbn [fs map option_map merge_list_to_stack]. f_equal.
    rewrite <-(IH (list_merge R m k)). f_equal. apply Hm. }
  assert (∀ st, merge_stack S (fs st) = f <$> merge_stack R st) as Hk.
  { induction st as [|[m|] st IH]; [done| |exact IH]. cbn [fs map option_map merge_stack]. fold (fs st). rewrite IH. apply Hm. }
  assert (∀ l st, merge_sort_aux S (fs st) (f <$> l) = f <$> merge_sort_aux R st l) as Ha.
  { induction l0 as [|x l0 IH]; intros st; cbn [fmap list_fmap merge_sort_aux]; [apply Hk|]. rewrite <-IH. f_equal. apply (Hst st [x]). }
  apply (Ha l []).
Qed.

(** The foreign keys, and each policy under its own id. *)
Record WF_tables (t : Tables) : Prop := {
  wt_ids : map_Forall (λ id p, pID p = id) (tPolicies t);
  wt_subjects : ∀ id s, (id, s) ∈ tSubjects t → is_Some (tPolicies t !! id) ∧ subject_exists t s = true ∧ (sKind s = SubjectGroup ∨ sKind s = SubjectUser);
  wt_members : ∀ g u, (g, u) ∈ tMembers t → is_Some (tGroups t !! g) ∧ u ∈ tUsers t;
}.

Section Touched.
Context `{TimeZones} (le : string → string → bool) (lower : string → string).

(** What a user holds: the policies that apply, as the decision reads them. *)
Definition held (u : string) (t : Tables) : list Policy := strip <$> ForUser le u t.

Definition rel (t : Tables) (u id : string) : option Policy :=
  match tPolicies t !! id with
  | Some p => if bool_decide (Enabled p = true ∧ reaches t id u) then Some (strip p) else None
  | None => None
  end.

Lemma held_by_rel u t t' : (∀ id, rel t u id = rel t' u id) → held u t = held u t'.
Proof.
  assert (∀ t, held u t = merge_sort (name_le le) (map_to_list (strip <$> filter (λ ip, Enabled ip.2 = true ∧ reaches t ip.1 u) (tPolicies t))).*2) as Hh.
  { intros t0. unfold held, ForUser, attachSubjects, by_name. rewrite <-list_fmap_compose.
    rewrite map_to_list_fmap, <-list_fmap_compose.
    transitivity (strip <$> merge_sort (name_le le) (map_to_list (filter (λ ip, Enabled ip.2 = true ∧ reaches t0 ip.1 u) (tPolicies t0))).*2).
    { by apply list_fmap_ext. }
    rewrite <-(merge_sort_fmap (name_le le) (name_le le) strip) by done. f_equal. rewrite <-list_fmap_compose. by apply list_fmap_ext. }
  intros Hrel. rewrite !Hh. do 3 f_equal. apply map_eq. intros id. rewrite !lookup_fmap. specialize (Hrel id). unfold rel in Hrel.
  assert (∀ t0, strip <$> filter (λ ip, Enabled ip.2 = true ∧ reaches t0 ip.1 u) (tPolicies t0) !! id = rel t0 u id) as Hr; [|by rewrite !Hr].
  intros t0. unfold rel. destruct (tPolicies t0 !! id) as [p|] eqn:E.
  - case_bool_decide as Hb; [by rewrite (map_lookup_filter_Some_2 _ _ _ p)|]. rewrite map_lookup_filter_None_2; [done|].
    right. intros x Hx. rewrite E in Hx. by simplify_eq.
  - rewrite map_lookup_filter_None_2; [done|by left].
Qed.

Lemma elem_of_subjects_of id t s : s ∈ subjects_of le id t ↔ (id, s) ∈ tSubjects t.
Proof.
  unfold subjects_of. rewrite merge_sort_Permutation, elem_of_elements, elem_of_map. split.
  - intros ([i s'] & -> & Hin). apply elem_of_filter in Hin as [Hi Hin]. cbn in *. by subst.
  - intros Hin. exists (id, s). split; [done|]. by apply elem_of_filter.
Qed.

Lemma elem_of_covered u ss t :
  u ∈ UsersCovered ss t ↔ ∃ s, s ∈ ss ∧ ((sKind s = SubjectUser ∧ sID s = u) ∨ (sKind s ≠ SubjectUser ∧ (sID s, u) ∈ tMembers t)).
Proof.
  unfold UsersCovered, covered. rewrite merge_sort_Permutation, elem_of_elements, elem_of_union, elem_of_list_to_set, elem_of_map. split.
  - intros [Hu|([g u'] & -> & Hm)].
    + apply list_elem_of_fmap in Hu as (s & -> & [Hk Hs]%list_elem_of_filter). eauto 6.
    + apply elem_of_filter in Hm as [Hg Hm]. apply list_elem_of_fmap in Hg as (s & Es & [Hk Hs]%list_elem_of_filter). cbn in *. subst. eauto 6.
  - intros (s & Hs & [[Hk <-]|[Hk Hm]]).
    + left. apply list_elem_of_fmap_2. by apply list_elem_of_filter.
    + right. exists (sID s, u). split; [done|]. apply elem_of_filter. split; [|done]. cbn.
      apply (list_elem_of_fmap_2 sID). by apply list_elem_of_filter.
Qed.

Lemma reaches_spec t id u :
  reaches t id u ↔ ∃ s, (id, s) ∈ tSubjects t ∧ ((sKind s = SubjectUser ∧ sID s = u) ∨ (sKind s = SubjectGroup ∧ (sID s, u) ∈ tMembers t)).
Proof.
  unfold reaches, set_Exists. split.
  - intros [Hu|([i s] & Hin & Hi & Hk & Hm)]; [exists {| sKind := SubjectUser; sID := u |}; auto|]. cbn in *. subst. eauto 6.
  - intros ([k i] & Hin & [[Hk Hi]|[Hk Hm]]); cbn in *; [left; by subst|]. right. exists (id, {| sKind := k; sID := i |}). auto.
Qed.

(** Users the rows of a policy reach are those its subjects cover. *)
Lemma reaches_covered t id ss u :
  (∀ s, (id, s) ∈ tSubjects t → s ∈ ss) → reaches t id u → u ∈ UsersCovered ss t.
Proof.
  intros Hs (s & Hin & Hk)%reaches_spec. apply elem_of_covered. exists s. split; [by apply Hs|].
  destruct Hk as [?|[Hk Hm]]; [by left|]. right. rewrite Hk. done.
Qed.

Lemma UsersCovered_mono ss ss' t u : ss ⊆ ss' → u ∈ UsersCovered ss t → u ∈ UsersCovered ss' t.
Proof. intros Hs. rewrite !elem_of_covered. naive_solver. Qed.

Lemma UsersCovered_members ss t t' : tMembers t = tMembers t' → ∀ u, u ∈ UsersCovered ss t ↔ u ∈ UsersCovered ss t'.
Proof. intros Hm u. rewrite !elem_of_covered, Hm. done. Qed.

(** A change to one policy leaves alone whoever it does not cover, before or
after. *)
Lemma one_policy u pid t t' :
  tMembers t = tMembers t' →
  (∀ id, id ≠ pid → tPolicies t !! id = tPolicies t' !! id) → (∀ id s, id ≠ pid → (id, s) ∈ tSubjects t ↔ (id, s) ∈ tSubjects t') →
  (rel t u pid = rel t' u pid ∨ ¬ reaches t pid u ∧ ¬ reaches t' pid u) → held u t = held u t'.
Proof.
  intros Hm Hp Hs Hpid. apply held_by_rel. intros id. destruct (decide (id = pid)) as [->|Hne].
  - destruct Hpid as [Hr|[H1 H2]]; [done|]. unfold rel. assert (∀ t0, ¬ reaches t0 pid u → match tPolicies t0 !! pid with
      | Some p => if bool_decide (Enabled p = true ∧ reaches t0 pid u) then Some (strip p) else None | None => None end = None) as Hn.
    { intros t0 H0. destruct (tPolicies t0 !! pid); [|done]. rewrite bool_decide_eq_false_2; [done|naive_solver]. }
    by rewrite !Hn.
  - unfold rel. rewrite (Hp id Hne). destruct (tPolicies t' !! id); [|done].
    rewrite (bool_decide_ext (Enabled p = true ∧ reaches t id u) (Enabled p = true ∧ reaches t' id u)); [done|].
    rewrite !reaches_spec, Hm. by setoid_rewrite (λ s, Hs id s Hne).
Qed.

Lemma valid_ok p q :
  valid p = Ok q → pID q = pID p ∧ Subjects q = Subjects p ∧ Enabled q = Enabled p ∧ Forall (λ s, sKind s = SubjectGroup ∨ sKind s = SubjectUser) (Subjects q).
Proof.
  unfold valid. destruct (Validate p) as [q'|] eqn:E; [|done]. intros Hq. apply Ok_inj in Hq as <-.
  destruct (Validate_inv _ _ E) as (grants & -> & _ & Hwf). split_and!; [done..|]. destruct (wf_subjects _ Hwf) as (_ & _ & Hf).
  eapply Forall_impl; [exact Hf|]. naive_solver.
Qed.

Lemma writeSubjects_ok id ss t rows rows' :
  Forall (λ s, sKind s = SubjectGroup ∨ sKind s = SubjectUser) ss → writeSubjects id ss t rows = Ok rows' →
  (∀ i s, (i, s) ∈ rows' ↔ (i = id ∧ s ∈ ss) ∨ (i, s) ∈ rows) ∧ Forall (λ s, subject_exists t s = true) ss.
Proof.
  intros Hk. unfold writeSubjects. destruct (forallb _ _) eqn:Ef; [|done]. intros E. apply Ok_inj in E as <-.
  rewrite forallb_true in Ef. split; [|by apply Forall_forall]. intros i s. rewrite elem_of_union, elem_of_list_to_set, list_elem_of_fmap.
  assert (∀ s, s ∈ ss → subject_row s = s) as Hr.
  { intros s0 Hs0. rewrite Forall_forall in Hk. unfold subject_row. case_bool_decide; [done|]. destruct (Hk _ Hs0) as [|Hu]; [done|].
    destruct s0. cbn in *. by subst. }
  split; [intros [(s0 & Es & Hs0)|?]; [left|by right]|intros [[-> Hs]|?]; [left|by right]].
  - rewrite (Hr _ Hs0) in Es. by simplify_eq.
  - exists s. by rewrite Hr.
Qed.

(** What writing a policy leaves: only its own row and subjects are new. *)
Record wrote (pid : string) (ss : list Subject) (t t' : Tables) : Prop := {
  wr_users : tUsers t' = tUsers t; wr_groups : tGroups t' = tGroups t; wr_members : tMembers t' = tMembers t;
  wr_policies : ∀ id, id ≠ pid → tPolicies t' !! id = tPolicies t !! id;
  wr_row : ∃ p, tPolicies t' !! pid = Some p ∧ pID p = pid;
  wr_others : ∀ id s, id ≠ pid → (id, s) ∈ tSubjects t ↔ (id, s) ∈ tSubjects t';
  wr_own : ∀ s, (pid, s) ∈ tSubjects t' ↔ s ∈ ss;
  wr_exist : Forall (λ s, subject_exists t s = true ∧ (sKind s = SubjectGroup ∨ sKind s = SubjectUser)) ss;
}.

Lemma wrote_WF pid ss t t' : WF_tables t → wrote pid ss t t' → WF_tables t'.
Proof.
  intros [Hi Hs Hm] [Hu Hg Hmm Hp (p & Hrow & Hpid) Ho Hown Hex]. assert (∀ s, subject_exists t' s = subject_exists t s) as Hse.
  { intros s. unfold subject_exists. by rewrite Hu, Hg. }
  split.
  - intros id q Hq. destruct (decide (id = pid)) as [->|Hne]; [by simplify_eq|]. apply Hi. by rewrite <-Hp.
  - intros id s Hin. rewrite Hse. destruct (decide (id = pid)) as [->|Hne].
    + rewrite Hrow. apply Hown in Hin. rewrite Forall_forall in Hex. destruct (Hex _ Hin). split_and!; [by eexists|done|done].
    + rewrite Hp by done. apply Hs. by apply Ho.
  - rewrite Hmm, Hg, Hu. done.
Qed.

Lemma wrote_held u pid ss ss0 t t' :
  wrote pid ss t t' → (∀ s, (pid, s) ∈ tSubjects t → s ∈ ss0) → ss ⊆ ss0 → u ∉ UsersCovered ss0 t' → held u t = held u t'.
Proof.
  intros [Hu Hg Hmm Hp Hrow Ho Hown Hex] H0 Hsub Hn. eapply (one_policy u pid); [done| |done|].
  - intros id Hne. symmetry. by apply Hp.
  - right. split; intros Hr; apply Hn.
    + apply (UsersCovered_members ss0 t t'); [done|]. by apply (reaches_covered t pid).
    + eapply reaches_covered; [|exact Hr]. intros s Hs%Hown. by apply Hsub.
Qed.

Lemma Create_wrote newID newIDs now p t q t' :
  WF_tables t → tPolicies t !! newID = None → Create newID newIDs now p t = Ok (q, t') → wrote newID (Subjects q) t t' ∧ Subjects q = Subjects p.
Proof.
  intros Hwf Hnew. unfold Create. intros (p1 & Hv & H1)%rbind_Ok. apply valid_ok in Hv as (_ & Hss & _ & Hk).
  cbv zeta in H1. apply rbind_Ok in H1 as ([] & _ & H1). apply rbind_Ok in H1 as (rows & Hw & H1). apply Ok_inj in H1. simplify_eq.
  cbn [Subjects set_id with_grants set_checked] in *. destruct (writeSubjects_ok _ _ _ _ _ Hk Hw) as [Hin Hex]. split; [|done].
  assert (∀ s, (newID, s) ∉ tSubjects t) as Hnone by (intros s [[? Hs] _]%(wt_subjects _ Hwf); congruence).
  split; cbn; try done.
  - intros id Hne. by rewrite lookup_insert_ne.
  - eexists. rewrite lookup_insert_eq. done.
  - intros id s Hne. rewrite Hin. naive_solver.
  - intros s. rewrite Hin. split; [intros [[_ ?]|?%Hnone]; done|naive_solver].
  - rewrite Forall_forall in Hex, Hk |- *. auto.
Qed.

Lemma Update_wrote newIDs now p t q t' :
  Update newIDs now p t = Ok (q, t') → wrote (pID p) (Subjects q) t t' ∧ Subjects q = Subjects p ∧ is_Some (tPolicies t !! pID p).
Proof.
  unfold Update. intros (p1 & Hv & H1)%rbind_Ok. apply valid_ok in Hv as (Hid & Hss & _ & Hk). rewrite <-Hid, <-Hss.
  destruct (tPolicies t !! pID p1) as [old|] eqn:Eo; [|done]. cbv zeta in H1. apply rbind_Ok in H1 as ([] & _ & H1).
  apply rbind_Ok in H1 as (rows & Hw & H1). apply Ok_inj in H1. simplify_eq. cbn [Subjects with_grants set_checked] in *.
  destruct (writeSubjects_ok _ _ _ _ _ Hk Hw) as [Hin Hex]. split_and!; [|done|by eexists].
  assert (∀ i s, (i, s) ∈ without_policy (pID p1) (tSubjects t) ↔ i ≠ pID p1 ∧ (i, s) ∈ tSubjects t) as Hwo.
  { intros i s. unfold without_policy. by rewrite elem_of_filter. }
  split; cbn; try done.
  - intros id Hne. by rewrite lookup_insert_ne.
  - eexists. rewrite lookup_insert_eq. done.
  - intros id s Hne. rewrite Hin, Hwo. naive_solver.
  - intros s. rewrite Hin, Hwo. naive_solver.
  - rewrite Forall_forall in Hex, Hk |- *. auto.
Qed.

(** ** Every handler *)

Inductive op :=
| OCreate (up : bool) (who newID : string) (newIDs : nat → string) (now : time) (c : Checks) (i : input)
| OUpdate (up : bool) (id : string) (newIDs : nat → string) (now : time) (c : Checks) (i : input)
| ODelete (up : bool) (id : string)
| OReview (up : bool) (id who : string) (newIDs : nat → string) (now : time) (i : reviewInput)
| OGroupCreate (newID : string) (now : time) (name description : string) (userIDs : list string)
| OGroupUpdate (now : time) (id name description : string)
| OGroupDelete (id : string)
| OSetMembers (now : time) (id : string) (userIDs : option (list string)).

Definition apply_op (o : op) (t : Tables) : outcome :=
  match o with
  | OCreate up who newID newIDs now c i => create up who newID newIDs now c i t
  | OUpdate up id newIDs now c i => update le up id newIDs now c i t
  | ODelete up id => del le up id t
  | OReview up id who newIDs now i => completeReview le up id who newIDs now i t
  | OGroupCreate newID now name description us => group_create lower newID now name description us t
  | OGroupUpdate now id name description => group_update lower now id name description t
  | OGroupDelete id => group_del le id t
  | OSetMembers now id us => setMembers now id us t
  end.

(** The ids a handler draws are new. *)
Definition fresh (o : op) (t : Tables) : Prop :=
  match o with
  | OCreate _ _ newID _ _ _ _ => tPolicies t !! newID = None
  | OGroupCreate newID _ _ _ _ => tGroups t !! newID = None
  | _ => True
  end.

(** The database lists the people a change of a policy covers, if it is asked to. *)
Definition lists_covered (o : op) : bool :=
  match o with
  | OCreate up _ _ _ _ _ _ | OUpdate up _ _ _ _ _ | ODelete up _ | OReview up _ _ _ _ _ => up
  | _ => true
  end.

(** The same request when it does. *)
Definition when_listed (o : op) : op :=
  match o with
  | OCreate _ who newID newIDs now c i => OCreate true who newID newIDs now c i
  | OUpdate _ id newIDs now c i => OUpdate true id newIDs now c i
  | ODelete _ id => ODelete true id
  | OReview _ id who newIDs now i => OReview true id who newIDs now i
  | o => o
  end.

(** Joining a group that was there before. *)
Definition joins (o : op) (t t' : Tables) (u : string) : Prop :=
  match o with
  | OSetMembers _ id _ => ((id, u) ∉ tMembers t) ∧ ((id, u) ∈ tMembers t')
  | _ => False
  end.

(** The tables stay well formed, and whoever holds something else is
re-checked, or has joined a group; unless the people covered could not be listed. *)
Definition settles (o : op) (t : Tables) (out : outcome) : Prop :=
  WF_tables out.1.2 ∧ (lists_covered o = true → ∀ u, held u t = held u out.1.2 ∨ u ∈ out.2 ∨ joins o t out.1.2 u).

Lemma settles_refused o t a us : WF_tables t → settles o t (a, t, us).
Proof. intros Hwf. split; [done|]. intros _ u. by left. Qed.

Lemma or_fail_settles o t r : WF_tables t → (∀ out, r = Ok out → settles o t out) → settles o t (or_fail t r).
Proof. intros Hwf Hr. destruct r; cbn [or_fail]; [by apply Hr|by apply settles_refused]. Qed.

Lemma answer_of_ok {A} (r : result RepoErr A) a : answer_of r = Ok a → r = Ok a.
Proof. unfold answer_of. destruct r; [|done]. intros E. by apply Ok_inj in E as ->. Qed.

Lemma Get_ok id t p : Get le id t = Ok p → is_Some (tPolicies t !! id) ∧ Subjects p = subjects_of le id t ∧ (WF_tables t → pID p = id).
Proof.
  unfold Get. destruct (tPolicies t !! id) as [q|] eqn:E; [|done]. intros Hp. apply Ok_inj in Hp as <-. split_and!; [by eexists|done|].
  intros Hwf. cbn. by apply (wt_ids _ Hwf).
Qed.

Lemma checkWrite_ok c p q : checkWrite c p = Ok q → pID q = pID p ∧ Subjects q = Subjects p.
Proof.
  unfold checkWrite. intros (q' & Hq%answer_of_ok & H1)%rbind_Ok. apply rbind_Ok in H1 as ([] & _ & H1). apply rbind_Ok in H1 as ([] & _ & H1).
  apply Ok_inj in H1 as <-. by apply valid_ok in Hq as (? & ? & _).
Qed.

Lemma create_settles up who newID newIDs now c i t :
  WF_tables t → tPolicies t !! newID = None → settles (OCreate up who newID newIDs now c i) t (create up who newID newIDs now c i t).
Proof.
  intros Hwf Hnew. apply or_fail_settles; [done|]. intros out H1. apply rbind_Ok in H1 as ([] & _ & H1). cbv zeta in H1.
  apply rbind_Ok in H1 as ([] & _ & H1). apply rbind_Ok in H1 as ([] & _ & H1). apply rbind_Ok in H1 as (p & _ & H1).
  apply rbind_Ok in H1 as ([q t'] & Hc%answer_of_ok & H1). apply Ok_inj in H1 as <-. cbn [fst snd] in *.
  destruct (Create_wrote _ _ _ _ _ _ _ Hwf Hnew Hc) as [Hw _]. split; [by eapply wrote_WF|]. cbn. intros -> u.
  destruct (decide (u ∈ UsersCovered (Subjects q) t')) as [Hu|Hu]; [by right; left|]. left.
  eapply wrote_held; [exact Hw| |done|exact Hu]. intros s [[x Hx] _]%(wt_subjects _ Hwf). congruence.
Qed.

Lemma update_settles up id newIDs now c i t : WF_tables t → settles (OUpdate up id newIDs now c i) t (update le up id newIDs now c i t).
Proof.
  intros Hwf. apply or_fail_settles; [done|]. intros out H1. apply rbind_Ok in H1 as ([] & _ & H1).
  apply rbind_Ok in H1 as (old & Hg%answer_of_ok & H1). cbv zeta in H1. apply rbind_Ok in H1 as ([] & _ & H1).
  apply rbind_Ok in H1 as (p & Hp%checkWrite_ok & H1). apply rbind_Ok in H1 as ([q t'] & Hc%answer_of_ok & H1). apply Ok_inj in H1 as <-.
  cbn [fst snd] in *. destruct (Get_ok _ _ _ Hg) as (_ & Hold & Hid). specialize (Hid Hwf). destruct Hp as [Hpid _]. cbn in Hpid.
  destruct (Update_wrote _ _ _ _ _ _ Hc) as (Hw & _ & _). rewrite Hpid, Hid in Hw. split; [by eapply wrote_WF|]. cbn. intros -> u.
  destruct (decide (u ∈ UsersCovered (Subjects old ++ Subjects q) t')) as [Hu|Hu]; [by right; left|]. left.
  eapply wrote_held; [exact Hw| | |exact Hu].
  - intros s Hs%elem_of_subjects_of. rewrite Hold. apply elem_of_app. by left.
  - intros s Hs. apply elem_of_app. by right.
Qed.

Lemma del_settles up id t : WF_tables t → settles (ODelete up id) t (del le up id t).
Proof.
  intros Hwf. apply or_fail_settles; [done|]. intros out H1. apply rbind_Ok in H1 as (p & Hg%answer_of_ok & H1). cbv zeta in H1.
  apply rbind_Ok in H1 as (us & Hus & H1). destruct up; [apply Ok_inj in Hus as <-|done].
  apply rbind_Ok in H1 as (t' & Hd%answer_of_ok & H1). apply Ok_inj in H1 as <-. destruct (Get_ok _ _ _ Hg) as (_ & Hss & Hid).
  specialize (Hid Hwf). unfold Delete in Hd. rewrite Hid in Hd. destruct (tPolicies t !! id) as [q|] eqn:Eq; [|done]. apply Ok_inj in Hd as <-.
  assert (∀ i s, (i, s) ∈ without_policy id (tSubjects t) ↔ i ≠ id ∧ (i, s) ∈ tSubjects t) as Hwo.
  { intros i s. unfold without_policy. by rewrite elem_of_filter. }
  split; cbn.
  - destruct Hwf as [Hi Hs Hm]. split; cbn; [by apply map_Forall_delete| |done]. intros i s [Hne Hin]%Hwo. rewrite lookup_delete_ne by done.
    by apply Hs.
  - intros _ u. destruct (decide (u ∈ UsersCovered (Subjects p) t)) as [Hu|Hu]; [by right; left|]. left.
    apply (one_policy u id); cbn; [done|intros i Hne; by rewrite lookup_delete_ne|intros i s Hne; rewrite Hwo; naive_solver|].
    right. split; intros Hr.
    + apply Hu. eapply reaches_covered; [|exact Hr]. intros s Hs. rewrite Hss. by apply elem_of_subjects_of.
    + apply reaches_spec in Hr as (s & Hs & _). cbn in Hs. apply Hwo in Hs as [? _]. done.
Qed.

Lemma Reviewed_settles id who at_ t t' :
  WF_tables t → Reviewed id who at_ t = Ok t' → WF_tables t' ∧ tMembers t' = tMembers t ∧ ∀ u, held u t = held u t'.
Proof.
  intros Hwf. unfold Reviewed. destruct (tPolicies t !! id) as [p|] eqn:Ep; [|done]. intros E. apply Ok_inj in E as <-.
  pose proof (wt_ids _ Hwf _ _ Ep) as Hid. split_and!; [|done|].
  - destruct Hwf as [Hi Hs Hm]. split; cbn; [by apply map_Forall_insert_2| |done]. intros i s Hin. destruct (Hs _ _ Hin) as (Hp & ?).
    split; [|done]. destruct (decide (i = id)) as [->|Hne]; [by rewrite lookup_insert_eq|by rewrite lookup_insert_ne].
  - intros u. apply (one_policy u id); cbn; [done|intros i Hne; by rewrite lookup_insert_ne|done|]. left.
    unfold rel. cbn. rewrite lookup_insert_eq, Ep. done.
Qed.

Lemma review_settles up id who newIDs now i t :
  WF_tables t → settles (OReview up id who newIDs now i) t (completeReview le up id who newIDs now i t).
Proof.
  intros Hwf. unfold completeReview. destruct (_ <? _); [by apply settles_refused|].
  destruct (Get le id t) as [old|] eqn:Eg; [|by apply settles_refused]. destruct (negb _); [by apply settles_refused|]. cbv zeta.
  destruct (Get_ok _ _ _ Eg) as (_ & Hss & Hid). specialize (Hid Hwf).
  set (written := if bool_decide (Remove i = []) then _ else _).
  assert (∀ t' us, written = Ok (t', us) → WF_tables t' ∧ (up = true → ∀ u, held u t = held u t' ∨ u ∈ us)) as Hw.
  { intros t' us. unfold written. case_bool_decide; [intros E; apply Ok_inj in E; simplify_eq; split; [done|intros _; by left]|].
    intros ([q t2] & Hu & E)%rbind_Ok. apply Ok_inj in E. simplify_eq. cbn [fst snd] in *.
    destruct (Update_wrote _ _ _ _ _ _ Hu) as (Hw & Hsq & _). cbn [pID with_subjects Subjects] in *.
    split; [by eapply wrote_WF|]. intros -> u. destruct (decide (u ∈ UsersCovered (Subjects old) t2)) as [?|Hu']; [by right|]. left.
    eapply wrote_held; [exact Hw| | |exact Hu'].
    - intros s Hs%elem_of_subjects_of. by rewrite Hss.
    - intros s. rewrite Hsq. intros Hs. by apply elem_of_filter_b in Hs as [? _]. }
  destruct written as [[t' us]|e]; [|by apply settles_refused]. destruct (Hw _ _ eq_refl) as [Hwf' Hh].
  assert (settles (OReview up id who newIDs now i) t (AInternal, t', us)) as Hst by (split; [done|]; cbn; intros Hup u; destruct (Hh Hup u); auto).
  destruct (Reviewed _ _ _ t') as [t2|] eqn:Er; [|exact Hst].
  destruct (Reviewed_settles _ _ _ _ _ Hwf' Er) as (Hwf2 & _ & Hr).
  assert (settles (OReview up id who newIDs now i) t (AInternal, t2, us)) as Hst2.
  { split; [done|]. cbn. intros Hup u. rewrite <-Hr. destruct (Hh Hup u); auto. }
  destruct (Get le (pID old) t2); exact Hst2.
Qed.
(** Who is in none of the groups whose members or subjects change holds the
same policies. *)
Lemma same_reach u t t' :
  tPolicies t' = tPolicies t → (∀ id, reaches t id u ↔ reaches t' id u) → held u t = held u t'.
Proof.
  intros Hp Hr. apply held_by_rel. intros id. unfold rel. rewrite Hp. destruct (tPolicies t !! id) as [p|]; [|done].
  rewrite (bool_decide_ext (Enabled p = true ∧ reaches t id u) (Enabled p = true ∧ reaches t' id u)); [done|]. by rewrite Hr.
Qed.

Lemma one_group u g t t' :
  tPolicies t' = tPolicies t → (∀ i s, s ≠ {| sKind := SubjectGroup; sID := g |} → (i, s) ∈ tSubjects t ↔ (i, s) ∈ tSubjects t') →
  (∀ h, h ≠ g → (h, u) ∈ tMembers t ↔ (h, u) ∈ tMembers t') →
  ((∀ i, (i, {| sKind := SubjectGroup; sID := g |}) ∈ tSubjects t ∧ (g, u) ∈ tMembers t
     ↔ (i, {| sKind := SubjectGroup; sID := g |}) ∈ tSubjects t' ∧ (g, u) ∈ tMembers t')) → held u t = held u t'.
Proof.
  intros Hp Hs Hm Hg. apply same_reach; [done|]. intros id. rewrite !reaches_spec.
  assert (∀ t1 t2, (∀ i s, s ≠ {| sKind := SubjectGroup; sID := g |} → (i, s) ∈ tSubjects t1 → (i, s) ∈ tSubjects t2) →
    (∀ h, h ≠ g → (h, u) ∈ tMembers t1 → (h, u) ∈ tMembers t2) →
    (∀ i, (i, {| sKind := SubjectGroup; sID := g |}) ∈ tSubjects t1 → (g, u) ∈ tMembers t1 →
          (i, {| sKind := SubjectGroup; sID := g |}) ∈ tSubjects t2 ∧ (g, u) ∈ tMembers t2) →
    (∃ s, (id, s) ∈ tSubjects t1 ∧ (sKind s = SubjectUser ∧ sID s = u ∨ sKind s = SubjectGroup ∧ (sID s, u) ∈ tMembers t1)) →
    ∃ s, (id, s) ∈ tSubjects t2 ∧ (sKind s = SubjectUser ∧ sID s = u ∨ sKind s = SubjectGroup ∧ (sID s, u) ∈ tMembers t2)) as Hone.
  { intros t1 t2 Hs1 Hm1 Hg1 ([k i] & Hin & [[Hk Hi]|[Hk Hi]]); cbn in Hk, Hi; subst.
    - eexists. split; [apply Hs1; [|exact Hin]; by intros [=]|]. by left.
    - destruct (decide (i = g)) as [->|Hne].
      + destruct (Hg1 _ Hin Hi) as [H2 H3]. eexists. split; [exact H2|]. by right.
      + eexists. split; [apply Hs1; [|exact Hin]; by intros [= ->]|]. right. split; [done|]. by apply Hm1. }
  split; apply Hone; intros; try (by apply Hs); try (by apply Hm); by apply Hg.
Qed.

(** No membership or subject names a group that is not there. *)
Lemma no_rows_of_new g t : WF_tables t → tGroups t !! g = None → (∀ u, (g, u) ∉ tMembers t) ∧ ∀ i, (i, {| sKind := SubjectGroup; sID := g |}) ∉ tSubjects t.
Proof.
  intros Hwf Hn. split.
  - intros u [[x Hx] _]%(wt_members _ Hwf). congruence.
  - intros i (_ & He & _)%(wt_subjects _ Hwf). unfold subject_exists in He. cbn in He. apply bool_decide_eq_true_1 in He as [x Hx]. congruence.
Qed.

Lemma subject_exists_more t t' s :
  tUsers t' = tUsers t → (∀ g, is_Some (tGroups t !! g) → is_Some (tGroups t' !! g)) → subject_exists t s = true → subject_exists t' s = true.
Proof.
  intros Hu Hg. unfold subject_exists. rewrite Hu. destruct (bool_decide _); [|done]. rewrite !bool_decide_eq_true. apply Hg.
Qed.

Lemma group_create_settles newID now name description us t :
  WF_tables t → tGroups t !! newID = None →
  settles (OGroupCreate newID now name description us) t (group_create lower newID now name description us t).
Proof.
  intros Hwf Hnew. unfold group_create. destruct (CreateWithMembers _ _ _ _ _ _ t) as [t'|] eqn:E; [|by apply settles_refused].
  unfold CreateWithMembers in E. cbv zeta in E. apply rbind_Ok in E as ([] & _ & E). apply rbind_Ok in E as ([] & _ & E).
  apply rbind_Ok in E as ([] & Hus & E). apply rbind_Ok in E as ([] & _ & E). apply Ok_inj in E as <-.
  apply refuse_if_ok, negb_false_iff in Hus. rewrite forallb_true in Hus. destruct (no_rows_of_new _ _ Hwf Hnew) as [Hnm Hns].
  split; cbn [fst snd].
  - destruct Hwf as [Hi Hs Hm]. split; cbn; [done| |].
    + intros i s Hin. destruct (Hs _ _ Hin) as (Hp & Hse & Hk). split_and!; [done| |done]. eapply subject_exists_more; [| |exact Hse]; [done|].
      intros g Hg. cbn. by apply lookup_insert_is_Some'; right.
    + intros g u Hin. apply elem_of_union in Hin as [Hin|Hin].
      * apply elem_of_list_to_set, list_elem_of_fmap in Hin as (u' & [= -> ->] & Hu). rewrite lookup_insert_eq. split; [by eexists|].
        apply Hus in Hu. by apply bool_decide_eq_true_1 in Hu.
      * destruct (Hm _ _ Hin). split; [by apply lookup_insert_is_Some'; right|done].
  - intros _ u. left. apply (one_group u newID); cbn; [done..| |].
    + intros h Hne. rewrite elem_of_union, elem_of_list_to_set, list_elem_of_fmap. naive_solver.
    + intros i. split; intros [Hi _]; by apply Hns in Hi.
Qed.

Lemma group_update_settles now id name description t :
  WF_tables t → settles (OGroupUpdate now id name description) t (group_update lower now id name description t).
Proof.
  intros Hwf. unfold group_update. destruct (tGroups t !! id) as [g|] eqn:Eg; [|by apply settles_refused].
  destruct (group_Update _ _ _ _ _ t) as [t'|] eqn:E; [|by apply settles_refused]. unfold group_Update in E. cbv zeta in E.
  apply rbind_Ok in E as ([] & _ & E). apply rbind_Ok in E as ([] & _ & E). rewrite Eg in E. apply rbind_Ok in E as ([] & _ & E). apply Ok_inj in E as <-.
  split; cbn [fst snd]; [|intros _ u; left; by apply same_reach].
  destruct Hwf as [Hi Hs Hm]. split; cbn; [done| |].
  - intros i s Hin. destruct (Hs _ _ Hin) as (Hp & Hse & Hk). split_and!; [done| |done]. eapply subject_exists_more; [| |exact Hse]; [done|].
    intros h Hh. cbn. by apply lookup_insert_is_Some'; right.
  - intros h u Hin. destruct (Hm _ _ Hin). split; [by apply lookup_insert_is_Some'; right|done].
Qed.

Lemma elem_of_members g t u : u ∈ members_of g t ↔ (g, u) ∈ tMembers t.
Proof.
  unfold members_of. rewrite elem_of_map. split.
  - intros ([h v] & -> & Hin). apply elem_of_filter in Hin as [Hh Hin]. cbn in *. by subst.
  - intros Hin. exists (g, u). split; [done|]. by apply elem_of_filter.
Qed.

Lemma group_del_settles id t : WF_tables t → settles (OGroupDelete id) t (group_del le id t).
Proof.
  intros Hwf. unfold group_del, group_Delete. destruct (tGroups t !! id) as [g|] eqn:Eg; [|by apply settles_refused]. split; cbn [fst snd].
  - destruct Hwf as [Hi Hs Hm]. split; cbn; [done| |].
    + intros i s [Hne Hin]%elem_of_filter. destruct (Hs _ _ Hin) as (Hp & Hse & Hk). split_and!; [done| |done]. cbn in Hne.
      unfold subject_exists in *. cbn. case_bool_decide as Hg; [|done]. rewrite lookup_delete_ne; [done|]. intros ->. apply Hne. by destruct s; cbn in *; subst.
    + intros h u [Hne Hin]%elem_of_filter. cbn in Hne. rewrite lookup_delete_ne by done. by apply Hm.
  - intros _ u. destruct (decide (u ∈ members_of id t)) as [Hu|Hu]; [right; left; by apply elem_of_elements|]. left. rewrite elem_of_members in Hu.
    apply (one_group u id); cbn; [done|intros i s Hne; rewrite elem_of_filter; naive_solver|intros h Hne; rewrite elem_of_filter; naive_solver|].
    intros i. rewrite !elem_of_filter. naive_solver.
Qed.

Lemma setMembers_settles now id us t : WF_tables t → settles (OSetMembers now id us) t (setMembers now id us t).
Proof.
  intros Hwf. unfold setMembers. destruct us as [us|]; [|by apply settles_refused]. unfold SetMembers.
  destruct (tGroups t !! id) as [g|] eqn:Eg; [|by apply settles_refused]. destruct (negb _); [by apply settles_refused|]. cbv zeta.
  set (want := list_to_set _ : gset string). destruct (bool_decide (_ ⊆ _)) eqn:Eu; [|by apply settles_refused].
  apply bool_decide_eq_true_1 in Eu.
  assert (∀ h u, (h, u) ∈ set_map (λ u, (id, u)) (want ∖ members_of id t) ∪ filter (λ m, m.1 = id → m.2 ∉ members_of id t ∖ want) (tMembers t)
    ↔ if decide (h = id) then u ∈ want else (h, u) ∈ tMembers t) as Hin.
  { intros h u. rewrite elem_of_union, elem_of_map, elem_of_filter. cbn. setoid_rewrite elem_of_difference. rewrite elem_of_members.
    destruct (decide (h = id)) as [->|Hne]; [|naive_solver]. destruct (decide (u ∈ want)); [|naive_solver].
    destruct (decide ((id, u) ∈ tMembers t)); [naive_solver|]. split; [done|]. intros _. left. exists u. rewrite elem_of_members. done. }
  split; cbn [fst snd].
  - destruct Hwf as [Hi Hs Hm]. split; cbn; [done| |].
    + intros i s Hr. destruct (Hs _ _ Hr) as (Hp & Hse & Hk). split_and!; [done| |done]. eapply subject_exists_more; [| |exact Hse]; [done|].
      intros h Hh. cbn. by apply lookup_insert_is_Some'; right.
    + intros h u Hmem%Hin. rewrite lookup_insert_is_Some'. destruct (decide (h = id)) as [->|Hne].
      * split; [by left|]. destruct (decide ((id, u) ∈ tMembers t)) as [?%Hm|Hnot]; [naive_solver|]. apply Eu. rewrite elem_of_difference, elem_of_members. done.
      * destruct (Hm _ _ Hmem). auto.
  - intros _ u. destruct (decide (u ∈ members_of id t ∖ want)) as [Hu|Hu]; [right; left; by apply elem_of_elements|].
    destruct (decide (((id, u) ∉ tMembers t) ∧ u ∈ want)) as [[Hj1 Hj2]|Hj].
    { right; right. split; [done|]. cbn. rewrite Hin, decide_True by done. done. }
    left. rewrite elem_of_difference, elem_of_members in Hu. apply (one_group u id); cbn; [done..| |].
    + intros h Hne. rewrite Hin, decide_False by done. done.
    + intros i. rewrite Hin, decide_True by done. destruct (decide (u ∈ want)), (decide ((id, u) ∈ tMembers t)); naive_solver.
Qed.

(** ** When the people covered cannot be listed *)

(** The same answer and tables, with nobody re-checked. *)
Definition unchecked (a b : outcome) : Prop := a.1 = b.1 ∧ a.2 = [].

Lemma unchecked_refused (a : Answer) t : unchecked (a, t, []) (a, t, []).
Proof. done. Qed.

Lemma unchecked_bind {A} t (r : result Answer A) (f g : A → result Answer outcome) :
  (∀ x, unchecked (or_fail t (f x)) (or_fail t (g x))) → unchecked (or_fail t (let? x := r in f x)) (or_fail t (let? x := r in g x)).
Proof. intros Hx. destruct r; [apply Hx|done]. Qed.

Lemma unlisted o t : lists_covered o = false →
  match o with
  | ODelete _ _ => (apply_op o t).1.2 = t ∧ (apply_op o t).1.1 ≠ ADone ∧ (apply_op o t).2 = []
  | _ => unchecked (apply_op o t) (apply_op (when_listed o) t)
  end.
Proof.
  destruct o as [up ? ? ? ? ? i|up ? ? ? ? i|up id|up ? ? ? ? i| | | |]; cbn [lists_covered]; try done; intros ->; cbn [apply_op when_listed].
  - unfold create, recheck. by repeat (apply unchecked_bind; intros ?).
  - unfold update, recheck. by repeat (apply unchecked_bind; intros ?).
  - unfold del, Get. destruct (tPolicies t !! id); done.
  - unfold completeReview, recheck. destruct (_ <? _); [done|]. destruct (Get le _ t) as [old|]; [|done]. destruct (negb _); [done|]. cbv zeta.
    destruct (bool_decide (Remove i = [])); cbn.
    + destruct (Reviewed _ _ _ _) as [t2|]; [|done]. by destruct (Get _ _ t2).
    + destruct (Update _ _ _ t) as [[q t1]|]; cbn; [|done]. destruct (Reviewed _ _ _ t1) as [t2|]; [|done]. by destruct (Get _ _ t2).
Qed.
End Touched.

(** * The decision reads no more than that *)

Definition strip_decision (d : Decision) : Decision := {|
  Allowed := Allowed d; Reason_ := Reason_ d; dPolicy := strip <$> dPolicy d; dGrantID := dGrantID d; dGrants := dGrants d;
  IdleTimeout := IdleTimeout d; MaxSession := MaxSession d; dRetentionDays := dRetentionDays d; dAllowClipboard := dAllowClipboard d;
  dAllowFileTransfer := dAllowFileTransfer d; dAllowDevTools := dAllowDevTools d; dRequireMFA := dRequireMFA d;
  RequireApproval := RequireApproval d; SignInTarget := SignInTarget d; SignInOwn := SignInOwn d |}.

Definition strip_decider (c : decider) : decider := (strip c.1, c.2).

Definition strip_collected (c : Collected) : Collected :=
  {| reason := reason c; standing := strip_decider <$> standing c; approval := strip_decider <$> approval c |}.

Definition strip_merging (m : Merging) : Merging := {| dec := strip_decision (dec m); best := strip_decider <$> best m; maxSet := maxSet m |}.

Lemma foldl_strip {A B} (f : B → B) (h : A → A) (step step' : B → A → B) l b :
  (∀ b a, step' (f b) (h a) = f (step b a)) → foldl step' (f b) (h <$> l) = f (foldl step b l).
Proof. intros Hs. revert b. induction l as [|a l IH]; intros b; [done|]. cbn [foldl fmap list_fmap]. by rewrite Hs, IH. Qed.

Section Stripped.
Context `{TimeZones}.

Lemma collect_strip t proto now windows ps :
  collect (strip <$> ps) t proto now windows = strip_collected (collect ps t proto now windows).
Proof.
  unfold collect. change {| reason := NoPolicy; standing := []; approval := [] |} with
    (strip_collected {| reason := NoPolicy; standing := []; approval := [] |}) at 1. apply foldl_strip. intros b p.
  unfold collect_policy. change (Enabled (strip p)) with (Enabled p). change (Grants (strip p)) with (Grants p). destruct (negb _); [done|].
  rewrite <-(list_fmap_id (Grants p)) at 1. apply (foldl_strip strip_collected id). intros c g. unfold collect_grant, id, strip_collected.
  destruct (negb _); [by destruct (selects g t)|]. destruct (_ && _); [done|]. destruct (bool_decide _); cbn; by rewrite fmap_app.
Qed.

Lemma merge_all_strip l ra : merge_all (strip_decider <$> l) ra = strip_merging (merge_all l ra).
Proof.
  unfold merge_all. change {| dec := opening ra; best := None; maxSet := false |} with
    (strip_merging {| dec := opening ra; best := None; maxSet := false |}) at 1. apply foldl_strip. intros m [p g].
  unfold merge_grant, strip_merging, strip_decider. cbn. destruct (match MaxSessionMinutes g with Some _ => _ | None => _ end) as [x y]. cbn. f_equal.
  destruct (best m) as [[p' g']|]; [|done]. cbn. by destruct (_ <? _).
Qed.

Lemma evaluate_strip ps t proto now windows :
  evaluate (strip <$> ps) t proto now windows = strip_decision (evaluate ps t proto now windows).
Proof.
  unfold evaluate. rewrite collect_strip. set (c := collect ps t proto now windows). unfold strip_collected. cbn [standing approval reason].
  assert (∀ l : list decider, bool_decide (strip_decider <$> l = []) = bool_decide (l = [])) as Hn.
  { intros l. apply bool_decide_ext. by destruct l. }
  rewrite Hn. destruct (bool_decide (standing c = [])); rewrite Hn, merge_all_strip; destruct (bool_decide _); try done.
  all: unfold strip_merging; cbn [dec best]; by destruct (best _) as [[]|].
Qed.
End Stripped.

(** C32. Whatever an administrator's request changes in the policies and groups,
refused or not, the rows stay consistent (every subject and membership names a
row that exists).  When the database lists the people a change of a policy
covers, or the change asks for no such list, the access decision of every user on
every target, protocol and instant is the one it was before, unless the user is
among those whose live sessions the request re-checks, or has just joined the
group whose membership it replaced.  When that list fails, nobody is re-checked:
a deletion is refused with nothing changed, while a policy created, edited or
reviewed is stored as it would have been, and answered so. *)
Theorem changes_are_rechecked `{TimeZones} (le : string → string → bool) (lower : string → string) (o : op) (t : Tables) :
  WF_tables t → fresh o t →
  let '(a, t', rechecked) := apply_op le lower o t in
  WF_tables t' ∧
  if lists_covered o then
    ∀ u, u ∈ rechecked ∨ joins o t t' u
         ∨ ∀ ref proto now windows, strip_decision (evaluate (ForUser le u t) ref proto now windows)
                                    = strip_decision (evaluate (ForUser le u t') ref proto now windows)
  else rechecked = [] ∧
       match o with
       | ODelete _ _ => t' = t ∧ a ≠ ADone
       | _ => (a, t') = (apply_op le lower (when_listed o) t).1
       end.
Proof.
  intros Hwf Hf. assert (settles le o t (apply_op le lower o t)) as Hst.
  { destruct o; cbn [apply_op]; [by apply create_settles|by apply update_settles|by apply del_settles|by apply review_settles
      |by apply group_create_settles|by apply group_update_settles|by apply group_del_settles|by apply setMembers_settles]. }
  pose proof (unlisted le lower o t) as Hun. destruct (apply_op le lower o t) as [[a t'] us]. destruct Hst as [Hwf' Hu]. split; [done|].
  destruct (lists_covered o).
  2: { specialize (Hun eq_refl). destruct o; (destruct Hun as (H1 & H2 & H3) || destruct Hun as [H1 H2]); cbn in *; by rewrite <-?H1. }
  intros u.
  destruct (Hu eq_refl u) as [Heq|[?|?]]; [|by left|by right; left]. right; right. intros ref proto now windows. rewrite <-!evaluate_strip. by f_equal.
Qed.

(** * The preview of a target's removal *)

(** What the code relies on of the database's order of names: a total order
with the empty name first. *)
Record Collation (le : string → string → bool) : Prop := {
  le_total : ∀ a b, le a b = true ∨ le b a = true;
  le_trans : ∀ a b c, le a b = true → le b c = true → le a c = true;
  le_antisym : ∀ a b, le a b = true → le b a = true → a = b;
  le_first : ∀ a, le "" a = true;
}.

(** Names are set and no two policies share one. *)
Definition well_named (t : Tables) : Prop :=
  map_Forall (λ _ p, pName p ≠ "") (tPolicies t)
  ∧ ∀ i j p q, tPolicies t !! i = Some p → tPolicies t !! j = Some q → pName p = pName q → i = j.

Section Preview.
Context (le : string → string → bool) (Hle : Collation le) (t : Tables) (Hn : well_named t).

Let after (name : string) (p : Policy) : bool := negb (le (pName p) name).

Lemma name_le_trans : Transitive (name_le le).
Proof. intros x y z. apply (le_trans _ Hle). Qed.

Lemma name_le_total : Total (name_le le).
Proof. intros x y. apply (le_total _ Hle). Qed.

Lemma elem_of_by_name (m : gmap string Policy) p : p ∈ by_name le m ↔ ∃ id, m !! id = Some p.
Proof.
  unfold by_name. rewrite merge_sort_Permutation, list_elem_of_fmap. split.
  - intros ([id q] & -> & Hin%elem_of_map_to_list). by exists id.
  - intros (id & Hid). exists (id, p). by rewrite elem_of_map_to_list.
Qed.

Lemma one_of_name p q : p ∈ by_name le (tPolicies t) → q ∈ by_name le (tPolicies t) → pName p = pName q → p = q.
Proof.
  intros (i & Hi)%elem_of_by_name (j & Hj)%elem_of_by_name Hpq. assert (i = j) as -> by (by eapply Hn). congruence.
Qed.

Lemma NoDup_by_name m : m ⊆ tPolicies t → NoDup (by_name le m).
Proof.
  intros Hm. unfold by_name. rewrite merge_sort_Permutation. apply (NoDup_fmap_1 pName). rewrite <-list_fmap_compose.
  apply NoDup_fmap_2_strong; [|apply NoDup_map_to_list]. intros [i p] [j q] Hi%elem_of_map_to_list Hj%elem_of_map_to_list He. cbn in He.
  assert (i = j) as ->; [|by simplify_eq]. eapply Hn; [by eapply lookup_weaken|by eapply lookup_weaken|done].
Qed.

(** The rows after a name are the end of the whole list. *)
Lemma by_name_after name :
  by_name le (filter (λ ip, le (pName ip.2) name = false) (tPolicies t)) = List.filter (after name) (by_name le (tPolicies t)).
Proof.
  assert (∀ p, p ∈ by_name le (filter (λ ip, le (pName ip.2) name = false) (tPolicies t)) ↔ p ∈ List.filter (after name) (by_name le (tPolicies t))) as Hin.
  { intros p. rewrite elem_of_filter_b, !elem_of_by_name. unfold after. rewrite negb_true_iff. setoid_rewrite map_lookup_filter_Some. naive_solver. }
  apply (StronglySorted_unique_strong (name_le le)).
  - intros p q Hp Hq H1 H2. apply Hin in Hp. apply elem_of_filter_b in Hp as [Hp _], Hq as [Hq _]. apply one_of_name; [done..|].
    by apply (le_antisym _ Hle).
  - apply StronglySorted_merge_sort; [apply name_le_trans|apply name_le_total].
  - assert (∀ l, StronglySorted (name_le le) l → StronglySorted (name_le le) (List.filter (after name) l)) as Hs.
    { intros l Hl. induction Hl as [|x l Hl IH Hx]; [apply SSorted_nil|]. cbn. destruct (after name x); [|done]. apply SSorted_cons; [done|].
      rewrite Forall_forall in Hx |- *. intros y [Hy _]%elem_of_filter_b. by apply Hx. }
    apply Hs, StronglySorted_merge_sort; [apply name_le_trans|apply name_le_total].
  - apply NoDup_Permutation; [apply NoDup_by_name, map_filter_subseteq|apply NoDup_ListNoDup, List.NoDup_filter, NoDup_ListNoDup, NoDup_by_name; done|done].
Qed.

(** After the last row of a page come the rows that follow it. *)
Lemma rest_of_page name k p :
  let l := List.filter (after name) (by_name le (tPolicies t)) in
  last (take k l) = Some p → List.filter (after (pName p)) (by_name le (tPolicies t)) = drop k l.
Proof.
  intros l Hp. assert (NoDup l ∧ StronglySorted (name_le le) l) as [Hnd Hs].
  { unfold l. rewrite <-by_name_after. split; [apply NoDup_by_name, map_filter_subseteq|].
    apply StronglySorted_merge_sort; [apply name_le_trans|apply name_le_total]. }
  assert (∀ q, q ∈ l → q ∈ by_name le (tPolicies t) ∧ le (pName q) name = false) as Hl.
  { intros q. unfold l, after. by rewrite elem_of_filter_b, negb_true_iff. }
  apply last_Some in Hp as (front & Hk). rewrite <-(take_drop k l), Hk in Hnd, Hs.
  assert (List.filter (after (pName p)) l = List.filter (after (pName p)) (by_name le (tPolicies t))) as <-.
  { unfold l. rewrite <-filter_andb. apply List.filter_ext_in. intros q Hq%list_elem_of_In. unfold after. destruct (le (pName q) (pName p)) eqn:E; [by rewrite andb_false_r|].
    rewrite andb_true_r. destruct (le (pName q) name) eqn:E2; [|done]. destruct (Hl p) as [_ Hpn].
    { rewrite <-(take_drop k l), Hk. set_solver. }
    destruct (le_total _ Hle (pName p) (pName q)) as [H1|H1]; [|congruence]. rewrite (le_trans _ Hle _ _ _ H1 E2) in Hpn. done. }
  rewrite <-(take_drop k l) at 1. rewrite Hk, filter_app_. apply NoDup_app in Hnd as (_ & Hdis & _).
  assert (List.filter (after (pName p)) (front ++ [p]) = []) as ->.
  { apply filter_none. intros q Hq. unfold after. apply negb_false_iff. apply elem_of_app in Hq as [Hq|Hq%list_elem_of_singleton]; [|subst q].
    - apply StronglySorted_app in Hs as (_ & Hs & _). apply StronglySorted_app in Hs as (Hs & _). apply (Hs q p Hq). by apply list_elem_of_singleton.
    - by destruct (le_total _ Hle (pName p) (pName p)). }
  apply filter_all. intros q Hq. unfold after. apply negb_true_iff. destruct (le (pName q) (pName p)) eqn:E; [|done]. exfalso.
  assert (q ∈ l) as Hql by (rewrite <-(take_drop k l); set_solver).
  assert (p ∈ l) as Hpl by (rewrite <-(take_drop k l), Hk; set_solver).
  apply (Hdis q); [|done]. apply elem_of_app. right. apply list_elem_of_singleton. apply one_of_name; [by apply Hl..|].
  apply (le_antisym _ Hle); [done|]. apply StronglySorted_app in Hs as (Hs & _). apply (Hs p q); set_solver.
Qed.

Lemma removal_subjects targetID asgID ps : omap (removal targetID asgID) (attachSubjects le t ps) = omap (removal targetID asgID) ps.
Proof.
  unfold attachSubjects. induction ps as [|p ps IH]; [done|]. rewrite fmap_cons. cbn [omap list_omap].
  change (removal targetID asgID (with_subjects (subjects_of le (pID p) t) p)) with (removal targetID asgID p). by rewrite IH.
Qed.

Lemma usage_pages fuel name targetID asgID :
  (length (List.filter (after name) (by_name le (tPolicies t))) < fuel)%nat →
  usage_from le fuel name targetID asgID t = omap (removal targetID asgID) (List.filter (after name) (by_name le (tPolicies t))).
Proof.
  revert name. induction fuel as [|fuel IH]; intros name Hf; [lia|]. cbn [usage_from]. unfold List_. rewrite by_name_after.
  set (l := List.filter (after name) _) in *. change ((500 <=? 0) || (500 <? 500)) with false. cbv iota zeta. change (Z.to_nat 500) with 500%nat.
  rewrite length_take. destruct (500 <? Z.of_nat ((500 + 1) `min` length l)) eqn:E; cycle 1.
  { rewrite bool_decide_eq_true_2 by done. rewrite app_nil_r, removal_subjects, take_ge by lia. done. }
  rewrite take_take, Nat.min_l by lia. destruct (last (take 500 l)) as [p|] eqn:Ep; cycle 1.
  { apply last_None in Ep. apply (f_equal length) in Ep. rewrite length_take in Ep. cbn [length] in Ep. lia. }
  assert (p ∈ l) as Hpl.
  { apply last_Some in Ep as (f & Ep). rewrite <-(take_drop 500 l), Ep. set_solver. }
  assert (pName p ≠ "") as Hne.
  { apply elem_of_filter_b in Hpl as [(i & Hi)%elem_of_by_name _]. destruct Hn as [Hnn _]. by apply (Hnn i p). }
  change (pName <$> Some p) with (Some (pName p)). change (default "" (Some (pName p))) with (pName p). rewrite bool_decide_eq_false_2 by done. rewrite removal_subjects, IH.
  - fold l. rewrite (rest_of_page name 500 p Ep). fold l. by rewrite <-omap_app, take_drop.
  - rewrite (rest_of_page name 500 p Ep). fold l. rewrite length_drop. lia.
Qed.
End Preview.

(** Read page by page, the preview lists exactly the policies a removal then
changes, in the same order, each with the grants it loses and whether any is
left. *)
Lemma usage_is_removals le newIDs now targetID asgID t :
  Collation le → well_named t → TargetUsage le targetID asgID t = (RemoveTargetTx le newIDs now targetID asgID t).1.
Proof.
  intros Hle Hn. unfold TargetUsage. assert (List.filter (λ p, negb (le (pName p) "")) (by_name le (tPolicies t)) = by_name le (tPolicies t)) as Hall.
  { apply filter_all. intros p (i & Hi)%(elem_of_by_name le). apply negb_true_iff. destruct (le (pName p) "") eqn:E; [|done].
    destruct Hn as [Hnn _]. destruct (Hnn i p Hi). apply (le_antisym _ Hle); [done|apply (le_first _ Hle)]. }
  rewrite usage_pages; [by rewrite Hall|done|done|]. rewrite Hall. unfold by_name. rewrite merge_sort_Permutation, length_fmap.
  rewrite length_map_to_list. lia.
Qed.

(** * Examples *)

Definition ex_le (a b : string) : bool := String.leb a b.

Definition ex_group (idp : string) : Group :=
  {| grName := "ops"; grDescription := ""; grIdPID := idp; grExternalID := ""; grCreatedAt := 0; grUpdatedAt := 0 |}.

(** Ann is in the group the policy names, Ben is not; a second policy names
Ben and lets him use the clipboard. *)
Definition ex_tables : Tables := {|
  tUsers := {[ "ann"; "ben" ]}; tGroups := {[ "ops" := ex_group "" ]}; tMembers := {[ ("ops", "ann") ]};
  tPolicies := {[ "p1" := with_subjects [] (ex_policy "night" [ex_night]); "p2" := set_id "p2" (with_subjects [] (ex_policy "loose" [ex_loose])) ]};
  tSubjects := {[ ("p1", {| sKind := "group"; sID := "ops" |}); ("p2", {| sKind := "user"; sID := "ben" |}) ]} |}.

Lemma ex_tables_WF : WF_tables ex_tables.
Proof.
  split.
  - by apply map_Forall_insert_2; [|apply map_Forall_singleton].
  - intros id s [[= -> ->]%elem_of_singleton|[= -> ->]%elem_of_singleton]%elem_of_union; (split_and!; [by eexists|by vm_compute|by cbn; auto]).
  - intros g u Hm. cbn [ex_tables tMembers] in Hm. apply elem_of_singleton in Hm as [= -> ->]. split; [by eexists|]. by vm_compute.
Qed.

(** A review that takes the group off the policy. *)
Definition ex_review (up : bool) : op :=
  OReview up "p1" "ann" (λ _, "") 0 {| Remove := [{| sKind := "group"; sID := "ops" |}]; Note := "" |}.

Lemma changes_are_rechecked_witness :
  (del ex_le true "p1" ex_tables).2 = ["ann"]
  ∧ (let '(_, t', rechecked) := apply_op (H := ex_zones) ex_le id (ODelete true "p1") ex_tables in
     WF_tables t' ∧
     ∀ u, u ∈ rechecked ∨ joins (ODelete true "p1") ex_tables t' u
          ∨ ∀ ref proto now windows, strip_decision (evaluate (H := ex_zones) (ForUser ex_le u ex_tables) ref proto now windows)
                                     = strip_decision (evaluate (H := ex_zones) (ForUser ex_le u t') ref proto now windows))
  ∧ let '(a, t', rechecked) := apply_op (H := ex_zones) ex_le id (ex_review false) ex_tables in
    WF_tables t' ∧ rechecked = [] ∧ (a, t') = (apply_op (H := ex_zones) ex_le id (ex_review true) ex_tables).1.
Proof.
  split; [by vm_compute|]. split.
  - apply (changes_are_rechecked (H := ex_zones) ex_le id (ODelete true "p1") ex_tables); [apply ex_tables_WF|done].
  - apply (changes_are_rechecked (H := ex_zones) ex_le id (ex_review false) ex_tables); [apply ex_tables_WF|done].
Defined.

(** A subject taken off a policy can keep the sessions the policy gave: when the
people it covered cannot be listed the change stands, is answered as a success,
and nobody is re-checked. *)
Lemma failed_list_checks_nobody :
  let '(a, t', rechecked) := apply_op (H := ex_zones) ex_le id (ex_review false) ex_tables in
  (∃ p, a = ASaved p) ∧ rechecked = []
  ∧ Allowed (Evaluate (H := ex_zones) (ForUser ex_le "ann" ex_tables) ex_ref "ssh" ex_now) = true
  ∧ Allowed (Evaluate (H := ex_zones) (ForUser ex_le "ann" t') ex_ref "ssh" ex_now) = false.
Proof. vm_compute. split; [by eexists|]. split_and!; reflexivity. Qed.

(** Adding a member can tighten: Ben's own policy allows the clipboard, the
group's does not and the stricter wins, yet nobody is re-checked and a session
he has open keeps its clipboard. *)
Lemma added_member_not_rechecked :
  let '(_, t', rechecked) := setMembers 0 "ops" (Some ["ann"; "ben"]) ex_tables in
  rechecked = []
  ∧ dAllowClipboard (Evaluate (H := ex_zones) (ForUser ex_le "ben" ex_tables) ex_ref "ssh" ex_now) = true
  ∧ dAllowClipboard (Evaluate (H := ex_zones) (ForUser ex_le "ben" t') ex_ref "ssh" ex_now) = false.
Proof. by vm_compute. Qed.

(** A grant that names the target and no tags. *)
Definition ex_named : Grant := {|
  gID := "g1"; Kind := "host"; Targets := [{| gtID := "t1"; gtProtocols := ["ssh"] |}]; Tags := None; Access := "standing"; SignIn := "target";
  RequireMFA := true; AllowClipboard := false; AllowFileTransfer := false; AllowDevTools := false; IdleTimeoutMinutes := 15;
  MaxSessionMinutes := None; TimeWindows := []; RetentionDays := None |}.

(** The policy is left with no grants when its one target is deleted. *)
Definition ex_grantless : Tables :=
  (RemoveTargetTx ex_le (λ _ _, "") 0 "t1" "" (set_policies
    {[ "p1" := with_subjects [] (ex_policy "night" [ex_named]) ]} {[ ("p1", {| sKind := "group"; sID := "ops" |}) ]} ex_tables)).2.

(** A review that takes a subject off it is refused: the policy is validated
again, and needs a grant. *)
Lemma grantless_review_refused :
  (Get ex_le "p1" ex_grantless = Ok (ex_policy "night" []))
  ∧ completeReview (H := ex_zones) ex_le true "p1" "ann" (λ _, "") 0 {| Remove := [{| sKind := "group"; sID := "ops" |}]; Note := "" |} ex_grantless
    = (BadRequest, ex_grantless, []).
Proof. by vm_compute. Qed.

Lemma ex_collation : Collation ex_le.
Proof.
  split; unfold ex_le.
  - apply String.leb_total.
  - intros a b c H1%Is_true_true H2%Is_true_true. apply Is_true_true. by transitivity b.
  - apply String.leb_antisym.
  - by intros [].
Qed.

Lemma ex_well_named : well_named ex_tables.
Proof.
  split.
  - by apply map_Forall_insert_2; [|apply map_Forall_singleton].
  - intros i j p q Hi Hj. cbn [ex_tables tPolicies] in *.
    apply lookup_insert_Some in Hi as [[<- <-]|[_ [<- <-]%lookup_singleton_Some]], Hj as [[<- <-]|[_ [<- <-]%lookup_singleton_Some]]; done.
Qed.
