(* ===== verification/Targets.v ===== *)
(** Targets: their rows, the trust in a host's key and certificates, and what
changing or deleting a target reaches.  src/internal/target/repo.go,
handlers.go, dependencies.go and refusals.go.

The JSON columns hold their values.  A statement that stands alone is one step
and a transaction is one step; where a function reads a row and writes it later
([RecordProbe], [TrustHostKey], [TrustCertificate]) other requests may come in
between ([step]).  The check of a write is TargetForm.v's, over Go's URL parser
and certificate reader, which stay parameters; so are the database's order of
names and its LOWER. *)
From stdpp Require Import sorting.
From S2P Require Import Prelude GoText Protocol Policy PolicyEval Access Registry NetIP Addresses Connect PolicyRepo TargetForm.
Local Open Scope Z_scope.

(** * Rows *)

Inductive HostKeyStatus := HostKeyUnknown | HostKeyPending | HostKeyTrusted | HostKeyChanged.

#[export] Instance HostKeyStatus_eq_dec : EqDecision HostKeyStatus.
Proof. solve_decision. Defined.

Definition status_text (s : HostKeyStatus) : string :=
  match s with HostKeyUnknown => "unknown" | HostKeyPending => "pending" | HostKeyTrusted => "trusted" | HostKeyChanged => "changed" end.

(** What probes saw and administrators trusted. *)
Record Trust := {
  HostKeyFingerprint : option string; HostKeyStatus_ : HostKeyStatus; TLSFingerprint : option string; WinRMTLSFingerprint : option string;
  TLSFingerprintPending : option string; WinRMTLSFingerprintPending : option string; LastProbedAt : option time;
}.

Definition no_trust : Trust := {|
  HostKeyFingerprint := None; HostKeyStatus_ := HostKeyUnknown; TLSFingerprint := None; WinRMTLSFingerprint := None;
  TLSFingerprintPending := None; WinRMTLSFingerprintPending := None; LastProbedAt := None |}.

(** The fields a [Write] sets are kept as one. *)
Record Target := {
  ID : string; body : Write; trust : Trust; CreatedBy : option string; CreatedAt : time; UpdatedAt : time;
}.

(** A row has no credentials; they are [target_credentials]. *)
Record Row := {
  rBody : Write; rTrust : Trust; rCreatedBy : option string; rCreatedAt : time; rUpdatedAt : time; rDeletedAt : option time;
}.

Record DB := {
  rows : gmap string Row;
  bindings : gmap string (gmap string string);
  vaulted : gset string;
}.

Definition set_rows (rs : gmap string Row) (db : DB) : DB := {| rows := rs; bindings := bindings db; vaulted := vaulted db |}.

Definition rebody (w : Write) (priv : option AppPrivate) (deps : string) (caps : list string) (status : string) (creds : gmap string string) : Write := {|
  wName := wName w; wAddress := wAddress w; wEngine := wEngine w; wEngineVersion := wEngineVersion w; wRetentionDays := wRetentionDays w;
  wDatabaseName := wDatabaseName w; wTLSMode := wTLSMode w; wTLSCA := wTLSCA w; wAppUpstream := wAppUpstream w;
  wAppEndpoints := wAppEndpoints w; wAppDependencies := deps; wAppPrivate := priv; wOSFamily := wOSFamily w; wPorts := wPorts w;
  wCapabilities := caps; wTags := wTags w; wStatus := status; wNotes := wNotes w; wCredentials := creds |}.

(** [nullStr]. *)
Definition nullStr (s : option string) : option string := match s with Some s => if bool_decide (s = "") then None else Some s | None => None end.

(** [privateJSON]: a column with no entries is NULL. *)
Definition privateJSON (p : option AppPrivate) : option AppPrivate := if bool_decide (Entries p = []) then None else p.

Definition stored_body (w : Write) : Write := rebody w (privateJSON (wAppPrivate w)) (wAppDependencies w) (wCapabilities w) (wStatus w) ∅.

(** [scanTarget] of the columns a [Write] sets. *)
Definition scanned_body (creds : gmap string string) (w : Write) : Write :=
  rebody w (wAppPrivate w)
    (if negb (bool_decide (wAppUpstream w = "")) && bool_decide (wAppDependencies w = "") then DependenciesPublic else wAppDependencies w)
    (wCapabilities w) (wStatus w) creds.

Definition credentials (id : string) (db : DB) : gmap string string := default ∅ (bindings db !! id).

Definition scanTarget (id : string) (creds : gmap string string) (r : Row) : Target := {|
  ID := id; body := scanned_body creds (rBody r); trust := rTrust r; CreatedBy := rCreatedBy r; CreatedAt := rCreatedAt r; UpdatedAt := rUpdatedAt r |}.

Definition live_row (r : Row) : bool := match rDeletedAt r with None => true | Some _ => false end.

Definition Get (id : string) (db : DB) : result Error Target :=
  match rows db !! id with
  | Some r => if live_row r then Ok (scanTarget id (credentials id db) r) else Err ErrNotFound
  | None => Err ErrNotFound
  end.

(** The partial UNIQUE index on a live target's name. *)
Definition name_taken (name except : string) (db : DB) : bool :=
  existsb (λ ir, live_row ir.2 && bool_decide (wName (rBody ir.2) = name) && negb (bool_decide (ir.1 = except))) (map_to_list (rows db)).

Definition GetByName (name : string) (db : DB) : result Error Target :=
  match List.find (λ ir, live_row ir.2 && bool_decide (wName (rBody ir.2) = name)) (map_to_list (rows db)) with
  | Some (id, r) => Ok (scanTarget id (credentials id db) r)
  | None => Err ErrNotFound
  end.

(** One INSERT of the loop; the CHECK allows [CredentialProtocols], the foreign
key the vault's credentials. *)
Definition bind (c : string) (p : string) (bs : gmap string string) (db : DB) : result Error (gmap string string) :=
  if negb (contains CredentialProtocols p) then Err ErrDatabase
  else if bool_decide (c ∈ vaulted db) then Ok (<[p := c]> bs) else Err ErrInvalidCredential.

(** The protocols left of [CredentialProtocols], and the bindings so far. *)
Fixpoint replaceCredentials (ps : list string) (creds bs : gmap string string) (db : DB) : result Error (gmap string string) :=
  match ps with
  | [] => Ok bs
  | p :: ps =>
      match creds !! p with
      | None => replaceCredentials ps creds bs db
      | Some c => let? bs := bind c p bs db in replaceCredentials ps creds bs db
      end
  end.

Definition replaceCredentialsTx (id : string) (creds : gmap string string) (db : DB) : result Error DB :=
  let? bs := replaceCredentials CredentialProtocols creds ∅ db in
  Ok {| rows := rows db; bindings := <[id := bs]> (bindings db); vaulted := vaulted db |}.

Section Repo.
Variable url_parse : string → option URL.
Variable has_certificate : string → bool.
(** The database's order of names, and its LOWER. *)
Variable le : string → string → bool.
Variable lower : string → string.

Definition valid (w : Write) : result Error Write := Validate url_parse has_certificate w.

Definition Create (newID : string) (now : time) (t : Target) (db : DB) : result Error (Target * DB) :=
  let? w := valid (body t) in
  let t := {| ID := newID; body := w; trust := no_trust; CreatedBy := CreatedBy t; CreatedAt := now; UpdatedAt := now |} in
  let r := {| rBody := stored_body w; rTrust := no_trust; rCreatedBy := nullStr (CreatedBy t); rCreatedAt := TimeArg now; rUpdatedAt := TimeArg now;
              rDeletedAt := None |} in
  let? _ := refuse_if (bool_decide (is_Some (rows db !! newID)) || name_taken (wName w) newID db) ErrDuplicate in
  let? db := replaceCredentialsTx newID (wCredentials w) (set_rows (<[newID := r]> (rows db)) db) in
  Ok (t, db).

Definition Update (now : time) (t : Target) (db : DB) : result Error (Target * DB) :=
  let? w := valid (body t) in
  match rows db !! ID t with
  | None => Err ErrNotFound
  | Some r =>
      if negb (live_row r) then Err ErrNotFound
      else
        let moved := negb (bool_decide (wAddress (rBody r) = wAddress w)) in
        let r' := {| rBody := stored_body w; rTrust := if moved then no_trust else rTrust r; rCreatedBy := rCreatedBy r;
                     rCreatedAt := rCreatedAt r; rUpdatedAt := TimeArg now; rDeletedAt := None |} in
        let? _ := refuse_if (name_taken (wName w) (ID t) db) ErrDuplicate in
        let? db := replaceCredentialsTx (ID t) (wCredentials w) (set_rows (<[ID t := r']> (rows db)) db) in
        Ok ({| ID := ID t; body := w; trust := if moved then no_trust else trust t; CreatedBy := CreatedBy t; CreatedAt := CreatedAt t;
               UpdatedAt := now |}, db)
  end.

(** ** Listing *)

Record ListFilter := { fTags : gmap string string; fKind : string; fStatus : string; fOS : string; fQuery : string; fAttention : bool }.

Definition attention (r : Row) : bool :=
  bool_decide (HostKeyStatus_ (rTrust r) = HostKeyPending) || bool_decide (HostKeyStatus_ (rTrust r) = HostKeyChanged)
  || bool_decide (TLSFingerprintPending (rTrust r) ≠ None) || bool_decide (WinRMTLSFingerprintPending (rTrust r) ≠ None).

(** [kindClauses]; another kind narrows nothing. *)
Definition of_kind (kind : string) (r : Row) : bool :=
  let w := rBody r in
  if bool_decide (kind = KindHost) then bool_decide (wEngine w = "") && bool_decide (wAppUpstream w = "")
  else if bool_decide (kind = KindDatabase) then negb (bool_decide (wEngine w = ""))
  else if bool_decide (kind = KindApplication) then negb (bool_decide (wAppUpstream w = ""))
  else true.

Fixpoint has_infix (s t : bytes) : bool :=
  bool_decide (take (length s) t = s) || match t with [] => false | _ :: t => has_infix s t end.

(** LIKE with the wildcards of the query escaped. *)
Definition like (query s : string) : bool := has_infix (to_bytes query) (to_bytes (lower s)).

Definition MatchesTags (want : gmap string string) (w : Write) : bool := bool_decide (map_Forall (λ k v, default "" (wTags w !! k) = v) want).

Definition listed (f : ListFilter) (r : Row) : bool :=
  let w := rBody r in
  let q := Strings.ToLower (Strings.TrimSpace (fQuery f)) in
  live_row r && of_kind (fKind f) r
  && (bool_decide (fStatus f = "") || bool_decide (wStatus w = fStatus f))
  && (bool_decide (fOS f = "") || bool_decide (wOSFamily w = fOS f))
  && (negb (fAttention f) || (attention r && bool_decide (wStatus w = StatusActive)))
  && (bool_decide (q = "") || like q (wName w) || like q (wAddress w))
  && MatchesTags (fTags f) w.

Definition row_le (a b : string * Row) : Prop := le (wName (rBody a.2)) (wName (rBody b.2)) = true.

#[export] Instance row_le_dec : RelDecision row_le.
Proof. intros a b. unfold row_le. apply _. Defined.

(** [scanAll]: the rows in name order, at most [limit] when it is positive. *)
Definition scanAll (p : Row → bool) (limit : nat) (db : DB) : list Target :=
  let l := merge_sort row_le (List.filter (λ ir, p ir.2) (map_to_list (rows db))) in
  (λ ir, scanTarget ir.1 (credentials ir.1 db) ir.2) <$> (if bool_decide (limit = 0%nat) then l else take limit l).

Definition ListTargets (afterName : string) (limit : Z) (f : ListFilter) (db : DB) : list Target * string :=
  let limit := if (limit <=? 0) || (500 <? limit) then 50 else limit in
  let out := scanAll (λ r, negb (le (wName (rBody r)) afterName) && listed f r) (S (Z.to_nat limit)) db in
  if limit <? Z.of_nat (length out) then
    let out := take (Z.to_nat limit) out in (out, default "" ((λ t, wName (body t)) <$> last out))
  else (out, "").

Definition ListByTags (tags : gmap string string) (db : DB) : list Target :=
  scanAll (λ r, live_row r && bool_decide (wStatus (rBody r) = StatusActive) && MatchesTags tags (rBody r)) 0 db.

(** ** What the dashboard counts *)

Record AttentionCounts := { nActive : nat; nHostKeyPending : nat; nHostKeyChanged : nat; nCertificatePending : nat; nNeedingAttention : nat }.

Definition active_rows (kind : string) (db : DB) : list Row :=
  List.filter (λ r, live_row r && bool_decide (wStatus (rBody r) = StatusActive) && of_kind kind r) (map_to_list (rows db)).*2.

Definition CountAttention (db : DB) : AttentionCounts :=
  let l := active_rows KindHost db in
  let n f := length (List.filter f l) in
  {| nActive := length l;
     nHostKeyPending := n (λ r, bool_decide (HostKeyStatus_ (rTrust r) = HostKeyPending));
     nHostKeyChanged := n (λ r, bool_decide (HostKeyStatus_ (rTrust r) = HostKeyChanged));
     nCertificatePending := n (λ r, bool_decide (TLSFingerprintPending (rTrust r) ≠ None) || bool_decide (WinRMTLSFingerprintPending (rTrust r) ≠ None));
     nNeedingAttention := n attention |}.

Definition count_by (column : Row → string) (l : list Row) : gmap string nat :=
  foldr (λ r m, <[column r := S (default 0%nat (m !! column r))]> m) ∅ l.

Record Inventory := { nHosts : nat; HostsByOS : gmap string nat; nDatabases : nat; ByEngine : gmap string nat; nApplications : nat }.

Definition total (m : gmap string nat) : nat := map_fold (λ _ n acc, (n + acc)%nat) 0%nat m.

Definition CountInventory (db : DB) : Inventory :=
  let hosts := count_by (λ r, wOSFamily (rBody r)) (active_rows KindHost db) in
  let databases := count_by (λ r, wEngine (rBody r)) (active_rows KindDatabase db) in
  {| nHosts := total hosts; HostsByOS := hosts; nDatabases := total databases; ByEngine := databases;
     nApplications := length (active_rows KindApplication db) |}.
End Repo.

(** ** Retiring, and the credential slots *)

(** [first] is what else changes in the same transaction. *)
Definition DeleteWith {A} (now : time) (id : string) (first : A → result Error A) (a : A) (db : DB) : result Error (A * DB) :=
  let? a := first a in
  match rows db !! id with
  | Some r =>
      if live_row r then
        let w := rBody r in
        let r' := {| rBody := rebody w (wAppPrivate w) (wAppDependencies w) (wCapabilities w) StatusDisabled ∅; rTrust := rTrust r;
                     rCreatedBy := rCreatedBy r; rCreatedAt := rCreatedAt r; rUpdatedAt := TimeArg now; rDeletedAt := Some (TimeArg now) |} in
        Ok (a, {| rows := <[id := r']> (rows db); bindings := delete id (bindings db); vaulted := vaulted db |})
      else Err ErrNotFound
  | None => Err ErrNotFound
  end.

Definition Delete (now : time) (id : string) (db : DB) : result Error DB :=
  let? adb := DeleteWith now id (λ _, Ok tt) tt db in Ok adb.2.

Definition touch (now : time) (r : Row) : Row := {|
  rBody := rBody r; rTrust := rTrust r; rCreatedBy := rCreatedBy r; rCreatedAt := rCreatedAt r; rUpdatedAt := TimeArg now; rDeletedAt := rDeletedAt r |}.

Definition SetCredential (now : time) (targetID p credentialID : string) (db : DB) : result Error DB :=
  let? _ := refuse_if (negb (ValidProtocol p)) (ErrInvalid "unknown protocol") in
  let? _ := refuse_if (bool_decide (credentialID = "")) (ErrInvalid "credential id required") in
  let? _ := Get targetID db in
  let? bs := bind credentialID p (delete p (credentials targetID db)) db in
  Ok {| rows := alter (touch now) targetID (rows db); bindings := <[targetID := bs]> (bindings db); vaulted := vaulted db |}.

Definition UnsetCredential (targetID p : string) (db : DB) : result Error DB :=
  let? _ := Get targetID db in
  Ok {| rows := rows db; bindings := alter (delete p) targetID (bindings db); vaulted := vaulted db |}.

(** * What a probe records, and what is trusted *)

(** A fingerprint that is empty is none. *)
Record ProbeResult := { pCapabilities : list string; pSSH : option string; pTLS : option string; pWinRM : option string; pAt : time }.

Record CertificateChange := { ccProtocol : string; Pinned : string; SeenFP : string }.

Record HostKeyChange := { Old : option string; New : option string; hcStatus : HostKeyStatus; Changed : bool; Certificates : list CertificateChange }.

(** The pinned and the pending certificate of a listener after one is seen. *)
Definition pinCertificate (pinned pending : option string) (seen proto : string) : option string * option string * list CertificateChange :=
  match pinned with
  | None => (Some seen, None, [])
  | Some p =>
      if bool_decide (p = seen) then (pinned, None, [])
      else if bool_decide (pending = Some seen) then (pinned, pending, [])
      else (pinned, Some seen, [{| ccProtocol := proto; Pinned := p; SeenFP := seen |}])
  end.

Definition pin_if (seen pinned pending : option string) (proto : string) : option string * option string * list CertificateChange :=
  match nullStr seen with Some fp => pinCertificate pinned pending fp proto | None => (pinned, pending, []) end.

Definition host_key_next (t : Trust) (fp : string) : HostKeyStatus * bool :=
  match HostKeyStatus_ t with
  | HostKeyUnknown | HostKeyPending => (HostKeyPending, false)
  | HostKeyTrusted => if bool_decide (HostKeyFingerprint t = Some fp) then (HostKeyTrusted, false) else (HostKeyChanged, true)
  | HostKeyChanged => (HostKeyChanged, false)
  end.

(** The target as [RecordProbe] will write it, from the one it read. *)
Definition probed (now : time) (res : ProbeResult) (t : Target) : Target * HostKeyChange :=
  let tr := trust t in
  let '(fp, status, changed, new) := match nullStr (pSSH res) with
    | Some fp => let '(st, ch) := host_key_next tr fp in (Some fp, st, ch, Some fp)
    | None => (HostKeyFingerprint tr, HostKeyStatus_ tr, false, HostKeyFingerprint tr)
    end in
  let '(tls, tlsPend, cs1) := pin_if (pTLS res) (TLSFingerprint tr) (TLSFingerprintPending tr) RDP in
  let '(winrm, winrmPend, cs2) := pin_if (pWinRM res) (WinRMTLSFingerprint tr) (WinRMTLSFingerprintPending tr) WinRM in
  let at_ := if bool_decide (pAt res = zero_time) then now else pAt res in
  let w := body t in
  ({| ID := ID t; body := rebody w (wAppPrivate w) (wAppDependencies w) (pCapabilities res) (wStatus w) (wCredentials w);
      trust := {| HostKeyFingerprint := fp; HostKeyStatus_ := status; TLSFingerprint := tls; WinRMTLSFingerprint := winrm;
                  TLSFingerprintPending := tlsPend; WinRMTLSFingerprintPending := winrmPend; LastProbedAt := Some at_ |};
      CreatedBy := CreatedBy t; CreatedAt := CreatedAt t; UpdatedAt := at_ |},
   {| Old := HostKeyFingerprint tr; New := new; hcStatus := status; Changed := changed; Certificates := cs1 ++ cs2 |}).

(** The UPDATE that ends [RecordProbe]. *)
Definition write_probe (t : Target) (r : Row) : Row :=
  let w := rBody r in
  let tr := trust t in
  {| rBody := rebody w (wAppPrivate w) (wAppDependencies w) (wCapabilities (body t)) (wStatus w) (wCredentials w);
     rTrust := {| HostKeyFingerprint := nullStr (HostKeyFingerprint tr); HostKeyStatus_ := HostKeyStatus_ tr; TLSFingerprint := nullStr (TLSFingerprint tr);
                  WinRMTLSFingerprint := nullStr (WinRMTLSFingerprint tr); TLSFingerprintPending := nullStr (TLSFingerprintPending tr);
                  WinRMTLSFingerprintPending := nullStr (WinRMTLSFingerprintPending tr); LastProbedAt := TimeArg <$> LastProbedAt tr |};
     rCreatedBy := rCreatedBy r; rCreatedAt := rCreatedAt r; rUpdatedAt := TimeArg (UpdatedAt t); rDeletedAt := rDeletedAt r |}.

Definition RecordProbe (now : time) (id : string) (res : ProbeResult) (db : DB) : result Error (Target * HostKeyChange * DB) :=
  let? t := Get id db in
  let '(t, change) := probed now res t in
  Ok (t, change, set_rows (alter (write_probe t) id (rows db)) db).

Definition with_trust (tr : Trust) (at_ : time) (t : Target) : Target :=
  {| ID := ID t; body := body t; trust := tr; CreatedBy := CreatedBy t; CreatedAt := CreatedAt t; UpdatedAt := at_ |}.

Definition row_trust (tr : Trust) (now : time) (r : Row) : Row := {|
  rBody := rBody r; rTrust := tr; rCreatedBy := rCreatedBy r; rCreatedAt := rCreatedAt r; rUpdatedAt := TimeArg now; rDeletedAt := rDeletedAt r |}.

Definition set_status (s : HostKeyStatus) (tr : Trust) : Trust := {|
  HostKeyFingerprint := HostKeyFingerprint tr; HostKeyStatus_ := s; TLSFingerprint := TLSFingerprint tr; WinRMTLSFingerprint := WinRMTLSFingerprint tr;
  TLSFingerprintPending := TLSFingerprintPending tr; WinRMTLSFingerprintPending := WinRMTLSFingerprintPending tr; LastProbedAt := LastProbedAt tr |}.

(** What [TrustHostKey] checks of the target it read. *)
Definition may_trust_key (fingerprint : string) (t : Target) : result Error unit :=
  match HostKeyFingerprint (trust t) with
  | None => Err ErrNoPendingHostKey
  | Some k =>
      let? _ := refuse_if (negb (bool_decide (HostKeyStatus_ (trust t) = HostKeyPending)) && negb (bool_decide (HostKeyStatus_ (trust t) = HostKeyChanged)))
                  ErrNoPendingHostKey in
      refuse_if (negb (bool_decide (fingerprint = k))) ErrFingerprintMismatch
  end.

(** Its UPDATE, which still wants that fingerprint. *)
Definition write_trusted (now : time) (id fingerprint : string) (db : DB) : result Error DB :=
  match rows db !! id with
  | Some r =>
      if bool_decide (HostKeyFingerprint (rTrust r) = Some fingerprint)
      then Ok (set_rows (<[id := row_trust (set_status HostKeyTrusted (rTrust r)) now r]> (rows db)) db)
      else Err ErrFingerprintMismatch
  | None => Err ErrFingerprintMismatch
  end.

Definition TrustHostKey (now : time) (id fingerprint : string) (db : DB) : result Error (Target * DB) :=
  let? t := Get id db in
  let? _ := may_trust_key fingerprint t in
  let? db := write_trusted now id fingerprint db in
  Ok (with_trust (set_status HostKeyTrusted (trust t)) now t, db).

(** The pinned and pending certificates of RDP, or of WinRM. *)
Inductive Listener := LRDP | LWinRM.

#[export] Instance Listener_eq_dec : EqDecision Listener.
Proof. solve_decision. Defined.

Definition listener (proto : string) : option Listener :=
  if bool_decide (proto = RDP) then Some LRDP else if bool_decide (proto = WinRM) then Some LWinRM else None.

Definition pinned (l : Listener) (tr : Trust) : option string := match l with LRDP => TLSFingerprint tr | LWinRM => WinRMTLSFingerprint tr end.
Definition pending (l : Listener) (tr : Trust) : option string := match l with LRDP => TLSFingerprintPending tr | LWinRM => WinRMTLSFingerprintPending tr end.

Definition set_pinned (l : Listener) (fp : string) (tr : Trust) : Trust :=
  match l with
  | LRDP => {| HostKeyFingerprint := HostKeyFingerprint tr; HostKeyStatus_ := HostKeyStatus_ tr; TLSFingerprint := Some fp;
               WinRMTLSFingerprint := WinRMTLSFingerprint tr; TLSFingerprintPending := None;
               WinRMTLSFingerprintPending := WinRMTLSFingerprintPending tr; LastProbedAt := LastProbedAt tr |}
  | LWinRM => {| HostKeyFingerprint := HostKeyFingerprint tr; HostKeyStatus_ := HostKeyStatus_ tr; TLSFingerprint := TLSFingerprint tr;
                 WinRMTLSFingerprint := Some fp; TLSFingerprintPending := TLSFingerprintPending tr; WinRMTLSFingerprintPending := None;
                 LastProbedAt := LastProbedAt tr |}
  end.

Definition may_trust_cert (l : Listener) (fingerprint : string) (t : Target) : result Error unit :=
  match pending l (trust t) with
  | None => Err ErrNoPendingCertificate
  | Some p => refuse_if (negb (bool_decide (fingerprint = p))) ErrFingerprintMismatch
  end.

Definition write_pinned (now : time) (id : string) (l : Listener) (fingerprint : string) (db : DB) : result Error DB :=
  match rows db !! id with
  | Some r =>
      if bool_decide (pending l (rTrust r) = Some fingerprint)
      then Ok (set_rows (<[id := row_trust (set_pinned l fingerprint (rTrust r)) now r]> (rows db)) db)
      else Err ErrFingerprintMismatch
  | None => Err ErrFingerprintMismatch
  end.

Definition TrustCertificate (now : time) (id proto fingerprint : string) (db : DB) : result Error (Target * DB) :=
  let? t := Get id db in
  match listener proto with
  | None => Err (ErrInvalid "protocol must be rdp or winrm")
  | Some l =>
      let? _ := may_trust_cert l fingerprint t in
      let? db := write_pinned now id l fingerprint db in
      Ok (with_trust (set_pinned l fingerprint (trust t)) now t, db)
  end.

(** * What an application's sessions were refused *)

(** Host, port, why, what and from. *)
Definition RefusalKey : Type := string * Z * string * string * string.

Record Sighting := { sCount : Z; FirstSeen : time; LastSeen : time }.

Definition MaxRefusalsListed : nat := 200.

(** The upsert of one refusal: the count is carried on, the last sighting moves. *)
Definition record_one (now : time) (m : gmap RefusalKey Sighting) (kx : RefusalKey * Sighting) : gmap RefusalKey Sighting :=
  let '(k, x) := kx in
  let at_ := if bool_decide (LastSeen x = zero_time) then now else LastSeen x in
  let first := if bool_decide (FirstSeen x = zero_time) then at_ else FirstSeen x in
  let n := if sCount x <? 1 then 1 else sCount x in
  <[k := match m !! k with
         | Some y => {| sCount := sCount y + n; FirstSeen := FirstSeen y; LastSeen := TimeArg at_ |}
         | None => {| sCount := n; FirstSeen := TimeArg first; LastSeen := TimeArg at_ |}
         end]> m.

Definition RecordRefusals (now : time) (targetID : string) (rs : list (RefusalKey * Sighting)) (tbl : gmap string (gmap RefusalKey Sighting))
    : gmap string (gmap RefusalKey Sighting) :=
  if bool_decide (rs = []) then tbl else <[targetID := foldl (record_one now) (default ∅ (tbl !! targetID)) rs]> tbl.

Definition refusal_le (le : string → string → bool) (a b : RefusalKey * Sighting) : Prop :=
  let '(ha, pa, _, _, _) := a.1 in
  let '(hb, pb, _, _, _) := b.1 in
  (if bool_decide (LastSeen a.2 = LastSeen b.2) then (if bool_decide (ha = hb) then pa <=? pb else le ha hb) else LastSeen b.2 <? LastSeen a.2) = true.

#[export] Instance refusal_le_dec le : RelDecision (refusal_le le).
Proof. intros [[[[[]]]] ?] [[[[[]]]] ?]. unfold refusal_le. cbn. apply _. Defined.

Definition ListRefusals (le : string → string → bool) (targetID : string) (tbl : gmap string (gmap RefusalKey Sighting)) : list (RefusalKey * Sighting) :=
  take MaxRefusalsListed (merge_sort (refusal_le le) (map_to_list (default ∅ (tbl !! targetID)))).

Definition ClearRefusals (targetID : string) (tbl : gmap string (gmap RefusalKey Sighting)) : gmap string (gmap RefusalKey Sighting) :=
  delete targetID tbl.

(** * The handlers *)

(** What the handlers change: the targets, the policies, the access requests,
the live sessions, and what applications were refused. *)
Record World := {
  xDB : DB; xTables : PolicyRepo.Tables; xRequests : Access.Rows; xReg : Registry; xRefused : gmap string (gmap RefusalKey Sighting);
}.

Definition set_db (db : DB) (x : World) : World :=
  {| xDB := db; xTables := xTables x; xRequests := xRequests x; xReg := xReg x; xRefused := xRefused x |}.
Definition set_live (r : Registry) (x : World) : World :=
  {| xDB := xDB x; xTables := xTables x; xRequests := xRequests x; xReg := r; xRefused := xRefused x |}.

Record Usage := { uPolicies : list Removal; uLiveSessions : nat; uOpenRequests : nat }.

(** An answer carries what the audit record counts. *)
Inductive Reply :=
| RTarget (t : Target)
| RUpdated (t : Target) (ended : nat)
| RDeleted (removals : list Removal) (closed ended : nat)
| RProbed (t : Target) (change : HostKeyChange) (ended : nat)
| RUsage (u : Usage)
| RRefusals (l : list (RefusalKey * Sighting))
| RDone
| RRefused (status : Z) (code : string)
| RInternal.

Definition fail (e : Error) : Reply :=
  match e with
  | ErrNotFound => RRefused 404 "not_found"
  | ErrDuplicate => RRefused 409 "conflict"
  | ErrInvalid _ => RRefused 400 "bad_request"
  | ErrInvalidCredential => RRefused 400 "bad_request"
  | ErrFingerprintMismatch => RRefused 409 "fingerprint_mismatch"
  | ErrNoPendingHostKey => RRefused 409 "no_pending_host_key"
  | ErrNoPendingCertificate => RRefused 409 "no_pending_certificate"
  | ErrDatabase => RInternal
  end.

Definition address_forbidden : Reply := RRefused 422 "address_forbidden".

Definition Endpoints (w : Write) : list AppEndpoint :=
  if negb (IsApplication w) then [] else {| eName := wName w; eURL := wAppUpstream w |} :: wAppEndpoints w.

Definition origins (w : Write) : list string := eURL <$> Endpoints w.

Definition apply_write (w : Write) (t : Target) : Target :=
  {| ID := ID t; body := w; trust := trust t; CreatedBy := CreatedBy t; CreatedAt := CreatedAt t; UpdatedAt := UpdatedAt t |}.

(** What [l] has and [k] has not. *)
Definition taken (l k : list string) : list string := List.filter (λ o, negb (contains k o)) l.

(** An update after which no session stays: disabled, moved, or something an
application's session may still reach taken away. *)
Definition withdraws (before after : Write) : bool :=
  (bool_decide (wStatus before = StatusActive) && bool_decide (wStatus after = StatusDisabled))
  || negb (bool_decide (wAddress before = wAddress after))
  || negb (bool_decide (taken (origins before) (origins after) = []))
  || (bool_decide (wAppDependencies before = DependenciesPublic) && bool_decide (wAppDependencies after = DependenciesOrigins))
  || negb (bool_decide (taken (Entries (wAppPrivate before)) (Entries (wAppPrivate after)) = [])).

Definition or_refuse (x : World) (r : result Reply (Reply * World)) : Reply * World := match r with Ok a => a | Err e => (e, x) end.

Definition failing {A} (r : result Error A) : result Reply A := match r with Ok a => Ok a | Err e => Err (fail e) end.

Section Handlers.
Variable url_parse : string → option URL.
Variable has_certificate : string → bool.
Variable le : string → string → bool.
Variable prober : Rules.Prober.

Definition literalHosts (w : Write) : list string :=
  wAddress w ::
  (if bool_decide (Strings.TrimSpace (wAppUpstream w) = "") then []
   else omap (λ raw, match url_parse (Strings.TrimSpace raw) with
                     | Some u => if bool_decide (Hostname u = "") then None else Some (Hostname u)
                     | None => None
                     end) (wAppUpstream w :: (eURL <$> wAppEndpoints w))).

Definition addressAllowed (w : Write) : result Reply unit :=
  if forallb (λ a, is_ok (Rules.CheckLiteral prober a)) (literalHosts w) then Ok tt else Err address_forbidden.

Definition create (who newID : string) (now : time) (w : Write) (x : World) : Reply * World :=
  or_refuse x (
    let? _ := addressAllowed w in
    let t := {| ID := ""; body := w; trust := no_trust; CreatedBy := Some who; CreatedAt := zero_time; UpdatedAt := zero_time |} in
    let? td := failing (Create url_parse has_certificate newID now t (xDB x)) in
    Ok (RTarget td.1, set_db td.2 x)).

Definition get (id : string) (x : World) : Reply := match Get id (xDB x) with Ok t => RTarget t | Err e => fail e end.

Definition update (id : string) (now : time) (w : Write) (x : World) : Reply * World :=
  or_refuse x (
    let? t := failing (Get id (xDB x)) in
    let? _ := addressAllowed w in
    let? td := failing (Update url_parse has_certificate now (apply_write w t) (xDB x)) in
    let '(n, r) := if withdraws (body t) (body td.1) then TerminateTarget (ID t) ErrTargetDisabled (xReg x) else (0%nat, xReg x) in
    Ok (RUpdated td.1 n, set_live r (set_db td.2 x))).

(** The sweep of the sessions on the ids; a second one follows two seconds
later. *)
Fixpoint EndSessions (ids : list string) (r : Registry) : nat * Registry :=
  match ids with
  | [] => (0%nat, r)
  | id :: ids => let '(n, r) := TerminateTarget id ErrTargetDeleted r in let '(m, r) := EndSessions ids r in ((n + m)%nat, r)
  end.

(** The removal from the policies and the closing of the requests run in the
deletion's transaction. *)
Definition delete_ (id : string) (newIDs : string → nat → string) (now : time) (x : World) : Reply * World :=
  or_refuse x (
    let? t := failing (Get id (xDB x)) in
    let first '(tbl, reqs, _, _) :=
      let '(removals, tbl) := RemoveTargetTx le newIDs now (ID t) "" tbl in
      let '(reqs, closed) := CloseForTargetTx (ID t) "" "target deleted" now reqs in
      Ok (tbl, reqs, removals, closed) in
    let? ad := failing (DeleteWith now (ID t) first (xTables x, xRequests x, [], 0%nat) (xDB x)) in
    let '(tbl, reqs, removals, closed, db) := ad in
    let '(ended, r) := EndSessions [ID t] (xReg x) in
    Ok (RDeleted removals closed ended, {| xDB := db; xTables := tbl; xRequests := reqs; xReg := r; xRefused := xRefused x |})).

Definition Preview (targetID asgID : string) (liveIDs : list string) (x : World) : Usage := {|
  uPolicies := TargetUsage le targetID asgID (xTables x);
  uOpenRequests := OpenForTarget targetID asgID (xRequests x);
  uLiveSessions := length (List.filter (λ l, contains liveIDs (Registry.TargetID l)) (Registry.List_ (xReg x))) |}.

Definition usage (id : string) (x : World) : Reply :=
  match Get id (xDB x) with Ok t => RUsage (Preview (ID t) "" [ID t] x) | Err e => fail e end.

(** [probe]; the network's answer is an argument. *)
Definition probe (id : string) (now : time) (Probe : string → gmap string Z → result Rules.Error ProbeResult) (x : World) : Reply * World :=
  or_refuse x (
    let? t := failing (Get id (xDB x)) in
    match Probe (wAddress (body t)) (EffectivePorts (body t)) with
    | Err e => Err (if Rules.forbidden e then address_forbidden else RRefused 502 "probe_failed")
    | Ok res =>
        let? tcd := failing (RecordProbe now (ID t) res (xDB x)) in
        let '(t, change, db) := tcd in
        let '(n, r) := if Changed change || negb (bool_decide (Certificates change = []))
                       then TerminateTarget (ID t) ErrTrustLost (xReg x) else (0%nat, xReg x) in
        Ok (RProbed t change n, set_live r (set_db db x))
    end).

Definition trustHostKey (id fingerprint : string) (now : time) (x : World) : Reply * World :=
  or_refuse x (
    let? _ := refuse_if (bool_decide (fingerprint = "")) (RRefused 400 "bad_request") in
    let? td := failing (TrustHostKey now id fingerprint (xDB x)) in
    Ok (RTarget td.1, set_db td.2 x)).

Definition trustCertificate (id proto fingerprint : string) (now : time) (x : World) : Reply * World :=
  or_refuse x (
    let? _ := refuse_if (bool_decide (fingerprint = "")) (RRefused 400 "bad_request") in
    let? td := failing (TrustCertificate now id proto fingerprint (xDB x)) in
    Ok (RTarget td.1, set_db td.2 x)).

Definition UserSuppliedSentinel : string := "user_supplied".

(** [ensure] is the vault's record of prompting, made when it is first asked
for: its id, and the ids of the vault afterwards. *)
Definition setCredential (id proto credentialID : string) (now : time) (ensure : option (gset string → result unit (string * gset string))) (x : World)
    : Reply * World :=
  let supplied : result Reply (string * DB) :=
    match ensure with
    | Some f =>
        if bool_decide (credentialID = UserSuppliedSentinel) then
          match f (vaulted (xDB x)) with
          | Ok (cid, v) => Ok (cid, {| rows := rows (xDB x); bindings := bindings (xDB x); vaulted := v |})
          | Err _ => Err RInternal
          end
        else Ok (credentialID, xDB x)
    | None => Ok (credentialID, xDB x)
    end in
  match supplied with
  | Err e => (e, x)
  | Ok (cid, db) =>
      match SetCredential now id proto cid db with
      | Err e => (fail e, set_db db x)
      | Ok db => (get id (set_db db x), set_db db x)
      end
  end.

Definition unsetCredential (id proto : string) (x : World) : Reply * World :=
  or_refuse x (
    let? _ := refuse_if (negb (ValidProtocol proto)) (RRefused 400 "bad_request") in
    let? db := failing (UnsetCredential id proto (xDB x)) in
    Ok (RDone, set_db db x)).

Definition listDependencies (id : string) (x : World) : Reply :=
  match Get id (xDB x) with Ok t => RRefusals (ListRefusals le (ID t) (xRefused x)) | Err e => fail e end.

Definition clearDependencies (id : string) (x : World) : Reply * World :=
  or_refuse x (
    let? t := failing (Get id (xDB x)) in
    Ok (RDone, {| xDB := xDB x; xTables := xTables x; xRequests := xRequests x; xReg := xReg x; xRefused := ClearRefusals (ID t) (xRefused x) |})).

(** ** Signing in once with a certificate *)

(** The key to sign with; [Err true] is that no next key is prepared. *)
Record Vault := { vGet : string → option Credential; vOpen : bool → string → result bool string }.

Record SSHDial := { dIP : IP; dPort : Z; dFingerprint : string; dUser : string; dKey : string; dKeyID : string }.

(** What is dialled, or the refusal. *)
Definition probeCertificate (id key username : string) (vault : option Vault) (lookup : Rules.Resolver) (x : World) : result Reply SSHDial :=
  let key := if bool_decide (key = "") then "current" else key in
  let? _ := refuse_if (negb (bool_decide (key = "current")) && negb (bool_decide (key = "pending"))) (RRefused 400 "bad_request") in
  let? t := failing (Get id (xDB x)) in
  let fp := default "" (HostKeyFingerprint (trust t)) in
  let? _ := refuse_if (negb (bool_decide (HostKeyStatus_ (trust t) = HostKeyTrusted)) || bool_decide (fp = "")) (RRefused 409 "host_key_untrusted") in
  let credID := default "" (wCredentials (body t) !! SSH) in
  match vault with
  | None => Err (RRefused 409 "no_credential")
  | Some v =>
      let? _ := refuse_if (bool_decide (credID = "")) (RRefused 409 "no_credential") in
      match vGet v credID with
      | None => Err RInternal
      | Some cred =>
          let? _ := refuse_if (negb (bool_decide (cType cred = TypeSSHCA))) (RRefused 409 "not_certificate_authority") in
          let loginUser := caLoginUser cred username in
          let? _ := refuse_if (negb (PermitsPrincipal cred loginUser)) (RRefused 403 "login_user_not_permitted") in
          match Rules.Resolve prober lookup (wAddress (body t)) with
          | Err _ => Err address_forbidden
          | Ok ip =>
              match vOpen v (bool_decide (key = "pending")) credID with
              | Err true => Err (RRefused 409 "no_rotation")
              | Err false => Err RInternal
              | Ok priv =>
                  Ok {| dIP := ip; dPort := default 0 (EffectivePorts (body t) !! SSH); dFingerprint := fp; dUser := loginUser; dKey := priv;
                        dKeyID := "zanskar-probe:" ++ username ++ ":" ++ loginUser |}
              end
          end
      end
  end.
End Handlers.
