(* ===== verification/TargetTrust.v ===== *)
(** What is trusted of a target, over every interleaving of probes, approvals
and edits; what an edit or a deletion ends; and that the counts and the preview
say what the lists and the deletion do.  For the definitions of Targets.v. *)
From stdpp Require Import sorting.
From S2P Require Import Prelude GoText Protocol Policy PolicyEval Access Registry NetIP Addresses Connect PolicyRepo TargetForm Targets.
Local Open Scope Z_scope.

(** * Requests as they interleave *)

Inductive request :=
| QCreate (newID : string) (now : time) (t : Target)
| QUpdate (now : time) (t : Target)
| QDelete (now : time) (id : string)
| QSetCredential (now : time) (id p c : string)
| QUnsetCredential (id p : string)
| QProbe (now : time) (id : string) (res : ProbeResult)
| QTrustKey (now : time) (id fingerprint : string)
| QTrustCert (now : time) (id proto fingerprint : string).

(** What a request that has read its row still has to write. *)
Inductive job :=
| JProbe (id : string) (t : Target)
| JKey (now : time) (id fingerprint : string)
| JCert (now : time) (id : string) (l : Listener) (fingerprint : string).

Record state := { sdb : DB; jobs : list job }.

Inductive act := ABegin (q : request) | AFinish (k : nat).

Definition or_same {A} (db : DB) (f : A → DB) (r : result Error A) : DB := match r with Ok a => f a | Err _ => db end.

Section Interleaving.
Variable url_parse : string → option URL.
Variable has_certificate : string → bool.

(** The requests that are one transaction, and the others' reads. *)
Definition begin_ (q : request) (s : state) : state :=
  let db := sdb s in
  let now_ d := {| sdb := d; jobs := jobs s |} in
  let later j := {| sdb := db; jobs := jobs s ++ [j] |} in
  match q with
  | QCreate newID now t => now_ (or_same db snd (Create url_parse has_certificate newID now t db))
  | QUpdate now t => now_ (or_same db snd (Update url_parse has_certificate now t db))
  | QDelete now id => now_ (or_same db (λ d, d) (Delete now id db))
  | QSetCredential now id p c => now_ (or_same db (λ d, d) (SetCredential now id p c db))
  | QUnsetCredential id p => now_ (or_same db (λ d, d) (UnsetCredential id p db))
  | QProbe now id res => match Get id db with Ok t => later (JProbe id (probed now res t).1) | Err _ => s end
  | QTrustKey now id fp => match (let? t := Get id db in may_trust_key fp t) with Ok _ => later (JKey now id fp) | Err _ => s end
  | QTrustCert now id proto fp =>
      match Get id db, listener proto with
      | Ok t, Some l => match may_trust_cert l fp t with Ok _ => later (JCert now id l fp) | Err _ => s end
      | _, _ => s
      end
  end.

Definition finish (j : job) (db : DB) : DB :=
  match j with
  | JProbe id t => Targets.set_rows (alter (write_probe t) id (rows db)) db
  | JKey now id fp => or_same db (λ d, d) (write_trusted now id fp db)
  | JCert now id l fp => or_same db (λ d, d) (write_pinned now id l fp db)
  end.

Definition step (s : state) (a : act) : state :=
  match a with
  | ABegin q => begin_ q s
  | AFinish k =>
      match jobs s !! k with
      | Some j => {| sdb := finish j (sdb s); jobs := delete k (jobs s) |}
      | None => s
      end
  end.

Definition no_targets (vault : gset string) : DB := {| rows := ∅; bindings := ∅; vaulted := vault |}.

(** From a gateway with no targets. *)
Definition run (vault : gset string) (l : list act) : state := foldl step {| sdb := no_targets vault; jobs := [] |} l.

(** ** What the administrators and the probes did *)

Definition asked (l : list act) (id k : string) : Prop := ∃ now, ABegin (QTrustKey now id k) ∈ l.
Definition seen_key (l : list act) (id k : string) : Prop := ∃ now res, ABegin (QProbe now id res) ∈ l ∧ pSSH res = Some k.
Definition seen_cert (l : list act) (id : string) (li : Listener) (c : string) : Prop :=
  ∃ now res, ABegin (QProbe now id res) ∈ l ∧ (match li with LRDP => pTLS res | LWinRM => pWinRM res end) = Some c.

Record earned (l : list act) (id : string) (tr : Trust) : Prop := {
  ea_key : ∀ k, HostKeyFingerprint tr = Some k → seen_key l id k ∧ k ≠ "";
  ea_trusted : HostKeyStatus_ tr = HostKeyTrusted → ∃ k, HostKeyFingerprint tr = Some k ∧ asked l id k;
  ea_pinned : ∀ li c, Targets.pinned li tr = Some c → seen_cert l id li c ∧ c ≠ "";
  ea_pending : ∀ li c, Targets.pending li tr = Some c → seen_cert l id li c ∧ c ≠ "";
}.

Definition earned_job (l : list act) (j : job) : Prop :=
  match j with
  | JProbe id t => earned l id (trust t)
  | JKey _ id fp => asked l id fp
  | JCert _ _ _ _ => True
  end.

Definition earned_state (l : list act) (s : state) : Prop :=
  map_Forall (λ id r, earned l id (rTrust r)) (rows (sdb s)) ∧ Forall (earned_job l) (jobs s).

Lemma earned_mono l a id tr : earned l id tr → earned (l ++ [a]) id tr.
Proof.
  intros [Hk Ht Hp Hq]. split.
  - intros k (( now & res & Hin & E) & Hne)%Hk. split; [|done]. exists now, res. set_solver.
  - intros (k & E & now & Hin)%Ht. exists k. split; [done|]. exists now. set_solver.
  - intros li c ((now & res & Hin & E) & Hne)%Hp. split; [|done]. exists now, res. set_solver.
  - intros li c ((now & res & Hin & E) & Hne)%Hq. split; [|done]. exists now, res. set_solver.
Qed.

Lemma earned_state_mono l a s : earned_state l s → earned_state (l ++ [a]) s.
Proof.
  intros [Hr Hj]. split.
  - eapply map_Forall_impl; [exact Hr|]. intros. by apply earned_mono.
  - eapply Forall_impl; [exact Hj|]. intros [] Hx; cbn in *; [by apply earned_mono| |done]. destruct Hx as [now' Hin]. exists now'. set_solver.
Qed.

Lemma earned_none l id : earned l id no_trust.
Proof. split; [done|done|by intros []..]. Qed.

Lemma nullStr_Some s k : nullStr s = Some k → s = Some k ∧ k ≠ "".
Proof. unfold nullStr. destruct s as [s|]; [|done]. case_bool_decide; [done|]. by intros [= ->]. Qed.

Lemma pin_if_seen seen pin pend proto pin' pend' cs c :
  pin_if seen pin pend proto = (pin', pend', cs) →
  (pin' = Some c → pin = Some c ∨ (seen = Some c ∧ c ≠ "")) ∧ (pend' = Some c → pend = Some c ∨ (seen = Some c ∧ c ≠ "")).
Proof.
  unfold pin_if, pinCertificate. destruct (nullStr seen) as [s|] eqn:E; [|intros [= <- <- <-]; auto]. apply nullStr_Some in E as [-> Hs].
  destruct pin as [p|]; [|intros [= <- <- <-]; split; [intros [= ->]; auto|done]]. case_bool_decide; [intros [= <- <- <-]; split; [by auto|done]|].
  case_bool_decide; intros [= <- <- <-]; split; auto. intros [= ->]. auto.
Qed.

(** What a probe will write is earned, from a target that is. *)
Lemma earned_probed l now id res t : earned l id (trust t) → earned (l ++ [ABegin (QProbe now id res)]) id (trust (probed now res t).1).
Proof.
  intros He. apply (earned_mono _ (ABegin (QProbe now id res))) in He. destruct He as [Hk Ht Hp Hq]. set (l' := l ++ _) in *.
  assert (ABegin (QProbe now id res) ∈ l') as Hin by (unfold l'; set_solver).
  unfold probed. destruct (pin_if (pTLS res) _ _ _) as [[tls tlsP] cs1] eqn:E1. destruct (pin_if (pWinRM res) _ _ _) as [[wr wrP] cs2] eqn:E2.
  assert (∀ li c, (match li with LRDP => tls | LWinRM => wr end) = Some c → seen_cert l' id li c ∧ c ≠ "") as Hpin.
  { intros [] c Hc.
    - destruct (pin_if_seen _ _ _ _ _ _ _ c E1) as [H1 _]. destruct (H1 Hc) as [H2|[H2 ?]]; [by apply (Hp LRDP)|]. split; [|done]. by exists now, res.
    - destruct (pin_if_seen _ _ _ _ _ _ _ c E2) as [H1 _]. destruct (H1 Hc) as [H2|[H2 ?]]; [by apply (Hp LWinRM)|]. split; [|done]. by exists now, res. }
  assert (∀ li c, (match li with LRDP => tlsP | LWinRM => wrP end) = Some c → seen_cert l' id li c ∧ c ≠ "") as Hpend.
  { intros [] c Hc.
    - destruct (pin_if_seen _ _ _ _ _ _ _ c E1) as [_ H1]. destruct (H1 Hc) as [H2|[H2 ?]]; [by apply (Hq LRDP)|]. split; [|done]. by exists now, res.
    - destruct (pin_if_seen _ _ _ _ _ _ _ c E2) as [_ H1]. destruct (H1 Hc) as [H2|[H2 ?]]; [by apply (Hq LWinRM)|]. split; [|done]. by exists now, res. }
  destruct (nullStr (pSSH res)) as [fp|] eqn:Ef.
  - apply nullStr_Some in Ef as [Ef Hne]. destruct (host_key_next (trust t) fp) as [st ch] eqn:Eh. split; cbn.
    + intros k [= <-]. split; [|done]. by exists now, res.
    + intros ->. unfold host_key_next in Eh. destruct (HostKeyStatus_ (trust t)) eqn:Es; try (by simplify_eq).
      case_bool_decide as Hf; [|by simplify_eq]. destruct (Ht eq_refl) as (k & Hk' & Ha). exists fp. split; [done|]. congruence.
    + intros [] c Hc; by apply Hpin.
    + intros [] c Hc; by apply Hpend.
  - split; cbn; [done|done|intros [] c Hc; by apply Hpin|intros [] c Hc; by apply Hpend].
Qed.

Lemma earned_nullStr l id t : earned l id (trust t) → ∀ r, earned l id (rTrust (write_probe t r)).
Proof.
  intros [Hk Ht Hp Hq] r. split; cbn.
  - intros k [E _]%nullStr_Some. by apply Hk.
  - intros Hs. destruct (Ht Hs) as (k & E & Ha). exists k. split; [|done]. destruct (Hk _ E) as [_ Hne]. unfold nullStr. rewrite E.
    by rewrite bool_decide_eq_false_2.
  - intros [] c [E _]%nullStr_Some; [by apply (Hp LRDP)|by apply (Hp LWinRM)].
  - intros [] c [E _]%nullStr_Some; [by apply (Hq LRDP)|by apply (Hq LWinRM)].
Qed.

Lemma replaceCredentialsTx_rows id creds db db' : replaceCredentialsTx id creds db = Ok db' → rows db' = rows db.
Proof. unfold replaceCredentialsTx. intros (bs & _ & E)%rbind_Ok. by apply Ok_inj in E as <-. Qed.

Lemma Create_rows newID now t db t' db' :
  Create url_parse has_certificate newID now t db = Ok (t', db') → rows db !! newID = None ∧ ∃ r, rows db' = <[newID := r]> (rows db) ∧ rTrust r = no_trust.
Proof.
  unfold Create. intros (w & _ & H)%rbind_Ok. cbv zeta in H. apply rbind_Ok in H as ([] & Hd & H). apply rbind_Ok in H as (d & Hc & E).
  apply Ok_inj in E. simplify_eq. apply replaceCredentialsTx_rows in Hc. apply refuse_if_ok, orb_false_iff in Hd as [Hd _].
  apply bool_decide_eq_false in Hd. split; [by apply eq_None_not_Some|]. eexists. split; [exact Hc|done].
Qed.

Lemma Update_rows now t db t' db' :
  Update url_parse has_certificate now t db = Ok (t', db') →
  ∃ r r' w, valid url_parse has_certificate (body t) = Ok w ∧ body t' = w ∧ ID t' = ID t ∧ rows db !! ID t = Some r ∧ live_row r = true ∧
    rows db' = <[ID t := r']> (rows db) ∧ rBody r' = stored_body w ∧ rTrust r' = (if bool_decide (wAddress (rBody r) = wAddress w) then rTrust r else no_trust).
Proof.
  unfold Update. intros (w & Hw & H)%rbind_Ok. destruct (rows db !! ID t) as [r|] eqn:Er; [|done]. destruct (live_row r) eqn:El; [|done].
  cbv zeta in H. cbn [negb] in H. apply rbind_Ok in H as ([] & _ & H). apply rbind_Ok in H as (d & Hc & E). apply Ok_inj in E. simplify_eq.
  apply replaceCredentialsTx_rows in Hc. eexists r, _, w. do 5 (split; [done|]). split; [exact Hc|]. split; [done|]. cbn. by destruct (bool_decide _).
Qed.

Lemma Delete_rows {A} now id (first : A → result Error A) a db a' db' :
  DeleteWith now id first a db = Ok (a', db') →
  ∃ r r', first a = Ok a' ∧ rows db !! id = Some r ∧ live_row r = true ∧ rows db' = <[id := r']> (rows db) ∧ rTrust r' = rTrust r ∧ live_row r' = false
    ∧ bindings db' = delete id (bindings db).
Proof.
  unfold DeleteWith. intros (a1 & Ha & H)%rbind_Ok. destruct (rows db !! id) as [r|]; [|done]. destruct (live_row r) eqn:El; [|done].
  apply Ok_inj in H. simplify_eq. eexists r, _. split_and!; done.
Qed.

Lemma SetCredential_rows now id p c db db' : SetCredential now id p c db = Ok db' → rows db' = alter (touch now) id (rows db).
Proof.
  unfold SetCredential. intros H. apply rbind_Ok in H as ([] & _ & H). apply rbind_Ok in H as ([] & _ & H). apply rbind_Ok in H as (t & _ & H).
  apply rbind_Ok in H as (bs & _ & H). by apply Ok_inj in H as <-.
Qed.

(** Inserting a row whose trust is earned. *)
Lemma earned_insert l id r (m : gmap string Row) : earned l id (rTrust r) → map_Forall (λ id r, earned l id (rTrust r)) m → map_Forall (λ id r, earned l id (rTrust r)) (<[id := r]> m).
Proof. intros Hr Hm. by apply map_Forall_insert_2. Qed.

Lemma earned_alter l id f (m : gmap string Row) :
  (∀ r, m !! id = Some r → earned l id (rTrust (f r))) → map_Forall (λ id r, earned l id (rTrust r)) m → map_Forall (λ id r, earned l id (rTrust r)) (alter f id m).
Proof.
  intros Hf Hm i r. destruct (decide (i = id)) as [->|Hne]; [|rewrite lookup_alter_ne by done; apply Hm]. rewrite lookup_alter_eq.
  destruct (m !! id) as [r0|] eqn:E; [|done]. intros [= <-]. by apply Hf.
Qed.

Lemma finish_earned l j db :
  earned_job l j → map_Forall (λ id r, earned l id (rTrust r)) (rows db) → map_Forall (λ id r, earned l id (rTrust r)) (rows (finish j db)).
Proof.
  intros Hj Hr. destruct j as [id t|now id fp|now id li fp]; cbn [finish].
  - apply earned_alter; [|done]. intros r _. by apply earned_nullStr.
  - unfold write_trusted. destruct (rows db !! id) as [r|] eqn:Er; [|done]. case_bool_decide as Hf; [|done]. apply earned_insert; [|done].
    destruct (Hr _ _ Er) as [Hk Ht Hp Hq]. split; cbn; [done|by exists fp|by intros []; [apply (Hp LRDP)|apply (Hp LWinRM)]|].
    by intros []; [apply (Hq LRDP)|apply (Hq LWinRM)].
  - unfold write_pinned. destruct (rows db !! id) as [r|] eqn:Er; [|done]. case_bool_decide as Hf; [|done]. apply earned_insert; [|done].
    destruct (Hr _ _ Er) as [Hk Ht Hp Hq]. pose proof (Hq _ _ Hf) as Hfp. split; cbn; destruct li; cbn; try done.
    all: intros [] c; cbn; try (by intros [= <-]); try done; try (by apply (Hp LRDP)); try (by apply (Hp LWinRM)); try (by apply (Hq LRDP)); by apply (Hq LWinRM).
Qed.

Lemma begin_earned l q s : earned_state l s → earned_state (l ++ [ABegin q]) (begin_ q s).
Proof.
  intros He. pose proof (earned_state_mono _ (ABegin q) _ He) as [Hr' Hj']. destruct He as [Hr Hj].
  destruct q as [newID now t|now t|now id|now id p c|id p|now id res|now id fp|now id proto fp]; cbn [begin_].
  - split; [|done]. destruct (Create _ _ _ _ _ _) as [[t' db']|] eqn:E; [|done]. apply Create_rows in E as (_ & r & E & Ht). cbn. rewrite E.
    apply earned_insert; [|done]. rewrite Ht. apply earned_none.
  - split; [|done]. destruct (Update _ _ _ _ _) as [[t' db']|] eqn:E; [|done]. cbn.
    apply Update_rows in E as (r & r' & w & _ & _ & _ & Er & _ & E & _ & Ht). rewrite E. apply earned_insert; [|done]. rewrite Ht.
    case_bool_decide; [by apply (Hr' _ _ Er)|apply earned_none].
  - split; [|done]. unfold Delete. destruct (DeleteWith _ _ _ _ _) as [[[] db']|] eqn:E; [|done]. cbn.
    apply Delete_rows in E as (r & r' & _ & Er & _ & E & Ht & _). rewrite E. apply earned_insert; [|done]. rewrite Ht. by apply (Hr' _ _ Er).
  - split; [|done]. destruct (SetCredential _ _ _ _ _) as [db'|] eqn:E; [|done]. cbn. rewrite (SetCredential_rows _ _ _ _ _ _ E).
    apply earned_alter; [|done]. intros r Er. by apply (Hr' _ _ Er).
  - split; [|done]. unfold UnsetCredential. destruct (Get id (sdb s)) as [t|]; done.
  - destruct (Get id (sdb s)) as [t|] eqn:Eg; [|done]. split; [done|]. cbn [jobs]. apply Forall_app. split; [done|]. apply Forall_singleton.
    apply earned_probed. unfold Get in Eg. destruct (rows (sdb s) !! id) as [r|] eqn:Er; [|done]. destruct (live_row r); [|done].
    apply Ok_inj in Eg as <-. by apply (Hr _ _ Er).
  - destruct (let? t := _ in _) as [t|] eqn:Eg; [|done]. split; [done|]. cbn [jobs]. apply Forall_app. split; [done|]. apply Forall_singleton.
    exists now. set_solver.
  - destruct (Get id (sdb s)) as [t|]; [|done]. destruct (listener proto) as [li|]; [|done]. destruct (may_trust_cert _ _ _); [|done].
    split; [done|]. cbn [jobs]. apply Forall_app. split; [done|by apply Forall_singleton].
Qed.

Lemma run_earned vault l : earned_state l (run vault l).
Proof.
  induction l as [|a l IH] using rev_ind; [split; [done|by apply Forall_nil_2]|]. unfold run in *. rewrite foldl_snoc.
  set (s := foldl step _ l) in *. destruct a as [q|k]; cbn [step]; [by apply begin_earned|]. apply (earned_state_mono _ (AFinish k)) in IH as [Hr Hj].
  destruct (jobs s !! k) as [j|] eqn:Ej; [|done]. split; cbn.
  - apply finish_earned; [|done]. by apply (Forall_lookup_1 _ _ _ _ Hj Ej).
  - by apply Forall_delete.
Qed.
End Interleaving.

(** A target as the connect flow reads it. *)
Definition connect_view (t : Target) : Connect.Target := {|
  tgID := ID t; tgAddress := wAddress (body t); tgEngine := wEngine (body t); tgRetentionDays := wRetentionDays (body t);
  tgAppUpstream := wAppUpstream (body t); tgPorts := wPorts (body t); tgHostKeyFingerprint := HostKeyFingerprint (trust t);
  tgHostKeyStatus := status_text (HostKeyStatus_ (trust t)); tgTLSFingerprint := TLSFingerprint (trust t);
  tgWinRMTLSFingerprint := WinRMTLSFingerprint (trust t); tgTags := wTags (body t); tgStatus := wStatus (body t); tgCredentials := wCredentials (body t) |}.

(** C33. Over every history of requests on the targets, in which a probe or an
approval reads its row and writes it only later with any other requests in
between: when a session or a certificate sign-in is offered a target whose host
key is trusted, the fingerprint it will insist on is not empty, a probe of that
target saw it, and an administrator asked for exactly that fingerprint of that
target to be trusted; and a certificate that is pinned was seen by a probe of
that target on that listener. *)
Theorem trusted_was_approved url_parse has_certificate vault l id t :
  Get id (sdb (run url_parse has_certificate vault l)) = Ok t →
  let ep := fromTarget (connect_view t) in
  (Connect.HostKeyTrusted ep = true →
     Connect.HostKeyFingerprint ep ≠ "" ∧ seen_key l id (Connect.HostKeyFingerprint ep) ∧ asked l id (Connect.HostKeyFingerprint ep)) ∧
  (Connect.TLSFingerprint ep ≠ "" → seen_cert l id LRDP (Connect.TLSFingerprint ep)) ∧
  (Connect.WinRMTLSFingerprint ep ≠ "" → seen_cert l id LWinRM (Connect.WinRMTLSFingerprint ep)) ∧
  (∀ key username v lookup prober x d, xDB x = sdb (run url_parse has_certificate vault l) →
     probeCertificate prober id key username v lookup x = Ok d → asked l id (dFingerprint d)).
Proof.
  intros Hg ep. destruct (run_earned url_parse has_certificate vault l) as [Hr _]. set (db := sdb _) in *.
  assert (earned l id (trust t)) as He.
  { unfold Get in Hg. destruct (rows db !! id) as [r|] eqn:Er; [|done]. destruct (live_row r); [|done]. apply Ok_inj in Hg as <-. by apply (Hr _ _ Er). }
  assert (HostKeyStatus_ (trust t) = HostKeyTrusted → ∃ k, Targets.HostKeyFingerprint (trust t) = Some k ∧ k ≠ "" ∧ seen_key l id k ∧ asked l id k) as Htr.
  { intros Hs. destruct (ea_trusted _ _ _ He Hs) as (k & Hk & Ha). exists k. destruct (ea_key _ _ _ He _ Hk). done. }
  split_and!.
  - intros Hs%bool_decide_eq_true_1. cbn in Hs. destruct Htr as (k & Hk & Hne & H1 & H2); [by destruct (HostKeyStatus_ (trust t))|].
    cbn. rewrite Hk. done.
  - cbn. destruct (TLSFingerprint (trust t)) as [c|] eqn:E; [|done]. intros _. by apply (ea_pinned _ _ _ He LRDP).
  - cbn. destruct (WinRMTLSFingerprint (trust t)) as [c|] eqn:E; [|done]. intros _. by apply (ea_pinned _ _ _ He LWinRM).
  - intros key username v lookup prober x d Hx Hd. unfold probeCertificate in Hd. cbv zeta in Hd. rewrite Hx in Hd.
    apply rbind_Ok in Hd as ([] & _ & Hd). rewrite Hg in Hd. cbn [failing rbind] in Hd. apply rbind_Ok in Hd as ([] & Hs & Hd).
    apply refuse_if_ok, orb_false_iff in Hs as [Hs _]. apply negb_false_iff, bool_decide_eq_true_1 in Hs. destruct (Htr Hs) as (k & Hk & _ & _ & Ha).
    destruct v as [v|]; [|done]. apply rbind_Ok in Hd as ([] & _ & Hd). destruct (vGet v _) as [cred|]; [|done].
    apply rbind_Ok in Hd as ([] & _ & Hd). apply rbind_Ok in Hd as ([] & _ & Hd). destruct (Rules.Resolve _ _ _); [|done].
    destruct (vOpen v _ _) as [|[]]; [|done..]. apply Ok_inj in Hd as <-. cbn. rewrite Hk. done.
Qed.

(** * One request at a time *)

(** A request from its read to its write, with nothing in between. *)
Definition serve (url_parse : string → option URL) (has_certificate : string → bool) (q : request) (db : DB) : DB :=
  let s := begin_ url_parse has_certificate q {| sdb := db; jobs := [] |} in foldr finish (sdb s) (jobs s).

(** What became of a trusted key and of the pinned certificates. *)
Record moves (q : request) (id : string) (r r' : Row) : Prop := {
  mv_pinned : ∀ li p, p ≠ "" → pinned li (rTrust r) = Some p →
    pinned li (rTrust r') = Some p
    ∨ (∃ now proto c, q = QTrustCert now id proto c ∧ listener proto = Some li ∧ pending li (rTrust r) = Some c ∧ pinned li (rTrust r') = Some c)
    ∨ (wAddress (rBody r) ≠ wAddress (rBody r') ∧ rTrust r' = no_trust);
  mv_trusted : ∀ k, k ≠ "" → HostKeyStatus_ (rTrust r) = HostKeyTrusted → HostKeyFingerprint (rTrust r) = Some k →
    (HostKeyStatus_ (rTrust r') = HostKeyTrusted ∧ HostKeyFingerprint (rTrust r') = Some k)
    ∨ (∃ now res k', q = QProbe now id res ∧ pSSH res = Some k' ∧ k' ≠ k ∧ HostKeyStatus_ (rTrust r') = HostKeyChanged ∧ HostKeyFingerprint (rTrust r') = Some k')
    ∨ (wAddress (rBody r) ≠ wAddress (rBody r') ∧ rTrust r' = no_trust);
  mv_approved : HostKeyStatus_ (rTrust r') = HostKeyTrusted →
    HostKeyStatus_ (rTrust r) = HostKeyTrusted
    ∨ ∃ now k, q = QTrustKey now id k ∧ HostKeyFingerprint (rTrust r) = Some k ∧ HostKeyFingerprint (rTrust r') = Some k;
}.

Lemma moves_same q id r r' : rTrust r' = rTrust r → moves q id r r'.
Proof. intros E. split; rewrite E; auto. Qed.

Ltac unmoved := cbn [or_same rows sdb jobs foldr Targets.set_rows]; intros; simplify_eq; by apply moves_same.

Lemma moves_cleared q id r r' : wAddress (rBody r) ≠ wAddress (rBody r') → rTrust r' = no_trust → moves q id r r'.
Proof. intros Ha E. split; [by auto..|]. by rewrite E. Qed.

Lemma pin_if_keeps seen p pend proto : p ≠ "" → nullStr (pin_if seen (Some p) pend proto).1.1 = Some p.
Proof.
  intros Hp. unfold pin_if, pinCertificate. assert (nullStr (Some p) = Some p) as Hn by (cbn; by rewrite bool_decide_eq_false_2).
  destruct (nullStr seen); [|done]. case_bool_decide; [done|]. by case_bool_decide.
Qed.

Lemma moves_probe now id res t r : trust t = rTrust r → moves (QProbe now id res) id r (write_probe (probed now res t).1 r).
Proof.
  intros Et. unfold probed. rewrite Et.
  pose proof (λ p, pin_if_keeps (pTLS res) p (TLSFingerprintPending (rTrust r)) RDP) as H1.
  pose proof (λ p, pin_if_keeps (pWinRM res) p (WinRMTLSFingerprintPending (rTrust r)) WinRM) as H2.
  destruct (pin_if (pTLS res) _ _ _) as [[tls tlsP] cs1] eqn:E1. destruct (pin_if (pWinRM res) _ _ _) as [[wr wrP] cs2] eqn:E2.
  assert (∀ li p, p ≠ "" → pinned li (rTrust r) = Some p → nullStr (match li with LRDP => tls | LWinRM => wr end) = Some p) as Hpin.
  { intros [] p Hp Hpin; cbn in Hpin; [specialize (H1 p Hp)|specialize (H2 p Hp)].
    - rewrite Hpin in E1. by rewrite E1 in H1.
    - rewrite Hpin in E2. by rewrite E2 in H2. }
  destruct (nullStr (pSSH res)) as [fp|] eqn:Ef.
  - apply nullStr_Some in Ef as [Ef Hne]. destruct (host_key_next (rTrust r) fp) as [st ch] eqn:Eh.
    assert (nullStr (Some fp) = Some fp) as Hfp by (cbn; by rewrite bool_decide_eq_false_2). unfold host_key_next in Eh. split; cbn [fst trust].
    + intros li p Hp Hpi. left. destruct li; [by apply (Hpin LRDP)|by apply (Hpin LWinRM)].
    + intros k Hk Hs Hf. rewrite Hs in Eh. cbn. rewrite bool_decide_eq_false_2 by done. case_bool_decide as Hb; simplify_eq; [left; split; [done|congruence]|].
      right; left. exists now, res, fp. split_and!; [done|done| |done|done]. congruence.
    + cbn. intros ->. left. destruct (HostKeyStatus_ (rTrust r)); try (by simplify_eq).
  - split; cbn [fst trust].
    + intros li p Hp Hpi. left. destruct li; [by apply (Hpin LRDP)|by apply (Hpin LWinRM)].
    + intros k Hk Hs Hf. left. cbn. rewrite Hf. cbn. by rewrite bool_decide_eq_false_2.
    + cbn. auto.
Qed.

Lemma Get_row id db t : Get id db = Ok t → ∃ r, rows db !! id = Some r ∧ live_row r = true ∧ t = scanTarget id (credentials id db) r.
Proof. unfold Get. destruct (rows db !! id) as [r|]; [|done]. destruct (live_row r) eqn:El; [|done]. intros E. apply Ok_inj in E as <-. eauto. Qed.

(** C34. Served one at a time, no request moves trust on its own.  A pinned
certificate stays pinned, but for an administrator's confirmation of the one
that is pending and for an edit that moves the target to another address, which
forgets all trust.  A trusted host key stays trusted, but for a probe that saw
another key, which leaves it changed and refused, and for such an edit.  And a
key becomes trusted only by an administrator's request for the very key the row
has.  Every other row keeps its trust. *)
Theorem trust_moves_by_approval url_parse has_certificate q db id r r' :
  rows db !! id = Some r → rows (serve url_parse has_certificate q db) !! id = Some r' → moves q id r r'.
Proof.
  intros Er. unfold serve. destruct q as [newID now t|now t|now i|now i p c|i p|now i res|now i fp|now i proto fp]; cbn [begin_ sdb jobs foldr].
  - destruct (Create _ _ _ _ _ _) as [[t' db']|] eqn:E; cbn; [|unmoved].
    apply Create_rows in E as (Hn & r0 & E & _). rewrite E, lookup_insert_ne by congruence. unmoved.
  - destruct (Update _ _ _ _ _) as [[t' db']|] eqn:E; cbn; [|unmoved].
    apply Update_rows in E as (r0 & r1 & w & _ & _ & _ & E0 & _ & E & Hb & Ht). rewrite E. destruct (decide (ID t = id)) as [<-|Hne].
    + rewrite lookup_insert_eq. intros [= <-]. simplify_eq. case_bool_decide as Ha; [by apply moves_same|]. apply moves_cleared; [|done]. by rewrite Hb.
    + rewrite lookup_insert_ne by done. unmoved.
  - unfold Delete. destruct (DeleteWith _ _ _ _ _) as [[[] db']|] eqn:E; cbn; [|unmoved].
    apply Delete_rows in E as (r0 & r1 & _ & E0 & _ & E & Ht & _). rewrite E. destruct (decide (i = id)) as [<-|Hne].
    + rewrite lookup_insert_eq. intros [= <-]. simplify_eq. by apply moves_same.
    + rewrite lookup_insert_ne by done. unmoved.
  - destruct (SetCredential _ _ _ _ _) as [db'|] eqn:E; cbn; [|unmoved].
    rewrite (SetCredential_rows _ _ _ _ _ _ E), lookup_alter, Er. case_decide; [subst i; rewrite Er|]; intros [= <-]; by apply moves_same.
  - unfold UnsetCredential. destruct (Get i db) as [t|]; cbn; unmoved.
  - destruct (Get i db) as [t|] eqn:Eg; cbn [foldr finish sdb jobs app rows Targets.set_rows]; [|unmoved].
    destruct (Get_row _ _ _ Eg) as (r0 & E0 & _ & ->). destruct (decide (i = id)) as [<-|Hne].
    + rewrite lookup_alter_eq, Er. intros [= <-]. simplify_eq. by apply moves_probe.
    + rewrite lookup_alter_ne by done. unmoved.
  - destruct (let? t := _ in _) as [t|] eqn:Eg; cbn [foldr finish sdb jobs app]; [|unmoved].
    unfold write_trusted. destruct (rows db !! i) as [r0|] eqn:E0; [|unmoved].
    case_bool_decide as Hf; [|unmoved]. cbn. destruct (decide (i = id)) as [<-|Hne].
    + rewrite lookup_insert_eq. intros [= <-]. simplify_eq. split; cbn; [intros []; auto|auto|]. intros _. right. by exists now, fp.
    + rewrite lookup_insert_ne by done. unmoved.
  - destruct (Get i db) as [t|] eqn:Eg; [|unmoved]. destruct (listener proto) as [li|] eqn:El; [|unmoved].
    destruct (may_trust_cert li fp t); cbn [foldr finish sdb jobs app]; [|unmoved].
    unfold write_pinned. destruct (rows db !! i) as [r0|] eqn:E0; [|unmoved].
    case_bool_decide as Hf; [|unmoved]. cbn. destruct (decide (i = id)) as [<-|Hne].
    + rewrite lookup_insert_eq. intros [= <-]. simplify_eq. split; cbn.
      * intros li' p Hp Hpi. destruct (decide (li' = li)) as [->|Hne]; [|left; by destruct li, li'].
        right; left. exists now, proto, fp. split_and!; [done..|]. by destruct li.
      * intros k Hk Hs Hfp. left. by destruct li.
      * destruct li; cbn; auto.
    + rewrite lookup_insert_ne by done. unmoved.
Qed.

(** * What an edit, a probe and a deletion end *)

(** Every session on the target has been told to end. *)
Definition cut_off (id : string) (r : Registry) : Prop :=
  ∀ sid l, live r !! sid = Some l → Registry.TargetID l = id → ∃ c, contexts r !! ctx l = Some (Some c).

Lemma TerminateTarget_cuts seen r id cause : Inv seen r → cut_off id (TerminateTarget id cause r).2.
Proof.
  intros HI sid l Hl Ht. destruct (where_contexts seen r (λ l, bool_decide (Registry.TargetID l = id)) cause HI) as [H _]; [done|].
  apply (H sid l Hl). by apply bool_decide_eq_true.
Qed.

(** What a session was let into is still within the target. *)
Record kept (before after : Write) : Prop := {
  ke_address : wAddress before = wAddress after;
  ke_active : wStatus before = StatusActive → wStatus after ≠ StatusDisabled;
  ke_origins : origins before ⊆ origins after;
  ke_public : wAppDependencies before = DependenciesPublic → wAppDependencies after ≠ DependenciesOrigins;
  ke_private : Entries (wAppPrivate before) ⊆ Entries (wAppPrivate after);
}.

Lemma taken_nil l k : taken l k = [] → l ⊆ k.
Proof.
  intros E x Hx. destruct (contains k x) eqn:Ec; [by apply contains_spec|]. assert (x ∈ taken l k) as Ht; [|rewrite E in Ht; by apply not_elem_of_nil in Ht].
  apply elem_of_filter_b. by rewrite Ec.
Qed.

Lemma withdraws_false before after : withdraws before after = false → kept before after.
Proof.
  unfold withdraws. rewrite !orb_false_iff, !andb_false_iff, !negb_false_iff, !bool_decide_eq_true, !bool_decide_eq_false.
  intros ((((Hs & Ha) & Ho) & Hd) & Hp). split; [done|naive_solver|by apply taken_nil|naive_solver|by apply taken_nil].
Qed.

Record trust_kept (before after : Trust) : Prop := {
  tk_key : HostKeyStatus_ before = HostKeyTrusted → HostKeyStatus_ after = HostKeyTrusted ∧ HostKeyFingerprint after = HostKeyFingerprint before;
  tk_pinned : ∀ li c, pinned li before = Some c → pinned li after = Some c;
  tk_pending : ∀ li, pending li after = None ∨ pending li after = pending li before;
}.

Lemma pin_if_quiet seen pin pend proto pin' pend' :
  pin_if seen pin pend proto = (pin', pend', []) → (∀ c, pin = Some c → pin' = Some c) ∧ (pend' = None ∨ pend' = pend).
Proof.
  unfold pin_if, pinCertificate. destruct (nullStr seen) as [s|]; [|intros [= <- <-]; auto]. destruct pin as [p|]; [|intros [= <- <-]; split; [done|auto]].
  case_bool_decide; [intros [= <- <-]; split; [done|auto]|]. case_bool_decide; [intros [= <- <-]; auto|done].
Qed.

Lemma probed_quiet now res t :
  Changed (probed now res t).2 = false → Certificates (probed now res t).2 = [] → trust_kept (trust t) (trust (probed now res t).1).
Proof.
  unfold probed. destruct (pin_if (pTLS res) _ _ _) as [[tls tlsP] cs1] eqn:E1. destruct (pin_if (pWinRM res) _ _ _) as [[wr wrP] cs2] eqn:E2.
  destruct (nullStr (pSSH res)) as [fp|] eqn:Ef.
  - destruct (host_key_next (trust t) fp) as [st ch] eqn:Eh. cbn. intros -> [-> ->]%app_eq_nil.
    apply pin_if_quiet in E1 as [H1 H2], E2 as [H3 H4]. split; cbn.
    + intros Hs. unfold host_key_next in Eh. rewrite Hs in Eh. case_bool_decide; [|done]. by injection Eh as <-.
    + intros [] c Hc; cbn in *; auto.
    + intros []; cbn; auto.
  - cbn. intros _ [-> ->]%app_eq_nil. apply pin_if_quiet in E1 as [H1 H2], E2 as [H3 H4]. split; cbn; [done| |].
    + intros [] c Hc; cbn in *; auto.
    + intros []; cbn; auto.
Qed.

(** C35. A saved edit of a target either ends every live session on it, or leaves
the sessions alone and takes from them nothing they were let into: the address
is the same, a target in service stays in service, every origin and every
private destination an application's session may reach is still allowed, and
dependencies are not narrowed to the origins.  A recorded probe either ends
every live session on the target, or the host key that was trusted is still the
trusted one and no new certificate is waiting where one was pinned.  Anything
else an administrator's edit or probe does is refused and changes nothing. *)
Theorem edits_and_probes_end_sessions url_parse has_certificate prober seen id now w Probe x :
  Inv seen (xReg x) →
  let up := update url_parse has_certificate prober id now w x in
  let pr := probe id now Probe x in
  (match up.1 with
   | RUpdated t' _ => ∃ t, Get id (xDB x) = Ok t ∧ (cut_off id (xReg up.2) ∨ (xReg up.2 = xReg x ∧ kept (body t) (body t')))
   | _ => up.2 = x
   end) ∧
  (match pr.1 with
   | RProbed t' _ _ => ∃ t, Get id (xDB x) = Ok t ∧ (cut_off id (xReg pr.2) ∨ (xReg pr.2 = xReg x ∧ trust_kept (trust t) (trust t')))
   | _ => pr.2 = x
   end).
Proof.
  intros HI up pr. split.
  - unfold up, update. destruct (Get id (xDB x)) as [t|e] eqn:Eg; [|by destruct e]. cbn [failing rbind].
    destruct (Get_row _ _ _ Eg) as (r & _ & _ & Et). assert (ID t = id) as Hid by (by rewrite Et).
    unfold addressAllowed. destruct (forallb _ _); [|done]. cbn [rbind].
    destruct (Update _ _ _ _ _) as [[t' db']|e]; [|by destruct e]. cbn [failing rbind fst snd]. rewrite Hid.
    destruct (withdraws _ _) eqn:Ew.
    + destruct (TerminateTarget id ErrTargetDisabled (xReg x)) as [n r'] eqn:Er. exists t. split; [done|]. left. cbn.
      change r' with (n, r').2. rewrite <-Er. by apply (TerminateTarget_cuts seen).
    + exists t. split; [done|]. right. split; [done|]. by apply withdraws_false.
  - unfold pr, probe. destruct (Get id (xDB x)) as [t|e] eqn:Eg; [|by destruct e]. cbn [failing rbind].
    destruct (Get_row _ _ _ Eg) as (r & _ & _ & Et). assert (ID t = id) as Hid by (by rewrite Et).
    destruct (Probe _ _) as [res|e]; [|by destruct (Rules.forbidden e)]. unfold RecordProbe. rewrite Hid, Eg. cbn [rbind failing].
    pose proof (probed_quiet now res t) as Hq. assert (ID (probed now res t).1 = id) as Hid'.
    { rewrite <-Hid. unfold probed. by repeat (case_match; simplify_eq; try done). }
    destruct (probed now res t) as [t' change]. cbn [fst snd rbind failing] in *. rewrite Hid'. destruct (Changed change) eqn:Ec; cbn [orb].
    + destruct (TerminateTarget id ErrTrustLost (xReg x)) as [n r'] eqn:Er. exists t. split; [done|]. left. cbn.
      change r' with (n, r').2. rewrite <-Er. by apply (TerminateTarget_cuts seen).
    + case_bool_decide as Hb; cbn [negb].
      * exists t. split; [done|]. right. split; [done|]. by apply Hq.
      * destruct (TerminateTarget id ErrTrustLost (xReg x)) as [n r'] eqn:Er. exists t. split; [done|]. left. cbn.
        change r' with (n, r').2. rewrite <-Er. by apply (TerminateTarget_cuts seen).
Qed.

(** * Deleting *)

Lemma names_encode newIDs targetID asgID l : existsb (names targetID asgID) (encodeGrants newIDs l) = existsb (names targetID asgID) l.
Proof.
  unfold encodeGrants. revert newIDs. induction l as [|g l IH]; intros newIDs; [done|]. cbn [imap existsb]. f_equal; [by case_bool_decide|].
  apply (IH (newIDs ∘ S)).
Qed.

Lemma remove_one_unnamed newIDs now targetID asgID p : References (remove_one newIDs now targetID asgID p) targetID asgID = false.
Proof.
  unfold remove_one, References, WithoutTarget. pose proof (without_target_spec (Grants p) targetID asgID) as Hs.
  destruct (without_target _ _ _) as [[grants n] changed]. destruct Hs as (_ & Hch & Hn & _). destruct changed; cbn [Grants policy_row]; [|done].
  by rewrite names_encode.
Qed.

Lemma closed_none targetID asgID note now reqs :
  OpenForTarget targetID asgID (CloseForTargetTx targetID asgID note now reqs).1 = 0%nat.
Proof.
  unfold OpenForTarget, CloseForTargetTx, update_where. cbn [fst]. apply length_zero_iff_nil, filter_none.
  intros r (r0 & -> & _)%list_elem_of_fmap. destruct (in_hand r0 && names_target targetID asgID r0) eqn:E; [|done]. done.
Qed.

(** What is left of a deleted target: its row, for the history. *)
Record nothing_left (id : string) (x : World) : Prop := {
  nl_row : Get id (xDB x) = Err ErrNotFound;
  nl_slots : credentials id (xDB x) = ∅;
  nl_policies : map_Forall (λ _ p, References p id "" = false) (PolicyRepo.tPolicies (xTables x));
  nl_requests : OpenForTarget id "" (xRequests x) = 0%nat;
  nl_sessions : cut_off id (xReg x);
}.

Lemma delete_inv le id newIDs now x removals closed ended x' :
  delete_ le id newIDs now x = (RDeleted removals closed ended, x') →
  ∃ t db, Get id (xDB x) = Ok t
    ∧ DeleteWith now id (λ _ : unit, Ok tt) tt (xDB x) = Ok (tt, db)
    ∧ removals = (RemoveTargetTx le newIDs now id "" (xTables x)).1 ∧ closed = (CloseForTargetTx id "" "target deleted" now (xRequests x)).2
    ∧ ended = (TerminateTarget id ErrTargetDeleted (xReg x)).1
    ∧ x' = {| xDB := db; xTables := (RemoveTargetTx le newIDs now id "" (xTables x)).2;
              xRequests := (CloseForTargetTx id "" "target deleted" now (xRequests x)).1;
              xReg := (TerminateTarget id ErrTargetDeleted (xReg x)).2; xRefused := xRefused x |}.
Proof.
  unfold delete_. destruct (Get id (xDB x)) as [t|e] eqn:Eg; [|by destruct e]. cbn [failing rbind].
  destruct (Get_row _ _ _ Eg) as (r & Er & Hl & Et). assert (ID t = id) as -> by (by rewrite Et).
  unfold DeleteWith. destruct (RemoveTargetTx _ _ _ _ _ _) as [rem tbl]. destruct (CloseForTargetTx _ _ _ _ _) as [reqs cl].
  cbn [rbind]. rewrite Er, Hl. cbn [failing rbind EndSessions]. destruct (TerminateTarget id ErrTargetDeleted (xReg x)) as [n rg]. cbn [or_refuse fst snd].
  rewrite Nat.add_0_r. intros [= <- <- <- <-]. exists t. eexists. split_and!; done.
Qed.

Lemma delete_done le id newIDs now x t : Get id (xDB x) = Ok t → ∃ removals closed ended x', delete_ le id newIDs now x = (RDeleted removals closed ended, x').
Proof.
  intros Eg. unfold delete_. rewrite Eg. cbn [failing rbind]. destruct (Get_row _ _ _ Eg) as (r & Er & Hl & Et). assert (ID t = id) as -> by (by rewrite Et).
  unfold DeleteWith. destruct (RemoveTargetTx _ _ _ _ _ _) as [rem tbl]. destruct (CloseForTargetTx _ _ _ _ _) as [reqs cl].
  cbn [rbind]. rewrite Er, Hl. cbn [failing rbind]. destruct (EndSessions _ _). cbn. eauto.
Qed.

Lemma Get_err id db e : Get id db = Err e → e = ErrNotFound.
Proof. unfold Get. destruct (rows db !! id) as [r|]; [|by intros [= <-]]. destruct (live_row r); [done|by intros [= <-]]. Qed.

(** C36. A target that is there is deleted when that is asked, and leaves nothing
behind that reaches it: no lookup finds it, no credential is bound to it, no
grant of any policy names it, no access request on it is pending or approved,
and every live session on it has been told to end; every other target reads as
before.  When there is no such target nothing changes. *)
Theorem deletion_leaves_nothing le seen id newIDs now x :
  Inv seen (xReg x) →
  let '(reply, x') := delete_ le id newIDs now x in
  match Get id (xDB x) with
  | Ok _ => (∃ removals closed ended, reply = RDeleted removals closed ended) ∧ nothing_left id x' ∧ ∀ other, other ≠ id → Get other (xDB x') = Get other (xDB x)
  | Err _ => reply = RRefused 404 "not_found" ∧ x' = x
  end.
Proof.
  intros HI. destruct (Get id (xDB x)) as [t|e] eqn:Eg.
  - destruct (delete_done le id newIDs now x t Eg) as (removals & closed & ended & x' & E). rewrite E.
    apply delete_inv in E as (t' & db & _ & Ed & _ & _ & _ & ->). apply Delete_rows in Ed as (r & r' & _ & _ & _ & Er & _ & Hd & Hb).
    split; [eauto|]. split; [split; cbn|cbn].
    + unfold Get. by rewrite Er, lookup_insert_eq, Hd.
    + unfold credentials. by rewrite Hb, lookup_delete_eq.
    + apply map_Forall_fmap. intros pid p _. apply remove_one_unnamed.
    + apply closed_none.
    + by apply (TerminateTarget_cuts seen).
    + intros other Hne. unfold Get, credentials. by rewrite Er, Hb, lookup_insert_ne, lookup_delete_ne by done.
  - unfold delete_. rewrite Eg. by rewrite (Get_err _ _ _ Eg).
Qed.

(** What the console shows before a deletion is what the deletion then does:
the policies the preview lists, read five hundred at a time, are exactly the
ones the deletion changes, in that order and with the same losses; the requests
it counts are the ones the deletion closes; and the sessions it counts are the
ones the deletion ends, but for those already ending. *)
Theorem preview_foretells le id newIDs now x :
  Collation le → well_named (xTables x) →
  match (delete_ le id newIDs now x).1 with
  | RDeleted removals closed ended =>
      ∃ u, usage le id x = RUsage u ∧ uPolicies u = removals ∧ uOpenRequests u = closed
        ∧ uLiveSessions u = (ended + length (List.filter (λ l, bool_decide (Registry.TargetID l = id) && Registry.ended l) (Registry.List_ (xReg x))))%nat
  | _ => True
  end.
Proof.
  intros Hle Hn. destruct (delete_ le id newIDs now x) as [reply x'] eqn:E. destruct reply as [| |removals closed ended| | | | | |]; try done.
  apply delete_inv in E as (t & db & Eg & _ & -> & -> & -> & _). destruct (Get_row _ _ _ Eg) as (r & _ & _ & Et).
  assert (ID t = id) as Hid by (by rewrite Et). unfold usage. rewrite Eg, Hid. eexists. split; [done|]. cbn.
  split_and!; [by apply (usage_is_removals le newIDs now)|done|]. unfold Registry.List_, victims. generalize ((map_to_list (live (xReg x))).*2). intros l.
  induction l as [|a l IH]; [done|]. cbn [List.filter].
  assert (contains [id] (Registry.TargetID a) = bool_decide (Registry.TargetID a = id)) as ->.
  { apply eq_bool_prop_intro. rewrite bool_decide_spec. rewrite Is_true_true, contains_spec. set_solver. }
  case_bool_decide; cbn [andb negb]; [|done]. destruct (Registry.ended a); cbn [negb length]; rewrite IH; lia.
Qed.

(** * The dashboard's number and the list it opens *)

Definition waiting_hosts : ListFilter := {| fTags := ∅; fKind := KindHost; fStatus := ""; fOS := ""; fQuery := ""; fAttention := true |}.

(** The number of hosts the dashboard says wait on an administrator is the
number the list it opens shows: while one page holds them, the first page of the
hosts that need attention has exactly that many targets, and no next page. *)
Theorem attention_count_is_list le lower db :
  Collation le → map_Forall (λ _ r, wName (rBody r) ≠ "") (rows db) → (nNeedingAttention (CountAttention db) ≤ 500)%nat →
  let '(page, next) := ListTargets le lower "" 500 waiting_hosts db in
  length page = nNeedingAttention (CountAttention db) ∧ next = "".
Proof.
  intros Hle Hnames Hmax. unfold ListTargets. change ((500 <=? 0) || (500 <? 500)) with false. cbv iota zeta. change (S (Z.to_nat 500)) with 501%nat.
  set (p := λ r, negb (le (wName (rBody r)) "") && listed lower waiting_hosts r).
  assert (length (List.filter (λ ir, p ir.2) (map_to_list (rows db))) = nNeedingAttention (CountAttention db)) as Hlen.
  { unfold CountAttention, active_rows. cbn [nNeedingAttention]. rewrite <-filter_andb.
    assert (Forall (λ ir, wName (rBody ir.2) ≠ "") (map_to_list (rows db))) as Hf.
    { apply Forall_forall. intros [i r] Hr%elem_of_map_to_list. by apply (Hnames i r). }
    induction Hf as [|[i r] l Hr _ IH]; [done|]. cbn [List.filter fmap list_fmap fst snd] in *.
    assert (p r = live_row r && bool_decide (wStatus (rBody r) = StatusActive) && of_kind KindHost r && attention r) as ->; [|destruct (_ && _); cbn; by rewrite IH].
    unfold p, listed. cbn [fKind fStatus fOS fAttention fQuery fTags waiting_hosts negb orb].
    assert (le (wName (rBody r)) "" = false) as ->.
    { destruct (le (wName (rBody r)) "") eqn:E; [|done]. destruct Hr. apply (le_antisym _ Hle); [done|apply (le_first _ Hle)]. }
    change (bool_decide (Strings.ToLower (Strings.TrimSpace "") = "")) with true. rewrite !bool_decide_eq_true_2 by done. cbn [orb andb negb].
    assert (MatchesTags ∅ (rBody r) = true) as -> by (apply bool_decide_eq_true; apply map_Forall_empty). 
    destruct (live_row r), (of_kind KindHost r), (attention r), (bool_decide _); done. }
  unfold scanAll. cbn [bool_decide]. rewrite bool_decide_eq_false_2 by done. fold p.
  rewrite length_fmap, length_take, (Permutation_length (merge_sort_Permutation _ _)), Hlen, Nat.min_r by lia.
  destruct (500 <? _) eqn:E; [lia|]. split; [|done].
  rewrite length_fmap, length_take, (Permutation_length (merge_sort_Permutation _ _)), Hlen. lia.
Qed.

(** * Examples *)

Definition ex_write (name address : string) (creds : gmap string string) : Write := {|
  wName := name; wAddress := address; wEngine := ""; wEngineVersion := ""; wRetentionDays := None; wDatabaseName := ""; wTLSMode := ""; wTLSCA := "";
  wAppUpstream := ""; wAppEndpoints := []; wAppDependencies := ""; wAppPrivate := None; wOSFamily := "linux"; wPorts := ∅;
  wCapabilities := ["ssh"]; wTags := ∅; wStatus := ""; wNotes := ""; wCredentials := creds |}.

Definition ex_target (id address : string) (creds : gmap string string) : Target := {|
  ID := id; body := ex_write "web" address creds; trust := no_trust; CreatedBy := None; CreatedAt := 0; UpdatedAt := 0 |}.

Definition saw (k c : string) : ProbeResult := {| pCapabilities := ["ssh"]; pSSH := Some k; pTLS := Some c; pWinRM := None; pAt := Second |}.

Definition ex_run : list act → state := run (λ _, None) (λ _, false) {[ "c1" ]}.

(** Enrolled, probed, and its key approved. *)
Definition ex_enrolled : list act := [
  ABegin (QCreate "t1" Second (ex_target "" "10.0.0.5" ∅)); ABegin (QProbe Second "t1" (saw "K1" "C1")); AFinish 0;
  ABegin (QTrustKey Second "t1" "K1"); AFinish 0].

Definition ex_got (s : state) : option Target := match Get "t1" (sdb s) with Ok t => Some t | Err _ => None end.

Lemma trusted_was_approved_witness :
  let db := sdb (ex_run ex_enrolled) in
  let ep := fromTarget (connect_view (scanTarget "t1" (credentials "t1" db) (default {| rBody := ex_write "" "" ∅; rTrust := no_trust; rCreatedBy := None;
    rCreatedAt := 0; rUpdatedAt := 0; rDeletedAt := None |} (rows db !! "t1")))) in
  Connect.HostKeyTrusted ep = true ∧ Connect.HostKeyFingerprint ep = "K1" ∧ asked ex_enrolled "t1" "K1" ∧ seen_cert ex_enrolled "t1" LRDP "C1".
Proof.
  assert (∃ t, Get "t1" (sdb (ex_run ex_enrolled)) = Ok t ∧ Connect.HostKeyTrusted (fromTarget (connect_view t)) = true
    ∧ Connect.HostKeyFingerprint (fromTarget (connect_view t)) = "K1" ∧ Connect.TLSFingerprint (fromTarget (connect_view t)) = "C1") as (t & Hg & Ht & Hf & Hc).
  { eexists. by vm_compute. }
  destruct (trusted_was_approved (λ _, None) (λ _, false) {[ "c1" ]} ex_enrolled "t1" t Hg) as (H1 & H2 & _).
  destruct (H1 Ht) as (_ & _ & Ha). rewrite Hf in Ha. rewrite Hc in H2. split; [by vm_compute|]. split; [by vm_compute|]. split; [exact Ha|by apply H2].
Defined.

Lemma trust_moves_by_approval_witness :
  ∃ r r', rows (sdb (ex_run ex_enrolled)) !! "t1" = Some r
  ∧ rows (serve (λ _, None) (λ _, false) (QProbe 2 "t1" (saw "K2" "C2")) (sdb (ex_run ex_enrolled))) !! "t1" = Some r'
  ∧ moves (QProbe 2 "t1" (saw "K2" "C2")) "t1" r r' ∧ HostKeyStatus_ (rTrust r') = HostKeyChanged.
Proof.
  eexists _, _. split; [by vm_compute|]. split; [by vm_compute|]. split; [|done].
  apply (trust_moves_by_approval (λ _, None) (λ _, false) _ (sdb (ex_run ex_enrolled))); by vm_compute.
Defined.

(** The policies and people of the policy tables' example, and a session of
each of two people on two targets. *)
Definition ex_world : World := {|
  xDB := sdb (ex_run ex_enrolled); xTables := ex_tables; xRequests := [];
  xReg := (Registry.run [OAdd 1 {| SessionID := "s1"; UserID := "ann"; Registry.TargetID := "t1"; Registry.Protocol := "ssh"; PolicyID := "p1";
    Registry.AllowClipboard := true; Registry.AllowFileTransfer := false; Registry.AllowDevTools := false; StartedAt := zero_time; tap := None; GuacID := "";
    ctx := 0; Registry.ended := false |}] NewRegistry).2;
  xRefused := ∅ |}.

Lemma ex_world_Inv : ∃ seen, Inv seen (xReg ex_world).
Proof.
  eexists. refine (proj1 (run_inv _ [] NewRegistry Inv_new NoDup_nil_2 _)). by repeat constructor.
Qed.

Lemma edits_and_probes_end_sessions_witness :
  let pr := probe "t1" 2 (λ _ _, Ok (saw "K2" "C2")) ex_world in
  contexts (xReg pr.2) = [Some ErrTrustLost] ∧ (∃ t t' n change, pr.1 = RProbed t' change n ∧ Get "t1" (xDB ex_world) = Ok t
    ∧ (cut_off "t1" (xReg pr.2) ∨ (xReg pr.2 = xReg ex_world ∧ trust_kept (trust t) (trust t')))).
Proof.
  split; [by vm_compute|]. destruct ex_world_Inv as [seen HI].
  destruct (edits_and_probes_end_sessions (λ _, None) (λ _, false) Rules.strict seen "t1" 2 (ex_write "web" "10.0.0.5" ∅) (λ _ _, Ok (saw "K2" "C2")) ex_world HI)
    as [_ Hp].
  destruct (probe "t1" 2 (λ _ _, Ok (saw "K2" "C2")) ex_world) as [reply x'] eqn:E. cbn [fst snd] in *.
  assert (∃ t' change n, reply = RProbed t' change n) as (t' & change & n & ->).
  { apply (f_equal fst) in E. cbn [fst] in E. rewrite <-E. eexists _, _, _. by vm_compute. }
  destruct Hp as (t & Hg & Hor). exists t, t', n, change. split_and!; done.
Defined.

Lemma deletion_leaves_nothing_witness :
  let '(reply, x') := delete_ ex_le "t1" (λ _ _, "") 2 ex_world in
  (∃ removals closed ended, reply = RDeleted removals closed ended) ∧ nothing_left "t1" x' ∧ ∀ other, other ≠ "t1" → Get other (xDB x') = Get other (xDB ex_world).
Proof.
  destruct ex_world_Inv as [seen HI]. pose proof (deletion_leaves_nothing ex_le seen "t1" (λ _ _, "") 2 ex_world HI) as H.
  destruct (delete_ ex_le "t1" (λ _ _, "") 2 ex_world) as [reply x']. destruct (Get "t1" (xDB ex_world)) as [t|e] eqn:E; [exact H|by vm_compute in E].
Defined.

Lemma preview_foretells_witness :
  ∃ u, usage ex_le "t1" ex_world = RUsage u ∧ rmName <$> uPolicies u = ["loose"; "night"] ∧ uLiveSessions u = 1%nat.
Proof.
  pose proof (preview_foretells ex_le "t1" (λ _ _, "") 2 ex_world ex_collation ex_well_named) as H.
  destruct (delete_done ex_le "t1" (λ _ _, "") 2 ex_world (scanTarget "t1" ∅ (default {| rBody := ex_write "" "" ∅; rTrust := no_trust; rCreatedBy := None;
    rCreatedAt := 0; rUpdatedAt := 0; rDeletedAt := None |} (rows (xDB ex_world) !! "t1")))) as (removals & closed & ended & x' & E); [by vm_compute|].
  rewrite E in H. cbn [fst] in H. destruct H as (u & Hu & _). exists u. split; [exact Hu|]. assert (u = Preview ex_le "t1" "" ["t1"] ex_world) as ->.
  { assert (usage ex_le "t1" ex_world = RUsage (Preview ex_le "t1" "" ["t1"] ex_world)) as H2 by (by vm_compute). congruence. }
  split; vm_compute; reflexivity.
Defined.

Lemma attention_count_is_list_witness :
  let db := sdb (ex_run (take 3 ex_enrolled)) in
  length (ListTargets ex_le id "" 500 waiting_hosts db).1 = 1%nat ∧ nNeedingAttention (CountAttention db) = 1%nat.
Proof.
  cbv zeta. pose proof (attention_count_is_list ex_le id (sdb (ex_run (take 3 ex_enrolled))) ex_collation) as H.
  destruct (ListTargets ex_le id "" 500 waiting_hosts (sdb (ex_run (take 3 ex_enrolled)))) as [page next].
  destruct H as [H _]; [| |cbn [fst]; rewrite H; by vm_compute].
  - assert (bool_decide (map_Forall (λ _ r, wName (rBody r) ≠ "") (rows (sdb (ex_run (take 3 ex_enrolled))))) = true) as Hb by (by vm_compute).
    by apply bool_decide_eq_true_1 in Hb.
  - assert (nNeedingAttention (CountAttention (sdb (ex_run (take 3 ex_enrolled)))) = 1%nat) as -> by (by vm_compute). lia.
Defined.

(** * What does not hold *)

(** A probe read the row while the key was trusted; the target is then moved to
another address, which forgets the key; and the probe writes back what it read.
The new address has a trusted key that nobody approved for it. *)
Lemma stale_probe_restores_trust :
  let s := ex_run (ex_enrolled ++ [ABegin (QProbe 2 "t1" (saw "K1" "C1")); ABegin (QUpdate 3 (ex_target "t1" "10.9.9.9" ∅)); AFinish 0]) in
  (λ t, (wAddress (body t), HostKeyStatus_ (trust t), HostKeyFingerprint (trust t), TLSFingerprint (trust t))) <$> ex_got s
  = Some ("10.9.9.9", HostKeyTrusted, Some "K1", Some "C1").
Proof. by vm_compute. Qed.

(** Two first probes that overlap: the pinned certificate is replaced by the
second to write, with nothing left pending. *)
Lemma racing_probes_replace_pin :
  let s := ex_run [ABegin (QCreate "t1" Second (ex_target "" "10.0.0.5" ∅)); ABegin (QProbe 2 "t1" (saw "K1" "C1"));
                   ABegin (QProbe 3 "t1" (saw "K1" "C2")); AFinish 0; AFinish 0] in
  (λ t, (TLSFingerprint (trust t), TLSFingerprintPending (trust t))) <$> ex_got s = Some (Some "C2", None).
Proof. by vm_compute. Qed.

(** A credential for HTTP is accepted with a new target and answered, and not
stored; set on its own it is a failure of the server. *)
Lemma http_credential_dropped :
  match Create (λ _, None) (λ _, false) "t2" 1 (ex_target "" "10.0.0.6" {[ "http" := "c1" ]}) (no_targets {[ "c1" ]}) with
  | Ok (t, db) => wCredentials (body t) !! "http" = Some "c1" ∧ credentials "t2" db = ∅
                  ∧ (setCredential "t2" "http" "c1" 2 None (set_db db ex_world)).1 = RInternal
  | Err _ => False
  end.
Proof. by vm_compute. Qed.

(** A tag filter with an empty value matches a target that has no such tag. *)
Lemma empty_tag_matches_absent : MatchesTags {[ "env" := "" ]} (ex_write "web" "10.0.0.5" ∅) = true.
Proof. by vm_compute. Qed.
