(* ===== verification/Vault.v ===== *)
(** The vault of credentials, src/internal/credential: what is accepted
(credential.go), the rows and their sealed secrets (repo.go) and the handlers
(handlers.go).

The SSH library that reads and writes private keys is an argument, its written
form a function of the key (the library draws check bytes that reading ignores),
and so is the key ring, at each moment one of the rings of a history.  The
counts of the targets and groups that use a credential are part of the state and
change at any time.  Zeroing buffers has no effect on what is modelled, the
names in an allowlist are kept as a list, and the order of names is an argument. *)
From stdpp Require Import sorting.
From S2P Require Import Prelude GoText Textsafe Keyring Totp.
Local Open Scope Z_scope.

(** * Data *)

Definition TypePassword : string := "password".
Definition TypeSSHKey : string := "ssh_key".
Definition TypeSSHCA : string := "ssh_ca".
Definition TypeDomain : string := "domain".
Definition TypeEC2InstanceConnect : string := "ec2_instance_connect".

Definition ValidType (t : string) : bool := contains [TypePassword; TypeSSHKey; TypeSSHCA; TypeDomain; TypeEC2InstanceConnect] t.

Definition ModeVaulted : string := "vaulted".
Definition ModeUserSupplied : string := "user_supplied".
Definition ModePassthrough : string := "passthrough".

Definition ValidMode (m : string) : bool := contains [ModeVaulted; ModeUserSupplied; ModePassthrough] m.

Definition DefaultCertificateTTL : Z := 300.
Definition MinCertificateTTL : Z := 60.
Definition MaxCertificateTTL : Z := 3600.

(** The fields a request sets, and the public key they lead to. *)
Record Meta := {
  mName : string; mType : string; mMode : string; mUsername : string; mDomain : string; mPublicKey : string; mTTL : Z; mPrincipals : list string;
}.

Record Rotation := { PendingPublicKey : string; PendingSince : option time; RetiredPublicKey : string; RetiredAt : option time }.

(** Metadata, as it is answered. *)
Record Credential := {
  cID : string; cMeta : Meta; HasSecret : bool; KeyVersion : Z; cCreatedBy : string; cCreatedAt : time; cUpdatedAt : time; cRotatedAt : option time;
  InUseTargets : nat; InUseGroups : nat; cRotation : option Rotation;
}.

Record Secret := { Password : string; PrivateKey : string; Passphrase : string }.

Inductive VErr :=
| ErrNotFound | ErrDuplicate | ErrInUse | ErrInvalid (why : string) | ErrNoSecret | ErrBadKey | ErrPassphrase | ErrRotationPending | ErrNoRotation
| ErrRing.  (* the key ring failed *)

#[export] Instance VErr_eq_dec : EqDecision VErr.
Proof. solve_decision. Defined.

(** * What is accepted *)

(** golang.org/x/crypto/ssh: reading a private key, and its two texts. *)
Inductive Parsed (K : Type) := ParsedKey (k : K) | NeedsPassphrase | NotAKey.
Arguments ParsedKey {K} k.
Arguments NeedsPassphrase {K}.
Arguments NotAKey {K}.

Record SSHLib := {
  Key : Type;
  ParseRawPrivateKey : bytes → Parsed Key;
  (** [Err true] when the error speaks of a passphrase or of decrypting. *)
  ParseWithPassphrase : bytes → bytes → result bool Key;
  (** The authorized_keys line of the public half. *)
  AuthorizedKey : Key → option string;
  MarshalPrivateKey : Key → option bytes;
}.

Definition CertificateTTL (m : Meta) : duration := (if mTTL m <=? 0 then DefaultCertificateTTL else mTTL m) * Second.

Definition PermitsPrincipal (m : Meta) (loginUser : string) : bool := bool_decide (mPrincipals m = []) || contains (mPrincipals m) loginUser.

Definition validPrincipal (p : string) : bool :=
  bool_decide (String.length p ≤ 64)%nat && forallb (λ a, ((32 <? byte_N a) && (byte_N a <? 127))%N) (to_bytes p).

Fixpoint principals (ps seen : list string) : result VErr (list string) :=
  match ps with
  | [] => Ok []
  | p :: ps =>
      let p := Strings.TrimSpace p in
      if bool_decide (p = "") || contains seen p then principals ps seen
      else if negb (validPrincipal p) then Err (ErrInvalid "principal")
      else let? out := principals ps (p :: seen) in Ok (p :: out)
  end.

Definition with_principals (ps : list string) (m : Meta) : Meta := {|
  mName := mName m; mType := mType m; mMode := mMode m; mUsername := mUsername m; mDomain := mDomain m; mPublicKey := mPublicKey m; mTTL := mTTL m;
  mPrincipals := ps |}.

Definition validateCertificateSettings (m : Meta) : result VErr Meta :=
  if negb (bool_decide (mType m = TypeSSHCA)) then
    let? _ := refuse_if (negb (mTTL m =? 0) || negb (bool_decide (mPrincipals m = []))) (ErrInvalid "certificate settings") in Ok m
  else
    let? _ := refuse_if (negb (mTTL m =? 0) && ((mTTL m <? MinCertificateTTL) || (MaxCertificateTTL <? mTTL m))) (ErrInvalid "certificate_ttl_seconds") in
    let? out := principals (mPrincipals m) [] in
    let? _ := refuse_if (bool_decide (64 < length out)%nat) (ErrInvalid "principals") in
    Ok (with_principals out m).

Definition set_key (username pub : string) (m : Meta) : Meta := {|
  mName := mName m; mType := mType m; mMode := mMode m; mUsername := username; mDomain := mDomain m; mPublicKey := pub; mTTL := mTTL m;
  mPrincipals := mPrincipals m |}.

Section Vault.
Context (lib : SSHLib).

Definition normalisePrivateKey (pemText passphrase : string) : result VErr (bytes * string) :=
  let raw := to_bytes (Strings.TrimSpace pemText) ++ [byte_of 10] in
  let? key := match ParseRawPrivateKey lib raw with
    | ParsedKey k => Ok k
    | NeedsPassphrase =>
        if bool_decide (passphrase = "") then Err ErrPassphrase
        else match ParseWithPassphrase lib raw (to_bytes passphrase) with
             | Ok k => Ok k
             | Err true => Err ErrPassphrase
             | Err false => Err ErrBadKey
             end
    | NotAKey => Err ErrBadKey
    end in
  match AuthorizedKey lib key with
  | None => Err ErrBadKey
  | Some pub => match MarshalPrivateKey lib key with None => Err ErrBadKey | Some pem => Ok (pem, Strings.TrimSpace pub) end
  end.

Definition UnlockPrivateKey (pemText passphrase : string) : result VErr bytes :=
  let? pp := normalisePrivateKey pemText passphrase in Ok pp.1.

(** The metadata as it is stored, and the plaintext to seal. *)
Definition validateAndPrepare (m : Meta) (s : Secret) : result VErr (Meta * bytes) :=
  let m := {| mName := Strings.TrimSpace (mName m); mType := mType m; mMode := mMode m; mUsername := Strings.TrimSpace (mUsername m);
              mDomain := Strings.TrimSpace (mDomain m); mPublicKey := mPublicKey m; mTTL := mTTL m; mPrincipals := mPrincipals m |} in
  let? _ := refuse_if (bool_decide (mName m = "") || bool_decide (255 < String.length (mName m))%nat) (ErrInvalid "name") in
  let? _ := refuse_if (negb (is_ok (Textsafe.Name (mName m)))) (ErrInvalid "name text") in
  let? _ := refuse_if (negb (ValidType (mType m))) (ErrInvalid "type") in
  let? _ := refuse_if (negb (ValidMode (mMode m))) (ErrInvalid "mode") in
  let? _ := refuse_if (bool_decide (mType m = TypeEC2InstanceConnect) && negb (bool_decide (mMode m = ModeVaulted))) (ErrInvalid "ec2 mode") in
  let? m := validateCertificateSettings m in
  if negb (bool_decide (mMode m = ModeVaulted)) then
    let? _ := refuse_if (negb (bool_decide (Password s = "")) || negb (bool_decide (PrivateKey s = ""))) (ErrInvalid "mode carries no secret") in
    Ok (set_key "" "" m, [])
  else if bool_decide (mType m = TypePassword) || bool_decide (mType m = TypeDomain) then
    let? _ := refuse_if (bool_decide (mUsername m = "")) (ErrInvalid "username") in
    let? _ := refuse_if (bool_decide (mType m = TypeDomain) && bool_decide (mDomain m = "")) (ErrInvalid "domain") in
    let? _ := refuse_if (bool_decide (Password s = "")) (ErrInvalid "password") in
    let? _ := refuse_if (negb (bool_decide (PrivateKey s = ""))) (ErrInvalid "private_key not allowed") in
    Ok (set_key (mUsername m) "" m, to_bytes (Password s))
  else if bool_decide (mType m = TypeSSHKey) || bool_decide (mType m = TypeSSHCA) then
    let? _ := refuse_if (bool_decide (mType m = TypeSSHKey) && bool_decide (mUsername m = "")) (ErrInvalid "username") in
    let? _ := refuse_if (negb (bool_decide (Password s = ""))) (ErrInvalid "password not allowed") in
    let? _ := refuse_if (bool_decide (PrivateKey s = "")) (ErrInvalid "private_key") in
    let? pp := normalisePrivateKey (PrivateKey s) (Passphrase s) in
    Ok (set_key (mUsername m) pp.2 m, pp.1)
  else
    let? _ := refuse_if (bool_decide (mUsername m = "")) (ErrInvalid "username") in
    let? _ := refuse_if (negb (bool_decide (Password s = "")) || negb (bool_decide (PrivateKey s = ""))) (ErrInvalid "no secret") in
    Ok (set_key (mUsername m) "" m, []).

(** * Rows *)

Record Row := {
  rMeta : Meta;  (* but for the public key *)
  rPublic : option string; rSealed : option (bytes * Z); rCreatedBy : string; rCreatedAt : time; rUpdatedAt : time; rRotatedAt : option time;
  pSealed : option (bytes * Z); pPublic : option string; pAt : option time; rRetired : option string; rRetiredAt : option time;
}.

(** [uses] are the rows of target_credentials and asg_credentials. *)
Record DB := { creds : gmap string Row; uses : gmap string (nat * nat) }.

Definition set_creds (cs : gmap string Row) (s : DB) : DB := {| creds := cs; uses := uses s |}.

Definition nullStr (s : string) : option string := if bool_decide (s = "") then None else Some s.

Definition in_use (id : string) (s : DB) : nat * nat := default (0%nat, 0%nat) (uses s !! id).

Definition scan (id : string) (r : Row) (n : nat * nat) : Credential := {|
  cID := id; cMeta := set_key (mUsername (rMeta r)) (default "" (rPublic r)) (rMeta r);
  HasSecret := match rSealed r with Some _ => true | None => false end;
  KeyVersion := match rSealed r with Some (_, v) => v | None => 0 end;
  cCreatedBy := rCreatedBy r; cCreatedAt := rCreatedAt r; cUpdatedAt := rUpdatedAt r; cRotatedAt := rRotatedAt r;
  InUseTargets := n.1; InUseGroups := n.2;
  cRotation := match pPublic r, rRetired r with
    | None, None => None
    | p, t => Some {| PendingPublicKey := default "" p; PendingSince := pAt r; RetiredPublicKey := default "" t; RetiredAt := rRetiredAt r |}
    end |}.

Definition Get (id : string) (s : DB) : result VErr Credential :=
  match creds s !! id with Some r => Ok (scan id r (in_use id s)) | None => Err ErrNotFound end.

Definition name_used (name except : string) (s : DB) : bool :=
  existsb (λ ir, bool_decide (mName (rMeta ir.2) = name) && negb (bool_decide (ir.1 = except))) (map_to_list (creds s)).

Definition table : string := "credentials".
Definition pendingTable : string := "credentials.pending".

(** Sealing nothing stores nothing, when a credential is created. *)
Definition seal (k : KeyRing) (raw : option bytes) (aad : string) (plain : bytes) : result VErr (option (bytes * Z)) :=
  if bool_decide (plain = []) then Ok None
  else match Encrypt k raw aad plain with Ok sv => Ok (Some sv) | Err _ => Err ErrRing end.

(** [Encrypt] as the callers that always store it use it. *)
Definition seal_any (k : KeyRing) (raw : option bytes) (aad : string) (plain : bytes) : result VErr (bytes * Z) :=
  match Encrypt k raw aad plain with Ok sv => Ok sv | Err _ => Err ErrRing end.

Definition Create (k : KeyRing) (raw : option bytes) (newID : string) (now : time) (m : Meta) (sec : Secret) (createdBy : string) (s : DB)
    : result VErr (Credential * DB) :=
  let? mp := validateAndPrepare m sec in
  let? sealed := seal k raw (Ring.AAD table newID) mp.2 in
  let row at_ := {| rMeta := mp.1; rPublic := nullStr (mPublicKey mp.1); rSealed := sealed; rCreatedBy := createdBy; rCreatedAt := at_; rUpdatedAt := at_;
                    rRotatedAt := None; pSealed := None; pPublic := None; pAt := None; rRetired := None; rRetiredAt := None |} in
  let? _ := refuse_if (bool_decide (is_Some (creds s !! newID)) || name_used (mName mp.1) newID s) ErrDuplicate in
  Ok (scan newID (row now) (0%nat, 0%nat), set_creds (<[newID := row (TimeArg now)]> (creds s)) s).

Definition row_name_le (le : string → string → bool) (a b : string * Row) : Prop := le (mName (rMeta a.2)) (mName (rMeta b.2)) = true.

#[export] Instance row_name_le_dec le : RelDecision (row_name_le le).
Proof. intros a b. unfold row_name_le. apply _. Defined.

Definition ListCredentials (le : string → string → bool) (afterName : string) (limit : Z) (s : DB) : list Credential * string :=
  let limit := if (limit <=? 0) || (500 <? limit) then 50 else limit in
  let l := merge_sort (row_name_le le) (List.filter (λ ir, negb (le (mName (rMeta ir.2)) afterName)) (map_to_list (creds s))) in
  let out := (λ ir, scan ir.1 ir.2 (in_use ir.1 s)) <$> take (S (Z.to_nat limit)) l in
  if limit <? Z.of_nat (length out) then
    let out := take (Z.to_nat limit) out in (out, default "" ((λ c, mName (cMeta c)) <$> last out))
  else (out, "").

Definition Update (now : time) (id name username domain : string) (ttl : Z) (ps : list string) (s : DB) : result VErr (Credential * DB) :=
  match creds s !! id with
  | None => Err ErrNotFound
  | Some r =>
      let m := {| mName := name; mType := mType (rMeta r); mMode := mMode (rMeta r); mUsername := username; mDomain := domain;
                  mPublicKey := default "" (rPublic r); mTTL := ttl; mPrincipals := ps |} in
      let? m := validateCertificateSettings m in
      let? _ := refuse_if (bool_decide (mMode m = ModeVaulted) && negb (bool_decide (mType m = TypeSSHCA)) && bool_decide (Strings.TrimSpace username = ""))
                  (ErrInvalid "username") in
      let? _ := refuse_if (bool_decide (mType m = TypeDomain) && bool_decide (Strings.TrimSpace domain = "")) (ErrInvalid "domain") in
      let? _ := refuse_if (bool_decide (Strings.TrimSpace name = "") || bool_decide (255 < String.length name)%nat) (ErrInvalid "name") in
      let username := if bool_decide (mMode m = ModeVaulted) then username else "" in
      let? _ := refuse_if (name_used (Strings.TrimSpace name) id s) ErrDuplicate in
      let r' := {| rMeta := {| mName := Strings.TrimSpace name; mType := mType (rMeta r); mMode := mMode (rMeta r); mUsername := Strings.TrimSpace username;
                               mDomain := Strings.TrimSpace domain; mPublicKey := mPublicKey (rMeta r); mTTL := mTTL m; mPrincipals := mPrincipals m |};
                   rPublic := rPublic r; rSealed := rSealed r; rCreatedBy := rCreatedBy r; rCreatedAt := rCreatedAt r; rUpdatedAt := TimeArg now;
                   rRotatedAt := rRotatedAt r; pSealed := pSealed r; pPublic := pPublic r; pAt := pAt r; rRetired := rRetired r; rRetiredAt := rRetiredAt r |} in
      Ok (scan id r' (in_use id s), set_creds (<[id := r']> (creds s)) s)
  end.

Definition rotatable (m : Meta) : result VErr unit :=
  let? _ := refuse_if (negb (bool_decide (mMode m = ModeVaulted)) || bool_decide (mType m = TypeEC2InstanceConnect)) (ErrInvalid "nothing to rotate") in
  refuse_if (bool_decide (mType m = TypeSSHCA)) (ErrInvalid "two steps").

Definition CheckRotate (c : Credential) (sec : Secret) : result VErr unit :=
  let? _ := rotatable (cMeta c) in
  let? _ := validateAndPrepare (cMeta c) sec in Ok tt.

Definition Rotate (k : KeyRing) (raw : option bytes) (now : time) (id : string) (sec : Secret) (s : DB) : result VErr (Credential * DB) :=
  match creds s !! id with
  | None => Err ErrNotFound
  | Some r =>
      let m := cMeta (scan id r (0%nat, 0%nat)) in
      let? _ := rotatable m in
      let? mp := validateAndPrepare m sec in
      let? sealed := seal_any k raw (Ring.AAD table id) mp.2 in
      let r' := {| rMeta := rMeta r; rPublic := nullStr (mPublicKey mp.1); rSealed := Some sealed; rCreatedBy := rCreatedBy r; rCreatedAt := rCreatedAt r;
                   rUpdatedAt := TimeArg now; rRotatedAt := Some (TimeArg now); pSealed := pSealed r; pPublic := pPublic r; pAt := pAt r;
                   rRetired := rRetired r; rRetiredAt := rRetiredAt r |} in
      Ok (scan id r' (in_use id s), set_creds (<[id := r']> (creds s)) s)
  end.

Definition Delete (id : string) (s : DB) : result VErr DB :=
  let? c := Get id s in
  let? _ := refuse_if (bool_decide (0 < InUseTargets c)%nat || bool_decide (0 < InUseGroups c)%nat) ErrInUse in
  Ok (set_creds (delete id (creds s)) s).

(** ** Opening *)

Record Opened := { oCredential : Credential; oPassword : string; oPrivateKey : bytes }.

Definition unseal (k : KeyRing) (id : string) (pending : bool) (s : DB) : result VErr bytes :=
  match creds s !! id with
  | None => Err ErrNotFound
  | Some r =>
      match (if pending then pSealed r else rSealed r) with
      | None => Err ErrNoSecret
      | Some (ct, v) =>
          if bool_decide (ct = []) then Err ErrNoSecret
          else match Decrypt k (Ring.AAD (if pending then pendingTable else table) id) ct v with Ok p => Ok p | Err _ => Err ErrRing end
      end
  end.

Definition Open (k : KeyRing) (id : string) (s : DB) : result VErr Opened :=
  let? c := Get id s in
  let? _ := refuse_if (negb (HasSecret c)) ErrNoSecret in
  let? plain := unseal k id false s in
  if bool_decide (mType (cMeta c) = TypeSSHKey) || bool_decide (mType (cMeta c) = TypeSSHCA)
  then Ok {| oCredential := c; oPassword := ""; oPrivateKey := plain |}
  else Ok {| oCredential := c; oPassword := of_bytes plain; oPrivateKey := [] |}.

(** A next key is prepared. *)
Definition prepared (c : Credential) : bool := match cRotation c with Some r => negb (bool_decide (PendingPublicKey r = "")) | None => false end.
Definition retired (c : Credential) : bool := match cRotation c with Some r => negb (bool_decide (RetiredPublicKey r = "")) | None => false end.

Definition with_public (pub : string) (c : Credential) : Credential := {|
  cID := cID c; cMeta := set_key (mUsername (cMeta c)) pub (cMeta c); HasSecret := HasSecret c; KeyVersion := KeyVersion c; cCreatedBy := cCreatedBy c;
  cCreatedAt := cCreatedAt c; cUpdatedAt := cUpdatedAt c; cRotatedAt := cRotatedAt c; InUseTargets := InUseTargets c; InUseGroups := InUseGroups c;
  cRotation := cRotation c |}.

Definition OpenPending (k : KeyRing) (id : string) (s : DB) : result VErr Opened :=
  let? c := Get id s in
  let? _ := refuse_if (negb (prepared c)) ErrNoRotation in
  let? plain := unseal k id true s in
  Ok {| oCredential := with_public (default "" (PendingPublicKey <$> cRotation c)) c; oPassword := ""; oPrivateKey := plain |}.

(** ** Rotating an authority *)

Definition set_pending (now : time) (sealed : option (bytes * Z)) (pub : option string) (at_ : option time) (r : Row) : Row := {|
  rMeta := rMeta r; rPublic := rPublic r; rSealed := rSealed r; rCreatedBy := rCreatedBy r; rCreatedAt := rCreatedAt r; rUpdatedAt := TimeArg now;
  rRotatedAt := rRotatedAt r; pSealed := sealed; pPublic := pub; pAt := at_; rRetired := rRetired r; rRetiredAt := rRetiredAt r |}.

Definition PrepareRotation (k : KeyRing) (raw : option bytes) (now : time) (id : string) (sec : Secret) (s : DB) : result VErr (Credential * DB) :=
  match creds s !! id with
  | None => Err ErrNotFound
  | Some r =>
      let c := scan id r (in_use id s) in
      let? _ := refuse_if (negb (bool_decide (mType (rMeta r) = TypeSSHCA)) || negb (bool_decide (mMode (rMeta r) = ModeVaulted))) (ErrInvalid "not an authority") in
      let? _ := refuse_if (prepared c) ErrRotationPending in
      let? _ := refuse_if (bool_decide (PrivateKey sec = "")) (ErrInvalid "private_key") in
      let? pp := normalisePrivateKey (PrivateKey sec) (Passphrase sec) in
      let? _ := refuse_if (bool_decide (pp.2 = mPublicKey (cMeta c))) (ErrInvalid "the same key") in
      let? sealed := seal_any k raw (Ring.AAD pendingTable id) pp.1 in
      let r' := set_pending now (Some sealed) (Some pp.2) (Some (TimeArg now)) r in
      Ok (scan id r' (in_use id s), set_creds (<[id := r']> (creds s)) s)
  end.

(** The UPDATE of [CutOver]: the public keys are the row's own, then. *)
Definition cut_row (now : time) (sealed : bytes * Z) (r : Row) : Row := {|
  rMeta := rMeta r; rPublic := pPublic r; rSealed := Some sealed; rCreatedBy := rCreatedBy r; rCreatedAt := rCreatedAt r; rUpdatedAt := TimeArg now;
  rRotatedAt := Some (TimeArg now); pSealed := None; pPublic := None; pAt := None; rRetired := rPublic r; rRetiredAt := Some (TimeArg now) |}.

(** What it reads first: the prepared key, sealed for its new column. *)
Definition cut_read (k : KeyRing) (raw : option bytes) (id : string) (s : DB) : result VErr (bytes * Z) :=
  let? c := Get id s in
  let? _ := refuse_if (negb (prepared c)) ErrNoRotation in
  let? plain := unseal k id true s in
  seal_any k raw (Ring.AAD table id) plain.

Definition cut_write (now : time) (id : string) (sealed : bytes * Z) (s : DB) : result VErr (Credential * DB) :=
  match creds s !! id with
  | None => Err ErrNotFound
  | Some r => let r' := cut_row now sealed r in Ok (scan id r' (in_use id s), set_creds (<[id := r']> (creds s)) s)
  end.

Definition CutOver (k : KeyRing) (raw : option bytes) (now : time) (id : string) (s : DB) : result VErr (Credential * DB) :=
  let? sealed := cut_read k raw id s in cut_write now id sealed s.

Definition CancelRotation (now : time) (id : string) (s : DB) : result VErr (Credential * DB) :=
  match creds s !! id with
  | None => Err ErrNotFound
  | Some r =>
      let? _ := refuse_if (negb (prepared (scan id r (in_use id s)))) ErrNoRotation in
      let r' := set_pending now None None None r in
      Ok (scan id r' (in_use id s), set_creds (<[id := r']> (creds s)) s)
  end.

Definition Retire (now : time) (id : string) (s : DB) : result VErr (Credential * DB) :=
  match creds s !! id with
  | None => Err ErrNotFound
  | Some r =>
      let? _ := refuse_if (negb (retired (scan id r (in_use id s)))) ErrNoRotation in
      let r' := {| rMeta := rMeta r; rPublic := rPublic r; rSealed := rSealed r; rCreatedBy := rCreatedBy r; rCreatedAt := rCreatedAt r;
                   rUpdatedAt := TimeArg now; rRotatedAt := rRotatedAt r; pSealed := pSealed r; pPublic := pPublic r; pAt := pAt r; rRetired := None;
                   rRetiredAt := None |} in
      Ok (scan id r' (in_use id s), set_creds (<[id := r']> (creds s)) s)
  end.

(** ** The shared credential of the slots that prompt *)

Definition supplied_name : string := "User supplied (prompt at connect)".

Definition created_le (a b : string * Row) : Prop := rCreatedAt a.2 ≤ rCreatedAt b.2.

#[export] Instance created_le_dec : RelDecision created_le.
Proof. intros a b. unfold created_le. apply _. Defined.

Definition find_supplied (s : DB) : option string :=
  fst <$> head (merge_sort created_le (List.filter (λ ir, bool_decide (mMode (rMeta ir.2) = ModeUserSupplied)) (map_to_list (creds s)))).

Definition EnsureUserSupplied (k : KeyRing) (raw : option bytes) (newID : string) (now : time) (createdBy : string) (s : DB) : result VErr (string * DB) :=
  match find_supplied s with
  | Some id => Ok (id, s)
  | None =>
      let m := {| mName := supplied_name; mType := TypePassword; mMode := ModeUserSupplied; mUsername := ""; mDomain := ""; mPublicKey := ""; mTTL := 0;
                  mPrincipals := [] |} in
      match Create k raw newID now m {| Password := ""; PrivateKey := ""; Passphrase := "" |} createdBy s with
      | Ok (c, s') => Ok (cID c, s')
      | Err ErrDuplicate => match find_supplied s with Some id => Ok (id, s) | None => Err (ErrInvalid "name taken") end
      | Err e => Err e
      end
  end.

(** * The handlers *)

Record writeRequest := {
  qName : string; qType : string; qMode : string; qUsername : option string; qDomain : string; qPassword : string; qPrivateKey : string;
  qPassphrase : string; qTTL : option Z; qPrincipals : option (list string);
}.

Definition secret_of (q : writeRequest) : Secret := {| Password := qPassword q; PrivateKey := qPrivateKey q; Passphrase := qPassphrase q |}.

Inductive Answer :=
| ACreated (c : Credential)
| AOK (c : Credential)
| ADone
| ARefused (status : Z) (code : string)
| AInternal.

Definition fail (e : VErr) : Answer :=
  match e with
  | ErrNotFound => ARefused 404 "not_found"
  | ErrDuplicate => ARefused 409 "conflict"
  | ErrInUse => ARefused 409 "in_use"
  | ErrRotationPending => ARefused 409 "rotation_pending"
  | ErrNoRotation => ARefused 409 "no_rotation"
  | ErrInvalid _ | ErrBadKey | ErrPassphrase | ErrNoSecret => ARefused 400 "bad_request"
  | ErrRing => AInternal
  end.

(** A key left out for an SSH credential is generated; [gen] is the generator's
answer. *)
Definition or_generated (mode type : string) (gen : option string) (sec : Secret) : result Answer Secret :=
  if bool_decide (mode = ModeVaulted) && (bool_decide (type = TypeSSHKey) || bool_decide (type = TypeSSHCA))
     && bool_decide (PrivateKey sec = "") && bool_decide (Password sec = "") then
    match gen with
    | Some pem => Ok {| Password := Password sec; PrivateKey := pem; Passphrase := Passphrase sec |}
    | None => Err AInternal
    end
  else Ok sec.

Definition answered (f : Credential → Answer) (s : DB) (r : result VErr (Credential * DB)) : Answer * DB :=
  match r with Ok (c, s') => (f c, s') | Err e => (fail e, s) end.

Definition create (k : KeyRing) (raw : option bytes) (newID who : string) (now : time) (gen : option string) (q : writeRequest) (s : DB) : Answer * DB :=
  let m := {| mName := qName q; mType := qType q; mMode := qMode q; mUsername := default "" (qUsername q); mDomain := qDomain q; mPublicKey := "";
              mTTL := default 0 (qTTL q); mPrincipals := default [] (qPrincipals q) |} in
  match or_generated (qMode q) (qType q) gen (secret_of q) with
  | Err a => (a, s)
  | Ok sec => answered ACreated s (Create k raw newID now m sec who s)
  end.

Definition generateSSHKey (k : KeyRing) (raw : option bytes) (newID who : string) (now : time) (gen : option string) (name username : string) (s : DB)
    : Answer * DB :=
  match gen with
  | None => (AInternal, s)
  | Some pem =>
      let m := {| mName := name; mType := TypeSSHKey; mMode := ModeVaulted; mUsername := username; mDomain := ""; mPublicKey := ""; mTTL := 0;
                  mPrincipals := [] |} in
      answered ACreated s (Create k raw newID now m {| Password := ""; PrivateKey := pem; Passphrase := "" |} who s)
  end.

Definition update (k : KeyRing) (raw : option bytes) (now : time) (id : string) (q : writeRequest) (s : DB) : Answer * DB :=
  match Get id s with
  | Err e => (fail e, s)
  | Ok c =>
      let m := cMeta c in
      if (negb (bool_decide (qType q = "")) && negb (bool_decide (qType q = mType m)))
         || (negb (bool_decide (qMode q = "")) && negb (bool_decide (qMode q = mMode m))) then (ARefused 400 "bad_request", s)
      else
        let name := if bool_decide (qName q = "") then mName m else qName q in
        let username := default (mUsername m) (qUsername q) in
        let domain := if bool_decide (qDomain q = "") then mDomain m else qDomain q in
        let rotate := negb (bool_decide (qPassword q = "")) || negb (bool_decide (qPrivateKey q = "")) in
        match (if rotate then CheckRotate c (secret_of q) else Ok tt) with
        | Err e => (fail e, s)
        | Ok _ =>
            match Update now id name username domain (default (mTTL m) (qTTL q)) (default (mPrincipals m) (qPrincipals q)) s with
            | Err e => (fail e, s)
            | Ok (c, s') => if rotate then answered AOK s' (Rotate k raw now id (secret_of q) s') else (AOK c, s')
            end
        end
  end.

Definition rotate (k : KeyRing) (raw : option bytes) (now : time) (id : string) (gen : option string) (q : writeRequest) (s : DB) : Answer * DB :=
  match Get id s with
  | Err e => (fail e, s)
  | Ok c =>
      match or_generated (mMode (cMeta c)) (mType (cMeta c)) gen (secret_of q) with
      | Err a => (a, s)
      | Ok sec =>
          if bool_decide (mType (cMeta c) = TypeSSHCA) then answered AOK s (PrepareRotation k raw now id sec s)
          else answered AOK s (Rotate k raw now id sec s)
      end
  end.

Definition cutOver (k : KeyRing) (raw : option bytes) (now : time) (id : string) (s : DB) : Answer * DB := answered AOK s (CutOver k raw now id s).
Definition cancelRotation (now : time) (id : string) (s : DB) : Answer * DB := answered AOK s (CancelRotation now id s).
Definition retire (now : time) (id : string) (s : DB) : Answer * DB := answered AOK s (Retire now id s).

Definition delete_ (id : string) (s : DB) : Answer * DB := match Delete id s with Ok s' => (ADone, s') | Err e => (fail e, s) end.
End Vault.
