(* ===== verification/VaultOpens.v ===== *)
(** What the vault of Vault.v keeps: a secret that was accepted opens, at every
later moment of the key ring's life, to what was given; private and public keys
stay a pair; and an authority's key changes by its cut-over alone.  The ring is
reached through what the vault relies on of it ([RingHistory]), which the ring
of Keyring.v has over any history of it ([ring_history_lawful]). *)
From S2P Require Import Prelude GoText Textsafe Keyring Totp Vault.
Local Open Scope Z_scope.

(** * What is sealed opens, and matches the public key shown *)

(** What the vault relies on of the ring over the life of the gateway: what was
sealed at a moment is read then and later, and is not empty. *)
Class RingHistory (ring : nat → KeyRing) : Prop := {
  readable n m raw aad pt ct v : (n ≤ m)%nat → Encrypt (ring n) raw aad pt = Ok (ct, v) → Decrypt (ring m) aad ct v = Ok pt;
  sealed_some n raw aad pt ct v : Encrypt (ring n) raw aad pt = Ok (ct, v) → ct ≠ [];
}.

(** And of the SSH library: a key's file and its public line are not empty. *)
Class SSHLaws (lib : SSHLib) : Prop := {
  pem_some key pem : MarshalPrivateKey lib key = Some pem → pem ≠ [];
  line_some key line : AuthorizedKey lib key = Some line → Strings.TrimSpace line ≠ "";
}.

Inductive request :=
| RCreate (raw : option bytes) (newID who : string) (now : time) (gen : option string) (q : writeRequest)
| RGenerate (raw : option bytes) (newID who : string) (now : time) (gen : option string) (name username : string)
| RUpdate (raw : option bytes) (now : time) (id : string) (q : writeRequest)
| RRotate (raw : option bytes) (now : time) (id : string) (gen : option string) (q : writeRequest)
| RCutOver (raw : option bytes) (now : time) (id : string)
| RCancel (now : time) (id : string)
| RRetire (now : time) (id : string)
| RDelete (id : string)
| REnsure (raw : option bytes) (newID : string) (now : time) (who : string)
| RUses (id : string) (targets groups : nat).

Section Histories.
Context (lib : SSHLib) (ring : nat → KeyRing).

Definition serve (k : KeyRing) (o : request) (s : DB) : DB :=
  match o with
  | RCreate raw newID who now gen q => (create lib k raw newID who now gen q s).2
  | RGenerate raw newID who now gen name username => (generateSSHKey lib k raw newID who now gen name username s).2
  | RUpdate raw now id q => (update lib k raw now id q s).2
  | RRotate raw now id gen q => (rotate lib k raw now id gen q s).2
  | RCutOver raw now id => (cutOver k raw now id s).2
  | RCancel now id => (cancelRotation now id s).2
  | RRetire now id => (retire now id s).2
  | RDelete id => (delete_ id s).2
  | REnsure raw newID now who => match EnsureUserSupplied lib k raw newID now who s with Ok (_, s') => s' | Err _ => s end
  | RUses id t g => {| creds := creds s; uses := <[id := (t, g)]> (uses s) |}
  end.

(** The requests one after another, the n-th with the ring of its moment. *)
Definition run (l : list request) : DB := foldl (λ s no, serve (ring no.1) no.2 s) {| creds := ∅; uses := ∅ |} (imap pair l).

(** ** The invariant *)

Definition is_ssh (t : string) : bool := bool_decide (t = TypeSSHKey) || bool_decide (t = TypeSSHCA).

Definition holds_secret (m : Meta) : bool := bool_decide (mMode m = ModeVaulted) && negb (bool_decide (mType m = TypeEC2InstanceConnect)).

(** The private key [pem] and the public key [pub] are of one key. *)
Definition pair_of (pem : bytes) (pub : string) : Prop :=
  ∃ key line, MarshalPrivateKey lib key = Some pem ∧ AuthorizedKey lib key = Some line ∧ pub = Strings.TrimSpace line.

Definition sealed_as (n : nat) (aad : string) (sv : bytes * Z) (pt : bytes) : Prop := ∃ j raw, (j < n)%nat ∧ Encrypt (ring j) raw aad pt = Ok sv.

(** The plaintext a credential of these types has. *)
Definition fits (type : string) (pub : string) (pt : bytes) : Prop := if is_ssh type then pair_of pt pub else pt ≠ [] ∧ pub = "".

Record row_ok (n : nat) (id : string) (r : Row) : Prop := {
  ro_secret : if holds_secret (rMeta r)
              then ∃ sv pt, rSealed r = Some sv ∧ sealed_as n (Ring.AAD table id) sv pt ∧ fits (mType (rMeta r)) (default "" (rPublic r)) pt
              else rSealed r = None;
  ro_pending : match pSealed r, pPublic r with
               | None, None => True
               | Some sv, Some pub => (mType (rMeta r) = TypeSSHCA ∧ mMode (rMeta r) = ModeVaulted) ∧ pub ≠ default "" (rPublic r)
                                      ∧ ∃ pt, sealed_as n (Ring.AAD pendingTable id) sv pt ∧ pair_of pt pub
               | _, _ => False
               end;
}.

Definition vault_ok (n : nat) (s : DB) : Prop := map_Forall (row_ok n) (creds s).

Lemma sealed_as_mono n m aad sv pt : (n ≤ m)%nat → sealed_as n aad sv pt → sealed_as m aad sv pt.
Proof. intros Hn (j & raw & Hj & E). exists j, raw. split; [lia|done]. Qed.

Lemma row_ok_mono n m id r : (n ≤ m)%nat → row_ok n id r → row_ok m id r.
Proof.
  intros Hn [H1 H2]. split.
  - destruct (holds_secret _); [|done]. destruct H1 as (sv & pt & E & Hs & Hf). exists sv, pt. split_and!; [done|by eapply sealed_as_mono|done].
  - destruct (pSealed r), (pPublic r); [|done..]. destruct H2 as (Ht & Hne & pt & Hs & Hp). split; [done|]. split; [done|].
    exists pt. split; [by eapply sealed_as_mono|done].
Qed.

Lemma vault_ok_mono n m s : (n ≤ m)%nat → vault_ok n s → vault_ok m s.
Proof. intros Hn Hs. eapply map_Forall_impl; [exact Hs|]. intros. by eapply row_ok_mono. Qed.

(** ** What the checks leave *)

Lemma normalise_pair pem pass pt pub : normalisePrivateKey lib pem pass = Ok (pt, pub) → pair_of pt pub.
Proof.
  unfold normalisePrivateKey. cbv zeta. intros (key & _ & H)%rbind_Ok. destruct (AuthorizedKey lib key) as [line|] eqn:Ea; [|done].
  destruct (MarshalPrivateKey lib key) as [p|] eqn:Em; [|done]. apply Ok_inj in H. simplify_eq. by exists key, line.
Qed.

Lemma settings_kept m m' : validateCertificateSettings m = Ok m' → mType m' = mType m ∧ mMode m' = mMode m.
Proof.
  unfold validateCertificateSettings. destruct (negb _).
  - intros ([] & _ & E)%rbind_Ok. by apply Ok_inj in E as <-.
  - intros ([] & _ & H)%rbind_Ok. apply rbind_Ok in H as (out & _ & H). apply rbind_Ok in H as ([] & _ & E). by apply Ok_inj in E as <-.
Qed.

Lemma prepared_exact `{!SSHLaws lib} m sec m' pt :
  validateAndPrepare lib m sec = Ok (m', pt) →
  mType m' = mType m ∧ mMode m' = mMode m ∧ if holds_secret m' then pt ≠ [] ∧
    (if is_ssh (mType m') then normalisePrivateKey lib (PrivateKey sec) (Passphrase sec) = Ok (pt, mPublicKey m')
     else pt = to_bytes (Password sec) ∧ mPublicKey m' = "")
  else pt = [].
Proof.
  unfold validateAndPrepare. cbv zeta. intros H. do 5 (apply rbind_Ok in H as ([] & ? & H)). cbn [mType mMode mName mUsername mDomain] in *.
  apply rbind_Ok in H as (m1 & Hs & H). apply settings_kept in Hs as [Ht Hm]. cbn [mType mMode] in Ht, Hm. rewrite <-Ht, <-Hm.
  assert (∀ u p, holds_secret (set_key u p m1) = holds_secret m1) as Hh by done.
  destruct (bool_decide (mMode m1 = ModeVaulted)) eqn:Ev; cbn [negb] in H; cycle 1.
  { apply rbind_Ok in H as ([] & _ & E). apply Ok_inj in E. simplify_eq. split_and!; [done..|]. rewrite Hh. unfold holds_secret. by rewrite Ev. }
  destruct (bool_decide (mType m1 = TypePassword) || bool_decide (mType m1 = TypeDomain)) eqn:Ep.
  { apply rbind_Ok in H as ([] & _ & H). apply rbind_Ok in H as ([] & _ & H). apply rbind_Ok in H as ([] & Hp & H). apply rbind_Ok in H as ([] & _ & E).
    apply Ok_inj in E. simplify_eq. split_and!; [done..|]. rewrite Hh. apply refuse_if_ok, bool_decide_eq_false in Hp.
    assert (to_bytes (Password sec) ≠ []) as Hne by (intros E; apply Hp; by destruct (Password sec)).
    apply orb_true_iff in Ep as [Et%bool_decide_eq_true|Et%bool_decide_eq_true]; unfold holds_secret; rewrite Ev; cbn [mType set_key mPublicKey]; rewrite Et; done. }
  destruct (bool_decide (mType m1 = TypeSSHKey) || bool_decide (mType m1 = TypeSSHCA)) eqn:Es.
  - apply rbind_Ok in H as ([] & _ & H). apply rbind_Ok in H as ([] & _ & H). apply rbind_Ok in H as ([] & _ & H). apply rbind_Ok in H as ([p pub] & Hn & E).
    apply Ok_inj in E. simplify_eq. split_and!; [done..|]. rewrite Hh. cbn [fst snd] in *.
    assert (p ≠ []) as Hne by (apply normalise_pair in Hn as (key & line & Hk & _); by eapply pem_some).
    apply orb_true_iff in Es as [Et%bool_decide_eq_true|Et%bool_decide_eq_true]; unfold holds_secret; rewrite Ev; cbn [mType set_key mPublicKey]; rewrite Et; done.
  - apply rbind_Ok in H as ([] & _ & H). apply rbind_Ok in H as ([] & _ & E). apply Ok_inj in E. simplify_eq. split_and!; [done..|]. rewrite Hh.
    unfold holds_secret. rewrite Ev. apply orb_false_iff in Ep as [Ep1 Ep2], Es as [Es1 Es2].
    match goal with H : refuse_if (negb (ValidType _)) _ = Ok tt |- _ => apply refuse_if_ok, negb_false_iff in H; rename H into Hv end.
    unfold ValidType in Hv. apply contains_spec in Hv. rewrite <-Ht in Hv. apply bool_decide_eq_false in Ep1, Ep2, Es1, Es2.
    rewrite bool_decide_eq_true_2; [done|]. clear -Hv Ep1 Ep2 Es1 Es2.
    repeat (apply elem_of_cons in Hv as [Hv|Hv]; [done|]). by apply elem_of_nil in Hv.
Qed.

Lemma prepared_fits `{!SSHLaws lib} m sec m' pt :
  validateAndPrepare lib m sec = Ok (m', pt) →
  mType m' = mType m ∧ mMode m' = mMode m ∧ if holds_secret m' then pt ≠ [] ∧ fits (mType m') (mPublicKey m') pt else pt = [].
Proof.
  intros (Ht & Hm & H)%prepared_exact. split_and!; [done..|]. destruct (holds_secret m'); [|done]. destruct H as [Hne H]. split; [done|].
  unfold fits. destruct (is_ssh _); [by eapply normalise_pair|]. by destruct H as [-> ->].
Qed.

(** ** One request *)

(** What became of a credential's signing key. *)
Inductive moved (n : nat) (o : request) (id : string) (r r' : Row) : Prop :=
| MKept : rSealed r' = rSealed r → rPublic r' = rPublic r → moved n o id r r'
| MRotated : (match o with RRotate _ _ i _ _ | RUpdate _ _ i _ => i = id | _ => False end) → mType (rMeta r) ≠ TypeSSHCA → moved n o id r r'
| MCut raw now pt sv sv' pub :
    o = RCutOver raw now id → pSealed r = Some sv → pPublic r = Some pub → pub ≠ "" → sealed_as n (Ring.AAD pendingTable id) sv pt →
    rSealed r' = Some sv' → sealed_as (S n) (Ring.AAD table id) sv' pt → rPublic r' = Some pub → rRetired r' = rPublic r → moved n o id r r'.

Definition steps (n : nat) (o : request) (s s' : DB) : Prop :=
  vault_ok (S n) s' ∧ ∀ id r r', creds s !! id = Some r → creds s' !! id = Some r' → mType (rMeta r') = mType (rMeta r) ∧ mMode (rMeta r') = mMode (rMeta r) ∧ moved n o id r r'.

Lemma steps_same n o s s' : vault_ok n s → creds s' = creds s → steps n o s s'.
Proof.
  intros Hs E. split; [unfold vault_ok; rewrite E; apply (vault_ok_mono n); [lia|done]|]. rewrite E. intros id r r' H1 H2. simplify_eq.
  split_and!; [done..|by apply MKept].
Qed.

Lemma steps_new n o s s' id r' : vault_ok n s → creds s !! id = None → creds s' = <[id := r']> (creds s) → row_ok (S n) id r' → steps n o s s'.
Proof.
  intros Hs Hn E Hr. split.
  - unfold vault_ok. rewrite E. apply map_Forall_insert_2; [done|]. apply (vault_ok_mono n); [lia|done].
  - rewrite E. intros i r r0 H1 H2. rewrite lookup_insert_ne in H2 by congruence. simplify_eq. split_and!; [done..|by apply MKept].
Qed.

Lemma steps_one n o s s' id r r' :
  vault_ok n s → creds s !! id = Some r → creds s' = <[id := r']> (creds s) → row_ok (S n) id r' →
  mType (rMeta r') = mType (rMeta r) → mMode (rMeta r') = mMode (rMeta r) → moved n o id r r' → steps n o s s'.
Proof.
  intros Hs Er E Hr Ht Hm Hmv. split.
  - unfold vault_ok. rewrite E. apply map_Forall_insert_2; [done|]. apply (vault_ok_mono n); [lia|done].
  - rewrite E. intros i r1 r2 H1 H2. destruct (decide (i = id)) as [->|Hne].
    + rewrite lookup_insert_eq in H2. simplify_eq. done.
    + rewrite lookup_insert_ne in H2 by done. simplify_eq. split_and!; [done..|by apply MKept].
Qed.

Lemma nullStr_default pub : default "" (nullStr pub) = pub.
Proof. unfold nullStr. case_bool_decide; by subst. Qed.

Lemma sealed_now n raw aad pt sv : Encrypt (ring n) raw aad pt = Ok sv → sealed_as (S n) aad sv pt.
Proof. intros E. exists n, raw. split; [lia|done]. Qed.

Context `{!SSHLaws lib}.

Lemma Create_steps n o raw newID now m sec by_ s c s' : vault_ok n s → Create lib (ring n) raw newID now m sec by_ s = Ok (c, s') → steps n o s s'.
Proof.
  intros Hs. unfold Create. intros ([m' pt] & Hp & H)%rbind_Ok. apply rbind_Ok in H as (sealed & Hseal & H). cbn [fst snd] in *. cbv zeta in H.
  apply rbind_Ok in H as ([] & Hd & E). apply Ok_inj in E. simplify_eq. apply refuse_if_ok, orb_false_iff in Hd as [Hd _]. apply bool_decide_eq_false in Hd.
  apply prepared_fits in Hp as (_ & _ & Hf). eapply (steps_new _ _ _ _ newID); [done|by apply eq_None_not_Some|done|]. split; cbn; [|done].
  rewrite nullStr_default. unfold seal in Hseal. destruct (holds_secret m').
  - destruct Hf as [Hne Hf]. rewrite bool_decide_eq_false_2 in Hseal by done. destruct (Encrypt _ _ _ _) as [sv|] eqn:Ee; [|done].
    apply Ok_inj in Hseal as <-. exists sv, pt. split_and!; [done|by eapply sealed_now|done].
  - subst pt. by apply Ok_inj in Hseal as <-.
Qed.

(** Any change of a row that leaves its keys alone, or drops the prepared one. *)
Lemma row_ok_same n id r r' :
  row_ok n id r → rSealed r' = rSealed r → rPublic r' = rPublic r → mType (rMeta r') = mType (rMeta r) → mMode (rMeta r') = mMode (rMeta r) →
  (pSealed r' = pSealed r ∧ pPublic r' = pPublic r) ∨ (pSealed r' = None ∧ pPublic r' = None) → row_ok n id r'.
Proof.
  intros [H1 H2] E1 E2 E3 E4 E5. assert (holds_secret (rMeta r') = holds_secret (rMeta r)) as E6 by (unfold holds_secret; by rewrite E3, E4).
  split; [rewrite E6; destruct (holds_secret (rMeta r)); by rewrite E1, ?E2, ?E3|]. destruct E5 as [[-> ->]|[-> ->]]; [by rewrite E2, E3, E4|done].
Qed.

Lemma Update_steps n o now id name username domain ttl ps s c s' :
  vault_ok n s → Update now id name username domain ttl ps s = Ok (c, s') → steps n o s s' ∧ ∃ r r', creds s !! id = Some r ∧ creds s' = <[id := r']> (creds s)
    ∧ mType (rMeta r') = mType (rMeta r) ∧ mMode (rMeta r') = mMode (rMeta r) ∧ rSealed r' = rSealed r ∧ rPublic r' = rPublic r ∧ row_ok n id r'.
Proof.
  intros Hs. unfold Update. destruct (creds s !! id) as [r|] eqn:Er; [|done]. cbv zeta. intros (m & Hm & H)%rbind_Ok.
  apply rbind_Ok in H as ([] & _ & H). apply rbind_Ok in H as ([] & _ & H). apply rbind_Ok in H as ([] & _ & H). apply rbind_Ok in H as ([] & _ & E).
  apply Ok_inj in E. simplify_eq.
  match goal with |- context [<[id := ?x]>] => assert (row_ok n id x) as Hok by (eapply row_ok_same; [exact (Hs _ _ Er)|done..|by left]) end.
  split; [eapply (steps_one _ _ _ _ id r); [done..| |done|done|by apply MKept]|by eexists r, _].
  eapply row_ok_mono; [|exact Hok]. lia.
Qed.

Lemma Rotate_row n raw now id sec s c s' r :
  creds s !! id = Some r → row_ok n id r → Rotate lib (ring n) raw now id sec s = Ok (c, s') →
  ∃ r', creds s' = <[id := r']> (creds s) ∧ row_ok (S n) id r' ∧ rMeta r' = rMeta r ∧ mType (rMeta r) ≠ TypeSSHCA.
Proof.
  intros Er [_ Hpend]. unfold Rotate. rewrite Er. cbv zeta. intros ([] & Hrot & H)%rbind_Ok. apply rbind_Ok in H as ([m' pt] & Hp & H).
  apply rbind_Ok in H as (sv & Hseal & E). apply Ok_inj in E. simplify_eq. cbn [fst snd] in *. apply prepared_fits in Hp as (Ht & Hm & Hf). cbn in Ht, Hm.
  unfold rotatable in Hrot. cbn in Hrot. apply rbind_Ok in Hrot as ([] & H1 & H2).
  assert (mType (rMeta r) ≠ TypeSSHCA) as Hca.
  { destruct (bool_decide (mType (rMeta r) = TypeSSHCA)) eqn:E; [done|]. by apply bool_decide_eq_false in E. }
  apply refuse_if_ok, orb_false_iff in H1 as [Hv He].
  assert (holds_secret m' = true ∧ holds_secret (rMeta r) = true) as [Hh Hh'].
  { unfold holds_secret. rewrite Ht, Hm. apply negb_false_iff in Hv. rewrite He. cbn. by rewrite Hv. }
  rewrite Hh in Hf. destruct Hf as [Hne Hf]. unfold seal_any in Hseal. destruct (Encrypt _ _ _ _) as [sv0|] eqn:Ee; [|done]. apply Ok_inj in Hseal as <-.
  eexists. split; [done|]. split_and!; [|done..]. split; cbn.
  - rewrite Hh'. exists sv0, pt. split_and!; [done|by eapply sealed_now|]. rewrite nullStr_default. by rewrite <-Ht.
  - destruct (pSealed r), (pPublic r); try done. by destruct Hpend as [[? _] _].
Qed.

Lemma Rotate_steps n o raw now id sec s c s' :
  vault_ok n s → (match o with RRotate _ _ i _ _ | RUpdate _ _ i _ => i = id | _ => False end) → Rotate lib (ring n) raw now id sec s = Ok (c, s') → steps n o s s'.
Proof.
  intros Hs Ho Hr. destruct (creds s !! id) as [r|] eqn:Er; [|unfold Rotate in Hr; by rewrite Er in Hr].
  destruct (Rotate_row n raw now id sec s c s' r Er (Hs _ _ Er) Hr) as (r' & E & Hok & Hm & Hca).
  eapply (steps_one _ _ _ _ id r); [done..|by rewrite Hm|by rewrite Hm|by apply MRotated].
Qed.

Lemma Prepare_steps n o raw now id sec s c s' : vault_ok n s → PrepareRotation lib (ring n) raw now id sec s = Ok (c, s') → steps n o s s'.
Proof.
  intros Hs. unfold PrepareRotation. destruct (creds s !! id) as [r|] eqn:Er; [|done]. cbv zeta. intros ([] & Ht & H)%rbind_Ok.
  apply rbind_Ok in H as ([] & _ & H). apply rbind_Ok in H as ([] & _ & H). apply rbind_Ok in H as ([pt pub] & Hn & H). cbn [fst snd] in *.
  apply rbind_Ok in H as ([] & Hne & H). apply rbind_Ok in H as (sv & Hseal & E). apply Ok_inj in E. simplify_eq. apply normalise_pair in Hn.
  unfold seal_any in Hseal. destruct (Encrypt _ _ _ _) as [sv0|] eqn:Ee; [|done]. apply Ok_inj in Hseal as <-.
  apply refuse_if_ok, orb_false_iff in Ht as [Ht Hmo]. apply negb_false_iff, bool_decide_eq_true in Ht, Hmo. apply refuse_if_ok, bool_decide_eq_false in Hne. cbn in Hne.
  destruct (row_ok_mono n (S n) id r ltac:(lia) (Hs _ _ Er)) as [H1 _].
  eapply (steps_one _ _ _ _ id r); [done|done|done| |done|done|by apply MKept]. split; cbn; [done|].
  split; [done|]. split; [done|]. exists pt. split; [by eapply sealed_now|done].
Qed.

Lemma unseal_pending `{!RingHistory ring} n id s r sv pt :
  creds s !! id = Some r → pSealed r = Some sv → sealed_as n (Ring.AAD pendingTable id) sv pt → ∀ m, (n ≤ S m)%nat → unseal (ring m) id true s = Ok pt.
Proof.
  intros Er Ep (j & raw & Hj & E) m Hm. unfold unseal. rewrite Er, Ep. destruct sv as [ct v]. rewrite bool_decide_eq_false_2 by (by eapply sealed_some).
  rewrite (readable j m raw _ pt); [done|lia|done].
Qed.

Lemma unseal_current `{!RingHistory ring} n id s r sv pt :
  creds s !! id = Some r → rSealed r = Some sv → sealed_as n (Ring.AAD table id) sv pt → ∀ m, (n ≤ S m)%nat → unseal (ring m) id false s = Ok pt.
Proof.
  intros Er Ep (j & raw & Hj & E) m Hm. unfold unseal. rewrite Er, Ep. destruct sv as [ct v]. rewrite bool_decide_eq_false_2 by (by eapply sealed_some).
  rewrite (readable j m raw _ pt); [done|lia|done].
Qed.

Lemma CutOver_steps `{!RingHistory ring} n raw now id s c s' :
  vault_ok n s → CutOver (ring n) raw now id s = Ok (c, s') → steps n (RCutOver raw now id) s s'.
Proof.
  intros Hs. unfold CutOver, cut_read. intros (sv' & H & Hw)%rbind_Ok. apply rbind_Ok in H as (c0 & Hg & H). apply rbind_Ok in H as ([] & Hp & H).
  apply rbind_Ok in H as (plain & Hu & Hseal). unfold cut_write in Hw. unfold Get in Hg. destruct (creds s !! id) as [r|] eqn:Er; [|done].
  apply Ok_inj in Hg as <-. apply Ok_inj in Hw. simplify_eq. apply refuse_if_ok, negb_false_iff in Hp.
  destruct (Hs _ _ Er) as [H1 H2]. unfold prepared, scan in Hp. cbn [cRotation] in Hp.
  destruct (pPublic r) as [pub|] eqn:Epub; [|destruct (rRetired r); [|done]; cbn in Hp; by rewrite bool_decide_eq_true_2 in Hp].
  assert (pub ≠ "") as Hpub.
  { intros ->. destruct (rRetired r); cbn in Hp; by rewrite bool_decide_eq_true_2 in Hp. }
  destruct (pSealed r) as [sv|] eqn:Eps; [|done]. destruct H2 as (Ht & Hne & pt & Hsa & Hpair).
  rewrite (unseal_pending n id s r sv pt Er Eps Hsa n ltac:(lia)) in Hu. apply Ok_inj in Hu as <-.
  unfold seal_any in Hseal. destruct (Encrypt _ _ _ _) as [sv0|] eqn:Ee; [|done]. apply Ok_inj in Hseal as <-.
  pose proof (sealed_now _ _ _ _ _ Ee) as Hnow.
  eapply (steps_one _ _ _ _ id r); [done|done|done| |done|done|by eapply MCut]. split; cbn; [|done]. rewrite Epub. cbn.
  destruct Ht as [Ht Hmo]. unfold holds_secret. rewrite Ht, Hmo. cbn. exists sv0, pt. by split_and!.
Qed.

Lemma Cancel_steps n o now id s c s' : vault_ok n s → CancelRotation now id s = Ok (c, s') → steps n o s s'.
Proof.
  intros Hs. unfold CancelRotation. destruct (creds s !! id) as [r|] eqn:Er; [|done]. cbv zeta. intros ([] & _ & E)%rbind_Ok. apply Ok_inj in E. simplify_eq.
  eapply (steps_one _ _ _ _ id r); [done|done|done| |done|done|by apply MKept].
  eapply row_ok_mono; [|eapply row_ok_same; [exact (Hs _ _ Er)|done..|by right]]. lia.
Qed.

Lemma Retire_steps n o now id s c s' : vault_ok n s → Retire now id s = Ok (c, s') → steps n o s s'.
Proof.
  intros Hs. unfold Retire. destruct (creds s !! id) as [r|] eqn:Er; [|done]. cbv zeta. intros ([] & _ & E)%rbind_Ok. apply Ok_inj in E. simplify_eq.
  eapply (steps_one _ _ _ _ id r); [done|done|done| |done|done|by apply MKept].
  eapply row_ok_mono; [|eapply row_ok_same; [exact (Hs _ _ Er)|done..|by left]]. lia.
Qed.

Lemma Delete_steps n o id s s' : vault_ok n s → Delete id s = Ok s' → steps n o s s'.
Proof.
  intros Hs. unfold Delete. intros (c & _ & H)%rbind_Ok. apply rbind_Ok in H as ([] & _ & E). apply Ok_inj in E as <-. split.
  - apply map_Forall_delete. apply (vault_ok_mono n); [lia|done].
  - cbn. intros i r r' H1 H2. apply lookup_delete_Some in H2 as [_ H2]. simplify_eq. split_and!; [done..|by apply MKept].
Qed.

Lemma answered_steps n o f s r : vault_ok n s → (∀ c s', r = Ok (c, s') → steps n o s s') → steps n o s (answered f s r).2.
Proof. intros Hs H. destruct r as [[c s']|e]; cbn; [by eapply H|by apply steps_same]. Qed.

Lemma update_steps n raw now id q s : vault_ok n s → steps n (RUpdate raw now id q) s (update lib (ring n) raw now id q s).2.
Proof.
  intros Hs. unfold update. destruct (Get id s) as [c|e] eqn:Eg; [|by apply steps_same]. cbv zeta. destruct (_ || _); [by apply steps_same|].
  destruct (if negb _ || negb _ then _ else _) as [[]|e] eqn:Ec; [|by apply steps_same]. destruct (Update _ _ _ _ _ _ _ _) as [[c1 s1]|e] eqn:Eu; [|by apply steps_same].
  destruct (Update_steps _ (RUpdate raw now id q) _ _ _ _ _ _ _ _ _ _ Hs Eu) as [Hst (r & r1 & Er & E1 & Ht & Hm & Hse & Hpu & Hok)].
  destruct (negb _ || negb _); [|done]. destruct (Rotate _ _ _ _ _ _ _) as [[c2 s2]|e] eqn:Ero; [|done]. cbn [answered snd].
  destruct (Rotate_row n raw now id (secret_of q) s1 c2 s2 r1) as (r2 & E2 & Hok2 & Hm2 & Hca); [by rewrite E1, lookup_insert_eq|done|done|].
  eapply (steps_one _ _ _ _ id r); [done|done|by rewrite E2, E1, insert_insert_eq|done|congruence|congruence|]. apply MRotated; [done|congruence].
Qed.

Lemma rotate_steps n raw now id gen q s : vault_ok n s → steps n (RRotate raw now id gen q) s (rotate lib (ring n) raw now id gen q s).2.
Proof.
  intros Hs. unfold rotate. destruct (Get id s) as [c|e]; [|by apply steps_same]. destruct (or_generated _ _ _ _) as [sec|a]; [|by apply steps_same].
  destruct (bool_decide _); apply answered_steps; try done; intros c' s' H; [by eapply Prepare_steps|by eapply Rotate_steps].
Qed.

Lemma Ensure_steps n o raw newID now who s : vault_ok n s →
  steps n o s (match EnsureUserSupplied lib (ring n) raw newID now who s with Ok (_, s') => s' | Err _ => s end).
Proof.
  intros Hs. unfold EnsureUserSupplied. destruct (find_supplied s); [by apply steps_same|]. cbv zeta.
  destruct (Create _ _ _ _ _ _ _ _ _) as [[c s']|[]] eqn:E; try by apply steps_same. by eapply Create_steps.
Qed.

Lemma serve_steps `{!RingHistory ring} n o s : vault_ok n s → steps n o s (serve (ring n) o s).
Proof.
  intros Hs. destruct o; cbn [serve].
  - unfold create. cbv zeta. destruct (or_generated _ _ _ _); [|by apply steps_same]. apply answered_steps; [done|]. intros c s' H. by eapply Create_steps.
  - unfold generateSSHKey. destruct gen; [|by apply steps_same]. apply answered_steps; [done|]. intros c s' H. by eapply Create_steps.
  - by apply update_steps.
  - by apply rotate_steps.
  - apply answered_steps; [done|]. intros c s' H. by eapply CutOver_steps.
  - apply answered_steps; [done|]. intros c s' H. by eapply Cancel_steps.
  - apply answered_steps; [done|]. intros c s' H. by eapply Retire_steps.
  - unfold delete_. destruct (Delete id s) eqn:E; [by eapply Delete_steps|by apply steps_same].
  - by apply Ensure_steps.
  - by apply steps_same.
Qed.

Lemma vault_run_snoc l o : run (l ++ [o]) = serve (ring (length l)) o (run l).
Proof. unfold run. rewrite imap_app, foldl_app. cbn. by rewrite Nat.add_0_r. Qed.

Lemma run_ok `{!RingHistory ring} l : vault_ok (length l) (run l).
Proof.
  induction l as [|o l IH] using rev_ind; [apply map_Forall_empty|]. rewrite vault_run_snoc, length_app, Nat.add_1_r. apply (serve_steps _ o _ IH).
Qed.
End Histories.

(** * The claims *)

Section Claims.
Context (lib : SSHLib) (ring : nat → KeyRing) `{!SSHLaws lib, !RingHistory ring}.

Lemma vault_Get_row id s r : creds s !! id = Some r → Get id s = Ok (scan id r (in_use id s)).
Proof. intros E. unfold Get. by rewrite E. Qed.

Lemma sealed_unique n n' aad sv pt pt' : sealed_as ring n aad sv pt → sealed_as ring n' aad sv pt' → pt = pt'.
Proof.
  intros (j & raw & _ & E) (j' & raw' & _ & E'). destruct sv as [ct v].
  pose proof (readable j (j `max` j') raw aad pt ct v ltac:(lia) E) as H. rewrite (readable j' (j `max` j') raw' aad pt' ct v ltac:(lia) E') in H. congruence.
Qed.

(** The answer of [Open], of a row whose secret is sealed. *)
Lemma Open_sealed n id s r sv pt m :
  creds s !! id = Some r → rSealed r = Some sv → sealed_as ring n (Ring.AAD table id) sv pt → (n ≤ S m)%nat →
  Open (ring m) id s = Ok (if is_ssh (mType (rMeta r)) then {| oCredential := scan id r (in_use id s); oPassword := ""; oPrivateKey := pt |}
                           else {| oCredential := scan id r (in_use id s); oPassword := of_bytes pt; oPrivateKey := [] |}).
Proof.
  intros Er Es Hs Hm. unfold Open. rewrite (vault_Get_row _ _ _ Er). cbn [rbind]. unfold HasSecret at 1, scan at 1. rewrite Es. cbn [negb refuse_if rbind].
  rewrite (unseal_current ring n id s r sv pt Er Es Hs m Hm). cbn [rbind]. unfold is_ssh. by destruct (_ || _).
Qed.

Lemma prepared_scan id r n : prepared (scan id r n) = negb (bool_decide (default "" (pPublic r) = "")).
Proof. unfold prepared, scan. cbn. by destruct (pPublic r), (rRetired r). Qed.

Lemma pending_scan id r n : default "" (PendingPublicKey <$> cRotation (scan id r n)) = default "" (pPublic r).
Proof. unfold scan. cbn. by destruct (pPublic r), (rRetired r). Qed.

(** The answer of [OpenPending], of a row in order. *)
Lemma OpenPending_row n id s r m :
  creds s !! id = Some r → row_ok lib ring n id r → (n ≤ S m)%nat →
  match pPublic r with
  | None => OpenPending (ring m) id s = Err ErrNoRotation
  | Some pub => ∃ sv pt, pSealed r = Some sv ∧ sealed_as ring n (Ring.AAD pendingTable id) sv pt ∧ pair_of lib pt pub ∧ pub ≠ ""
      ∧ OpenPending (ring m) id s = Ok {| oCredential := with_public pub (scan id r (in_use id s)); oPassword := ""; oPrivateKey := pt |}
  end.
Proof.
  intros Er [_ Hp] Hm. unfold OpenPending. rewrite (vault_Get_row _ _ _ Er). cbn [rbind]. rewrite prepared_scan, pending_scan.
  destruct (pPublic r) as [pub|]; [|done]. destruct (pSealed r) as [sv|] eqn:Es; [|done]. destruct Hp as (_ & _ & pt & Hs & Hpair).
  assert (pub ≠ "") as Hne by (destruct Hpair as (key & line & _ & Ha & ->); by eapply line_some). exists sv, pt. split_and!; [done..|].
  cbn [default from_option]. unfold Datatypes.id. rewrite bool_decide_eq_false_2 by done. cbn [negb refuse_if rbind].
  by rewrite (unseal_pending ring n id s r sv pt Er Es Hs m Hm).
Qed.

(** C37. Whatever requests the vault has served one after the other, each with the
key ring of its moment, every credential that should hold a secret opens, then and
at every later moment: a stored password is not empty, and a stored private key is the
one of the public key that is shown.  A credential of another kind answers that
it has no secret.  A prepared authority key opens too, is the one of the
pending public key, and is not the key in use; without one, there is no
rotation to speak of.  Requests that overlap are another matter: the last example
of this file has two cut-overs at once after which an authority signs with a key
that is not the one of the public key shown. *)
Theorem vault_opens l id r m :
  creds (run lib ring l) !! id = Some r → (length l ≤ S m)%nat →
  (if holds_secret (rMeta r)
   then ∃ o, Open (ring m) id (run lib ring l) = Ok o
     ∧ if is_ssh (mType (rMeta r)) then pair_of lib (oPrivateKey o) (mPublicKey (cMeta (oCredential o))) else oPassword o ≠ ""
   else Open (ring m) id (run lib ring l) = Err ErrNoSecret)
  ∧ (OpenPending (ring m) id (run lib ring l) = Err ErrNoRotation
     ∨ ∃ o, OpenPending (ring m) id (run lib ring l) = Ok o ∧ mType (rMeta r) = TypeSSHCA
         ∧ pair_of lib (oPrivateKey o) (mPublicKey (cMeta (oCredential o))) ∧ mPublicKey (cMeta (oCredential o)) ≠ default "" (rPublic r)).
Proof.
  intros Er Hm. pose proof (run_ok lib ring l _ _ Er) as Hok. split.
  - destruct Hok as [Hs _]. destruct (holds_secret (rMeta r)).
    + destruct Hs as (sv & pt & Es & Hs & Hf). eexists. split; [by eapply Open_sealed|]. unfold fits in Hf.
      destruct (is_ssh _); [done|]. destruct Hf as [Hne _]. by destruct pt.
    + unfold Open. rewrite (vault_Get_row _ _ _ Er). cbn [rbind]. unfold HasSecret, scan. by rewrite Hs.
  - pose proof (OpenPending_row _ _ _ _ m Er Hok Hm) as Ho. destruct (pPublic r) as [pub|] eqn:Ep; [right|by left].
    destruct Ho as (sv & pt & Es & _ & Hpair & _ & E). eexists. split; [exact E|]. destruct Hok as [_ Hp]. rewrite Es, Ep in Hp.
    destruct Hp as ((Ht & _) & Hne & _). done.
Qed.

(** The key pair a credential opens to. *)
Definition shown (o : Opened) : string * bytes * string := (oPassword o, oPrivateKey o, mPublicKey (cMeta (oCredential o))).

(** C38. What one more request does to a credential that holds a secret and is
still there after it.  Either the secret it opens to and its public key are as
they were; or the request is a rotation or an edit of this very credential, and
it is not a certificate authority; or the request is the cut-over of this
credential, which then opens to the key that was prepared, shows that key's
public half, and keeps its former public key as the retired one.  So the signing
key of an authority changes by a cut-over alone. *)
Theorem authority_changes_by_cut_over l o id r r' m before :
  creds (run lib ring l) !! id = Some r → creds (run lib ring (l ++ [o])) !! id = Some r' → (length l ≤ m)%nat →
  Open (ring m) id (run lib ring l) = Ok before →
  ∃ after, Open (ring m) id (run lib ring (l ++ [o])) = Ok after ∧
    (shown after = shown before
     ∨ ((match o with RRotate _ _ i _ _ | RUpdate _ _ i _ => i = id | _ => False end) ∧ mType (rMeta r) ≠ TypeSSHCA)
     ∨ ∃ raw now next, o = RCutOver raw now id ∧ OpenPending (ring (length l)) id (run lib ring l) = Ok next ∧ shown after = shown next
         ∧ RetiredPublicKey <$> cRotation (oCredential after) = Some (mPublicKey (cMeta (oCredential before)))).
Proof.
  intros Er Er' Hm Hb. pose proof (run_ok lib ring l) as Hok. pose proof (Hok _ _ Er) as Hrow. rewrite vault_run_snoc in *.
  destruct (serve_steps lib ring _ o _ Hok) as [Hok' Hst]. destruct (Hst _ _ _ Er Er') as (Ht & Hmo & Hmv). pose proof (Hok' _ _ Er') as Hrow'.
  assert (holds_secret (rMeta r) = true) as Hh.
  { destruct (holds_secret (rMeta r)) eqn:Eh; [done|]. destruct Hrow as [Hs _]. rewrite Eh in Hs. unfold Open in Hb. rewrite (vault_Get_row _ _ _ Er) in Hb.
    cbn [rbind] in Hb. unfold HasSecret, scan in Hb. by rewrite Hs in Hb. }
  assert (holds_secret (rMeta r') = true) as Hh' by (unfold holds_secret in *; by rewrite Ht, Hmo).
  destruct Hrow as [Hs Hp], Hrow' as [Hs' _]. rewrite Hh in Hs. rewrite Hh' in Hs'. destruct Hs as (sv & pt & Es & Hs & Hfit), Hs' as (sv' & pt' & Es' & Hs' & _).
  rewrite (Open_sealed _ _ _ _ _ _ m Er Es Hs ltac:(lia)) in Hb. apply Ok_inj in Hb as <-.
  eexists. split; [by eapply (Open_sealed _ _ _ _ _ _ m Er' Es' Hs'); lia|]. rewrite Ht.
  destruct Hmv as [E1 E2|Ho Hca|raw now pt0 sv0 sv1 pub -> E1 E2 Hpub Hs0 E3 Hs1 E4 E5].
  - left. assert (sv' = sv) as -> by congruence.
    rewrite (sealed_unique _ _ _ _ _ _ Hs' Hs).
    unfold shown. destruct (is_ssh _); cbn; by rewrite E2.
  - right. by left.
  - right. right. pose proof (OpenPending_row (length l) id _ r (length l) Er (Hok _ _ Er) ltac:(lia)) as Ho. rewrite E2 in Ho.
    destruct Ho as (sv2 & pt2 & Esv2 & Hs2 & _ & _ & Ho). eexists raw, now, _. split; [done|]. split; [exact Ho|].
    rewrite E1, E2 in Hp. destruct Hp as ((Hca & _) & _). unfold fits in Hfit. rewrite Hca in *. change (is_ssh TypeSSHCA) with true in *. cbn in Hfit. unfold shown, scan, with_public, set_key.
    cbn [oPassword oPrivateKey oCredential cMeta mPublicKey cRotation].
    destruct Hfit as (key & line & _ & Ha & Hl). apply line_some in Ha. rewrite <-Hl in Ha. destruct (rPublic r) as [old|] eqn:Eold; [|done]. rewrite E4, E5.
    assert (sv1 = sv') as -> by congruence. assert (sv2 = sv0) as -> by congruence.
    rewrite (sealed_unique _ _ _ _ _ _ Hs' Hs1), (sealed_unique _ _ _ _ _ _ Hs2 Hs0).
    split; [done|]. by destruct (pPublic r').
Qed.

(** The row [id] keeps the secret [sec], sealed by the moment [n], and reads as [c]. *)
Definition stored (n : nat) (id : string) (sec : Secret) (c : Credential) (s : DB) : Prop :=
  ∃ r sv pt, creds s !! id = Some r ∧ rSealed r = Some sv ∧ sealed_as ring (S n) (Ring.AAD table id) sv pt ∧ cMeta (scan id r (0%nat, 0%nat)) = cMeta c
    ∧ if is_ssh (mType (rMeta r)) then normalisePrivateKey lib (PrivateKey sec) (Passphrase sec) = Ok (pt, default "" (rPublic r))
      else pt = to_bytes (Password sec).

Lemma Create_stored n raw id now m sec by_ s c s' :
  Create lib (ring n) raw id now m sec by_ s = Ok (c, s') → holds_secret (cMeta c) = true → stored n id sec c s'.
Proof.
  unfold Create. intros Hc Hh. apply rbind_Ok in Hc as ([m' pt] & Hp & Hc). apply rbind_Ok in Hc as (sealed & Hseal & Hc). cbn [fst snd] in *. cbv zeta in Hc.
  apply rbind_Ok in Hc as ([] & _ & E). apply Ok_inj in E. simplify_eq. apply prepared_exact in Hp as (_ & _ & Hf); [|done].
  change (holds_secret m' = true) in Hh. rewrite Hh in Hf. destruct Hf as [Hne Hf]. unfold seal in Hseal. rewrite bool_decide_eq_false_2 in Hseal by done.
  destruct (Encrypt _ _ _ _) as [sv|] eqn:Ee; [|done]. apply Ok_inj in Hseal as <-. eexists _, sv, pt. split; [apply lookup_insert_eq|].
  cbn. split_and!; [done|by eapply sealed_now|done|]. rewrite nullStr_default. destruct (is_ssh _); [done|apply Hf].
Qed.

Lemma Rotate_stored n raw id now sec s c s' :
  Rotate lib (ring n) raw now id sec s = Ok (c, s') → holds_secret (cMeta c) = true → stored n id sec c s'.
Proof.
  unfold Rotate. intros Hc Hh. destruct (creds s !! id) as [r|] eqn:Er; [|done]. cbv zeta in Hc. apply rbind_Ok in Hc as ([] & _ & Hc).
  apply rbind_Ok in Hc as ([m' pt] & Hp & Hc). apply rbind_Ok in Hc as (sv & Hseal & E). apply Ok_inj in E. simplify_eq. cbn [fst snd] in *.
  apply prepared_exact in Hp as (Ht & Hm & Hf); [|done]. cbn in Ht, Hm, Hh. assert (holds_secret m' = true) as Hh' by (unfold holds_secret in *; cbn in Hh; by rewrite Ht, Hm).
  rewrite Hh' in Hf. destruct Hf as [Hne Hf]. unfold seal_any in Hseal. destruct (Encrypt _ _ _ _) as [sv0|] eqn:Ee; [|done]. apply Ok_inj in Hseal as <-.
  eexists _, sv0, pt. split; [apply lookup_insert_eq|]. cbn. split_and!; [done|by eapply sealed_now|done|]. rewrite nullStr_default, <-Ht.
  destruct (is_ssh _); [done|apply Hf].
Qed.

(** C39. A secret comes back out as it went in.  What creating or rotating a
credential has accepted opens, then and at every later moment, to the password
that was given, byte for byte, or to the private key that the given file holds,
with the public half of that key shown. *)
Theorem secret_comes_back n k raw id now m sec by_ s c s' :
  Create lib (ring n) raw id now m sec by_ s = Ok (c, s') ∨ Rotate lib (ring n) raw now id sec s = Ok (c, s') →
  holds_secret (cMeta c) = true → (n ≤ k)%nat →
  ∃ o, Open (ring k) id s' = Ok o ∧ cMeta (oCredential o) = cMeta c
    ∧ if is_ssh (mType (cMeta c)) then normalisePrivateKey lib (PrivateKey sec) (Passphrase sec) = Ok (oPrivateKey o, mPublicKey (cMeta c))
      else oPassword o = Password sec.
Proof.
  intros Hc Hh Hk. assert (stored n id sec c s') as (r & sv & pt & Er & Es & Hs & Em & Hpt).
  { destruct Hc; [by eapply Create_stored|by eapply Rotate_stored]. }
  eexists. split; [by eapply (Open_sealed _ _ _ _ _ _ k Er Es Hs); lia|]. rewrite <-Em. cbn. destruct (is_ssh _); [done|]. cbn. rewrite Hpt. split; [done|apply of_to_bytes].
Qed.
End Claims.

(** * The ring of Keyring.v, over any history of it *)

Section Rings.
Context (start : Ring.Ring * Ring.key_versions) (l : list Ring.action) (now : nat → time).

(** At the n-th moment the ring has done the first [n] of its actions. *)
Definition ring_at (n : nat) : Ring.Ring * Ring.key_versions := default start (Ring.acts (take n l) start).
Definition ring_history (n : nat) : KeyRing := of_ring (ring_at n).1 (ring_at n).2 (now n).

Context (Hl : Forall Ring.lawful l) (Hs : ∃ S, Ring.Inv S start.1 start.2).

Lemma acts_app l1 l2 st : Ring.acts (l1 ++ l2) st = st' ← Ring.acts l1 st; Ring.acts l2 st'.
Proof. revert st. induction l1 as [|a l1 IH]; intros st; [done|]. cbn. destruct (Ring.act a st); [apply IH|done]. Qed.

Lemma ring_at_keeps n m : (n ≤ m)%nat → ∃ S, Ring.Inv S (ring_at n).1 (ring_at n).2 ∧ Ring.keeps S (ring_at n).1 (ring_at m).
Proof.
  intros Hnm. destruct Hs as (S0 & HI0). unfold ring_at. destruct start as [r0 db0]. cbn in HI0.
  assert (take m l = take n l ++ drop n (take m l)) as ->.
  { rewrite <-(take_drop n (take m l)) at 1. by rewrite take_take, Nat.min_l. }
  rewrite acts_app. destruct (Ring.acts_keeps (take n l) S0 r0 db0 HI0 (Forall_take _ _ _ Hl)) as ([r1 db1] & -> & S1 & _ & HI1 & _). cbn in HI1.
  destruct (Ring.acts_keeps (drop n (take m l)) S1 r1 db1 HI1 (Forall_drop _ _ _ (Forall_take _ _ _ Hl))) as (st & E & Hk). cbn. rewrite E. by exists S1.
Qed.

#[export] Instance ring_history_lawful : RingHistory ring_history.
Proof.
  split.
  - intros n m raw aad pt ct v Hnm He. destruct (ring_at_keeps n m Hnm) as (S & HI & S' & HS & HI' & Hd). cbn in He.
    destruct (Ring.Encrypt_held S _ _ _ _ _ _ _ HI He) as (d & Hv & HSd & Ed). cbn. eapply Ring.Decrypt_held; [exact HI'|by apply Hd|by eapply lookup_weaken|done].
  - intros n raw aad pt ct v He. cbn in He. unfold Ring.Encrypt in He. destruct (Ring.closed _); [done|]. destruct (_ !! _); [|done].
    apply rbind_Ok in He as (ct' & Hct & E). simplify_eq. unfold Ring.crypto in Hct. destruct (Envelope.Encrypt _ _ _ _) eqn:Ee; [|done]. simplify_eq.
    intros ->. apply Envelope.Decrypt_Encrypt, rbind_Ok in Ee as (aead & _ & E). done.
Qed.
End Rings.

(** * Examples *)

Definition nl : string := of_bytes [byte_of 10].

(** Two keys, one of them also in a file under a passphrase. *)
Definition ex_lib : SSHLib := {|
  Key := bool;
  ParseRawPrivateKey b :=
    if bool_decide (of_bytes b = "first key" +:+ nl) then ParsedKey true
    else if bool_decide (of_bytes b = "second key" +:+ nl) then ParsedKey false
    else if bool_decide (of_bytes b = "locked key" +:+ nl) then NeedsPassphrase else NotAKey;
  ParseWithPassphrase b p := if bool_decide (of_bytes p = "sesame") then Ok false else Err true;
  AuthorizedKey k := Some (if k then "ssh-ed25519 FIRST" +:+ nl else "ssh-ed25519 SECOND" +:+ nl);
  MarshalPrivateKey k := Some (to_bytes (if k then "first key" +:+ nl else "second key" +:+ nl));
|}.

#[export] Instance ex_lib_laws : SSHLaws ex_lib.
Proof. split; intros [] x E; apply (inj Some) in E as <-; vm_compute; discriminate. Qed.

(** A ring that writes the row's name before the secret, one key version a
moment: small enough to run. *)
Definition ex_ring (n : nat) : KeyRing := {|
  RingErr := unit;
  Encrypt raw aad pt := match raw with Some _ => Ok (to_bytes aad ++ [byte_of 0] ++ pt, Z.of_nat n) | None => Err tt end;
  Decrypt aad ct v := if bool_decide (take (S (length (to_bytes aad))) ct = to_bytes aad ++ [byte_of 0]) then Ok (drop (S (length (to_bytes aad))) ct) else Err tt;
|}.

#[export] Instance ex_ring_lawful : RingHistory ex_ring.
Proof.
  assert (∀ aad, length (to_bytes aad ++ [byte_of 0]) = S (length (to_bytes aad))) as Hlen by (intros; rewrite length_app; cbn; lia).
  split; intros n *; cbn [ex_ring Encrypt Decrypt].
  - intros _. destruct raw; [|done]. intros E. apply Ok_inj, pair_equal_spec in E as [<- <-]. rewrite app_assoc.
    rewrite <-(Hlen aad), take_app_length, drop_app_length. by rewrite bool_decide_eq_true_2.
  - destruct raw; [|done]. intros E. apply Ok_inj in E. simplify_eq. by destruct (to_bytes aad).
Qed.

Definition ask (name type pass key : string) : writeRequest := {|
  qName := name; qType := type; qMode := ModeVaulted; qUsername := Some "root"; qDomain := ""; qPassword := pass; qPrivateKey := key; qPassphrase := "sesame";
  qTTL := None; qPrincipals := None |}.

Definition ex_requests : list request := [
  RCreate (Ring.some_bytes 21) "ca" "ada" 1 None (ask "authority" TypeSSHCA "" "first key");
  RCreate (Ring.some_bytes 22) "pw" "ada" 2 None (ask "root password" TypePassword "hunter2" "");
  RRotate (Ring.some_bytes 23) 3 "ca" None (ask "" "" "" "locked key")].

Definition ex_cut : request := RCutOver (Ring.some_bytes 24) 4 "ca".

Definition no_row : Row := {|
  rMeta := {| mName := ""; mType := ""; mMode := ""; mUsername := ""; mDomain := ""; mPublicKey := ""; mTTL := 0; mPrincipals := [] |};
  rPublic := None; rSealed := None; rCreatedBy := ""; rCreatedAt := 0; rUpdatedAt := 0; rRotatedAt := None; pSealed := None; pPublic := None; pAt := None;
  rRetired := None; rRetiredAt := None |}.

Definition row_of (l : list request) (id : string) : Row := default no_row (creds (run ex_lib ex_ring l) !! id).

Lemma row_of_eq l id : match creds (run ex_lib ex_ring l) !! id with Some _ => true | None => false end = true →
  creds (run ex_lib ex_ring l) !! id = Some (row_of l id).
Proof. unfold row_of. by destruct (_ !! _). Qed.

Lemma vault_opens_witness :
  holds_secret (rMeta (row_of ex_requests "ca")) = true ∧
  (∃ o, Open (ex_ring 9) "ca" (run ex_lib ex_ring ex_requests) = Ok o ∧ pair_of ex_lib (oPrivateKey o) (mPublicKey (cMeta (oCredential o)))).
Proof.
  assert (holds_secret (rMeta (row_of ex_requests "ca")) = true) as E1 by (vm_compute; reflexivity).
  assert (is_ssh (mType (rMeta (row_of ex_requests "ca"))) = true) as E2 by (vm_compute; reflexivity).
  assert (creds (run ex_lib ex_ring ex_requests) !! "ca" = Some (row_of ex_requests "ca")) as E3 by (apply row_of_eq; vm_compute; reflexivity).
  assert (length ex_requests ≤ 10)%nat as E4 by (apply Nat.leb_le; reflexivity).
  pose proof (vault_opens ex_lib ex_ring ex_requests "ca" (row_of ex_requests "ca") 9 E3 E4) as H. rewrite E1, E2 in H. exact (conj E1 (proj1 H)).
Defined.

Definition opened_now (l : list request) : result VErr Opened := Open (ex_ring 9) "ca" (run ex_lib ex_ring l).

Definition nothing : Opened := {| oCredential := scan "" no_row (0%nat, 0%nat); oPassword := ""; oPrivateKey := [] |}.

Lemma authority_changes_by_cut_over_witness :
  oPrivateKey (Ring.get nothing (opened_now ex_requests)) = to_bytes ("first key" +:+ nl) ∧
  ∃ after, opened_now (ex_requests ++ [ex_cut]) = Ok after ∧ oPrivateKey after = to_bytes ("second key" +:+ nl) ∧
    RetiredPublicKey <$> cRotation (oCredential after) = Some "ssh-ed25519 FIRST".
Proof.
  split; [vm_compute; reflexivity|].
  assert (creds (run ex_lib ex_ring ex_requests) !! "ca" = Some (row_of ex_requests "ca")) as E1 by (apply row_of_eq; vm_compute; reflexivity).
  assert (creds (run ex_lib ex_ring (ex_requests ++ [ex_cut])) !! "ca" = Some (row_of (ex_requests ++ [ex_cut]) "ca")) as E2
    by (apply row_of_eq; vm_compute; reflexivity).
  assert (length ex_requests ≤ 9)%nat as E3 by (apply Nat.leb_le; reflexivity).
  assert (Open (ex_ring 9) "ca" (run ex_lib ex_ring ex_requests) = Ok (Ring.get nothing (opened_now ex_requests))) as E4 by (vm_compute; reflexivity).
  pose proof (authority_changes_by_cut_over ex_lib ex_ring ex_requests ex_cut "ca" _ _ 9 _ E1 E2 E3 E4) as H. destruct H as (after & Ha & _).
  exists after. split; [exact Ha|].
  assert (after = Ring.get nothing (opened_now (ex_requests ++ [ex_cut]))) as -> by (unfold opened_now; rewrite Ha; reflexivity).
  vm_compute. split; reflexivity.
Defined.

Definition ex_secret : Secret := {| Password := "hunter2"; PrivateKey := ""; Passphrase := "" |}.
Definition ex_meta : Meta := {| mName := "root password"; mType := TypePassword; mMode := ModeVaulted; mUsername := "root"; mDomain := ""; mPublicKey := ""; mTTL := 0; mPrincipals := [] |}.
Definition empty_vault : DB := {| creds := ∅; uses := ∅ |}.
Definition ex_created : result VErr (Credential * DB) := Create ex_lib (ex_ring 0) (Ring.some_bytes 21) "pw" 1 ex_meta ex_secret "ada" empty_vault.
Definition ex_pair : Credential * DB := Ring.get (oCredential nothing, empty_vault) ex_created.

Lemma secret_comes_back_witness :
  ∃ o, Open (ex_ring 9) "pw" ex_pair.2 = Ok o ∧ oPassword o = "hunter2".
Proof.
  assert (ex_created = Ok (ex_pair.1, ex_pair.2)) as E1 by (apply (Ring.get_pair (oCredential nothing, empty_vault) ex_created); vm_compute; reflexivity).
  assert (holds_secret (cMeta ex_pair.1) = true) as E2 by (vm_compute; reflexivity).
  assert (is_ssh (mType (cMeta ex_pair.1)) = false) as E3 by (vm_compute; reflexivity).
  pose proof (secret_comes_back ex_lib ex_ring 0 9 (Ring.some_bytes 21) "pw" 1 ex_meta ex_secret "ada" empty_vault ex_pair.1 ex_pair.2
    (or_introl E1) E2 ltac:(lia)) as H. rewrite E3 in H. destruct H as (o & Ho & _ & Hp). exists o. exact (conj Ho Hp).
Defined.

(** ** What the code does not do as it says *)

(** A name with a right-to-left override, which a new credential may not have. *)
Definition bidi_name : string := "root" +:+ of_bytes (byte_of <$> [226; 128; 174]%N) +:+ "gnp".

(** An edit is not checked against it, and [CheckRotate] looks at the old name: the
request below is refused with the secret as it was, yet the name has changed; and
from then on no rotation of the credential is accepted. *)
Lemma refused_edit_is_half_saved :
  let s := run ex_lib ex_ring ex_requests in
  let '(a, s') := update ex_lib (ex_ring 4) (Ring.some_bytes 25) 5 "pw" (ask bidi_name "" "swordfish" "") s in
  a = ARefused 400 "bad_request"
  ∧ mName (rMeta (default no_row (creds s' !! "pw"))) = bidi_name
  ∧ oPassword (Ring.get nothing (Open (ex_ring 9) "pw" s')) = "hunter2"
  ∧ (rotate ex_lib (ex_ring 5) (Ring.some_bytes 26) 6 "pw" None (ask "" "" "swordfish" "") s').1 = ARefused 400 "bad_request".
Proof. vm_compute. split_and!; reflexivity. Qed.

(** Two cut-overs at once: both read the prepared key before either has written.
The authority then signs with the new key, shows no public key, and names the
new one as retired. *)
Lemma double_cut_over_loses_public_key :
  let s := run ex_lib ex_ring ex_requests in
  ∃ sv1 sv2 c1 s1 c2 s2,
    cut_read (ex_ring 3) (Ring.some_bytes 27) "ca" s = Ok sv1 ∧ cut_read (ex_ring 3) (Ring.some_bytes 28) "ca" s = Ok sv2 ∧
    cut_write 5 "ca" sv1 s = Ok (c1, s1) ∧ cut_write 6 "ca" sv2 s1 = Ok (c2, s2) ∧
    oPrivateKey (Ring.get nothing (Open (ex_ring 9) "ca" s2)) = to_bytes ("second key" +:+ nl) ∧
    mPublicKey (cMeta c2) = "" ∧ RetiredPublicKey <$> cRotation c2 = Some "ssh-ed25519 SECOND".
Proof.
  cbv zeta. eexists _, _, _, _, _, _. split; [vm_compute; reflexivity|]. split; [vm_compute; reflexivity|]. split; [vm_compute; reflexivity|].
  split; [vm_compute; reflexivity|]. vm_compute. split_and!; reflexivity.
Qed.
