(* ===== verification/ApiTokens.v ===== *)
(** API tokens: the table of src/internal/apitoken/apitoken.go and the handlers of
handler.go, and how the middleware of Middleware.v serves a request that brings
one.

The users table is here what the queries read of it, the names of the users; a
user who is deleted takes the tokens along.  The random bytes, the clock and
whether a maker has an authenticator are arguments.  A query is one step; the
count and the insert of a creation are also modelled apart. *)
From stdpp Require Import sorting.
From S2P Require Import Prelude GoText Sha256 Keyring Limiter Sessions Users Middleware.
Local Open Scope Z_scope.

(** * The table *)

Record Token := {
  tID : string; tUserID : string; tUsername : string; tName : string; tPrefix : string; tCreatedAt : time; tExpiresAt : time;
  tLastUsedAt : option time; tRevokedAt : option time;
}.

Definition Active (t : Token) (now : time) : bool := bool_decide (tRevokedAt t = None) && (now <? tExpiresAt t).

Record token_row := {
  owner : string; label : string; hash : string; shown : string; made : time; expires : time; used : option time; revoked : option time;
}.

Record Repo := {
  api_tokens : gmap string token_row;
  users : gmap string string;  (* the names, by id *)
  touched : gmap string time;
}.

Definition set_tokens (t : gmap string token_row) (r : Repo) : Repo := {| api_tokens := t; users := users r; touched := touched r |}.
Definition set_touched (t : gmap string time) (r : Repo) : Repo := {| api_tokens := api_tokens r; users := users r; touched := t |}.

Definition touchEvery : duration := Minute.
Definition prefixLen : nat := 12.

Inductive Err_ := ErrNotFound | ErrDB | ErrRand.

Definition hashOf (secret : string) : string := Hex.EncodeToString (Sha.Sum256 (to_bytes secret)).

Definition newSecret (raw : option bytes) : result Err_ string :=
  match raw with None => Err ErrRand | Some raw => Ok (TokenPrefix +:+ Base64.EncodeToString (Envelope.fill 32 raw)) end.

Definition has_hash (h : string) (ir : string * token_row) : bool := bool_decide (hash ir.2 = h).

Definition by_hash (h : string) (r : Repo) : option (string * token_row) := List.find (has_hash h) (map_to_list (api_tokens r)).

Definition Create (newID : string) (raw : option bytes) (now : time) (userID name : string) (ttl : duration) (r : Repo)
    : result Err_ (Token * string * Repo) :=
  let? secret := newSecret raw in
  let t := {| tID := newID; tUserID := userID; tUsername := ""; tName := name; tPrefix := String.substring 0 prefixLen secret; tCreatedAt := now;
              tExpiresAt := now + ttl; tLastUsedAt := None; tRevokedAt := None |} in
  let row := {| owner := userID; label := name; hash := hashOf secret; shown := tPrefix t; made := TimeArg (tCreatedAt t); expires := TimeArg (tExpiresAt t);
                used := None; revoked := None |} in
  (* the keys of the table: the id, the hash, and the user *)
  let? _ := refuse_if (bool_decide (is_Some (api_tokens r !! newID)) || bool_decide (is_Some (by_hash (hashOf secret) r))
                       || bool_decide (users r !! userID = None)) ErrDB in
  Ok (t, secret, set_tokens (<[newID := row]> (api_tokens r)) r).

Definition scan (id : string) (row : token_row) (r : Repo) : Token := {|
  tID := id; tUserID := owner row; tUsername := default "" (users r !! owner row); tName := label row; tPrefix := shown row; tCreatedAt := made row;
  tExpiresAt := expires row; tLastUsedAt := used row; tRevokedAt := revoked row |}.

Definition newest_first (a b : Token) : Prop := tCreatedAt b < tCreatedAt a ∨ (tCreatedAt a = tCreatedAt b ∧ String.leb (tID a) (tID b) = true).

#[export] Instance newest_first_dec : RelDecision newest_first.
Proof. intros a b. unfold newest_first. apply _. Defined.

Definition List_ (r : Repo) : list Token := merge_sort newest_first ((λ ir, scan ir.1 ir.2 r) <$> map_to_list (api_tokens r)).

Definition CountActive (now : time) (userID : string) (r : Repo) : nat :=
  length (List.filter (λ t, bool_decide (tUserID t = userID) && Active t now) (List_ r)).

Definition Get (id : string) (r : Repo) : result Err_ Token :=
  match api_tokens r !! id with Some row => Ok (scan id row r) | None => Err ErrNotFound end.

Definition end_row (now : time) (row : token_row) : token_row := {|
  owner := owner row; label := label row; hash := hash row; shown := shown row; made := made row; expires := expires row; used := used row;
  revoked := match revoked row with None => Some (TimeArg now) | at_ => at_ end |}.

Definition Revoke (now : time) (id : string) (r : Repo) : result Err_ Token * Repo :=
  let r := set_tokens (alter (end_row now) id (api_tokens r)) r in
  let r := set_touched (delete id (touched r)) r in
  (Get id r, r).

Definition use_row (now : time) (row : token_row) : token_row := {|
  owner := owner row; label := label row; hash := hash row; shown := shown row; made := made row; expires := expires row; used := Some (TimeArg now);
  revoked := revoked row |}.

(** Writes the last use; whether the write [lands] is nobody's concern. *)
Definition touch (lands : bool) (id : string) (now : time) (r : Repo) : Repo :=
  let due := match touched r !! id with None => true | Some last => touchEvery <=? Sub now last end in
  if due then set_touched (<[id := now]> (touched r)) (if lands then set_tokens (alter (use_row now) id (api_tokens r)) r else r) else r.

Definition Authenticate (lands : bool) (now : time) (secret : string) (r : Repo) : result TokenErr (string * string) * Repo :=
  match by_hash (hashOf secret) r with
  | None => (Err ErrBadToken, r)
  | Some (id, row) =>
      if negb (bool_decide (revoked row = None)) || negb (now <? expires row) then (Err ErrBadToken, r)
      else (Ok (owner row, id), touch lands id now r)
  end.

(** * The handlers *)

Definition MaxDays : Z := 365.
Definition DefaultDays : Z := 90.
Definition MaxActive : nat := 20.

Inductive Answer := ACreated (t : Token) (secret : string) | AToken (t : Token) | ARefused (status : Z) (code : string) | AInternal.

Record createInput := { inName : string; inDays : Z }.

(** [enrolled] is what [MFAEnrolled] answers, if the gateway has one. *)
Definition steppedUp (now : time) (p : Principal) (enrolled : option (result unit bool)) : result Answer unit :=
  if StepUpFresh now (Some p) then Ok tt
  else match enrolled with
       | Some (Err _) => Err AInternal
       | Some (Ok false) => Ok tt
       | _ => Err (ARefused 403 "step_up_required")
       end.

(** What [create] checks before it writes: the name and the life of the token. *)
Definition checked (now : time) (p : Principal) (enrolled : option (result unit bool)) (i : createInput) (r : Repo) : result Answer (string * Z) :=
  let name := Strings.TrimSpace (inName i) in
  let? _ := refuse_if (bool_decide (name = "") || bool_decide (100 < Utf8.rune_count (to_bytes name))%nat) (ARefused 400 "bad_request") in
  let days := if inDays i =? 0 then DefaultDays else inDays i in
  let? _ := refuse_if ((days <? 1) || (MaxDays <? days)) (ARefused 400 "bad_request") in
  let? _ := steppedUp now p enrolled in
  let? _ := refuse_if (bool_decide (MaxActive ≤ CountActive now (Users.ID (User p)) r)%nat) (ARefused 409 "too_many_tokens") in
  Ok (name, days).

Definition with_username (u : string) (t : Token) : Token := {|
  tID := tID t; tUserID := tUserID t; tUsername := u; tName := tName t; tPrefix := tPrefix t; tCreatedAt := tCreatedAt t; tExpiresAt := tExpiresAt t;
  tLastUsedAt := tLastUsedAt t; tRevokedAt := tRevokedAt t |}.

(** And what it does then. *)
Definition insert_ (newID : string) (raw : option bytes) (now : time) (p : Principal) (nd : string * Z) (r : Repo) : Answer * Repo :=
  match Create newID raw now (Users.ID (User p)) nd.1 (nd.2 * (24 * Hour)) r with
  | Ok (t, secret, r') => (ACreated (with_username (Users.Username (User p)) t) secret, r')
  | Err _ => (AInternal, r)
  end.

Definition create (newID : string) (raw : option bytes) (now : time) (p : Principal) (enrolled : option (result unit bool)) (i : createInput) (r : Repo)
    : Answer * Repo :=
  match checked now p enrolled i r with
  | Err a => (a, r)
  | Ok nd => insert_ newID raw now p nd r
  end.

Definition revoke (now : time) (id : string) (r : Repo) : Answer * Repo :=
  match Get id r with
  | Err _ => (ARefused 404 "not_found", r)
  | Ok cur => match Revoke now (tID cur) r with (Ok t, r') => (AToken t, r') | (Err _, r') => (AInternal, r') end
  end.

(** * Histories *)

(** A token is made, revoked or used; a user comes, is renamed, or goes. *)
Inductive op :=
| OMake (newID : string) (raw : option bytes) (now : time) (p : Principal) (enrolled : option (result unit bool)) (i : createInput)
| ORevoke (now : time) (id : string)
| OUse (lands : bool) (now : time) (secret : string)
| OUser (uid : string) (name : option string).

Definition serve (r : Repo) (o : op) : Repo :=
  match o with
  | OMake newID raw now p enrolled i => (create newID raw now p enrolled i r).2
  | ORevoke now id => (revoke now id r).2
  | OUse lands now secret => (Authenticate lands now secret r).2
  | OUser uid (Some name) => {| api_tokens := api_tokens r; users := <[uid := name]> (users r); touched := touched r |}
  | OUser uid None =>
      {| api_tokens := filter (λ ir, owner ir.2 ≠ uid) (api_tokens r); users := delete uid (users r); touched := touched r |}
  end.

Definition run (l : list op) : Repo := foldl serve {| api_tokens := ∅; users := ∅; touched := ∅ |} l.

Lemma token_run_snoc l o : run (l ++ [o]) = serve (run l) o.
Proof. unfold run. by rewrite foldl_app. Qed.

(** ** One step, row by row *)

(** The row [row'] is [row] after [o]: revoked when it was, or when [o] revokes it. *)
Record kept (o : op) (id : string) (row row' : token_row) : Prop := {
  kept_owner : owner row' = owner row;
  kept_hash : hash row' = hash row;
  kept_made : made row' = made row;
  kept_expires : expires row' = expires row;
  kept_revoked : revoked row' = None ↔ revoked row = None ∧ ∀ t, o ≠ ORevoke t id;
}.

(** The row the making of a token leads to. *)
Record born (o : op) (r : Repo) (id : string) (row : token_row) (t : Token) (secret : string) : Prop := {
  born_by : ∃ raw now p enrolled i, o = OMake id raw now p enrolled i ∧ (create id raw now p enrolled i r).1 = ACreated t secret;
  born_owner : owner row = tUserID t;
  born_hash : hash row = hashOf secret;
  born_made : made row = TimeArg (tCreatedAt t);
  born_expires : expires row = TimeArg (tExpiresAt t);
  born_revoked : revoked row = None;
  born_fresh : by_hash (hash row) r = None;
}.

Lemma kept_refl o id row : (∀ t, o ≠ ORevoke t id) → kept o id row row.
Proof. intros Ho. split; [done..|]. naive_solver. Qed.

Lemma checked_refuses now p enrolled i r a t secret : checked now p enrolled i r = Err a → a ≠ ACreated t secret.
Proof. unfold checked, steppedUp, refuse_if, rbind. intros H. repeat case_match; simplify_eq; done. Qed.

(** What [create] does to the table. *)
Lemma create_tokens newID raw now p enrolled i r :
  ((create newID raw now p enrolled i r).2 = r ∧ ∀ t secret, (create newID raw now p enrolled i r).1 ≠ ACreated t secret) ∨
  ∃ row t secret, api_tokens r !! newID = None ∧ api_tokens (create newID raw now p enrolled i r).2 = <[newID := row]> (api_tokens r)
    ∧ born (OMake newID raw now p enrolled i) r newID row t secret.
Proof.
  destruct (create newID raw now p enrolled i r) as [a r'] eqn:Ec. pose proof Ec as Eb. unfold create in Ec.
  destruct (checked _ _ _ _ _) as [nd|?] eqn:Ek; [|simplify_eq; left; split; [done|intros; by eapply checked_refuses]]. unfold insert_ in Ec. destruct (Create _ _ _ _ _ _ _) as [[[t secret] r1]|e] eqn:E; simplify_eq; [|by left].
  right. unfold Create in E. apply rbind_Ok in E as (sec & _ & E). cbv zeta in E. apply rbind_Ok in E as ([] & Hf & E). apply Ok_inj in E. simplify_eq.
  apply refuse_if_ok in Hf. rewrite !orb_false_iff in Hf. destruct Hf as [[H1%bool_decide_eq_false H2%bool_decide_eq_false] _].
  eexists _, _, secret. split; [by apply eq_None_not_Some|]. cbn. split; [done|]. split; cbn.
  - eexists _, _, _, _, _. split; [done|]. by rewrite Eb.
  - done.
  - done.
  - done.
  - done.
  - done.
  - by apply eq_None_not_Some.
Qed.

Lemma touch_row lands id now r i row : api_tokens r !! i = Some row →
  ∃ row', api_tokens (touch lands id now r) !! i = Some row' ∧ (row' = row ∨ i = id ∧ row' = use_row now row).
Proof.
  intros Er. unfold touch. destruct (match touched r !! id with None => _ | _ => _ end); [|by eauto]. destruct lands; cbn; [|by eauto].
  destruct (decide (i = id)) as [->|Hne]; [rewrite lookup_alter_eq, Er|rewrite lookup_alter_ne by done; rewrite Er]; eauto.
Qed.

Lemma touch_dom lands id now r i : is_Some (api_tokens (touch lands id now r) !! i) → is_Some (api_tokens r !! i).
Proof.
  unfold touch. destruct (match touched r !! id with None => _ | _ => _ end); [|done]. destruct lands; [|done]. cbn. by rewrite lookup_alter_is_Some.
Qed.

Lemma kept_row o r id row : api_tokens r !! id = Some row →
  (o = OUser (owner row) None ∧ api_tokens (serve r o) !! id = None) ∨
  (o ≠ OUser (owner row) None ∧ ∃ row', api_tokens (serve r o) !! id = Some row' ∧ kept o id row row').
Proof.
  intros Er. destruct o as [newID raw now p enrolled i|now i|lands now secret|uid [name|]]; cbn [serve].
  - right. split; [done|]. destruct (create_tokens newID raw now p enrolled i r) as [[-> _]|(row' & t & sec & Hn & -> & _)]; [by eauto using kept_refl|].
    rewrite lookup_insert_ne by congruence. by eauto using kept_refl.
  - right. split; [done|]. unfold revoke, Get. destruct (api_tokens r !! i) as [row0|] eqn:Ei.
    2: { exists row. split; [done|]. apply kept_refl. intros t [= _ ->]. congruence. }
    cbn [scan tID]. unfold Revoke. cbv zeta. cbn.
    unfold Get. cbn. rewrite lookup_alter_eq, Ei. cbn. destruct (decide (id = i)) as [->|Hne].
    + rewrite lookup_alter_eq, Er. eexists. split; [done|]. split; try done. cbn. split; [by destruct (revoked row)|]. intros [_ Hr]. by destruct (Hr now).
    + rewrite lookup_alter_ne by done. exists row. split; [done|]. apply kept_refl. intros t [= _ ->]. done.
  - right. split; [done|]. unfold Authenticate. destruct (by_hash _ r) as [[i row0]|]; [|by eauto using kept_refl].
    destruct (_ || _); [by eauto using kept_refl|]. destruct (touch_row lands i now r id row Er) as (row' & E & [->|[-> ->]]); (eexists; split; [exact E|]); split; try done; cbn; naive_solver.
  - right. split; [done|]. by eauto using kept_refl.
  - destruct (decide (owner row = uid)) as [<-|Hne].
    + left. split; [done|]. apply map_lookup_filter_None. right. intros x Hx. simplify_eq. by intros [].
    + right. split; [by intros [= ?]|]. exists row. split; [by apply map_lookup_filter_Some|]. by apply kept_refl.
Qed.

Lemma new_row o r id row : api_tokens r !! id = None → api_tokens (serve r o) !! id = Some row → ∃ t secret, born o r id row t secret.
Proof.
  intros Hn Hs. destruct o as [newID raw now p enrolled i|now i|lands now secret|uid [name|]]; cbn [serve] in Hs.
  - destruct (create_tokens newID raw now p enrolled i r) as [[E _]|(row' & t & sec & _ & E & Hb)]; rewrite E in Hs; [congruence|].
    destruct (decide (id = newID)) as [->|Hne]; [|rewrite lookup_insert_ne in Hs by done; congruence].
    rewrite lookup_insert_eq in Hs. simplify_eq. eauto.
  - unfold revoke, Get in Hs. destruct (api_tokens r !! i) as [row0|] eqn:Ei; [|cbn in Hs; congruence]. cbn in Hs. unfold Revoke, Get in Hs. cbn in Hs.
    rewrite lookup_alter_eq, Ei in Hs. cbn in Hs. rewrite lookup_alter_ne in Hs by congruence. congruence.
  - exfalso. unfold Authenticate in Hs. destruct (by_hash _ r) as [[i row0]|]; [|cbn in Hs; congruence]. destruct (_ || _); [cbn in Hs; congruence|].
    destruct (touch_dom lands i now r id) as [x Hx]; [by exists row|congruence].
  - cbn in Hs. congruence.
  - apply map_lookup_filter_Some in Hs as [Hs _]. congruence.
Qed.

(** ** The hash names one row *)

Definition unique (r : Repo) : Prop :=
  ∀ i j a b, api_tokens r !! i = Some a → api_tokens r !! j = Some b → hash a = hash b → i = j.

Lemma by_hash_spec h r : match by_hash h r with
  | Some (id, row) => api_tokens r !! id = Some row ∧ hash row = h
  | None => ∀ id row, api_tokens r !! id = Some row → hash row ≠ h
  end.
Proof.
  unfold by_hash. destruct (List.find _ _) as [[id row]|] eqn:E.
  - apply List.find_some in E as [Hin Hh]. apply list_elem_of_In, elem_of_map_to_list in Hin. by apply bool_decide_eq_true in Hh.
  - intros id row Hr Hh. apply elem_of_map_to_list, list_elem_of_In in Hr. apply (List.find_none _ _ E) in Hr.
    unfold has_hash in Hr. by apply bool_decide_eq_false in Hr.
Qed.

Lemma by_hash_one r id row : unique r → api_tokens r !! id = Some row → by_hash (hash row) r = Some (id, row).
Proof.
  intros Hu Hr. pose proof (by_hash_spec (hash row) r) as H. destruct (by_hash (hash row) r) as [[i row']|].
  - destruct H as [Hi Hh]. assert (i = id) as -> by eauto. congruence.
  - by destruct (H _ _ Hr).
Qed.

(** A row after a step was there before, with its hash, or is the one row made. *)
Lemma step_row o r id row' : api_tokens (serve r o) !! id = Some row' →
  (∃ row, api_tokens r !! id = Some row ∧ o ≠ OUser (owner row) None ∧ kept o id row row') ∨
  (api_tokens r !! id = None ∧ ∃ t secret, born o r id row' t secret).
Proof.
  intros Hs. destruct (api_tokens r !! id) as [row|] eqn:Er; [left|right; split; [done|by eapply new_row]].
  destruct (kept_row o r id row Er) as [[_ E]|[Ho (row2 & E & Hk)]]; [congruence|]. exists row. split_and!; [done..|]. congruence.
Qed.

Lemma run_unique l : unique (run l).
Proof.
  induction l as [|o l IH] using rev_ind; [by intros i j a b H; cbn in H; rewrite lookup_empty in H|]. rewrite token_run_snoc.
  intros i j a b Ha Hb Hab. apply step_row in Ha as [(a0 & Ha & _ & Ka)|(Hi & ta & sa & Ba)], Hb as [(b0 & Hb & _ & Kb)|(Hj & tb & sb & Bb)].
  - eapply IH; [done..|]. by rewrite <-(kept_hash _ _ _ _ Ka), <-(kept_hash _ _ _ _ Kb).
  - exfalso. pose proof (by_hash_spec (hash b) (run l)) as H. rewrite (born_fresh _ _ _ _ _ _ Bb) in H. apply (H _ _ Ha).
    by rewrite <-(kept_hash _ _ _ _ Ka).
  - exfalso. pose proof (by_hash_spec (hash a) (run l)) as H. rewrite (born_fresh _ _ _ _ _ _ Ba) in H. apply (H _ _ Hb).
    by rewrite <-(kept_hash _ _ _ _ Kb).
  - destruct (born_by _ _ _ _ _ _ Ba) as (? & ? & ? & ? & ? & -> & _), (born_by _ _ _ _ _ _ Bb) as (? & ? & ? & ? & ? & E & _). by simplify_eq.
Qed.

(** ** Where a row comes from *)

(** The making of the token [t] with its secret, in the history [l], and what came
after it. *)
Inductive made_in (l : list op) (id : string) (t : Token) (secret : string) (after : list op) : Prop :=
| MadeIn before raw now p enrolled i :
    l = before ++ OMake id raw now p enrolled i :: after → (create id raw now p enrolled i (run before)).1 = ACreated t secret → made_in l id t secret after.

(** What the row of a token says, after [after]. *)
Record row_says (id : string) (t : Token) (secret : string) (after : list op) (row : token_row) : Prop := {
  says_owner : owner row = tUserID t;
  says_hash : hash row = hashOf secret;
  says_made : made row = TimeArg (tCreatedAt t);
  says_expires : expires row = TimeArg (tExpiresAt t);
  says_revoked : revoked row = None ↔ ∀ now, ORevoke now id ∉ after;
}.

Lemma row_says_step id t secret after row o row' :
  row_says id t secret after row → kept o id row row' → row_says id t secret (after ++ [o]) row'.
Proof.
  intros [] []. split; try congruence. rewrite kept_revoked0, says_revoked0. setoid_rewrite elem_of_app. setoid_rewrite list_elem_of_singleton.
  split; [intros [H1 H2] now [?|E]; [by eapply H1|by eapply H2]|]. intros H. split; [intros now Hn; by apply (H now); left|].
  intros now E. apply (H now). by right.
Qed.

Lemma row_made l id row : api_tokens (run l) !! id = Some row →
  ∃ t secret after, made_in l id t secret after ∧ row_says id t secret after row ∧ OUser (tUserID t) None ∉ after.
Proof.
  revert id row. induction l as [|o l IH] using rev_ind; intros id row Hr; [cbn in Hr; by rewrite lookup_empty in Hr|]. rewrite token_run_snoc in Hr.
  apply step_row in Hr as [(row0 & Hr & Ho & K)|(_ & t & secret & B)].
  - destruct (IH _ _ Hr) as (t & secret & after & [before raw now p enrolled i -> Hc] & Hs & Hu). exists t, secret, (after ++ [o]). split_and!.
    + eapply (MadeIn _ _ _ _ _ before); [by rewrite <-app_assoc|done].
    + by eapply row_says_step.
    + rewrite elem_of_app, list_elem_of_singleton. intros [?| <-]; [done|]. apply Ho. by rewrite (says_owner _ _ _ _ _ Hs).
  - destruct (born_by _ _ _ _ _ _ B) as (raw & now & p & enrolled & i & -> & Hc). exists t, secret, []. split_and!.
    + eapply (MadeIn _ _ _ _ _ l); done.
    + destruct B. split; try done. split; [|done]. intros _ now' []%elem_of_nil.
    + by intros []%elem_of_nil.
Qed.

(** And conversely: while its owner is there, a token that was made has its row. *)
Lemma made_row l id t secret after : made_in l id t secret after → OUser (tUserID t) None ∉ after →
  ∃ row, api_tokens (run l) !! id = Some row ∧ row_says id t secret after row.
Proof.
  intros [before raw now p enrolled i -> Hc]. induction after as [|o after IH] using rev_ind.
  - intros _. rewrite token_run_snoc. cbn [serve]. destruct (create_tokens id raw now p enrolled i (run before)) as [[_ E]|(row & t' & sec & Hn & E & B)]; [by destruct (E _ _ Hc)|].
    rewrite E, lookup_insert_eq. destruct (born_by _ _ _ _ _ _ B) as (? & ? & ? & ? & ? & Ho & Hc'). simplify_eq. rewrite Hc in Hc'. simplify_eq.
    eexists. split; [done|]. destruct B. split; try done. split; [|done]. intros _ now' []%elem_of_nil.
  - rewrite elem_of_app, list_elem_of_singleton. intros Hu. destruct IH as (row & Hr & Hs); [naive_solver|].
    replace (before ++ OMake id raw now p enrolled i :: after ++ [o]) with ((before ++ OMake id raw now p enrolled i :: after) ++ [o]) by (by rewrite <-app_assoc).
    rewrite token_run_snoc. destruct (kept_row o _ _ _ Hr) as [[-> _]|[_ (row' & Hr' & K)]].
    + exfalso. apply Hu. right. by rewrite (says_owner _ _ _ _ _ Hs).
    + exists row'. split; [done|by eapply row_says_step].
Qed.

(** * When a token serves *)

(** The secret is the one that was handed out, or makes a SHA-256 collision with it. *)
Definition presents (secret given : string) : Prop :=
  given = secret ∨ (given ≠ secret ∧ Sha.Sum256 (to_bytes given) = Sha.Sum256 (to_bytes secret)).

Lemma hashOf_presents secret given : hashOf given = hashOf secret ↔ presents secret given.
Proof.
  unfold hashOf, presents. split.
  - intros E. apply Hex.EncodeToString_inj in E. destruct (decide (given = secret)); auto.
  - by intros [->|[_ ->]].
Qed.

(** In the history [l] the token [id] of [uid] was made and its secret handed out;
since then nobody has revoked it, its owner is still there, and it has not
expired at [now]. *)
Definition Standing (l : list op) (now : time) (secret uid id : string) : Prop :=
  ∃ t given after, made_in l id t given after ∧ presents secret given ∧ tUserID t = uid ∧ now < TimeArg (tExpiresAt t)
    ∧ (∀ at_, ORevoke at_ id ∉ after) ∧ OUser uid None ∉ after.

Lemma authenticates_standing lands l now secret uid id :
  (Authenticate lands now secret (run l)).1 = Ok (uid, id) ↔ Standing l now secret uid id.
Proof.
  unfold Authenticate. split.
  - pose proof (by_hash_spec (hashOf secret) (run l)) as Hh. destruct (by_hash _ _) as [[i row]|]; [|done]. destruct Hh as [Hr Hh].
    destruct (negb _ || negb _) eqn:E; [done|]. intros E2. cbn in E2. apply Ok_inj in E2. simplify_eq. apply orb_false_iff in E as [Hv He].
    apply negb_false_iff in Hv, He. apply bool_decide_eq_true in Hv. destruct (row_made _ _ _ Hr) as (t & given & after & Hm & Hs & Hu).
    exists t, given, after. rewrite <-(says_expires _ _ _ _ _ Hs), (says_owner _ _ _ _ _ Hs). split_and!; [done| |done|lia|by apply (says_revoked _ _ _ _ _ Hs)|done].
    apply hashOf_presents. by rewrite <-(says_hash _ _ _ _ _ Hs).
  - intros (t & given & after & Hm & Hp & <- & He & Hr & Hu). destruct (made_row _ _ _ _ _ Hm Hu) as (row & Hrow & Hs).
    apply hashOf_presents in Hp. rewrite <-Hp, <-(says_hash _ _ _ _ _ Hs), (by_hash_one _ _ _ (run_unique l) Hrow).
    rewrite (proj2 (says_revoked _ _ _ _ _ Hs) Hr), (says_expires _ _ _ _ _ Hs), (says_owner _ _ _ _ _ Hs). cbn [bool_decide negb orb].
    destruct (Z.ltb_spec now (TimeArg (tExpiresAt t))); [done|lia].
Qed.

(** ** What a use writes *)

Lemma used_users lands now secret r : users (Authenticate lands now secret r).2 = users r.
Proof.
  unfold Authenticate. destruct (by_hash _ r) as [[i row]|]; [|done]. destruct (_ || _); [done|]. cbn [snd]. unfold touch.
  destruct (match touched r !! i with None => _ | _ => _ end); [|done]. by destruct lands.
Qed.

Lemma used_dom lands now secret r : dom (api_tokens (Authenticate lands now secret r).2) = dom (api_tokens r).
Proof.
  unfold Authenticate. destruct (by_hash _ r) as [[i row]|]; [|done]. destruct (_ || _); [done|]. cbn [snd]. unfold touch.
  destruct (match touched r !! i with None => _ | _ => _ end); [|done]. destruct lands; [|done]. apply set_eq. intros j.
  cbn. by rewrite !elem_of_dom, lookup_alter_is_Some.
Qed.

Lemma used_row lands l now secret i row : api_tokens (run l) !! i = Some row →
  api_tokens (Authenticate lands now secret (run l)).2 !! i = Some row ∨
  (api_tokens (Authenticate lands now secret (run l)).2 !! i = Some (use_row now row) ∧ Standing l now secret (owner row) i).
Proof.
  intros Hr. destruct (Authenticate lands now secret (run l)) as [a r'] eqn:E. pose proof E as Ea. unfold Authenticate in E.
  pose proof (by_hash_spec (hashOf secret) (run l)) as Hh. destruct (by_hash _ (run l)) as [[j x]|]; [|left; by simplify_eq].
  destruct (_ || _); [left; by simplify_eq|]. injection E as <- <-. cbn [snd].
  destruct (touch_row lands j now (run l) i row Hr) as (row' & Ht & [->|[-> ->]]); [by left|]. right. split; [done|].
  apply (authenticates_standing lands). destruct Hh as [Hx _]. rewrite Ea. cbn. congruence.
Qed.

Section Serving.
Context `{FO : Floats} (S0 : Sessions.Sessions).

(** The request may be served as the token [id] of [u]. *)
Record may_serve (l : list op) (rq : Middleware.request) (w : world) (uid id : string) (u : Users.User) : Prop := {
  ms_standing : Standing l (Middleware.now rq) (bearerSecret rq) uid id;
  ms_owner : GetByID uid (udb w) = Ok u;
  ms_active : IsBlocked u = false;
  ms_admin : RoleAdmin ∈ Roles u;
  ms_reach : Reach (if bool_decide (Method rq = "HEAD") then "GET" else Method rq) (Path rq);
}.

(** The request, on a middleware whose store of tokens is this table; the table
does not answer when its database is not [up]. *)
Definition with_store (up : bool) (r : Repo) (rq : Middleware.request) : Middleware.request := {|
  Method := Method rq; Path := Path rq; cookie := cookie rq; Authorization := Authorization rq; SecFetchSite := SecFetchSite rq;
  Origin := Origin rq; Host := Host rq; XCSRFToken := XCSRFToken rq; ClientIP := ClientIP rq; Agent := Agent rq; Middleware.now := Middleware.now rq;
  Tokens := Some (λ s, if up then (Authenticate true (Middleware.now rq) s r).1 else Err TokenUnavailable) |}.

(** What becomes of the request, of the world it is served in, and of the table:
[bearer] asks the table first, and the table writes a last use before [bearer]
looks at the owner and the route. *)
Definition handled (up lands : bool) (next : handler) (rq : Middleware.request) (w : world) (r : Repo) : result reply reply * world * Repo :=
  (Middleware.Authenticate S0 next (with_store up r rq) w,
   if up then (Authenticate lands (Middleware.now rq) (bearerSecret rq) r).2 else r).

(** C40. An API token serves from its making to its end, and no further.  After any
history of the table, a request that brings a token is served, as the token's
owner, when the database answers, the secret is one that was handed out when a
token was made (or collides with it under SHA-256), the token has since not been
revoked and has not expired, its owner is still an unblocked administrator, and
the route is of the configuration API; the caller never counts as freshly proved.
In every other case the request is refused and changes nothing of the accounts and
sign-ins.  Of the tokens, a request changes nothing but the last use of the one it
presents, and that only while it stands: also where the owner or the route then
refuses it. *)
Theorem token_serves_while_it_stands l up lands rq (next : handler) w :
  bearerSecret rq ≠ "" →
  let '(served, r') := handled up lands next rq w (run l) in
  (∀ uid id u, up = true → may_serve l rq w uid id u →
     ∃ p, served = next (Some p) w ∧ User p = u ∧ TokenID p = id ∧ StepUpFresh (Middleware.now rq) (Some p) = false) ∧
  ((¬ ∃ uid id u, up = true ∧ may_serve l rq w uid id u) → ∃ r, served = (Err r, w) ∧ 400 ≤ code r) ∧
  users r' = users (run l) ∧ dom (api_tokens r') = dom (api_tokens (run l)) ∧
  ∀ i row, api_tokens (run l) !! i = Some row →
    api_tokens r' !! i = Some row ∨
    (api_tokens r' !! i = Some (use_row (Middleware.now rq) row) ∧ up = true ∧ Standing l (Middleware.now rq) (bearerSecret rq) (owner row) i).
Proof.
  intros Hs. unfold handled. set (rq' := with_store up (run l) rq).
  destruct (token_reach S0 rq' _ next w eq_refl Hs) as [H1 H2].
  assert (∀ uid id u, Stands rq' (λ s, if up then (Authenticate true (Middleware.now rq) s (run l)).1 else Err TokenUnavailable) w uid id u
    ↔ up = true ∧ may_serve l rq w uid id u) as Heq.
  { intros uid id u. split.
    - intros [Ht Ho Ha Hd Hr]. change (bearerSecret rq') with (bearerSecret rq) in Ht. destruct up; [|done].
      split; [done|]. split; try done. by apply (authenticates_standing true).
    - intros [-> [Ht Ho Ha Hd Hr]]. split; try done. by apply authenticates_standing. }
  split_and!.
  - intros uid id u Hu Hm. destruct (H1 uid id u) as (p & Hp & Hpu & Hi & _ & Hf & _); [by apply Heq|]. eauto.
  - intros Hn. apply H2. intros (uid & id & u & Hm). apply Hn. exists uid, id, u. by apply Heq.
  - destruct up; [|done]. apply used_users.
  - destruct up; [|done]. apply used_dom.
  - intros i row Hr. destruct up; [|by left]. destruct (used_row lands l (Middleware.now rq) (bearerSecret rq) i row Hr) as [?|[? ?]]; auto.
Qed.
End Serving.

(** * How many there are, and for how long *)

Definition stands_at (now : time) (uid : string) (row : token_row) : Prop := owner row = uid ∧ revoked row = None ∧ now < expires row.

#[export] Instance stands_at_dec now uid row : Decision (stands_at now uid row).
Proof. unfold stands_at. apply _. Defined.

Definition active (now : time) (uid : string) (r : Repo) : gset string := dom (filter (λ ir, stands_at now uid ir.2) (api_tokens r)).

Lemma elem_of_active now uid r id : id ∈ active now uid r ↔ ∃ row, api_tokens r !! id = Some row ∧ stands_at now uid row.
Proof.
  unfold active. rewrite elem_of_dom. split.
  - intros [row [H1 H2]%map_lookup_filter_Some]. eauto.
  - intros (row & H1 & H2). exists row. by apply map_lookup_filter_Some.
Qed.

Lemma active_later now now' uid r : now ≤ now' → active now' uid r ⊆ active now uid r.
Proof. intros Hn id. rewrite !elem_of_active. intros (row & Hr & Ho & Hv & He). exists row. split; [done|]. split_and!; [done..|lia]. Qed.

Lemma filter_filter_b {A} (P : A → Prop) `{∀ x, Decision (P x)} (f : A → bool) l : (∀ x, f x = true ↔ P x) → List.filter f l = filter P l.
Proof.
  intros Hf. induction l as [|x l IH]; [done|]. cbn [List.filter]. destruct (f x) eqn:E.
  - rewrite filter_cons_True by by apply Hf. by rewrite IH.
  - rewrite filter_cons_False; [done|]. intros HP%Hf. congruence.
Qed.

Lemma CountActive_size now uid r : CountActive now uid r = size (active now uid r).
Proof.
  unfold CountActive, List_, active. rewrite size_dom.
  rewrite (filter_filter_b (λ t, tUserID t = uid ∧ Active t now = true)) by (intros t; by rewrite andb_true_iff, bool_decide_eq_true).
  rewrite (merge_sort_Permutation newest_first).
  assert (∀ id row, (tUserID (scan id row r) = uid ∧ Active (scan id row r) now = true) ↔ stands_at now uid row) as Hiff.
  { intros id row. unfold stands_at, Active, scan. cbn. rewrite andb_true_iff, bool_decide_eq_true, Z.ltb_lt. done. }
  generalize (api_tokens r). intros m. induction m as [|id row m Hm IH] using map_ind; [by rewrite map_to_list_empty, map_filter_empty, map_size_empty|].
  rewrite (map_to_list_insert m id row Hm), fmap_cons, filter_cons. cbn [fst snd]. destruct (decide (stands_at now uid row)) as [Hs|Hs].
  - rewrite decide_True by by apply Hiff. rewrite map_filter_insert_True by done. rewrite map_size_insert_None by (apply map_lookup_filter_None; by left).
    cbn. by rewrite IH.
  - rewrite decide_False by by rewrite Hiff. rewrite map_filter_insert_False by done. by rewrite delete_id.
Qed.

(** The clock when a token is made. *)
Definition made_at (o : op) : option time := match o with OMake _ _ now _ _ _ => Some now | _ => None end.

(** What the checks of [create] leave. *)
Lemma checked_ok now p enrolled i r nd : checked now p enrolled i r = Ok nd →
  1 ≤ nd.2 ≤ MaxDays ∧ (StepUpFresh now (Some p) = true ∨ enrolled = Some (Ok false)) ∧ (size (active now (Users.ID (User p)) r) < MaxActive)%nat.
Proof.
  unfold checked. cbv zeta. intros ([] & _ & H)%rbind_Ok. apply rbind_Ok in H as ([] & Hd & H). apply rbind_Ok in H as ([] & Hu & H).
  apply rbind_Ok in H as ([] & Hc & E). apply Ok_inj in E as <-. cbn [snd]. apply refuse_if_ok, orb_false_iff in Hd. apply refuse_if_ok, bool_decide_eq_false in Hc.
  rewrite CountActive_size in Hc. split_and!; [lia..| |lia]. unfold steppedUp in Hu. destruct (StepUpFresh now (Some p)); [by left|right].
  by destruct enrolled as [[[]|]|].
Qed.

Lemma create_ok newID raw now p enrolled i r t secret : (create newID raw now p enrolled i r).1 = ACreated t secret →
  ∃ days, 1 ≤ days ≤ MaxDays ∧ (StepUpFresh now (Some p) = true ∨ enrolled = Some (Ok false))
    ∧ (size (active now (Users.ID (User p)) r) < MaxActive)%nat ∧ tUserID t = Users.ID (User p) ∧ tCreatedAt t = now ∧ tExpiresAt t = now + days * (24 * Hour).
Proof.
  unfold create. intros H. destruct (checked _ _ _ _ _) as [nd|a] eqn:Ek; [|by apply (checked_refuses _ _ _ _ _ _ t secret) in Ek].
  unfold insert_ in H. destruct (Create _ _ _ _ _ _ _) as [[[t0 s0] r0]|] eqn:E; [|done]. cbn in H. injection H as <- <-.
  unfold Create in E. apply rbind_Ok in E as (sec & _ & E). cbv zeta in E. apply rbind_Ok in E as ([] & _ & E). apply Ok_inj in E. simplify_eq.
  apply checked_ok in Ek as (H1 & H2 & H3). by exists nd.2.
Qed.

(** One step adds no token that stands, or one, where fewer than the most stood. *)
Lemma active_step o r uid now :
  (size (active now uid (serve r o)) ≤ size (active now uid r))%nat ∨
  ∃ t0, made_at o = Some t0 ∧ (size (active t0 uid r) < MaxActive)%nat ∧ (size (active now uid (serve r o)) ≤ S (size (active now uid r)))%nat.
Proof.
  assert (∀ id, id ∈ active now uid (serve r o) → id ∉ active now uid r → ∃ t0, made_at o = Some t0 ∧ (size (active t0 uid r) < MaxActive)%nat
    ∧ active now uid (serve r o) ⊆ {[id]} ∪ active now uid r) as Hnew.
  { intros id (row' & Hr & Ho & Hv & He)%elem_of_active Hold. apply step_row in Hr as [(row & Hr & _ & K)|(Hn & t & sec & B)].
    { exfalso. apply Hold, elem_of_active. exists row. split; [done|]. destruct K. split_and!; [congruence|tauto|congruence]. }
    destruct (born_by _ _ _ _ _ _ B) as (raw & t0 & p & enrolled & i & -> & Hc). exists t0. destruct (create_ok _ _ _ _ _ _ _ _ _ Hc) as (d & _ & _ & Hlt & Hu & _).
    rewrite (born_owner _ _ _ _ _ _ B), Hu in Ho. rewrite Ho in Hlt. split_and!; [done..|].
    intros j (row2 & Hr2 & Ho2 & Hv2 & He2)%elem_of_active. apply step_row in Hr2 as [(row & Hr & _ & K)|(_ & t2 & sec2 & B2)].
    - apply elem_of_union_r, elem_of_active. exists row. split; [done|]. destruct K. split_and!; [congruence|tauto|congruence].
    - destruct (born_by _ _ _ _ _ _ B2) as (? & ? & ? & ? & ? & E & _). simplify_eq. set_solver. }
  destruct (decide (active now uid (serve r o) ⊆ active now uid r)) as [Hsub|Hsub]; [left; by apply subseteq_size|right].
  assert (∃ id, id ∈ active now uid (serve r o) ∖ active now uid r) as (id & [H1 H2]%elem_of_difference).
  { apply set_choose_L. intros E. apply Hsub. intros x Hx. destruct (decide (x ∈ active now uid r)); [done|]. set_solver. }
  destruct (Hnew id H1 H2) as (t0 & Ht & Hlt & Hs). exists t0. split_and!; [done..|]. apply subseteq_size in Hs. rewrite Hs.
  rewrite size_union_alt, size_singleton. pose proof (subseteq_size (active now uid r ∖ {[id]}) (active now uid r) ltac:(set_solver)). lia.
Qed.

Lemma TimeArg_days t d : TimeArg (t + d * (24 * Hour)) = TimeArg t + d * (24 * Hour).
Proof.
  unfold TimeArg. replace (t + d * (24 * Hour)) with (t + d * (24 * 3600 * 1000 * 1000) * Microsecond) by (unfold Hour, Minute, Second, Microsecond; lia).
  rewrite Z.div_add by done. unfold Hour, Minute, Second, Microsecond. lia.
Qed.

(** Nobody holds more than twenty tokens at once, and none for more than a
year.  While the clock does not run backwards from one making to the next, the
tokens of a user that stand at any later moment are at most twenty, as
[CountActive] counts them.  Every token in the table stands between one and 365
days from its making, and was made by its owner with a proof of the
authenticator not older than five minutes, unless the owner had none. *)
Theorem tokens_are_bounded l now uid :
  StronglySorted Z.le (omap made_at l) → Forall (λ t, t ≤ now) (omap made_at l) →
  (CountActive now uid (run l) ≤ MaxActive)%nat ∧
  ∀ id row, api_tokens (run l) !! id = Some row →
    made row + 24 * Hour ≤ expires row ≤ made row + MaxDays * (24 * Hour) ∧
    ∃ raw t0 p enrolled i, OMake id raw t0 p enrolled i ∈ l ∧ Users.ID (User p) = owner row ∧ made row = TimeArg t0
      ∧ (StepUpFresh t0 (Some p) = true ∨ enrolled = Some (Ok false)).
Proof.
  intros Hso Hle. split.
  - rewrite CountActive_size. revert now Hso Hle. induction l as [|o l IH] using rev_ind; intros now Hso Hle.
    { unfold active, run. cbn. rewrite map_filter_empty, dom_empty_L, size_empty. unfold MaxActive. lia. }
    rewrite token_run_snoc. rewrite omap_app in Hso, Hle. apply Forall_app in Hle as [Hle Hlo]. apply StronglySorted_app in Hso as (Hbefore & Hso & _).
    destruct (active_step o (run l) uid now) as [Hs|(t0 & Ho & Hlt & Hs)]; [by rewrite Hs; apply IH|]. rewrite Hs.
    cbn [omap list_omap] in Hlo. rewrite Ho in Hlo. apply Forall_cons in Hlo as [Hlo _]. pose proof (subseteq_size _ _ (active_later t0 now uid (run l) Hlo)). lia.
  - intros id row Hr. destruct (row_made _ _ _ Hr) as (t & given & after & [before raw t0 p enrolled i -> Hc] & Hs & _).
    destruct (create_ok _ _ _ _ _ _ _ _ _ Hc) as (d & Hd & Hstep & _ & Hu & Hm & He).
    rewrite (says_made _ _ _ _ _ Hs), (says_expires _ _ _ _ _ Hs), Hm, He. split.
    + rewrite TimeArg_days. unfold MaxDays in *. assert (0 < Hour) by done. nia.
    + exists raw, t0, p, enrolled, i. rewrite (says_owner _ _ _ _ _ Hs). split_and!; [|done..]. apply elem_of_app. right. left.
Qed.

(** * Examples *)

Definition ada_principal : Principal := {|
  Session := {| Sessions.ID := "s1"; Sessions.UserID := "u-ada"; MFAVerified := true; Sessions.IP := ""; UserAgent := ""; Sessions.CreatedAt := zero_time;
    ExpiresAt := zero_time; LastSeenAt := zero_time; MFAAt := zero_time |};
  User := normal "u-ada" 0 (person "ada" [RoleAdmin]); TokenID := "" |}.

Definition ask : createInput := {| inName := " terraform "; inDays := 0 |}.

Definition make (n : nat) : op :=
  OMake ("t" +:+ of_bytes [byte_of (65 + N.of_nat n)]) (Some (replicate 32 (byte_of (N.of_nat n)))) (Z.of_nat n) ada_principal (Some (Ok false)) ask.

Definition ex_history : list op := [OUser "u-ada" (Some "ada"); make 0; make 1; ORevoke 2 "tB"].

Definition secret_of_answer (a : Answer) : string := match a with ACreated _ s => s | _ => "" end.

Definition ex_secret : string :=
  Eval vm_compute in secret_of_answer (create "tA" (Some (replicate 32 (byte_of 0))) 0 ada_principal (Some (Ok false)) ask (run (take 1 ex_history))).1.

Definition ex_request : Middleware.request := {|
  Method := "GET"; Path := "/api/v1/groups"; cookie := None; Authorization := "Bearer " +:+ ex_secret;
  SecFetchSite := ""; Origin := ""; Host := "gw"; XCSRFToken := ""; ClientIP := "10.0.0.9"; Agent := "terraform"; Middleware.now := 5;
  Tokens := None |}.

(** The same token on a route that is not for tokens. *)
Definition ex_beyond : Middleware.request := {|
  Method := "GET"; Path := "/api/v1/users"; cookie := None; Authorization := "Bearer " +:+ ex_secret;
  SecFetchSite := ""; Origin := ""; Host := "gw"; XCSRFToken := ""; ClientIP := "10.0.0.9"; Agent := "terraform"; Middleware.now := 5; Tokens := None |}.

Definition ex_next : handler := λ _, mret (WriteJSON BFile).

Lemma token_serves_while_it_stands_witness :
  Strings.HasPrefix ex_secret TokenPrefix = true ∧
  (∃ p, (handled demo_sessions true true ex_next ex_request demo_world (run ex_history)).1 = (Ok (WriteJSON BFile), demo_world) ∧ TokenID p = "tA") ∧
  used <$> api_tokens (handled demo_sessions true true ex_next ex_beyond demo_world (run ex_history)).2 !! "tA" = Some (Some (TimeArg 5)) ∧
  dom (api_tokens (handled demo_sessions true true ex_next ex_beyond demo_world (run ex_history)).2) = dom (api_tokens (run ex_history)).
Proof.
  split; [vm_compute; reflexivity|]. split; [|split; [vm_compute; reflexivity|]].
  - destruct (token_serves_while_it_stands demo_sessions ex_history true true ex_request ex_next demo_world ltac:(vm_compute; discriminate)) as [H _].
    destruct (H "u-ada" "tA" (normal "u-ada" 0 (person "ada" [RoleAdmin])) eq_refl) as (p & Hp & _ & Ht & _).
    + split; [apply (authenticates_standing true); vm_compute; reflexivity|vm_compute; reflexivity|vm_compute; reflexivity|apply contains_spec; reflexivity|].
      apply TokenAllowed_Reach. vm_compute. reflexivity.
    + exists p. exact (conj Hp Ht).
  - destruct (token_serves_while_it_stands demo_sessions ex_history true true ex_beyond ex_next demo_world ltac:(vm_compute; discriminate)) as (_ & _ & _ & H & _).
    exact H.
Defined.

Lemma tokens_are_bounded_witness : CountActive 9 "u-ada" (run ex_history) = 1%nat ∧ (CountActive 9 "u-ada" (run ex_history) ≤ 20)%nat.
Proof.
  split; [vm_compute; reflexivity|].
  apply (tokens_are_bounded ex_history 9 "u-ada").
  - cbn. repeat constructor; lia.
  - cbn. repeat constructor; lia.
Defined.

(** Two requests that both count before either has written make one more than the
most: with nineteen standing, both are let through and twenty-one stand. *)
Lemma racing_makes_exceed :
  let r := run (OUser "u-ada" (Some "ada") :: (make <$> seq 0 19)) in
  ∃ nd1 nd2, checked 20 ada_principal (Some (Ok false)) ask r = Ok nd1 ∧ checked 20 ada_principal (Some (Ok false)) ask r = Ok nd2 ∧
    CountActive 21 "u-ada" (insert_ "u2" (Some [byte_of 251]) 20 ada_principal nd2 (insert_ "u1" (Some [byte_of 250]) 20 ada_principal nd1 r).2).2 = 21%nat.
Proof.
  cbv zeta. eexists _, _. split; [vm_compute; reflexivity|]. split; [vm_compute; reflexivity|]. vm_compute. reflexivity.
Qed.
